(* ===== verification/_CoqProject ===== *)
-Q . S2P
Prelude.v
StateMachine.v
DeltaTimer.v
MemBuf.v
BufferPool.v
IpFrag.v
Match.v
RingAlloc.v
RingMap.v
HashMap.v
RouteTable.v
CacheTable.v
EpfdInfo.v
Neighbour.v
Checksum.v
FlowSteering.v
RxPath.v
CqMgr.v
Gro.v
TxPath.v
UdpSocket.v
UdpWorld.v
Receiver.v
UdpOptions.v
