(* ===== verification/Prelude.v ===== *)
(** * libvma: a verification library

    libvma is a library that is loaded before an application and replaces
    its socket calls: data goes from user space to the network adapter
    through queues of the hardware (verbs) without the kernel.  This library
    models the parts of its C++ code that carry logic of their own, as
    executable functions, and proves what they promise to each other.

    ** The program and its parts

    A socket (src/vma/sock) is offloaded when the configuration rules say so
    (src/vma/util/match.cpp).  Its destination is resolved through cached
    tables of routes, rules, devices and neighbours (src/vma/proto,
    src/vma/infra); a neighbour runs a protocol on the generic state machine
    (src/state_machine).  The device gives the socket a ring chosen by the
    allocation logic (src/vma/dev), which takes packet buffers from global
    pools and finds the socket of a received packet in hash maps of flows;
    fragments of datagrams are reassembled first (src/vma/proto/ip_frag.cpp).
    An internal thread runs the timers of all these parts from one list
    (src/vma/event/delta_timer.cpp).

    ** Files

    - [Prelude]: outcomes of C++ code ([res]), machine integers, arrays,
      tactics and lemmas shared by the components.
    - [StateMachine]: src/state_machine/sm.cpp and sm_fifo.cpp: the expansion
      of the short table, [process_event] with re-entrant posting, the fifo.
    - [DeltaTimer]: delta_timer.cpp and the arithmetic of utils/clock.h: the
      doubly linked list of timers at the level of pointers.
    - [MemBuf]: mem_buf_desc.h: the shared store of buffer descriptors and
      the lists linked through them.
    - [BufferPool]: buffer_pool.cpp: taking and returning buffers, reference
      counts, the search for cycles before a panic.
    - [IpFrag]: ip_frag.cpp: the hole-descriptor algorithm on preallocated
      descriptors and the ageing of datagrams.
    - [Match]: match.cpp: rules on the bytes of socket addresses.
    - [RingAlloc]: ring_allocation_logic.cpp, ring_profile.cpp and the keys of
      net_device_val.cpp: which ring a socket uses and when it migrates.
    - [RingMap]: [reserve_ring] and [release_ring] of net_device_val.cpp.
    - [HashMap]: hash_map.h and hash_map.inl.
    - [RouteTable]: route_table_mgr.cpp and rule_table_mgr.cpp: parsing,
      longest-prefix resolution and source addresses.
    - [CacheTable]: subject_observer.cpp and cache_subject_observer.h: the
      template of the cached tables, with the virtual functions of a table
      as a class and the tables of devices and neighbours as instances.
    - [EpfdInfo]: epfd_info.cpp, the epoll part of socket_fd_api.cpp and the
      waiting of epoll_wait_call.cpp: the descriptors of an epoll set, its
      ready list and the reference counts of rings.
    - [Neighbour]: neighbour.cpp: the unicast Ethernet neighbour as a client of
      [StateMachine], with its entry functions, timers and waiting packets.
    - [Checksum]: the Internet checksums of utils.cpp.
    - [FlowSteering]: rfs.cpp and the attachment of flows in ring_simple.cpp:
      the sockets of a flow, the rules of the adapter and the filters that
      share them.
    - [RxPath]: [rx_process_buffer] of ring_simple.cpp and the dispatch of
      rfs_uc.cpp and rfs_mc.cpp, over [IpFrag], [Checksum] and
      [FlowSteering].
    - [CqMgr]: the receive side of cq_mgr.cpp and the posting of buffers of
      qp_mgr.cpp, over [BufferPool]; the ring is a class with laws, and
      [RxPath] is its instance.
    - [Gro]: gro_mgr.cpp and rfs_uc_tcp_gro.cpp: the segments of a connection
      merged into one packet.
    - [TxPath]: the transmit side of ring_simple.cpp, qp_mgr.cpp and
      cq_mgr.cpp over [BufferPool]: buffers and entries of the send queue,
      with the adapter and other threads running between the calls.
    - [UdpSocket]: the receive side of sockinfo_udp.cpp, sockinfo.h and
      sockinfo.cpp: inspection, redirection, the queue of ready packets,
      reads, and the return of buffers to rings and bonds.
    - [UdpWorld]: all UDP sockets of a process over one store of buffers,
      with the dispatch of [RxPath]: from the ring to the application.
    - [Receiver]: the flows of a socket in sockinfo.cpp: attaching, detaching,
      migration and the end; devices and the queue of the socket are classes
      with laws, and [RingMap] and [UdpSocket] are their instances.
    - [UdpOptions]: the options for multicast groups, bind, connect and port
      maps of sockinfo_udp.cpp, which decide what [UdpSocket] lets through.

    Each file keeps the names of the source.  A record has the members that
    the modelled functions read or write; pointers are [positive] addresses
    into a store (a [gmap]) wherever objects are shared, relinked or deleted,
    so that a dangling pointer is a missing address; objects that are on
    exactly one list are values of a Rocq list.  Unsigned arithmetic is
    reduced at its width where it can wrap.

    ** What the theorems show

    - Refinement: the state machine runs events to completion in posting
      order; the pointer operations of the timer list are operations on a
      sorted list of expiry times; rings, hash map and cached tables behave
      as a table of reference counts, a function, and a map of observer sets;
      flows behave as lists of sockets, with one rule of the adapter for each
      flow or group of flows in use, also when attachments interleave.
    - Functional behaviour: reassembly hands out the buffers of a datagram in
      order whatever the order of arrival; due timers are called once, in
      order; the transport is that of the first matching rule; a destination
      resolves to the longest prefix of the first table; pools move exactly
      the requested buffers; a datagram reaches exactly the sockets of its
      flow, with its addresses and payload, and the fast path agrees with the
      full one; merged segments keep the stream of their connection; checksums
      are the ones' complement sums of what was sent; a read returns the
      datagram at the front, and what the wire brought is what the
      application reads; packets for a multicast group come from the senders
      that were asked for.
    - Invariants and safety: every receive and every transmit buffer is in
      exactly one place and no queue is ever overfilled, whatever threads call
      and the adapter answers; a buffer that sockets share goes back exactly
      once, when the last of them is done with it; the flows of a socket, its
      reservations and the tables of the devices agree, and its end gives
      everything back; no packet makes the receive path
      read outside of its buffer; no descriptor of the fragment manager is lost; a
      constructed machine never leaves its tables; a pointer to a cached
      entry is valid while its observer is registered; a migration follows
      only after a stable candidate.
    - Termination: of the state machine, the expiry of timers, the cycle
      detection and the search for source addresses.
    - Error behaviour: panics and failures as values, and lemmas in the
      modules of examples that exhibit places where the code reads outside an
      object, loses a buffer or decides against its own rules.  The theorems
      name in their comments the cases that they leave out because of these:
      for instance truncating looks, refused migrations, groups that are left
      while others have lists of senders, and fragments in [CqMgr].
    - Liveness: whatever the outside answers, every call on a neighbour
      returns or reads NULL in one kind of state that is named, its packets
      depart in order, and a reachable peer is resolved;
      the descriptors of an epoll set stay in step with their sockets over
      every sequence of calls; stopping a ring returns what it sent.

    ** Fuel

    Loops that are not structural take fuel and return [NoFuel] without it.
    [process_event] needs one unit per event that callbacks can still post
    and one more; the expiry loop, one per due timer; Floyd's algorithm and
    [isCircle], one per descriptor of the store; other loops over a linked
    list take the size of its store; the rounds of source resolution, one more than the table has entries; the
    iterator of the hash map, the number of buckets; an event of a neighbour,
    four and three more for each retry that is left; the fold of a checksum,
    five rounds; the fragments of a datagram, the size of the store; the queue
    of received packets, its length; a drain, the number of completions; the
    filling of a queue pair, the number of its work requests; a merged packet,
    the number of its buffers; a call that does not block for a transmit
    buffer, one more than the completions that can still come; a read, one more
    than the buffers of the store; a new limit of a queue, one more than its
    packets; the end of a socket, the number of its flows.  The termination theorems
    prove that these bounds suffice; the others are stated for runs with
    enough fuel.

    ** What is not modelled

    Calls to verbs, RDMA CM, netlink and the operating system are parameters
    or absent: netlink sockets, the memory allocator; the adapter is the state
    and the steps that [CqMgr] and [TxPath] need of it.  What a socket does
    with a packet and IGMP are parameters of [RxPath], which hands segments to
    receive offload through the same interface as to a socket, and [UdpWorld]
    supplies the UDP sockets; [UdpSocket] leaves out time stamps, wake-ups,
    polling of the operating system and other socket options; the builds for
    socketxtreme and mlx5, the prefetching of buffers, and the moderation of interrupts are left out of [CqMgr].  Locks are not modelled: each operation that takes a lock is
    one atomic step, except that the blocking calls of [TxPath] let other threads run.  Logging and statistics are left out unless a counter is
    part of a contract.  The lwIP stack is C code of its own.  Deletion of a
    derived cached entry does not run the destructor's calls to other tables.

    ** Plan

    Next are, in this order: the bond logic of devices and rings; the requests
    of the event handler manager; the descriptor collection; destinations
    over [CacheTable], [RouteTable] and [Neighbour]; IGMP; containers; the
    queues of TCP sockets. *)

From stdpp Require Export base gmap list fin_maps sets strings.
From Stdlib Require Export ZArith Lia.

#[global] Open Scope Z_scope.

(** ** Outcomes of C++ code

    [Ok a]: the code returns [a].  [Throw]: it raises an exception or calls
    a panic macro.  [Undef]: it touches memory it does not own (NULL
    dereference, access to a freed object, array index out of range).
    [NoFuel]: the fuel given to a loop did not suffice. *)

Inductive res (A : Type) : Type :=
| Ok (a : A)
| Throw
| Undef
| NoFuel.
Arguments Ok {A} a.
Arguments Throw {A}.
Arguments Undef {A}.
Arguments NoFuel {A}.

#[global] Instance res_ret : MRet res := @Ok.
#[global] Instance res_bind : MBind res := fun _ _ f m =>
  match m with
  | Ok a => f a
  | Throw => Throw
  | Undef => Undef
  | NoFuel => NoFuel
  end.

#[global] Instance res_eq_dec `{EqDecision A} : EqDecision (res A).
Proof. solve_decision. Defined.

(** A read that must succeed: [None] is an access outside the object. *)
Definition must {A} (o : option A) : res A :=
  match o with Some a => Ok a | None => Undef end.

Lemma bind_Ok {A B} (m : res A) (f : A -> res B) b :
  m ≫= f = Ok b <-> exists a, m = Ok a /\ f a = Ok b.
Proof. destruct m; simpl; naive_solver. Qed.

Lemma must_Ok {A} (o : option A) a : must o = Ok a <-> o = Some a.
Proof. destruct o; simpl; naive_solver. Qed.

(** ** Machine integers: values are kept in [Z], reduced at their width *)

Definition wrap (w x : Z) : Z := x mod 2 ^ w.
Abbreviation u8 := (wrap 8).
Abbreviation u16 := (wrap 16).
Abbreviation u32 := (wrap 32).
Abbreviation u64 := (wrap 64).

(** Conversion to a signed integer of width [w] (two's complement). *)
Definition swrap (w x : Z) : Z := (x + 2 ^ (w - 1)) mod 2 ^ w - 2 ^ (w - 1).
Abbreviation i32 := (swrap 32).
Abbreviation i64 := (swrap 64).

Lemma wrap_small w x : 0 <= x < 2 ^ w -> wrap w x = x.
Proof. intros. by apply Z.mod_small. Qed.

Lemma wrap_range w x : 0 <= w -> 0 <= wrap w x < 2 ^ w.
Proof. intros. apply Z.mod_pos_bound. lia. Qed.

Lemma swrap_small w x : 0 < w -> - 2 ^ (w - 1) <= x < 2 ^ (w - 1) -> swrap w x = x.
Proof.
  intros Hw Hx. unfold swrap.
  assert (2 ^ w = 2 * 2 ^ (w - 1)) as E.
  { rewrite <- Z.pow_succ_r by lia. f_equal. lia. }
  rewrite Z.mod_small; lia.
Qed.

(** ** C arrays: indexed by a (possibly negative) integer *)

Definition lookupZ {A} (l : list A) (i : Z) : option A :=
  if decide (0 <= i) then l !! Z.to_nat i else None.
Definition insertZ {A} (i : Z) (x : A) (l : list A) : list A :=
  <[Z.to_nat i := x]> l.

Lemma lookupZ_Some {A} (l : list A) i x :
  lookupZ l i = Some x <-> 0 <= i /\ l !! Z.to_nat i = Some x.
Proof. unfold lookupZ. case_decide; naive_solver lia. Qed.

Lemma lookupZ_is_Some {A} (l : list A) i :
  is_Some (lookupZ l i) <-> 0 <= i < Z.of_nat (length l).
Proof.
  unfold lookupZ. case_decide as H.
  - rewrite lookup_lt_is_Some. lia.
  - split; [intros [? [=]] | lia].
Qed.

Lemma lookupZ_None {A} (l : list A) i :
  lookupZ l i = None <-> ~ (0 <= i < Z.of_nat (length l)).
Proof. rewrite <- lookupZ_is_Some, <- eq_None_not_Some. done. Qed.

Lemma lookupZ_insertZ {A} (l : list A) i j x :
  0 <= i < Z.of_nat (length l) ->
  lookupZ (insertZ i x l) j = if decide (i = j) then Some x else lookupZ l j.
Proof.
  intros Hi. unfold lookupZ, insertZ. destruct (decide (0 <= j)).
  - case_decide; subst.
    + rewrite list_lookup_insert_eq; [done | lia].
    + rewrite list_lookup_insert_ne; [done | lia].
  - case_decide; [lia | done].
Qed.

Lemma length_insertZ {A} i (x : A) l : length (insertZ i x l) = length l.
Proof. apply length_insert. Qed.

Lemma Forall_insertZ {A} (P : A -> Prop) l i x :
  Forall P l -> P x -> Forall P (insertZ i x l).
Proof. intros. by apply Forall_insert. Qed.

Lemma Forall_lookupZ {A} (P : A -> Prop) l i x :
  Forall P l -> lookupZ l i = Some x -> P x.
Proof. intros Hl [_ Hx]%lookupZ_Some. by eapply Forall_lookup_1. Qed.

(** ** Proof automation shared by the components *)

Create HintDb vma.
#[export] Hint Resolve wrap_range : vma.

(** Split a successful monadic computation into its steps. *)
Ltac inv_res :=
  repeat match goal with
  | H : _ ≫= _ = Ok _ |- _ => apply bind_Ok in H as (? & ? & ?)
  | H : mbind _ _ = Ok _ |- _ => apply bind_Ok in H as (? & ? & ?)
  | H : must _ = Ok _ |- _ => apply must_Ok in H
  | H : Ok _ = Ok _ |- _ => injection H as H; try subst
  | H : Throw = Ok _ |- _ => discriminate H
  | H : Undef = Ok _ |- _ => discriminate H
  | H : NoFuel = Ok _ |- _ => discriminate H
  end.

(** ** Safety of partial computations: [safe P m] says that [m] neither
    throws nor touches memory it does not own, and that a result it
    returns satisfies [P]; running out of fuel is allowed. *)

Definition safe {A} (P : A -> Prop) (m : res A) : Prop :=
  match m with Ok a => P a | NoFuel => True | Throw | Undef => False end.

Lemma safe_bind {A B} (P : A -> Prop) (Q : B -> Prop) m (f : A -> res B) :
  safe P m -> (forall a, P a -> safe Q (f a)) -> safe Q (m ≫= f).
Proof. destruct m; simpl; auto. Qed.

Lemma safe_must {A B} (P : B -> Prop) (o : option A) (f : A -> res B) :
  is_Some o -> (forall a, o = Some a -> safe P (f a)) -> safe P (must o ≫= f).
Proof. intros [a ->] H. simpl. auto. Qed.

Lemma safe_Ok {A} (P : A -> Prop) m a : safe P m -> m = Ok a -> P a.
Proof. by intros H ->. Qed.

Lemma safe_mono {A} (P Q : A -> Prop) m : (forall a, P a -> Q a) -> safe P m -> safe Q m.
Proof. destruct m; simpl; auto. Qed.

(** [returns P m]: [m] returns a result, which satisfies [P]. *)

Definition returns {A} (P : A -> Prop) (m : res A) : Prop := exists a, m = Ok a /\ P a.

Lemma returns_Ok {A} (P : A -> Prop) a : P a -> returns P (Ok a).
Proof. intros. by exists a. Qed.

Lemma returns_bind {A B} (P : A -> Prop) (Q : B -> Prop) m (f : A -> res B) :
  returns P m -> (forall a, P a -> returns Q (f a)) -> returns Q (m ≫= f).
Proof. intros (a & -> & Ha) Hf. simpl. auto. Qed.

Lemma returns_must {A B} (Q : B -> Prop) (o : option A) a (f : A -> res B) :
  o = Some a -> returns Q (f a) -> returns Q (must o ≫= f).
Proof. by intros ->. Qed.

Lemma returns_mono {A} (P Q : A -> Prop) m : (forall a, P a -> Q a) -> returns P m -> returns Q m.
Proof. intros H (a & -> & Ha). by exists a; auto. Qed.

#[export] Hint Resolve returns_Ok : vma.

(** ** Lists *)

Lemma filter_all {A} (P : A -> Prop) `{!forall x, Decision (P x)} (l : list A) :
  Forall P l -> filter P l = l.
Proof.
  induction 1 as [|x l Hx Hl IH]; [done|]. rewrite filter_cons_True by done. by rewrite IH.
Qed.

(** A finite sequence without a repetition has distinct elements. *)
Lemma not_NoDup_fmap_seq `{EqDecision A} (f : nat -> A) n :
  ~ NoDup (f <$> seq 0 n) -> exists a b, (a < b < n)%nat /\ f a = f b.
Proof.
  induction n as [|n IH]; [intros []; constructor|].
  rewrite seq_S, fmap_app. simpl. intros Hnd.
  destruct (decide (f n ∈ f <$> seq 0 n)) as [Hin|Hin].
  - apply list_elem_of_fmap in Hin as (a & Ha & Hs%elem_of_seq). exists a, n. split; [lia|done].
  - destruct IH as (a & b & Hab & Hf); [|exists a, b; split; [lia|done]].
    intros Hn. apply Hnd, NoDup_app. split_and!; [done| |apply NoDup_singleton].
    intros x Hx ->%list_elem_of_singleton. done.
Qed.

(** [ntohs] and [htons] on a little-endian host: swap the two bytes. *)
Definition ntohs (x : Z) : Z := Z.lor (Z.shiftl (Z.land x 255) 8) (Z.land (Z.shiftr x 8) 255).

(** [htonl] and [ntohl]: reverse the four bytes. *)
Definition htonl (x : Z) : Z :=
  Z.lor (Z.lor (Z.shiftl (Z.land x 255) 24) (Z.shiftl (Z.land (Z.shiftr x 8) 255) 16))
        (Z.lor (Z.shiftl (Z.land (Z.shiftr x 16) 255) 8) (Z.land (Z.shiftr x 24) 255)).

Lemma testbit_lt x n i : 0 <= x < 2 ^ n -> 0 <= n <= i -> Z.testbit x i = false.
Proof.
  intros Hx Hi. rewrite <- (Z.mod_small x (2 ^ n)) by done. apply Z.mod_pow2_bits_high. lia.
Qed.

(** Joining a high part and a low part. *)
Lemma lor_shiftl_add a b k : 0 <= k -> 0 <= b < 2 ^ k -> Z.lor (Z.shiftl a k) b = a * 2 ^ k + b.
Proof.
  intros Hk Hb. rewrite Z.shiftl_mul_pow2 by done.
  rewrite <- Z.add_lor_land. replace (Z.land (a * 2 ^ k) b) with 0; [lia|].
  symmetry. apply Z.bits_inj'. intros i Hi. rewrite Z.land_spec, Z.bits_0.
  destruct (decide (i < k)); [by rewrite Z.mul_pow2_bits_low by lia|].
  rewrite (testbit_lt b k i) by lia. apply andb_false_r.
Qed.

Lemma land_255 x : Z.land x 255 = x mod 256.
Proof. change 255 with (Z.ones 8). by rewrite Z.land_ones by lia. Qed.

Lemma ntohs_swap a b : 0 <= a < 256 -> 0 <= b < 256 -> ntohs (a + 256 * b) = a * 256 + b.
Proof.
  intros Ha Hb. unfold ntohs. rewrite !land_255, Z.shiftr_div_pow2 by lia. change (2 ^ 8) with 256.
  replace ((a + 256 * b) mod 256) with a by (apply (Z.mod_unique _ _ b); lia).
  replace ((a + 256 * b) / 256) with b by (apply (Z.div_unique _ _ _ a); lia).
  rewrite (Z.mod_small b) by lia. apply lor_shiftl_add; lia.
Qed.
