(* ===== verification/StateMachine.v ===== *)
(** * The generic state machine (src/state_machine)

    [state_machine] of sm.cpp turns a short table of (state, event) lines
    into a full table and dispatches events on it; [sm_fifo] queues the
    events that callbacks post while an event is being processed.  The
    neighbour component runs its ARP / RDMA-CM protocol on it.

    Callbacks are client code: a callback is a function pointer (NULL is
    [None]) whose behaviour is a parameter, a function that updates the
    client's own state and lists the [process_event] calls it makes on the
    machine that invoked it, in order. *)

From S2P Require Import Prelude.

(** ** Data *)

Definition SM_ERROR : Z := -1.
Definition SM_NO_ST : Z := -2.
Definition SM_ST_STAY : Z := -3.
Definition SM_STATE_ENTRY : Z := -4.
Definition SM_STATE_LEAVE : Z := -5.

(** A callback pointer; a [void*] is an opaque number, 0 is NULL. *)
Abbreviation sm_action_cb_t := (option positive).
#[global] Notation void_ptr := Z (only parsing).

Record sm_info_t := SmInfo {
  old_state : Z;
  new_state : Z;
  info_event : Z;
  info_ev_data : void_ptr;
  app_hndl : void_ptr
}.

Record sm_short_table_line_t := SmLine {
  line_state : Z;
  line_event : Z;
  line_next_state : Z;
  line_action_func : sm_action_cb_t
}.

Record sm_event_info_t := SmEventInfo {
  next_state : Z;
  trans_func : sm_action_cb_t
}.

Record sm_state_info_t := SmStateInfo {
  entry_func : sm_action_cb_t;
  leave_func : sm_action_cb_t;
  event_info : list sm_event_info_t
}.

Record sm_fifo_entry_t := SmFifoEntry {
  fe_event : Z;
  fe_ev_data : void_ptr
}.

Record state_machine := StateMachine {
  m_max_states : Z;
  m_max_events : Z;
  m_p_sm_table : list sm_state_info_t;
  m_new_event_notify_func : sm_action_cb_t;
  m_sm_fifo : list sm_fifo_entry_t;
  m_b_is_in_process : bool;
  m_info : sm_info_t
}.

Definition set_fifo (q : list sm_fifo_entry_t) (s : state_machine) : state_machine :=
  StateMachine (m_max_states s) (m_max_events s) (m_p_sm_table s)
    (m_new_event_notify_func s) q (m_b_is_in_process s) (m_info s).
Definition set_in_process (b : bool) (s : state_machine) : state_machine :=
  StateMachine (m_max_states s) (m_max_events s) (m_p_sm_table s)
    (m_new_event_notify_func s) (m_sm_fifo s) b (m_info s).
Definition set_info (i : sm_info_t) (s : state_machine) : state_machine :=
  StateMachine (m_max_states s) (m_max_events s) (m_p_sm_table s)
    (m_new_event_notify_func s) (m_sm_fifo s) (m_b_is_in_process s) i.

(** ** sm_fifo.cpp *)

Module sm_fifo.

Definition is_empty (q : list sm_fifo_entry_t) : bool :=
  match q with [] => true | _ => false end.

Definition push_back (q : list sm_fifo_entry_t) (element : Z) (ev_data : void_ptr)
  : list sm_fifo_entry_t :=
  q ++ [SmFifoEntry element ev_data].

(** On an empty fifo the returned entry has event -1. *)
Definition pop_front (q : list sm_fifo_entry_t)
  : sm_fifo_entry_t * list sm_fifo_entry_t :=
  match q with
  | [] => (SmFifoEntry (-1) 0, [])
  | e :: q' => (e, q')
  end.

End sm_fifo.

(** ** Building the full table *)

Section Table.
Context (max_states max_events : Z).
Context (default_entry_func default_leave_func default_trans_func : sm_action_cb_t).

(** The two allocation loops and the loop that fills in the defaults. *)
Definition default_table : list sm_state_info_t :=
  replicate (Z.to_nat max_states)
    (SmStateInfo default_entry_func default_leave_func
       (replicate (Z.to_nat max_events) (SmEventInfo SM_ST_STAY default_trans_func))).

Definition set_entry_func (f : sm_action_cb_t) (si : sm_state_info_t) :=
  SmStateInfo f (leave_func si) (event_info si).
Definition set_leave_func (f : sm_action_cb_t) (si : sm_state_info_t) :=
  SmStateInfo (entry_func si) f (event_info si).
Definition set_event_info (ev : Z) (ei : sm_event_info_t) (si : sm_state_info_t) :=
  SmStateInfo (entry_func si) (leave_func si) (insertZ ev ei (event_info si)).

(** One iteration of the [while (1)] loop on a line that is not the end
    marker: the return code to leave with, or the updated table. *)
Definition fill_line (l : sm_short_table_line_t) (t : list sm_state_info_t)
  : res (Z + list sm_state_info_t) :=
  let st := line_state l in
  let ev := line_event l in
  if (st <? 0) || (max_states <=? st) then Ok (inl SM_ERROR)
  else
    si ← must (lookupZ t st);
    if ev =? SM_STATE_ENTRY then Ok (inr (insertZ st (set_entry_func (line_action_func l) si) t))
    else if ev =? SM_STATE_LEAVE then Ok (inr (insertZ st (set_leave_func (line_action_func l) si) t))
    else if (ev <? 0) || (max_events <=? ev) then Ok (inl SM_ERROR)
    else if max_states <=? line_next_state l then Ok (inl SM_ERROR)
    else
      ei ← must (lookupZ (event_info si) ev);
      if bool_decide (trans_func ei <> default_trans_func) then Ok (inl SM_ERROR)
      else Ok (inr (insertZ st
        (set_event_info ev (SmEventInfo (line_next_state l) (line_action_func l)) si) t)).

(** The loop over the user's table: a table without its end marker is read
    past its end. *)
Fixpoint fill_table (lines : list sm_short_table_line_t) (t : list sm_state_info_t)
  : res (Z * list sm_state_info_t) :=
  match lines with
  | [] => Undef
  | l :: lines' =>
    if line_state l =? SM_NO_ST then Ok (0, t)
    else
      r ← fill_line l t;
      match r with
      | inl err => Ok (err, t)
      | inr t' => fill_table lines' t'
      end
  end.

Definition process_sparse_table (short_table : list sm_short_table_line_t)
  : res (Z * list sm_state_info_t) :=
  fill_table short_table default_table.

End Table.

(** The constructor; the return code of [process_sparse_table] is dropped. *)
Definition new_state_machine (app : void_ptr) (start_state max_states max_events : Z)
    (short_table : list sm_short_table_line_t)
    (default_entry_func default_leave_func default_trans_func notify : sm_action_cb_t)
  : res state_machine :=
  if (start_state <? 0) || (max_states <=? start_state) then Throw
  else
    '(_, t) ← process_sparse_table max_states max_events
                default_entry_func default_leave_func default_trans_func short_table;
    Ok (StateMachine max_states max_events t notify [] false
          (SmInfo start_state (-1) (-1) 0 app)).

(** ** Processing events *)

Definition get_curr_state (s : state_machine) : Z := old_state (m_info s).

Definition lock_in_process (event : Z) (ev_data : void_ptr) (s : state_machine)
  : Z * state_machine :=
  if negb (m_b_is_in_process s) then (0, set_in_process true s)
  else (-1, set_fifo (sm_fifo.push_back (m_sm_fifo s) event ev_data) s).

Section Events.
Context {A : Type}.
(** What the client's callbacks do: new client state, [process_event] calls. *)
Context (run_action : positive -> sm_info_t -> A -> A * list sm_fifo_entry_t).
Context (run_notify : positive -> Z -> Z -> void_ptr -> A -> A * list sm_fifo_entry_t).

Abbreviation st := (state_machine * A)%type.
Abbreviation call_t := (Z -> void_ptr -> st -> res (Z * st)).

(** The [process_event] calls a callback makes; their results are dropped. *)
Fixpoint calls (process_event : call_t) (posts : list sm_fifo_entry_t) (x : st) : res st :=
  match posts with
  | [] => Ok x
  | p :: posts' =>
    '(_, x') ← process_event (fe_event p) (fe_ev_data p) x;
    calls process_event posts' x'
  end.

Definition call_action (process_event : call_t) (f : sm_action_cb_t) (x : st) : res st :=
  match f with
  | None => Ok x
  | Some p =>
    let '(a', posts) := run_action p (m_info (fst x)) (snd x) in
    calls process_event posts (fst x, a')
  end.

Definition call_notify (process_event : call_t) (event : Z) (x : st) : res st :=
  match m_new_event_notify_func (fst x) with
  | None => Ok x
  | Some p =>
    let '(a', posts) := run_notify p (get_curr_state (fst x)) event (app_hndl (m_info (fst x))) (snd x) in
    calls process_event posts (fst x, a')
  end.

Definition moves (next : Z) (s : state_machine) : bool :=
  negb (next =? get_curr_state s) && negb (next =? SM_ST_STAY).

(** The part of [process_event] between its guard and the unlock. *)
Definition dispatch (process_event : call_t) (event : Z) (ev_data : void_ptr) (x : st) : res st :=
  let '(s, a) := x in
  p_sm_state_info ← must (lookupZ (m_p_sm_table s) (get_curr_state s));
  ei ← must (lookupZ (event_info p_sm_state_info) event);
  let next := next_state ei in
  let s := set_info (SmInfo (get_curr_state s) next event ev_data (app_hndl (m_info s))) s in
  x ← call_notify process_event event (s, a);
  x ← (if moves next (fst x) then call_action process_event (leave_func p_sm_state_info) x
       else Ok x);
  x ← call_action process_event (trans_func ei) x;
  if moves next (fst x) then
    ni ← must (lookupZ (m_p_sm_table (fst x)) next);
    '(s, a) ← call_action process_event (entry_func ni) x;
    let i := m_info s in
    Ok (set_info (SmInfo next (new_state i) (info_event i) (info_ev_data i) (app_hndl i)) s, a)
  else Ok x.

Definition unlock_in_process (process_event : call_t) (x : st) : res st :=
  let s := set_in_process false (fst x) in
  if sm_fifo.is_empty (m_sm_fifo s) then Ok (s, snd x)
  else
    let '(ret, q) := sm_fifo.pop_front (m_sm_fifo s) in
    '(_, x') ← process_event (fe_event ret) (fe_ev_data ret) (set_fifo q s, snd x);
    Ok x'.

(** One unit of fuel per nesting level of [process_event]. *)
Fixpoint process_event (fuel : nat) (event : Z) (ev_data : void_ptr) (x : st)
  : res (Z * st) :=
  match fuel with
  | O => NoFuel
  | S fuel =>
    let '(locked, s) := lock_in_process event ev_data (fst x) in
    let x := (s, snd x) in
    if locked =? -1 then Ok (0, x)
    else if (m_max_events s <? event) || (event <? 0) then
      x ← unlock_in_process (process_event fuel) x;
      Ok (-1, x)
    else
      x ← dispatch (process_event fuel) event ev_data x;
      x ← unlock_in_process (process_event fuel) x;
      Ok (0, x)
  end.

End Events.

#[global] Arguments dispatch : simpl never.
#[global] Arguments unlock_in_process : simpl never.

(** ** Specification

    What the machine promises its clients: an event runs to completion
    (notify, leave, transition, entry, in this order) before the next one,
    and the events posted meanwhile run afterwards in the order they were
    posted.  The specification keeps only the public [sm_info_t] and an
    explicit queue. *)

Section Spec.
Context {A : Type}.
Context (run_action : positive -> sm_info_t -> A -> A * list sm_fifo_entry_t).
Context (run_notify : positive -> Z -> Z -> void_ptr -> A -> A * list sm_fifo_entry_t).

Definition action_effect (f : sm_action_cb_t) (i : sm_info_t) (a : A) :=
  match f with None => (a, []) | Some p => run_action p i a end.
Definition notify_effect (f : sm_action_cb_t) (i : sm_info_t) (a : A) :=
  match f with None => (a, []) | Some p => run_notify p (old_state i) (info_event i) (app_hndl i) a end.

Definition leaves (i : sm_info_t) : bool :=
  negb (new_state i =? old_state i) && negb (new_state i =? SM_ST_STAY).

(** One event: the new info, the new client state, the events posted. *)
Definition react (s : state_machine) (i : sm_info_t) (a : A) (e : sm_fifo_entry_t)
  : res (sm_info_t * A * list sm_fifo_entry_t) :=
  si ← must (lookupZ (m_p_sm_table s) (old_state i));
  ei ← must (lookupZ (event_info si) (fe_event e));
  let i := SmInfo (old_state i) (next_state ei) (fe_event e) (fe_ev_data e) (app_hndl i) in
  let '(a, p1) := notify_effect (m_new_event_notify_func s) i a in
  let '(a, p2) := if leaves i then action_effect (leave_func si) i a else (a, []) in
  let '(a, p3) := action_effect (trans_func ei) i a in
  if leaves i then
    ni ← must (lookupZ (m_p_sm_table s) (new_state i));
    let '(a, p4) := action_effect (entry_func ni) i a in
    Ok (SmInfo (new_state i) (new_state i) (info_event i) (info_ev_data i) (app_hndl i),
        a, p1 ++ p2 ++ p3 ++ p4)
  else Ok (i, a, p1 ++ p2 ++ p3).

Definition rejected (s : state_machine) (event : Z) : bool :=
  (m_max_events s <? event) || (event <? 0).

Fixpoint run_queue (s : state_machine) (fuel : nat) (q : list sm_fifo_entry_t)
    (i : sm_info_t) (a : A) : res (sm_info_t * A) :=
  match q, fuel with
  | [], _ => Ok (i, a)
  | _ :: _, O => NoFuel
  | e :: q, S fuel =>
    if rejected s (fe_event e) then run_queue s fuel q i a
    else
      '(i, a, p) ← react s i a e;
      run_queue s fuel (q ++ p) i a
  end.

(** ** Lemmas: nested calls only queue *)

#[local] Arguments react : simpl never.

Lemma set_fifo_fifo q q' s : set_fifo q (set_fifo q' s) = set_fifo q s.
Proof. done. Qed.
Lemma set_fifo_id s : set_fifo (m_sm_fifo s) s = s.
Proof. by destruct s. Qed.

(** On a busy machine the calls of a callback queue their events, provided
    ([gate]) that there is fuel for them or none is made. *)
Definition gate (b : bool) (p : list sm_fifo_entry_t) : bool :=
  b || match p with [] => true | _ => false end.

Lemma gate_app b p q : gate b (p ++ q) = gate b p && gate b q.
Proof. by destruct b, p. Qed.

Definition queues (b : bool) (pe : Z -> void_ptr -> state_machine * A -> res (Z * (state_machine * A))) : Prop :=
  forall posts s a, m_b_is_in_process s = true ->
    calls pe posts (s, a) =
    if gate b posts then Ok (set_fifo (m_sm_fifo s ++ posts) s, a) else NoFuel.

Lemma fuel_queues n : queues (bool_decide (n <> O)) (process_event run_action run_notify n).
Proof.
  intros posts. induction posts as [|[e d] posts IH]; intros s a Hs; simpl.
  - rewrite app_nil_r, set_fifo_id. by destruct n.
  - destruct n as [|n]; [done|]. simpl in *. unfold lock_in_process. rewrite Hs. simpl.
    rewrite IH by done. simpl. unfold sm_fifo.push_back.
    by rewrite set_fifo_fifo, <- app_assoc.
Qed.

Lemma call_action_queues b pe f s a : queues b pe -> m_b_is_in_process s = true ->
  call_action run_action pe f (s, a) =
  let '(a', p) := action_effect f (m_info s) a in
  if gate b p then Ok (set_fifo (m_sm_fifo s ++ p) s, a') else NoFuel.
Proof.
  intros Hq Hs. unfold call_action, action_effect. destruct f as [f|]; simpl.
  - destruct (run_action f (m_info s) a) as [a' p]. by apply Hq.
  - rewrite app_nil_r, set_fifo_id. by destruct b.
Qed.

Lemma call_notify_queues b pe e s a : queues b pe -> m_b_is_in_process s = true ->
  e = info_event (m_info s) ->
  call_notify run_notify pe e (s, a) =
  let '(a', p) := notify_effect (m_new_event_notify_func s) (m_info s) a in
  if gate b p then Ok (set_fifo (m_sm_fifo s ++ p) s, a') else NoFuel.
Proof.
  intros Hq Hs ->. unfold call_notify, notify_effect. simpl.
  destruct (m_new_event_notify_func s) as [f|]; simpl.
  - unfold get_curr_state. destruct (run_notify _ _ _ _ _) as [a' p]. by apply Hq.
  - rewrite app_nil_r, set_fifo_id. by destruct b.
Qed.

(** The same for an optional leave callback. *)
Lemma call_if_queues b pe (m : bool) f s a : queues b pe -> m_b_is_in_process s = true ->
  (if m then call_action run_action pe f (s, a) else Ok (s, a)) =
  let '(a', p) := if m then action_effect f (m_info s) a else (a, []) in
  if gate b p then Ok (set_fifo (m_sm_fifo s ++ p) s, a') else NoFuel.
Proof.
  intros Hq Hs. destruct m; [by apply call_action_queues|].
  rewrite app_nil_r, set_fifo_id. by destruct b.
Qed.

(** The guard on the state change reads the same state before and after the
    callbacks. *)
Lemma moves_leaves n i s : m_info s = i -> new_state i = n -> moves n s = leaves i.
Proof. by intros <- <-. Qed.

(** [dispatch] on a busy machine is [react] with the posted events queued. *)
Lemma dispatch_react_1 b pe e d s a x' : queues b pe -> m_b_is_in_process s = true ->
  dispatch run_action run_notify pe e d (s, a) = Ok x' ->
  exists i a' p, react s (m_info s) a (SmFifoEntry e d) = Ok (i, a', p) /\
    gate b p = true /\ x' = (set_info i (set_fifo (m_sm_fifo s ++ p) s), a').
Proof.
  intros Hq Hs. unfold dispatch, react, get_curr_state. simpl.
  destruct (lookupZ (m_p_sm_table s) (old_state (m_info s))) as [si|]; simpl; [|done].
  destruct (lookupZ (event_info si) e) as [ei|]; simpl; [|done].
  rewrite (call_notify_queues b) by done. simpl. set (i0 := SmInfo _ _ _ _ _).
  destruct (notify_effect _ i0 a) as [a1 p1]. destruct (gate b p1) eqn:G1; simpl; [|done].
  rewrite (moves_leaves _ i0) by done.
  rewrite (call_if_queues b) by done. simpl.
  destruct (if leaves i0 then _ else _) as [a2 p2]. destruct (gate b p2) eqn:G2; simpl; [|done].
  rewrite (call_action_queues b) by done. simpl.
  destruct (action_effect (trans_func ei) i0 a2) as [a3 p3]. destruct (gate b p3) eqn:G3; simpl; [|done].
  rewrite (moves_leaves _ i0) by done. destruct (leaves i0).
  - destruct (lookupZ (m_p_sm_table s) (next_state ei)) as [ni|]; simpl; [|done].
    rewrite (call_action_queues b) by done. simpl.
    destruct (action_effect (entry_func ni) i0 a3) as [a4 p4]. destruct (gate b p4) eqn:G4; simpl; [|done].
    intros [= <-]. do 3 eexists. split; [done|]. rewrite !gate_app, G1, G2, G3, G4.
    split; [done|]. unfold set_info, set_fifo. simpl. by rewrite <- !app_assoc.
  - intros [= <-]. do 3 eexists. split; [done|]. rewrite !gate_app, G1, G2, G3.
    split; [done|]. unfold set_info, set_fifo. simpl. by rewrite <- !app_assoc.
Qed.

Lemma dispatch_react_2 b pe e d s a i a' p : queues b pe -> m_b_is_in_process s = true ->
  react s (m_info s) a (SmFifoEntry e d) = Ok (i, a', p) -> gate b p = true ->
  dispatch run_action run_notify pe e d (s, a) =
  Ok (set_info i (set_fifo (m_sm_fifo s ++ p) s), a').
Proof.
  intros Hq Hs. unfold dispatch, react, get_curr_state. simpl.
  destruct (lookupZ (m_p_sm_table s) (old_state (m_info s))) as [si|]; simpl; [|done].
  destruct (lookupZ (event_info si) e) as [ei|]; simpl; [|done].
  rewrite (call_notify_queues b) by done. simpl. set (i0 := SmInfo _ _ _ _ _).
  destruct (notify_effect _ i0 a) as [a1 p1].
  destruct (if leaves i0 then _ else _) as [a2 p2] eqn:E2.
  destruct (action_effect (trans_func ei) i0 a2) as [a3 p3] eqn:E3.
  intros Hr Hg. assert (exists p', p = p1 ++ p2 ++ p3 ++ p') as [p' Hp].
  { destruct (leaves i0); inv_res.
    - destruct (action_effect (entry_func _) i0 a3) as [a4 p4]. simplify_eq. by exists p4.
    - simplify_eq. exists []. by rewrite app_nil_r. }
  rewrite Hp, !gate_app in Hg. apply andb_true_iff in Hg as [G1 [G2 [G3 G4]%andb_true_iff]%andb_true_iff].
  rewrite G1. simpl. rewrite (moves_leaves _ i0) by done.
  rewrite (call_if_queues b) by done. simpl. rewrite E2, G2. simpl.
  rewrite (call_action_queues b) by done. simpl. rewrite E3, G3. simpl.
  rewrite (moves_leaves _ i0) by done. destruct (leaves i0).
  - inv_res. simpl in *. match goal with H : lookupZ _ _ = Some ?n |- _ => rewrite H; rename n into ni end.
    simpl. rewrite (call_action_queues b) by done. simpl.
    destruct (action_effect (entry_func ni) i0 a3) as [a4 p4].
    simplify_list_eq. rewrite G4.
    reflexivity.
  - simplify_list_eq. match goal with H : ?l = ?l ++ _ |- _ => rewrite <- H end. reflexivity.
Qed.

(** The queue semantics reads only the configuration of the machine. *)
Lemma run_queue_cfg s s' n q i a :
  m_max_events s = m_max_events s' -> m_p_sm_table s = m_p_sm_table s' ->
  m_new_event_notify_func s = m_new_event_notify_func s' ->
  run_queue s n q i a = run_queue s' n q i a.
Proof.
  intros H1 H2 H3. revert q i a. induction n as [|n IH]; intros [|e q] i a; simpl; try done.
  unfold rejected. rewrite H1. case_match; [done|].
  assert (react s i a e = react s' i a e) as -> by (unfold react; by rewrite H2, H3).
  destruct (react s' i a e) as [[[??]?]| | |]; simpl; auto.
Qed.

Definition idle (s : state_machine) : Prop := m_b_is_in_process s = false.

(** After [dispatch], [unlock_in_process] runs whatever is queued. *)
Lemma unlock_run_queue n s a s' a' :
  (forall e d s a r s' a', idle s ->
    process_event run_action run_notify n e d (s, a) = Ok (r, (s', a')) <->
    exists i', run_queue s n (SmFifoEntry e d :: m_sm_fifo s) (m_info s) a = Ok (i', a') /\
      s' = set_info i' (set_fifo [] s) /\ r = if rejected s e then -1 else 0) ->
  unlock_in_process (process_event run_action run_notify n) (s, a) = Ok (s', a') <->
  exists i', run_queue s n (m_sm_fifo s) (m_info s) a = Ok (i', a') /\
    s' = set_info i' (set_fifo [] (set_in_process false s)).
Proof.
  intros IH. unfold unlock_in_process. simpl.
  destruct (m_sm_fifo s) as [|[e d] q] eqn:Eq; simpl.
  - destruct n; simpl; (split; [intros [= <- <-]; exists (m_info s); split; [done|];
      destruct s; simpl in *; by subst | intros (i' & [= <- <-] & ->); destruct s; simpl in *; by subst]).
  - rewrite bind_Ok. split.
    + intros ([r [s1 a1]] & Hp & [= <- <-]). apply IH in Hp as (i' & Hr & -> & _); [|done].
      exists i'. split; [|done]. rewrite <- Hr. by apply run_queue_cfg.
    + intros (i' & Hr & ->). eexists (_, (_, _)). split; [|done]. apply IH; [done|].
      exists i'. split; [|by split]. rewrite <- Hr. by apply run_queue_cfg.
Qed.

Lemma process_event_run_queue n e d s a r s' a' : idle s ->
  process_event run_action run_notify n e d (s, a) = Ok (r, (s', a')) <->
  exists i', run_queue s n (SmFifoEntry e d :: m_sm_fifo s) (m_info s) a = Ok (i', a') /\
    s' = set_info i' (set_fifo [] s) /\ r = if rejected s e then -1 else 0.
Proof.
  revert e d s a r s' a'. induction n as [|n IH]; intros e d s a r s' a' Hs; simpl; [naive_solver|].
  unfold lock_in_process. rewrite Hs. simpl.
  change ((m_max_events s <? e) || (e <? 0)) with (rejected s e).
  destruct (rejected s e) eqn:Er.
  - rewrite bind_Ok. split.
    + intros ([s1 a1] & Hu & [= <- <- <-]). apply unlock_run_queue in Hu as (i' & Hr & ->); [|done].
      exists i'. split; [|by rewrite <- Hs; destruct s]. rewrite <- Hr. by apply run_queue_cfg.
    + intros (i' & Hr & -> & ->). eexists (_, _). split; [|done]. apply unlock_run_queue; [done|].
      exists i'. split; [|by rewrite <- Hs; destruct s]. rewrite <- Hr. by apply run_queue_cfg.
  - rewrite bind_Ok. split.
    + intros ([s1 a1] & Hd & ([s2 a2] & Hu & [= <- <- <-])%bind_Ok).
      apply (dispatch_react_1 (bool_decide (n <> O))) in Hd as (i & a3 & p & Hr & _ & [= -> ->]);
        [|apply fuel_queues|done].
      apply unlock_run_queue in Hu as (i' & Hq & ->); [|done].
      change (react s (m_info s) a (SmFifoEntry e d) = Ok (i, a3, p)) in Hr.
      exists i'. rewrite Hr. simpl. split; [|by rewrite <- Hs; destruct s].
      rewrite <- Hq. by apply run_queue_cfg.
    + intros (i' & ([[i a1] p] & Hr & Hq)%bind_Ok & -> & ->).
      exists (set_info i (set_fifo (m_sm_fifo s ++ p) (set_in_process true s)), a1). split.
      * apply (dispatch_react_2 (bool_decide (n <> O)) _ e d (set_in_process true s)); [apply fuel_queues|done|done|].
        destruct n, p; [done| |done..]. by destruct (m_sm_fifo s).
      * rewrite bind_Ok. eexists (_, _). split; [|done]. apply unlock_run_queue; [done|].
        exists i'. split; [|by rewrite <- Hs; destruct s]. rewrite <- Hq. by apply run_queue_cfg.
Qed.
End Spec.

(** ** Well-formed tables and memory safety *)

Definition event_wf (ms : Z) (ei : sm_event_info_t) : Prop :=
  next_state ei = SM_ST_STAY \/ 0 <= next_state ei < ms.
Definition state_wf (ms me : Z) (si : sm_state_info_t) : Prop :=
  Z.of_nat (length (event_info si)) = Z.max 0 me /\ Forall (event_wf ms) (event_info si).
Definition table_wf (ms me : Z) (t : list sm_state_info_t) : Prop :=
  Z.of_nat (length t) = Z.max 0 ms /\ Forall (state_wf ms me) t.

(** A user line whose target is a state or "stay" (the end marker has none). *)
Definition line_wf (l : sm_short_table_line_t) : Prop :=
  line_state l = SM_NO_ST \/ line_next_state l = SM_ST_STAY \/ 0 <= line_next_state l \/
  line_event l = SM_STATE_ENTRY \/ line_event l = SM_STATE_LEAVE.

Section TableLemmas.
Context (ms me : Z) (fe fl ft : sm_action_cb_t).

Lemma default_table_wf : table_wf ms me (default_table ms me fe fl ft).
Proof.
  unfold default_table, table_wf. rewrite length_replicate. split; [lia|].
  apply Forall_replicate. split; simpl; [rewrite length_replicate; lia|].
  apply Forall_replicate. by left.
Qed.

(** An in-range line cannot fail to find its state or event entry. *)
Lemma fill_line_wf l t : table_wf ms me t -> line_wf l ->
  exists r, fill_line ms me ft l t = Ok r /\
    match r with inl c => c = SM_ERROR | inr t' => table_wf ms me t' end.
Proof.
  intros [Hlen Hwf] Hl. unfold fill_line.
  destruct ((line_state l <? 0) || _) eqn:E1; [by eexists|].
  destruct (lookupZ_is_Some t (line_state l)) as [_ [si Hsi]]; [lia|].
  rewrite Hsi. simpl. pose proof (Forall_lookupZ _ _ _ _ Hwf Hsi) as [Hel Hev].
  assert (forall si', state_wf ms me si' -> table_wf ms me (insertZ (line_state l) si' t)) as Hins.
  { intros. split; [by rewrite length_insertZ | by apply Forall_insertZ]. }
  repeat case_match; try (by eexists); try (eexists; split; [done|]; by apply Hins).
  - destruct (lookupZ_is_Some (event_info si) (line_event l)) as [_ [ei Hei]]; [lia|].
    rewrite Hei. simpl. case_match; [by eexists|]. eexists; split; [done|]. apply Hins.
    split; simpl; [by rewrite length_insertZ|]. apply Forall_insertZ; [done|].
    unfold event_wf, line_wf, SM_NO_ST in *. simpl. lia.
Qed.

Lemma fill_table_wf lines t c t' : table_wf ms me t -> Forall line_wf lines ->
  fill_table ms me ft lines t = Ok (c, t') -> table_wf ms me t'.
Proof.
  revert t. induction lines as [|l lines IH]; intros t Ht Hl; simpl; [done|].
  apply Forall_cons in Hl as [Hl Hls].
  case_match; [naive_solver|].
  destruct (fill_line_wf l t Ht Hl) as ([?|t1] & -> & H1); simpl; [naive_solver|].
  by apply IH.
Qed.
End TableLemmas.

Section Safety.
Context {A : Type}.
Context (run_action : positive -> sm_info_t -> A -> A * list sm_fifo_entry_t).
Context (run_notify : positive -> Z -> Z -> void_ptr -> A -> A * list sm_fifo_entry_t).
Context (ms me : Z) (t : list sm_state_info_t).

(** Every event number except [me] itself is either rejected or in range. *)
Definition entry_ok (e : sm_fifo_entry_t) : Prop := fe_event e <> me.

Definition machine_ok (s : state_machine) : Prop :=
  m_max_states s = ms /\ m_max_events s = me /\ m_p_sm_table s = t /\
  0 <= get_curr_state s < ms /\ Forall entry_ok (m_sm_fifo s).
Definition pair_ok (x : state_machine * A) : Prop := machine_ok (fst x).

(** The client posts only event numbers other than [me]. *)
Definition posts_ok : Prop :=
  (forall p i a, Forall entry_ok (snd (run_action p i a))) /\
  (forall p s e h a, Forall entry_ok (snd (run_notify p s e h a))).

Definition safe_call (pe : Z -> void_ptr -> state_machine * A -> res (Z * (state_machine * A))) : Prop :=
  forall e d x, e <> me -> pair_ok x -> safe (fun r => pair_ok (snd r)) (pe e d x).

Context (Ht : table_wf ms me t) (Hposts : posts_ok).

Lemma calls_safe pe posts x : safe_call pe -> Forall entry_ok posts -> pair_ok x ->
  safe pair_ok (calls pe posts x).
Proof.
  intros Hpe Hp. revert x. induction Hp as [|[e d] posts He Hp IH]; intros x Hx; simpl; [done|].
  eapply safe_bind; [by apply Hpe|]. intros [r x'] Hx'. by apply IH.
Qed.

Lemma call_action_safe pe f x : safe_call pe -> pair_ok x ->
  safe pair_ok (call_action run_action pe f x).
Proof.
  intros Hpe Hx. unfold call_action. destruct f as [p|]; [|done].
  pose proof (proj1 Hposts p (m_info (fst x)) (snd x)) as H.
  destruct (run_action _ _ _) as [a' posts]. by apply calls_safe.
Qed.

Lemma call_notify_safe pe e x : safe_call pe -> pair_ok x ->
  safe pair_ok (call_notify run_notify pe e x).
Proof.
  intros Hpe Hx. unfold call_notify. destruct (m_new_event_notify_func (fst x)) as [p|]; [|done].
  pose proof (proj2 Hposts p (get_curr_state x.1) e (app_hndl (m_info x.1)) (snd x)) as H.
  destruct (run_notify _ _ _ _ _) as [a' posts]. by apply calls_safe.
Qed.

Ltac machine_ok_tac :=
  unfold pair_ok, machine_ok, get_curr_state in *; simpl in *; split_and!; auto; lia || idtac.

Lemma dispatch_safe pe e d x : safe_call pe -> 0 <= e < me -> pair_ok x ->
  safe pair_ok (dispatch run_action run_notify pe e d x).
Proof.
  intros Hpe He Hx. destruct x as [s a]. unfold dispatch. destruct Ht as [Hlen Hwf].
  destruct Hx as (Hms & Hme & Htab & Hcur & Hq); simpl in *. rewrite Htab.
  apply safe_must; [apply lookupZ_is_Some; lia|]. intros si Hsi.
  destruct (Forall_lookupZ _ _ _ _ Hwf Hsi) as [Hel Hev].
  apply safe_must; [apply lookupZ_is_Some; lia|]. intros ei Hei.
  pose proof (Forall_lookupZ _ _ _ _ Hev Hei) as Hn.
  eapply safe_bind; [apply call_notify_safe; [done|machine_ok_tac]|]. intros x1 Hx1.
  eapply (safe_bind pair_ok).
  { destruct (moves _ _); [by apply call_action_safe|done]. }
  intros x2 Hx2. eapply safe_bind; [by apply call_action_safe|]. intros x3 Hx3.
  destruct (moves _ _) eqn:Em; [|done]. unfold moves in Em.
  pose proof Hx3 as (Hms3 & Hme3 & Htab3 & Hcur3 & Hq3). rewrite Htab3.
  assert (0 <= next_state ei < ms) as Hr by (unfold event_wf in Hn; lia).
  apply safe_must; [apply lookupZ_is_Some; lia|]. intros ni Hni.
  eapply safe_bind; [by apply call_action_safe|].
  intros [s4 a4] (? & ? & ? & ? & ?). simpl in *. machine_ok_tac.
Qed.

Lemma unlock_safe pe x : safe_call pe -> pair_ok x -> safe pair_ok (unlock_in_process pe x).
Proof.
  intros Hpe Hx. unfold unlock_in_process. destruct x as [s a]. simpl.
  destruct (m_sm_fifo s) as [|[e d] q] eqn:Eq; simpl; [done|].
  destruct Hx as (? & ? & ? & ? & Hq). simpl in *. rewrite Eq in Hq.
  apply Forall_cons in Hq as [He Hq].
  eapply (safe_bind (fun r => pair_ok (snd r))); [|by intros [??]].
  by apply Hpe.
Qed.

Lemma process_event_safe n : safe_call (process_event run_action run_notify n).
Proof.
  induction n as [|n IH]; intros e d [s a] He Hx; [done|]. simpl.
  destruct Hx as (? & ? & ? & ? & Hq). unfold lock_in_process.
  destruct (m_b_is_in_process s); simpl.
  - machine_ok_tac. apply Forall_app; split; [done|]. by repeat constructor.
  - case_match.
    + eapply safe_bind; [apply unlock_safe; [done|machine_ok_tac]|]. by intros.
    + eapply safe_bind; [apply dispatch_safe; [done|simpl in *; lia|machine_ok_tac]|].
      intros x1 Hx1. eapply safe_bind; [by apply unlock_safe|]. by intros.
Qed.
End Safety.

(** ** Termination: callbacks with a budget of events *)

Section Budget.
Context {A : Type}.
Context (run_action : positive -> sm_info_t -> A -> A * list sm_fifo_entry_t).
Context (run_notify : positive -> Z -> Z -> void_ptr -> A -> A * list sm_fifo_entry_t).

(** [pot] bounds the events the client can still post; as for safety, it
    never posts the event number [me]. *)
Definition spends (me : Z) (pot : A -> nat) (a : A) (r : A * list sm_fifo_entry_t) : Prop :=
  (pot (fst r) + length (snd r) <= pot a)%nat /\ Forall (entry_ok me) (snd r).
Definition budget (me : Z) (pot : A -> nat) : Prop :=
  (forall p i a, spends me pot a (run_action p i a)) /\
  (forall p s e h a, spends me pot a (run_notify p s e h a)).

Context (me : Z) (pot : A -> nat) (Hb : budget me pot).

Lemma spends_refl a : spends me pot a (a, []).
Proof. split; [simpl; lia | constructor]. Qed.
Lemma spends_trans a b p r : spends me pot a (b, p) -> spends me pot b r ->
  spends me pot a (fst r, p ++ snd r).
Proof.
  intros [H1 H2] [H3 H4]. split; simpl in *; [rewrite length_app; lia | by apply Forall_app].
Qed.
Lemma action_effect_spends f i a : spends me pot a (action_effect run_action f i a).
Proof. destruct f; [apply Hb | apply spends_refl]. Qed.
Lemma notify_effect_spends f i a : spends me pot a (notify_effect run_notify f i a).
Proof. destruct f; [apply Hb | apply spends_refl]. Qed.

Context (ms : Z) (s : state_machine).
Context (Hme : m_max_events s = me) (Ht : table_wf ms me (m_p_sm_table s)).

(** An in-range event is always handled, leaves the machine in a state of
    the table and spends the budget for what it posts. *)
Lemma react_total i a e : 0 <= old_state i < ms -> 0 <= fe_event e < me ->
  exists i' a' p, react run_action run_notify s i a e = Ok (i', a', p) /\
    0 <= old_state i' < ms /\ spends me pot a (a', p).
Proof.
  intros Hi He. destruct Ht as [Hlen Hwf]. unfold react.
  destruct (lookupZ_is_Some (m_p_sm_table s) (old_state i)) as [_ [si Hsi]]; [lia|].
  rewrite Hsi. simpl. destruct (Forall_lookupZ _ _ _ _ Hwf Hsi) as [Hel Hev].
  destruct (lookupZ_is_Some (event_info si) (fe_event e)) as [_ [ei Hei]]; [lia|].
  rewrite Hei. simpl. pose proof (Forall_lookupZ _ _ _ _ Hev Hei) as Hn.
  set (i0 := SmInfo _ _ _ _ _).
  pose proof (notify_effect_spends (m_new_event_notify_func s) i0 a) as H1.
  destruct (notify_effect _ _ i0 a) as [a1 p1].
  assert (spends me pot a1 (if leaves i0 then action_effect run_action (leave_func si) i0 a1 else (a1, []))) as H2.
  { destruct (leaves i0); [apply action_effect_spends | apply spends_refl]. }
  destruct (if leaves i0 then _ else _) as [a2 p2].
  pose proof (action_effect_spends (trans_func ei) i0 a2) as H3.
  destruct (action_effect _ _ i0 a2) as [a3 p3]. destruct (leaves i0) eqn:El.
  - unfold leaves in El. unfold event_wf in Hn. simpl in El.
    destruct (lookupZ_is_Some (m_p_sm_table s) (next_state ei)) as [_ [ni Hni]]; [lia|].
    simpl. rewrite Hni. simpl. pose proof (action_effect_spends (entry_func ni) i0 a3) as H4.
    destruct (action_effect _ _ i0 a3) as [a4 p4].
    do 3 eexists. split; [done|]. simpl. split; [lia|].
    apply (spends_trans _ _ _ _ H1 (spends_trans _ _ _ _ H2 (spends_trans _ _ _ _ H3 H4))).
  - do 3 eexists. split; [done|]. split; [done|].
    apply (spends_trans _ _ _ _ H1 (spends_trans _ _ _ _ H2 H3)).
Qed.

Lemma run_queue_total n q i a :
  0 <= old_state i < ms -> Forall (entry_ok me) q -> (length q + pot a <= n)%nat ->
  exists i' a', run_queue run_action run_notify s n q i a = Ok (i', a') /\ 0 <= old_state i' < ms.
Proof.
  revert q i a. induction n as [|n IH]; intros [|e q] i a Hi Hq Hn; simpl in *; eauto; [lia|].
  apply Forall_cons in Hq as [He Hq]. destruct (rejected s (fe_event e)) eqn:Er.
  - apply IH; [done..|lia].
  - unfold rejected, entry_ok in *. destruct (react_total i a e) as (i' & a' & p & -> & Hi' & Hp & Hps).
    { done. } { lia. }
    simpl in *. apply IH; [done|by apply Forall_app|]. rewrite length_app. lia.
Qed.
End Budget.

(** ** The entries of the full table *)

(** What the user's lines say about state [st] and event [ev]: starting from
    the defaults, each line up to the end marker overrides. *)
Abbreviation entry_view := (sm_event_info_t * sm_action_cb_t * sm_action_cb_t)%type.

Definition apply_line (st ev : Z) (l : sm_short_table_line_t) (v : entry_view) : entry_view :=
  let '(ei, en, le) := v in
  if negb (line_state l =? st) then v
  else if line_event l =? SM_STATE_ENTRY then (ei, line_action_func l, le)
  else if line_event l =? SM_STATE_LEAVE then (ei, en, line_action_func l)
  else if line_event l =? ev then (SmEventInfo (line_next_state l) (line_action_func l), en, le)
  else v.

Fixpoint lines_view (st ev : Z) (lines : list sm_short_table_line_t) (v : entry_view) : entry_view :=
  match lines with
  | [] => v
  | l :: lines => if line_state l =? SM_NO_ST then v else lines_view st ev lines (apply_line st ev l v)
  end.

Definition table_view (t : list sm_state_info_t) (st ev : Z) : option entry_view :=
  si ← lookupZ t st; ei ← lookupZ (event_info si) ev; Some (ei, entry_func si, leave_func si).

Lemma table_view_insert t st ev st' si v :
  0 <= st' < Z.of_nat (length t) ->
  table_view (insertZ st' si t) st ev = Some v <->
  (if decide (st' = st) then
     ei ← lookupZ (event_info si) ev; Some (ei, entry_func si, leave_func si)
   else table_view t st ev) = Some v.
Proof. intros H. unfold table_view. rewrite lookupZ_insertZ by done. by case_decide. Qed.

(** A successful line replaces the entry of its own state. *)
Lemma fill_line_inv ms me ft l t t' : fill_line ms me ft l t = Ok (inr t') ->
  exists si si', lookupZ t (line_state l) = Some si /\ t' = insertZ (line_state l) si' t /\
    si' = (if line_event l =? SM_STATE_ENTRY then set_entry_func (line_action_func l) si
           else if line_event l =? SM_STATE_LEAVE then set_leave_func (line_action_func l) si
           else set_event_info (line_event l) (SmEventInfo (line_next_state l) (line_action_func l)) si) /\
    (line_event l <> SM_STATE_ENTRY -> line_event l <> SM_STATE_LEAVE ->
     0 <= line_event l < Z.of_nat (length (event_info si))).
Proof.
  unfold fill_line. case_match; [done|]. intros Hf. inv_res.
  match goal with H : lookupZ t _ = Some ?x |- _ => exists x end.
  destruct (line_event l =? SM_STATE_ENTRY) eqn:E2; [inv_res; simplify_eq; eexists; split_and!; try done; lia|].
  destruct (line_event l =? SM_STATE_LEAVE) eqn:E3; [inv_res; simplify_eq; eexists; split_and!; try done; lia|].
  repeat case_match; try done. inv_res. case_match; [done|]. simplify_eq.
  eexists; split_and!; try done. intros _ _. apply lookupZ_is_Some. by eexists.
Qed.

Lemma fill_line_view ms me ft l t t' st ev v : 0 <= ev ->
  fill_line ms me ft l t = Ok (inr t') -> table_view t st ev = Some v ->
  table_view t' st ev = Some (apply_line st ev l v).
Proof.
  intros Hev (si & si' & Hsi & -> & Hsi' & Hrng)%fill_line_inv Hv.
  assert (0 <= line_state l < Z.of_nat (length t)) as Hr by (apply lookupZ_is_Some; by eexists).
  apply table_view_insert; [done|]. unfold apply_line. destruct v as [[ei en] le].
  case_decide as Hst; [|by rewrite (proj2 (Z.eqb_neq _ _) Hst)].
  rewrite (proj2 (Z.eqb_eq _ _) Hst). simpl. subst st si'. unfold table_view in Hv. rewrite Hsi in Hv.
  simpl in Hv. destruct (lookupZ (event_info si) ev) as [ei'|] eqn:Eei; simplify_eq/=.
  destruct (line_event l =? SM_STATE_ENTRY) eqn:E2; [simpl; by rewrite Eei|].
  destruct (line_event l =? SM_STATE_LEAVE) eqn:E3; [simpl; by rewrite Eei|].
  simpl. rewrite lookupZ_insertZ by (apply Hrng; lia).
  case_decide as He; [rewrite (proj2 (Z.eqb_eq _ _) He); done|].
  rewrite (proj2 (Z.eqb_neq _ _) He). by rewrite Eei.
Qed.

Lemma fill_table_view ms me ft lines t t' st ev v : 0 <= ev ->
  fill_table ms me ft lines t = Ok (0, t') -> table_view t st ev = Some v ->
  table_view t' st ev = Some (lines_view st ev lines v).
Proof.
  intros Hev. revert t v. induction lines as [|l lines IH]; intros t v Hf Hv; simpl in *; [done|].
  destruct (line_state l =? SM_NO_ST); [by simplify_eq|]. inv_res.
  match goal with H : fill_line _ _ _ _ _ = Ok ?x |- _ => destruct x as [c|t1] eqn:E end.
  - simplify_eq. exfalso. unfold fill_line in *.
    repeat case_match; simplify_eq; inv_res; repeat case_match; simplify_eq; inv_res;
      repeat case_match; simplify_eq.
  - eapply IH; [done|]. by eapply fill_line_view.
Qed.

Lemma default_table_view ms me fe fl ft st ev : 0 <= st < ms -> 0 <= ev < me ->
  table_view (default_table ms me fe fl ft) st ev = Some (SmEventInfo SM_ST_STAY ft, fe, fl).
Proof.
  intros Hst Hev. unfold table_view, default_table, lookupZ.
  repeat (rewrite decide_True by lia; rewrite lookup_replicate_2 by lia; simpl). done.
Qed.

(** ** Properties *)

(** C11: run to completion.  On an idle machine with nothing queued,
    [process_event] returns exactly when the queue semantics does, with the
    same client state: the event is handled first, then the events the
    callbacks posted meanwhile, in the order they were posted, each one
    handled completely before the next; the machine ends idle with an empty
    fifo, and the return code is -1 exactly when the event was refused. *)
Theorem sm_runs_to_completion {A} run_action run_notify fuel e d s (a : A) r s' a' :
  idle s -> m_sm_fifo s = [] ->
  process_event run_action run_notify fuel e d (s, a) = Ok (r, (s', a')) <->
  exists i', run_queue run_action run_notify s fuel [SmFifoEntry e d] (m_info s) a = Ok (i', a') /\
    s' = set_info i' s /\ r = if rejected s e then -1 else 0.
Proof.
  intros Hi Hq. rewrite process_event_run_queue by done. rewrite Hq.
  by replace (set_fifo [] s) with s by (destruct s; simpl in *; by subst).
Qed.

(** A two-state client: callback 1 posts event 1 while its budget lasts, and
    every callback is logged. *)
Definition demo_lines : list sm_short_table_line_t :=
  [SmLine 0 0 1 (Some 1%positive); SmLine 1 1 0 (Some 2%positive);
   SmLine 1 SM_STATE_ENTRY SM_NO_ST (Some 3%positive); SmLine SM_NO_ST SM_NO_ST SM_NO_ST None].
Definition demo_action (p : positive) (i : sm_info_t) (a : nat * list positive)
  : (nat * list positive) * list sm_fifo_entry_t :=
  match p, a with
  | 1%positive, (S n, log) => ((n, log ++ [p]), [SmFifoEntry 1 7])
  | _, (n, log) => ((n, log ++ [p]), [])
  end.
Definition demo_notify (p : positive) (s e h : Z) (a : nat * list positive)
  : (nat * list positive) * list sm_fifo_entry_t := (a, []).
Definition demo_machine : state_machine :=
  match new_state_machine 5 0 2 2 demo_lines None None None None with
  | Ok s => s
  | _ => StateMachine 0 0 [] None [] false (SmInfo 0 0 0 0 0)
  end.

Lemma sm_runs_to_completion_witness :
  exists s' a', process_event demo_action demo_notify 2 0 9 (demo_machine, (1%nat, [])) = Ok (0, (s', a'))
    /\ get_curr_state s' = 0 /\ snd a' = [1%positive; 3%positive; 2%positive].
Proof.
  eexists _, _. split; [|split].
  - apply (sm_runs_to_completion demo_action demo_notify 2 0 9 demo_machine (1%nat, [])); [reflexivity|reflexivity|].
    eexists. split; [vm_compute; reflexivity|]. split; reflexivity.
  - reflexivity.
  - reflexivity.
Defined.

(** memory safety.  A machine built from lines whose targets are states
    (or "stay") never indexes its tables out of range and stays in a state
    of the table, whatever its callbacks do, as long as no event equal to
    the number of events is ever posted; this also holds when the table was
    only partly filled because a line was refused. *)
Theorem sm_constructed_safe {A} run_action run_notify app st0 ms me lines fe fl ft notify s
    fuel e d (a : A) :
  new_state_machine app st0 ms me lines fe fl ft notify = Ok s -> Forall line_wf lines ->
  posts_ok run_action run_notify me -> e <> me ->
  safe (fun r => 0 <= get_curr_state (fst (snd r)) < ms)
    (process_event run_action run_notify fuel e d (s, a)).
Proof.
  unfold new_state_machine. case_match; [done|]. intros Hnew Hl Hp He. inv_res.
  match goal with H : process_sparse_table _ _ _ _ _ _ = Ok ?x |- _ => destruct x as [c t] end.
  inv_res. eapply safe_mono; [|eapply (process_event_safe _ _ ms me t)]; try done.
  - intros [r [s' a']] (? & ? & ? & ? & ?). done.
  - eapply fill_table_wf; [|done|done]. apply default_table_wf.
  - unfold pair_ok, machine_ok, get_curr_state; simpl. split_and!; auto; lia.
Qed.

Lemma sm_constructed_safe_witness :
  safe (fun r => 0 <= get_curr_state (fst (snd r)) < 2)
    (process_event demo_action demo_notify 2 0 9 (demo_machine, (1%nat, []))).
Proof.
  eapply (sm_constructed_safe demo_action demo_notify 5 0 2 2 demo_lines None None None None).
  - reflexivity.
  - repeat (apply Forall_cons_2; [unfold line_wf; simpl; lia|]). apply Forall_nil_2.
  - split; [|constructor]. intros p i [[|n] log]; destruct p; repeat constructor. discriminate.
  - discriminate.
Defined.

(** C37: termination.  For every event but the one that is equal to the number
    of events, which the guard of [process_event] lets through
    ([sm_guard_off_by_one]): if the callbacks can post at most [pot a] more
    events in all, and never that one, the event and everything it causes is
    processed with fuel [1 + pot a], and the machine ends idle, with an empty
    fifo, in a state of the table. *)
Theorem sm_terminates {A} run_action run_notify ms me s pot fuel e d (a : A) :
  idle s -> m_sm_fifo s = [] -> m_max_events s = me -> table_wf ms me (m_p_sm_table s) ->
  0 <= get_curr_state s < ms -> budget run_action run_notify me pot -> e <> me ->
  (1 + pot a <= fuel)%nat ->
  exists r s' a', process_event run_action run_notify fuel e d (s, a) = Ok (r, (s', a')) /\
    idle s' /\ m_sm_fifo s' = [] /\ 0 <= get_curr_state s' < ms.
Proof.
  intros Hi Hq Hme Ht Hc Hb He Hf.
  destruct (run_queue_total run_action run_notify me pot Hb ms s Hme Ht fuel [SmFifoEntry e d] (m_info s) a)
    as (i' & a' & Hr & Hi'); [done|by repeat constructor|done|].
  exists (if rejected s e then -1 else 0), (set_info i' s), a'. split; [|done].
  apply process_event_run_queue; [done|]. exists i'. rewrite Hq. split; [done|].
  split; [|done]. by replace (set_fifo [] s) with s by (destruct s; simpl in *; by subst).
Qed.

Lemma sm_terminates_witness : exists r s' a',
  process_event demo_action demo_notify 4 0 9 (demo_machine, (3%nat, [])) = Ok (r, (s', a')) /\
  idle s' /\ m_sm_fifo s' = [] /\ 0 <= get_curr_state s' < 2.
Proof.
  apply (sm_terminates demo_action demo_notify 2 2 demo_machine fst); try reflexivity; try discriminate.
  - split; [reflexivity|]. unfold event_wf. repeat constructor; vm_compute; intuition congruence.
  - vm_compute; intuition congruence.
  - split.
    + intros p i [[|n] log]; destruct p; (split; [simpl; lia|]); repeat constructor; discriminate.
    + intros p s e h a. split; [simpl; lia | constructor].
Defined.

(** the full table.  When [process_sparse_table] accepts the user's
    lines, the entry of every state and event is what the lines say: the
    line for that state and event if there is one, "stay" with the default
    action otherwise; the entry and leave callbacks are those of the ENTRY
    and LEAVE lines, or the defaults. *)
Theorem sm_table_spec ms me fe fl ft lines t st ev :
  process_sparse_table ms me fe fl ft lines = Ok (0, t) -> 0 <= st < ms -> 0 <= ev < me ->
  table_view t st ev = Some (lines_view st ev lines (SmEventInfo SM_ST_STAY ft, fe, fl)).
Proof.
  intros Hp Hst Hev. eapply fill_table_view; [lia|exact Hp|]. by apply default_table_view.
Qed.

Lemma sm_table_spec_witness :
  table_view (m_p_sm_table demo_machine) 1 1 =
  Some (SmEventInfo 0 (Some 2%positive), Some 3%positive, None).
Proof.
  apply (sm_table_spec 2 2 None None None demo_lines); [reflexivity|lia|lia].
Defined.

(** the guard on the event number is off by one.  The event equal to
    the number of events passes the guard [event > m_max_events], and the
    lookup that follows reads past the end of the event array. *)
Theorem sm_guard_off_by_one {A} run_action run_notify ms me s fuel d (a : A) :
  idle s -> m_max_events s = me -> 0 <= me -> table_wf ms me (m_p_sm_table s) ->
  0 <= get_curr_state s < ms ->
  process_event run_action run_notify (S fuel) me d (s, a) = Undef.
Proof.
  intros Hi Hme Hpos [Hlen Hwf] Hc. simpl. unfold lock_in_process. rewrite Hi. simpl.
  rewrite Hme. rewrite (proj2 (Z.ltb_ge me me)), (proj2 (Z.ltb_ge me 0)) by lia. simpl.
  unfold dispatch. simpl.
  destruct (lookupZ_is_Some (m_p_sm_table s) (get_curr_state s)) as [_ [si Hsi]]; [lia|].
  unfold get_curr_state in *. simpl. rewrite Hsi. simpl.
  destruct (Forall_lookupZ _ _ _ _ Hwf Hsi) as [Hel _].
  by rewrite (proj2 (lookupZ_None (event_info si) me)) by lia.
Qed.

Lemma sm_guard_off_by_one_witness :
  process_event demo_action demo_notify 3 2 0 (demo_machine, (0%nat, [])) = Undef.
Proof.
  apply (sm_guard_off_by_one demo_action demo_notify 2 2); try reflexivity; try lia.
  - split; [reflexivity|]. unfold event_wf. repeat constructor; vm_compute; intuition congruence.
  - vm_compute; intuition congruence.
Defined.
