(* ===== verification/DeltaTimer.v ===== *)
(** * The delta timer list (src/vma/event/delta_timer.cpp, src/utils/clock.h)

    [timer] keeps the registered timers of the event-handler thread in a
    doubly linked list sorted by expiry time; each node stores the time that
    separates it from the previous one.  The list is modelled at the level
    of pointers: a store of nodes with their [next] and [prev] fields, in
    which the operations read and write; accessing a node that is not
    allocated is [Undef].  The code is the build without
    DEFINED_SOCKETXTREME.  [abs_*] are the operations on the sequence of
    nodes that the pointer code implements, and [deadlines] the absolute
    expiry times they stand for. *)

From S2P Require Import Prelude.

(** ** utils/clock.h *)

Record timespec := Timespec { tv_sec : Z; tv_nsec : Z }.

Definition NSEC_PER_SEC : Z := 1000000000.
Definition NSEC_PER_MSEC : Z := 1000000.
Definition MSEC_PER_SEC : Z := 1000.

Definition ts_to_msec (ts : timespec) : Z :=
  tv_sec ts * MSEC_PER_SEC + Z.quot (tv_nsec ts) NSEC_PER_MSEC.

Definition ts_sub (a b : timespec) : timespec :=
  let sec := tv_sec a - tv_sec b in
  let nsec := tv_nsec a - tv_nsec b in
  if nsec <? 0 then Timespec (sec - 1) (nsec + NSEC_PER_SEC) else Timespec sec nsec.

(** ** Data *)

Definition INFINITE_TIMEOUT : Z := -1.

Inductive timer_req_type_t := PERIODIC_TIMER | ONE_SHOT_TIMER | INVALID_TIMER.

#[global] Instance timer_req_type_eq_dec : EqDecision timer_req_type_t.
Proof. solve_decision. Defined.

(** Pointers to nodes, handlers; NULL is [None]. *)
Abbreviation ptr := positive.

Record timer_node_t := TimerNode {
  delta_time_msec : Z;
  orig_time_msec : Z;
  handler : option ptr;
  user_data : Z;
  group : option ptr;
  req_type : timer_req_type_t;
  next : option ptr;
  prev : option ptr
}.

Definition set_delta (d : Z) (n : timer_node_t) :=
  TimerNode d (orig_time_msec n) (handler n) (user_data n) (group n) (req_type n) (next n) (prev n).
Definition set_orig (o : Z) (n : timer_node_t) :=
  TimerNode (delta_time_msec n) o (handler n) (user_data n) (group n) (req_type n) (next n) (prev n).
Definition set_next (p : option ptr) (n : timer_node_t) :=
  TimerNode (delta_time_msec n) (orig_time_msec n) (handler n) (user_data n) (group n) (req_type n) p (prev n).
Definition set_prev (p : option ptr) (n : timer_node_t) :=
  TimerNode (delta_time_msec n) (orig_time_msec n) (handler n) (user_data n) (group n) (req_type n) (next n) p.
Definition invalidate (n : timer_node_t) :=
  TimerNode (delta_time_msec n) (orig_time_msec n) None (user_data n) (group n) INVALID_TIMER (next n) (prev n).

Record timer := Timer {
  mem : gmap ptr timer_node_t;
  m_list_head : option ptr;
  m_ts_last : timespec
}.

Definition set_mem (m : gmap ptr timer_node_t) (t : timer) := Timer m (m_list_head t) (m_ts_last t).
Definition set_head (h : option ptr) (t : timer) := Timer (mem t) h (m_ts_last t).
Definition set_ts_last (ts : timespec) (t : timer) := Timer (mem t) (m_list_head t) ts.

Definition load (t : timer) (p : ptr) : res timer_node_t := must (mem t !! p).
Definition update (p : ptr) (f : timer_node_t -> timer_node_t) (t : timer) : res timer :=
  n ← load t p; Ok (set_mem (<[p := f n]> (mem t)) t).
Definition free (p : ptr) (t : timer) : res timer :=
  _ ← load t p; Ok (set_mem (delete p (mem t)) t).

(** [IS_NODE_INVALID] on an allocated node. *)
Definition node_invalid (n : timer_node_t) : bool :=
  bool_decide (handler n = None) || bool_decide (req_type n = INVALID_TIMER).

(** ** Linked-list operations *)

(** The search loop of [insert_to_list]: the remaining delta, the node the
    new one goes before, and the node it goes after. *)
Fixpoint find_slot (fuel : nat) (t : timer) (tmp_delta : Z) (iter prv : option ptr)
  : res (Z * option ptr * option ptr) :=
  match iter with
  | None => Ok (tmp_delta, None, prv)
  | Some p =>
    match fuel with
    | O => NoFuel
    | S fuel =>
      n ← load t p;
      if delta_time_msec n <=? tmp_delta
      then find_slot fuel t (u32 (tmp_delta - delta_time_msec n)) (next n) (Some p)
      else Ok (tmp_delta, iter, prv)
    end
  end.

(** [prv->next = x], or the head of the list when there is no [prv]. *)
Definition link_from (prv : option ptr) (x : option ptr) (t : timer) : res timer :=
  match prv with
  | Some p => update p (set_next x) t
  | None => Ok (set_head x t)
  end.

(** Write to a node if there is one. *)
Definition update_opt (q : option ptr) (f : timer_node_t -> timer_node_t) (t : timer) : res timer :=
  match q with
  | Some q => update q f t
  | None => Ok t
  end.

Definition insert_to_list (new_node : ptr) (t : timer) : res timer :=
  match m_list_head t with
  | None =>
    t ← update new_node (fun n => set_prev None (set_next None (set_delta (orig_time_msec n) n))) t;
    Ok (set_head (Some new_node) t)
  | Some _ =>
    nn ← load t new_node;
    '(tmp_delta, iter, prv) ← find_slot (size (mem t)) t (orig_time_msec nn) (m_list_head t) None;
    t ← update new_node (fun n => set_prev prv (set_next iter (set_delta tmp_delta n))) t;
    t ← link_from prv (Some new_node) t;
    update_opt iter
      (fun n => set_prev (Some new_node) (set_delta (u32 (delta_time_msec n - tmp_delta)) n)) t
  end.

Definition remove_from_list (node : ptr) (t : timer) : res timer :=
  n ← load t node;
  t ← link_from (prev n) (next n) t;
  update_opt (next n)
    (fun m => set_prev (prev n) (set_delta (u32 (delta_time_msec m + delta_time_msec n)) m)) t.

(** ** Public operations *)

Definition add_new_timer (timeout_msec : Z) (node : ptr) (hndl : option ptr) (udata : Z)
    (rtype : timer_req_type_t) (t : timer) : res timer :=
  t ← update node (fun _ => TimerNode 0 timeout_msec hndl udata None rtype None None) t;
  n ← load t node;
  if node_invalid n then free node t else insert_to_list node t.

Definition wakeup_timer (node : option ptr) (t : timer) : res timer :=
  match node with
  | None => Ok t
  | Some node =>
    n ← load t node;
    if node_invalid n then Ok t
    else
      t ← remove_from_list node t;
      n ← load t node;
      t ← update node (set_orig 0) t;
      t ← insert_to_list node t;
      update node (set_orig (orig_time_msec n)) t
  end.

(** The loop of [remove_timer] that looks a handler up in the list. *)
Fixpoint find_handler (fuel : nat) (t : timer) (hndl : option ptr) (node : option ptr)
  : res (option ptr) :=
  match node with
  | None => Ok None
  | Some p =>
    match fuel with
    | O => NoFuel
    | S fuel =>
      n ← load t p;
      if bool_decide (handler n = hndl) then Ok (Some p)
      else find_handler fuel t hndl (next n)
    end
  end.

(** The end of [remove_timer] and of the body of [remove_all_timers]:
    invalidate the node, unlink it and free it. *)
Definition drop_node (p : ptr) (t : timer) : res timer :=
  t ← update p invalidate t;
  t ← remove_from_list p t;
  free p t.

Definition remove_timer (node : option ptr) (hndl : option ptr) (t : timer) : res timer :=
  node ← match node with
         | Some p => Ok (Some p)
         | None => find_handler (size (mem t)) t hndl (m_list_head t)
         end;
  match node with
  | None => Ok t
  | Some p =>
    n ← load t p;
    if node_invalid n || bool_decide (handler n <> hndl) then Ok t
    else drop_node p t
  end.

Fixpoint remove_all_loop (fuel : nat) (hndl : option ptr) (node : option ptr) (t : timer)
  : res timer :=
  match node with
  | None => Ok t
  | Some p =>
    match fuel with
    | O => NoFuel
    | S fuel =>
      n ← load t p;
      if bool_decide (handler n = hndl) then
        if node_invalid n || bool_decide (handler n <> hndl)
        then remove_all_loop fuel hndl (next n) t
        else
          t ← drop_node p t;
          remove_all_loop fuel hndl (next n) t
      else remove_all_loop fuel hndl (next n) t
    end
  end.

Definition remove_all_timers (hndl : option ptr) (t : timer) : res timer :=
  remove_all_loop (size (mem t)) hndl (m_list_head t) t.

(** The loop of [update_timeout]; [delta_msec] is an [int]. *)
Fixpoint elapse (fuel : nat) (delta_msec : Z) (list_tmp : option ptr) (t : timer) : res timer :=
  if negb (0 <? delta_msec) then Ok t
  else
    match list_tmp with
    | None => Ok t
    | Some p =>
      match fuel with
      | O => NoFuel
      | S fuel =>
        n ← load t p;
        if delta_msec <? i32 (delta_time_msec n) then
          update p (fun n => set_delta (u32 (delta_time_msec n - delta_msec)) n) t
        else
          t ← update p (set_delta 0) t;
          elapse fuel (i32 (delta_msec - delta_time_msec n)) (next n) t
      end
    end.

(** [now] is the result of [gettime]; [None] is its failure (a panic). *)
Definition update_timeout (now : option timespec) (t : timer) : res (Z * timer) :=
  match now with
  | None => Throw
  | Some ts_now =>
    let delta_msec := i32 (ts_to_msec (ts_sub ts_now (m_ts_last t))) in
    let t := if 0 <? delta_msec then set_ts_last ts_now t else t in
    match m_list_head t with
    | None => Ok (INFINITE_TIMEOUT, t)
    | Some h =>
      t ← elapse (size (mem t)) delta_msec (m_list_head t) t;
      n ← load t h;
      Ok (i32 (delta_time_msec n), t)
    end
  end.

Section Expiry.
Context {A : Type}.
(** [handle_timer_expired] of the handler: it runs in the same thread and
    reaches the list only through actions queued for later. *)
Context (handle_timer_expired : ptr -> Z -> A -> A).

(** The body of the loop on an expired node. *)
Definition expire (iter : ptr) (t : timer) (a : A) : res (option ptr * timer * A) :=
  n ← load t iter;
  h ← must (handler n);
  let a := handle_timer_expired h (user_data n) a in
  let next_iter := next n in
  t ← match req_type n with
      | PERIODIC_TIMER =>
        t ← remove_from_list iter t;
        t ← update iter (fun n => set_prev None (set_next None n)) t;
        insert_to_list iter t
      | ONE_SHOT_TIMER => remove_timer (Some iter) (handler n) t
      | INVALID_TIMER => Ok t
      end;
  Ok (next_iter, t, a).

Fixpoint process_loop (fuel : nat) (iter : option ptr) (t : timer) (a : A) : res (timer * A) :=
  match iter with
  | None => Ok (t, a)
  | Some p =>
    n ← load t p;
    if delta_time_msec n =? 0 then
      match fuel with
      | O => NoFuel
      | S fuel =>
        '(next_iter, t, a) ← expire p t a;
        process_loop fuel next_iter t a
      end
    else Ok (t, a)
  end.

Definition process_registered_timers (fuel : nat) (t : timer) (a : A) : res (timer * A) :=
  process_loop fuel (m_list_head t) t a.
End Expiry.

(** ** The sequence of nodes a linked list stands for *)

(** The contents of a node: everything but its links. *)
Definition body (n : timer_node_t) : timer_node_t := set_prev None (set_next None n).

Abbreviation seq := (list (ptr * timer_node_t)).

(** The nodes [l], with their contents, form a doubly linked segment that
    starts at [cur] (whose predecessor is [pv]) and ends before [cur']
    (whose predecessor is [pv']). *)
Fixpoint lseg (m : gmap ptr timer_node_t) (pv : option ptr) (l : seq) (cur pv' cur' : option ptr) : Prop :=
  match l with
  | [] => pv = pv' /\ cur = cur'
  | (p, b) :: l =>
    cur = Some p /\ exists n, m !! p = Some n /\ body n = b /\ prev n = pv /\
      lseg m (Some p) l (next n) pv' cur'
  end.

(** The timer's list is the sequence [l]. *)
Definition dll (t : timer) (l : seq) : Prop :=
  NoDup l.*1 /\ exists last, lseg (mem t) None l (m_list_head t) last None.

(** Nodes outside [X] and the clock are untouched. *)
Definition frame (X : list ptr) (t t' : timer) : Prop :=
  m_ts_last t' = m_ts_last t /\ forall q, q ∉ X -> mem t' !! q = mem t !! q.

(** ** The abstract operations *)

(** Where a node due in [tmp] goes: the nodes before it, what is left of
    [tmp] after them, the nodes after it. *)
Fixpoint abs_slot (tmp : Z) (l : seq) : seq * Z * seq :=
  match l with
  | [] => ([], tmp, [])
  | (p, b) :: l' =>
    if delta_time_msec b <=? tmp then
      let '(l1, d, l2) := abs_slot (u32 (tmp - delta_time_msec b)) l' in ((p, b) :: l1, d, l2)
    else ([], tmp, l)
  end.

Definition map_head (f : timer_node_t -> timer_node_t) (l : seq) : seq :=
  match l with [] => [] | (p, b) :: l => (p, f b) :: l end.

Definition sub_delta (d : Z) (n : timer_node_t) := set_delta (u32 (delta_time_msec n - d)) n.
Definition add_delta (d : Z) (n : timer_node_t) := set_delta (u32 (delta_time_msec n + d)) n.

Definition abs_insert (p : ptr) (b : timer_node_t) (l : seq) : seq :=
  let '(l1, d, l2) := abs_slot (orig_time_msec b) l in
  l1 ++ (p, set_delta d b) :: map_head (sub_delta d) l2.

Fixpoint abs_remove (p : ptr) (l : seq) : seq :=
  match l with
  | [] => []
  | (q, b) :: l =>
    if decide (q = p) then map_head (add_delta (delta_time_msec b)) l else (q, b) :: abs_remove p l
  end.

(** ** Segments *)

Lemma lseg_app m pv l1 l2 cur pv' cur' :
  lseg m pv (l1 ++ l2) cur pv' cur' <->
  exists pm cm, lseg m pv l1 cur pm cm /\ lseg m pm l2 cm pv' cur'.
Proof.
  revert pv cur. induction l1 as [|[p b] l1 IH]; intros pv cur; simpl.
  - naive_solver.
  - setoid_rewrite IH. naive_solver.
Qed.

Lemma lseg_ext m m' pv l cur pv' cur' :
  (forall q, q ∈ l.*1 -> m' !! q = m !! q) ->
  lseg m pv l cur pv' cur' -> lseg m' pv l cur pv' cur'.
Proof.
  revert pv cur. induction l as [|[p b] l IH]; intros pv cur Hm; simpl; [done|].
  intros (-> & n & Hp & Hb & Hpv & Hl). split; [done|]. exists n. split_and!; try done.
  - rewrite Hm; [done|]. left.
  - apply IH; [|done]. intros q Hq. apply Hm. by right.
Qed.

Lemma lseg_lookup m pv l cur pv' cur' p : lseg m pv l cur pv' cur' -> p ∈ l.*1 -> is_Some (m !! p).
Proof.
  revert pv cur. induction l as [|[q b] l IH]; intros pv cur; simpl; [by rewrite elem_of_nil|].
  intros (-> & n & Hp & Hb & Hpv & Hl) [->|Hin]%elem_of_cons; [by eexists|by eapply IH].
Qed.

Lemma lseg_size m pv l cur pv' cur' : NoDup l.*1 -> lseg m pv l cur pv' cur' -> (length l <= size m)%nat.
Proof.
  intros Hnd Hl. rewrite <- size_dom, <- (length_fmap fst).
  rewrite <- (size_list_to_set (C := gset ptr)) by done.
  apply subseteq_size. intros p. rewrite elem_of_list_to_set, elem_of_dom.
  by eapply lseg_lookup.
Qed.

(** The end of a segment: the predecessor is in it, or it is empty. *)
Lemma lseg_end m pv l cur pv' cur' : lseg m pv l cur pv' cur' ->
  (l = [] /\ pv = pv' /\ cur = cur') \/ exists p, pv' = Some p /\ p ∈ l.*1.
Proof.
  revert pv cur. induction l as [|[q b] l IH]; intros pv cur; simpl; [naive_solver|].
  intros (-> & n & Hp & Hb & Hpv & Hl). right.
  destruct (IH _ _ Hl) as [(-> & <- & _)|(p & -> & Hin)]; eexists; split; [done|left|done|by right].
Qed.

Lemma frame_refl X t : frame X t t.
Proof. by split. Qed.
Lemma frame_trans X Y Z t t' t'' : frame X t t' -> frame Y t' t'' ->
  X ⊆ Z -> Y ⊆ Z -> frame Z t t''.
Proof. intros [? H1] [? H2] HX HY. split; [congruence|]. intros q Hq. rewrite H2, H1; set_solver. Qed.
Lemma frame_lseg X t t' pv l cur pv' cur' : frame X t t' -> l.*1 ## X ->
  lseg (mem t) pv l cur pv' cur' -> lseg (mem t') pv l cur pv' cur'.
Proof. intros [_ Hf] Hd. apply lseg_ext. intros q Hq. apply Hf. set_solver. Qed.

Lemma update_spec t p n f : mem t !! p = Some n ->
  update p f t = Ok (set_mem (<[p := f n]> (mem t)) t).
Proof. intros H. unfold update, load. by rewrite H. Qed.
Lemma update_frame t p n f : mem t !! p = Some n ->
  frame [p] t (set_mem (<[p := f n]> (mem t)) t).
Proof. intros H. split; [done|]. intros q Hq. simpl. apply lookup_insert_ne. set_solver. Qed.

(** Redirecting the last node of a segment. *)
Lemma lseg_set_next m pv l cur p c x : NoDup l.*1 -> p ∈ l.*1 ->
  lseg m pv l cur (Some p) c ->
  exists n, m !! p = Some n /\ lseg (<[p := set_next x n]> m) pv l cur (Some p) x.
Proof.
  revert pv cur. induction l as [|[q b] l IH]; intros pv cur Hnd Hin; simpl; [by apply not_elem_of_nil in Hin|].
  intros (-> & n & Hq & Hb & Hpv & Hl). apply NoDup_cons in Hnd as [Hql Hnd].
  destruct (lseg_end _ _ _ _ _ _ Hl) as [(-> & [= ->] & _)|(p' & [= <-] & Hp)].
  - exists n. split; [done|]. split; [done|]. exists (set_next x n).
    rewrite lookup_insert_eq. by destruct n.
  - destruct (IH (Some q) (next n)) as (n' & Hn' & Hl'); [done..|]. exists n'. split; [done|].
    split; [done|]. exists n. rewrite lookup_insert_ne by set_solver. done.
Qed.

Lemma link_from_spec t l prv cur x : NoDup l.*1 ->
  lseg (mem t) None l (m_list_head t) prv cur ->
  exists t', link_from prv x t = Ok t' /\ lseg (mem t') None l (m_list_head t') prv x /\ frame l.*1 t t'.
Proof.
  intros Hnd Hl. destruct (lseg_end _ _ _ _ _ _ Hl) as [(-> & <- & _)|(p & -> & Hp)]; simpl.
  - eexists. split; [done|]. by split.
  - destruct (lseg_set_next _ _ _ _ _ _ x Hnd Hp Hl) as (n & Hn & Hl').
    rewrite (update_spec _ _ _ _ Hn). eexists. split; [done|]. split; [done|].
    destruct (update_frame t p n (set_next x) Hn) as [? Hf]. split; [done|].
    intros q Hq. apply Hf. set_solver.
Qed.

(** Rewriting the first node of a segment. *)
Lemma update_opt_spec t pv l cur last f g pv2 : NoDup l.*1 ->
  lseg (mem t) pv l cur last None ->
  (forall n, body (f n) = g (body n) /\ next (f n) = next n /\ prev (f n) = pv2) ->
  exists t' last', update_opt cur f t = Ok t' /\ m_list_head t' = m_list_head t /\
    lseg (mem t') pv2 (map_head g l) cur last' None /\ frame l.*1 t t'.
Proof.
  intros Hnd Hl Hf. destruct l as [|[p b] l]; simpl in *.
  - destruct Hl as [<- ->]. exists t, pv2. by split_and!.
  - destruct Hl as (-> & n & Hp & Hb & Hpv & Hl). apply NoDup_cons in Hnd as [Hpl Hnd]. simpl.
    rewrite (update_spec _ _ _ _ Hp). eexists _, last. split; [done|]. split; [done|].
    destruct (Hf n) as (H1 & H2 & H3). split.
    + split; [done|]. exists (f n). simpl. rewrite lookup_insert_eq, H1, Hb, H2.
      split_and!; try done. eapply lseg_ext; [|done]. intros q Hq. apply lookup_insert_ne. set_solver.
    + destruct (update_frame t p n f Hp) as [? Hfr]. split; [done|]. intros q Hq. apply Hfr. set_solver.
Qed.

Lemma map_head_fst g l : (map_head g l).*1 = l.*1.
Proof. by destruct l as [|[??]?]. Qed.

(** The search loop finds the abstract slot. *)
Lemma find_slot_spec fuel t tmp iter prv l last : (length l <= fuel)%nat ->
  lseg (mem t) prv l iter last None ->
  exists iter' prv', let '(l1, d, l2) := abs_slot tmp l in
    find_slot fuel t tmp iter prv = Ok (d, iter', prv') /\ l = l1 ++ l2 /\
    lseg (mem t) prv l1 iter prv' iter' /\ lseg (mem t) prv' l2 iter' last None.
Proof.
  revert tmp iter prv fuel. induction l as [|[p b] l IH]; intros tmp iter prv fuel Hfuel Hl; simpl in *.
  - destruct Hl as [-> ->]. exists None, last. by destruct fuel.
  - destruct Hl as (-> & n & Hp & <- & Hpv & Hl). destruct fuel as [|fuel]; [lia|]. simpl.
    unfold load. rewrite Hp. simpl. destruct (delta_time_msec n <=? tmp).
    + destruct (IH (u32 (tmp - delta_time_msec n)) (next n) (Some p) fuel) as (iter' & prv' & H); [lia|done|].
      exists iter', prv'. destruct (abs_slot _ l) as [[l1 d] l2]. destruct H as (-> & -> & H1 & H2).
      split_and!; try done. simpl. split; [done|]. by exists n.
    + exists (Some p), prv. split_and!; try done. simpl. split; [done|]. by exists n.
Qed.

Lemma dll_size t l : dll t l -> (length l <= size (mem t))%nat.
Proof. intros [Hnd [last Hl]]. by eapply lseg_size. Qed.

Lemma dll_head t l : dll t l -> m_list_head t = (fst <$> head l).
Proof. intros [_ [last Hl]]. destruct l as [|[p b] l]; simpl in *; naive_solver. Qed.

Lemma dll_lookup t l p b : dll t l -> (p, b) ∈ l -> exists n, mem t !! p = Some n /\ body n = b.
Proof.
  intros [_ [last Hl]]. revert Hl. generalize (@None ptr) at 1. generalize (m_list_head t).
  induction l as [|[q c] l IH]; intros cur pv; simpl; [by intros _ ?%not_elem_of_nil|].
  intros (-> & n & Hq & Hb & _ & Hl) [[= -> ->]|Hin]%elem_of_cons; [by exists n | by eapply IH].
Qed.

(** Splicing a node between two segments. *)
Lemma insert_splice t p n l1 l2 d prv iter last :
  NoDup (l1 ++ l2).*1 -> p ∉ (l1 ++ l2).*1 -> mem t !! p = Some n ->
  lseg (mem t) None l1 (m_list_head t) prv iter -> lseg (mem t) prv l2 iter last None ->
  exists t',
    (t0 ← update p (fun n => set_prev prv (set_next iter (set_delta d n))) t;
     t1 ← link_from prv (Some p) t0;
     update_opt iter (fun n => set_prev (Some p) (set_delta (u32 (delta_time_msec n - d)) n)) t1) = Ok t' /\
    dll t' (l1 ++ (p, set_delta d (body n)) :: map_head (sub_delta d) l2) /\ frame (p :: (l1 ++ l2).*1) t t'.
Proof.
  intros Hnd Hp Hn H1 H2. rewrite fmap_app in *. apply NoDup_app in Hnd as (N1 & N12 & N2).
  set (f0 := fun n => set_prev prv (set_next iter (set_delta d n))).
  rewrite (update_spec _ _ _ _ Hn). cbn [mbind res_bind].
  pose proof (update_frame t p n f0 Hn) as F0. set (t0 := set_mem _ t) in *.
  assert (mem t0 !! p = Some (f0 n)) as P0 by apply lookup_insert_eq.
  destruct (link_from_spec t0 l1 prv iter (Some p)) as (t1 & -> & L1 & F1); [done| |].
  { eapply frame_lseg; [exact F0|set_solver|done]. }
  cbn [mbind res_bind].
  destruct (update_opt_spec t1 prv l2 iter last
    (fun n => set_prev (Some p) (set_delta (u32 (delta_time_msec n - d)) n)) (sub_delta d) (Some p))
    as (t2 & last' & -> & Hh & L2 & F2); [done| |by intros []|].
  { eapply frame_lseg; [exact F1|set_solver|]. eapply frame_lseg; [exact F0|set_solver|done]. }
  exists t2. split; [done|]. split.
  - split.
    + rewrite fmap_app, fmap_cons, map_head_fst. apply NoDup_app. split_and!; [done| |].
      * intros q Hq. rewrite elem_of_cons. intros [->|Hq2]; set_solver.
      * constructor; [set_solver|done].
    + exists last'. apply lseg_app. exists prv, (Some p). split.
      * rewrite Hh. eapply frame_lseg; [exact F2|set_solver|done].
      * split; [done|]. exists (f0 n). split_and!; [|by destruct n|done|exact L2].
        rewrite (proj2 F2) by set_solver. rewrite (proj2 F1) by set_solver. done.
  - eapply frame_trans; [exact F0| |set_solver|reflexivity].
    eapply frame_trans; [exact F1|exact F2|set_solver|set_solver].
Qed.

(** [insert_to_list] implements [abs_insert]. *)
Lemma insert_to_list_spec t l p n : dll t l -> mem t !! p = Some n -> p ∉ l.*1 ->
  exists t', insert_to_list p t = Ok t' /\ dll t' (abs_insert p (body n) l) /\ frame (p :: l.*1) t t'.
Proof.
  intros Hd Hn Hp. pose proof (dll_size _ _ Hd) as Hsz. pose proof (dll_head _ _ Hd) as Hh.
  pose proof Hd as [Hnd [last Hl]]. unfold insert_to_list, abs_insert.
  destruct l as [|[q c] l]; rewrite Hh; cbn [head fmap option_fmap option_map fst].
  - rewrite (update_spec _ _ _ _ Hn). cbn [mbind res_bind]. eexists. split; [done|]. split.
    + split; [repeat constructor; set_solver|]. eexists. simpl. split; [done|].
      eexists. rewrite lookup_insert_eq. split; [done|]. by destruct n.
    + destruct (update_frame t p n (fun n => set_prev None (set_next None (set_delta (orig_time_msec n) n))) Hn) as [? Hf].
      split; [done|]. intros r Hr. apply Hf. set_solver.
  - unfold load. rewrite Hn. cbn [must mbind res_bind].
    assert (m_list_head t = Some q) as Hq by done. rewrite Hq in Hl.
    destruct (find_slot_spec (size (mem t)) t (orig_time_msec n) (Some q) None _ last Hsz Hl) as (iter & prv & H).
    change (orig_time_msec (body n)) with (orig_time_msec n).
    destruct (abs_slot _ _) as [[l1 d] l2]. destruct H as (-> & Hl12 & H1 & H2).
    cbn [mbind res_bind]. clear Hh. rewrite Hl12 in *. eapply insert_splice; try done. by rewrite Hq.
Qed.

Lemma abs_remove_split p b l1 l2 : p ∉ l1.*1 ->
  abs_remove p (l1 ++ (p, b) :: l2) = l1 ++ map_head (add_delta (delta_time_msec b)) l2.
Proof.
  induction l1 as [|[q c] l1 IH]; intros Hp; simpl.
  - by rewrite decide_True.
  - rewrite decide_False by set_solver. f_equal. apply IH. set_solver.
Qed.

(** [remove_from_list] implements [abs_remove] and does not touch the node. *)
Lemma remove_from_list_spec t l p b : dll t l -> (p, b) ∈ l ->
  exists t', remove_from_list p t = Ok t' /\ dll t' (abs_remove p l) /\
    frame (filter (fun q => q <> p) l.*1) t t'.
Proof.
  intros [Hnd [last Hl]] (l1 & l2 & ->)%list_elem_of_split.
  apply lseg_app in Hl as (prv & cur & H1 & (-> & n & Hp & <- & Hpv & H2)).
  rewrite fmap_app, fmap_cons in *. simpl in Hnd.
  apply NoDup_app in Hnd as (N1 & N12 & [Np N2]%NoDup_cons).
  assert (p ∉ l1.*1) as Hp1 by set_solver. rewrite abs_remove_split by done.
  unfold remove_from_list, load. rewrite Hp. cbn [must mbind res_bind]. rewrite Hpv.
  destruct (link_from_spec t l1 prv (Some p) (next n)) as (t1 & -> & L1 & F1); [done..|].
  cbn [mbind res_bind].
  destruct (update_opt_spec t1 (Some p) l2 (next n) last
    (fun m => set_prev prv (set_delta (u32 (delta_time_msec m + delta_time_msec n)) m))
    (add_delta (delta_time_msec n)) prv) as (t2 & last' & -> & Hh & L2 & F2); [done| |by intros []|].
  { eapply frame_lseg; [exact F1|set_solver|done]. }
  exists t2. split; [done|]. split.
  - split.
    + rewrite fmap_app, map_head_fst. apply NoDup_app. set_solver.
    + exists last'. apply lseg_app. exists prv, (next n). split; [|done].
      rewrite Hh. eapply frame_lseg; [exact F2|set_solver|done].
  - eapply frame_trans; [exact F1|exact F2| |].
    + intros q Hq. apply list_elem_of_filter. set_solver.
    + intros q Hq. apply list_elem_of_filter. set_solver.
Qed.

(** ** Absolute expiry times *)

(** The time from now at which each node is due. *)
Fixpoint deadlines (acc : Z) (l : seq) : list (ptr * Z) :=
  match l with
  | [] => []
  | (p, b) :: l => (p, acc + delta_time_msec b) :: deadlines (acc + delta_time_msec b) l
  end.

(** Deltas are not negative and no expiry time reaches [B]. *)
Fixpoint in_range (B acc : Z) (l : seq) : Prop :=
  match l with
  | [] => True
  | (p, b) :: l =>
    0 <= delta_time_msec b /\ acc + delta_time_msec b < B /\ in_range B (acc + delta_time_msec b) l
  end.

(** The specification of insertion: before the first later expiry time. *)
Fixpoint insert_deadline (p : ptr) (d : Z) (l : list (ptr * Z)) : list (ptr * Z) :=
  match l with
  | [] => [(p, d)]
  | (q, e) :: l' => if e <=? d then (q, e) :: insert_deadline p d l' else (p, d) :: l
  end.

Section Deadlines.
Context (B : Z) (HB : B <= 2 ^ 32).

Lemma abs_slot_deadlines p b acc tmp l : 0 <= acc -> 0 <= tmp -> acc + tmp < B -> in_range B acc l ->
  let '(l1, d, l2) := abs_slot tmp l in
  let l' := l1 ++ (p, set_delta d b) :: map_head (sub_delta d) l2 in
  deadlines acc l' = insert_deadline p (acc + tmp) (deadlines acc l) /\ in_range B acc l'.
Proof.
  revert acc tmp. induction l as [|[q c] l IH]; intros acc tmp Ha Ht Hb Hr; simpl in *.
  - split_and!; done || lia.
  - destruct Hr as (Hc & Hcb & Hr). destruct (delta_time_msec c <=? tmp) eqn:E.
    + rewrite wrap_small by lia.
      specialize (IH (acc + delta_time_msec c) (tmp - delta_time_msec c) ltac:(lia) ltac:(lia) ltac:(lia) Hr).
      destruct (abs_slot _ l) as [[l1 d] l2]. destruct IH as [IH1 IH2]. simpl. rewrite IH1.
      replace (acc + delta_time_msec c + (tmp - delta_time_msec c)) with (acc + tmp) by lia.
      rewrite (proj2 (Z.leb_le _ _)) by lia. auto.
    + simpl. rewrite wrap_small by lia. rewrite (proj2 (Z.leb_gt _ _)) by lia.
      replace (acc + tmp + (delta_time_msec c - tmp)) with (acc + delta_time_msec c) by lia.
      split_and!; done || lia.
Qed.

Lemma abs_insert_deadlines p b l : 0 <= orig_time_msec b < B -> in_range B 0 l ->
  deadlines 0 (abs_insert p b l) = insert_deadline p (orig_time_msec b) (deadlines 0 l) /\
  in_range B 0 (abs_insert p b l).
Proof.
  intros Ho Hr. pose proof (abs_slot_deadlines p b 0 (orig_time_msec b) l) as H.
  unfold abs_insert. destruct (abs_slot _ l) as [[l1 d] l2]. apply H; lia || done.
Qed.

Lemma deadlines_fst acc l : (deadlines acc l).*1 = l.*1.
Proof. revert acc. induction l as [|[p b] l IH]; intros acc; simpl; [done|]. f_equal. apply IH. Qed.

Lemma add_head_deadlines acc d l : 0 <= d -> 0 <= acc -> in_range B (acc + d) l ->
  deadlines acc (map_head (add_delta d) l) = deadlines (acc + d) l /\
  in_range B acc (map_head (add_delta d) l).
Proof.
  intros Hd Ha. destruct l as [|[p b] l]; simpl; [done|]. intros (? & ? & ?).
  rewrite wrap_small by lia. replace (acc + (delta_time_msec b + d)) with (acc + d + delta_time_msec b) by lia.
  split_and!; done || lia.
Qed.

Lemma abs_remove_deadlines p acc l : 0 <= acc -> NoDup l.*1 -> in_range B acc l ->
  deadlines acc (abs_remove p l) = filter (fun x => fst x <> p) (deadlines acc l) /\
  in_range B acc (abs_remove p l).
Proof.
  revert acc. induction l as [|[q c] l IH]; intros acc Ha Hnd Hr; simpl in *; [done|].
  apply NoDup_cons in Hnd as [Hq Hnd]. destruct Hr as (Hc & Hcb & Hr).
  rewrite filter_cons. simpl. case_decide as Hqp.
  - rewrite decide_False by naive_solver. subst q.
    rewrite (proj1 (add_head_deadlines acc (delta_time_msec c) l Hc Ha Hr)).
    split; [|by apply add_head_deadlines]. symmetry. apply filter_all, Forall_forall.
    intros [q e] Hin; simpl; intros ->. apply Hq. rewrite <- (deadlines_fst (acc + delta_time_msec c)).
    apply list_elem_of_fmap. by exists (p, e).
  - rewrite decide_True by done. simpl.
    destruct (IH (acc + delta_time_msec c)) as [-> ?]; [lia|done..].
Qed.
End Deadlines.

(** ** Elapsed time *)

(** [update_timeout]'s loop on the sequence. *)
Fixpoint abs_elapse (e : Z) (l : seq) : seq :=
  if negb (0 <? e) then l
  else
    match l with
    | [] => []
    | (p, b) :: l =>
      if e <? delta_time_msec b then (p, set_delta (delta_time_msec b - e) b) :: l
      else (p, set_delta 0 b) :: abs_elapse (e - delta_time_msec b) l
    end.

Lemma elapse_spec fuel t e pv l cur last : NoDup l.*1 -> (length l <= fuel)%nat ->
  Forall (fun x => 0 <= delta_time_msec (snd x) < 2 ^ 31) l -> e < 2 ^ 31 ->
  lseg (mem t) pv l cur last None ->
  exists t', elapse fuel e cur t = Ok t' /\ m_list_head t' = m_list_head t /\
    lseg (mem t') pv (abs_elapse e l) cur last None /\ frame l.*1 t t'.
Proof.
  revert fuel t e pv cur. induction l as [|[p b] l IH]; intros fuel t e pv cur Hnd Hf Hr He Hl.
  - exists t. destruct Hl as [-> ->]. destruct fuel; simpl; destruct (negb _); by split_and!.
  - destruct Hl as (-> & n & Hp & <- & Hpv & Hl). destruct fuel as [|fuel]; simpl in Hf; [lia|].
    apply NoDup_cons in Hnd as [Hpl Hnd]. apply Forall_cons in Hr as [Hb Hr]. simpl in Hb, Hpl.
    cbn [elapse abs_elapse]. destruct (negb (0 <? e)) eqn:Ee.
    { exists t. split_and!; try done. split; [done|]. by exists n. }
    unfold load. rewrite Hp. cbn [must mbind res_bind]. rewrite swrap_small by (simpl; lia).
    change (delta_time_msec (body n)) with (delta_time_msec n).
    destruct (e <? delta_time_msec n) eqn:Ed.
    + rewrite (update_spec _ _ _ _ Hp). eexists. split_and!; [done|done| |].
      * split; [done|]. eexists. simpl. rewrite lookup_insert_eq. split; [done|].
        rewrite wrap_small by lia. split_and!; [by destruct n|done|].
        eapply lseg_ext; [|done]. intros q Hq. apply lookup_insert_ne. set_solver.
      * split; [done|]. intros q Hq. simpl. apply lookup_insert_ne. set_solver.
    + rewrite (update_spec _ _ _ _ Hp). cbn [mbind res_bind].
      pose proof (update_frame t p n (set_delta 0) Hp) as F0. set (t0 := set_mem _ t) in *.
      rewrite swrap_small by (simpl; lia).
      destruct (IH fuel t0 (e - delta_time_msec n) (Some p) (next n)) as (t' & -> & Hh & L & F); try done; try lia.
      { eapply frame_lseg; [exact F0|set_solver|done]. }
      exists t'. split_and!; try done.
      * split; [done|]. exists (set_delta 0 n). split_and!; [|by destruct n|done|done].
        rewrite (proj2 F) by done. apply lookup_insert_eq.
      * eapply frame_trans; [exact F0|exact F| |]; set_solver.
Qed.

Lemma deadlines_shift acc d l : deadlines (acc + d) l = (fun x => (fst x, snd x + d)) <$> deadlines acc l.
Proof.
  revert acc. induction l as [|[p b] l IH]; intros acc; simpl; [done|].
  replace (acc + d + delta_time_msec b) with (acc + delta_time_msec b + d) by lia. by rewrite IH.
Qed.

Lemma deadlines_ge acc l x : Forall (fun x => 0 <= delta_time_msec (snd x)) l ->
  x ∈ deadlines acc l -> acc <= snd x.
Proof.
  revert acc. induction l as [|[p b] l IH]; intros acc Hl; simpl; [by intros ?%not_elem_of_nil|].
  apply Forall_cons in Hl as [Hb Hl]. simpl in Hb.
  intros [->|Hx]%elem_of_cons; simpl; [lia|]. specialize (IH _ Hl Hx). lia.
Qed.

(** Every expiry time comes closer by the elapsed time, down to "now". *)
Lemma abs_elapse_deadlines e acc l : 0 <= e -> Forall (fun x => 0 <= delta_time_msec (snd x)) l ->
  deadlines acc (abs_elapse e l) = (fun x => (fst x, Z.max acc (snd x - e))) <$> deadlines acc l.
Proof.
  revert e. induction l as [|[p b] l IH]; intros e He Hl; [by simpl; destruct (negb _)|].
  cbn [abs_elapse]. destruct (negb (0 <? e)) eqn:E0.
  { replace e with 0 by lia. rewrite <- (list_fmap_id (deadlines acc _)) at 1.
    apply list_fmap_ext. intros i [q d] Hd%list_elem_of_lookup_2. apply deadlines_ge in Hd; [|done].
    simpl in *. f_equal. lia. }
  apply Forall_cons in Hl as [Hb Hl]. simpl in Hb. destruct (e <? delta_time_msec b) eqn:Ed; simpl.
  - f_equal; [f_equal; lia|]. rewrite Z.add_sub_assoc. rewrite <- Z.add_opp_r, deadlines_shift.
    apply list_fmap_ext. intros i [q d] Hd%list_elem_of_lookup_2. apply deadlines_ge in Hd; [|done].
    simpl in *. f_equal. lia.
  - f_equal; [f_equal; lia|]. rewrite Z.add_0_r, IH by (done || lia). rewrite deadlines_shift.
    rewrite <- list_fmap_compose. apply list_fmap_ext. intros i [q d] _. simpl. f_equal. lia.
Qed.

(** Rewriting the contents of one node. *)
Definition abs_set (p : ptr) (g : timer_node_t -> timer_node_t) (l : seq) : seq :=
  (fun x => if decide (fst x = p) then (fst x, g (snd x)) else x) <$> l.

Lemma abs_set_fst p g l : (abs_set p g l).*1 = l.*1.
Proof.
  unfold abs_set. rewrite <- list_fmap_compose. apply list_fmap_ext.
  intros i [q b] _. simpl. by case_decide.
Qed.

Lemma lseg_update m pv l cur pv' cur' p n f g : m !! p = Some n ->
  body (f n) = g (body n) -> next (f n) = next n -> prev (f n) = prev n ->
  lseg m pv l cur pv' cur' -> lseg (<[p := f n]> m) pv (abs_set p g l) cur pv' cur'.
Proof.
  intros Hn Hb Hnx Hpr. revert pv cur. induction l as [|[q b] l IH]; intros pv cur; simpl; [done|].
  intros (-> & n' & Hq & <- & Hpv & Hl). case_decide as Hqp; simpl in *.
  - subst q. rewrite Hn in Hq. simplify_eq. split; [done|]. exists (f n').
    rewrite lookup_insert_eq, Hb, Hnx, Hpr. split_and!; try done. by apply IH.
  - split; [done|]. exists n'. rewrite lookup_insert_ne by done. split_and!; try done. by apply IH.
Qed.

Lemma dll_update t l p n f g : dll t l -> mem t !! p = Some n ->
  body (f n) = g (body n) -> next (f n) = next n -> prev (f n) = prev n ->
  update p f t = Ok (set_mem (<[p := f n]> (mem t)) t) /\
  dll (set_mem (<[p := f n]> (mem t)) t) (abs_set p g l).
Proof.
  intros [Hnd [last Hl]] Hn Hb Hnx Hpr. split; [by apply update_spec|].
  split; [by rewrite abs_set_fst|]. exists last. by apply lseg_update.
Qed.

Lemma dll_frame X t t' l : dll t l -> frame X t t' -> l.*1 ## X -> m_list_head t' = m_list_head t -> dll t' l.
Proof. intros [Hnd [last Hl]] Hf Hd Hh. split; [done|]. exists last. rewrite Hh. by eapply frame_lseg. Qed.

(** ** The public operations on sequences *)

(** The nodes of the list are valid: what [add_new_timer] lets in. *)
Definition valid (l : seq) : Prop := Forall (fun x => node_invalid (snd x) = false) l.

Lemma add_new_timer_spec t l p h o u r : dll t l -> is_Some (mem t !! p) -> p ∉ l.*1 -> r <> INVALID_TIMER ->
  exists t', add_new_timer o p (Some h) u r t = Ok t' /\
    dll t' (abs_insert p (TimerNode 0 o (Some h) u None r None None) l) /\ frame (p :: l.*1) t t'.
Proof.
  intros Hd [n Hn] Hp Hr. unfold add_new_timer. rewrite (update_spec _ _ _ _ Hn). cbn [mbind res_bind].
  pose proof (update_frame t p n (fun _ => TimerNode 0 o (Some h) u None r None None) Hn) as F0.
  set (t0 := set_mem _ t) in *. set (nn := TimerNode 0 o _ _ _ _ _ _) in *.
  assert (mem t0 !! p = Some nn) as P0 by apply lookup_insert_eq.
  unfold load. rewrite P0. cbn [must mbind res_bind]. unfold node_invalid. simpl.
  rewrite bool_decide_false by done.
  destruct (insert_to_list_spec t0 l p nn) as (t' & -> & Hd' & F); [|done|done|].
  { eapply dll_frame; [done|exact F0|set_solver|done]. }
  exists t'. split_and!; [done|done|]. eapply frame_trans; [exact F0|exact F|set_solver|done].
Qed.

Lemma abs_remove_set p l : NoDup l.*1 -> abs_remove p (abs_set p invalidate l) = abs_remove p l.
Proof.
  induction l as [|[q b] l IH]; simpl; [done|]. intros [Hq Hnd]%NoDup_cons.
  case_decide as Hqp; simpl; [|by rewrite decide_False, IH].
  rewrite decide_True by done. subst q. change (delta_time_msec (invalidate b)) with (delta_time_msec b).
  f_equal. unfold abs_set. rewrite <- (list_fmap_id l) at 2. apply list_fmap_ext.
  intros i [q c] Hi%list_elem_of_lookup_2. simpl. rewrite decide_False; [done|].
  intros ->. apply Hq. apply list_elem_of_fmap. by exists (p, c).
Qed.

Lemma abs_remove_fst p l : NoDup l.*1 -> (abs_remove p l).*1 = filter (fun q => q <> p) l.*1.
Proof.
  induction l as [|[q c] l IH]; simpl; [done|]. intros [Hq Hnd]%NoDup_cons. rewrite filter_cons.
  case_decide as Hqp.
  - rewrite decide_False by naive_solver. subst q. rewrite map_head_fst. symmetry.
    apply filter_all, Forall_forall. by intros q Hin ->.
  - rewrite decide_True by done. simpl. f_equal. by apply IH.
Qed.

Lemma elem_of_fst (p : ptr) (b : timer_node_t) (l : seq) : (p, b) ∈ l -> p ∈ l.*1.
Proof. intros H. apply list_elem_of_fmap. by exists (p, b). Qed.

Lemma drop_node_spec t l p b : dll t l -> (p, b) ∈ l ->
  exists t', drop_node p t = Ok t' /\ dll t' (abs_remove p l) /\ mem t' !! p = None /\ frame l.*1 t t'.
Proof.
  intros Hd Hin. destruct (dll_lookup _ _ _ _ Hd Hin) as (n & Hn & Hb). unfold drop_node.
  pose proof (elem_of_fst _ _ _ Hin) as Hp.
  destruct (dll_update t l p n invalidate invalidate Hd Hn) as [-> Hd0]; [by destruct n|done..|].
  cbn [mbind res_bind]. pose proof (update_frame t p n invalidate Hn) as F0. set (t0 := set_mem _ t) in *.
  destruct (remove_from_list_spec t0 _ p (invalidate b) Hd0) as (t1 & -> & Hd1 & F1).
  { apply list_elem_of_fmap. exists (p, b). simpl. by rewrite decide_True. }
  cbn [mbind res_bind]. rewrite abs_remove_set in Hd1 by apply Hd. rewrite abs_set_fst in F1.
  assert (frame l.*1 t0 t1) as F1'.
  { split; [apply F1|]. intros q Hq. apply F1. rewrite list_elem_of_filter. naive_solver. }
  unfold free, load. assert (mem t1 !! p = Some (invalidate n)) as ->.
  { rewrite (proj2 F1) by (rewrite list_elem_of_filter; naive_solver). apply lookup_insert_eq. }
  cbn [must mbind res_bind]. eexists. split; [done|]. set (t2 := set_mem _ t1).
  assert (frame [p] t1 t2) as F2.
  { split; [done|]. intros q Hq. apply lookup_delete_ne. set_solver. }
  split_and!; [|apply lookup_delete_eq|].
  - eapply dll_frame; [done|exact F2| |done]. rewrite abs_remove_fst by apply Hd.
    intros q. rewrite list_elem_of_filter. set_solver.
  - eapply frame_trans; [exact F0| |set_solver|done]. eapply frame_trans; [exact F1'|exact F2|done|set_solver].
Qed.

(** [remove_timer] on a node of the list. *)
Lemma remove_timer_spec t l p b : dll t l -> (p, b) ∈ l -> node_invalid b = false ->
  exists t', remove_timer (Some p) (handler b) t = Ok t' /\ dll t' (abs_remove p l) /\
    mem t' !! p = None /\ frame l.*1 t t'.
Proof.
  intros Hd Hin Hv. destruct (dll_lookup _ _ _ _ Hd Hin) as (n & Hn & Hb).
  unfold remove_timer, load. cbn [mbind res_bind]. rewrite Hn. cbn [must mbind res_bind].
  replace (node_invalid n) with (node_invalid b) by (by subst b).
  replace (handler n) with (handler b) by (by subst b).
  rewrite Hv, bool_decide_false by naive_solver. by apply (drop_node_spec t l p b).
Qed.

(** [wakeup_timer] moves the node to "due now", after those already due. *)
Lemma wakeup_timer_spec t l p b : dll t l -> (p, b) ∈ l -> node_invalid b = false ->
  exists t', wakeup_timer (Some p) t = Ok t' /\
    dll t' (abs_set p (set_orig (orig_time_msec b)) (abs_insert p (set_orig 0 b) (abs_remove p l))).
Proof.
  intros Hd Hin Hv. destruct (dll_lookup _ _ _ _ Hd Hin) as (n & Hn & Hb).
  unfold wakeup_timer, load. rewrite Hn. cbn [must mbind res_bind].
  replace (node_invalid n) with (node_invalid b) by (by subst b). rewrite Hv.
  destruct (remove_from_list_spec t l p b Hd Hin) as (t1 & -> & Hd1 & F1). cbn [mbind res_bind].
  assert (mem t1 !! p = Some n) as Hn1.
  { rewrite (proj2 F1); [done|]. rewrite list_elem_of_filter. naive_solver. }
  assert (p ∉ (abs_remove p l).*1) as Hp1.
  { rewrite abs_remove_fst by apply Hd. rewrite list_elem_of_filter. naive_solver. }
  rewrite Hn1. cbn [must mbind res_bind]. rewrite (update_spec _ _ _ _ Hn1). cbn [mbind res_bind].
  pose proof (update_frame t1 p n (set_orig 0) Hn1) as F2. set (t2 := set_mem _ t1) in *.
  assert (mem t2 !! p = Some (set_orig 0 n)) as Hn2 by apply lookup_insert_eq.
  destruct (insert_to_list_spec t2 (abs_remove p l) p (set_orig 0 n)) as (t3 & -> & Hd3 & F3); [|done|done|].
  { eapply dll_frame; [done|exact F2|set_solver|done]. }
  cbn [mbind res_bind]. replace (body (set_orig 0 n)) with (set_orig 0 b) in Hd3 by (subst b; by destruct n).
  replace (orig_time_msec n) with (orig_time_msec b) by (by subst b).
  assert (exists n3, mem t3 !! p = Some n3) as [n3 Hn3].
  { assert (exists d, (p, set_delta d (set_orig 0 b)) ∈ abs_insert p (set_orig 0 b) (abs_remove p l)) as [d Hd'].
    { unfold abs_insert. destruct (abs_slot _ _) as [[l1 d] l2]. exists d. apply elem_of_app. right. left. }
    destruct (dll_lookup _ _ _ _ Hd3 Hd') as (n3 & Hn3 & _). by exists n3. }
  destruct (dll_update t3 _ p n3 (set_orig (orig_time_msec b)) (set_orig (orig_time_msec b)) Hd3 Hn3)
    as [-> Hd4]; [by destruct n3|done..|]. by eexists.
Qed.

(** ** Removing all the timers of a handler *)

Definition owned (h : ptr) (l : seq) : list ptr := (filter (fun x => handler (snd x) = Some h) l).*1.

Lemma owned_map_head h g l : (forall n, handler (g n) = handler n) -> owned h (map_head g l) = owned h l.
Proof.
  intros Hg. destruct l as [|[p b] l]; [done|]. unfold owned. simpl. rewrite !filter_cons. simpl.
  rewrite Hg. by case_decide.
Qed.

Lemma lseg_head m pv l cur pv' : lseg m pv l cur pv' None -> cur = fst <$> head l.
Proof. destruct l as [|[p b] l]; simpl; naive_solver. Qed.

Lemma filter_filter_deadlines (M : list ptr) p (D : list (ptr * Z)) :
  filter (fun x => fst x ∉ M) (filter (fun x => fst x <> p) D) = filter (fun x => fst x ∉ p :: M) D.
Proof.
  rewrite list_filter_filter. apply list_filter_iff. intros [q d]. simpl. rewrite not_elem_of_cons. naive_solver.
Qed.

Lemma remove_all_loop_spec B fuel h t l1 l2 : B <= 2 ^ 32 -> (length l2 <= fuel)%nat ->
  dll t (l1 ++ l2) -> valid l2 -> in_range B 0 (l1 ++ l2) ->
  exists t' l', remove_all_loop fuel (Some h) (fst <$> head l2) t = Ok t' /\ dll t' l' /\
    deadlines 0 l' = filter (fun x => fst x ∉ owned h l2) (deadlines 0 (l1 ++ l2)) /\ in_range B 0 l'.
Proof.
  intros HB. revert fuel t l1 l2. induction fuel as [|fuel IH]; intros t l1 l2 Hf Hd Hv Hr.
  { destruct l2; simpl in *; [|lia]. exists t, (l1 ++ []). split_and!; try done. symmetry. apply filter_all, Forall_forall.
    intros x _. apply not_elem_of_nil. }
  destruct l2 as [|[p b] l2]; simpl.
  { exists t, (l1 ++ []). split_and!; try done. symmetry. apply filter_all, Forall_forall.
    intros x _. apply not_elem_of_nil. }
  simpl in Hf. apply Forall_cons in Hv as [Hb Hv]. simpl in Hb.
  assert ((p, b) ∈ l1 ++ (p, b) :: l2) as Hin by set_solver.
  destruct (dll_lookup _ _ _ _ Hd Hin) as (n & Hn & Hnb). unfold load. rewrite Hn. cbn [must mbind res_bind].
  replace (node_invalid n) with (node_invalid b) by (by subst b). rewrite Hb.
  replace (handler n) with (handler b) by (by subst b).
  assert (next n = fst <$> head l2) as ->.
  { destruct Hd as [_ [last Hl]]. apply lseg_app in Hl as (pm & cm & _ & (_ & n' & Hn' & _ & _ & Hl)).
    rewrite Hn in Hn'. simplify_eq. by eapply lseg_head. }
  unfold owned. rewrite filter_cons. simpl.
  pose proof Hd as [Hnd _]. rewrite fmap_app in Hnd. simpl in Hnd. apply NoDup_app in Hnd as (N1 & N12 & N2).
  assert (p ∉ l1.*1) as Hp1 by set_solver.
  destruct (decide (handler b = Some h)) as [Hh|Hh].
  - rewrite bool_decide_true by done. cbn [orb]. rewrite bool_decide_false by naive_solver.
    destruct (drop_node_spec t _ p b Hd Hin) as (t1 & -> & Hd1 & _ & _). cbn [mbind res_bind].
    destruct (abs_remove_deadlines B HB p 0 (l1 ++ (p, b) :: l2)) as [Hdl Hr1]; [lia|apply Hd|done|].
    rewrite abs_remove_split in Hd1, Hdl, Hr1 by done. set (l2' := map_head _ l2) in *.
    destruct (IH t1 l1 l2') as (t' & l' & He & Hd' & Hdl' & Hr'); [|done| |done|].
    + subst l2'. destruct l2 as [|[??]?]; simpl in *; lia.
    + subst l2'. destruct l2 as [|[??]?]; [done|]. apply Forall_cons in Hv as [??]. by apply Forall_cons.
    + exists t', l'. split_and!; try done.
      * rewrite <- He. f_equal. subst l2'. by destruct l2 as [|[??]?].
      * rewrite Hdl', Hdl, filter_filter_deadlines. unfold l2'.
        rewrite owned_map_head by done. done.
  - rewrite bool_decide_false by done.
    destruct (IH t (l1 ++ [(p, b)]) l2) as (t' & l' & He & Hd' & Hdl' & Hr'); [lia|by rewrite <- app_assoc|done|by rewrite <- app_assoc|].
    exists t', l'. rewrite <- app_assoc in Hdl'. done.
Qed.

(** ** Expiry *)

Lemma add_delta_zero B acc l : B <= 2 ^ 32 -> 0 <= acc -> in_range B acc l -> map_head (add_delta 0) l = l.
Proof.
  intros HB Ha. destruct l as [|[p b] l]; simpl; [done|]. intros (? & ? & _).
  unfold add_delta. rewrite Z.add_0_r, wrap_small by lia. by destruct b.
Qed.

Lemma set_delta_body_insert p b d l : abs_insert p (set_delta d b) l = abs_insert p b l.
Proof. done. Qed.

(** A re-inserted periodic node goes after the nodes that are already due. *)
Lemma abs_insert_due p b z r : Forall (fun x => delta_time_msec (snd x) = 0) z ->
  0 <= orig_time_msec b < 2 ^ 32 -> abs_insert p b (z ++ r) = z ++ abs_insert p b r.
Proof.
  intros Hz Ho. unfold abs_insert.
  assert (abs_slot (orig_time_msec b) (z ++ r) =
    let '(l1, d, l2) := abs_slot (orig_time_msec b) r in (z ++ l1, d, l2)) as ->.
  { induction Hz as [|[q c] z Hc Hz IH]; simpl; [by destruct (abs_slot _ r) as [[??]?]|].
    simpl in Hc. rewrite Hc, Z.sub_0_r, (proj2 (Z.leb_le _ _)), wrap_small, IH by lia.
    by destruct (abs_slot _ r) as [[??]?]. }
  destruct (abs_slot _ r) as [[l1 d] l2]. by rewrite <- app_assoc.
Qed.

(** The first node is not due. *)
Definition not_due (l : seq) : Prop := forall q c, head l = Some (q, c) -> 0 < delta_time_msec c.

Lemma abs_insert_not_due B p b r : B <= 2 ^ 32 -> 0 < orig_time_msec b -> in_range B 0 r -> not_due r ->
  not_due (abs_insert p b r) /\
  forall q c, head r = Some (q, c) -> exists c', (q, c') ∈ abs_insert p b r /\ 0 < delta_time_msec c'.
Proof.
  intros HB Ho Hr Hn. unfold abs_insert. destruct r as [|[q c] r]; simpl in *.
  { split; [|done]. by intros ?? [= <- <-]. }
  specialize (Hn q c eq_refl). destruct Hr as (Hc & Hcb & Hr).
  destruct (delta_time_msec c <=? orig_time_msec b) eqn:E.
  - destruct (abs_slot _ r) as [[l1 d] l2]. simpl. split; intros ?? [= <- <-]; [done|].
    eexists; split; [by left|done].
  - simpl. split; intros ?? [= <- <-]; [done|]. eexists. split; [right; left|].
    simpl. rewrite wrap_small by lia. lia.
Qed.

Section ExpirySpec.
Context {A : Type} (handle_timer_expired : ptr -> Z -> A -> A).

(** A node whose expiry is well defined: valid, and, if periodic, with a
    positive period below the bound. *)
Definition expirable (B : Z) (b : timer_node_t) : Prop :=
  delta_time_msec b = 0 /\ node_invalid b = false /\
  (req_type b = PERIODIC_TIMER -> 0 < orig_time_msec b < B).

(** What one expiry does: one call, and periodic nodes come back. *)
Definition fire (a : A) (x : ptr * timer_node_t) : A :=
  match handler (snd x) with
  | Some h => handle_timer_expired h (user_data (snd x)) a
  | None => a
  end.
Definition rearm (r : seq) (x : ptr * timer_node_t) : seq :=
  match req_type (snd x) with
  | PERIODIC_TIMER => abs_insert (fst x) (snd x) r
  | _ => r
  end.

Lemma expire_spec B t p b l a : B <= 2 ^ 32 -> dll t ((p, b) :: l) -> expirable B b -> in_range B 0 l ->
  exists t', expire handle_timer_expired p t a = Ok (fst <$> head l, t', fire a (p, b)) /\ dll t' (rearm l (p, b)).
Proof.
  intros HB Hd (H0 & Hv & Hper) Hr. assert ((p, b) ∈ (p, b) :: l) as Hin by left.
  destruct (dll_lookup _ _ _ _ Hd Hin) as (n & Hn & Hb). unfold expire, load. rewrite Hn. cbn [must mbind res_bind].
  assert (next n = fst <$> head l) as ->.
  { destruct Hd as [_ [last (_ & n' & Hn' & _ & _ & Hl)]]. rewrite Hn in Hn'. simplify_eq. by eapply lseg_head. }
  unfold fire, rearm. simpl.
  replace (handler n) with (handler b) by (by subst b). replace (user_data n) with (user_data b) by (by subst b).
  replace (req_type n) with (req_type b) by (by subst b).
  destruct (handler b) as [h|] eqn:Eh; [|by unfold node_invalid in Hv; rewrite Eh in Hv].
  cbn [must mbind res_bind].
  assert (abs_remove p ((p, b) :: l) = l) as Hrem.
  { simpl. rewrite decide_True by done. rewrite H0. by eapply add_delta_zero. }
  destruct (req_type b) eqn:Er.
  - destruct (remove_from_list_spec t _ p b Hd Hin) as (t1 & -> & Hd1 & F1). cbn [mbind res_bind].
    rewrite Hrem in Hd1. assert (mem t1 !! p = Some n) as Hn1.
    { rewrite (proj2 F1); [done|]. rewrite list_elem_of_filter. naive_solver. }
    assert (p ∉ l.*1) as Hpl by (destruct Hd as [[? _]%NoDup_cons _]; done).
    rewrite (update_spec _ _ _ _ Hn1). cbn [mbind res_bind].
    pose proof (update_frame t1 p n (fun n => set_prev None (set_next None n)) Hn1) as F2. set (t2 := set_mem _ t1) in *.
    destruct (insert_to_list_spec t2 l p (body n)) as (t3 & -> & Hd3 & _); [| |done|].
    { eapply dll_frame; [done|exact F2|set_solver|done]. }
    { apply lookup_insert_eq. }
    cbn [mbind res_bind]. exists t3. split; [done|]. by subst b.
  - rewrite <- Eh. destruct (remove_timer_spec t _ p b Hd Hin Hv) as (t1 & -> & Hd1 & _).
    cbn [mbind res_bind]. exists t1. rewrite Hrem in Hd1. done.
  - unfold node_invalid in Hv. rewrite Er in Hv. by rewrite orb_true_r in Hv.
Qed.

Lemma process_loop_stop fuel t l q c a : dll t l -> (q, c) ∈ l -> 0 < delta_time_msec c ->
  process_loop handle_timer_expired fuel (Some q) t a = Ok (t, a).
Proof.
  intros Hd Hin Hc. destruct (dll_lookup _ _ _ _ Hd Hin) as (n & Hn & Hb).
  destruct fuel; simpl; unfold load; rewrite Hn; cbn [must mbind res_bind];
    replace (delta_time_msec n) with (delta_time_msec c) by (by subst c);
    by rewrite (proj2 (Z.eqb_neq _ _)) by lia.
Qed.

Lemma in_range_due B z r : 0 < B -> Forall (fun x => delta_time_msec (snd x) = 0) z ->
  in_range B 0 r -> in_range B 0 (z ++ r).
Proof.
  intros HB Hz Hr. induction Hz as [|[q c] z Hc Hz IH]; [done|]. simpl in *. rewrite Hc. simpl.
  split_and!; [lia..|done].
Qed.

Lemma expirable_due B z : Forall (fun x => expirable B (snd x)) z ->
  Forall (fun x : ptr * timer_node_t => delta_time_msec (snd x) = 0) z.
Proof. intros H. eapply Forall_impl; [done|]. by intros x [? _]. Qed.

Lemma process_loop_spec B fuel t z r a : 0 < B <= 2 ^ 32 -> (length z <= fuel)%nat ->
  dll t (z ++ r) -> Forall (fun x => expirable B (snd x)) z -> in_range B 0 r -> not_due r ->
  exists t', process_loop handle_timer_expired fuel (fst <$> head (z ++ r)) t a = Ok (t', foldl fire a z) /\
    dll t' (foldl rearm r z).
Proof.
  intros HB. revert fuel t r a. induction z as [|[p b] z IH]; intros fuel t r a Hf Hd Hz Hr Hn; simpl in *.
  { exists t. split; [|done]. destruct r as [|[q c] r]; [by destruct fuel|].
    apply (process_loop_stop fuel t ((q, c) :: r) q c); [done|by left|by eapply Hn]. }
  apply Forall_cons in Hz as [Hb Hz]. simpl in Hb. pose proof Hb as (Hb0 & _ & Hper).
  destruct (expire_spec B t p b (z ++ r) a) as (t1 & He & Hd1);
    [lia|done|done|by apply in_range_due; [lia|by eapply expirable_due|]|].
  destruct fuel as [|fuel]; [lia|].
  destruct (dll_lookup t _ p b Hd ltac:(left)) as (n & Hn' & Hnb). cbn [process_loop].
  unfold load. rewrite Hn'. cbn [must mbind res_bind].
  replace (delta_time_msec n) with (delta_time_msec b) by (by subst b). rewrite Hb0, Z.eqb_refl, He.
  cbn [mbind res_bind].
  assert (rearm (z ++ r) (p, b) = z ++ rearm r (p, b)) as Hre.
  { unfold rearm. simpl. destruct (req_type b); [|done..]. specialize (Hper eq_refl).
    apply abs_insert_due; [by eapply expirable_due|lia]. }
  rewrite Hre in Hd1.
  assert (in_range B 0 (rearm r (p, b)) /\ not_due (rearm r (p, b)) /\
    forall q c, head r = Some (q, c) -> exists c', (q, c') ∈ rearm r (p, b) /\ 0 < delta_time_msec c') as (Hr' & Hn1 & Hn2).
  { unfold rearm. simpl. destruct (req_type b).
    - specialize (Hper eq_refl). split; [apply abs_insert_deadlines; lia || done|].
      apply (abs_insert_not_due B); lia || done.
    - split_and!; try done. intros q c Hq. exists c. split; [|by eapply Hn].
      destruct r; simplify_eq/=. left.
    - split_and!; try done. intros q c Hq. exists c. split; [|by eapply Hn].
      destruct r; simplify_eq/=. left. }
  destruct z as [|[p' b'] z].
  - simpl in *. exists t1. split; [|done]. destruct r as [|[q c] r]; [by destruct fuel|].
    destruct (Hn2 q c eq_refl) as (c' & Hc' & Hpos). exact (process_loop_stop fuel t1 _ q c' _ Hd1 Hc' Hpos).
  - apply (IH fuel t1 (rearm r (p, b))); try done. simpl in *. lia.
Qed.
End ExpirySpec.

(** ** The invariant of the timer *)

(** The list is well formed, its nodes are valid and its expiry times lie
    below [B] (at most [2 ^ 32], the width of [delta_time_msec]). *)
Definition timer_ok (B : Z) (t : timer) (l : seq) : Prop :=
  dll t l /\ valid l /\ in_range B 0 l.

Lemma valid_map_head g l : (forall n, node_invalid (g n) = node_invalid n) -> valid l -> valid (map_head g l).
Proof.
  intros Hg. destruct l as [|[p b] l]; [done|]. intros [Hb Hl]%Forall_cons. apply Forall_cons.
  simpl in *. by rewrite Hg.
Qed.

Lemma valid_insert p b l : node_invalid b = false -> valid l -> valid (abs_insert p b l).
Proof.
  intros Hb Hl. unfold abs_insert.
  assert (let '(l1, d, l2) := abs_slot (orig_time_msec b) l in l = l1 ++ l2) as Hs.
  { generalize (orig_time_msec b). clear. induction l as [|[q c] l IH]; intros z; simpl; [done|].
    destruct (delta_time_msec c <=? z); [|done]. specialize (IH (u32 (z - delta_time_msec c))).
    destruct (abs_slot _ l) as [[l1 d] l2]. by subst. }
  destruct (abs_slot _ l) as [[l1 d] l2]. subst. apply Forall_app in Hl as [H1 H2].
  apply Forall_app. split; [done|]. apply Forall_cons. split; [done|]. by apply valid_map_head.
Qed.

Lemma valid_remove p l : valid l -> valid (abs_remove p l).
Proof.
  induction l as [|[q b] l IH]; simpl; [done|]. intros [Hb Hl]%Forall_cons.
  case_decide; [by apply valid_map_head|]. apply Forall_cons. split; [done|]. by apply IH.
Qed.

Lemma in_range_mono B acc acc' l : acc' <= acc -> in_range B acc l -> in_range B acc' l.
Proof.
  revert acc acc'. induction l as [|[p b] l IH]; intros acc acc' Ha; simpl; [done|].
  intros (? & ? & ?). split_and!; [done|lia|]. eapply IH; [|done]. lia.
Qed.

Lemma in_range_deltas B acc l : 0 <= acc -> in_range B acc l -> Forall (fun x => 0 <= delta_time_msec (snd x) < B) l.
Proof.
  revert acc. induction l as [|[p b] l IH]; intros acc Ha; simpl; [done|]. intros (? & ? & ?).
  apply Forall_cons. split; [simpl; lia|]. eapply IH; [|done]. lia.
Qed.

Lemma abs_elapse_ok B e acc l : 0 <= acc -> in_range B acc l -> valid l ->
  in_range B acc (abs_elapse e l) /\ valid (abs_elapse e l) /\ (abs_elapse e l).*1 = l.*1.
Proof.
  revert e acc. induction l as [|[p b] l IH]; intros e acc Ha Hr Hv; [by simpl; destruct (negb _)|].
  cbn [abs_elapse]. destruct (negb _) eqn:E0; [done|]. apply Forall_cons in Hv as [Hb Hv].
  destruct Hr as (? & ? & Hr). destruct (e <? delta_time_msec b) eqn:Ed; simpl.
  - split_and!; [lia|lia| | |done]; [|by apply Forall_cons]. eapply in_range_mono; [|done]. lia.
  - destruct (IH (e - delta_time_msec b) acc) as (H1 & H2 & H3); [done| |done|].
    { eapply in_range_mono; [|done]. lia. }
    rewrite Z.add_0_r. split_and!; [lia|lia|done|by apply Forall_cons|]. f_equal. done.
Qed.

Lemma abs_set_deadlines p g acc l : (forall n, delta_time_msec (g n) = delta_time_msec n) ->
  deadlines acc (abs_set p g l) = deadlines acc l.
Proof.
  intros Hg. revert acc. induction l as [|[q b] l IH]; intros acc; simpl; [done|].
  case_decide; simpl; rewrite ?Hg; f_equal; apply IH.
Qed.

Lemma abs_set_ok B p g acc l :
  (forall n, delta_time_msec (g n) = delta_time_msec n /\ node_invalid (g n) = node_invalid n) ->
  in_range B acc l -> valid l -> in_range B acc (abs_set p g l) /\ valid (abs_set p g l).
Proof.
  intros Hg. revert acc. induction l as [|[q b] l IH]; intros acc; simpl; [done|].
  intros (? & ? & Hr) [Hb Hv]%Forall_cons. specialize (IH _ Hr Hv) as [H1 H2]. destruct (Hg b) as [G1 G2].
  case_decide; simpl; rewrite ?G1; (split; [done|]); apply Forall_cons; (split; [|done]); simpl in *; congruence.
Qed.

Lemma rearm_deadlines B z r : B <= 2 ^ 32 -> in_range B 0 r -> valid r ->
  Forall (fun x => expirable B (snd x)) z ->
  deadlines 0 (foldl rearm r z) =
    foldl (fun D x => match req_type (snd x) with
                      | PERIODIC_TIMER => insert_deadline (fst x) (orig_time_msec (snd x)) D
                      | _ => D end) (deadlines 0 r) z
  /\ in_range B 0 (foldl rearm r z) /\ valid (foldl rearm r z).
Proof.
  intros HB Hr Hv Hz. revert r Hr Hv. induction Hz as [|[p b] z (H0 & Hvb & Hper) Hz IH]; intros r Hr Hv; simpl in *; [done|].
  unfold rearm at 2 4 6. simpl. destruct (req_type b); [|by apply IH..]. specialize (Hper eq_refl).
  destruct (abs_insert_deadlines B HB p b r) as [<- Hr']; [lia|done|]. apply IH; [done|]. by apply valid_insert.
Qed.

(** ** Properties *)

(** C13: registering a timer.  [add_new_timer] on an allocated node that is
    not in the list succeeds, keeps the invariant, puts the new timer at
    exactly its timeout, after the timers due no later, and leaves the
    expiry time and the order of all the others unchanged. *)
Theorem timer_add B t l p h o u r : B <= 2 ^ 32 -> timer_ok B t l ->
  is_Some (mem t !! p) -> p ∉ l.*1 -> r <> INVALID_TIMER -> 0 <= o < B ->
  exists t' l', add_new_timer o p (Some h) u r t = Ok t' /\ timer_ok B t' l' /\
    deadlines 0 l' = insert_deadline p o (deadlines 0 l).
Proof.
  intros HB (Hd & Hv & Hr) Hp Hpl Hrt Ho.
  destruct (add_new_timer_spec t l p h o u r) as (t' & -> & Hd' & _); [done..|].
  set (b := TimerNode 0 o (Some h) u None r None None) in *.
  destruct (abs_insert_deadlines B HB p b l) as [Hdl Hr']; [done..|].
  exists t', (abs_insert p b l). split_and!; try done. split_and!; try done.
  apply valid_insert; [|done]. unfold node_invalid. simpl. by rewrite bool_decide_false.
Qed.

Definition blank_node : timer_node_t := TimerNode 0 0 None 0 None PERIODIC_TIMER None None.
(** Three allocated nodes, one registered timer: node 1, due in 100 ms. *)
Definition demo_timer : timer :=
  Timer (<[1%positive := TimerNode 100 100 (Some 7%positive) 0 None ONE_SHOT_TIMER None None]>
        (<[2%positive := blank_node]> (<[3%positive := blank_node]> ∅))) (Some 1%positive) (Timespec 5 0).
Definition demo_list : seq :=
  [(1%positive, TimerNode 100 100 (Some 7%positive) 0 None ONE_SHOT_TIMER None None)].

Lemma demo_timer_ok : timer_ok (2 ^ 31) demo_timer demo_list.
Proof.
  split_and!.
  - split; [apply NoDup_singleton|]. eexists. split; [done|]. eexists. split; [vm_compute; reflexivity|].
    simpl. split_and!; reflexivity.
  - by repeat constructor.
  - simpl. lia.
Qed.

Lemma timer_add_witness : exists t' l',
  add_new_timer 40 2 (Some 9%positive) 0 PERIODIC_TIMER demo_timer = Ok t' /\ timer_ok (2 ^ 31) t' l' /\
  deadlines 0 l' = [(2%positive, 40); (1%positive, 100)].
Proof.
  destruct (timer_add (2 ^ 31) demo_timer demo_list 2 9 40 0 PERIODIC_TIMER) as (t' & l' & H).
  - lia.
  - apply demo_timer_ok.
  - by eexists.
  - set_solver.
  - discriminate.
  - lia.
  - exists t', l'. exact H.
Defined.

(** unregistering a timer.  [remove_timer] on a node of the list with
    its own handler succeeds, frees the node, keeps the invariant and leaves
    the expiry times and the order of the others unchanged. *)
Theorem timer_remove B t l p b : B <= 2 ^ 32 -> timer_ok B t l -> (p, b) ∈ l ->
  exists t' l', remove_timer (Some p) (handler b) t = Ok t' /\ timer_ok B t' l' /\
    mem t' !! p = None /\ deadlines 0 l' = filter (fun x => fst x <> p) (deadlines 0 l).
Proof.
  intros HB (Hd & Hv & Hr) Hin.
  destruct (remove_timer_spec t l p b) as (t' & -> & Hd' & Hp & _); [done..| |].
  { unfold valid in Hv. rewrite Forall_forall in Hv. by apply (Hv (p, b)). }
  destruct (abs_remove_deadlines B HB p 0 l) as [Hdl Hr']; [lia|apply Hd|done|].
  exists t', (abs_remove p l). split_and!; try done. split_and!; try done. by apply valid_remove.
Qed.

Lemma timer_remove_witness : exists t' l', remove_timer (Some 1%positive) (Some 7%positive) demo_timer = Ok t' /\
  timer_ok (2 ^ 31) t' l' /\ mem t' !! 1%positive = None /\ deadlines 0 l' = [].
Proof.
  apply (timer_remove (2 ^ 31) demo_timer demo_list 1 (TimerNode 100 100 (Some 7%positive) 0 None ONE_SHOT_TIMER None None)).
  - lia.
  - apply demo_timer_ok.
  - left.
Defined.

(** unregistering a handler.  [remove_all_timers] removes exactly the
    timers of the handler and leaves the expiry times and the order of the
    others unchanged; its loop survives freeing the node it stands on. *)
Theorem timer_remove_all B t l h : B <= 2 ^ 32 -> timer_ok B t l ->
  exists t' l', remove_all_timers (Some h) t = Ok t' /\ dll t' l' /\ in_range B 0 l' /\
    deadlines 0 l' = filter (fun x => fst x ∉ owned h l) (deadlines 0 l).
Proof.
  intros HB (Hd & Hv & Hr). unfold remove_all_timers. rewrite (dll_head _ _ Hd).
  destruct (remove_all_loop_spec B (size (mem t)) h t [] l) as (t' & l' & H & ? & ? & ?); try done.
  - by apply dll_size.
  - by exists t', l'.
Qed.

Lemma timer_remove_all_witness : exists t' l', remove_all_timers (Some 7%positive) demo_timer = Ok t' /\
  dll t' l' /\ in_range (2 ^ 31) 0 l' /\ deadlines 0 l' = [].
Proof.
  apply (timer_remove_all (2 ^ 31) demo_timer demo_list 7).
  - lia.
  - apply demo_timer_ok.
Defined.

(** elapsed time.  When [gettime] succeeds and the elapsed time is a
    non-negative number of milliseconds that fits an [int], [update_timeout]
    brings every expiry time closer by it, down to "now", keeps the
    invariant, and returns the first expiry time, or -1 if there is none. *)
Theorem timer_update t l now : timer_ok (2 ^ 31) t l ->
  let e := ts_to_msec (ts_sub now (m_ts_last t)) in
  0 <= e < 2 ^ 31 ->
  exists ret t' l', update_timeout (Some now) t = Ok (ret, t') /\ timer_ok (2 ^ 31) t' l' /\
    deadlines 0 l' = (fun x => (fst x, Z.max 0 (snd x - e))) <$> deadlines 0 l /\
    ret = match deadlines 0 l' with [] => INFINITE_TIMEOUT | (_, d) :: _ => d end.
Proof.
  intros (Hd & Hv & Hr) e He. unfold update_timeout. fold e. rewrite (swrap_small 32 e) by (simpl; lia).
  set (t0 := if 0 <? e then set_ts_last now t else t).
  assert (mem t0 = mem t /\ m_list_head t0 = m_list_head t) as [Hm0 Hh0] by (unfold t0; by destruct (0 <? e)).
  assert (dll t0 l) as Hd0 by (destruct Hd as [? [last ?]]; split; [done|]; exists last; by rewrite Hm0, Hh0).
  rewrite Hh0, (dll_head _ _ Hd). destruct (abs_elapse_ok (2 ^ 31) e 0 l) as (Hr' & Hv' & Hf); [lia|done..|].
  pose proof (in_range_deltas (2 ^ 31) 0 l ltac:(lia) Hr) as Hdel.
  assert (deadlines 0 (abs_elapse e l) = (fun x => (fst x, Z.max 0 (snd x - e))) <$> deadlines 0 l) as Hdl.
  { apply abs_elapse_deadlines; [lia|]. eapply Forall_impl; [exact Hdel|]. simpl. lia. }
  destruct l as [|[p b] l]; cbn [head fmap option_fmap option_map fst].
  - exists INFINITE_TIMEOUT, t0, []. by split_and!.
  - pose proof Hd0 as [Hnd [last Hl]].
    destruct (elapse_spec (size (mem t0)) t0 e None _ _ last Hnd (dll_size _ _ Hd0) Hdel ltac:(lia) Hl)
      as (t1 & He1 & Hh1 & L1 & F1).
    replace (m_list_head t0) with (Some p) in He1 by (symmetry; rewrite Hh0; apply (dll_head _ _ Hd)).
    rewrite He1. cbn [mbind res_bind].
    assert (dll t1 (abs_elapse e ((p, b) :: l))) as Hd1.
    { split; [by rewrite Hf|]. exists last. by rewrite Hh1. }
    destruct (abs_elapse e ((p, b) :: l)) as [|[p' b'] l'] eqn:El; simpl in Hf; [done|]. injection Hf as -> Hf.
    destruct (dll_lookup t1 _ p b' Hd1 ltac:(left)) as (n & Hn & Hb). unfold load. rewrite Hn.
    cbn [must mbind res_bind]. eexists _, t1, ((p, b') :: l'). split; [done|]. split_and!; try done.
    simpl. destruct Hr' as (? & ? & _). replace (delta_time_msec n) with (delta_time_msec b') by (by subst b').
    rewrite swrap_small; simpl; lia.
Qed.

Lemma timer_update_witness : exists ret t' l', update_timeout (Some (Timespec 5 30000000)) demo_timer = Ok (ret, t') /\
  timer_ok (2 ^ 31) t' l' /\ deadlines 0 l' = [(1%positive, 70)] /\
  ret = match deadlines 0 l' with [] => INFINITE_TIMEOUT | (_, d) :: _ => d end.
Proof.
  apply (timer_update demo_timer demo_list (Timespec 5 30000000)).
  - apply demo_timer_ok.
  - vm_compute. intuition congruence.
Defined.

(** C24: expiry.  If the timers [z] at the front of the list are due, the
    others are not, and no period is zero, [process_registered_timers] calls
    each of the due handlers exactly once, in list order, ends, drops the
    one-shot timers and puts each periodic one back at its period. *)
Theorem timer_expiry {A} (f : ptr -> Z -> A -> A) B fuel t z r a : 0 < B <= 2 ^ 32 ->
  dll t (z ++ r) -> Forall (fun x => expirable B (snd x)) z -> in_range B 0 r -> valid r -> not_due r ->
  (length z <= fuel)%nat ->
  exists t' l', process_registered_timers f fuel t a = Ok (t', foldl (fire f) a z) /\ timer_ok B t' l' /\
    deadlines 0 l' =
      foldl (fun D x => match req_type (snd x) with
                        | PERIODIC_TIMER => insert_deadline (fst x) (orig_time_msec (snd x)) D
                        | _ => D end) (deadlines 0 r) z.
Proof.
  intros HB Hd Hz Hr Hv Hn Hf. unfold process_registered_timers. rewrite (dll_head _ _ Hd).
  destruct (process_loop_spec f B fuel t z r a) as (t' & -> & Hd'); try done.
  destruct (rearm_deadlines B z r) as (Hdl & Hr' & Hv'); try done; [lia|].
  exists t', (foldl rearm r z). by split_and!.
Qed.

(** A due periodic timer (node 2, period 30) before node 1, due in 100 ms. *)
Definition due_timer : timer :=
  Timer (<[1%positive := TimerNode 100 100 (Some 7%positive) 0 None ONE_SHOT_TIMER None (Some 2%positive)]>
        (<[2%positive := TimerNode 0 30 (Some 9%positive) 4 None PERIODIC_TIMER (Some 1%positive) None]> ∅))
    (Some 2%positive) (Timespec 5 0).

Lemma timer_expiry_witness : exists t' l',
  process_registered_timers (fun h u a => a ++ [(h, u)]) 1 due_timer [] = Ok (t', [(9%positive, 4)]) /\
  timer_ok (2 ^ 31) t' l' /\ deadlines 0 l' = [(2%positive, 30); (1%positive, 100)].
Proof.
  apply (timer_expiry (fun h u a => a ++ [(h, u)]) (2 ^ 31) 1 due_timer
    [(2%positive, TimerNode 0 30 (Some 9%positive) 4 None PERIODIC_TIMER None None)] demo_list []).
  - lia.
  - split; [repeat constructor; set_solver|]. eexists. simpl. split; [done|].
    eexists. split; [vm_compute; reflexivity|]. split_and!; try reflexivity.
    eexists. split; [vm_compute; reflexivity|]. simpl. split_and!; reflexivity.
  - repeat constructor; simpl; lia.
  - simpl. lia.
  - by repeat constructor.
  - intros q c [= <- <-]. simpl. lia.
  - reflexivity.
Defined.

(** waking a timer up.  [wakeup_timer] makes a registered timer due
    now, after those already due, keeps its period, keeps the invariant and
    leaves the expiry times and the order of the others unchanged. *)
Theorem timer_wakeup B t l p b : 0 < B <= 2 ^ 32 -> timer_ok B t l -> (p, b) ∈ l ->
  exists t' l', wakeup_timer (Some p) t = Ok t' /\ timer_ok B t' l' /\
    deadlines 0 l' = insert_deadline p 0 (filter (fun x => fst x <> p) (deadlines 0 l)) /\
    exists d, (p, set_delta d b) ∈ l'.
Proof.
  intros HB (Hd & Hv & Hr) Hin. assert (node_invalid b = false) as Hb.
  { unfold valid in Hv. rewrite Forall_forall in Hv. by apply (Hv (p, b)). }
  destruct (wakeup_timer_spec t l p b) as (t' & -> & Hd'); [done..|].
  destruct (abs_remove_deadlines B (proj2 HB) p 0 l) as [Hdl Hr1]; [lia|apply Hd|done|].
  destruct (abs_insert_deadlines B (proj2 HB) p (set_orig 0 b) (abs_remove p l)) as [Hdl2 Hr2]; [simpl; lia|done|].
  destruct (abs_set_ok B p (set_orig (orig_time_msec b)) 0 (abs_insert p (set_orig 0 b) (abs_remove p l)))
    as [Hr3 Hv3]; [done|done|by apply valid_insert; [|apply valid_remove]|].
  eexists t', _. split; [done|]. split; [by split_and!|]. split.
  - rewrite abs_set_deadlines by done. by rewrite Hdl2, Hdl.
  - unfold abs_insert. destruct (abs_slot _ _) as [[l1 d] l2]. exists d. unfold abs_set. rewrite fmap_app.
    apply elem_of_app. right. simpl. rewrite decide_True by done. destruct b. left.
Qed.

Lemma timer_wakeup_witness : exists t' l', wakeup_timer (Some 1%positive) demo_timer = Ok t' /\
  timer_ok (2 ^ 31) t' l' /\ deadlines 0 l' = [(1%positive, 0)] /\
  exists d, (1%positive, set_delta d (TimerNode 100 100 (Some 7%positive) 0 None ONE_SHOT_TIMER None None)) ∈ l'.
Proof.
  apply (timer_wakeup (2 ^ 31) demo_timer demo_list 1).
  - lia.
  - apply demo_timer_ok.
  - left.
Defined.

(** Two due timers of period zero. *)
Definition zero_node (h : ptr) (nx pv : option ptr) : timer_node_t :=
  TimerNode 0 0 (Some h) 0 None PERIODIC_TIMER nx pv.
Definition zero_timer_1 : timer :=
  Timer (<[1%positive := zero_node 7 (Some 2%positive) None]> (<[2%positive := zero_node 9 None (Some 1%positive)]> ∅))
    (Some 1%positive) (Timespec 5 0).
Definition zero_timer_2 : timer :=
  Timer (<[1%positive := zero_node 7 None (Some 2%positive)]> (<[2%positive := zero_node 9 (Some 1%positive) None]> ∅))
    (Some 2%positive) (Timespec 5 0).

(** two periodic timers of period zero are processed forever: each is
    put back behind the other, still due, and the loop follows it. *)
Theorem timer_zero_period_diverges fuel :
  process_registered_timers (fun _ _ (a : unit) => a) fuel zero_timer_1 tt = NoFuel.
Proof.
  unfold process_registered_timers. change (m_list_head zero_timer_1) with (Some 1%positive).
  assert (expire (fun _ _ a => a) 1 zero_timer_1 tt = Ok (Some 2%positive, zero_timer_2, tt)) as E1
    by (vm_compute; reflexivity).
  assert (expire (fun _ _ a => a) 2 zero_timer_2 tt = Ok (Some 1%positive, zero_timer_1, tt)) as E2
    by (vm_compute; reflexivity).
  enough (process_loop (fun _ _ a => a) fuel (Some 1%positive) zero_timer_1 tt = NoFuel /\
          process_loop (fun _ _ a => a) fuel (Some 2%positive) zero_timer_2 tt = NoFuel) as [H _] by exact H.
  induction fuel as [|fuel [IH1 IH2]]; [split; reflexivity|]. cbn [process_loop].
  change (load zero_timer_1 1) with (Ok (zero_node 7 (Some 2%positive) None)).
  change (load zero_timer_2 2) with (Ok (zero_node 9 (Some 1%positive) None)).
  cbn [mbind res_bind delta_time_msec zero_node Z.eqb]. rewrite E1, E2. by split.
Qed.
