(* ===== verification/MemBuf.v ===== *)
(** * Packet buffer descriptors (src/vma/proto/mem_buf_desc.h)

    The descriptors live in one shared store: the buffer pool, the fragment
    manager and the rings all link and relink the same objects through
    [p_next_desc], and a pointer that is not in the store is not allocated.
    [chain] is the NULL-terminated list that starts at a pointer. *)

From S2P Require Import Prelude.

Abbreviation ptr := positive.

(** The fields that the modelled code reads or writes; [pbuf_flags] and
    [pbuf_ref] are those of the embedded [lwip_pbuf]. *)
Record mem_buf_desc_t := MemBufDesc {
  pbuf_flags : Z;
  pbuf_ref : Z;
  n_ref_count : Z;
  lkey : Z;
  p_next_desc : option ptr;
  sz_data : Z;
  p_desc_owner : option ptr
}.

Abbreviation bufs := (gmap ptr mem_buf_desc_t).

#[global] Instance mem_buf_desc_eq_dec : EqDecision mem_buf_desc_t.
Proof. solve_decision. Defined.

Definition set_next_desc (p : option ptr) (b : mem_buf_desc_t) :=
  MemBufDesc (pbuf_flags b) (pbuf_ref b) (n_ref_count b) (lkey b) p (sz_data b) (p_desc_owner b).
Definition set_sz_data (n : Z) (b : mem_buf_desc_t) :=
  MemBufDesc (pbuf_flags b) (pbuf_ref b) (n_ref_count b) (lkey b) (p_next_desc b) n (p_desc_owner b).
Definition set_owner (k : Z) (o : option ptr) (b : mem_buf_desc_t) :=
  MemBufDesc (pbuf_flags b) (pbuf_ref b) (n_ref_count b) k (p_next_desc b) (sz_data b) o.
Definition set_pbuf (f r : Z) (b : mem_buf_desc_t) :=
  MemBufDesc f r (n_ref_count b) (lkey b) (p_next_desc b) (sz_data b) (p_desc_owner b).
Definition set_ref_count (n : Z) (b : mem_buf_desc_t) :=
  MemBufDesc (pbuf_flags b) (pbuf_ref b) n (lkey b) (p_next_desc b) (sz_data b) (p_desc_owner b).

(** [free_lwip_pbuf] of buffer_pool.h. *)
Definition free_lwip_pbuf (b : mem_buf_desc_t) : mem_buf_desc_t := set_pbuf 0 0 b.

Definition load (m : bufs) (p : ptr) : res mem_buf_desc_t := must (m !! p).
Definition store (p : ptr) (f : mem_buf_desc_t -> mem_buf_desc_t) (m : bufs) : res bufs :=
  b ← load m p; Ok (<[p := f b]> m).

(** [dec_ref_count]: an atomic fetch-and-decrement on an [int]. *)
Definition dec_ref_count (p : ptr) (m : bufs) : res (Z * bufs) :=
  b ← load m p;
  Ok (n_ref_count b, <[p := set_ref_count (i32 (n_ref_count b - 1)) b]> m).

(** ** Chains *)

Fixpoint chain (m : bufs) (p : option ptr) (l : list ptr) : Prop :=
  match l with
  | [] => p = None
  | q :: l => p = Some q /\ exists b, m !! q = Some b /\ chain m (p_next_desc b) l
  end.

(** Two stores with the same links on [l]. *)
Lemma chain_ext m m' p l :
  (forall q, q ∈ l -> p_next_desc <$> m' !! q = p_next_desc <$> m !! q) ->
  chain m p l -> chain m' p l.
Proof.
  revert p. induction l as [|q l IH]; intros p Hm; simpl; [done|].
  intros (-> & b & Hb & Hl). split; [done|].
  specialize (Hm q ltac:(left)) as Hq. rewrite Hb in Hq. simpl in Hq.
  destruct (m' !! q) as [b'|] eqn:Eb; simplify_eq/=. exists b'. split; [done|].
  rewrite Hq. apply IH; [|done]. intros r Hr. apply Hm. by right.
Qed.

Lemma chain_insert m p q f l : q ∉ l -> chain m p l -> chain (<[q := f]> m) p l.
Proof.
  intros Hq. apply chain_ext. intros r Hr. rewrite lookup_insert_ne; [done|]. by intros ->.
Qed.

Lemma chain_lookup m p l q : chain m p l -> q ∈ l -> is_Some (m !! q).
Proof.
  revert p. induction l as [|r l IH]; intros p; simpl; [by intros _ ?%not_elem_of_nil|].
  intros (-> & b & Hb & Hl) [->|Hq]%elem_of_cons; [by eexists|by eapply IH].
Qed.

Lemma chain_head m p l : chain m p l -> p = head l.
Proof. destruct l; simpl; naive_solver. Qed.

(** A chain is determined by where it starts. *)
Lemma chain_det m p l l' : chain m p l -> chain m p l' -> l = l'.
Proof.
  revert p l'. induction l as [|q l IH]; intros p [|q' l']; simpl; naive_solver.
Qed.

(** Following [p_next_desc] from a node of a chain gives its tail. *)
Lemma chain_app m p l1 l2 : chain m p (l1 ++ l2) -> exists q, chain m q l2 /\ (l1 = [] -> p = q).
Proof.
  revert p. induction l1 as [|r l1 IH]; intros p; simpl; [naive_solver|].
  intros (-> & b & Hb & Hl). destruct (IH _ Hl) as (q & Hq & _). exists q. naive_solver.
Qed.

(** A NULL-terminated chain has no repetition. *)
Lemma chain_NoDup m p l : chain m p l -> NoDup l.
Proof.
  remember (length l) as n eqn:Hn. revert p l Hn. induction n as [n IH] using lt_wf_ind; intros p l -> Hl.
  destruct l as [|q l]; [constructor|]. simpl in Hl. destruct Hl as (-> & b & Hb & Hl).
  constructor; [|eapply (IH (length l)); [simpl; lia|done|done]].
  intros (l1 & l2 & ->)%list_elem_of_split.
  destruct (chain_app _ _ _ _ Hl) as (q' & (-> & b' & Hb' & Hl2) & _). rewrite Hb in Hb'. simplify_eq.
  pose proof (chain_det _ _ _ _ Hl Hl2) as E. apply (f_equal length) in E.
  rewrite length_app in E. simpl in E. lia.
Qed.

Lemma chain_size m p l : chain m p l -> (length l <= size m)%nat.
Proof.
  intros Hl. pose proof (chain_NoDup _ _ _ Hl) as Hnd.
  rewrite <- size_dom, <- (size_list_to_set (C := gset ptr)) by done.
  apply subseteq_size. intros q. rewrite elem_of_list_to_set, elem_of_dom. by eapply chain_lookup.
Qed.

(** ** Linking a buffer into a chain *)

(** The predecessor of position [length A] in a chain [A ++ B]. *)
Lemma chain_link_after m p A d B f bf : chain m p (A ++ d :: B) -> f ∉ A ++ d :: B -> m !! f = Some bf ->
  exists m1 m2, store d (set_next_desc (Some f)) m = Ok m1 /\ store f (set_next_desc (head B)) m1 = Ok m2 /\
    chain m2 p (A ++ d :: f :: B) /\ (forall q, q ∉ [d; f] -> m2 !! q = m !! q) /\ is_Some (m2 !! d).
Proof.
  intros Hc Hf Hbf. pose proof (chain_NoDup _ _ _ Hc) as Hnd.
  apply NoDup_app in Hnd as (NA & NAd & [HdB NB]%NoDup_cons).
  destruct (chain_lookup _ _ _ d Hc) as [bd Hbd]; [set_solver|].
  assert (d <> f) as Hdf by set_solver. unfold store, load. rewrite Hbd. simpl.
  exists (<[d := set_next_desc (Some f) bd]> m), (<[f := set_next_desc (head B) bf]> (<[d := set_next_desc (Some f) bd]> m)).
  split; [done|]. split; [by rewrite lookup_insert_ne, Hbf|]. split_and!.
  - revert p Hc. induction A as [|a A IH]; intros p Hc; simpl in *.
    + destruct Hc as (-> & b & Hb & Hc). split; [done|]. exists (set_next_desc (Some f) bd).
      rewrite lookup_insert_ne, lookup_insert_eq by done. split; [done|]. simpl. split; [done|].
      eexists. rewrite lookup_insert_eq. split; [done|]. simpl. rewrite Hbd in Hb. simplify_eq.
      rewrite <- (chain_head _ _ _ Hc). apply chain_insert; [set_solver|]. by apply chain_insert.
    + destruct Hc as (-> & b & Hb & Hc). apply NoDup_cons in NA as [Ha NA]. split; [done|]. exists b.
      rewrite !lookup_insert_ne by set_solver. split; [done|]. apply IH; set_solver.
  - intros q Hq. rewrite !lookup_insert_ne by set_solver. done.
  - rewrite lookup_insert_ne, lookup_insert_eq by done. by eexists.
Qed.

Lemma chain_link_front m p B f bf : chain m p B -> f ∉ B -> m !! f = Some bf ->
  exists m2, store f (set_next_desc (head B)) m = Ok m2 /\ chain m2 (Some f) (f :: B) /\
    forall q, q ∉ [f] -> m2 !! q = m !! q.
Proof.
  intros Hc Hf Hbf. unfold store, load. rewrite Hbf. simpl. eexists. split; [done|]. split.
  - split; [done|]. eexists. rewrite lookup_insert_eq. split; [done|]. simpl.
    rewrite <- (chain_head _ _ _ Hc). by apply chain_insert.
  - intros q Hq. apply lookup_insert_ne. set_solver.
Qed.
