(* ===== verification/BufferPool.v ===== *)
(** * The buffer pool (src/vma/dev/buffer_pool.cpp)

    A pool keeps its free descriptors on a list linked through
    [p_next_desc], with a count, and panics when more descriptors come back
    than it created; the panic path looks for a cycle with Floyd's
    algorithm.  The list and the cycle detection are modelled on the shared
    store of descriptors.  A [descq_t] is the list of the pointers it holds. *)

From S2P Require Import Prelude MemBuf.

Record bpool_stats_t := BpoolStats {
  is_rx : bool;
  is_tx : bool;
  n_buffer_pool_size : Z;
  n_buffer_pool_no_bufs : Z
}.

Record buffer_pool := BufferPool {
  m_n_buffers : Z;
  m_n_buffers_created : Z;
  m_p_head : option ptr;
  m_p_bpool_stat : bpool_stats_t
}.

(** The store of descriptors and the pool. *)
Abbreviation world := (bufs * buffer_pool)%type.

Definition stat_size (f : Z -> Z) (s : bpool_stats_t) : bpool_stats_t :=
  BpoolStats (is_rx s) (is_tx s) (u32 (f (n_buffer_pool_size s))) (n_buffer_pool_no_bufs s).
Definition stat_no_bufs (s : bpool_stats_t) : bpool_stats_t :=
  BpoolStats (is_rx s) (is_tx s) (n_buffer_pool_size s) (u32 (n_buffer_pool_no_bufs s + 1)).

Definition put_buffer_helper (buff : ptr) (w : world) : res world :=
  let '(m, bp) := w in
  m ← store buff (fun b => free_lwip_pbuf (set_next_desc (m_p_head bp) b)) m;
  Ok (m, BufferPool (u64 (m_n_buffers bp + 1)) (m_n_buffers_created bp) (Some buff)
           (stat_size (fun n => n + 1) (m_p_bpool_stat bp))).

(** ** The constructor: the block is split into [buffer_count] descriptors,
    whose addresses [descs] the allocator provides. *)

Fixpoint put_all (descs : list ptr) (owner : option ptr) (w : world) : res world :=
  match descs with
  | [] => Ok w
  | d :: descs =>
    let '(m, bp) := w in
    w ← put_buffer_helper d (<[d := MemBufDesc 0 0 0 0 None 0 owner]> m, bp);
    put_all descs owner w
  end.

Definition new_buffer_pool (descs : list ptr) (owner : option ptr) (m : bufs) : res world :=
  put_all descs owner
    (m, BufferPool 0 (Z.of_nat (length descs)) None (BpoolStats false false 0 0)).

(** ** Taking buffers *)

(** The loop that pops [count] buffers onto the queue. *)
Fixpoint pop_buffers (count : nat) (desc_owner : option ptr) (key : Z) (head : option ptr)
    (pDeque : list ptr) (m : bufs) : res (option ptr * list ptr * bufs) :=
  match count with
  | O => Ok (head, pDeque, m)
  | S count =>
    h ← must head;
    b ← load m h;
    m ← store h (fun b => set_owner key desc_owner (set_next_desc None b)) m;
    pop_buffers count desc_owner key (p_next_desc b) (pDeque ++ [h]) m
  end.

Definition get_buffers_thread_safe (pDeque : list ptr) (desc_owner : option ptr) (count key : Z)
    (w : world) : res (bool * list ptr * world) :=
  let '(m, bp) := w in
  if m_n_buffers bp <? count then
    Ok (false, pDeque, (m, BufferPool (m_n_buffers bp) (m_n_buffers_created bp) (m_p_head bp)
                             (stat_no_bufs (m_p_bpool_stat bp))))
  else
    '(head, pDeque, m) ← pop_buffers (Z.to_nat count) desc_owner key (m_p_head bp) pDeque m;
    Ok (true, pDeque, (m, BufferPool (u64 (m_n_buffers bp - count)) (m_n_buffers_created bp) head
                            (stat_size (fun n => n - count) (m_p_bpool_stat bp)))).

(** ** Cycle detection *)

Definition deref (m : bufs) (p : option ptr) : res (option ptr) :=
  p ← must p; b ← load m p; Ok (p_next_desc b).

Fixpoint isCircle_loop (fuel : nat) (m : bufs) (p1 p2 : option ptr) : res bool :=
  n2 ← deref m p2;
  match n2 with
  | None => Ok false
  | Some _ =>
    nn2 ← deref m n2;
    match nn2 with
    | None => Ok false
    | Some _ =>
      match fuel with
      | O => NoFuel
      | S fuel =>
        p1 ← deref m p1;
        if bool_decide (p1 = nn2) then Ok true else isCircle_loop fuel m p1 nn2
      end
    end
  end.

Definition isCircle (fuel : nat) (m : bufs) (pNode : option ptr) : res bool :=
  match pNode with
  | None => Ok false
  | Some _ => isCircle_loop fuel m pNode pNode
  end.

Definition MAX_STEPS : Z := Z.shiftl 1 24.

(** Phase 1: the tortoise and the hare meet. *)
Fixpoint floyd_meet (fuel : nat) (m : bufs) (tortoise hare : option ptr) : res (option ptr) :=
  if bool_decide (tortoise = hare) then Ok tortoise
  else
    match fuel with
    | O => NoFuel
    | S fuel =>
      t ← deref m tortoise; h ← deref m hare; h ← deref m h;
      floyd_meet fuel m t h
    end.

(** Phase 2: both move at the same speed; the tortoise's position and [mu]. *)
Fixpoint floyd_mu (fuel : nat) (m : bufs) (mu : Z) (tortoise hare : option ptr)
  : res (option ptr * Z) :=
  if bool_decide (tortoise = hare) then Ok (tortoise, mu)
  else
    match fuel with
    | O => NoFuel
    | S fuel =>
      t ← deref m tortoise; h ← deref m hare;
      if MAX_STEPS <? mu + 1 then Ok (t, mu + 1) else floyd_mu fuel m (mu + 1) t h
    end.

(** Phase 3: only the hare moves. *)
Fixpoint floyd_lambda (fuel : nat) (m : bufs) (lambda : Z) (tortoise hare : option ptr) : res Z :=
  if bool_decide (tortoise = hare) then Ok lambda
  else
    match fuel with
    | O => NoFuel
    | S fuel =>
      h ← deref m hare;
      if MAX_STEPS <? lambda + 1 then Ok (lambda + 1) else floyd_lambda fuel m (lambda + 1) tortoise h
    end.

(** The pair (mu, lambda) that is logged. *)
Definition Floyd_LogCircleInfo (fuel : nat) (m : bufs) (x0 : option ptr) : res (Z * Z) :=
  tortoise ← deref m x0;
  hare ← deref m tortoise;
  meet ← floyd_meet fuel m tortoise hare;
  '(tortoise, mu) ← floyd_mu fuel m 0 x0 meet;
  hare ← deref m tortoise;
  lambda ← floyd_lambda fuel m 1 tortoise hare;
  Ok (mu, lambda).

(** The panic: it always throws, after the diagnosis. *)
Definition buffersPanic {A} (fuel : nat) (w : world) : res A :=
  c ← isCircle fuel (fst w) (m_p_head (snd w));
  if (c : bool) then (_ ← Floyd_LogCircleInfo fuel (fst w) (m_p_head (snd w)); Throw)
  else Throw.

(** ** Returning buffers *)

Fixpoint put_loop (fuel : nat) (buff_list : option ptr) (w : world) : res world :=
  match buff_list with
  | None => Ok w
  | Some p =>
    match fuel with
    | O => NoFuel
    | S fuel =>
      b ← load (fst w) p;
      w ← put_buffer_helper p w;
      put_loop fuel (p_next_desc b) w
    end
  end.

Definition check_count (w : world) : res world :=
  if m_n_buffers_created (snd w) <? m_n_buffers (snd w)
  then buffersPanic (S (size (fst w))) w else Ok w.

(** [put_buffers] on a linked list, and its thread-safe wrapper. *)
Definition put_buffers (buff_list : option ptr) (w : world) : res world :=
  w ← put_loop (size (fst w)) buff_list w; check_count w.

(** [put_buffers] on a queue: lists are taken from the back. *)
Fixpoint put_queue (amount : nat) (buffers : list ptr) (w : world) : res (list ptr * world) :=
  match amount with
  | O => Ok (buffers, w)
  | S amount =>
    match last buffers with
    | None => Ok (buffers, w)
    | Some p =>
      w ← put_loop (size (fst w)) (Some p) w;
      put_queue amount (take (length buffers - 1) buffers) w
    end
  end.

Definition put_buffers_q (buffers : list ptr) (count : Z) (w : world) : res (list ptr * world) :=
  '(q, w) ← put_queue (Z.to_nat (Z.min count (Z.of_nat (length buffers)))) buffers w;
  w ← check_count w;
  Ok (q, w).

(** [put_buffers_after_deref_thread_safe]: a list goes back only when both
    of its reference counts drop; the second one is decremented only if the
    first test holds. *)
Fixpoint put_buffers_after_deref (pDeque : list ptr) (w : world) : res world :=
  match pDeque with
  | [] => Ok w
  | p :: pDeque =>
    let '(m, bp) := w in
    '(n, m) ← dec_ref_count p m;
    if n <=? 1 then
      b ← load m p;
      let m := <[p := set_pbuf (pbuf_flags b) (u16 (pbuf_ref b - 1)) b]> m in
      if pbuf_ref b <=? 1 then
        w ← put_buffers (Some p) (m, bp);
        put_buffers_after_deref pDeque w
      else put_buffers_after_deref pDeque (m, bp)
    else put_buffers_after_deref pDeque (m, bp)
  end.

Definition get_free_count (bp : buffer_pool) : Z := m_n_buffers bp.

Definition set_RX_TX_for_stats (rx : bool) (bp : buffer_pool) : buffer_pool :=
  let s := m_p_bpool_stat bp in
  BufferPool (m_n_buffers bp) (m_n_buffers_created bp) (m_p_head bp)
    (if rx then BpoolStats true (is_tx s) (n_buffer_pool_size s) (n_buffer_pool_no_bufs s)
     else BpoolStats (is_rx s) true (n_buffer_pool_size s) (n_buffer_pool_no_bufs s)).

(** ** The invariant: the list, its length and the two counters agree *)

Definition pool_list (w : world) (l : list ptr) : Prop :=
  chain (fst w) (m_p_head (snd w)) l /\
  m_n_buffers (snd w) = Z.of_nat (length l) /\
  n_buffer_pool_size (m_p_bpool_stat (snd w)) = Z.of_nat (length l).

(** ... and the pool holds no more than it created. *)
Definition pool_ok (C : Z) (w : world) (l : list ptr) : Prop :=
  pool_list w l /\ m_n_buffers_created (snd w) = C /\ Z.of_nat (length l) <= C < 2 ^ 32.

(** The pool depends on the descriptors of its list. *)
Lemma pool_ok_same C w w' L : snd w' = snd w -> (forall q, q ∈ L -> fst w' !! q = fst w !! q) -> pool_ok C w L -> pool_ok C w' L.
Proof.
  intros Es Hq ((H1 & H2 & H3) & H4 & H5). split; [|by rewrite Es]. unfold pool_list. rewrite Es. split; [|done].
  eapply chain_ext; [|exact H1]. intros q Hin. by rewrite Hq.
Qed.

(** Descriptors outside [X] are untouched. *)
Definition same_but (X : list ptr) (m m' : bufs) : Prop := forall q, q ∉ X -> m' !! q = m !! q.

Lemma put_buffer_helper_spec buff b w l : pool_list w l -> fst w !! buff = Some b -> buff ∉ l ->
  Z.of_nat (length l) + 1 < 2 ^ 32 ->
  exists w', put_buffer_helper buff w = Ok w' /\ pool_list w' (buff :: l) /\
    m_n_buffers_created (snd w') = m_n_buffers_created (snd w) /\
    fst w' = <[buff := free_lwip_pbuf (set_next_desc (m_p_head (snd w)) b)]> (fst w).
Proof.
  destruct w as [m bp]. intros (Hc & Hn & Hs) Hb Hl Hlen. simpl in *.
  unfold store, load. rewrite Hb. cbn [must mbind res_bind]. eexists. split; [done|]. split; [|by split]. split; [|split]; simpl.
  - split; [done|]. eexists. rewrite lookup_insert_eq. split; [done|]. simpl. by apply chain_insert.
  - rewrite Hn, wrap_small; lia.
  - rewrite Hs, wrap_small; lia.
Qed.

Lemma put_loop_spec fuel p bs w l : pool_list w l -> chain (fst w) p bs -> bs ## l ->
  (length bs <= fuel)%nat -> Z.of_nat (length bs + length l) < 2 ^ 32 ->
  exists w', put_loop fuel p w = Ok w' /\ pool_list w' (rev bs ++ l) /\
    m_n_buffers_created (snd w') = m_n_buffers_created (snd w) /\ same_but bs (fst w) (fst w').
Proof.
  revert fuel p w l. induction bs as [|q bs IH]; intros fuel p w l Hw Hc Hd Hf Hlen.
  { simpl in Hc. subst. exists w. destruct fuel; by split_and!. }
  pose proof (chain_NoDup _ _ _ Hc) as Hnd. apply NoDup_cons in Hnd as [Hq Hnd].
  destruct Hc as (-> & b & Hb & Hc). destruct fuel as [|fuel]; simpl in Hf; [lia|]. simpl.
  unfold load. rewrite Hb. cbn [must mbind res_bind].
  destruct (put_buffer_helper_spec q b w l) as (w1 & -> & Hw1 & Hcr1 & Hm1); [done|done|set_solver|simpl in *; lia|].
  cbn [mbind res_bind]. destruct (IH fuel (p_next_desc b) w1 (q :: l)) as (w2 & -> & Hw2 & Hcr2 & Hm2).
  - done.
  - rewrite Hm1. by apply chain_insert.
  - set_solver.
  - lia.
  - simpl in *. lia.
  - exists w2. split_and!; [done| |congruence|].
    + simpl. by rewrite <- app_assoc.
    + intros r Hr. rewrite Hm2 by set_solver. rewrite Hm1. apply lookup_insert_ne. set_solver.
Qed.

Lemma check_count_ok C w l : pool_list w l -> m_n_buffers_created (snd w) = C ->
  Z.of_nat (length l) <= C -> check_count w = Ok w.
Proof.
  intros (_ & Hn & _) HC Hl. unfold check_count. rewrite Hn, HC.
  by rewrite (proj2 (Z.ltb_ge _ _)) by lia.
Qed.

(** The loop that takes [k] buffers off the list. *)
Lemma pop_buffers_spec k owner key p dq m l : chain m p l -> (k <= length l)%nat ->
  exists p' m', pop_buffers k owner key p dq m = Ok (p', dq ++ take k l, m') /\
    chain m' p' (drop k l) /\ same_but (take k l) m m' /\
    forall q, q ∈ take k l -> exists b, m !! q = Some b /\ m' !! q = Some (set_owner key owner (set_next_desc None b)).
Proof.
  revert p dq m l. induction k as [|k IH]; intros p dq m l Hc Hk; simpl.
  { exists p, m. rewrite app_nil_r. split_and!; try done. by intros q ?%not_elem_of_nil. }
  destruct l as [|h l]; simpl in *; [lia|]. pose proof (chain_NoDup m p (h :: l) Hc) as [Hh Hnd]%NoDup_cons.
  destruct Hc as (-> & b & Hb & Hc). unfold load, store. cbn [must mbind res_bind]. unfold load.
  rewrite Hb. cbn [must mbind res_bind].
  destruct (IH (p_next_desc b) (dq ++ [h]) (<[h := set_owner key owner (set_next_desc None b)]> m) l)
    as (p' & m' & -> & Hc' & Hs & Ht); [by apply chain_insert|lia|].
  assert (h ∉ take k l) as Hht by (intros ?%elem_of_take; naive_solver eauto using list_elem_of_lookup_2).
  exists p', m'. rewrite <- app_assoc. split_and!; try done.
  - intros q Hq. rewrite Hs by set_solver. apply lookup_insert_ne. set_solver.
  - intros q [->|Hq]%elem_of_cons.
    + exists b. split; [done|]. rewrite Hs by done. apply lookup_insert_eq.
    + destruct (Ht q Hq) as (b' & Hb' & Hm'). rewrite lookup_insert_ne in Hb' by set_solver. eauto.
Qed.

Lemma new_pool_put_all descs owner w l : pool_list w l -> NoDup descs -> descs ## l ->
  Z.of_nat (length descs + length l) < 2 ^ 32 ->
  exists w', put_all descs owner w = Ok w' /\ pool_list w' (rev descs ++ l) /\
    m_n_buffers_created (snd w') = m_n_buffers_created (snd w).
Proof.
  revert w l. induction descs as [|d descs IH]; intros [m bp] l Hw Hnd Hd Hlen; [by eexists|].
  apply NoDup_cons in Hnd as [Hdd Hnd]. cbn [put_all].
  destruct (put_buffer_helper_spec d (MemBufDesc 0 0 0 0 None 0 owner)
    (<[d := MemBufDesc 0 0 0 0 None 0 owner]> m, bp) l) as (w1 & -> & Hw1 & Hcr1 & _).
  - destruct Hw as (Hc & ?). split; [|done]. apply chain_insert; [set_solver|done].
  - apply lookup_insert_eq.
  - set_solver.
  - simpl in *. lia.
  - cbn [mbind res_bind]. destruct (IH w1 (d :: l)) as (w2 & -> & Hw2 & Hcr2); [done|done|set_solver|simpl in *; lia|].
    exists w2. split_and!; [done| |by rewrite Hcr2, Hcr1]. simpl. by rewrite <- app_assoc.
Qed.

(** ** Cycles: following [p_next_desc] *)

Section Walk.
Context (m : bufs) (p : option ptr).

(** The pointer reached after [n] steps; NULL stays NULL. *)
Fixpoint walk (n : nat) : option ptr :=
  match n with
  | O => p
  | S n => q ← walk n; b ← m !! q; p_next_desc b
  end.

(** Every pointer that is reached is NULL or allocated. *)
Definition closed : Prop := forall n q, walk n = Some q -> is_Some (m !! q).
(** NULL is never reached. *)
Definition circular : Prop := forall n, is_Some (walk n).

Lemma walk_le n k : (k <= n)%nat -> is_Some (walk n) -> is_Some (walk k).
Proof.
  induction 1 as [|n Hle IH]; [done|]. intros [q Hq]. simpl in Hq. apply IH.
  destruct (walk n); [by eexists|done].
Qed.

Lemma walk_add a b n : walk a = walk b -> walk (a + n) = walk (b + n).
Proof. intros H. induction n as [|n IH]; [by rewrite !Nat.add_0_r|]. rewrite !Nat.add_succ_r. simpl. by rewrite IH. Qed.

(** A repetition before NULL means that NULL is never reached. *)
Lemma repeat_circular a b : (a < b)%nat -> walk a = walk b -> is_Some (walk b) -> circular.
Proof.
  intros Hab Heq Hb n. induction n as [n IH] using lt_wf_ind.
  destruct (decide (n <= b)%nat) as [Hn|Hn]; [by apply (walk_le b)|].
  replace n with (b + (n - b))%nat by lia. rewrite <- (walk_add a b) by done. apply IH. lia.
Qed.

Context (Hcl : closed).

Lemma deref_walk n : is_Some (walk n) -> deref m (walk n) = Ok (walk (S n)).
Proof.
  intros [q Hq]. destruct (Hcl n q Hq) as [b Hb]. unfold deref, load. simpl. rewrite Hq. simpl. by rewrite Hb.
Qed.

(** Pigeonhole: a walk as long as the number of descriptors repeats. *)
Lemma long_repeat : is_Some (walk (size m)) -> exists a b, (a < b <= size m)%nat /\ walk a = walk b.
Proof.
  intros Hc. set (f n := default 1%positive (walk n)).
  assert (forall n, (n <= size m)%nat -> walk n = Some (f n)) as Hf.
  { intros n Hn. unfold f. by destruct (walk_le _ n Hn Hc) as [q ->]. }
  destruct (decide (NoDup (f <$> seq 0 (S (size m))))) as [Hnd|Hnd].
  - exfalso. assert (size m < length (f <$> seq 0 (S (size m))))%nat as Hlt by (rewrite length_fmap, length_seq; lia).
    rewrite <- (size_list_to_set (C := gset ptr)) in Hlt by done.
    assert (size (list_to_set (f <$> seq 0 (S (size m))) : gset ptr) <= size (dom m))%nat as Hle.
    { apply subseteq_size. intros q. rewrite elem_of_list_to_set, list_elem_of_fmap, elem_of_dom.
      intros (n & -> & Hn%elem_of_seq). eapply Hcl, Hf. lia. }
    rewrite size_dom in Hle. lia.
  - apply not_NoDup_fmap_seq in Hnd as (a & b & Hab & Hf'). exists a, b. split; [lia|].
    by rewrite !Hf, Hf' by lia.
Qed.

Lemma circular_repeat : circular -> exists a b, (a < b <= size m)%nat /\ walk a = walk b.
Proof. intros Hc. by apply long_repeat. Qed.

Lemma circular_or_ends : circular \/ walk (size m) = None.
Proof.
  destruct (walk (size m)) as [q|] eqn:Hq; [|by right]. left.
  destruct long_repeat as (a & b & Hab & Heq); [rewrite Hq; by eexists|].
  apply (repeat_circular a b); [lia|done|]. apply (walk_le (size m)); [lia|]. rewrite Hq. by eexists.
Qed.

(** The tortoise and the hare meet within the number of descriptors. *)
Lemma circular_meet : circular -> exists j, (1 <= j <= size m)%nat /\ walk j = walk (j + j).
Proof.
  intros Hc. destruct (circular_repeat Hc) as (a & b & Hab & Heq).
  assert (forall k n, (a <= n)%nat -> walk n = walk (n + k * (b - a))) as Hper.
  { induction k as [|k IH]; intros n Hn; [by rewrite Nat.add_0_r|].
    rewrite (IH n Hn). replace (n + S k * (b - a))%nat with (b + (n - a + k * (b - a)))%nat by lia.
    rewrite <- (walk_add a b) by done. f_equal. lia. }
  exists ((b - a) * (S ((a - 1) / (b - a))))%nat. set (k := ((a - 1) / (b - a))%nat).
  assert (b - a <> 0)%nat as Hne by lia.
  pose proof (Nat.div_mod_eq (a - 1) (b - a)) as Hdiv. pose proof (Nat.mod_upper_bound (a - 1) (b - a) Hne) as Hmod.
  fold k in Hdiv. split.
  - split; [nia|]. destruct (decide (a = 0)%nat) as [->|Ha]; [|nia].
    unfold k. rewrite Nat.div_small by lia. lia.
  - replace ((b - a) * S k + (b - a) * S k)%nat with ((b - a) * S k + S k * (b - a))%nat by lia.
    apply Hper. nia.
Qed.

(** Two repetitions: the distance of one is a period for the other. *)
Lemma period_transfer i d j e : (1 <= d)%nat -> walk i = walk (i + d) -> walk j = walk (j + e) ->
  walk i = walk (i + e).
Proof.
  intros Hd Hi Hj.
  assert (forall k n, (i <= n)%nat -> walk n = walk (n + k * d)) as Hper.
  { induction k as [|k IH]; intros n Hn; [by rewrite Nat.add_0_r|].
    rewrite (IH n Hn). replace (n + S k * d)%nat with (i + d + (n - i + k * d))%nat by lia.
    rewrite <- (walk_add i (i + d)) by done. f_equal. lia. }
  rewrite (Hper j i), (Hper j (i + e)%nat) by lia.
  replace (i + j * d)%nat with (j + (i + j * d - j))%nat by nia.
  rewrite (walk_add j (j + e)) by done. f_equal. nia.
Qed.

(** ** [isCircle] *)

Lemma isCircle_loop_true fuel i j : circular -> (i < j <= i + fuel)%nat -> walk j = walk (j + j) ->
  isCircle_loop fuel m (walk i) (walk (i + i)) = Ok true.
Proof.
  intros Hc. revert i. induction fuel as [|fuel IH]; intros i Hj Heq; [lia|]. cbn [isCircle_loop].
  rewrite (deref_walk (i + i)) by done. cbn [mbind res_bind]. destruct (Hc (S (i + i))) as [q Hq].
  rewrite Hq. rewrite <- Hq, (deref_walk (S (i + i))) by done. cbn [mbind res_bind].
  destruct (Hc (S (S (i + i)))) as [q' Hq']. rewrite Hq', <- Hq', (deref_walk i) by done. cbn [mbind res_bind].
  replace (S (S (i + i))) with (S i + S i)%nat by lia. case_bool_decide as Hd; [done|].
  apply IH; [|done]. destruct (decide (S i = j)); [naive_solver|lia].
Qed.

Lemma isCircle_loop_false fuel i N : walk N = None -> is_Some (walk (i + i)) -> (N <= i + i + fuel)%nat ->
  isCircle_loop fuel m (walk i) (walk (i + i)) = Ok false.
Proof.
  intros HN. revert i. induction fuel as [|fuel IH]; intros i Hi Hf.
  { exfalso. apply (walk_le _ N) in Hi; [|lia]. rewrite HN in Hi. by destruct Hi. }
  cbn [isCircle_loop]. rewrite (deref_walk (i + i)) by done. cbn [mbind res_bind].
  destruct (walk (S (i + i))) as [q|] eqn:Hq; [|done]. rewrite <- Hq, (deref_walk (S (i + i))) by (by eexists). cbn [mbind res_bind].
  destruct (walk (S (S (i + i)))) as [q'|] eqn:Hq'; [|done].
  rewrite deref_walk by (apply (walk_le (i + i)); [lia|done]). cbn [mbind res_bind].
  rewrite <- Hq'. replace (S (S (i + i))) with (S i + S i)%nat in * by lia. case_bool_decide as Hd.
  - exfalso. assert (circular) as Hc by (apply (repeat_circular (S i) (S i + S i)); [lia|done|by eexists]).
    destruct (Hc N) as [? ?]. congruence.
  - apply IH; [by eexists|lia].
Qed.

(** ** Floyd's algorithm: each phase stops at the first hit *)

Lemma floyd_meet_spec fuel i j : circular -> (i <= j <= i + fuel)%nat -> walk j = walk (j + j) ->
  exists j', (i <= j' <= j)%nat /\ walk j' = walk (j' + j') /\
    floyd_meet fuel m (walk i) (walk (i + i)) = Ok (walk j').
Proof.
  intros Hc. revert i. induction fuel as [|fuel IH]; intros i Hj Heq; cbn [floyd_meet].
  { assert (i = j) as -> by lia. rewrite bool_decide_true by done. exists j. naive_solver. }
  case_bool_decide as Hd; [exists i; naive_solver lia|].
  rewrite (deref_walk i), (deref_walk (i + i)) by done. cbn [mbind res_bind].
  rewrite deref_walk by done. cbn [mbind res_bind]. replace (S (S (i + i))) with (S i + S i)%nat by lia.
  destruct (IH (S i)) as (j' & ? & ? & ?); [|done|exists j'; split; [lia|done]].
  destruct (decide (i = j)); [naive_solver|lia].
Qed.

Lemma floyd_mu_spec fuel e i k : circular -> (i <= k <= i + fuel)%nat -> Z.of_nat k <= MAX_STEPS ->
  walk k = walk (e + k) ->
  exists k', (i <= k' <= k)%nat /\ walk k' = walk (e + k') /\
    (forall n, (i <= n < k')%nat -> walk n <> walk (e + n)) /\
    floyd_mu fuel m (Z.of_nat i) (walk i) (walk (e + i)) = Ok (walk k', Z.of_nat k').
Proof.
  intros Hc. revert i. induction fuel as [|fuel IH]; intros i Hk Hmax Heq; cbn [floyd_mu].
  { assert (i = k) as -> by lia. rewrite bool_decide_true by done. exists k. naive_solver lia. }
  case_bool_decide as Hd; [exists i; naive_solver lia|].
  rewrite (deref_walk i), (deref_walk (e + i)) by done. cbn [mbind res_bind].
  assert (i <> k) as Hne by naive_solver. rewrite (proj2 (Z.ltb_ge _ _)) by lia.
  replace (S (e + i)) with (e + S i)%nat by lia. replace (Z.of_nat i + 1) with (Z.of_nat (S i)) by lia.
  destruct (IH (S i)) as (k' & ? & ? & Hlt & ?); [lia|done|done|]. exists k'. split; [lia|]. split; [done|].
  split; [|done]. intros n Hn. destruct (decide (n = i)) as [->|]; [done|]. apply Hlt. lia.
Qed.

Lemma floyd_lambda_spec fuel a i k : circular -> (i <= k <= i + fuel)%nat -> Z.of_nat k <= MAX_STEPS ->
  walk a = walk (a + k) ->
  exists k', (i <= k' <= k)%nat /\ walk a = walk (a + k') /\
    (forall n, (i <= n < k')%nat -> walk a <> walk (a + n)) /\
    floyd_lambda fuel m (Z.of_nat i) (walk a) (walk (a + i)) = Ok (Z.of_nat k').
Proof.
  intros Hc. revert i. induction fuel as [|fuel IH]; intros i Hk Hmax Heq; cbn [floyd_lambda].
  { assert (i = k) as -> by lia. rewrite bool_decide_true by done. exists k. naive_solver lia. }
  case_bool_decide as Hd; [exists i; naive_solver lia|].
  rewrite (deref_walk (a + i)) by done. cbn [mbind res_bind].
  assert (i <> k) as Hne by naive_solver. rewrite (proj2 (Z.ltb_ge _ _)) by lia.
  replace (S (a + i)) with (a + S i)%nat by lia. replace (Z.of_nat i + 1) with (Z.of_nat (S i)) by lia.
  destruct (IH (S i)) as (k' & ? & ? & Hlt & ?); [lia|done|done|]. exists k'. split; [lia|]. split; [done|].
  split; [|done]. intros n Hn. destruct (decide (n = i)) as [->|]; [done|]. apply Hlt. lia.
Qed.
End Walk.

(** A NULL-terminated chain is closed and not circular. *)
Lemma chain_walk m p l n : chain m p l -> walk m p n = l !! n.
Proof.
  revert p l. induction n as [|n IH]; intros p l Hc.
  - rewrite (chain_head _ _ _ Hc). by destruct l.
  - assert (walk m p (S n) = q ← walk m p 1; walk m (Some q) n) as ->.
    { clear. induction n as [|n IH]; [simpl; by destruct p as [q|]; [simpl; destruct (m !! q) as [b|]; [simpl; destruct (p_next_desc b)|]|]|].
      cbn [walk] in *. rewrite IH. by destruct (p ≫= _). }
    destruct l as [|q l]; simpl in Hc; [by subst|]. destruct Hc as (-> & b & Hb & Hc). simpl. rewrite Hb. simpl.
    destruct l as [|q' l]; [by rewrite (chain_head _ _ _ Hc)|]. pose proof (chain_head _ _ _ Hc) as Hh.
    rewrite Hh. simpl. rewrite Hh in Hc. by apply (IH _ (q' :: l)).
Qed.

Lemma chain_closed m p l : chain m p l -> closed m p.
Proof.
  intros Hc n q. rewrite (chain_walk _ _ _ _ Hc). intros Hq%list_elem_of_lookup_2. by eapply chain_lookup.
Qed.

(** ** Queues of single buffers *)

(** An allocated buffer with no successor. *)
Definition single (m : bufs) (q : ptr) : Prop := exists b, m !! q = Some b /\ p_next_desc b = None.

Lemma single_chain m q : single m q <-> chain m (Some q) [q].
Proof. unfold single. simpl. naive_solver. Qed.

Lemma singles_same_but X m m' l : same_but X m m' -> l ## X -> Forall (single m) l -> Forall (single m') l.
Proof.
  intros Hs Hd. rewrite !Forall_forall. intros Hl q Hq. destruct (Hl q Hq) as (b & Hb & Hn).
  exists b. by rewrite Hs by set_solver.
Qed.

Lemma put_queue_spec bs amount w l : pool_list w l -> NoDup bs -> bs ## l -> Forall (single (fst w)) bs ->
  (amount <= length bs)%nat -> Z.of_nat (length bs + length l) < 2 ^ 32 ->
  exists w', put_queue amount bs w = Ok (take (length bs - amount) bs, w') /\
    pool_list w' (drop (length bs - amount) bs ++ l) /\
    m_n_buffers_created (snd w') = m_n_buffers_created (snd w) /\ same_but (drop (length bs - amount) bs) (fst w) (fst w').
Proof.
  revert bs w l. induction amount as [|amount IH]; intros bs w l Hw Hnd Hd Hs Ham Hlen; simpl.
  { rewrite Nat.sub_0_r, drop_all, take_ge by lia. by exists w. }
  destruct bs as [|p bs _] using rev_ind; simpl in Ham; [lia|].
  rewrite last_snoc. rewrite length_app in *. simpl in *. rewrite Nat.add_1_r in *.
  apply NoDup_app in Hnd as (Hnd & Hpb & _). apply Forall_app in Hs as [Hs [Hp _]%Forall_cons].
  assert (p ∉ bs) as Hpb' by set_solver.
  destruct (put_loop_spec (size (fst w)) (Some p) [p] w l) as (w1 & -> & Hw1 & Hcr & Hsb).
  { done. } { by apply single_chain. } { set_solver. }
  { apply (chain_size (fst w) (Some p) [p]). by apply single_chain. } { simpl. lia. }
  cbn [mbind res_bind]. replace (S (length bs) - 1)%nat with (length bs) by lia. rewrite take_app_length.
  destruct (IH bs w1 (p :: l)) as (w2 & -> & Hw2 & Hcr2 & Hsb2); [done|done|set_solver| |lia|simpl; lia|].
  { eapply singles_same_but; [exact Hsb|set_solver|done]. }
  exists w2. replace (S (length bs) - S amount)%nat with (length bs - amount)%nat by lia.
  rewrite take_app_le, drop_app_le by lia. rewrite <- app_assoc. split_and!; [done|done|congruence|].
  intros q Hq. rewrite Hsb2, Hsb; [done|..]; set_solver.
Qed.

(** The last [n] buffers of a queue go back. *)
Lemma put_buffers_q_spec C w l bs n : pool_ok C w l -> NoDup bs -> bs ## l -> Forall (single (fst w)) bs ->
  0 <= n <= Z.of_nat (length bs) -> Z.of_nat (length bs + length l) <= C ->
  let k := (length bs - Z.to_nat n)%nat in
  exists w', put_buffers_q bs n w = Ok (take k bs, w') /\ pool_ok C w' (drop k bs ++ l) /\ same_but (drop k bs) (fst w) (fst w').
Proof.
  intros (Hw & HC & Hl) Hnd Hd Hs Hn Hlen k. unfold put_buffers_q. rewrite Z.min_l by lia.
  destruct (put_queue_spec bs (Z.to_nat n) w l) as (w' & -> & Hw' & Hcr & Hsb); [done..|lia|lia|]. fold k in Hw', Hsb |- *. cbn [mbind res_bind].
  assert (Z.of_nat (length (drop k bs ++ l)) <= C) by (rewrite length_app, length_drop; lia).
  rewrite (check_count_ok C w' (drop k bs ++ l)); [|done|congruence|done]. exists w'. split; [done|]. split; [|done]. split; [done|]. split; [congruence|lia].
Qed.

(** ** Returning after dropping a reference *)

(** Both counts say that this was the last reference. *)
Definition last_ref (m : bufs) (q : ptr) : bool :=
  match m !! q with
  | Some b => (n_ref_count b <=? 1) && (pbuf_ref b <=? 1)
  | None => false
  end.

(** What is left of a descriptor that stays in use. *)
Definition dropped (b b' : mem_buf_desc_t) : Prop :=
  n_ref_count b' = i32 (n_ref_count b - 1) /\
  pbuf_ref b' = (if n_ref_count b <=? 1 then u16 (pbuf_ref b - 1) else pbuf_ref b).

Lemma pool_list_insert w l q b : pool_list w l -> q ∉ l -> pool_list (<[q := b]> (fst w), snd w) l.
Proof. intros (Hc & ? & ?) Hq. split; [|done]. by apply chain_insert. Qed.

(** One buffer of the queue: returned to the pool or kept, one count less. *)
Lemma deref_one C p q' w l : pool_ok C w l -> p ∉ l -> single (fst w) p -> Z.of_nat (S (length l)) <= C ->
  exists w', put_buffers_after_deref (p :: q') w = put_buffers_after_deref q' w' /\
    pool_ok C w' ((if last_ref (fst w) p then [p] else []) ++ l) /\ same_but [p] (fst w) (fst w') /\
    (last_ref (fst w) p = false -> exists b b', fst w !! p = Some b /\ fst w' !! p = Some b' /\ dropped b b').
Proof.
  destruct w as [m bp]. intros ((Hc & Hn & Hs) & HC & Hlen) Hp (b & Hb & Hnx) Hcap. simpl in *.
  unfold last_ref, dropped, dec_ref_count, load. rewrite Hb. cbn [must mbind res_bind].
  assert (forall X, same_but [p] m (<[p := X]> m)) as Hsb.
  { intros X q Hq. apply lookup_insert_ne. set_solver. }
  assert (forall X, pool_list (<[p := X]> m, bp) l) as Hpl.
  { intros X. split; [by apply chain_insert|done]. }
  destruct (n_ref_count b <=? 1) eqn:En; simpl.
  - rewrite lookup_insert_eq. simpl. rewrite insert_insert_eq. destruct (pbuf_ref b <=? 1).
    + set (X := set_pbuf _ _ _). unfold put_buffers.
      assert (chain (<[p := X]> m) (Some p) [p]) as Hpc by (apply single_chain; exists X; by rewrite lookup_insert_eq).
      destruct (put_loop_spec (size (<[p := X]> m)) (Some p) [p] (<[p := X]> m, bp) l) as (w1 & Hpl1 & Hw1 & Hcr & Hsb1);
        [done|done|set_solver|by eapply chain_size|simpl in *; lia|].
      simpl fst. rewrite Hpl1. cbn [mbind res_bind].
      rewrite (check_count_ok C w1 ([p] ++ l)); [|done|by rewrite Hcr|simpl in *; lia].
      exists w1. split; [done|]. split; [split; [done|]; split; [by rewrite Hcr|simpl in *; lia]|]. split; [|done].
      intros q Hq. rewrite Hsb1 by done. by apply Hsb.
    + eexists. split; [done|]. split; [split; [apply Hpl|done]|]. split; [apply Hsb|]. intros _. eexists b, _. simpl.
      rewrite lookup_insert_eq, En. by split_and!.
  - eexists. split; [done|]. split; [split; [apply Hpl|done]|]. split; [apply Hsb|]. intros _. eexists b, _. simpl.
    rewrite lookup_insert_eq, En. by split_and!.
Qed.

Lemma deref_all C dq w l : pool_ok C w l -> NoDup dq -> dq ## l -> Forall (single (fst w)) dq ->
  Z.of_nat (length dq + length l) <= C ->
  exists w', put_buffers_after_deref dq w = Ok w' /\
    pool_ok C w' (rev (filter (fun q => last_ref (fst w) q = true) dq) ++ l) /\ same_but dq (fst w) (fst w') /\
    forall q, q ∈ dq -> last_ref (fst w) q = false ->
      exists b b', fst w !! q = Some b /\ fst w' !! q = Some b' /\ dropped b b'.
Proof.
  revert w l. induction dq as [|p dq IH]; intros w l Hw Hnd Hd Hs Hcap.
  { exists w. split_and!; try done. by intros q ?%not_elem_of_nil. }
  apply NoDup_cons in Hnd as [Hp Hnd]. apply Forall_cons in Hs as [Hps Hs]. simpl in Hcap.
  destruct (deref_one C p dq w l) as (w1 & -> & Hw1 & Hsb1 & Hk1); [done|set_solver|done|simpl; lia|].
  assert (forall q, q ∈ dq -> last_ref (fst w1) q = last_ref (fst w) q) as Hlr.
  { intros q Hq. unfold last_ref. by rewrite Hsb1 by set_solver. }
  destruct (IH w1 ((if last_ref (fst w) p then [p] else []) ++ l)) as (w2 & -> & Hw2 & Hsb2 & Hk2).
  { done. } { done. } { destruct (last_ref _ p); set_solver. }
  { eapply singles_same_but; [exact Hsb1|set_solver|done]. }
  { rewrite length_app. destruct (last_ref _ p); simpl; lia. }
  exists w2. split; [done|].
  assert (filter (fun q => last_ref (fst w1) q = true) dq = filter (fun q => last_ref (fst w) q = true) dq) as Hfl.
  { clear -Hlr. induction dq as [|q dq IH]; [done|]. rewrite !filter_cons, Hlr by set_solver.
    rewrite IH by set_solver. done. }
  rewrite Hfl in Hw2. split_and!.
  - rewrite filter_cons. destruct (last_ref (fst w) p) eqn:E.
    + rewrite decide_True by done. simpl. by rewrite <- app_assoc.
    + by rewrite decide_False.
  - intros q Hq. rewrite Hsb2 by set_solver. apply Hsb1. set_solver.
  - intros q [->|Hq]%elem_of_cons Hlq.
    + destruct (Hk1 Hlq) as (b & b' & ? & ? & ?). exists b, b'. by rewrite Hsb2.
    + rewrite <- Hlr in Hlq by done. destruct (Hk2 q Hq Hlq) as (b & b' & Hb & ?). exists b, b'.
      rewrite Hsb1 in Hb by set_solver. done.
Qed.

(** ** Properties *)

(** building the pool.  A pool created from distinct descriptors holds
    all of them, and its counters say so. *)
Theorem bpool_new m owner descs : NoDup descs -> Z.of_nat (length descs) < 2 ^ 32 ->
  exists w, new_buffer_pool descs owner m = Ok w /\ pool_ok (Z.of_nat (length descs)) w (rev descs).
Proof.
  intros Hnd Hlen. unfold new_buffer_pool.
  destruct (new_pool_put_all descs owner (m, BufferPool 0 (Z.of_nat (length descs)) None (BpoolStats false false 0 0)) [])
    as (w & -> & Hw & Hc); [done|done|set_solver|simpl; lia|].
  exists w. rewrite app_nil_r in Hw. split; [done|]. split; [done|]. rewrite length_rev. split; [done|lia].
Qed.

Lemma bpool_new_witness : exists w,
  new_buffer_pool [1%positive; 2%positive; 3%positive] None ∅ = Ok w /\
  pool_ok 3 w [3%positive; 2%positive; 1%positive].
Proof.
  apply (bpool_new ∅ None [1%positive; 2%positive; 3%positive]).
  - repeat constructor; set_solver.
  - simpl. lia.
Defined.

Lemma get_buffers_spec C m bp l dq owner count key : pool_ok C (m, bp) l -> 0 <= count ->
  exists m' bp', get_buffers_thread_safe dq owner count key (m, bp) =
      Ok (count <=? Z.of_nat (length l), if count <=? Z.of_nat (length l) then dq ++ take (Z.to_nat count) l else dq, (m', bp')) /\
    (Z.of_nat (length l) < count -> m' = m /\ pool_ok C (m', bp') l /\
       n_buffer_pool_no_bufs (m_p_bpool_stat bp') = u32 (n_buffer_pool_no_bufs (m_p_bpool_stat bp) + 1)) /\
    (count <= Z.of_nat (length l) ->
       pool_ok C (m', bp') (drop (Z.to_nat count) l) /\ same_but (take (Z.to_nat count) l) m m' /\
       forall q, q ∈ take (Z.to_nat count) l -> exists b, m !! q = Some b /\
         m' !! q = Some (set_owner key owner (set_next_desc None b))).
Proof.
  intros ((Hc & Hn & Hs) & HC & Hlen) H0. simpl in *. unfold get_buffers_thread_safe. rewrite Hn.
  destruct (Z.of_nat (length l) <? count) eqn:E.
  - rewrite (proj2 (Z.leb_gt _ _)) by lia. eexists _, _. split; [done|]. split; [|lia]. intros _.
    split; [done|]. split; [|done]. by split_and!; try done; lia.
  - rewrite (proj2 (Z.leb_le _ _)) by lia.
    destruct (pop_buffers_spec (Z.to_nat count) owner key (m_p_head bp) dq m l Hc) as (p' & m' & -> & Hc' & Hsb & Ht); [lia|].
    cbn [mbind res_bind]. eexists _, _. split; [done|]. split; [lia|]. intros _. split; [|done].
    split; [split|split]; simpl; rewrite ?length_drop; [done| |done|lia].
    rewrite Hs. rewrite !wrap_small by lia. lia.
Qed.

(** C29: taking buffers.  When the pool has enough, the first [count]
    buffers of its list move to the end of the queue, unlinked and given to
    the new owner, the rest stays, and all other descriptors are untouched;
    otherwise nothing moves and the failure is counted. *)
Theorem bpool_get C m bp l dq owner count key : pool_ok C (m, bp) l -> 0 <= count ->
  exists m' bp', get_buffers_thread_safe dq owner count key (m, bp) =
      Ok (count <=? Z.of_nat (length l), if count <=? Z.of_nat (length l) then dq ++ take (Z.to_nat count) l else dq, (m', bp')) /\
    (Z.of_nat (length l) < count -> m' = m /\ pool_ok C (m', bp') l /\
       n_buffer_pool_no_bufs (m_p_bpool_stat bp') = u32 (n_buffer_pool_no_bufs (m_p_bpool_stat bp) + 1)) /\
    (count <= Z.of_nat (length l) ->
       pool_ok C (m', bp') (drop (Z.to_nat count) l) /\ same_but (take (Z.to_nat count) l) m m' /\
       forall q, q ∈ take (Z.to_nat count) l -> exists b, m !! q = Some b /\
         m' !! q = Some (set_owner key owner (set_next_desc None b))).
Proof. apply get_buffers_spec. Qed.

Definition demo_pool : world :=
  match new_buffer_pool [1%positive; 2%positive; 3%positive] None ∅ with Ok w => w | _ => (∅, BufferPool 0 0 None (BpoolStats false false 0 0)) end.

Lemma demo_pool_ok : pool_ok 3 demo_pool [3%positive; 2%positive; 1%positive].
Proof.
  split; [split; [|split; reflexivity]|split; [reflexivity|simpl; lia]]. simpl. repeat (split; [reflexivity|]; eexists; split; [vm_compute; reflexivity|]).
  reflexivity.
Qed.

Lemma bpool_get_witness : exists m' bp',
  get_buffers_thread_safe [] (Some 9%positive) 2 77 demo_pool = Ok (true, [3%positive; 2%positive], (m', bp')) /\
  pool_ok 3 (m', bp') [1%positive].
Proof.
  destruct (bpool_get 3 (fst demo_pool) (snd demo_pool) [3%positive; 2%positive; 1%positive] [] (Some 9%positive) 2 77)
    as (m' & bp' & H1 & _ & H2).
  - apply demo_pool_ok.
  - lia.
  - exists m', bp'. split; [exact H1|]. apply H2. simpl. lia.
Defined.

(** C30: returning a list of buffers.  Buffers that are not in the pool are
    put at its front, in reverse, and all other descriptors are untouched;
    if that makes more than the pool created, the pool panics (it throws)
    and never reads outside the store. *)
Theorem bpool_put C w l p bs : pool_ok C w l -> chain (fst w) p bs -> bs ## l ->
  Z.of_nat (length bs) < 2 ^ 31 -> C < 2 ^ 31 ->
  (Z.of_nat (length bs + length l) <= C -> exists w', put_buffers p w = Ok w' /\
     pool_ok C w' (rev bs ++ l) /\ same_but bs (fst w) (fst w')) /\
  (C < Z.of_nat (length bs + length l) -> put_buffers p w = Throw).
Proof.
  intros (Hw & HC & Hlen) Hc Hd Hbs HC31. unfold put_buffers.
  destruct (put_loop_spec (size (fst w)) p bs w l) as (w1 & -> & Hw1 & Hcr & Hsb); [done|done|done|by eapply chain_size|lia|].
  cbn [mbind res_bind]. split; intros Hle.
  - exists w1. rewrite (check_count_ok C w1 (rev bs ++ l)); [|done|congruence|rewrite length_app, length_rev; lia].
    split; [done|]. split; [|done]. split; [done|]. rewrite length_app, length_rev. split; [congruence|lia].
  - unfold check_count. pose proof Hw1 as (Hc1 & Hn1 & _). rewrite Hn1, Hcr, HC.
    rewrite (proj2 (Z.ltb_lt _ _)) by (rewrite length_app, length_rev; lia).
    unfold buffersPanic, isCircle. destruct (m_p_head (snd w1)) as [h|] eqn:Eh; [|done].
    rewrite (isCircle_loop_false (fst w1) (Some h) (chain_closed _ _ _ Hc1) (S (size (fst w1))) 0 (length (rev bs ++ l)));
      [done| | |].
    + rewrite (chain_walk _ _ _ _ Hc1). by apply lookup_ge_None_2.
    + by eexists.
    + pose proof (chain_size _ _ _ Hc1). lia.
Qed.

Lemma bpool_put_witness : exists w', put_buffers (Some 4%positive)
    (<[4%positive := MemBufDesc 0 0 0 0 None 0 None]> (fst demo_pool), BufferPool 3 4 (Some 3%positive) (BpoolStats false false 3 0)) = Ok w' /\
  pool_ok 4 w' [4%positive; 3%positive; 2%positive; 1%positive].
Proof.
  destruct (bpool_put 4 (<[4%positive := MemBufDesc 0 0 0 0 None 0 None]> (fst demo_pool), BufferPool 3 4 (Some 3%positive) (BpoolStats false false 3 0))
    [3%positive; 2%positive; 1%positive] (Some 4%positive) [4%positive]) as [H _].
  - split; [split; [|split; reflexivity]|split; [reflexivity|simpl; lia]]. simpl.
    repeat (split; [reflexivity|]; eexists; split; [vm_compute; reflexivity|]). reflexivity.
  - split; [reflexivity|]. eexists. split; [vm_compute; reflexivity|]. reflexivity.
  - set_solver.
  - simpl. lia.
  - lia.
  - destruct H as (w' & H1 & H2 & _); [simpl; lia|]. exists w'. split; assumption.
Defined.

(** cycle detection.  On a store where every linked descriptor is
    allocated, [isCircle] terminates within the number of descriptors and
    answers true exactly when following the links never reaches NULL. *)
Theorem bpool_isCircle m p fuel : closed m p -> (size m <= fuel)%nat ->
  exists b, isCircle fuel m p = Ok b /\ (b = true <-> circular m p).
Proof.
  intros Hcl Hf. unfold isCircle. destruct p as [p|].
  - destruct (circular_or_ends m (Some p) Hcl) as [Hc|Hn].
    + exists true. destruct (circular_meet m (Some p) Hcl Hc) as (j & Hj & Heq). split; [|done].
      apply (isCircle_loop_true m (Some p) Hcl fuel 0 j); [done|lia|done].
    + exists false. split; [|split; [done|]; intros Hc; destruct (Hc (size m)); congruence].
      apply (isCircle_loop_false m (Some p) Hcl fuel 0 (size m)); [done|by eexists|lia].
  - exists false. split; [done|]. split; [done|]. intros Hc. by destruct (Hc 0%nat).
Qed.

(** 1 -> 2 -> 3 -> 2: a cycle of length 2 entered after one step. *)
Definition looped : bufs :=
  <[1%positive := MemBufDesc 0 0 0 0 (Some 2%positive) 0 None]>
  (<[2%positive := MemBufDesc 0 0 0 0 (Some 3%positive) 0 None]>
  (<[3%positive := MemBufDesc 0 0 0 0 (Some 2%positive) 0 None]> ∅)).

Lemma looped_walk n : walk looped (Some 1%positive) (S n) = Some (if Nat.even n then 2%positive else 3%positive).
Proof.
  induction n as [|n IH]; [reflexivity|]. change (walk looped (Some 1%positive) (S (S n)))
    with (q ← walk looped (Some 1%positive) (S n); b ← looped !! q; p_next_desc b).
  rewrite IH, Nat.even_succ, <- Nat.negb_even. by destruct (Nat.even n).
Qed.

Lemma looped_closed : closed looped (Some 1%positive).
Proof.
  intros [|n] q; [by intros [= <-]; eexists|]. rewrite looped_walk. by destruct (Nat.even n); intros [= <-]; eexists.
Qed.

Lemma looped_circular : circular looped (Some 1%positive).
Proof. intros [|n]; [by eexists|]. rewrite looped_walk. by eexists. Qed.

Lemma bpool_isCircle_witness : exists b, isCircle 3 looped (Some 1%positive) = Ok b /\
  (b = true <-> circular looped (Some 1%positive)).
Proof. apply (bpool_isCircle looped (Some 1%positive) 3); [apply looped_closed | reflexivity]. Defined.

(** the logged cycle.  On a circular list of at most [MAX_STEPS]
    descriptors, [Floyd_LogCircleInfo] terminates and reports the index of
    the first descriptor that lies on the cycle and the length of the cycle:
    no earlier index is ever visited again, and no shorter distance closes
    the cycle. *)
Theorem bpool_floyd m p fuel : closed m p -> circular m p -> (size m <= fuel)%nat ->
  Z.of_nat (size m) <= MAX_STEPS ->
  exists mu lambda, Floyd_LogCircleInfo fuel m p = Ok (Z.of_nat mu, Z.of_nat lambda) /\ (1 <= lambda)%nat /\
    walk m p mu = walk m p (mu + lambda) /\
    (forall i d, (i < mu)%nat -> (1 <= d)%nat -> walk m p i <> walk m p (i + d)) /\
    (forall d, (1 <= d < lambda)%nat -> walk m p mu <> walk m p (mu + d)).
Proof.
  intros Hcl Hc Hf Hmax. unfold Floyd_LogCircleInfo.
  rewrite (deref_walk m p Hcl 0 (Hc 0%nat) : deref m p = _). cbn [mbind res_bind].
  rewrite (deref_walk m p Hcl 1) by done. cbn [mbind res_bind].
  destruct (circular_meet m p Hcl Hc) as (j & Hj & Heq).
  destruct (floyd_meet_spec m p Hcl fuel 1 j) as (e & He & Hee & Hmeet); [done|lia|done|].
  change (1 + 1)%nat with 2%nat in Hmeet. rewrite Hmeet. cbn [mbind res_bind].
  destruct (circular_repeat m p Hcl Hc) as (a & b & Hab & Hrep).
  assert (walk m p a = walk m p (a + (b - a))) as Hrep' by (rewrite Hrep; f_equal; lia).
  destruct (floyd_mu_spec m p Hcl fuel e 0 a) as (mu & Hmu & Hmue & Hmin & Hres); [done|lia|lia| |].
  { rewrite Nat.add_comm. eapply period_transfer; [|exact Hrep'|exact Hee]. lia. }
  rewrite Nat.add_0_r in Hres. change (walk m p 0) with p in Hres. change (Z.of_nat 0) with 0 in Hres. rewrite Hres. cbn [mbind res_bind].
  rewrite deref_walk by done. cbn [mbind res_bind]. rewrite Nat.add_comm in Hmue.
  destruct (floyd_lambda_spec m p Hcl fuel mu 1 (b - a)) as (la & Hla & Hlam & Hlmin & Hres2); [done|lia|lia| |].
  { eapply period_transfer; [|exact Hmue|exact Hrep']. lia. }
  rewrite Nat.add_1_r in Hres2. change 1 with (Z.of_nat 1). rewrite Hres2. cbn [mbind res_bind].
  exists mu, la. split; [done|]. split; [lia|]. split; [done|]. split; [|intros d Hd; apply Hlmin; lia].
  intros i d Hi Hd Hid. apply (Hmin i); [lia|]. rewrite Nat.add_comm. by eapply period_transfer; [|exact Hid|exact Hee].
Qed.

Lemma bpool_floyd_witness : exists mu lambda,
  Floyd_LogCircleInfo 3 looped (Some 1%positive) = Ok (Z.of_nat mu, Z.of_nat lambda) /\ (1 <= lambda)%nat /\
  walk looped (Some 1%positive) mu = walk looped (Some 1%positive) (mu + lambda).
Proof.
  destruct (bpool_floyd looped (Some 1%positive) 3) as (mu & la & H1 & H2 & H3 & _).
  - apply looped_closed.
  - apply looped_circular.
  - reflexivity.
  - vm_compute. discriminate.
  - exists mu, la. split_and!; assumption.
Defined.

(** round trip.  Taking buffers from the pool and handing the queue
    back restores the pool, in the same order and with the same counters. *)
Theorem bpool_roundtrip C w l owner count key : pool_ok C w l -> 0 <= count <= Z.of_nat (length l) ->
  exists dq w1 w2, get_buffers_thread_safe [] owner count key w = Ok (true, dq, w1) /\
    put_buffers_q dq count w1 = Ok ([], w2) /\ pool_ok C w2 l.
Proof.
  intros ((Hc & Hn & Hs) & HC & Hlen) H0. destruct w as [m bp]. simpl in *.
  unfold get_buffers_thread_safe. rewrite Hn, (proj2 (Z.ltb_ge _ _)) by lia.
  set (k := Z.to_nat count). pose proof (chain_NoDup _ _ _ Hc) as Hnd.
  destruct (pop_buffers_spec k owner key (m_p_head bp) [] m l Hc) as (p' & m' & -> & Hc' & _ & Ht); [lia|].
  cbn [mbind res_bind]. eexists _, _. set (w1 := (m', _)). simpl.
  assert (pool_list w1 (drop k l)) as Hw1.
  { split; [done|]. simpl. rewrite Hs, length_drop, !wrap_small by lia. lia. }
  rewrite <- (take_drop k l) in Hnd. apply NoDup_app in Hnd as (Hnd & Hd & _).
  assert (length (take k l) = k) as Hk by (rewrite length_take; lia).
  unfold put_buffers_q. rewrite Hk. replace (Z.to_nat (Z.min count (Z.of_nat k))) with k by lia.
  destruct (put_queue_spec (take k l) k w1 (drop k l)) as (w2 & Hq & Hw2 & Hcr & _).
  { done. } { done. } { intros q Hq1 Hq2. by apply (Hd q). }
  { apply Forall_forall. intros q Hq. destruct (Ht q Hq) as (b & _ & Hb). eexists. split; [exact Hb|done]. }
  { lia. } { rewrite length_drop. lia. }
  rewrite Hk, Nat.sub_diag in Hq, Hw2. rewrite drop_0, take_drop in Hw2.
  rewrite Hq. cbn [mbind res_bind take]. exists w2.
  rewrite (check_count_ok C w2 l) by (done || by rewrite Hcr || lia). split; [done|]. split; [done|].
  split; [done|]. split; [by rewrite Hcr|lia].
Qed.

Lemma bpool_roundtrip_witness : exists dq w1 w2,
  get_buffers_thread_safe [] (Some 9%positive) 2 77 demo_pool = Ok (true, dq, w1) /\
  put_buffers_q dq 2 w1 = Ok ([], w2) /\ pool_ok 3 w2 [3%positive; 2%positive; 1%positive].
Proof. apply bpool_roundtrip; [apply demo_pool_ok | simpl; lia]. Defined.

(** returning after dereference.  Of a queue of distinct single
    buffers, exactly those whose two reference counts were at most one go
    back to the pool; each of the others stays out of it with its count
    decremented. *)
Theorem bpool_deref C w l dq : pool_ok C w l -> NoDup dq -> dq ## l -> Forall (single (fst w)) dq ->
  Z.of_nat (length dq + length l) <= C ->
  exists w', put_buffers_after_deref dq w = Ok w' /\
    pool_ok C w' (rev (filter (fun q => last_ref (fst w) q = true) dq) ++ l) /\
    forall q, q ∈ dq -> last_ref (fst w) q = false ->
      exists b b', fst w !! q = Some b /\ fst w' !! q = Some b' /\ dropped b b'.
Proof.
  intros Hw Hnd Hd Hs Hcap. destruct (deref_all C dq w l) as (w' & ? & ? & _ & ?); try done. by exists w'.
Qed.

(** Two buffers in use: 4 has one reference left, 5 has two. *)
Definition used_bufs : bufs :=
  <[4%positive := MemBufDesc 0 1 1 0 None 0 None]> (<[5%positive := MemBufDesc 0 1 2 0 None 0 None]> (fst demo_pool)).

Lemma bpool_deref_witness : exists w',
  put_buffers_after_deref [4%positive; 5%positive] (used_bufs, BufferPool 3 5 (Some 3%positive) (BpoolStats false false 3 0)) = Ok w' /\
  pool_ok 5 w' [4%positive; 3%positive; 2%positive; 1%positive].
Proof.
  destruct (bpool_deref 5 (used_bufs, BufferPool 3 5 (Some 3%positive) (BpoolStats false false 3 0))
    [3%positive; 2%positive; 1%positive] [4%positive; 5%positive]) as (w' & H1 & H2 & _).
  - split; [split; [|split; reflexivity]|split; [reflexivity|simpl; lia]]. simpl.
    repeat (split; [reflexivity|]; eexists; split; [vm_compute; reflexivity|]). reflexivity.
  - repeat constructor; set_solver.
  - set_solver.
  - repeat constructor; eexists; split; vm_compute; reflexivity.
  - simpl. lia.
  - exists w'. split; assumption.
Defined.
