(* ===== verification/IpFrag.v ===== *)
(** * Reassembly of IP fragments (src/vma/proto/ip_frag.cpp, ip_frag.h)

    [ip_frag_manager] reassembles datagrams with the hole-descriptor
    algorithm of RFC 815.  Hole descriptors and packet descriptors come from
    two preallocated pools; each is at any time on exactly one singly linked
    list (a free list or the list of its packet), so these lists are
    modelled as lists of values.  The packet buffers are shared with the
    rest of the stack and linked through [p_next_desc]: they live in the
    store of [MemBuf].  The code is the build without IP_FRAG_DEBUG; the
    lock is taken around each operation, which is therefore atomic. *)

From stdpp Require Import sorting.
From S2P Require Import Prelude MemBuf BufferPool.

(** ** Data *)

Definition IP_FRAG_FREED : Z := 2 ^ 64 - 1.
Definition IP_FRAG_MAX_DESC : nat := 1024.
Definition IP_FRAG_MAX_HOLES : nat := Z.to_nat 16000.
Definition IP_FRAG_TTL : Z := 2.
Definition IP_FRAG_INF : Z := 65535.
Definition IP_FRAG_NINF : Z := 0.
Definition IP_FRAG_SPACE : Z := 60000.
Definition MORE_FRAGMENTS_FLAG : Z := 8192.
Definition FRAGMENT_OFFSET : Z := 8191.

Record ip_frag_key_t := IpFragKey { ip_id : Z; src_ip : Z; dst_ip : Z; ipproto : Z }.

#[global] Instance ip_frag_key_eq_dec : EqDecision ip_frag_key_t.
Proof. solve_decision. Defined.

(** [operator<] on keys. *)
Definition key_lt (a b : ip_frag_key_t) : bool :=
  if ip_id a <? ip_id b then true
  else if ip_id b <? ip_id a then false
  else if src_ip a <? src_ip b then true
  else if src_ip b <? src_ip a then false
  else if dst_ip a <? dst_ip b then true
  else if dst_ip b <? dst_ip a then false
  else if ipproto a <? ipproto b then true
  else if ipproto b <? ipproto a then false
  else false.

Record ip_frag_hole_desc := Hole {
  first : Z;
  last : Z;
  data_first : option ptr;
  data_last : option ptr
}.

Record ip_frag_desc_t := Desc {
  ttl : Z;
  pkt_size : Z;
  hole_list : list ip_frag_hole_desc;
  frag_list : option ptr;
  frag_counter : Z
}.

Definition set_holes (h : list ip_frag_hole_desc) (d : ip_frag_desc_t) :=
  Desc (ttl d) (pkt_size d) h (frag_list d) (frag_counter d).
Definition set_frag_list (p : option ptr) (d : ip_frag_desc_t) :=
  Desc (ttl d) (pkt_size d) (hole_list d) p (frag_counter d).

(** The fields of [iphdr] that are read, in network byte order. *)
Record iphdr := IpHdr {
  ih_id : Z; ih_saddr : Z; ih_daddr : Z; ih_protocol : Z;
  ih_frag_off : Z; ih_tot_len : Z; ih_ihl : Z
}.

(** [std::map]: a list sorted by [key_lt]. *)
Abbreviation ip_frags_list_t := (list (ip_frag_key_t * ip_frag_desc_t)).

Fixpoint map_find (k : ip_frag_key_t) (l : ip_frags_list_t) : option ip_frag_desc_t :=
  match l with
  | [] => None
  | (k', d) :: l => if decide (k = k') then Some d else map_find k l
  end.

Fixpoint map_set (k : ip_frag_key_t) (d : ip_frag_desc_t) (l : ip_frags_list_t) : ip_frags_list_t :=
  match l with
  | [] => [(k, d)]
  | (k', d') :: l' =>
    if decide (k = k') then (k, d) :: l'
    else if key_lt k k' then (k, d) :: l
    else (k', d') :: map_set k d l'
  end.

Definition map_erase (k : ip_frag_key_t) (l : ip_frags_list_t) : ip_frags_list_t :=
  filter (fun x => fst x <> k) l.

Record ip_frag_manager := Manager {
  bufs_ : bufs;
  m_frag_counter : Z;
  m_frags : ip_frags_list_t;
  m_return_descs : gmap (option ptr) (option ptr);
  hole_free_list : list ip_frag_hole_desc;
  hole_free_list_count : Z;
  desc_free_list : list ip_frag_desc_t;
  desc_free_list_count : Z
}.

Definition set_bufs (m : bufs) (s : ip_frag_manager) :=
  Manager m (m_frag_counter s) (m_frags s) (m_return_descs s) (hole_free_list s)
    (hole_free_list_count s) (desc_free_list s) (desc_free_list_count s).
Definition set_counter (n : Z) (s : ip_frag_manager) :=
  Manager (bufs_ s) n (m_frags s) (m_return_descs s) (hole_free_list s)
    (hole_free_list_count s) (desc_free_list s) (desc_free_list_count s).
Definition set_frags (f : ip_frags_list_t) (s : ip_frag_manager) :=
  Manager (bufs_ s) (m_frag_counter s) f (m_return_descs s) (hole_free_list s)
    (hole_free_list_count s) (desc_free_list s) (desc_free_list_count s).
Definition set_return (r : gmap (option ptr) (option ptr)) (s : ip_frag_manager) :=
  Manager (bufs_ s) (m_frag_counter s) (m_frags s) r (hole_free_list s)
    (hole_free_list_count s) (desc_free_list s) (desc_free_list_count s).
Definition set_hole_pool (l : list ip_frag_hole_desc) (n : Z) (s : ip_frag_manager) :=
  Manager (bufs_ s) (m_frag_counter s) (m_frags s) (m_return_descs s) l n
    (desc_free_list s) (desc_free_list_count s).
Definition set_desc_pool (l : list ip_frag_desc_t) (n : Z) (s : ip_frag_manager) :=
  Manager (bufs_ s) (m_frag_counter s) (m_frags s) (m_return_descs s) (hole_free_list s)
    (hole_free_list_count s) l n.

(** ** The pools *)

Definition alloc_hole_desc (s : ip_frag_manager) : option ip_frag_hole_desc * ip_frag_manager :=
  match hole_free_list s with
  | [] => (None, s)
  | h :: l => (Some (Hole (first h) (last h) None None),
               set_hole_pool l (i32 (hole_free_list_count s - 1)) s)
  end.

Definition free_hole_desc (p : ip_frag_hole_desc) (s : ip_frag_manager) : ip_frag_manager :=
  set_hole_pool (p :: hole_free_list s) (i32 (hole_free_list_count s + 1)) s.

Definition alloc_frag_desc (s : ip_frag_manager) : option ip_frag_desc_t * ip_frag_manager :=
  match desc_free_list s with
  | [] => (None, s)
  | d :: l => (Some d, set_desc_pool l (i32 (desc_free_list_count s - 1)) s)
  end.

Definition free_frag_desc (p : ip_frag_desc_t) (s : ip_frag_manager) : ip_frag_manager :=
  set_desc_pool (p :: desc_free_list s) (i32 (desc_free_list_count s + 1)) s.

(** The constructor: [new] leaves the descriptors uninitialised ([d0], [h0]). *)
Definition new_ip_frag_manager (m : bufs) (d0 : ip_frag_desc_t) (h0 : ip_frag_hole_desc)
  : ip_frag_manager :=
  let s := Manager m 0 [] ∅ [] 0 [] 0 in
  let s := Nat.iter IP_FRAG_MAX_DESC (free_frag_desc d0) s in
  Nat.iter IP_FRAG_MAX_HOLES (free_hole_desc h0) s.

(** ** Dropping a packet *)

(** [while (tail->p_next_desc) tail = tail->p_next_desc;] *)
Fixpoint find_tail (fuel : nat) (m : bufs) (tail : ptr) : res ptr :=
  b ← load m tail;
  match p_next_desc b with
  | None => Ok tail
  | Some n => match fuel with O => NoFuel | S fuel => find_tail fuel m n end
  end.

Definition free_frag (frag : option ptr) (s : ip_frag_manager) : res ip_frag_manager :=
  match frag with
  | None => Ok s
  | Some f =>
    m ← store f (set_sz_data IP_FRAG_FREED) (bufs_ s);
    tail ← find_tail (size m) m f;
    b ← load m f;
    let owner := p_desc_owner b in
    m ← store tail (set_next_desc (default None (m_return_descs s !! owner))) m;
    Ok (set_return (<[owner := Some f]> (m_return_descs s)) (set_bufs m s))
  end.

Definition destroy_frag_desc (desc : ip_frag_desc_t) (s : ip_frag_manager) : res ip_frag_manager :=
  let s := foldl (fun s h => free_hole_desc h s) s (hole_list desc) in
  free_frag (frag_list desc) s.

(** ** Adding a fragment *)

Definition new_frag_desc (key : ip_frag_key_t) (s : ip_frag_manager)
  : option ip_frag_desc_t * ip_frag_manager :=
  let '(hole, s) := alloc_hole_desc s in
  match hole with
  | None => (None, s)
  | Some hole =>
    let hole := Hole IP_FRAG_NINF IP_FRAG_INF (data_first hole) (data_last hole) in
    let '(desc, s) := alloc_frag_desc s in
    match desc with
    | None => (None, free_hole_desc hole s)
    | Some desc =>
      let desc := Desc IP_FRAG_TTL (pkt_size desc) [hole] None (i64 (m_frag_counter s)) in
      (Some desc, set_frags (map_set key desc (m_frags s)) s)
    end
  end.

(** Find the packet of a key or start one; an old packet is dropped when
    too many fragments arrived since its first one. *)
Definition get_desc (key : ip_frag_key_t) (s : ip_frag_manager)
  : res (option ip_frag_desc_t * ip_frag_manager) :=
  match map_find key (m_frags s) with
  | None => Ok (new_frag_desc key s)
  | Some desc =>
    if IP_FRAG_SPACE <? u64 (m_frag_counter s - frag_counter desc) then
      s ← destroy_frag_desc desc s;
      let s := free_frag_desc desc s in
      let s := set_frags (map_erase key (m_frags s)) s in
      Ok (new_frag_desc key s)
    else Ok (Some desc, s)
  end.

(** Steps 1 to 3: the first hole that contains the fragment. *)
Fixpoint find_hole (frag_first frag_last : Z) (holes : list ip_frag_hole_desc)
  : option (list ip_frag_hole_desc * ip_frag_hole_desc * list ip_frag_hole_desc) :=
  match holes with
  | [] => None
  | h :: holes =>
    if (first h <=? frag_first) && (frag_last <=? last h) then Some ([], h, holes)
    else
      match find_hole frag_first frag_last holes with
      | None => None
      | Some (before, p, after) => Some (h :: before, p, after)
      end
  end.

(** Step 6, with [before ++ after] the holes that remain: the new hole list,
    and whether a hole descriptor was available. *)
Definition split_right (frag : ptr) (frag_last : Z) (more_frags : bool)
    (before : list ip_frag_hole_desc) (phole : ip_frag_hole_desc) (after : list ip_frag_hole_desc)
    (s : ip_frag_manager) : bool * list ip_frag_hole_desc * ip_frag_manager :=
  if (frag_last <? last phole) && more_frags then
    match alloc_hole_desc s with
    | (None, s) => (false, before ++ after, free_hole_desc phole s)
    | (Some _, s) =>
      (true, before ++ Hole (u16 (frag_last + 1)) (last phole) (Some frag) (data_last phole) :: after, s)
    end
  else (true, before ++ after, s).

(** Steps 4 to 6 on the holes [before ++ phole :: after]. *)
Definition split_hole (frag : ptr) (frag_first frag_last : Z) (more_frags : bool)
    (before : list ip_frag_hole_desc) (phole : ip_frag_hole_desc) (after : list ip_frag_hole_desc)
    (s : ip_frag_manager) : bool * list ip_frag_hole_desc * ip_frag_manager :=
  if first phole <? frag_first then
    match alloc_hole_desc s with
    | (None, s) => (false, before ++ after, free_hole_desc phole s)
    | (Some _, s) =>
      let new_hole := Hole (first phole) (u16 (frag_first - 1)) (data_first phole) (Some frag) in
      split_right frag frag_last more_frags (before ++ [new_hole]) phole after s
    end
  else split_right frag frag_last more_frags before phole after s.

(** [add_frag]: the return code and what is stored through [ret] ([None] if
    nothing is).  The packet [desc] is the entry of [key] in [m_frags]. *)
Definition add_frag (hdr : iphdr) (frag : ptr) (s : ip_frag_manager)
  : res (Z * option (option ptr) * ip_frag_manager) :=
  let key := IpFragKey (ih_id hdr) (ih_saddr hdr) (ih_daddr hdr) (ih_protocol hdr) in
  let frag_off := ntohs (ih_frag_off hdr) in
  let more_frags := negb (Z.land frag_off MORE_FRAGMENTS_FLAG =? 0) in
  let frag_first := u16 (Z.land frag_off FRAGMENT_OFFSET * 8) in
  let frag_last := u16 (frag_first + ntohs (ih_tot_len hdr) - Z.shiftl (ih_ihl hdr) 2 - 1) in
  let s := set_counter (u64 (m_frag_counter s + 1)) s in
  '(desc, s) ← get_desc key s;
  match desc with
  | None => Ok (-1, None, s)
  | Some desc =>
    match find_hole frag_first frag_last (hole_list desc) with
    | None => Ok (-1, None, s)
    | Some (before, phole, after) =>
      let '(ok, holes, s) := split_hole frag frag_first frag_last more_frags before phole after s in
      let desc := set_holes holes desc in
      if negb ok then Ok (-1, None, set_frags (map_set key desc (m_frags s)) s)
      else
        '(desc, m) ← match data_first phole with
                     | Some d => m ← store d (set_next_desc (Some frag)) (bufs_ s); Ok (desc, m)
                     | None => Ok (set_frag_list (Some frag) desc, bufs_ s)
                     end;
        m ← store frag (set_next_desc (data_last phole)) m;
        let s := free_hole_desc phole (set_bufs m s) in
        match holes with
        | [] =>
          match map_find key (m_frags s) with
          | None => Throw
          | Some _ =>
            let s := set_frags (map_erase key (m_frags s)) s in
            Ok (0, Some (frag_list desc), free_frag_desc desc s)
          end
        | _ :: _ => Ok (0, Some None, set_frags (map_set key desc (m_frags s)) s)
        end
    end
  end.

(** ** Expiry and teardown *)

(** The loop of [handle_timer_expired]; the [ttl] of a dropped packet is
    decremented after its descriptor went back to the free list. *)
Fixpoint expire_frags (delta : Z) (l : ip_frags_list_t) (s : ip_frag_manager)
  : res (ip_frags_list_t * ip_frag_manager) :=
  match l with
  | [] => Ok ([], s)
  | (k, desc) :: l =>
    let fc := i64 (frag_counter desc - delta) in
    let desc' := Desc (u16 (ttl desc - 1)) (pkt_size desc) (hole_list desc) (frag_list desc) fc in
    if (fc <? 0) || (ttl desc <=? 0) then
      s ← destroy_frag_desc desc s;
      expire_frags delta l (free_frag_desc desc' s)
    else
      '(l, s) ← expire_frags delta l s;
      Ok ((k, desc') :: l, s)
  end.

(** [return_buffers_to_owners]: every list goes to the receive pool, which
    exists ([g_buffer_pool_rx] is not NULL) while fragments are received. *)
Fixpoint return_buffers (lists : list (option ptr * option ptr)) (w : world) : res world :=
  match lists with
  | [] => Ok w
  | (_, p) :: lists => w ← put_buffers p w; return_buffers lists w
  end.

Definition handle_timer_expired (pool : buffer_pool) (s : ip_frag_manager)
  : res (ip_frag_manager * buffer_pool) :=
  let delta := if IP_FRAG_SPACE <? m_frag_counter s then m_frag_counter s - IP_FRAG_SPACE else 0 in
  let s := set_counter (m_frag_counter s - delta) s in
  '(l, s) ← expire_frags delta (m_frags s) s;
  let s := set_frags l s in
  let temp_buff_map := map_to_list (m_return_descs s) in
  let s := set_return ∅ s in
  '(m, pool) ← return_buffers temp_buff_map (bufs_ s, pool);
  Ok (set_bufs m s, pool).

(** The loop of [free_frag_resources] over all packets. *)
Fixpoint destroy_all (l : ip_frags_list_t) (s : ip_frag_manager) : res ip_frag_manager :=
  match l with
  | [] => Ok (set_frags [] s)
  | (_, desc) :: l => s ← destroy_frag_desc desc s; destroy_all l (free_frag_desc desc s)
  end.

Definition free_frag_resources (pool : buffer_pool) (s : ip_frag_manager)
  : res (ip_frag_manager * buffer_pool) :=
  s ← destroy_all (m_frags s) s;
  let temp_buff_map := map_to_list (m_return_descs s) in
  let s := set_return ∅ s in
  '(m, pool) ← return_buffers temp_buff_map (bufs_ s, pool);
  Ok (set_bufs m s, pool).

(** ** Fragments as ranges *)

Definition hdr_key (h : iphdr) : ip_frag_key_t :=
  IpFragKey (ih_id h) (ih_saddr h) (ih_daddr h) (ih_protocol h).
Definition hdr_first (h : iphdr) : Z := u16 (Z.land (ntohs (ih_frag_off h)) FRAGMENT_OFFSET * 8).
Definition hdr_last (h : iphdr) : Z :=
  u16 (hdr_first h + ntohs (ih_tot_len h) - Z.shiftl (ih_ihl h) 2 - 1).
Definition hdr_more (h : iphdr) : bool := negb (Z.land (ntohs (ih_frag_off h)) MORE_FRAGMENTS_FLAG =? 0).

(** A received fragment: its header and its buffer. *)
Abbreviation fragment := (iphdr * ptr)%type.
Abbreviation f_first x := (hdr_first (fst x)).
Abbreviation f_last x := (hdr_last (fst x)).
Abbreviation f_more x := (hdr_more (fst x)).

(** The fragments, in order, cover [pos, N) without gap or overlap, and all
    but the last one have the more-fragments flag. *)
Fixpoint tiles (pos : Z) (l : list fragment) (N : Z) : Prop :=
  match l with
  | [] => pos = N
  | x :: l => f_first x = pos /\ pos <= f_last x /\
      f_more x = (match l with [] => false | _ => true end) /\ tiles (f_last x + 1) l N
  end.

(** ** The state of a packet of which some fragments were received

    [l] is the complete sequence of fragments in order, each with a flag
    that says whether it was received. *)

Abbreviation marked := (list (fragment * bool)).

Definition received (l : marked) : list ptr := (filter (fun x => snd x = true) l).*1.*2.

(** The holes, from a gap that starts at [start] after the buffer [prev]. *)
Fixpoint holes_of (N : Z) (prev : option ptr) (start : Z) (l : marked) : list ip_frag_hole_desc :=
  match l with
  | [] => if start <? N then [Hole start IP_FRAG_INF prev None] else []
  | (x, true) :: l =>
    (if start <? f_first x then [Hole start (f_first x - 1) prev (Some (snd x))] else []) ++
    holes_of N (Some (snd x)) (f_last x + 1) l
  | (x, false) :: l => holes_of N prev start l
  end.

(** The first received fragment of a sequence and what follows it. *)
Fixpoint next_received (l : marked) : option (fragment * marked) :=
  match l with
  | [] => None
  | (x, true) :: l => Some (x, l)
  | (_, false) :: l => next_received l
  end.

Lemma holes_of_next N prev start l :
  holes_of N prev start l =
  match next_received l with
  | Some (x, l') =>
    (if start <? f_first x then [Hole start (f_first x - 1) prev (Some (snd x))] else []) ++
    holes_of N (Some (snd x)) (f_last x + 1) l'
  | None => if start <? N then [Hole start IP_FRAG_INF prev None] else []
  end.
Proof. induction l as [|[x [|]] l IH]; simpl; [done|done|apply IH]. Qed.

Lemma next_received_head l : head (received l) = (fun y => snd (fst y)) <$> next_received l.
Proof.
  induction l as [|[x [|]] l IH]; unfold received in *; rewrite ?filter_cons; simpl; try done.
Qed.

Lemma received_app l1 l2 : received (l1 ++ l2) = received l1 ++ received l2.
Proof. unfold received. by rewrite filter_app, !fmap_app. Qed.

Lemma received_cons x b l : received ((x, b) :: l) = (if b then [snd x] else []) ++ received l.
Proof. unfold received. rewrite filter_cons. by destruct b. Qed.

(** Everything in a tiling lies between its ends. *)
Lemma tiles_bounds pos l N : tiles pos l N -> pos <= N.
Proof. revert pos. induction l as [|x l IH]; intros pos; simpl; [lia|]. intros (? & ? & _ & H%IH). lia. Qed.

Lemma tiles_mem pos l N x : tiles pos l N -> x ∈ l -> pos <= f_first x <= f_last x /\ f_last x < N.
Proof.
  revert pos. induction l as [|y l IH]; intros pos; simpl; [by intros _ ?%not_elem_of_nil|].
  intros (H1 & H2 & _ & Ht) [->|Hx]%elem_of_cons.
  - apply tiles_bounds in Ht. lia.
  - specialize (IH _ Ht Hx). lia.
Qed.

Lemma next_received_mem l x l' : next_received l = Some (x, l') -> x ∈ l.*1.
Proof.
  induction l as [|[y [|]] l IH]; simpl; [done| |].
  - intros [= -> ->]. left.
  - intros H. right. by apply IH.
Qed.

(** What steps 4 to 6 put in the place of the hole. *)
Definition left_hole (frag : ptr) (frag_first : Z) (h : ip_frag_hole_desc) : list ip_frag_hole_desc :=
  if first h <? frag_first then [Hole (first h) (frag_first - 1) (data_first h) (Some frag)] else [].
Definition right_hole (frag : ptr) (frag_last : Z) (more : bool) (h : ip_frag_hole_desc)
  : list ip_frag_hole_desc :=
  if (frag_last <? last h) && more then [Hole (frag_last + 1) (last h) (Some frag) (data_last h)] else [].

(** The buffer before a position: the last received one, or [prev]. *)
Definition last_buf (prev : option ptr) (l : marked) : option ptr :=
  foldl (fun _ p => Some p) prev (received l).

(** The base case of the next lemma: the gap that contains the fragment. *)
Lemma holes_of_gap N prev start x l : tiles (f_first x) (x :: l.*1) N -> 0 <= start <= f_first x -> N <= 65536 ->
  exists h after,
    holes_of N prev start l = h :: after /\ first h = start /\ f_last x <= last h <= 65535 /\
    data_first h = prev /\ data_last h = head (received l) /\
    holes_of N (Some (snd x)) (f_last x + 1) l = right_hole (snd x) (f_last x) (f_more x) h ++ after.
Proof.
  intros Ht Hs HN. simpl in Ht. destruct Ht as (_ & Hx & Hm & Ht). rewrite !holes_of_next, next_received_head.
  destruct (next_received l) as [[y l']|] eqn:En.
  - pose proof (next_received_mem _ _ _ En) as Hy. pose proof (tiles_mem _ _ _ _ Ht Hy) as Hb.
    rewrite (proj2 (Z.ltb_lt start _)) by lia. eexists _, _. split; [done|]. simpl.
    split; [done|]. split; [lia|]. split; [done|]. split; [done|].
    unfold right_hole. simpl. rewrite Hm. destruct (l.*1) eqn:El; [by apply not_elem_of_nil in Hy|].
    rewrite andb_true_r. destruct (f_last x + 1 <? f_first y) eqn:E1, (f_last x <? f_first y - 1) eqn:E2; done || lia.
  - pose proof (tiles_bounds _ _ _ Ht). rewrite (proj2 (Z.ltb_lt start _)) by lia.
    eexists _, []. split; [done|]. simpl. unfold IP_FRAG_INF.
    split; [done|]. split; [lia|]. split; [done|]. split; [done|].
    unfold right_hole. simpl. rewrite Hm. destruct l.*1 as [|y l'] eqn:El; simpl in Ht.
    + subst. rewrite Z.ltb_irrefl, andb_false_r. done.
    + destruct Ht as (? & ? & _ & Ht%tiles_bounds). rewrite andb_true_r.
      rewrite (proj2 (Z.ltb_lt _ _)), (proj2 (Z.ltb_lt _ _)) by lia. done.
Qed.

(** A fragment that was not received fits exactly one hole, and replacing
    that hole as steps 4 to 6 do gives the holes with it received. *)
Lemma holes_of_step N prev start pos l1 x l2 :
  tiles pos (l1 ++ (x, false) :: l2).*1 N -> 0 <= start <= pos -> N <= 65536 ->
  exists before h after,
    find_hole (f_first x) (f_last x) (holes_of N prev start (l1 ++ (x, false) :: l2)) = Some (before, h, after) /\
    holes_of N prev start (l1 ++ (x, true) :: l2) =
      before ++ left_hole (snd x) (f_first x) h ++ right_hole (snd x) (f_last x) (f_more x) h ++ after /\
    data_first h = last_buf prev l1 /\ data_last h = head (received l2) /\
    0 <= first h <= f_first x /\ f_first x <= f_last x <= last h /\ last h <= 65535.
Proof.
  revert prev start pos. induction l1 as [|[g b] l1 IH]; intros prev start pos Ht Hs HN; simpl in Ht.
  - pose proof Ht as (Hp & Hx & Hm & Ht'). pose proof (tiles_bounds _ _ _ Ht') as Hb. simpl.
    destruct (holes_of_gap N prev start x l2) as (h & after & -> & Hf & Hl & H1 & H2 & ->);
      [simpl; split; [done|]; rewrite Hp; done|lia|done|].
    exists [], h, after. simpl. rewrite (proj2 (Z.leb_le _ _)), (proj2 (Z.leb_le _ _)) by lia. simpl.
    unfold left_hole. rewrite Hf, H1. split_and!; try done; lia.
  - destruct Ht as (Hg & Hgl & _ & Ht). pose proof Ht as Ht'. rewrite fmap_app in Ht'.
    destruct (tiles_mem _ _ _ x Ht') as [Hbx Hbn]; [set_solver|]. destruct b; simpl.
    + destruct (IH (Some (snd g)) (f_last g + 1) (f_last g + 1) Ht ltac:(lia) HN) as (before & h & after & Hfh & -> & H1 & H2 & H3).
      destruct (start <? f_first g) eqn:Es.
      * exists (Hole start (f_first g - 1) prev (Some (snd g)) :: before), h, after. simpl.
        rewrite (proj2 (Z.leb_gt _ (f_first g - 1))) by lia. rewrite andb_false_r, Hfh. split_and!; try done; apply H3.
      * exists before, h, after. split_and!; try done; apply H3.
    + apply (IH prev start (f_last g + 1)); [done|lia|done].
Qed.

Lemma split_hole_spec frag ff fl more before h after s : (2 <= length (hole_free_list s))%nat ->
  0 <= first h <= ff -> ff <= fl <= last h -> last h <= 65535 ->
  exists pool n, split_hole frag ff fl more before h after s =
      (true, before ++ left_hole frag ff h ++ right_hole frag fl more h ++ after, set_hole_pool pool n s) /\
    (length (hole_free_list s) <= length pool + 2)%nat.
Proof.
  intros Hp H1 H2 H3. unfold split_hole, split_right, left_hole, right_hole, alloc_hole_desc.
  destruct (hole_free_list s) as [|h1 [|h2 pool]] eqn:E; simpl in Hp; [lia..|].
  destruct (first h <? ff) eqn:E1; simpl.
  - rewrite wrap_small by lia. destruct ((fl <? last h) && more) eqn:E2; simpl.
    + rewrite wrap_small by lia. eexists _, _. rewrite <- app_assoc. split; [reflexivity|simpl; lia].
    + eexists _, _. rewrite <- app_assoc. split; [reflexivity|simpl; lia].
  - destruct ((fl <? last h) && more) eqn:E2; simpl.
    + rewrite wrap_small by lia. eexists _, _. split; [reflexivity|simpl; lia].
    + exists (hole_free_list s), (hole_free_list_count s). rewrite E. split; [|simpl; lia].
      destruct s. simpl in *. by subst.
Qed.

(** ** One fragment of a datagram *)

Section Datagram.
Context (k : ip_frag_key_t) (N : Z) (HN : 0 < N <= 65536).

(** The packet of [k] is in the state given by the marks [l]. *)
Definition packet (fc : Z) (s : ip_frag_manager) (l : marked) : Prop :=
  exists d, map_find k (m_frags s) = Some d /\ hole_list d = holes_of N None 0 l /\
    frag_counter d = fc /\ chain (bufs_ s) (frag_list d) (received l).

Lemma map_find_set d l : map_find k (map_set k d l) = Some d.
Proof.
  induction l as [|[k' d'] l IH]; simpl; [by rewrite decide_True|].
  case_decide; simpl; [by rewrite decide_True|]. case_match; simpl; [by rewrite decide_True|].
  by rewrite decide_False.
Qed.

Lemma map_find_erase l : map_find k (map_erase k l) = None.
Proof.
  unfold map_erase. induction l as [|[k' d'] l IH]; simpl; [done|]. rewrite filter_cons. simpl.
  case_decide; simpl; [|done]. rewrite decide_False; [done|]. intros ->. done.
Qed.

Lemma last_buf_snoc prev l A d : received l = A ++ [d] -> last_buf prev l = Some d.
Proof. intros H. unfold last_buf. rewrite H, foldl_app. done. Qed.

(** Linking the fragment after [last_buf] and before what follows. *)
Lemma link_fragment m d l1 l2 x bx : chain m (frag_list d) (received (l1 ++ (x, false) :: l2)) ->
  snd x ∉ received (l1 ++ (x, false) :: l2) -> m !! snd x = Some bx ->
  exists d' m1 m2,
    (match last_buf None l1 with
     | Some q => m ← store q (set_next_desc (Some (snd x))) m; Ok (d, m)
     | None => Ok (set_frag_list (Some (snd x)) d, m)
     end) = Ok (d', m1) /\
    store (snd x) (set_next_desc (head (received l2))) m1 = Ok m2 /\
    hole_list d' = hole_list d /\ frag_counter d' = frag_counter d /\
    chain m2 (frag_list d') (received (l1 ++ (x, true) :: l2)) /\
    (forall q, q ∉ snd x :: received l1 -> m2 !! q = m !! q).
Proof.
  rewrite !received_app, !received_cons. simpl. intros Hc Hx Hb. destruct (received l1) as [|d1 A _] eqn:E using rev_ind.
  - unfold last_buf. rewrite E. simpl in *.
    destruct (chain_link_front m (frag_list d) (received l2) (snd x) bx) as (m2 & H1 & H2 & H3); [done..|].
    exists (set_frag_list (Some (snd x)) d), m, m2. do 4 (split; [done|]). split; [exact H2|exact H3].
  - rewrite (last_buf_snoc None l1 A d1) by done. rewrite <- app_assoc in Hc, Hx. simpl in Hc, Hx.
    destruct (chain_link_after m (frag_list d) A d1 (received l2) (snd x) bx) as (m1 & m2 & -> & H2 & H3 & H4 & _); [done..|].
    exists d, m1, m2. rewrite <- app_assoc. split_and!; try done. intros q Hq. apply H4. set_solver.
Qed.

Lemma map_find_set_ne k' d l : k' <> k -> map_find k' (map_set k d l) = map_find k' l.
Proof.
  intros Hk. induction l as [|[k1 d1] l IH]; simpl; [by rewrite decide_False|].
  case_decide; subst; simpl; [by rewrite !(decide_False _ _ Hk)|].
  case_match; simpl; [by rewrite (decide_False _ _ Hk)|]. by rewrite IH.
Qed.

Lemma map_find_erase_ne k' l : k' <> k -> map_find k' (map_erase k l) = map_find k' l.
Proof.
  intros Hk. unfold map_erase. induction l as [|[k1 d1] l IH]; simpl; [done|]. rewrite filter_cons. simpl.
  case_decide; simpl; [by rewrite IH|]. rewrite decide_False; [done|]. congruence.
Qed.

(** What a call does with the fragment once its packet [d] is known. *)
Lemma add_frag_known fc s s1 d l1 x l2 :
  get_desc k (set_counter (u64 (m_frag_counter s + 1)) s) = Ok (Some d, s1) ->
  map_find k (m_frags s1) = Some d -> hole_list d = holes_of N None 0 (l1 ++ (x, false) :: l2) ->
  frag_counter d = fc -> chain (bufs_ s1) (frag_list d) (received (l1 ++ (x, false) :: l2)) ->
  tiles 0 (l1 ++ (x, false) :: l2).*1 N -> hdr_key (fst x) = k ->
  (2 <= length (hole_free_list s1))%nat -> is_Some (bufs_ s1 !! snd x) ->
  snd x ∉ received (l1 ++ (x, false) :: l2) ->
  exists s' o, add_frag (fst x) (snd x) s = Ok (0, Some o, s') /\
    m_frag_counter s' = m_frag_counter s1 /\
    (length (hole_free_list s1) <= length (hole_free_list s') + 1)%nat /\
    (forall q, q ∉ snd x :: received (l1 ++ (x, false) :: l2) -> bufs_ s' !! q = bufs_ s1 !! q) /\
    (forall k', k' <> k -> map_find k' (m_frags s') = map_find k' (m_frags s1)) /\
    (if decide (holes_of N None 0 (l1 ++ (x, true) :: l2) = [])
     then chain (bufs_ s') o (received (l1 ++ (x, true) :: l2)) /\ map_find k (m_frags s') = None
     else o = None /\ packet fc s' (l1 ++ (x, true) :: l2)).
Proof.
  intros Hget Hd Hh Hfc Hc Ht Hk Hfree [bx Hbx] Hx.
  destruct (holes_of_step N None 0 0 l1 x l2 Ht ltac:(lia) ltac:(lia)) as (before & h & after & Hfh & Hnew & Hdf & Hdl & Hr1 & Hr2 & Hr3).
  unfold add_frag. fold (hdr_key (fst x)) (hdr_first (fst x)) (hdr_more (fst x)). fold (hdr_last (fst x)). rewrite Hk.
  rewrite Hget. cbn [mbind res_bind]. rewrite Hh, Hfh.
  destruct (split_hole_spec (snd x) (f_first x) (f_last x) (f_more x) before h after s1 Hfree) as (pool & n & Hsplit & Hlen); [lia..|].
  rewrite Hsplit, <- Hnew. set (holes := holes_of N None 0 (l1 ++ (x, true) :: l2)) in *. simpl negb. cbv iota.
  rewrite Hdf, Hdl.
  destruct (link_fragment (bufs_ s1) (set_holes holes d) l1 l2 x bx Hc Hx Hbx) as (d' & m1 & m2 & Hl1 & Hl2 & Hh' & Hfc' & Hc' & Hfr).
  change (bufs_ (set_hole_pool pool n s1)) with (bufs_ s1). rewrite Hl1. cbn [mbind res_bind]. rewrite Hl2. cbn [mbind res_bind].
  assert (forall q, q ∉ snd x :: received (l1 ++ (x, false) :: l2) -> m2 !! q = bufs_ s1 !! q) as Hfr'.
  { intros q Hq. apply Hfr. rewrite received_app, elem_of_cons, elem_of_app in Hq. rewrite elem_of_cons. tauto. }
  destruct holes as [|h0 hs] eqn:Eh.
  - simpl m_frags. rewrite Hd. eexists _, _. split; [reflexivity|]. simpl. split_and!; try done; try lia.
    + intros k'. apply map_find_erase_ne.
    + apply map_find_erase.
  - eexists _, _. split; [reflexivity|]. simpl. split_and!; try done; try lia.
    + intros k'. apply map_find_set_ne.
    + exists d'. simpl. rewrite map_find_set. split_and!; try done; [by rewrite Hh'|by rewrite Hfc'].
Qed.

Lemma get_desc_old fc s d : map_find k (m_frags s) = Some d -> frag_counter d = fc ->
  0 <= m_frag_counter s - fc <= IP_FRAG_SPACE -> get_desc k s = Ok (Some d, s).
Proof.
  intros Hd Hfc Hs. unfold get_desc. rewrite Hd, Hfc. unfold IP_FRAG_SPACE in *.
  rewrite wrap_small by lia. by rewrite (proj2 (Z.ltb_ge _ _)) by lia.
Qed.

Lemma get_desc_new s : map_find k (m_frags s) = None -> hole_free_list s <> [] -> desc_free_list s <> [] ->
  0 <= m_frag_counter s < 2 ^ 63 ->
  exists d s', get_desc k s = Ok (Some d, s') /\ map_find k (m_frags s') = Some d /\
    hole_list d = [Hole 0 IP_FRAG_INF None None] /\ frag_list d = None /\ frag_counter d = m_frag_counter s /\
    bufs_ s' = bufs_ s /\ m_frag_counter s' = m_frag_counter s /\
    (length (hole_free_list s) = S (length (hole_free_list s')))%nat /\
    (forall k', k' <> k -> map_find k' (m_frags s') = map_find k' (m_frags s)).
Proof.
  intros Hd Hh Hf Hc. unfold get_desc, new_frag_desc, alloc_hole_desc, alloc_frag_desc. rewrite Hd.
  destruct (hole_free_list s) as [|h hl] eqn:E1; [done|]. simpl. destruct (desc_free_list s) as [|d dl] eqn:E2; [done|].
  eexists _, _. split; [reflexivity|]. simpl. rewrite map_find_set, swrap_small by lia.
  split_and!; try done. intros k'. apply map_find_set_ne.
Qed.

(** ** All fragments of a datagram, in any order of arrival *)

(** The fragments not received yet. *)
Definition missing (l : marked) : list fragment := (filter (fun x => snd x = false) l).*1.

Lemma missing_app l1 l2 : missing (l1 ++ l2) = missing l1 ++ missing l2.
Proof. unfold missing. by rewrite filter_app, fmap_app. Qed.

Lemma missing_cons x b l : missing ((x, b) :: l) = (if b then [] else [x]) ++ missing l.
Proof. unfold missing. rewrite filter_cons. by destruct b. Qed.

Lemma missing_split x l : x ∈ missing l -> exists l1 l2, l = l1 ++ (x, false) :: l2.
Proof.
  unfold missing. intros ([y b] & -> & [Hb Hy]%list_elem_of_filter)%list_elem_of_fmap. simpl in Hb. subst.
  by apply list_elem_of_split.
Qed.

Lemma holes_nonempty prev start pos l : tiles pos l.*1 N -> start < pos -> holes_of N prev start l <> [].
Proof.
  intros Ht Hs. rewrite holes_of_next. destruct (next_received l) as [[y l']|] eqn:E.
  - apply next_received_mem in E. destruct (tiles_mem _ _ _ _ Ht E). by rewrite (proj2 (Z.ltb_lt _ _)) by lia.
  - apply tiles_bounds in Ht. by rewrite (proj2 (Z.ltb_lt _ _)) by lia.
Qed.

(** No hole is left exactly when every fragment was received. *)
Lemma holes_missing prev pos l : tiles pos l.*1 N -> holes_of N prev pos l = [] <-> missing l = [].
Proof.
  revert prev pos. induction l as [|[x [|]] l IH]; intros prev pos Ht.
  - simpl in *. subst. by rewrite Z.ltb_irrefl.
  - simpl in Ht. destruct Ht as (<- & Hx & _ & Ht). rewrite missing_cons. simpl.
    rewrite Z.ltb_irrefl. by apply IH.
  - simpl in Ht. destruct Ht as (<- & Hx & _ & Ht). rewrite missing_cons. simpl. split; [|done].
    intros H. by apply (holes_nonempty _ _ _ _ Ht) in H; [|lia].
Qed.

(** The calls of [add_frag] for a list of arrivals, with their results. *)
Fixpoint feed (arrivals : list fragment) (s : ip_frag_manager)
  : res (list (Z * option (option ptr)) * ip_frag_manager) :=
  match arrivals with
  | [] => Ok ([], s)
  | x :: arrivals =>
    '(rc, ret, s) ← add_frag (fst x) (snd x) s;
    '(rs, s) ← feed arrivals s;
    Ok ((rc, ret) :: rs, s)
  end.

Definition bufs_of (l : marked) : list ptr := l.*1.*2.

Lemma received_missing l q : q ∈ bufs_of l <-> q ∈ received l \/ q ∈ (missing l).*2.
Proof.
  induction l as [|[x b] l IH]; [unfold bufs_of, received, missing; simpl; set_solver|].
  rewrite received_cons, missing_cons. unfold bufs_of in *. destruct b; simpl; set_solver.
Qed.

Lemma not_received x l1 l2 : NoDup (bufs_of (l1 ++ (x, false) :: l2)) ->
  snd x ∉ received (l1 ++ (x, false) :: l2).
Proof.
  unfold bufs_of. rewrite !fmap_app. simpl. intros (N1 & N2 & [N3 _]%NoDup_cons)%NoDup_app Hr.
  assert (forall l, snd x ∈ received l -> snd x ∈ l.*1.*2) as Hsub.
  { intros l Hl. apply received_missing. by left. }
  rewrite received_app, received_cons, elem_of_app in Hr. simpl in Hr.
  destruct Hr as [Hr%Hsub|Hr%Hsub]; [apply (N2 _ Hr)|apply N3, Hr]. left.
Qed.

Lemma received_all l : missing l = [] -> received l = bufs_of l.
Proof.
  induction l as [|[x b] l IH]; [done|]. rewrite missing_cons, received_cons.
  destruct b; simpl; [|done]. intros H. by rewrite IH.
Qed.

(** The state after an arrival that leaves the marks [l]: other packets and
    other buffers are untouched; the datagram is handed over once complete. *)
Record arrival (fc : Z) (s s' : ip_frag_manager) (o : option ptr) (l : marked) : Prop := {
  arr_counter : m_frag_counter s' = m_frag_counter s + 1;
  arr_bufs : forall q, q ∉ bufs_of l -> bufs_ s' !! q = bufs_ s !! q;
  arr_dom : forall q, q ∈ bufs_of l -> is_Some (bufs_ s !! q) -> is_Some (bufs_ s' !! q);
  arr_others : forall k', k' <> k -> map_find k' (m_frags s') = map_find k' (m_frags s);
  arr_done : missing l = [] -> chain (bufs_ s') o (bufs_of l) /\ map_find k (m_frags s') = None;
  arr_more : missing l <> [] -> o = None /\ packet fc s' l
}.

Lemma chain_dom_frame (m m' : bufs) o l' q : chain m' o l' ->
  (forall p, p ∉ l' -> m' !! p = m !! p) -> is_Some (m !! q) -> is_Some (m' !! q).
Proof.
  intros Hc Hf Hq. destruct (decide (q ∈ l')) as [Hin|Hin]; [by eapply chain_lookup|by rewrite Hf].
Qed.

(** The common part of the two kinds of arrival. *)
Lemma arrival_intro fc s s1 s' o l1 x l2 : let l := l1 ++ (x, true) :: l2 in
  m_frag_counter s1 = m_frag_counter s + 1 -> bufs_ s1 = bufs_ s ->
  (forall k', k' <> k -> map_find k' (m_frags s1) = map_find k' (m_frags s)) ->
  m_frag_counter s' = m_frag_counter s1 ->
  (forall q, q ∉ snd x :: received (l1 ++ (x, false) :: l2) -> bufs_ s' !! q = bufs_ s1 !! q) ->
  (forall k', k' <> k -> map_find k' (m_frags s') = map_find k' (m_frags s1)) ->
  tiles 0 l.*1 N ->
  (if decide (holes_of N None 0 l = []) then chain (bufs_ s') o (received l) /\ map_find k (m_frags s') = None
   else o = None /\ packet fc s' l) ->
  arrival fc s s' o l.
Proof.
  intros l Hc Hb Hk Hc' Hb' Hk' Ht Hres. pose proof (holes_missing None 0 l Ht) as Hm.
  assert (forall q, q ∉ received l -> bufs_ s' !! q = bufs_ s !! q) as Hfr.
  { intros q Hq. rewrite <- Hb. apply Hb'. unfold l in Hq. rewrite received_app, received_cons in *. set_solver. }
  assert (exists o', chain (bufs_ s') o' (received l)) as [o' Ho'].
  { case_decide; [by exists o; apply Hres|]. destruct Hres as (_ & d & _ & _ & _ & Hch). by eexists. }
  constructor; try congruence.
  - intros q Hq. apply Hfr. intros Hr. apply Hq, received_missing. by left.
  - intros q Hq Hs. by eapply chain_dom_frame.
  - intros k' Hne. rewrite Hk', Hk by done. done.
  - intros H. rewrite decide_True in Hres by by apply Hm. by rewrite <- received_all.
  - intros H. rewrite decide_False in Hres; [done|]. by intros ?%Hm.
Qed.

Lemma tiles_mark l1 x l2 b b' : (l1 ++ (x, b) :: l2 : marked).*1 = (l1 ++ (x, b') :: l2 : marked).*1.
Proof. by rewrite !fmap_app. Qed.

Lemma add_frag_next fc s l1 x l2 :
  packet fc s (l1 ++ (x, false) :: l2) -> tiles 0 (l1 ++ (x, false) :: l2).*1 N -> hdr_key (fst x) = k ->
  0 <= m_frag_counter s < 2 ^ 63 - 1 -> 0 <= m_frag_counter s + 1 - fc <= IP_FRAG_SPACE ->
  (2 <= length (hole_free_list s))%nat -> is_Some (bufs_ s !! snd x) ->
  NoDup (bufs_of (l1 ++ (x, false) :: l2)) ->
  exists s' o, add_frag (fst x) (snd x) s = Ok (0, Some o, s') /\
    (length (hole_free_list s) <= length (hole_free_list s') + 1)%nat /\
    arrival fc s s' o (l1 ++ (x, true) :: l2).
Proof.
  intros (d & Hd & Hh & Hfc & Hc) Ht Hk Hcnt Hsp Hfree Hx Hnd.
  set (s1 := set_counter (u64 (m_frag_counter s + 1)) s).
  assert (m_frag_counter s1 = m_frag_counter s + 1) as Hs1 by (apply wrap_small; lia).
  destruct (add_frag_known fc s s1 d l1 x l2) as (s' & o & Hadd & H1 & H2 & H3 & H4 & H5); try done.
  - eapply get_desc_old; [done|done|]. fold s1. lia.
  - by apply not_received.
  - exists s', o. split; [done|]. split; [done|]. apply (arrival_intro fc s s1); try done.
    by rewrite (tiles_mark l1 x l2 true false).
Qed.

Lemma holes_of_none prev start (frags : list fragment) : start < N ->
  holes_of N prev start ((., false) <$> frags) = [Hole start IP_FRAG_INF prev None].
Proof. intros Hs. induction frags as [|x frags IH]; simpl; [by rewrite (proj2 (Z.ltb_lt _ _))|done]. Qed.

Lemma received_none (frags : list fragment) : received ((., false) <$> frags) = [].
Proof. induction frags as [|x frags IH]; [done|]. simpl. by rewrite received_cons. Qed.

Lemma add_frag_fresh s f1 x f2 : let l := ((., false) <$> f1) ++ (x, true) :: ((., false) <$> f2) in
  map_find k (m_frags s) = None -> tiles 0 (f1 ++ x :: f2) N -> hdr_key (fst x) = k ->
  0 <= m_frag_counter s < 2 ^ 63 - 1 ->
  (3 <= length (hole_free_list s))%nat -> desc_free_list s <> [] -> is_Some (bufs_ s !! snd x) ->
  NoDup (f1 ++ x :: f2).*2 ->
  exists s' o, add_frag (fst x) (snd x) s = Ok (0, Some o, s') /\
    (length (hole_free_list s) <= length (hole_free_list s') + 2)%nat /\
    arrival (m_frag_counter s + 1) s s' o l.
Proof.
  intros l Hd Ht Hk Hcnt Hfree Hdesc Hx Hnd.
  set (s0 := set_counter (u64 (m_frag_counter s + 1)) s).
  assert (m_frag_counter s0 = m_frag_counter s + 1) as Hs0 by (apply wrap_small; lia).
  set (l0 := ((., false) <$> f1) ++ (x, false) :: ((., false) <$> f2)).
  assert (l0 = (., false) <$> (f1 ++ x :: f2)) as El0 by by rewrite fmap_app.
  assert (forall f : list fragment, ((., false) <$> f : marked).*1 = f) as Hid.
  { intros f. rewrite <- list_fmap_compose. apply list_fmap_id. }
  destruct (get_desc_new s0) as (d & s1 & Hget & H1 & H2 & H3 & H4 & H5 & H6 & H7 & H8); try done.
  { change (hole_free_list s0) with (hole_free_list s). intros E. rewrite E in Hfree. simpl in Hfree. lia. }
  { rewrite Hs0. lia. }
  assert (tiles 0 l0.*1 N) as Ht0 by by rewrite El0, Hid.
  change (hole_free_list s0) with (hole_free_list s) in H7.
  destruct (add_frag_known (m_frag_counter s + 1) s s1 d ((., false) <$> f1) x ((., false) <$> f2)) as (s' & o & Hadd & H9 & H10 & H11 & H12 & H13); try done.
  - fold l0. rewrite El0, holes_of_none by lia. done.
  - by rewrite H4.
  - fold l0. rewrite El0, received_none, H3. done.
  - lia.
  - by rewrite H5.
  - fold l0. rewrite El0, received_none. apply not_elem_of_nil.
  - exists s', o. split; [done|]. split; [lia|]. apply (arrival_intro _ s s1); try done.
    + by rewrite H6.
    + by rewrite (tiles_mark _ x _ true false).
Qed.

(** What remains to arrive, when the packet exists. *)
Lemma feed_rest fc arr : forall s l, arr <> [] -> arr ≡ₚ missing l -> packet fc s l -> tiles 0 l.*1 N ->
  Forall (fun x => hdr_key (fst x) = k) arr -> NoDup (bufs_of l) ->
  (forall q, q ∈ bufs_of l -> is_Some (bufs_ s !! q)) ->
  0 <= fc <= m_frag_counter s -> m_frag_counter s + Z.of_nat (length arr) < 2 ^ 63 ->
  m_frag_counter s + Z.of_nat (length arr) - fc <= IP_FRAG_SPACE ->
  (length arr + 1 <= length (hole_free_list s))%nat ->
  exists s' o, feed arr s = Ok (replicate (length arr - 1) (0, Some None) ++ [(0, Some o)], s') /\
    chain (bufs_ s') o (bufs_of l) /\ map_find k (m_frags s') = None /\
    (forall k', k' <> k -> map_find k' (m_frags s') = map_find k' (m_frags s)) /\
    (forall q, q ∉ bufs_of l -> bufs_ s' !! q = bufs_ s !! q).
Proof.
  induction arr as [|x arr IH]; intros s l Hne Hp Hpk Ht Hk Hnd Hal Hfc Hc Hsp Hfree; [done|]. clear Hne.
  destruct (missing_split x l) as (l1 & l2 & ->); [rewrite <- Hp; left|].
  apply Forall_cons in Hk as [Hx Hk]. simpl in Hc, Hsp, Hfree.
  assert (forall b b', bufs_of (l1 ++ (x, b) :: l2) = bufs_of (l1 ++ (x, b') :: l2)) as Eb.
  { intros b b'. unfold bufs_of. by rewrite (tiles_mark l1 x l2 b b'). }
  destruct (add_frag_next fc s l1 x l2) as (s1 & o & Hadd & Hl & [A1 A2 A3 A4 A5 A6]); try done; try lia.
  { apply Hal. unfold bufs_of. rewrite !fmap_app. set_solver. }
  set (l := l1 ++ (x, true) :: l2) in *. simpl feed. rewrite Hadd. cbn [mbind res_bind].
  rewrite (Eb false true) in *. fold l in Hnd, Hal |- *.
  assert (arr ≡ₚ missing l) as Hp'.
  { unfold l. rewrite missing_app, missing_cons in *. simpl in Hp |- *. rewrite <- Permutation_middle in Hp.
    by apply Permutation_cons_inv in Hp. }
  destruct arr as [|y arr].
  - apply Permutation_nil_l in Hp'. destruct (A5 (eq_sym Hp')) as [C1 C2].
    exists s1, o. split_and!; done.
  - destruct (A6) as [-> Hpk1]; [intros E; rewrite E in Hp'; by apply Permutation_nil_r in Hp'|].
    destruct (IH s1 l) as (s' & o' & Hf & B1 & B2 & B3 & B4); try done; try (simpl in *; lia).
    + unfold l. by rewrite (tiles_mark l1 x l2 true false).
    + intros q Hq. apply A3; [done|by apply Hal].
    + exists s', o'. rewrite Hf. cbn [mbind res_bind]. split.
      { simpl. by rewrite Nat.sub_0_r. }
      split_and!; try done.
      * intros k' Hk'. by rewrite B3, A4.
      * intros q Hq. by rewrite B4, A2.
Qed.
End Datagram.

(** C12: Whatever the order in which the fragments of a datagram arrive, when
    they tile it, carry one key that is not in use, and live in distinct
    allocated buffers, every call accepts its fragment, none but the last
    hands out a datagram, and the last one hands out the chain of all the
    buffers in the order of their offsets and forgets the key; other packets
    and other buffers are left as they were. *)
Theorem ipfrag_reassembly k N frags arrivals s :
  tiles 0 frags N -> 0 < N <= 65536 -> arrivals ≡ₚ frags -> Forall (fun x => hdr_key (fst x) = k) frags ->
  NoDup frags.*2 -> Forall (fun x => is_Some (bufs_ s !! snd x)) frags ->
  map_find k (m_frags s) = None -> desc_free_list s <> [] ->
  (length frags + 2 <= length (hole_free_list s))%nat -> Z.of_nat (length frags) <= IP_FRAG_SPACE ->
  0 <= m_frag_counter s < 2 ^ 62 ->
  exists s' o,
    feed arrivals s = Ok (replicate (length frags - 1) (0, Some None) ++ [(0, Some o)], s') /\
    chain (bufs_ s') o frags.*2 /\ map_find k (m_frags s') = None /\
    (forall k', k' <> k -> map_find k' (m_frags s') = map_find k' (m_frags s)) /\
    (forall q, q ∉ frags.*2 -> bufs_ s' !! q = bufs_ s !! q).
Proof.
  intros Ht HN Hp Hk Hnd Hal Hfind Hdesc Hfree Hlen Hc.
  assert (length arrivals = length frags) as El by by rewrite Hp. rewrite <- El in *.
  destruct arrivals as [|x arr]; [apply Permutation_nil_l in Hp; subst; simpl in Ht; lia|].
  destruct (list_elem_of_split frags x) as (f1 & f2 & ->); [rewrite <- Hp; left|].
  rewrite Forall_app, Forall_cons in Hk, Hal. destruct Hk as (K1 & Kx & K2), Hal as (A1 & Ax & A2).
  simpl in Hfree, Hlen. unfold IP_FRAG_SPACE in Hlen. rewrite <- Permutation_middle in Hp. apply Permutation_cons_inv in Hp.
  destruct (add_frag_fresh k N HN s f1 x f2) as (s1 & o & Hadd & Hl & [B1 B2 B3 B4 B5 B6]); try done; try lia.
  set (l := ((., false) <$> f1) ++ (x, true) :: ((., false) <$> f2)) in *.
  assert (forall f : list fragment, ((., false) <$> f : marked).*1 = f) as Hid.
  { intros f. rewrite <- list_fmap_compose. apply list_fmap_id. }
  assert (l.*1 = f1 ++ x :: f2) as Efst by (unfold l; rewrite fmap_app; simpl; by rewrite !Hid).
  assert (bufs_of l = (f1 ++ x :: f2).*2) as Eb by by unfold bufs_of; rewrite Efst.
  assert (missing l = f1 ++ f2) as Em.
  { unfold l, missing. rewrite filter_app, filter_cons. simpl.
    rewrite !filter_all, fmap_app, !Hid; [done|apply Forall_fmap, Forall_true; done..]. }
  simpl feed. rewrite Hadd. cbn [mbind res_bind]. rewrite Eb in *. rewrite Em in *.
  destruct arr as [|y arr].
  - apply Permutation_nil_l in Hp. destruct (B5 (eq_sym Hp)) as [C1 C2]. exists s1, o. split_and!; done.
  - destruct B6 as [-> Hpk]; [intros E; rewrite E in Hp; by apply Permutation_nil_r in Hp|].
    destruct (feed_rest k N HN (m_frag_counter s + 1) (y :: arr) s1 l) as (s' & o' & Hf & C1 & C2 & C3 & C4);
      rewrite ?Em, ?Efst, ?Eb; try done; try (simpl in *; unfold IP_FRAG_SPACE; lia).
    + rewrite Hp. by apply Forall_app.
    + intros q Hq. apply B3; [done|]. apply list_elem_of_fmap in Hq as (z & -> & Hz).
      eapply (Forall_forall (fun x => is_Some (bufs_ s !! snd x)) (f1 ++ x :: f2)); [|done]. apply Forall_app. split; [done|by constructor].
    + exists s', o'. rewrite Hf. cbn [mbind res_bind]. split; [simpl; by rewrite Nat.sub_0_r|].
      rewrite Eb in C1, C4. split_and!; try done.
      * intros k' Hk'. by rewrite C3, B4.
      * intros q Hq. by rewrite C4, B2.
Qed.

Definition example_hdr (off len : Z) : iphdr := IpHdr 7 1 2 17 (ntohs off) (ntohs len) 5.
Definition example_buf : mem_buf_desc_t := MemBufDesc 0 0 1 0 None 0 None.
Definition example_bufs : bufs := {[ 1%positive := example_buf; 2%positive := example_buf; 3%positive := example_buf ]}.
Definition example_hole : ip_frag_hole_desc := Hole 0 0 None None.
Abbreviation example_manager := (new_ip_frag_manager example_bufs (Desc 0 0 [] None 0) example_hole).
Definition example_frags : list fragment :=
  [(example_hdr 8192 28, 1%positive); (example_hdr 8193 28, 2%positive); (example_hdr 2 28, 3%positive)].

Lemma ipfrag_reassembly_witness : exists s' o,
  feed (rev example_frags) example_manager = Ok (replicate 2 (0, Some None) ++ [(0, Some o)], s') /\
  chain (bufs_ s') o [1; 2; 3]%positive.
Proof.
  destruct (ipfrag_reassembly (IpFragKey 7 1 2 17) 24 example_frags (rev example_frags) example_manager)
    as (s' & o & H1 & H2 & _).
  - repeat split; vm_compute; congruence.
  - lia.
  - apply Permutation_sym, Permutation_rev.
  - repeat constructor.
  - vm_compute. repeat constructor; set_solver.
  - repeat constructor; vm_compute; eexists; reflexivity.
  - reflexivity.
  - vm_compute. discriminate.
  - apply Nat.leb_le. vm_compute. reflexivity.
  - vm_compute. discriminate.
  - vm_compute. split; [discriminate|reflexivity].
  - exists s', o. split; [exact H1|exact H2].
Defined.

(** ** Descriptors are neither lost nor duplicated *)

Lemma key_lt_spec a b : key_lt a b = true <->
  ip_id a < ip_id b \/ (ip_id a = ip_id b /\ (src_ip a < src_ip b \/ (src_ip a = src_ip b /\
    (dst_ip a < dst_ip b \/ (dst_ip a = dst_ip b /\ ipproto a < ipproto b))))).
Proof. unfold key_lt. repeat case_match; rewrite ?Z.ltb_lt, ?Z.ltb_ge in *; split; intros; done || lia. Qed.

#[global] Instance key_lt_trans : Transitive (fun a b => is_true (key_lt a b)).
Proof. intros a b c. unfold is_true. rewrite !key_lt_spec. lia. Qed.

Lemma key_lt_irrefl a : key_lt a a = false.
Proof. apply not_true_iff_false. rewrite key_lt_spec. lia. Qed.

Lemma key_lt_total a b : a <> b -> key_lt a b = false -> key_lt b a = true.
Proof.
  rewrite <- not_true_iff_false, !key_lt_spec. intros Hne Hlt.
  destruct (decide (ip_id a = ip_id b)), (decide (src_ip a = src_ip b)), (decide (dst_ip a = dst_ip b)),
    (decide (ipproto a = ipproto b)); try lia. exfalso. apply Hne. destruct a, b; simpl in *; congruence.
Qed.

Definition map_sorted (l : ip_frags_list_t) : Prop := StronglySorted (fun a b => is_true (key_lt a b)) l.*1.

Lemma map_set_fst k d l x : x ∈ (map_set k d l).*1 -> x = k \/ x ∈ l.*1.
Proof.
  induction l as [|[k' d'] l IH]; simpl; [set_solver|]. repeat case_match; simpl; subst; set_solver.
Qed.

Lemma map_set_sorted k d l : map_sorted l -> map_sorted (map_set k d l).
Proof.
  unfold map_sorted. induction l as [|[k' d'] l IH]; simpl; [by repeat constructor|].
  intros [Hl Hk]%StronglySorted_inv. case_decide; subst; simpl; [by constructor|].
  destruct (key_lt k k') eqn:E; simpl.
  - constructor; [by constructor|]. constructor; [by rewrite E|].
    eapply Forall_impl; [exact Hk|]. simpl. intros x Hx. eapply (key_lt_trans k k' x); [by rewrite E|done].
  - constructor; [by apply IH|]. apply Forall_forall. intros x [->|Hx]%map_set_fst.
    + by rewrite key_lt_total.
    + rewrite Forall_forall in Hk. by apply Hk.
Qed.

Lemma map_erase_sorted k l : map_sorted l -> map_sorted (map_erase k l).
Proof.
  unfold map_sorted, map_erase. induction l as [|[k' d'] l IH]; simpl; [done|].
  intros [Hl Hk]%StronglySorted_inv. rewrite filter_cons. case_decide; simpl; [|by apply IH].
  constructor; [by apply IH|]. rewrite Forall_forall in *. intros x (y & -> & Hy)%list_elem_of_fmap.
  apply Hk, list_elem_of_fmap. exists y. split; [done|]. by apply list_elem_of_filter in Hy as [_ ?].
Qed.

Lemma sorted_head k d l : map_sorted ((k, d) :: l) -> map_erase k l = l.
Proof.
  unfold map_sorted. rewrite fmap_cons. intros [_ Hk]%StronglySorted_inv. rewrite Forall_forall in Hk.
  apply filter_all, Forall_forall. intros [k' d'] Hx. simpl. intros ->.
  assert (key_lt k k = true) as E by (apply Hk, list_elem_of_fmap; by exists (k, d')).
  by rewrite key_lt_irrefl in E.
Qed.

Lemma map_find_None k l : map_find k l = None -> map_erase k l = l.
Proof.
  induction l as [|[k' d'] l IH]; simpl; [done|]. case_decide; [done|]. intros Hf. unfold map_erase.
  rewrite filter_cons_True by (simpl; congruence). f_equal. by apply IH.
Qed.

(** The entry of a key and the rest of the map. *)
Lemma map_find_perm k d l : map_sorted l -> map_find k l = Some d -> l ≡ₚ (k, d) :: map_erase k l.
Proof.
  induction l as [|[k' d'] l IH]; intros Hs; simpl; [done|]. pose proof (sorted_head _ _ _ Hs) as Hh.
  unfold map_sorted in Hs. rewrite fmap_cons in Hs. apply StronglySorted_inv in Hs as [Hs Hk]. unfold map_erase in *. rewrite filter_cons. simpl. case_decide as Ek.
  - intros [= ->]. subst. rewrite decide_False by (intros E; apply E; done). by rewrite Hh.
  - intros H. rewrite decide_True by congruence. rewrite Permutation_swap. f_equiv. by apply IH.
Qed.

Lemma map_set_perm k d l : map_sorted l -> map_set k d l ≡ₚ (k, d) :: map_erase k l.
Proof.
  induction l as [|[k' d'] l IH]; intros Hs; simpl; [done|]. pose proof (sorted_head _ _ _ Hs) as Hh.
  unfold map_sorted in Hs. rewrite fmap_cons in Hs. apply StronglySorted_inv in Hs as [Hs Hk].
  case_decide as Ek; [subst|destruct (key_lt k k') eqn:El].
  - unfold map_erase in *. rewrite filter_cons_False by (simpl; intros E; apply E; done). by rewrite Hh.
  - rewrite map_find_None; [done|]. simpl. rewrite decide_False by done. simpl in Hk.
    destruct (map_find k l) eqn:Ef; [|done]. apply map_find_perm in Ef; [|done].
    rewrite Forall_forall in Hk. assert (key_lt k' k = true) as E.
    { apply Hk, list_elem_of_fmap. exists (k, i). split; [done|]. rewrite Ef. left. }
    apply key_lt_spec in El, E. lia.
  - unfold map_erase in *. rewrite filter_cons_True by (simpl; congruence). rewrite Permutation_swap.
    f_equiv. by apply IH.
Qed.

(** The descriptors of the packets being assembled. *)
Definition held_holes (l : ip_frags_list_t) : nat := sum_list_with (fun x => length (hole_list (snd x))) l.

#[global] Instance held_holes_perm : Proper ((≡ₚ) ==> eq) held_holes.
Proof. unfold held_holes. induction 1; simpl; lia. Qed.

(** The free lists and the packets hold all the preallocated descriptors,
    and the counters count the free ones. *)
Record descs_inv (nh nd : nat) (s : ip_frag_manager) : Prop := {
  inv_sorted : map_sorted (m_frags s);
  inv_holes : (length (hole_free_list s) + held_holes (m_frags s) = nh)%nat;
  inv_descs : (length (desc_free_list s) + length (m_frags s) = nd)%nat;
  inv_hole_count : hole_free_list_count s = Z.of_nat (length (hole_free_list s));
  inv_desc_count : desc_free_list_count s = Z.of_nat (length (desc_free_list s))
}.

Section Descriptors.
Implicit Types (nh nd : nat) (s : ip_frag_manager).

Lemma descs_inv_frame nh nd s m c r : descs_inv nh nd s ->
  descs_inv nh nd (set_return r (set_counter c (set_bufs m s))).
Proof. by intros []. Qed.

Lemma descs_inv_bufs nh nd s m : descs_inv nh nd s -> descs_inv nh nd (set_bufs m s).
Proof. by intros []. Qed.

Lemma descs_inv_free nh nd s frag s' : descs_inv nh nd s -> free_frag frag s = Ok s' -> descs_inv nh nd s'.
Proof. intros [] Hf. unfold free_frag in Hf. destruct frag; inv_res; by constructor. Qed.

Lemma free_frag_frags frag s s' : free_frag frag s = Ok s' -> m_frags s' = m_frags s.
Proof. unfold free_frag. destruct frag; intros; inv_res; done. Qed.

Lemma alloc_hole_inv nh nd s o s' : descs_inv nh nd s -> Z.of_nat nh < 2 ^ 31 -> alloc_hole_desc s = (o, s') ->
  m_frags s' = m_frags s /\ descs_inv (nh - (if o then 1 else 0)) nd s' /\ (is_Some o -> 0 < nh)%nat.
Proof.
  intros [H1 H2 H3 H4 H5] Hb. unfold alloc_hole_desc. destruct (hole_free_list s) as [|h l] eqn:E; intros [= <- <-]; simpl in *.
  - split; [done|]. split; [|intros [? [=]]]. constructor; rewrite ?E; simpl; done || lia.
  - split; [done|]. split; [|lia]. constructor; simpl; try done; [lia|]. rewrite swrap_small; lia.
Qed.

Lemma free_hole_inv nh nd s h : descs_inv nh nd s -> Z.of_nat nh < 2 ^ 31 - 1 -> descs_inv (S nh) nd (free_hole_desc h s).
Proof. intros [H1 H2 H3 H4 H5] Hb. constructor; simpl; try done; [lia|]. rewrite swrap_small; lia. Qed.

Lemma free_holes_inv nh nd hs s : descs_inv nh nd s -> Z.of_nat (nh + length hs) < 2 ^ 31 ->
  descs_inv (length hs + nh) nd (foldl (fun s h => free_hole_desc h s) s hs) /\
  m_frags (foldl (fun s h => free_hole_desc h s) s hs) = m_frags s.
Proof.
  revert nh s. induction hs as [|h hs IH]; intros nh s Hi Hb; simpl in *; [done|].
  destruct (IH (S nh) (free_hole_desc h s)) as [IH1 IH2]; [apply free_hole_inv; [done|lia]|lia|].
  rewrite IH2. by rewrite Nat.add_succ_r in IH1.
Qed.

Lemma free_desc_inv nh nd s d : descs_inv nh nd s -> Z.of_nat nd < 2 ^ 31 - 1 -> descs_inv nh (S nd) (free_frag_desc d s).
Proof. intros [H1 H2 H3 H4 H5] Hb. constructor; simpl; try done; [lia|]. rewrite swrap_small; lia. Qed.

Lemma set_old_inv nh nh' nd s k d d0 : descs_inv nh nd s -> map_find k (m_frags s) = Some d0 ->
  (nh' + length (hole_list d0) = nh + length (hole_list d))%nat ->
  descs_inv nh' nd (set_frags (map_set k d (m_frags s)) s).
Proof.
  intros [H1 H2 H3 H4 H5] Hf Hn. pose proof (map_find_perm _ _ _ H1 Hf) as P. pose proof (map_set_perm k d _ H1) as P'.
  rewrite P in H2, H3. simpl in H2, H3. constructor; simpl; try done; [by apply map_set_sorted| |]; rewrite P'; simpl; lia.
Qed.

Lemma set_new_inv nh nd s k d : descs_inv nh nd s -> map_find k (m_frags s) = None ->
  descs_inv (length (hole_list d) + nh) (S nd) (set_frags (map_set k d (m_frags s)) s).
Proof.
  intros [H1 H2 H3 H4 H5] Hf. pose proof (map_set_perm k d _ H1) as P. rewrite map_find_None in P by done.
  constructor; simpl; try done; [by apply map_set_sorted| |]; rewrite P; simpl; lia.
Qed.

Lemma erase_inv nh nd s k d0 : descs_inv nh (S nd) s -> map_find k (m_frags s) = Some d0 ->
  descs_inv (nh - length (hole_list d0)) nd (set_frags (map_erase k (m_frags s)) s) /\ (length (hole_list d0) <= nh)%nat.
Proof.
  intros [H1 H2 H3 H4 H5] Hf. pose proof (map_find_perm _ _ _ H1 Hf) as P.
  rewrite P in H2, H3. simpl in H2, H3. split; [|lia].
  constructor; simpl; try done; [by apply map_erase_sorted| |]; lia.
Qed.

Lemma new_frag_desc_inv nh nd s k o s' : descs_inv nh nd s -> Z.of_nat nh < 2 ^ 31 -> Z.of_nat nd < 2 ^ 31 ->
  map_find k (m_frags s) = None -> new_frag_desc k s = (o, s') ->
  descs_inv nh nd s' /\ forall d, o = Some d -> map_find k (m_frags s') = Some d.
Proof.
  intros Hi Hnh Hnd Hf. unfold new_frag_desc. destruct (alloc_hole_desc s) as [[h|] s1] eqn:E1;
    destruct (alloc_hole_inv _ _ _ _ _ Hi Hnh E1) as (Ef & Hi1 & Hpos).
  - unfold alloc_frag_desc. destruct (desc_free_list s1) as [|d dl] eqn:E2; intros [= <- <-].
    + split; [|done]. apply free_hole_inv with (h := Hole IP_FRAG_NINF IP_FRAG_INF (data_first h) (data_last h)) in Hi1; [|lia].
      by replace (S (nh - 1)) with nh in Hi1 by (specialize (Hpos ltac:(done)); lia).
    + split; [|intros d' [= <-]; apply map_find_set]. destruct Hi1 as [I1 I2 I3 I4 I5]. rewrite E2 in I3, I5. simpl in I3, I5.
      set (s2 := set_desc_pool _ _ _). assert (descs_inv (nh - 1) (nd - 1) s2) as Hi2.
      { constructor; simpl; try done; [lia|]. rewrite swrap_small; lia. }
      specialize (Hpos ltac:(done)). replace nh with (1 + (nh - 1))%nat by lia. replace nd with (S (nd - 1)) by lia.
      match goal with |- context [map_set k ?d' _] => apply (set_new_inv _ _ s2 k d') end; [done|simpl; by rewrite Ef].
  - intros [= <- <-]. rewrite Nat.sub_0_r in Hi1. done.
Qed.

Lemma get_desc_inv nh nd s k o s' : descs_inv nh nd s -> Z.of_nat nh < 2 ^ 30 -> Z.of_nat nd < 2 ^ 31 - 1 ->
  get_desc k s = Ok (o, s') -> descs_inv nh nd s' /\ forall d, o = Some d -> map_find k (m_frags s') = Some d.
Proof.
  intros Hi Hnh Hnd. unfold get_desc. destruct (map_find k (m_frags s)) as [d|] eqn:Ef.
  - case_match; [|by intros [= <- <-]; split; [done|intros ? [= <-]]].
    unfold destroy_frag_desc. intros (s1 & Hs1 & [= Hn])%bind_Ok.
    destruct (erase_inv nh (nd - 1) s k d) as [_ Hle]; [|done|].
    { pose proof (inv_descs _ _ _ Hi) as I3. pose proof (inv_sorted _ _ _ Hi) as I1. pose proof (map_find_perm _ _ _ I1 Ef) as P. rewrite P in I3. simpl in I3.
      replace (S (nd - 1)) with nd by lia. done. }
    destruct (free_holes_inv nh nd (hole_list d) s Hi) as [H2 H3]; [lia|].
    pose proof (free_frag_frags _ _ _ Hs1) as E1. eapply descs_inv_free in H2; [|done].
    apply (free_desc_inv _ _ _ d) in H2; [|lia]. eapply erase_inv in H2 as [H2 _]; [|simpl; rewrite E1, H3; done].
    eapply new_frag_desc_inv; [..|done]; try lia; [|apply map_find_erase].
    by replace (length (hole_list d) + nh - length (hole_list d))%nat with nh in H2 by lia.
  - intros [= Hn]. eapply new_frag_desc_inv; [..|done]; done || lia.
Qed.

Lemma find_hole_split ff fl hs before h after : find_hole ff fl hs = Some (before, h, after) -> hs = before ++ h :: after.
Proof.
  revert before. induction hs as [|x hs IH]; intros before; simpl; [done|].
  case_match; [by intros [= <- <- <-]|]. destruct (find_hole ff fl hs) as [[[b p] a]|]; [|done].
  intros [= <- <- <-]. simpl. f_equal. by apply IH.
Qed.

(** The hole descriptors that a split takes from and returns to the pool. *)
Definition split_post (nh nd : nat) (s : ip_frag_manager) (n : nat)
    (r : bool * list ip_frag_hole_desc * ip_frag_manager) : Prop :=
  let '(ok, holes, s') := r in
  m_frags s' = m_frags s /\
  exists nh', descs_inv nh' nd s' /\ (nh' <= S nh)%nat /\
    (nh' + length holes + (if (ok : bool) then 1 else 0) = nh + S n)%nat.

Lemma split_fail nh nd s before h after : descs_inv nh nd s -> Z.of_nat nh < 2 ^ 30 ->
  split_post nh nd s (length (before ++ after)) (false, before ++ after, free_hole_desc h s).
Proof.
  intros Hi Hb. split; [done|]. exists (S nh). split; [apply free_hole_inv; [done|lia]|]. lia.
Qed.

Lemma alloc_hole_none s s' : alloc_hole_desc s = (None, s') -> s' = s.
Proof. unfold alloc_hole_desc. case_match; by intros [=]. Qed.

Lemma split_right_inv nh nd s frag fl more before h after : descs_inv nh nd s -> Z.of_nat nh < 2 ^ 30 ->
  split_post nh nd s (length (before ++ after)) (split_right frag fl more before h after s).
Proof.
  intros Hi Hb. unfold split_right. destruct ((fl <? last h) && more).
  - destruct (alloc_hole_desc s) as [[h1|] s1] eqn:E1; [|apply alloc_hole_none in E1 as ->; by apply split_fail].
    destruct (alloc_hole_inv _ _ _ _ _ Hi ltac:(lia) E1) as (Ef & Hi1 & Hpos). specialize (Hpos ltac:(done)).
    split; [done|]. exists (nh - 1)%nat. split; [done|]. rewrite !length_app. simpl. lia.
  - split; [done|]. exists nh. split; [done|]. lia.
Qed.

Lemma split_hole_inv nh nd s frag ff fl more before h after : descs_inv nh nd s -> Z.of_nat nh < 2 ^ 30 ->
  split_post nh nd s (length (before ++ after)) (split_hole frag ff fl more before h after s).
Proof.
  intros Hi Hb. unfold split_hole. destruct (first h <? ff); [|by apply split_right_inv].
  destruct (alloc_hole_desc s) as [[h1|] s1] eqn:E1; [|apply alloc_hole_none in E1 as ->; by apply split_fail].
  destruct (alloc_hole_inv _ _ _ _ _ Hi ltac:(lia) E1) as (Ef & Hi1 & Hpos). specialize (Hpos ltac:(done)).
  set (nw := Hole _ _ _ _).
  pose proof (split_right_inv _ _ _ frag fl more (before ++ [nw]) h after Hi1 ltac:(lia)) as Hr.
  unfold split_post in *. destruct (split_right _ _ _ _ _ _ _) as [[ok holes] s2].
  destruct Hr as (R1 & nh' & R2 & R3 & R4). split; [by rewrite R1|]. exists nh'. split; [done|].
  rewrite !length_app in *. simpl in R4. lia.
Qed.

(** Storing the packet back, or dropping it when it is complete. *)
Lemma add_frag_inv nh nd s hdr frag rc ret s' : descs_inv nh nd s -> Z.of_nat nh < 2 ^ 30 - 1 -> Z.of_nat nd < 2 ^ 31 - 1 ->
  add_frag hdr frag s = Ok (rc, ret, s') -> descs_inv nh nd s'.
Proof.
  intros Hi Hnh Hnd Hadd. unfold add_frag in Hadd. apply bind_Ok in Hadd as ([o s1] & Hget & Hadd).
  destruct (get_desc_inv nh nd _ _ _ _ (descs_inv_frame nh nd s (bufs_ s) _ (m_return_descs s) Hi) ltac:(lia) Hnd Hget) as [Hi1 Hf].
  destruct o as [d|]; [|by inv_res]. specialize (Hf d eq_refl).
  destruct (find_hole _ _ _) as [[[before h] after]|] eqn:Eh; [|by inv_res]. apply find_hole_split in Eh.
  pose proof (fun ff fl more => split_hole_inv nh nd s1 frag ff fl more before h after Hi1 ltac:(lia)) as Hs.
  revert Hadd. edestruct (split_hole frag) as [[ok holes] s2] eqn:Es.
  match type of Es with split_hole _ ?ff ?fl ?more _ _ _ _ = _ => specialize (Hs ff fl more) end.
  rewrite Es in Hs. destruct Hs as (S1 & nh' & S2 & S3 & S4). rewrite <- S1 in Hf.
  assert (length (hole_list d) = S (length (before ++ after))) as El by (rewrite Eh, !length_app; simpl; lia).
  destruct ok; simpl negb; cbv iota; intros Hadd.
  - apply bind_Ok in Hadd as ([d' m1] & Hd & (m2 & Hm2 & Hadd)%bind_Ok).
    assert (hole_list d' = holes) as Ed by (destruct (data_first h); inv_res; by simplify_eq).
    pose proof (free_hole_inv _ _ _ h (descs_inv_bufs _ _ _ m2 S2) ltac:(lia)) as Hi3.
    destruct holes as [|h1 hs].
    + change (m_frags (free_hole_desc h (set_bufs m2 s2))) with (m_frags s2) in Hadd. rewrite Hf in Hadd. inv_res.
      apply (free_desc_inv _ _ _ d') in Hi3; [|lia].
      destruct (erase_inv _ _ _ (hdr_key hdr) d Hi3 Hf) as [Hi4 _]. simpl in S4.
      replace (S nh' - length (hole_list d))%nat with nh in Hi4 by lia. destruct Hi4. by constructor.
    + inv_res. eapply (set_old_inv _ nh) in Hi3; [exact Hi3|exact Hf|]. rewrite Ed. lia.
  - inv_res. eapply (set_old_inv _ nh) in S2; [exact S2|exact Hf|]. simpl. lia.
Qed.

Lemma destroy_inv nh nd f s d s' : descs_inv nh nd (set_frags f s) -> Z.of_nat (nh + length (hole_list d)) < 2 ^ 31 ->
  destroy_frag_desc d s = Ok s' -> descs_inv (length (hole_list d) + nh) nd (set_frags f s').
Proof.
  intros Hi Hb. unfold destroy_frag_desc. generalize (hole_list d) Hb. clear Hb. intros hs.
  revert nh s Hi. induction hs as [|h hs IH]; intros nh s Hi Hb; simpl.
  - intros Hf. assert (exists m r, s' = set_bufs m (set_return r s)) as (m & r & ->).
    { unfold free_frag in Hf. destruct (frag_list d); inv_res; [by eexists _, _|].
      exists (bufs_ s'), (m_return_descs s'). by destruct s'. }
    destruct Hi. by constructor.
  - intros Hf. apply (IH (S nh)) in Hf; [|apply free_hole_inv with (h := h) in Hi; [exact Hi|simpl in Hb; lia]|simpl in Hb; lia].
    by rewrite Nat.add_succ_r in Hf.
Qed.

Lemma destroy_counter d s s' : destroy_frag_desc d s = Ok s' -> m_frag_counter s' = m_frag_counter s.
Proof.
  unfold destroy_frag_desc. generalize (hole_list d). intros hs. revert s. induction hs as [|h hs IH]; intros s; simpl.
  - unfold free_frag. destruct (frag_list d); intros; inv_res; done.
  - intros H. by apply IH in H.
Qed.

(** The packets that stay are a part of the map, in the same order. *)
Definition alive (delta : Z) (x : ip_frag_key_t * ip_frag_desc_t) : Prop :=
  0 <= i64 (frag_counter (snd x) - delta) /\ 0 < ttl (snd x).
#[global] Instance alive_dec delta x : Decision (alive delta x).
Proof. unfold alive. apply _. Defined.
Definition age (delta : Z) (x : ip_frag_key_t * ip_frag_desc_t) : ip_frag_key_t * ip_frag_desc_t :=
  let d := snd x in
  (fst x, Desc (u16 (ttl d - 1)) (pkt_size d) (hole_list d) (frag_list d) (i64 (frag_counter d - delta))).

Lemma expire_frags_spec delta l s l' s' : expire_frags delta l s = Ok (l', s') -> l' = age delta <$> filter (alive delta) l.
Proof.
  revert s l'. induction l as [|[k d] l IH]; intros s l'; simpl; [by intros [= <- <-]|].
  rewrite filter_cons. simpl. destruct (_ || _) eqn:E; intros; inv_res.
  - rewrite decide_False by (unfold alive; simpl; lia). by eapply IH.
  - rewrite decide_True by (unfold alive; simpl; lia). destruct x as [l1 s1]. inv_res. simplify_eq. simpl. f_equal. by eapply IH.
Qed.

Lemma expire_counter delta l s l' s' : expire_frags delta l s = Ok (l', s') -> m_frag_counter s' = m_frag_counter s.
Proof.
  revert s l'. induction l as [|[k d] l IH]; intros s l'; simpl; [by intros [= <- <-]|].
  case_match; intros; inv_res.
  - match goal with H : expire_frags _ _ _ = _ |- _ => apply IH in H; rewrite H end. simpl.
    match goal with H : destroy_frag_desc _ _ = _ |- _ => by apply destroy_counter in H end.
  - destruct x as [l1 s1]. inv_res. simplify_eq. by eapply IH.
Qed.

Lemma expire_inv delta l : forall nh nd s l' s', descs_inv nh nd (set_frags [] s) ->
  Z.of_nat (nh + held_holes l) < 2 ^ 31 -> Z.of_nat (nd + length l) < 2 ^ 31 - 1 ->
  expire_frags delta l s = Ok (l', s') -> exists nh' nd', descs_inv nh' nd' (set_frags [] s') /\
    (nh' + held_holes l' = nh + held_holes l)%nat /\ (nd' + length l' = nd + length l)%nat.
Proof.
  induction l as [|[k d] l IH]; intros nh nd s l' s' Hi Hb1 Hb2; simpl in *; [by intros [= <- <-]; eauto|].
  change (held_holes ((k, d) :: l)) with (length (hole_list d) + held_holes l)%nat in *.
  case_match; intros; inv_res.
  - eapply (destroy_inv _ _ _ _ d) in Hi; [|unfold held_holes in *; lia|done].
    match goal with H : expire_frags _ _ (free_frag_desc ?d' _) = _ |- _ =>
      apply (free_desc_inv _ _ _ d') in Hi; [|lia]; eapply IH in H as (nh' & nd' & I1 & I2 & I3); [|exact Hi|lia|lia] end.
    exists nh', nd'. split; [done|]. lia.
  - destruct x as [l1 s1]. inv_res. simplify_eq.
    match goal with H : expire_frags _ _ _ = _ |- _ => eapply IH in H as (nh' & nd' & I1 & I2 & I3); [|exact Hi|lia|lia] end.
    exists nh', nd'. split; [done|]. simpl. lia.
Qed.

Lemma age_fst delta (l : ip_frags_list_t) : (age delta <$> l).*1 = l.*1.
Proof. rewrite <- list_fmap_compose. by apply list_fmap_ext. Qed.

Lemma filter_sorted (P : ip_frag_key_t * ip_frag_desc_t -> Prop) `{!forall x, Decision (P x)} (l : ip_frags_list_t) : map_sorted l -> map_sorted (filter P l).
Proof.
  unfold map_sorted. induction l as [|[k d] l IH]; [done|]. rewrite fmap_cons.
  intros [Hl Hk]%StronglySorted_inv. rewrite filter_cons. case_decide; [|by apply IH].
  rewrite fmap_cons. constructor; [by apply IH|]. rewrite Forall_forall in *. intros x (y & -> & Hy)%list_elem_of_fmap.
  apply Hk, list_elem_of_fmap. exists y. split; [done|]. by apply list_elem_of_filter in Hy as [_ ?].
Qed.

Lemma timer_inv nh nd s pool s' pool' : descs_inv nh nd s -> Z.of_nat nh < 2 ^ 30 -> Z.of_nat nd < 2 ^ 30 ->
  handle_timer_expired pool s = Ok (s', pool') -> descs_inv nh nd s'.
Proof.
  intros Hi Hnh Hnd H. unfold handle_timer_expired in H.
  apply bind_Ok in H as ([l s1] & He & ([m p] & Hr & H)%bind_Ok). inv_res. simplify_eq.
  pose proof (expire_frags_spec _ _ _ _ _ He) as El. destruct Hi as [I1 I2 I3 I4 I5].
  eapply expire_inv in He as (nh' & nd' & E & E1 & E2).
  2: { instantiate (1 := length (desc_free_list s)). instantiate (1 := length (hole_free_list s)).
       constructor; simpl; try done; try lia. constructor. }
  2, 3: simpl; lia.
  destruct E as [J1 J2 J3 J4 J5]. simpl in *. constructor; simpl; try done; try lia.
  rewrite El. unfold map_sorted. rewrite age_fst. by apply filter_sorted.
Qed.
End Descriptors.

(** A run of the manager: fragments arrive, the timer fires, and the rest of
    the stack changes the buffers in between. *)
Inductive ipf_step : ip_frag_manager -> ip_frag_manager -> Prop :=
| step_add hdr frag s rc ret s' : add_frag hdr frag s = Ok (rc, ret, s') -> ipf_step s s'
| step_timer pool s s' pool' : handle_timer_expired pool s = Ok (s', pool') -> ipf_step s s'
| step_env m s : ipf_step s (set_bufs m s).

Lemma new_manager_inv m d0 h0 : descs_inv IP_FRAG_MAX_HOLES IP_FRAG_MAX_DESC (new_ip_frag_manager m d0 h0).
Proof.
  unfold new_ip_frag_manager.
  assert (forall n nh nd s, Z.of_nat (n + nd) < 2 ^ 31 -> descs_inv nh nd s -> descs_inv nh (n + nd) (Nat.iter n (free_frag_desc d0) s)) as Hd.
  { induction n as [|n IH]; intros nh nd s Hb Hi; [done|]. simpl. apply free_desc_inv; [apply IH; [lia|done]|lia]. }
  assert (forall n nh nd s, Z.of_nat (n + nh) < 2 ^ 31 -> descs_inv nh nd s -> descs_inv (n + nh) nd (Nat.iter n (free_hole_desc h0) s)) as Hh.
  { induction n as [|n IH]; intros nh nd s Hb Hi; [done|]. simpl. apply free_hole_inv; [apply IH; [lia|done]|lia]. }
  set (s := Manager _ _ _ _ _ _ _ _). assert (descs_inv 0 0 s) as Hs by (constructor; simpl; try done; constructor).
  apply (Hd IP_FRAG_MAX_DESC) in Hs; [|done]. apply (Hh IP_FRAG_MAX_HOLES) in Hs; [|done].
  by rewrite !Nat.add_0_r in Hs.
Qed.

(** C39: In every state the manager can reach, the 16000 hole descriptors and
    the 1024 packet descriptors it preallocated are each either free or held
    by one of the packets being assembled, the two counters count the free
    ones, and the map is ordered by key: nothing is lost or freed twice, on
    the error paths included. *)
Theorem ipfrag_descs_conserved m d0 h0 s : rtc ipf_step (new_ip_frag_manager m d0 h0) s ->
  (length (hole_free_list s) + held_holes (m_frags s) = IP_FRAG_MAX_HOLES)%nat /\
  (length (desc_free_list s) + length (m_frags s) = IP_FRAG_MAX_DESC)%nat /\
  hole_free_list_count s = Z.of_nat (length (hole_free_list s)) /\
  desc_free_list_count s = Z.of_nat (length (desc_free_list s)) /\ map_sorted (m_frags s).
Proof.
  intros Hr. assert (descs_inv IP_FRAG_MAX_HOLES IP_FRAG_MAX_DESC s) as []; [|done].
  revert s Hr. apply rtc_ind_r; [apply new_manager_inv|]. intros s s' _ Hst IH. destruct Hst.
  - by eapply add_frag_inv.
  - by eapply timer_inv.
  - by apply descs_inv_bufs.
Qed.

Definition example_next : ip_frag_manager :=
  match add_frag (example_hdr 8192 28) 1 example_manager with Ok (_, _, s) => s | _ => example_manager end.

Lemma example_next_step : ipf_step example_manager example_next.
Proof. apply (step_add (example_hdr 8192 28) 1 _ 0 (Some None)). vm_compute. reflexivity. Qed.

Lemma ipfrag_descs_conserved_witness :
  rtc ipf_step example_manager example_next /\ m_frags example_next <> [] /\
  (length (hole_free_list example_next) + held_holes (m_frags example_next) = IP_FRAG_MAX_HOLES)%nat.
Proof.
  assert (rtc ipf_step example_manager example_next) as Hr by apply rtc_once, example_next_step.
  split; [exact Hr|]. split; [vm_compute; discriminate|].
  exact (proj1 (ipfrag_descs_conserved example_bufs (Desc 0 0 [] None 0) example_hole example_next Hr)).
Defined.

(** ** Expiry *)

(** One firing of the timer keeps exactly the packets whose time to live
    is not used up and whose first fragment is not more than 60000 fragments
    old, in their order and with their holes and fragments, decrements their
    time to live and rebases the counters; it leaves no buffer waiting to be
    returned. *)
Theorem ipfrag_timer pool s s' pool' : handle_timer_expired pool s = Ok (s', pool') ->
  let delta := Z.max 0 (m_frag_counter s - IP_FRAG_SPACE) in
  m_frags s' = age delta <$> filter (alive delta) (m_frags s) /\
  m_frag_counter s' = Z.min (m_frag_counter s) IP_FRAG_SPACE /\ m_return_descs s' = ∅.
Proof.
  intros H. unfold handle_timer_expired in H. apply bind_Ok in H as ([l s1] & He & ([m p] & Hr & H)%bind_Ok).
  inv_res. simplify_eq. pose proof (expire_frags_spec _ _ _ _ _ He) as El. pose proof (expire_counter _ _ _ _ _ He) as Ec.
  simpl in *. unfold IP_FRAG_SPACE in *.
  destruct (60000 <? m_frag_counter s) eqn:E; (rewrite Z.max_r by lia) || (rewrite Z.max_l by lia); split_and!; try done; lia.
Qed.

Definition example_packet (t : Z) : ip_frag_desc_t := Desc t 0 [Hole 0 65535 None None] None 70000.
Definition example_two : ip_frag_manager :=
  Manager ∅ 70001 [(IpFragKey 1 0 0 17, example_packet 0); (IpFragKey 2 0 0 17, example_packet 2)] ∅ [] 0 [] 0.

Definition example_pool : buffer_pool := BufferPool 0 0 None (BpoolStats true false 0 0).

Lemma ipfrag_timer_witness : exists s', handle_timer_expired example_pool example_two = Ok (s', example_pool) /\
  m_frags s' = [(IpFragKey 2 0 0 17, Desc 1 0 [Hole 0 65535 None None] None 59999)].
Proof.
  eexists. assert (forall (s' : ip_frag_manager), handle_timer_expired example_pool example_two = Ok (s', example_pool) ->
    m_frags s' = [(IpFragKey 2 0 0 17, Desc 1 0 [Hole 0 65535 None None] None 59999)]) as H.
  { intros s' E. destruct (ipfrag_timer _ _ _ _ E) as [-> _]. vm_compute. reflexivity. }
  assert (handle_timer_expired example_pool example_two = Ok (_, example_pool)) as E by (vm_compute; reflexivity).
  split; [exact E|exact (H _ E)].
Defined.

(** ** What is lost when hole descriptors run out *)

(** When no hole descriptor is left for step 6, the call rejects its
    fragment and its caller frees the buffer, but the hole made in step 5
    stays on the list and names the rejected buffer as what follows it: with
    three hole descriptors, the fragment in buffer 3 is rejected and later
    the datagram is handed out as complete with buffer 3 linked in it,
    although its last fragment never arrived. *)
Theorem ipfrag_rejected_linked :
  let frag o := example_hdr o 28 in
  let arrivals := [(frag 8193, 1%positive); (frag 8195, 3%positive); (frag 8194, 2%positive); (frag 8192, 4%positive)] in
  let s := Manager (<[4%positive := example_buf]> example_bufs) 0 [] ∅ (replicate 3 example_hole) 3
             [Desc 0 0 [] None 0] 1 in
  exists s', feed arrivals s = Ok ([(0, Some None); (-1, None); (0, Some None); (0, Some (Some 4%positive))], s') /\
    chain (bufs_ s') (Some 4%positive) [4; 1; 2; 3]%positive.
Proof.
  intros frag arrivals s. eexists. split; [vm_compute; reflexivity|].
  repeat first [reflexivity | split | eexists].
Qed.
