(* ===== verification/Match.v ===== *)
(** * Which transport a socket uses (src/vma/util/match.cpp, libvma.h)

    The configuration file gives, per application, lists of rules that say
    for an address and a port whether the operating system or VMA handles
    the socket.  Addresses are modelled as the bytes behind the [sockaddr]
    pointer, so that the IPv4 and IPv6 views and the copies of
    [__vma_sockaddr_to_vma] read and write what the code reads and writes.
    [fnmatch] and the program's name come from libc and are parameters. *)

From S2P Require Import Prelude.

(** ** Data *)

Inductive role_t := ROLE_TCP_SERVER | ROLE_TCP_CLIENT | ROLE_UDP_RECEIVER | ROLE_UDP_SENDER | ROLE_UDP_CONNECT.

Inductive transport_t := TRANS_OS | TRANS_VMA | TRANS_SDP | TRANS_SA | TRANS_ULP | TRANS_DEFAULT.

Inductive in_protocol_t := PROTO_UNDEFINED | PROTO_UDP | PROTO_TCP | PROTO_ALL.

#[global] Instance transport_eq_dec : EqDecision transport_t.
Proof. solve_decision. Defined.
#[global] Instance in_protocol_eq_dec : EqDecision in_protocol_t.
Proof. solve_decision. Defined.

(** [ipv4] is [s_addr], in network byte order. *)
Record address_port_rule := AddressPortRule {
  match_by_addr : bool;
  ipv4 : Z;
  prefixlen : Z;
  match_by_port : bool;
  sport : Z;
  eport : Z
}.

Record use_family_rule := UseFamilyRule {
  rule_first : address_port_rule;
  rule_second : address_port_rule;
  use_second : bool;
  target_transport : transport_t;
  protocol : in_protocol_t
}.

(** A [dbl_lst]: the [data] of its nodes, which may be NULL. *)
Abbreviation dbl_lst A := (list (option A)).

Record instance := MkInstance {
  prog_name_expr : string;
  user_defined_id : option string;
  tcp_clt_rules_lst : dbl_lst use_family_rule;
  tcp_srv_rules_lst : dbl_lst use_family_rule;
  udp_snd_rules_lst : dbl_lst use_family_rule;
  udp_rcv_rules_lst : dbl_lst use_family_rule;
  udp_con_rules_lst : dbl_lst use_family_rule
}.

(** ** Socket addresses as bytes *)

Abbreviation bytes := (list Z).

Definition AF_INET : Z := 2.
Definition AF_INET6 : Z := 10.
Definition SOCKADDR_IN_SIZE : nat := 16.
Definition IPV6_ADDR_IN_MIN_LEN : Z := 24.

(** [n] bytes at offset [off]. *)
Definition read_bytes (mem : bytes) (off n : nat) : res bytes :=
  if (off + n <=? length mem)%nat then Ok (take n (drop off mem)) else Undef.

(** Loads on a little-endian host. *)
Definition le_value (l : bytes) : Z := foldr (fun b acc => b + 256 * acc) 0 l.
Definition read16 (mem : bytes) (off : nat) : res Z := l ← read_bytes mem off 2; Ok (le_value l).
Definition read32 (mem : bytes) (off : nat) : res Z := l ← read_bytes mem off 4; Ok (le_value l).

(** Both [sockaddr_in] and [sockaddr_in6] start with family and port. *)
Definition sa_family (sa : bytes) : res Z := read16 sa 0.
Definition sa_port (sa : bytes) : res Z := p ← read16 sa 2; Ok (ntohs p).
Definition sin_addr (sin : bytes) : res Z := read32 sin 4.

(** Ten bytes of zeros, then two of zeros or two of ones. *)
Definition is_ipv4_embedded_in_ipv6 (sin6 : bytes) : res bool :=
  h ← read_bytes sin6 8 10;
  t ← read_bytes sin6 18 2;
  if forallb (fun b => b =? 0) h
  then Ok (bool_decide (t = [0; 0]) || bool_decide (t = [255; 255]))
  else Ok false.

(** [__vma_sockaddr_to_vma]: the return code and the contents of the 16-byte
    [addr_out], which holds [out] before the call. *)
Definition vma_sockaddr_to_vma (addr_in : option bytes) (addrlen : Z) (out : bytes) : res (Z * bytes) :=
  match addr_in with
  | None => Ok (-1, out)
  | Some a =>
    fam ← sa_family a;
    if fam =? AF_INET then
      if addrlen <? Z.of_nat SOCKADDR_IN_SIZE then Ok (-1, out)
      else l ← read_bytes a 0 SOCKADDR_IN_SIZE; Ok (0, l)
    else if fam =? AF_INET6 then
      if addrlen <? IPV6_ADDR_IN_MIN_LEN then Ok (-1, out)
      else
        e ← is_ipv4_embedded_in_ipv6 a;
        if negb e then Ok (-1, out)
        else
          port ← read_bytes a 2 2;
          ip ← read_bytes a 20 4;
          let ip := if le_value ip =? htonl 1 then [127; 0; 0; 1] else ip in
          Ok (0, [AF_INET; 0] ++ port ++ ip ++ replicate 8 0)
    else if fam =? 0 then
      (* memcpy of [addrlen] bytes into an object of 16 *)
      if Z.of_nat SOCKADDR_IN_SIZE <? addrlen then Undef
      else l ← read_bytes a 0 (Z.to_nat addrlen); Ok (0, l ++ drop (Z.to_nat addrlen) out)
    else Ok (-1, out)
  end.

(** ** Matching one rule *)

(** [VMA_NETMASK]: a shift by a negative count is undefined. *)
Definition VMA_NETMASK (n : Z) : res Z :=
  if n =? 0 then Ok 0
  else if 32 <? n then Undef
  else Ok (u64 (Z.lnot (Z.shiftl 1 (32 - n) - 1))).

(** [true] when the addresses match (the code returns 0). *)
Definition match_ipv4_addr (rule : address_port_rule) (sin : bytes) : res bool :=
  mask ← VMA_NETMASK (prefixlen rule);
  a ← sin_addr sin;
  let mask := htonl (u32 mask) in
  Ok (Z.land (ipv4 rule) mask =? Z.land a mask).

(** The address and the port of one endpoint; [junk] is the uninitialised
    contents of the local [sockaddr_in]. *)
Definition match_endpoint (junk : bytes) (r : address_port_rule) (addr : bytes) (addrlen : Z) : res bool :=
  ok ← (if match_by_port r then
          port ← sa_port addr;
          Ok (negb ((port <? sport r) || (eport r <? port)))
        else Ok true);
  if ok && match_by_addr r then
    '(rc, tmp_sin) ← vma_sockaddr_to_vma (Some addr) addrlen junk;
    if negb (rc =? 0) then Ok false else match_ipv4_addr r tmp_sin
  else Ok ok.

Definition match_ip_addr_and_port (junk : bytes) (my_transport : transport_t) (rule : use_family_rule)
    (addr_first : bytes) (addrlen_first : Z) (addr_second : option bytes) (addrlen_second : Z) : res bool :=
  m ← match_endpoint junk (rule_first rule) addr_first addrlen_first;
  m ← (match m && use_second rule, addr_second with
       | true, Some a => match_endpoint junk (rule_second rule) a addrlen_second
       | _, _ => Ok m
       end);
  Ok (m && (bool_decide (target_transport rule = TRANS_OS) || bool_decide (target_transport rule = TRANS_ULP) ||
            bool_decide (target_transport rule = my_transport))).

Fixpoint get_family_by_first_matching_rule (junk : bytes) (my_transport : transport_t)
    (rules : dbl_lst use_family_rule) (sin_first : bytes) (addrlen_first : Z)
    (sin_second : option bytes) (addrlen_second : Z) : res transport_t :=
  match rules with
  | [] => Ok TRANS_VMA
  | None :: rules =>
    get_family_by_first_matching_rule junk my_transport rules sin_first addrlen_first sin_second addrlen_second
  | Some rule :: rules =>
    m ← match_ip_addr_and_port junk my_transport rule sin_first addrlen_first sin_second addrlen_second;
    if (m : bool) then Ok (target_transport rule)
    else get_family_by_first_matching_rule junk my_transport rules sin_first addrlen_first sin_second addrlen_second
  end.

(** ** Rules that hold for the whole program *)

(** The rule looks at an address or at a port. *)
Definition specific (rule : use_family_rule) : bool :=
  match_by_addr (rule_first rule) || match_by_port (rule_first rule) ||
  (use_second rule && (match_by_addr (rule_second rule) || match_by_port (rule_second rule))).

Definition is_vma (t : transport_t) : bool := bool_decide (t = TRANS_VMA) || bool_decide (t = TRANS_ULP).

(** The loop of [match_by_all_rules_program]; [any_sdp] is never changed. *)
Fixpoint all_rules_loop (my_protocol : in_protocol_t) (any_vma any_os : Z) (rules : dbl_lst use_family_rule)
  : transport_t :=
  match rules with
  | [] => TRANS_DEFAULT
  | None :: rules => all_rules_loop my_protocol any_vma any_os rules
  | Some rule :: rules =>
    if (bool_decide (protocol rule = my_protocol) || bool_decide (my_protocol = PROTO_ALL)) && specific rule then
      if is_vma (target_transport rule) then all_rules_loop my_protocol (any_vma + 1) any_os rules
      else if bool_decide (target_transport rule = TRANS_OS) then all_rules_loop my_protocol any_vma (any_os + 1) rules
      else all_rules_loop my_protocol any_vma any_os rules
    else if bool_decide (protocol rule = my_protocol) && negb (specific rule) then
      if is_vma (target_transport rule) && (any_os =? 0) then TRANS_VMA
      else if bool_decide (target_transport rule = TRANS_OS) && (any_vma =? 0) then TRANS_OS
      else all_rules_loop my_protocol any_vma any_os rules
    else all_rules_loop my_protocol any_vma any_os rules
  end.

Definition match_by_all_rules_program (my_protocol : in_protocol_t) (rules : dbl_lst use_family_rule) : transport_t :=
  let target_family := all_rules_loop my_protocol 0 0 rules in
  if bool_decide (target_family = TRANS_DEFAULT) then TRANS_VMA else target_family.

(** ** The instances of the configuration *)

Section Instances.
Context (fnmatch : string -> string -> Z -> Z) (program_invocation_short_name : string).

Definition vma_config_empty (instances : dbl_lst instance) : bool :=
  match instances with [] => true | _ => false end.

Definition vma_match_program_name (i : option instance) : bool :=
  match i with
  | None => true
  | Some i => fnmatch (prog_name_expr i) program_invocation_short_name 0 =? 0
  end.

Definition vma_match_user_defined_id (i : option instance) (app_id : option string) : bool :=
  match i, app_id with
  | Some i, Some app =>
    match user_defined_id i with
    | None => true
    | Some id => bool_decide (app = "*"%string) || bool_decide (id = "*"%string) || bool_decide (app = id)
    end
  | _, _ => true
  end.

(** The rules of a role, and whether they look at the second address. *)
Definition role_rules (role : role_t) (i : instance) : dbl_lst use_family_rule :=
  match role with
  | ROLE_TCP_SERVER => tcp_srv_rules_lst i
  | ROLE_TCP_CLIENT => tcp_clt_rules_lst i
  | ROLE_UDP_SENDER => udp_snd_rules_lst i
  | ROLE_UDP_RECEIVER => udp_rcv_rules_lst i
  | ROLE_UDP_CONNECT => udp_con_rules_lst i
  end.
Definition role_second (role : role_t) : bool :=
  match role with ROLE_TCP_CLIENT | ROLE_UDP_CONNECT => true | _ => false end.

Fixpoint instances_loop (junk : bytes) (my_transport : transport_t) (role : role_t) (app_id : option string)
    (sin_first : bytes) (addrlen_first : Z) (sin_second : option bytes) (addrlen_second : Z)
    (instances : dbl_lst instance) : res transport_t :=
  match instances with
  | [] => Ok TRANS_VMA
  | None :: instances =>
    instances_loop junk my_transport role app_id sin_first addrlen_first sin_second addrlen_second instances
  | Some i :: instances =>
    t ← (if vma_match_program_name (Some i) && vma_match_user_defined_id (Some i) app_id then
           get_family_by_first_matching_rule junk my_transport (role_rules role i) sin_first addrlen_first
             (if role_second role then sin_second else None) (if role_second role then addrlen_second else 0)
         else Ok TRANS_DEFAULT);
    if bool_decide (t = TRANS_DEFAULT) then
      instances_loop junk my_transport role app_id sin_first addrlen_first sin_second addrlen_second instances
    else Ok t
  end.

Definition get_family_by_instance_first_matching_rule (junk : bytes) (my_transport : transport_t) (role : role_t)
    (app_id : option string) (sin_first : bytes) (addrlen_first : Z) (sin_second : option bytes) (addrlen_second : Z)
    (instances : dbl_lst instance) : res transport_t :=
  if vma_config_empty instances then Ok TRANS_VMA
  else instances_loop junk my_transport role app_id sin_first addrlen_first sin_second addrlen_second instances.

Definition vma_match_tcp_server junk my_transport app_id sin addrlen instances :=
  get_family_by_instance_first_matching_rule junk my_transport ROLE_TCP_SERVER app_id sin addrlen None 0 instances.
Definition vma_match_tcp_client junk my_transport app_id sin1 len1 sin2 len2 instances :=
  get_family_by_instance_first_matching_rule junk my_transport ROLE_TCP_CLIENT app_id sin1 len1 sin2 len2 instances.
Definition vma_match_udp_sender junk my_transport app_id sin addrlen instances :=
  get_family_by_instance_first_matching_rule junk my_transport ROLE_UDP_SENDER app_id sin addrlen None 0 instances.
Definition vma_match_udp_receiver junk my_transport app_id sin addrlen instances :=
  get_family_by_instance_first_matching_rule junk my_transport ROLE_UDP_RECEIVER app_id sin addrlen None 0 instances.
Definition vma_match_udp_connect junk my_transport app_id sin1 len1 sin2 len2 instances :=
  get_family_by_instance_first_matching_rule junk my_transport ROLE_UDP_CONNECT app_id sin1 len1 sin2 len2 instances.

(** What one instance says of the program: only if server and client agree. *)
Definition program_family (my_protocol : in_protocol_t) (i : instance) : transport_t * transport_t :=
  match my_protocol with
  | PROTO_TCP => (match_by_all_rules_program my_protocol (tcp_srv_rules_lst i),
                  match_by_all_rules_program my_protocol (tcp_clt_rules_lst i))
  | PROTO_UDP => (match_by_all_rules_program my_protocol (udp_rcv_rules_lst i),
                  match_by_all_rules_program my_protocol (udp_snd_rules_lst i))
  | _ => (TRANS_DEFAULT, TRANS_DEFAULT)
  end.

Fixpoint program_loop (my_protocol : in_protocol_t) (app_id : option string) (instances : dbl_lst instance)
  : transport_t :=
  match instances with
  | [] => TRANS_DEFAULT
  | None :: instances => program_loop my_protocol app_id instances
  | Some i :: instances =>
    if vma_match_program_name (Some i) && vma_match_user_defined_id (Some i) app_id then
      let '(server, client) := program_family my_protocol i in
      if bool_decide (server = client) && negb (bool_decide (server = TRANS_DEFAULT)) then server
      else program_loop my_protocol app_id instances
    else program_loop my_protocol app_id instances
  end.

(** [app_id] is compared with a string literal, so it must not be NULL. *)
Definition vma_match_by_program (my_protocol : in_protocol_t) (app_id : option string) (instances : dbl_lst instance)
  : res transport_t :=
  _ ← must app_id;
  Ok (if vma_config_empty instances then TRANS_VMA else program_loop my_protocol app_id instances).

End Instances.

(** ** Byte order and prefixes *)

Lemma testbit_byte x k s i : 0 <= s -> 0 <= k -> 0 <= i ->
  Z.testbit (Z.shiftl (Z.land (Z.shiftr x k) 255) s) i = (s <=? i) && (i <? s + 8) && Z.testbit x (i - s + k).
Proof.
  intros Hs Hk Hi. rewrite Z.shiftl_spec by done. destruct (s <=? i) eqn:E1; simpl.
  - rewrite Z.land_spec, Z.shiftr_spec by lia. replace 255 with (Z.ones 8) by done.
    rewrite Z.testbit_ones by lia. rewrite andb_comm. f_equal. rewrite (proj2 (Z.leb_le _ _)) by lia. simpl.
    destruct (i - s <? 8) eqn:E2, (i <? s + 8) eqn:E3; lia.
  - apply Z.testbit_neg_r. lia.
Qed.

(** The position of a bit after the bytes are reversed. *)
Definition swap_pos (i : Z) : Z := 24 - 8 * (i / 8) + i mod 8.

Lemma testbit_htonl x i : 0 <= i < 32 -> Z.testbit (htonl x) i = Z.testbit x (swap_pos i).
Proof.
  intros Hi. unfold htonl, swap_pos. rewrite !Z.lor_spec.
  replace (Z.land x 255) with (Z.land (Z.shiftr x 0) 255) by by rewrite Z.shiftr_0_r.
  replace (Z.land (Z.shiftr x 24) 255) with (Z.shiftl (Z.land (Z.shiftr x 24) 255) 0) by apply Z.shiftl_0_r.
  rewrite !testbit_byte by lia.
  pose proof (Z.div_mod i 8 ltac:(lia)) as Hd. pose proof (Z.mod_pos_bound i 8 ltac:(lia)) as Hm.
  set (q := i / 8) in *. set (r := i mod 8) in *.
  assert (q = 0 \/ q = 1 \/ q = 2 \/ q = 3) as Hq by lia.
  clearbody q r. destruct Hq as [->|[->|[->| ->]]];
    repeat match goal with |- context [?a <=? ?b] => first [rewrite (proj2 (Z.leb_le a b)) by lia | rewrite (proj2 (Z.leb_gt a b)) by lia] end;
    repeat match goal with |- context [?a <? ?b] => first [rewrite (proj2 (Z.ltb_lt a b)) by lia | rewrite (proj2 (Z.ltb_ge a b)) by lia] end;
    simpl; rewrite ?orb_false_r; f_equal; lia.
Qed.

Lemma swap_pos_range i : 0 <= i < 32 -> 0 <= swap_pos i < 32.
Proof. unfold swap_pos. intros. pose proof (Z.mod_pos_bound i 8 ltac:(lia)). pose proof (Z.div_mod i 8 ltac:(lia)). lia. Qed.

Lemma swap_pos_invol i : 0 <= i < 32 -> swap_pos (swap_pos i) = i.
Proof.
  intros Hi. pose proof (Z.mod_pos_bound i 8 ltac:(lia)). pose proof (Z.div_mod i 8 ltac:(lia)) as Hd. unfold swap_pos at 1.
  assert (swap_pos i / 8 = 3 - i / 8) as ->.
  { symmetry. apply (Z.div_unique _ _ _ (i mod 8)); [lia|]. unfold swap_pos. lia. }
  assert (swap_pos i mod 8 = i mod 8) as ->; [|lia].
  symmetry. apply (Z.mod_unique _ _ (3 - i / 8)); [lia|]. unfold swap_pos. lia.
Qed.

Lemma testbit_high x i : 0 <= x < 2 ^ 32 -> 32 <= i -> Z.testbit x i = false.
Proof. intros. apply (testbit_lt x 32); lia. Qed.

Lemma testbit_htonl_high x i : 32 <= i -> Z.testbit (htonl x) i = false.
Proof.
  intros Hi. unfold htonl. rewrite !Z.lor_spec.
  replace (Z.land x 255) with (Z.land (Z.shiftr x 0) 255) by by rewrite Z.shiftr_0_r.
  replace (Z.land (Z.shiftr x 24) 255) with (Z.shiftl (Z.land (Z.shiftr x 24) 255) 0) by apply Z.shiftl_0_r.
  rewrite !testbit_byte by lia.
  repeat match goal with |- context [?a <? ?b] => rewrite (proj2 (Z.ltb_ge a b)) by lia end. by rewrite !andb_false_r.
Qed.

Lemma VMA_NETMASK_bits n : 0 <= n <= 32 -> exists mask, VMA_NETMASK n = Ok mask /\
  forall i, 0 <= i < 32 -> Z.testbit (u32 mask) i = (32 - n <=? i).
Proof.
  intros Hn. unfold VMA_NETMASK. destruct (n =? 0) eqn:E0.
  - exists 0. split; [done|]. intros i Hi. rewrite Z.testbit_0_l. symmetry. apply Z.leb_gt. lia.
  - rewrite (proj2 (Z.ltb_ge 32 n)) by lia. eexists. split; [done|]. intros i Hi. unfold wrap.
    rewrite !Z.mod_pow2_bits_low by lia. rewrite Z.lnot_spec by lia. rewrite Z.shiftl_1_l.
    rewrite Z.sub_1_r, <- Z.ones_equiv, Z.testbit_ones by lia.
    rewrite (proj2 (Z.leb_le 0 i)) by lia. simpl. destruct (i <? 32 - n) eqn:E1, (32 - n <=? i) eqn:E2; simpl; lia.
Qed.

(** Masking in network order compares the leading bits in host order. *)
Lemma masked_prefix a b n mask : 0 <= n <= 32 -> 0 <= a < 2 ^ 32 -> 0 <= b < 2 ^ 32 ->
  (forall i, 0 <= i < 32 -> Z.testbit (u32 mask) i = (32 - n <=? i)) ->
  Z.land a (htonl (u32 mask)) = Z.land b (htonl (u32 mask)) <->
  Z.shiftr (htonl a) (32 - n) = Z.shiftr (htonl b) (32 - n).
Proof.
  intros Hn Ha Hb Hm. split; intros H; apply Z.bits_inj'; intros i Hi.
  - rewrite !Z.shiftr_spec by done. destruct (decide (i + (32 - n) < 32)) as [Hlt|Hge].
    + rewrite !testbit_htonl by lia. set (j := swap_pos (i + (32 - n))).
      assert (0 <= j < 32) as Hj by (apply swap_pos_range; lia).
      apply (f_equal (fun z => Z.testbit z j)) in H. rewrite !Z.land_spec, testbit_htonl in H by done.
      unfold j in H at 2 4. rewrite swap_pos_invol, Hm in H by lia.
      rewrite (proj2 (Z.leb_le _ _)), !andb_true_r in H by lia. done.
    + by rewrite !testbit_htonl_high by lia.
  - rewrite !Z.land_spec. destruct (decide (i < 32)) as [Hlt|Hge]; [|by rewrite (testbit_high a), (testbit_high b) by lia].
    rewrite testbit_htonl by lia. pose proof (swap_pos_range i ltac:(lia)) as Hr. rewrite Hm by done.
    destruct (32 - n <=? swap_pos i) eqn:E; [|by rewrite !andb_false_r]. rewrite !andb_true_r.
    apply (f_equal (fun z => Z.testbit z (swap_pos i - (32 - n)))) in H. rewrite !Z.shiftr_spec in H by lia.
    rewrite Z.sub_add, !testbit_htonl, swap_pos_invol in H by lia. done.
Qed.

(** ** IPv4 addresses and rules, in host order *)

(** The [sockaddr_in] of an address and a port. *)
Definition sockaddr_in (ip port : Z) : bytes :=
  [AF_INET; 0; port / 256; port mod 256; ip / 2 ^ 24; ip / 2 ^ 16 mod 256; ip / 2 ^ 8 mod 256; ip mod 256] ++ replicate 8 0.

Definition ipv4_range (ip : Z) : Prop := 0 <= ip < 2 ^ 32.
Definition port_range (p : Z) : Prop := 0 <= p < 2 ^ 16.

Lemma htonl_bytes x :
  htonl x = x mod 256 * 2 ^ 24 + (x / 2 ^ 8 mod 256 * 2 ^ 16 + (x / 2 ^ 16 mod 256 * 2 ^ 8 + x / 2 ^ 24 mod 256)).
Proof.
  unfold htonl. rewrite !land_255, !Z.shiftr_div_pow2, <- Z.lor_assoc by lia.
  assert (forall y, 0 <= y mod 256 < 256) as Hm by (intros; apply Z.mod_pos_bound; lia).
  pose proof (Hm (x / 2 ^ 24)). pose proof (Hm (x / 2 ^ 16)). pose proof (Hm (x / 2 ^ 8)).
  rewrite (lor_shiftl_add _ (x / 2 ^ 24 mod 256)), (lor_shiftl_add _ _ 16), (lor_shiftl_add _ _ 24) by lia. done.
Qed.

Lemma htonl_range x : 0 <= htonl x < 2 ^ 32.
Proof.
  rewrite htonl_bytes. assert (forall y, 0 <= y mod 256 < 256) as Hm by (intros; apply Z.mod_pos_bound; lia).
  pose proof (Hm x). pose proof (Hm (x / 2 ^ 24)). pose proof (Hm (x / 2 ^ 16)). pose proof (Hm (x / 2 ^ 8)). lia.
Qed.

Lemma htonl_invol x : ipv4_range x -> htonl (htonl x) = x.
Proof.
  intros Hx. apply Z.bits_inj'. intros i Hi. destruct (decide (i < 32)) as [Hlt|Hge].
  - pose proof (swap_pos_range i ltac:(lia)). by rewrite !testbit_htonl, swap_pos_invol by lia.
  - rewrite testbit_htonl_high, testbit_high by (unfold ipv4_range in *; lia). done.
Qed.

Lemma sockaddr_in_family ip port : sa_family (sockaddr_in ip port) = Ok AF_INET.
Proof. done. Qed.

Lemma sockaddr_in_port ip port : port_range port -> sa_port (sockaddr_in ip port) = Ok port.
Proof.
  unfold port_range. intros Hp. unfold sa_port, read16, read_bytes. simpl. f_equal.
  pose proof (Z.mod_pos_bound port 256 ltac:(lia)). pose proof (Z.div_mod port 256 ltac:(lia)).
  rewrite Z.mul_0_r, Z.add_0_r, ntohs_swap by lia. lia.
Qed.

Lemma sockaddr_in_addr ip port : ipv4_range ip -> sin_addr (sockaddr_in ip port) = Ok (htonl ip).
Proof.
  unfold ipv4_range. intros Hp. unfold sin_addr, read32, read_bytes. simpl. f_equal. rewrite htonl_bytes.
  rewrite (Z.mod_small (ip / 2 ^ 24)); [lia|].
  split; [apply Z.div_pos; lia|apply Z.div_lt_upper_bound; lia].
Qed.

(** What a rule asks of an endpoint. *)
Definition endpoint_ok (r : address_port_rule) (ip port : Z) : Prop :=
  (match_by_port r = true -> sport r <= port <= eport r) /\
  (match_by_addr r = true ->
     Z.shiftr (htonl (ipv4 r)) (32 - prefixlen r) = Z.shiftr ip (32 - prefixlen r)).
#[global] Instance endpoint_ok_dec r ip port : Decision (endpoint_ok r ip port).
Proof. unfold endpoint_ok. apply _. Defined.

Definition rule_wf (r : address_port_rule) : Prop := 0 <= prefixlen r <= 32 /\ ipv4_range (ipv4 r).

Lemma match_ipv4_addr_spec r ip port : rule_wf r -> ipv4_range ip ->
  match_ipv4_addr r (sockaddr_in ip port) =
  Ok (bool_decide (Z.shiftr (htonl (ipv4 r)) (32 - prefixlen r) = Z.shiftr ip (32 - prefixlen r))).
Proof.
  intros [Hp Hr] Hip. unfold match_ipv4_addr. destruct (VMA_NETMASK_bits _ Hp) as (mask & -> & Hm).
  cbn [mbind res_bind]. rewrite sockaddr_in_addr by done. cbn [mbind res_bind]. f_equal. apply eq_bool_prop_intro.
  rewrite bool_decide_spec, Is_true_true, Z.eqb_eq.
  rewrite (masked_prefix _ _ (prefixlen r)) by (try done; apply htonl_range). by rewrite htonl_invol.
Qed.

Lemma match_endpoint_spec junk r ip port : rule_wf r -> ipv4_range ip -> port_range port ->
  match_endpoint junk r (sockaddr_in ip port) 16 = Ok (bool_decide (endpoint_ok r ip port)).
Proof.
  intros Hr Hip Hp.
  assert (vma_sockaddr_to_vma (Some (sockaddr_in ip port)) 16 junk = Ok (0, sockaddr_in ip port)) as Hc by done.
  unfold match_endpoint. rewrite sockaddr_in_port by done. destruct (match_by_port r) eqn:Ep; cbn [mbind res_bind].
  - destruct (negb _) eqn:E; cbn [andb].
    + destruct (match_by_addr r) eqn:Ea.
      * rewrite Hc. cbn [mbind res_bind]. simpl negb. cbv iota. rewrite match_ipv4_addr_spec by done.
        f_equal. apply bool_decide_ext. unfold endpoint_ok. rewrite Ep, Ea. intuition lia.
      * f_equal. symmetry. apply bool_decide_eq_true. unfold endpoint_ok. rewrite Ep, Ea. intuition (done || lia).
    + f_equal. symmetry. apply bool_decide_eq_false. intros [H _]. specialize (H Ep). lia.
  - destruct (match_by_addr r) eqn:Ea; cbn [andb].
    + rewrite Hc. cbn [mbind res_bind]. simpl negb. cbv iota. rewrite match_ipv4_addr_spec by done.
      f_equal. apply bool_decide_ext. unfold endpoint_ok. rewrite Ep, Ea. intuition done.
    + f_equal. symmetry. apply bool_decide_eq_true. unfold endpoint_ok. rewrite Ep, Ea. done.
Qed.

(** ** The first rule that applies *)

(** An endpoint of a connection: address and port in host order. *)
Abbreviation endpoint := (Z * Z)%type.

Definition rule_applies (my_transport : transport_t) (rule : use_family_rule)
    (e1 : endpoint) (e2 : option endpoint) : Prop :=
  endpoint_ok (rule_first rule) (fst e1) (snd e1) /\
  match e2 with
  | Some e => use_second rule = true -> endpoint_ok (rule_second rule) (fst e) (snd e)
  | None => True
  end /\
  target_transport rule ∈ [TRANS_OS; TRANS_ULP; my_transport].
#[global] Instance rule_applies_dec t r e1 e2 : Decision (rule_applies t r e1 e2).
Proof. unfold rule_applies. destruct e2; apply _. Defined.

Definition endpoint_wf (e : endpoint) : Prop := ipv4_range (fst e) /\ port_range (snd e).
Definition family_rule_wf (rule : use_family_rule) : Prop :=
  rule_wf (rule_first rule) /\ rule_wf (rule_second rule) /\ target_transport rule <> TRANS_DEFAULT.

Lemma match_rule_spec junk t rule e1 e2 len2 : family_rule_wf rule -> endpoint_wf e1 ->
  (forall e, e2 = Some e -> endpoint_wf e /\ len2 = 16) ->
  match_ip_addr_and_port junk t rule (sockaddr_in (fst e1) (snd e1)) 16
    ((fun e => sockaddr_in (fst e) (snd e)) <$> e2) len2 = Ok (bool_decide (rule_applies t rule e1 e2)).
Proof.
  intros (W1 & W2 & _) [I1 P1] H2. unfold match_ip_addr_and_port. rewrite match_endpoint_spec by done. cbn [mbind res_bind].
  set (tr := bool_decide _ || bool_decide _ || _).
  assert (tr = bool_decide (target_transport rule ∈ [TRANS_OS; TRANS_ULP; t])) as Htr.
  { unfold tr. apply eq_bool_prop_intro. rewrite !orb_True, !bool_decide_spec, !elem_of_cons, elem_of_nil. tauto. }
  rewrite Htr. clearbody tr. clear Htr tr.
  destruct (bool_decide (endpoint_ok (rule_first rule) _ _)) eqn:E1; cbn [andb].
  - apply bool_decide_eq_true in E1. destruct e2 as [e|]; cbn [fmap option_fmap option_map].
    + destruct (use_second rule) eqn:Eu; cbn [mbind res_bind].
      * destruct (H2 e eq_refl) as [[I2 P2] ->]. rewrite match_endpoint_spec by done. cbn [mbind res_bind].
        f_equal. apply eq_bool_prop_intro. rewrite andb_True, !bool_decide_spec. unfold rule_applies. rewrite Eu. tauto.
      * f_equal. apply bool_decide_ext. unfold rule_applies. rewrite Eu. intuition done.
    + destruct (use_second rule); cbn [mbind res_bind]; f_equal; apply bool_decide_ext; unfold rule_applies; tauto.
  - apply bool_decide_eq_false in E1. cbn [mbind res_bind andb]. f_equal. symmetry. apply bool_decide_eq_false.
    unfold rule_applies. tauto.
Qed.

(** The reference: the head of the rules that apply. *)
Definition first_family (t : transport_t) (e1 : endpoint) (e2 : option endpoint) (rules : dbl_lst use_family_rule)
  : transport_t :=
  match filter (fun r => rule_applies t r e1 e2) (omap id rules) with
  | [] => TRANS_VMA
  | r :: _ => target_transport r
  end.

Lemma first_rule_spec junk t rules e1 e2 len2 : Forall family_rule_wf (omap id rules) -> endpoint_wf e1 ->
  (forall e, e2 = Some e -> endpoint_wf e /\ len2 = 16) ->
  get_family_by_first_matching_rule junk t rules (sockaddr_in (fst e1) (snd e1)) 16
    ((fun e => sockaddr_in (fst e) (snd e)) <$> e2) len2 = Ok (first_family t e1 e2 rules).
Proof.
  intros Hw He1 He2. unfold first_family. induction rules as [|[r|] rules IH]; simpl in *; [done| |by apply IH].
  apply Forall_cons in Hw as [Hr Hw]. rewrite match_rule_spec by done. cbn [mbind res_bind].
  rewrite filter_cons. case_bool_decide; [by rewrite decide_True by done|]. rewrite decide_False by done. by apply IH.
Qed.

Lemma first_family_not_default t e1 e2 rules : Forall family_rule_wf (omap id rules) ->
  first_family t e1 e2 rules <> TRANS_DEFAULT.
Proof.
  intros Hw. unfold first_family. destruct (filter _ _) as [|r l] eqn:E; [done|].
  assert (r ∈ omap id rules) as Hr. { eapply list_elem_of_filter with (P := fun r => rule_applies t r e1 e2). rewrite E. left. }
  rewrite Forall_forall in Hw. apply (Hw r Hr).
Qed.

Section Family.
Context (fnmatch : string -> string -> Z -> Z) (program_invocation_short_name : string).

(** The instances of this program and application. *)
Definition ours (app_id : option string) (i : instance) : Prop :=
  vma_match_program_name fnmatch program_invocation_short_name (Some i) &&
  vma_match_user_defined_id (Some i) app_id = true.
#[global] Instance ours_dec app_id i : Decision (ours app_id i).
Proof. unfold ours. apply _. Defined.

(** The reference: the first rule that applies in the first instance that
    is ours; VMA when there is none. *)
Definition family (t : transport_t) (role : role_t) (app_id : option string) (e1 : endpoint) (e2 : option endpoint)
    (instances : dbl_lst instance) : transport_t :=
  match filter (ours app_id) (omap id instances) with
  | [] => TRANS_VMA
  | i :: _ => first_family t e1 (if role_second role then e2 else None) (role_rules role i)
  end.

(** C28: A socket's transport is decided by the first rule that applies, in
    the first instance of the configuration whose program pattern and
    application id match: a rule applies when the port is in its range, the
    address has its prefix (compared in host order), the second endpoint
    fits too for the roles that have one, and its transport is the caller's,
    the operating system's or ULP; without such a rule VMA is used. *)
Theorem match_first_rule junk t role app_id e1 e2 instances :
  endpoint_wf e1 -> (forall e, e2 = Some e -> endpoint_wf e) ->
  Forall (fun i => Forall family_rule_wf (omap id (role_rules role i))) (omap id instances) ->
  get_family_by_instance_first_matching_rule fnmatch program_invocation_short_name junk t role app_id
    (sockaddr_in (fst e1) (snd e1)) 16 ((fun e => sockaddr_in (fst e) (snd e)) <$> e2) 16 instances =
  Ok (family t role app_id e1 e2 instances).
Proof.
  intros He1 He2 Hw. unfold get_family_by_instance_first_matching_rule, family.
  destruct instances as [|i0 instances0]; [done|]. cbn [vma_config_empty]. generalize (i0 :: instances0) Hw. clear i0 instances0 Hw.
  intros instances Hw. induction instances as [|[i|] instances IH]; [done| |by apply IH]. cbn [instances_loop].
  change (omap id (Some i :: instances)) with (i :: omap id instances) in *.
  apply Forall_cons in Hw as [Hi Hw]. rewrite filter_cons. destruct (decide (ours app_id i)) as [Ho|Ho]; unfold ours in Ho.
  2: { apply not_true_is_false in Ho. rewrite Ho. by apply IH. }
  rewrite Ho.
  assert (forall e, (if role_second role then e2 else None) = Some e ->
            endpoint_wf e /\ (if role_second role then 16 else 0) = 16) as H2.
  { intros e. destruct (role_second role); [|done]. intros H. split; [by apply He2|done]. }
  pose proof (first_rule_spec junk t (role_rules role i) e1 _ _ Hi He1 H2) as Hf.
  assert ((fun e => sockaddr_in (fst e) (snd e)) <$> (if role_second role then e2 else None) =
          if role_second role then (fun e => sockaddr_in (fst e) (snd e)) <$> e2 else None) as E by by destruct (role_second role).
  rewrite E in Hf. rewrite Hf. cbn [mbind res_bind]. rewrite bool_decide_eq_false_2; [done|].
  by apply first_family_not_default.
Qed.
End Family.

(** A pattern language with only literal names, and a small configuration. *)
Definition literal_fnmatch (pattern name : string) (flags : Z) : Z := if decide (pattern = name) then 0 else 1.

Definition port_rule (ports : option Z) (t : transport_t) : option use_family_rule :=
  let any := AddressPortRule false 0 0 false 0 0 in
  Some (UseFamilyRule
    (match ports with Some p => AddressPortRule false 0 0 true p p | None => any end) any false t PROTO_TCP).

Definition example_rule : use_family_rule :=
  UseFamilyRule (AddressPortRule true (htonl 3232235776) 24 true 80 90) (AddressPortRule false 0 0 false 0 0) false
    TRANS_OS PROTO_TCP.
Definition example_instance (rules : dbl_lst use_family_rule) : option instance :=
  Some (MkInstance "server" (Some "*"%string) [] rules [] [] []).

(** 192.168.1.7:85 is in 192.168.1.0/24:80-90. *)
Lemma match_first_rule_witness :
  get_family_by_instance_first_matching_rule literal_fnmatch "server" [] TRANS_VMA ROLE_TCP_SERVER (Some "app"%string)
    (sockaddr_in 3232235783 85) 16 None 16 [None; example_instance [port_rule (Some 22) TRANS_VMA; Some example_rule]] =
  Ok TRANS_OS.
Proof.
  rewrite (match_first_rule literal_fnmatch "server" [] TRANS_VMA ROLE_TCP_SERVER (Some "app"%string) (3232235783, 85) None).
  - vm_compute. reflexivity.
  - split; vm_compute; split; (discriminate || reflexivity).
  - intros e [=].
  - repeat constructor; vm_compute; try discriminate; reflexivity.
Defined.

(** ** The verdict for the whole program *)

Lemma not_specific_matches junk t rule a1 l1 a2 l2 : specific rule = false ->
  target_transport rule ∈ [TRANS_OS; TRANS_ULP; t] -> match_ip_addr_and_port junk t rule a1 l1 a2 l2 = Ok true.
Proof.
  unfold specific. rewrite !orb_false_iff, andb_false_iff, orb_false_iff. intros [[Ha Hp] H2] Ht.
  unfold match_ip_addr_and_port, match_endpoint. rewrite Ha, Hp. cbn [mbind res_bind andb].
  assert ((bool_decide (target_transport rule = TRANS_OS) || bool_decide (target_transport rule = TRANS_ULP) ||
           bool_decide (target_transport rule = t)) = true) as E.
  { apply Is_true_true. rewrite !orb_True, !bool_decide_spec. rewrite !elem_of_cons, elem_of_nil in Ht. tauto. }
  destruct (use_second rule); [|cbn [mbind res_bind andb]; by rewrite E].
  destruct H2 as [|[Ha2 Hp2]]; [done|]. destruct a2; [rewrite Ha2, Hp2|]; cbn [mbind res_bind andb]; by rewrite E.
Qed.

Lemma matched_target junk t rule a1 l1 a2 l2 : match_ip_addr_and_port junk t rule a1 l1 a2 l2 = Ok true ->
  target_transport rule ∈ [TRANS_OS; TRANS_ULP; t].
Proof.
  unfold match_ip_addr_and_port. intros (m1 & _ & (m2 & _ & H)%bind_Ok)%bind_Ok. injection H as H.
  apply andb_true_iff in H as [_ H]. apply Is_true_true in H. rewrite !orb_True, !bool_decide_spec in H.
  rewrite !elem_of_cons, elem_of_nil. tauto.
Qed.

(** Once a rule for VMA was seen, the loop no longer answers OS. *)
Lemma all_rules_loop_vma p v o rules : 0 < v -> all_rules_loop p v o rules <> TRANS_OS.
Proof.
  revert v o. induction rules as [|[r|] rules IH]; intros v o Hv; simpl; [done| |by apply IH].
  rewrite (proj2 (Z.eqb_neq v 0)), andb_false_r by lia. repeat case_match; try done; apply IH; lia.
Qed.

(** When the rules of a role make the whole program use the operating
    system, then every single address is given to it as well: no rule that
    would have kept a socket on VMA is bypassed.  This holds for rule lists
    in which no rule without address and port asks for VMA. *)
Theorem match_program_os junk p rules a1 l1 a2 l2 t : p <> PROTO_ALL ->
  Forall (fun r => protocol r = p /\ (specific r = false -> is_vma (target_transport r) = false)) (omap id rules) ->
  match_by_all_rules_program p rules = TRANS_OS ->
  get_family_by_first_matching_rule junk TRANS_VMA rules a1 l1 a2 l2 = Ok t -> t = TRANS_OS.
Proof.
  intros Hp Hr Hos. unfold match_by_all_rules_program in Hos.
  assert (all_rules_loop p 0 0 rules = TRANS_OS) as Hl by (case_bool_decide; done). clear Hos.
  revert Hl. generalize 0 at 2. induction rules as [|[r|] rules IH]; intros o Hl; [done| |by eapply IH].
  change (omap id (Some r :: rules)) with (r :: omap id rules) in Hr. apply Forall_cons in Hr as [[Hpr Hg] Hr].
  cbn [all_rules_loop get_family_by_first_matching_rule] in *.
  rewrite (bool_decide_eq_true_2 _ Hpr) in Hl. cbn [orb andb] in Hl.
  intros (m & Hm & Hf)%bind_Ok. destruct (specific r) eqn:Es; cbn [negb] in Hl.
  - unfold is_vma in Hl. destruct (bool_decide (target_transport r = TRANS_VMA) || _) eqn:Ev.
    + by apply all_rules_loop_vma in Hl.
    + case_bool_decide as Eo; (destruct m; [injection Hf as <-; apply matched_target in Hm|by eapply IH]).
      * done.
      * rewrite orb_false_iff, !bool_decide_eq_false in Ev. rewrite !elem_of_cons, elem_of_nil in Hm. tauto.
  - rewrite Hg in Hl by done. cbn [andb] in Hl. rewrite andb_true_r in Hl. case_bool_decide as Eo.
    + rewrite not_specific_matches in Hm; [|done|rewrite Eo; left]. injection Hm as <-. injection Hf as <-. done.
    + destruct m; [injection Hf as <-; apply matched_target in Hm|by eapply IH].
      specialize (Hg eq_refl). unfold is_vma in Hg. rewrite orb_false_iff, !bool_decide_eq_false in Hg.
      rewrite !elem_of_cons, elem_of_nil in Hm. tauto.
Qed.

Lemma match_program_os_witness : exists t,
  get_family_by_first_matching_rule [] TRANS_VMA [port_rule (Some 22) TRANS_OS; port_rule None TRANS_OS]
    (sockaddr_in 1 80) 16 None 0 = Ok t /\ t = TRANS_OS.
Proof.
  exists TRANS_OS. assert (forall t, get_family_by_first_matching_rule [] TRANS_VMA
    [port_rule (Some 22) TRANS_OS; port_rule None TRANS_OS] (sockaddr_in 1 80) 16 None 0 = Ok t -> t = TRANS_OS) as H.
  { intros t Ht. refine (match_program_os [] PROTO_TCP _ _ _ _ _ t _ _ _ Ht); [discriminate|repeat constructor|reflexivity]. }
  split; [vm_compute; reflexivity|apply H; vm_compute; reflexivity].
Defined.

(** The proviso is needed: with a rule for one port on the operating
    system, a rule for everything on VMA and a second one for everything on
    the operating system, the whole program is taken from VMA although the
    first rule that applies to port 80 asks for VMA. *)
Theorem match_program_bypass :
  let rules := [port_rule (Some 22) TRANS_OS; port_rule None TRANS_VMA; port_rule None TRANS_OS] in
  match_by_all_rules_program PROTO_TCP rules = TRANS_OS /\
  get_family_by_first_matching_rule [] TRANS_VMA rules (sockaddr_in 1 80) 16 None 0 = Ok TRANS_VMA.
Proof. vm_compute. done. Qed.

(** An address of family 0 is copied with the caller's length into a
    [sockaddr_in] of 16 bytes: with any longer length the copy leaves the
    object. *)
Lemma match_unspec_overflow junk r a addrlen : sa_family a = Ok 0 -> match_by_addr r = true -> match_by_port r = false ->
  16 < addrlen -> match_endpoint junk r a addrlen = Undef.
Proof.
  intros Hf Ha Hp Hl. unfold match_endpoint, vma_sockaddr_to_vma. rewrite Ha, Hp. cbn [mbind res_bind andb].
  rewrite Hf. cbn [mbind res_bind]. change (0 =? AF_INET) with false. change (0 =? AF_INET6) with false.
  change (0 =? 0) with true. cbv iota. change (Z.of_nat SOCKADDR_IN_SIZE) with 16.
  by rewrite (proj2 (Z.ltb_lt _ _)) by lia.
Qed.
