(* ===== verification/RingAlloc.v ===== *)
(** * Which ring a socket uses (src/vma/dev/ring_allocation_logic.cpp,
      ring_profile.cpp and the key of net_device_val.cpp)

    A ring is found by a key made of the allocation logic, a ring profile and
    an id that the logic computes (socket, thread, core, ...).  This file
    models the key with its hash, the logic that recommends to migrate to
    another ring, the assignment of threads to cores and the collection of
    ring profiles.  What the operating system reports (thread id, core,
    affinity) is an argument. *)

From stdpp Require Import pretty.
From S2P Require Import Prelude.

(** ** The key of a ring *)

Inductive ring_logic_t :=
| RING_LOGIC_PER_INTERFACE
| RING_LOGIC_PER_SOCKET
| RING_LOGIC_PER_USER_ID
| RING_LOGIC_PER_THREAD
| RING_LOGIC_PER_CORE
| RING_LOGIC_PER_CORE_ATTACH_THREADS
| RING_LOGIC_LAST.

#[global] Instance ring_logic_eq_dec : EqDecision ring_logic_t.
Proof. solve_decision. Defined.

Definition logic_code (l : ring_logic_t) : Z :=
  match l with
  | RING_LOGIC_PER_INTERFACE => 0
  | RING_LOGIC_PER_SOCKET => 10
  | RING_LOGIC_PER_USER_ID => 11
  | RING_LOGIC_PER_THREAD => 20
  | RING_LOGIC_PER_CORE => 30
  | RING_LOGIC_PER_CORE_ATTACH_THREADS => 31
  | RING_LOGIC_LAST => 32
  end.

Record ring_alloc_logic_attr := RingAttr {
  m_hash : Z;
  m_ring_alloc_logic : ring_logic_t;
  m_ring_profile_key : Z;
  m_user_id_key : Z
}.

(** The text "%d%d%ld" of the three fields; the id is printed as a signed
    long. *)
Definition attr_text (l : ring_logic_t) (profile user_id : Z) : string :=
  (pretty (logic_code l) +:+ pretty profile +:+ pretty (i64 user_id))%string.

(** [h * 33 + c] over the characters, from 5381. *)
Fixpoint hash_text (h : Z) (s : string) : Z :=
  match s with
  | EmptyString => h
  | String c s => hash_text (u64 (Z.shiftl h 5 + h + Z.of_N (Ascii.N_of_ascii c))) s
  end.

Definition attr_init (l : ring_logic_t) (profile user_id : Z) : ring_alloc_logic_attr :=
  RingAttr (hash_text 5381 (attr_text l profile user_id)) l profile user_id.

Definition new_attr (l : ring_logic_t) : ring_alloc_logic_attr := attr_init l 0 0.

Definition set_ring_alloc_logic (l : ring_logic_t) (k : ring_alloc_logic_attr) : ring_alloc_logic_attr :=
  if decide (m_ring_alloc_logic k = l) then k else attr_init l (m_ring_profile_key k) (m_user_id_key k).
Definition set_ring_profile_key (p : Z) (k : ring_alloc_logic_attr) : ring_alloc_logic_attr :=
  if decide (m_ring_profile_key k = p) then k else attr_init (m_ring_alloc_logic k) p (m_user_id_key k).
Definition set_user_id_key (u : Z) (k : ring_alloc_logic_attr) : ring_alloc_logic_attr :=
  if decide (m_user_id_key k = u) then k else attr_init (m_ring_alloc_logic k) (m_ring_profile_key k) u.

(** [operator==]: the hash is not compared. *)
Definition attr_eqb (a b : ring_alloc_logic_attr) : bool :=
  bool_decide (m_ring_alloc_logic a = m_ring_alloc_logic b) && (m_ring_profile_key a =? m_ring_profile_key b) &&
  (m_user_id_key a =? m_user_id_key b).

(** ** Threads and cores *)

Definition MAX_CPU : nat := 1024.
Definition NO_CPU : Z := -1.

(** The manager's counters and the calling thread's [g_n_thread_cpu_core]. *)
Record cpu_state := CpuState { m_cpu_thread_count : list Z; g_n_thread_cpu_core : Z }.

Definition cpu_manager_reset : list Z := replicate MAX_CPU 0.

(** A [cpu_set_t]: bit [i] for core [i]. *)
Abbreviation cpu_set := (list bool).
Definition CPU_ISSET (i : Z) (s : cpu_set) : bool := default false (lookupZ s i).
Definition CPU_COUNT (s : cpu_set) : Z := Z.of_nat (length (filter (fun b => b = true) s)).

(** [for (cpu = 0; cpu < MAX_CPU && !CPU_ISSET(cpu)); cpu++)]: the first set
    bit of [s], which starts at core [cpu]. *)
Fixpoint first_cpu (cpu : Z) (s : cpu_set) : Z :=
  match s with
  | [] => cpu
  | true :: _ => cpu
  | false :: s => first_cpu (cpu + 1) s
  end.

(** The loop that looks for the least used core: [s] and [counts] start at
    core [i]; [j] cores were seen. *)
Fixpoint least_used (avail i j min_cpu_count cpu : Z) (s : cpu_set) (counts : list Z) : Z * Z :=
  match s, counts with
  | b :: s, c :: counts =>
    if j <? avail then
      if negb b then least_used avail (i + 1) j min_cpu_count cpu s counts
      else if (min_cpu_count <? 0) || (c <? min_cpu_count) then least_used avail (i + 1) (j + 1) c i s counts
      else least_used avail (i + 1) (j + 1) min_cpu_count cpu s counts
    else (min_cpu_count, cpu)
  | _, _ => (min_cpu_count, cpu)
  end.

(** The thread keeps the core, and the manager counts it. *)
Definition record_cpu (cpu : Z) (st : cpu_state) : res (Z * cpu_state) :=
  let counts := m_cpu_thread_count st in
  if (NO_CPU <? cpu) && (cpu <? Z.of_nat MAX_CPU) then
    c ← must (lookupZ counts cpu);
    Ok (cpu, CpuState (insertZ cpu (i32 (c + 1)) counts) cpu)
  else Ok (cpu, CpuState counts cpu).

(** [getaffinity]: [None] when it fails; [setaffinity]: its return code. *)
Definition reserve_cpu_for_thread (getaffinity : option cpu_set) (setaffinity : Z -> Z) (suggested_cpu : Z)
    (st : cpu_state) : res (Z * cpu_state) :=
  let cpu := g_n_thread_cpu_core st in
  if negb (cpu =? NO_CPU) then Ok (cpu, st)
  else
    match getaffinity with
    | None => Ok (-1, st)
    | Some set =>
      let avail_cpus := CPU_COUNT set in
      if avail_cpus =? 0 then Ok (-1, st)
      else if avail_cpus =? 1 then record_cpu (first_cpu 0 set) st
      else
        let '(min_cpu_count, cpu) := least_used avail_cpus 0 0 (-1) cpu set (m_cpu_thread_count st) in
        cpu ← (if (0 <=? suggested_cpu) && CPU_ISSET suggested_cpu set then
                 c ← must (lookupZ (m_cpu_thread_count st) suggested_cpu);
                 Ok (if c <=? min_cpu_count + 1 then suggested_cpu else cpu)
               else Ok cpu);
        if negb (setaffinity cpu =? 0) then Ok (-1, st) else record_cpu cpu st
    end.

(** ** The allocation logic of a socket *)

Definition CANDIDATE_STABILITY_ROUNDS : Z := 20.
Definition START_RING_INDEX : Z := 1.

(** What the call observes: the calling thread, the core it runs on, whether
    a control thread is configured, and the library's internal thread. *)
Record thread_env := ThreadEnv {
  env_self : Z;
  env_cpu : Z;
  env_ctl_thread : bool;
  g_n_internal_thread_id : Z
}.

Record ring_allocation_logic := Ral {
  m_ring_migration_ratio : Z;
  m_fd : Z;
  m_migration_try_count : Z;
  m_migration_candidate : Z;
  m_res_key : ring_alloc_logic_attr
}.

Definition set_try (n : Z) (r : ring_allocation_logic) :=
  Ral (m_ring_migration_ratio r) (m_fd r) n (m_migration_candidate r) (m_res_key r).
Definition set_candidate (c : Z) (r : ring_allocation_logic) :=
  Ral (m_ring_migration_ratio r) (m_fd r) (m_migration_try_count r) c (m_res_key r).
Definition set_res_key (k : ring_alloc_logic_attr) (r : ring_allocation_logic) :=
  Ral (m_ring_migration_ratio r) (m_fd r) (m_migration_try_count r) (m_migration_candidate r) k.

(** Negative ints are converted to [uint64_t]. *)
Definition calc_res_key_by_logic (e : thread_env) (r : ring_allocation_logic) : Z :=
  match m_ring_alloc_logic (m_res_key r) with
  | RING_LOGIC_PER_INTERFACE => if env_ctl_thread e then 1 else 0
  | RING_LOGIC_PER_SOCKET => u64 (m_fd r)
  | RING_LOGIC_PER_USER_ID => m_user_id_key (m_res_key r)
  | RING_LOGIC_PER_THREAD => u64 (env_self e)
  | RING_LOGIC_PER_CORE | RING_LOGIC_PER_CORE_ATTACH_THREADS => u64 (env_cpu e)
  | RING_LOGIC_LAST => 0
  end.

(** The constructor; it may set the logic of the profile it is given. *)
Definition new_ring_allocation_logic (e : thread_env) (allocation_logic : ring_logic_t) (ring_migration_ratio fd : Z)
    (ring_profile : ring_alloc_logic_attr) : ring_allocation_logic * ring_alloc_logic_attr :=
  let ring_profile :=
    if bool_decide (m_ring_alloc_logic ring_profile = RING_LOGIC_PER_INTERFACE) &&
       (m_ring_profile_key ring_profile <? START_RING_INDEX)
    then set_ring_alloc_logic allocation_logic ring_profile else ring_profile in
  let r := Ral ring_migration_ratio fd ring_migration_ratio 0 ring_profile in
  (set_res_key (set_user_id_key (calc_res_key_by_logic e r) (m_res_key r)) r, ring_profile).

Definition create_new_key (e : thread_env) (getaffinity : option cpu_set) (setaffinity : Z -> Z) (suggested_cpu : Z)
    (cs : cpu_state) (r : ring_allocation_logic) : res (cpu_state * ring_allocation_logic) :=
  let fallback := set_res_key (set_user_id_key (calc_res_key_by_logic e r) (m_res_key r)) r in
  if bool_decide (m_ring_alloc_logic (m_res_key r) = RING_LOGIC_PER_CORE_ATTACH_THREADS) then
    '(cpu, cs) ← reserve_cpu_for_thread getaffinity setaffinity suggested_cpu cs;
    if 0 <=? cpu then Ok (cs, set_res_key (set_user_id_key cpu (m_res_key r)) r) else Ok (cs, fallback)
  else Ok (cs, fallback).

(** The last part of [should_migrate_ring], once the rounds are counted. *)
Definition decide_migration (e : thread_env) (r : ring_allocation_logic) : bool * ring_allocation_logic :=
  if m_migration_candidate r =? 0 then
    let curr_id := m_user_id_key (m_res_key r) in
    let new_id := calc_res_key_by_logic e r in
    if (new_id =? curr_id) || (g_n_internal_thread_id e =? curr_id) then (false, r)
    else (false, set_candidate new_id r)
  else (true, set_candidate 0 r).

Definition should_migrate_ring (e : thread_env) (r : ring_allocation_logic) : bool * ring_allocation_logic :=
  if logic_code (m_ring_alloc_logic (m_res_key r)) <? logic_code RING_LOGIC_PER_THREAD then (false, r)
  else if m_ring_migration_ratio r <? 0 then (false, r)
  else
    let has_candidate := negb (m_migration_candidate r =? 0) in
    let count_max := if has_candidate then CANDIDATE_STABILITY_ROUNDS else m_ring_migration_ratio r in
    if has_candidate && negb (m_migration_candidate r =? calc_res_key_by_logic e r)
    then (false, set_try 0 (set_candidate 0 r))
    else if m_migration_try_count r <? count_max
    then (false, set_try (m_migration_try_count r + 1) r)
    else decide_migration e (set_try 0 r).

(** ** Ring profiles *)

Inductive vma_ring_type := VMA_RING_PACKET | VMA_RING_CYCLIC_BUFFER | VMA_RING_EXTERNAL_MEM.

#[global] Instance vma_ring_type_eq_dec : EqDecision vma_ring_type.
Proof. solve_decision. Defined.

Record vma_cyclic_buffer_ring_attr := CbAttr {
  cb_comp_mask : Z; cb_num : Z; cb_stride_bytes : Z; cb_hdr_bytes : Z; cb_packet_receive_mode : Z
}.

#[global] Instance cb_eq_dec : EqDecision vma_cyclic_buffer_ring_attr.
Proof. solve_decision. Defined.

(** [ring_comp_mask] is the mask of the packet or external-memory variant. *)
Record vma_ring_type_attr := RingTypeAttr {
  rt_comp_mask : Z; ring_type : vma_ring_type; ring_cyclicb : vma_cyclic_buffer_ring_attr; ring_comp_mask : Z
}.

#[global] Instance ring_type_attr_eq_dec : EqDecision vma_ring_type_attr.
Proof. solve_decision. Defined.

Record ring_profile := RingProfile { m_str : string; m_ring_desc : vma_ring_type_attr }.

Definition VMA_CB_HDR_BYTE : Z := 1.

Definition get_vma_ring_type_str (t : vma_ring_type) : string :=
  match t with
  | VMA_RING_PACKET => "VMA_PKTS_RING"
  | VMA_RING_CYCLIC_BUFFER => "VMA_CB_RING"
  | VMA_RING_EXTERNAL_MEM => "VMA_EXTERNAL_MEM_RING"
  end.

Definition create_string (d : vma_ring_type_attr) : string :=
  match ring_type d with
  | VMA_RING_CYCLIC_BUFFER =>
    (get_vma_ring_type_str (ring_type d) +:+ " packets_num:" +:+ pretty (cb_num (ring_cyclicb d)) +:+
     " stride_bytes:" +:+ pretty (cb_stride_bytes (ring_cyclicb d)) +:+
     " hdr size:" +:+ pretty (cb_hdr_bytes (ring_cyclicb d)))%string
  | t => get_vma_ring_type_str t
  end.

(** The constructor copies the fields of the variant into a zeroed object. *)
Definition new_ring_profile (d : vma_ring_type_attr) : ring_profile :=
  let zero := CbAttr 0 0 0 0 0 in
  let d' :=
    match ring_type d with
    | VMA_RING_CYCLIC_BUFFER =>
      let r := ring_cyclicb d in
      let hdr := if Z.land (cb_comp_mask r) VMA_CB_HDR_BYTE =? 0 then 0 else cb_hdr_bytes r in
      RingTypeAttr (rt_comp_mask d) (ring_type d)
        (CbAttr (cb_comp_mask r) (cb_num r) (cb_stride_bytes r) hdr (cb_packet_receive_mode r)) 0
    | t => RingTypeAttr (rt_comp_mask d) t zero (ring_comp_mask d)
    end in
  RingProfile (create_string d') d'.

(** [m_str.compare(...)] is zero when the strings are equal. *)
Definition profile_eqb (p : ring_profile) (d : vma_ring_type_attr) : bool :=
  negb (bool_decide (m_str p = m_str (new_ring_profile d))).

Record ring_profiles_collection := Profiles { m_profs_map : gmap Z ring_profile; m_curr_idx : Z }.

Definition new_ring_profiles : ring_profiles_collection := Profiles ∅ START_RING_INDEX.

(** The iteration order of the hash map is that of the library ([iter]). *)
Definition add_profile (iter : gmap Z ring_profile -> list (Z * ring_profile)) (d : vma_ring_type_attr)
    (c : ring_profiles_collection) : Z * ring_profiles_collection :=
  match list_find (fun x => profile_eqb (snd x) d = true) (iter (m_profs_map c)) with
  | Some (_, (key, _)) => (key, c)
  | None =>
    let key := m_curr_idx c in
    (key, Profiles (<[key := new_ring_profile d]> (m_profs_map c)) (i32 (key + 1)))
  end.

Definition get_profile (key : Z) (c : ring_profiles_collection) : option ring_profile := m_profs_map c !! key.

(** ** Equal keys have equal hashes *)

(** The keys a program can build. *)
Inductive built : ring_alloc_logic_attr -> Prop :=
| built_new l : built (new_attr l)
| built_logic l k : built k -> built (set_ring_alloc_logic l k)
| built_profile p k : built k -> built (set_ring_profile_key p k)
| built_user u k : built k -> built (set_user_id_key u k).

Definition hash_of (k : ring_alloc_logic_attr) : Z :=
  hash_text 5381 (attr_text (m_ring_alloc_logic k) (m_ring_profile_key k) (m_user_id_key k)).

Lemma built_hash k : built k -> m_hash k = hash_of k.
Proof.
  induction 1; [done|..]; unfold set_ring_alloc_logic, set_ring_profile_key, set_user_id_key; by case_decide.
Qed.

Lemma attr_eqb_spec a b : attr_eqb a b = true <->
  m_ring_alloc_logic a = m_ring_alloc_logic b /\ m_ring_profile_key a = m_ring_profile_key b /\
  m_user_id_key a = m_user_id_key b.
Proof. unfold attr_eqb. rewrite !andb_true_iff, bool_decide_eq_true, !Z.eqb_eq. tauto. Qed.

(** The equality and the hash of ring keys fit together as the hash maps
    of rings need: two keys built by the constructor and the setters that
    compare equal have the same hash, because every setter that changes a
    field recomputes it. *)
Theorem ring_key_hash a b : built a -> built b -> attr_eqb a b = true -> m_hash a = m_hash b.
Proof.
  intros Ha Hb (E1 & E2 & E3)%attr_eqb_spec. rewrite (built_hash a), (built_hash b) by done.
  unfold hash_of. by rewrite E1, E2, E3.
Qed.

Lemma ring_key_hash_witness :
  m_hash (set_user_id_key 7 (set_ring_alloc_logic RING_LOGIC_PER_SOCKET (new_attr RING_LOGIC_PER_THREAD))) =
  m_hash (set_ring_alloc_logic RING_LOGIC_PER_SOCKET (set_user_id_key 7 (new_attr RING_LOGIC_PER_CORE))).
Proof. apply ring_key_hash; [repeat constructor..|reflexivity]. Defined.

(** ** When a migration is recommended *)

(** A sequence of calls, the observations of each given. *)
Definition run (es : list thread_env) (r : ring_allocation_logic) : ring_allocation_logic :=
  foldl (fun r e => snd (should_migrate_ring e r)) r es.

Lemma should_migrate_key e r : m_res_key (snd (should_migrate_ring e r)) = m_res_key r /\
  m_fd (snd (should_migrate_ring e r)) = m_fd r.
Proof. unfold should_migrate_ring, decide_migration. repeat case_match; done. Qed.

Lemma run_key es r : m_res_key (run es r) = m_res_key r /\ m_fd (run es r) = m_fd r.
Proof.
  revert r. induction es as [|e es IH]; intros r; simpl; [done|]. destruct (IH (snd (should_migrate_ring e r))) as [-> ->].
  apply should_migrate_key.
Qed.

Lemma calc_ext e r r' : m_res_key r' = m_res_key r -> m_fd r' = m_fd r ->
  calc_res_key_by_logic e r' = calc_res_key_by_logic e r.
Proof. intros E1 E2. unfold calc_res_key_by_logic. by rewrite E1, E2. Qed.

(** The last [n] observations all gave the id [c]. *)
Definition stable (r : ring_allocation_logic) (c : Z) (n : nat) (es : list thread_env) : Prop :=
  (n <= length es)%nat /\ Forall (fun e => calc_res_key_by_logic e r = c) (drop (length es - n) es).

Lemma stable_snoc r c n es e : stable r c n es -> calc_res_key_by_logic e r = c -> stable r c (S n) (es ++ [e]).
Proof.
  intros [Hn Hs] He. split; [rewrite length_app; simpl; lia|]. rewrite length_app. simpl.
  replace (length es + 1 - S n)%nat with (length es - n)%nat by lia. rewrite drop_app_le by lia.
  apply Forall_app. split; [done|by constructor].
Qed.

Lemma stable_one r e es : stable r (calc_res_key_by_logic e r) 1 (es ++ [e]).
Proof.
  split; [rewrite length_app; simpl; lia|]. rewrite length_app. simpl. rewrite Nat.add_sub, drop_app_length. by constructor.
Qed.

(** The invariant: a candidate was stable since it was chosen. *)
Definition candidate_inv (r0 : ring_allocation_logic) (es : list thread_env) (r : ring_allocation_logic) : Prop :=
  m_migration_candidate r <> 0 ->
  logic_code RING_LOGIC_PER_THREAD <= logic_code (m_ring_alloc_logic (m_res_key r0)) /\ 0 <= m_ring_migration_ratio r /\
  m_migration_candidate r <> m_user_id_key (m_res_key r0) /\ 0 <= m_migration_try_count r <= CANDIDATE_STABILITY_ROUNDS /\
  stable r0 (m_migration_candidate r) (S (Z.to_nat (m_migration_try_count r))) es.

Lemma candidate_step r0 es e r b r' : m_res_key r = m_res_key r0 -> m_fd r = m_fd r0 ->
  candidate_inv r0 es r -> should_migrate_ring e r = (b, r') ->
  candidate_inv r0 (es ++ [e]) r' /\
  (b = true -> m_migration_candidate r <> 0 /\ m_migration_candidate r <> m_user_id_key (m_res_key r0) /\
     stable r0 (m_migration_candidate r) 22 (es ++ [e])).
Proof.
  intros Ek Ef Hinv. pose proof (calc_ext e r0 r Ek Ef) as Ec. unfold should_migrate_ring. rewrite Ek.
  destruct (_ <? _) eqn:E1; [intros [= <- <-]; split; [|done]; intros Hc; destruct (Hinv Hc) as (H1 & _); lia|].
  destruct (m_ring_migration_ratio r <? 0) eqn:E2; [intros [= <- <-]; split; [|done]; intros Hc; destruct (Hinv Hc) as (_ & H2 & _); lia|].
  destruct (m_migration_candidate r =? 0) eqn:E3; cbn [negb andb].
  - destruct (m_migration_try_count r <? m_ring_migration_ratio r) eqn:E4; [intros [= <- <-]; split; [|done]; intros Hc; simpl in Hc; lia|].
    unfold decide_migration. simpl. rewrite E3, Ek.
    change (calc_res_key_by_logic e (set_try 0 r)) with (calc_res_key_by_logic e r).
    destruct (_ || _) eqn:E5; intros [= <- <-]; (split; [|done]); intros Hc; cbn in Hc |- *; [lia|].
    change (logic_code RING_LOGIC_PER_THREAD) with 20 in E1. unfold CANDIDATE_STABILITY_ROUNDS.
    rewrite Ec in *. do 4 (split; [lia|]). apply stable_one.
  - destruct (Hinv ltac:(lia)) as (H1 & H2 & H3 & H4 & H5). rewrite Ec.
    destruct (m_migration_candidate r =? calc_res_key_by_logic e r0) eqn:E4; cbn [negb]; [|by intros [= <- <-]].
    assert (calc_res_key_by_logic e r0 = m_migration_candidate r) as Hc by lia.
    pose proof (stable_snoc _ _ _ _ _ H5 Hc) as Hs. destruct (m_migration_try_count r <? CANDIDATE_STABILITY_ROUNDS) eqn:E5.
    + intros [= <- <-]. split; [|done]. intros _. simpl. unfold CANDIDATE_STABILITY_ROUNDS in *. do 3 (split; [done|]).
      split; [lia|]. by replace (S (Z.to_nat (m_migration_try_count r + 1))) with (S (S (Z.to_nat (m_migration_try_count r)))) by lia.
    + unfold decide_migration. simpl. rewrite E3. intros [= <- <-]. split; [done|]. intros _. split; [lia|]. split; [done|].
      replace (S (S (Z.to_nat (m_migration_try_count r)))) with 22%nat in Hs; [done|]. unfold CANDIDATE_STABILITY_ROUNDS in *. lia.
Qed.

Lemma run_inv r0 es : m_migration_candidate r0 = 0 -> candidate_inv r0 es (run es r0).
Proof.
  intros H0. induction es as [|e es IH] using rev_ind; [by intros ?|].
  destruct (run_key es r0) as [Ek Ef]. unfold run in *. rewrite foldl_app. simpl.
  destruct (should_migrate_ring e (foldl _ r0 es)) as [b r'] eqn:E. by eapply candidate_step in E as [H _].
Qed.

(** C40: A migration is recommended only for an id that differs from the id
    of the current ring and that was the same at each of the last 22 calls
    (the call that chose the candidate, 20 rounds of stability, and this
    one), whatever the calls before observed. *)
Theorem ring_migration_stable r0 es e r' : m_migration_candidate r0 = 0 ->
  should_migrate_ring e (run es r0) = (true, r') ->
  exists c, c <> 0 /\ c <> m_user_id_key (m_res_key r0) /\ stable r0 c 22 (es ++ [e]).
Proof.
  intros H0 Hm. destruct (run_key es r0) as [Ek Ef].
  destruct (candidate_step r0 es e _ _ _ Ek Ef (run_inv r0 es H0) Hm) as [_ Hs].
  exists (m_migration_candidate (run es r0)). by apply Hs.
Qed.

Definition example_env (cpu : Z) : thread_env := ThreadEnv 77 cpu false 0.
Definition example_ral : ring_allocation_logic :=
  fst (new_ring_allocation_logic (example_env 3) RING_LOGIC_PER_CORE 100 5 (new_attr RING_LOGIC_PER_INTERFACE)).

Lemma ring_migration_stable_witness : exists c,
  c <> m_user_id_key (m_res_key example_ral) /\ stable example_ral c 22 (replicate 21 (example_env 4) ++ [example_env 4]).
Proof.
  destruct (ring_migration_stable example_ral (replicate 21 (example_env 4)) (example_env 4)
              (set_candidate 0 (set_try 0 (run (replicate 21 (example_env 4)) example_ral)))) as (c & _ & H1 & H2).
  - vm_compute. reflexivity.
  - vm_compute. reflexivity.
  - exists c. split; [exact H1|exact H2].
Defined.

(** A thread that moved to core 0 is never offered another ring: its id
    0 is also the mark for "no candidate", so however long it stays there no
    migration is recommended. *)
Theorem ring_migration_core_zero r es e : m_migration_candidate r = 0 ->
  Forall (fun e => calc_res_key_by_logic e r = 0) (es ++ [e]) ->
  fst (should_migrate_ring e (run es r)) = false.
Proof.
  intros H0 Hz. destruct (should_migrate_ring e (run es r)) as [[|] r'] eqn:E; [|done].
  destruct (run_key es r) as [Ek Ef]. destruct (candidate_step r es e _ _ _ Ek Ef (run_inv r es H0) E) as [_ Hs].
  destruct (Hs eq_refl) as (Hc & _ & Hn & Hst). exfalso. apply Hc.
  apply (Forall_drop _ (length (es ++ [e]) - 22)) in Hz. destruct (drop _ _) as [|e' l] eqn:Ed.
  - apply (f_equal length) in Ed. rewrite length_drop in Ed. simpl in Ed. lia.
  - apply Forall_cons in Hst as [<- _]. by apply Forall_cons in Hz as [-> _].
Qed.

Lemma ring_migration_core_zero_witness :
  fst (should_migrate_ring (example_env 0) (run (replicate 1000 (example_env 0)) example_ral)) = false.
Proof. apply ring_migration_core_zero; [reflexivity|]. apply Forall_forall. intros e He. vm_compute in He. set_solver. Defined.

(** ** The core of a thread *)

(** [c] is in the set of allowed cores and is used at most one thread more
    than any allowed core. *)
Definition balanced (set : cpu_set) (counts : list Z) (cpu : Z) : Prop :=
  CPU_ISSET cpu set = true /\
  exists c, lookupZ counts cpu = Some c /\
    forall i ci, CPU_ISSET i set = true -> lookupZ counts i = Some ci -> c <= ci + 1.

Lemma lookupZ_cons {A} (x : A) l i : 0 <= i -> lookupZ (x :: l) (i + 1) = lookupZ l i.
Proof.
  intros Hi. unfold lookupZ. rewrite !decide_True by lia. by replace (Z.to_nat (i + 1)) with (S (Z.to_nat i)) by lia.
Qed.

Lemma lookupZ_cons_inv {A} (x : A) l i y : lookupZ (x :: l) i = Some y ->
  (i = 0 /\ y = x) \/ (0 <= i - 1 /\ lookupZ l (i - 1) = Some y).
Proof.
  intros [Hi Hl]%lookupZ_Some. destruct (decide (i = 0)) as [->|]; [left; by simplify_eq/=|]. right. split; [lia|].
  apply lookupZ_Some. split; [lia|]. by replace (Z.to_nat i) with (S (Z.to_nat (i - 1))) in Hl by lia.
Qed.

Lemma CPU_ISSET_Some i s : CPU_ISSET i s = true <-> lookupZ s i = Some true.
Proof. unfold CPU_ISSET. destruct (lookupZ s i) as [[]|]; simpl; split; naive_solver. Qed.

Lemma CPU_COUNT_zero s i : CPU_COUNT s = 0 -> CPU_ISSET i s = false.
Proof.
  unfold CPU_COUNT. intros H. apply not_true_is_false. intros [Hi Hl]%CPU_ISSET_Some%lookupZ_Some.
  apply list_elem_of_lookup_2 in Hl. assert (true ∈ filter (fun b => b = true) s) as Hf by by apply list_elem_of_filter.
  destruct (filter _ s); [by apply not_elem_of_nil in Hf|simpl in H; lia].
Qed.

(** What the loop over the cores [i0], [i0 + 1], ... makes of the minimum so
    far and its core. *)
Definition least_post (s : cpu_set) (counts : list Z) (i0 mn cpu mn' cpu' : Z) : Prop :=
  ((mn', cpu') = (mn, cpu) \/ exists i, CPU_ISSET i s = true /\ lookupZ counts i = Some mn' /\ cpu' = i0 + i) /\
  (0 <= mn -> 0 <= mn' <= mn) /\
  (forall i c, CPU_ISSET i s = true -> lookupZ counts i = Some c -> 0 <= mn' <= c).

Lemma least_post_later b (c : Z) s counts i0 mn' cpu' :
  (exists i, CPU_ISSET i s = true /\ lookupZ counts i = Some mn' /\ cpu' = i0 + 1 + i) ->
  exists i, CPU_ISSET i (b :: s) = true /\ lookupZ (c :: counts) i = Some mn' /\ cpu' = i0 + i.
Proof.
  intros (i & Hi & Hv & ->). exists (i + 1). apply CPU_ISSET_Some in Hi as Hi'. apply lookupZ_Some in Hi' as [Hi0 _].
  rewrite !CPU_ISSET_Some in *. rewrite !lookupZ_cons by done. split_and!; [done|done|lia].
Qed.

Lemma least_post_rest b (c : Z) s counts mn' : (b = true -> 0 <= mn' <= c) ->
  (forall i ci, CPU_ISSET i s = true -> lookupZ counts i = Some ci -> 0 <= mn' <= ci) ->
  forall i ci, CPU_ISSET i (b :: s) = true -> lookupZ (c :: counts) i = Some ci -> 0 <= mn' <= ci.
Proof.
  intros H0 H i ci Hi%CPU_ISSET_Some Hv. apply lookupZ_cons_inv in Hi as [[-> <-]|[Hi0 Hi]].
  - apply lookupZ_cons_inv in Hv as [[_ ->]|[? _]]; [by apply H0|lia].
  - apply lookupZ_cons_inv in Hv as [[-> _]|[_ Hv]]; [lia|]. eapply H; [by apply CPU_ISSET_Some|done].
Qed.

Lemma least_post_skip b c s counts i0 mn cpu mn' cpu' : (b = true -> 0 <= mn <= c) ->
  least_post s counts (i0 + 1) mn cpu mn' cpu' -> least_post (b :: s) (c :: counts) i0 mn cpu mn' cpu'.
Proof.
  intros Hb (H1 & H2 & H3). split; [destruct H1 as [?|H1]; [by left|right; by apply least_post_later]|].
  split; [done|]. apply least_post_rest; [|done]. intros Ht%Hb. lia.
Qed.

Lemma least_post_take c s counts i0 mn cpu mn' cpu' : 0 <= c -> mn < 0 \/ c < mn ->
  least_post s counts (i0 + 1) c i0 mn' cpu' -> least_post (true :: s) (c :: counts) i0 mn cpu mn' cpu'.
Proof.
  intros Hc Hm (H1 & H2 & H3). split; [right; destruct H1 as [[= -> ->]|H1]; [|by apply least_post_later]|].
  - exists 0. split_and!; [done|done|lia].
  - split; [lia|]. apply least_post_rest; [lia|done].
Qed.

(** The loop looks at all allowed cores and finds one with the least count. *)
Lemma least_used_spec s : forall counts avail i0 j mn cpu mn' cpu', length s = length counts ->
  Forall (fun c => 0 <= c) counts -> avail = j + CPU_COUNT s ->
  least_used avail i0 j mn cpu s counts = (mn', cpu') -> least_post s counts i0 mn cpu mn' cpu'.
Proof.
  induction s as [|b s IH]; intros counts avail i0 j mn cpu mn' cpu' Hlen Hpos Hav; simpl.
  - intros [= <- <-]. split; [by left|]. split; [lia|]. intros i c Hi%CPU_ISSET_Some. by apply lookupZ_Some in Hi as [_ ?].
  - destruct counts as [|c counts]; [done|]. injection Hlen as Hlen. apply Forall_cons in Hpos as [Hc Hpos].
    assert (CPU_COUNT (b :: s) = (if b then 1 else 0) + CPU_COUNT s) as Hcnt.
    { unfold CPU_COUNT. rewrite filter_cons. destruct b; simpl; lia. }
    assert (0 <= CPU_COUNT s) as Hnn by (unfold CPU_COUNT; lia).
    destruct (j <? avail) eqn:Ej.
    + destruct b; simpl negb; cbv iota; [destruct (_ || _) eqn:Em|]; intros Hl; eapply IH in Hl; try lia; try done.
      * apply least_post_take; [done|lia|done].
      * apply least_post_skip; [lia|done].
      * by apply least_post_skip.
    + intros [= <- <-]. split; [by left|]. split; [lia|]. intros i c' Hi. rewrite CPU_COUNT_zero in Hi; [done|destruct b; lia].
Qed.

Lemma first_cpu_spec s i0 : 0 < CPU_COUNT s -> exists i, CPU_ISSET i s = true /\ first_cpu i0 s = i0 + i.
Proof.
  revert i0. induction s as [|b s IH]; intros i0 Hc; [by vm_compute in Hc|]. destruct b; simpl.
  - exists 0. split; [done|lia].
  - destruct (IH (i0 + 1)) as (i & Hi & ->); [done|]. exists (i + 1). apply CPU_ISSET_Some in Hi as Hi'.
    apply lookupZ_Some in Hi' as [Hi0 _]. rewrite CPU_ISSET_Some in *. rewrite lookupZ_cons by done. split; [done|lia].
Qed.

(** A set with one element. *)
Lemma CPU_COUNT_one s i j : CPU_COUNT s = 1 -> CPU_ISSET i s = true -> CPU_ISSET j s = true -> i = j.
Proof.
  revert i j. induction s as [|b s IH]; intros i j Hc Hi Hj; [by vm_compute in Hc|].
  unfold CPU_COUNT in *. rewrite filter_cons in Hc. apply CPU_ISSET_Some in Hi, Hj.
  apply lookupZ_cons_inv in Hi as [[-> <-]|[Hi0 Hi]]; apply lookupZ_cons_inv in Hj as [[-> ?]|[Hj0 Hj]]; subst; simpl in Hc; try done.
  - apply CPU_ISSET_Some in Hj. rewrite CPU_COUNT_zero in Hj; [done|]. unfold CPU_COUNT. lia.
  - apply CPU_ISSET_Some in Hi. rewrite CPU_COUNT_zero in Hi; [done|]. unfold CPU_COUNT. lia.
  - destruct b; simpl in Hc.
    + apply CPU_ISSET_Some in Hj. rewrite CPU_COUNT_zero in Hj; [done|]. unfold CPU_COUNT. lia.
    + assert (i - 1 = j - 1); [|lia]. by apply IH; [|apply CPU_ISSET_Some..].
Qed.


Section Reserve.
Context (set : cpu_set) (counts : list Z).
Hypothesis Hset : length set = MAX_CPU.
Hypothesis Hcounts : length counts = MAX_CPU.
Hypothesis Hrange : Forall (fun c => 0 <= c < 2 ^ 31 - 1) counts.

Lemma isset_count i : CPU_ISSET i set = true -> exists c, lookupZ counts i = Some c /\ 0 <= c < 2 ^ 31 - 1 /\ 0 <= i < Z.of_nat MAX_CPU.
Proof.
  intros Hi%CPU_ISSET_Some. assert (0 <= i < Z.of_nat MAX_CPU) as Hb by (rewrite <- Hset; apply lookupZ_is_Some; by rewrite Hi).
  destruct (lookupZ counts i) as [c|] eqn:E; [|apply lookupZ_None in E; rewrite Hcounts in E; done].
  exists c. split; [done|]. split; [|done]. apply (Forall_lookupZ _ _ _ _ Hrange E).
Qed.

Lemma record_cpu_spec i : CPU_ISSET i set = true -> exists c, lookupZ counts i = Some c /\
  record_cpu i (CpuState counts NO_CPU) = Ok (i, CpuState (insertZ i (c + 1) counts) i).
Proof.
  intros Hi. destruct (isset_count i Hi) as (c & Hc & Hr & Hb). exists c. split; [done|]. unfold record_cpu, NO_CPU.
  rewrite (proj2 (Z.ltb_lt _ _)), (proj2 (Z.ltb_lt _ _)) by lia. cbn [m_cpu_thread_count andb].
  rewrite Hc. cbn [must mbind res_bind]. by rewrite swrap_small by lia.
Qed.

(** The two ways of choosing a core. *)
Lemma only_core_balanced : CPU_COUNT set = 1 -> balanced set counts (first_cpu 0 set).
Proof.
  intros H1. destruct (first_cpu_spec set 0) as (i & Hi & ->); [lia|]. rewrite Z.add_0_l. split; [done|].
  destruct (isset_count i Hi) as (c & Hc & _). exists c. split; [done|]. intros j cj Hj Hcj.
  rewrite (CPU_COUNT_one set j i H1 Hj Hi), Hc in Hcj. simplify_eq. lia.
Qed.

Lemma least_core_balanced mn' cpu' suggested : 0 < CPU_COUNT set ->
  least_used (CPU_COUNT set) 0 0 (-1) NO_CPU set counts = (mn', cpu') ->
  exists cpu, (if (0 <=? suggested) && CPU_ISSET suggested set then
                 c ← must (lookupZ counts suggested); Ok (if c <=? mn' + 1 then suggested else cpu')
               else Ok cpu') = Ok cpu /\ balanced set counts cpu.
Proof.
  intros Hp Hl. apply least_used_spec in Hl as (H1 & _ & H3); [|by rewrite Hset|by eapply Forall_impl; [exact Hrange|simpl; lia]|lia].
  destruct (first_cpu_spec set 0 Hp) as (i0 & Hi0 & _). destruct (isset_count i0 Hi0) as (c0 & Hc0 & _).
  pose proof (H3 _ _ Hi0 Hc0) as Hmn.
  destruct H1 as [[= -> ->]|(i & Hi & Hc & ->)]; [lia|].
  assert (balanced set counts (0 + i)) as Hbal.
  { rewrite Z.add_0_l. split; [done|]. exists mn'. split; [done|]. intros j cj Hj Hcj. pose proof (H3 _ _ Hj Hcj). lia. }
  destruct (0 <=? suggested); [|by eexists]. destruct (CPU_ISSET suggested set) eqn:Es; [|by eexists]. cbn [andb].
  destruct (isset_count _ Es) as (c & Hcs & _). rewrite Hcs. cbn [must mbind res_bind]. eexists. split; [done|].
  destruct (c <=? mn' + 1) eqn:Ec; [|done]. split; [done|]. exists c. split; [done|].
  intros j cj Hj Hcj. pose proof (H3 _ _ Hj Hcj). lia.
Qed.
End Reserve.

(** Reserving a core for a thread that has none gives, when the calls to
    the system succeed, a core the thread may run on that is used by at most
    one thread more than any other core it may run on; the core is remembered
    for the thread, its count goes up by one and the other counts stay. *)
Theorem ring_cpu_balanced set setaffinity suggested counts :
  length set = MAX_CPU -> length counts = MAX_CPU -> Forall (fun c => 0 <= c < 2 ^ 31 - 1) counts ->
  0 < CPU_COUNT set -> (forall c, setaffinity c = 0) ->
  exists cpu c, reserve_cpu_for_thread (Some set) setaffinity suggested (CpuState counts NO_CPU) =
      Ok (cpu, CpuState (insertZ cpu (c + 1) counts) cpu) /\
    balanced set counts cpu /\ lookupZ counts cpu = Some c.
Proof.
  intros Hs Hc Hr Hp Ha. unfold reserve_cpu_for_thread. cbn [g_n_thread_cpu_core m_cpu_thread_count].
  change (NO_CPU =? NO_CPU) with true. cbn [negb]. rewrite (proj2 (Z.eqb_neq _ 0)) by lia.
  destruct (CPU_COUNT set =? 1) eqn:E1.
  - pose proof (only_core_balanced set counts Hs Hc Hr ltac:(lia)) as Hb. destruct Hb as [Hi Hx].
    destruct (record_cpu_spec set counts Hs Hc Hr _ Hi) as (c & Hl & ->). eexists _, c. by split_and!.
  - destruct (least_used _ _ _ _ _ _ _) as [mn' cpu'] eqn:El.
    destruct (least_core_balanced set counts Hs Hc Hr mn' cpu' suggested Hp El) as (cpu & -> & Hb). cbn [mbind res_bind].
    rewrite Ha. cbn. destruct Hb as [Hi Hx]. destruct (record_cpu_spec set counts Hs Hc Hr _ Hi) as (c & Hl & ->).
    eexists _, c. by split_and!.
Qed.

(** Cores 0 and 1 are allowed, core 0 runs two threads already; the suggested
    core 0 is too busy. *)
Definition example_cores : cpu_set := [true; true] ++ replicate 1022 false.
Definition example_counts : list Z := 2 :: replicate 1023 0.

Lemma ring_cpu_balanced_witness : exists cpu c,
  reserve_cpu_for_thread (Some example_cores) (fun _ => 0) 0 (CpuState example_counts NO_CPU) =
    Ok (cpu, CpuState (insertZ cpu (c + 1) example_counts) cpu) /\ balanced example_cores example_counts cpu.
Proof.
  destruct (ring_cpu_balanced example_cores (fun _ => 0) 0 example_counts) as (cpu & c & H1 & H2 & _).
  - reflexivity.
  - reflexivity.
  - apply Forall_cons. split; [lia|]. apply Forall_replicate. lia.
  - reflexivity.
  - reflexivity.
  - exists cpu, c. split; [exact H1|exact H2].
Defined.

(** ** Profiles *)

(** The comparison of profiles is inverted ([compare] returns 0 for equal
    strings): in a collection that holds one profile, asking for the same
    profile again makes a second entry, and asking for a different one
    returns the key under which the first profile is stored. *)
Theorem ring_profile_inverted iter d d2 : (forall m, iter m ≡ₚ map_to_list m) ->
  m_str (new_ring_profile d2) <> m_str (new_ring_profile d) ->
  let '(k, c) := add_profile iter d new_ring_profiles in
  get_profile k c = Some (new_ring_profile d) /\
  fst (add_profile iter d c) <> k /\ add_profile iter d2 c = (k, c).
Proof.
  intros Hiter Hne. unfold add_profile at 1. cbn [m_profs_map new_ring_profiles].
  pose proof (Hiter ∅) as H0. rewrite map_to_list_empty in H0. apply Permutation_nil_r in H0. rewrite H0.
  cbn [list_find m_curr_idx].
  pose proof (Hiter {[START_RING_INDEX := new_ring_profile d]}) as H1. rewrite map_to_list_singleton in H1. apply Permutation_singleton_r in H1.
  unfold add_profile, get_profile. change (m_curr_idx new_ring_profiles) with START_RING_INDEX.
  cbn [m_profs_map m_curr_idx]. rewrite insert_empty, H1. cbn [list_find snd].
  unfold profile_eqb. rewrite lookup_singleton_eq. split; [done|]. split.
  - rewrite bool_decide_eq_true_2 by done. done.
  - rewrite bool_decide_eq_false_2 by congruence. done.
Qed.

Definition cb_profile (n : Z) : vma_ring_type_attr :=
  RingTypeAttr 0 VMA_RING_CYCLIC_BUFFER (CbAttr 0 n 1400 0 0) 0.

Lemma ring_profile_inverted_witness :
  let '(k, c) := add_profile map_to_list (cb_profile 1024) new_ring_profiles in
  add_profile map_to_list (cb_profile 2048) c = (k, c).
Proof.
  destruct (add_profile map_to_list (cb_profile 1024) new_ring_profiles) as [k c] eqn:E.
  pose proof (ring_profile_inverted map_to_list (cb_profile 1024) (cb_profile 2048) (fun m => Permutation_refl _)
                ltac:(vm_compute; discriminate)) as H.
  rewrite E in H. exact (proj2 (proj2 H)).
Defined.
