(* ===== verification/RingMap.v ===== *)
(** * The rings of a network device (src/vma/dev/net_device_val.cpp,
      [reserve_ring] and [release_ring])

    A device keeps its rings in a hash map from keys to rings with a
    reference count, and, when the number of rings is limited, a second map
    that redirects keys.  Both maps are keyed by pointers to key objects,
    some of which the device allocates and deletes, so the key objects live
    in a store and a deleted key is no longer in it.  Looking a key up
    dereferences it and the keys in the map; the order of a map's entries,
    which the library leaves open, is here the newest first.  The rings' notification
    descriptors are registered with the global epoll descriptor. *)

From S2P Require Import Prelude RingAlloc.

Abbreviation kptr := positive.
Abbreviation ring := Z.

Record net_device_val := NetDev {
  keys : gmap kptr ring_alloc_logic_attr;
  m_h_ring_map : list (kptr * (ring * Z));
  m_h_ring_key_redirection_map : list (kptr * (kptr * Z));
  global_epfd : list Z
}.

Definition set_keys k d := NetDev k (m_h_ring_map d) (m_h_ring_key_redirection_map d) (global_epfd d).
Definition set_ring_map r d := NetDev (keys d) r (m_h_ring_key_redirection_map d) (global_epfd d).
Definition set_redirection r d := NetDev (keys d) (m_h_ring_map d) r (global_epfd d).
Definition set_epfd e d := NetDev (keys d) (m_h_ring_map d) (m_h_ring_key_redirection_map d) e.

Definition load_key (d : net_device_val) (p : kptr) : res ring_alloc_logic_attr := must (keys d !! p).

(** A copy of a key object made with [new], and [delete]. *)
Definition new_key (k : ring_alloc_logic_attr) (d : net_device_val) : kptr * net_device_val :=
  let p := fresh (dom (keys d)) in (p, set_keys (<[p := k]> (keys d)) d).
Definition delete_key (p : kptr) (d : net_device_val) : res net_device_val :=
  _ ← load_key d p; Ok (set_keys (delete p (keys d)) d).

(** [find] of a map keyed by pointers: the position of the entry whose key
    object equals [k]. *)
Fixpoint map_index {A} (ks : gmap kptr ring_alloc_logic_attr) (k : ring_alloc_logic_attr) (l : list (kptr * A))
  : res (option nat) :=
  match l with
  | [] => Ok None
  | (p, _) :: l =>
    k' ← must (ks !! p);
    if attr_eqb k k' then Ok (Some O)
    else i ← map_index ks k l; Ok (option_map S i)
  end.

Definition map_find {A} (d : net_device_val) (p : kptr) (l : list (kptr * A)) : res (option nat) :=
  k ← load_key d p; map_index (keys d) k l.

Section Device.
Context (ring_limit_per_interface : Z) (get_rx_channel_fds : ring -> list Z).

(** ** Redirection *)

(** The ring of the same profile with the fewest references; the first entry
    is the starting point whatever its profile. *)
Fixpoint least_ref (d : net_device_val) (profile : Z) (min_ref_count : Z) (min_key : kptr)
    (l : list (kptr * (ring * Z))) : res kptr :=
  match l with
  | [] => Ok min_key
  | (p, (_, c)) :: l =>
    k ← load_key d p;
    if (m_ring_profile_key k =? profile) && (c <? min_ref_count)
    then least_ref d profile c p l
    else least_ref d profile min_ref_count min_key l
  end.

Definition ring_key_redirection_reserve (key : kptr) (d : net_device_val) : res (kptr * net_device_val) :=
  if ring_limit_per_interface =? 0 then Ok (key, d)
  else
    k ← load_key d key;
    if bool_decide (m_ring_alloc_logic k = RING_LOGIC_PER_USER_ID) then Ok (key, d)
    else
      i ← map_find d key (m_h_ring_key_redirection_map d);
      match i with
      | Some i =>
        '(p, (key2, c)) ← must (m_h_ring_key_redirection_map d !! i);
        Ok (key2, set_redirection (<[i := (p, (key2, i32 (c + 1)))]> (m_h_ring_key_redirection_map d)) d)
      | None =>
        let ring_map_size := Z.of_nat (length (m_h_ring_map d)) in
        if ring_map_size <? ring_limit_per_interface then
          let '(key2, d) := new_key (set_user_id_key ring_map_size k) d in
          Ok (key2, set_redirection ((key, (key2, 1)) :: m_h_ring_key_redirection_map d) d)
        else
          '(p0, (_, c0)) ← must (head (m_h_ring_map d));
          min_key ← least_ref d (m_ring_profile_key k) c0 p0 (m_h_ring_map d);
          Ok (min_key, set_redirection ((key, (min_key, 1)) :: m_h_ring_key_redirection_map d) d)
      end.

Definition ring_key_redirection_release (key : kptr) (d : net_device_val) : res (kptr * net_device_val) :=
  if ring_limit_per_interface =? 0 then Ok (key, d)
  else
    i ← map_find d key (m_h_ring_key_redirection_map d);
    match i with
    | None => Ok (key, d)
    | Some i =>
      '(p, (ret_key, c)) ← must (m_h_ring_key_redirection_map d !! i);
      if i32 (c - 1) =? 0 then
        d ← delete_key ret_key d;
        Ok (ret_key, set_redirection (delete i (m_h_ring_key_redirection_map d)) d)
      else
        Ok (ret_key, set_redirection (<[i := (p, (ret_key, i32 (c - 1)))]> (m_h_ring_key_redirection_map d)) d)
    end.

(** ** Reserving and releasing a ring *)

Definition add_fds (fds : list Z) (d : net_device_val) : net_device_val := set_epfd (fds ++ global_epfd d) d.
Definition del_fds (fds : list Z) (d : net_device_val) : net_device_val :=
  set_epfd (filter (fun fd => fd ∉ fds) (global_epfd d)) d.

(** [created] is what [create_ring] returns if it is called. *)
Definition reserve_ring (created : option ring) (key : kptr) (d : net_device_val)
  : res (option ring * net_device_val) :=
  '(key, d) ← ring_key_redirection_reserve key d;
  i ← map_find d key (m_h_ring_map d);
  match i with
  | Some i =>
    '(p, (r, c)) ← must (m_h_ring_map d !! i);
    Ok (Some r, set_ring_map (<[i := (p, (r, i32 (c + 1)))]> (m_h_ring_map d)) d)
  | None =>
    k ← load_key d key;
    let '(nk, d) := new_key k d in
    match created with
    | None => Ok (None, d)
    | Some r =>
      let d := set_ring_map ((nk, (r, 1)) :: m_h_ring_map d) d in
      Ok (Some r, add_fds (get_rx_channel_fds r) d)
    end
  end.

Definition release_ring (key : kptr) (d : net_device_val) : res (bool * net_device_val) :=
  '(key, d) ← ring_key_redirection_release key d;
  i ← map_find d key (m_h_ring_map d);
  match i with
  | None => Ok (false, d)
  | Some i =>
    '(p, (r, c)) ← must (m_h_ring_map d !! i);
    if i32 (c - 1) =? 0 then
      let d := del_fds (get_rx_channel_fds r) d in
      d ← delete_key p d;
      Ok (true, set_ring_map (delete i (m_h_ring_map d)) d)
    else
      Ok (true, set_ring_map (<[i := (p, (r, i32 (c - 1)))]> (m_h_ring_map d)) d)
  end.

(** ** A sequence of calls *)

Inductive ring_op := Reserve (created : option ring) (key : kptr) | Release (key : kptr).
Inductive ring_result := Reserved (r : option ring) | Released (b : bool).

Definition exec (o : ring_op) (d : net_device_val) : res (ring_result * net_device_val) :=
  match o with
  | Reserve created key => '(r, d) ← reserve_ring created key d; Ok (Reserved r, d)
  | Release key => '(b, d) ← release_ring key d; Ok (Released b, d)
  end.

Fixpoint exec_all (os : list ring_op) (d : net_device_val) : res (list ring_result * net_device_val) :=
  match os with
  | [] => Ok ([], d)
  | o :: os => '(r, d) ← exec o d; '(rs, d) ← exec_all os d; Ok (r :: rs, d)
  end.

End Device.

(** ** What the device promises: a count of references per key value *)

Abbreviation key_value := (Z * Z * Z)%type.
Definition kv (k : ring_alloc_logic_attr) : key_value :=
  (logic_code (m_ring_alloc_logic k), m_ring_profile_key k, m_user_id_key k).

Abbreviation ring_table := (gmap key_value (ring * Z)).

Definition spec_reserve (created : option ring) (k : key_value) (A : ring_table) : ring_result * ring_table :=
  match A !! k, created with
  | Some (r, c), _ => (Reserved (Some r), <[k := (r, c + 1)]> A)
  | None, Some r => (Reserved (Some r), <[k := (r, 1)]> A)
  | None, None => (Reserved None, A)
  end.

Definition spec_release (k : key_value) (A : ring_table) : ring_result * ring_table :=
  match A !! k with
  | None => (Released false, A)
  | Some (r, c) => (Released true, if c =? 1 then delete k A else <[k := (r, c - 1)]> A)
  end.

(** [K]: the key objects of the callers. *)
Definition spec_op (K : gmap kptr ring_alloc_logic_attr) (o : ring_op) (A : ring_table) : option (ring_result * ring_table) :=
  match o with
  | Reserve created key => (fun k => spec_reserve created (kv k) A) <$> K !! key
  | Release key => (fun k => spec_release (kv k) A) <$> K !! key
  end.

Fixpoint spec_all (K : gmap kptr ring_alloc_logic_attr) (os : list ring_op) (A : ring_table)
  : option (list ring_result * ring_table) :=
  match os with
  | [] => Some ([], A)
  | o :: os => '(r, A) ← spec_op K o A; '(rs, A) ← spec_all K os A; Some (r :: rs, A)
  end.


(** ** The device without a limit implements the table of references *)

Section Unlimited.
Context (fds : ring -> list Z) (K : gmap kptr ring_alloc_logic_attr).

(** An entry and its key value. *)
Definition reads (ks : gmap kptr ring_alloc_logic_attr) (e : kptr * (ring * Z)) (x : key_value * (ring * Z)) : Prop :=
  exists k, ks !! fst e = Some k /\ x = (kv k, snd e).

(** The device represents the table [A]: its entries, read through their
    keys, are [A], with counts up to [n]; the callers' keys are alive and are
    not the map's. *)
Record represents (n : Z) (d : net_device_val) (A : ring_table) (l : list (key_value * (ring * Z))) : Prop := {
  rep_callers : K ⊆ keys d;
  rep_own : Forall (fun e => K !! fst e = None) (m_h_ring_map d);
  rep_nodup : NoDup (m_h_ring_map d).*1;
  rep_entries : Forall2 (reads (keys d)) (m_h_ring_map d) l;
  rep_values : NoDup l.*1;
  rep_table : list_to_map l = A;
  rep_counts : Forall (fun x => 0 < snd (snd x) <= n) l
}.

Lemma kv_inj a b : attr_eqb a b = true <-> kv a = kv b.
Proof.
  rewrite attr_eqb_spec. unfold kv. split; [by intros (-> & -> & ->)|]. intros [= E1 E2 E3]. split; [|done].
  by destruct (m_ring_alloc_logic a), (m_ring_alloc_logic b).
Qed.

(** Finding an entry. *)
Lemma map_index_spec ks k es l : Forall2 (reads ks) es l ->
  (map_index ks k es = Ok None /\ kv k ∉ l.*1) \/
  (exists e1 p x e2 l1 l2, map_index ks k es = Ok (Some (length e1)) /\ es = e1 ++ (p, x) :: e2 /\
     l = l1 ++ (kv k, x) :: l2 /\ Forall2 (reads ks) e1 l1 /\ reads ks (p, x) (kv k, x) /\ Forall2 (reads ks) e2 l2).
Proof.
  induction 1 as [|[p x] y es l (k' & Hk & ->) Hl IH]; simpl.
  - left. split; [done|]. apply not_elem_of_nil.
  - simpl in Hk. rewrite Hk. cbn [must mbind res_bind]. destruct (attr_eqb k k') eqn:E.
    + right. apply kv_inj in E. exists [], p, x, es, [], l. rewrite E. split_and!; try done. by exists k'.
    + destruct IH as [[-> Hn]|(e1 & p' & x' & e2 & l1 & l2 & -> & -> & -> & H1 & H2 & H3)]; simpl.
      * left. split; [done|]. intros [Heq|Hin]%elem_of_cons; [|done]. apply kv_inj in Heq. congruence.
      * right. exists ((p, x) :: e1), p', x', e2, ((kv k', x) :: l1), l2. split_and!; try done. constructor; [by exists k'|done].
Qed.

(** The table around one entry. *)
Lemma table_middle (l1 l2 : list (key_value * (ring * Z))) k x : NoDup (l1 ++ (k, x) :: l2).*1 ->
  (list_to_map (l1 ++ (k, x) :: l2) : ring_table) = <[k := x]> (list_to_map (l1 ++ l2)) /\
  (list_to_map (l1 ++ l2) : ring_table) !! k = None /\ NoDup (l1 ++ l2).*1.
Proof.
  intros Hnd. assert (NoDup ((k, x) :: l1 ++ l2).*1) as Hnd' by by rewrite Permutation_middle.
  split; [|simpl in Hnd'; apply NoDup_cons in Hnd' as [Hk Hnd']; split; [by apply not_elem_of_list_to_map_1|done]].
  rewrite <- (list_to_map_proper ((k, x) :: l1 ++ l2)); [done|done|apply Permutation_middle].
Qed.

Lemma middle_keys {B} (l1 l2 : list (B * (ring * Z))) k x y : (l1 ++ (k, x) :: l2).*1 = (l1 ++ (k, y) :: l2).*1.
Proof. by rewrite !fmap_app. Qed.

Lemma reads_delete ks p es l : Forall2 (reads ks) es l -> p ∉ es.*1 -> Forall2 (reads (delete p ks)) es l.
Proof.
  induction 1 as [|e x es l (k & Hk & ->) Hl IH]; [constructor|]. rewrite fmap_cons, not_elem_of_cons. intros [Hne Hp].
  constructor; [|by apply IH]. exists k. split; [|done]. by rewrite lookup_delete_ne.
Qed.

Lemma reads_insert ks p k es l : Forall2 (reads ks) es l -> ks !! p = None -> Forall2 (reads (<[p := k]> ks)) es l.
Proof.
  intros Hl Hp. eapply Forall2_impl; [exact Hl|]. intros e x (k' & Hk & ->). exists k'. split; [|done].
  rewrite lookup_insert_ne; [done|]. intros ->. congruence.
Qed.

(** Changing the entry at [length e1]. *)
Lemma update_entry n d e1 p r c e2 l1 kx l2 c' :
  represents n d (list_to_map (l1 ++ (kx, (r, c)) :: l2)) (l1 ++ (kx, (r, c)) :: l2) ->
  m_h_ring_map d = e1 ++ (p, (r, c)) :: e2 -> Forall2 (reads (keys d)) e1 l1 ->
  reads (keys d) (p, (r, c)) (kx, (r, c)) -> Forall2 (reads (keys d)) e2 l2 -> 0 < c' <= n + 1 ->
  represents (n + 1) (set_ring_map (<[length e1 := (p, (r, c'))]> (m_h_ring_map d)) d)
    (<[kx := (r, c')]> (list_to_map (l1 ++ (kx, (r, c)) :: l2))) (l1 ++ (kx, (r, c')) :: l2).
Proof.
  intros [R1 R2 R3 R4 R5 R6 R7] E F1 (k & Hk & [= ->]) F2 Hc. rewrite E in *.
  rewrite insert_app_r_alt, Nat.sub_diag by lia. simpl.
  constructor; simpl; try done.
  - apply Forall_app in R2 as [? [? ?]%Forall_cons]. apply Forall_app. split; [done|by constructor].
  - by rewrite (middle_keys e1 e2 p _ (r, c)).
  - apply Forall2_app; [done|]. constructor; [by exists k|done].
  - by rewrite (middle_keys l1 l2 _ _ (r, c)).
  - rewrite (proj1 (table_middle l1 l2 _ (r, c') ltac:(by rewrite (middle_keys l1 l2 _ _ (r, c))))).
    rewrite (proj1 (table_middle l1 l2 _ (r, c) R5)). by rewrite insert_insert_eq.
  - apply Forall_app in R7 as [? [? ?]%Forall_cons]. apply Forall_app. split; [|constructor; [done|]];
      (eapply Forall_impl; [done|]); simpl; lia.
Qed.

Lemma rep_grow n d A l p k : represents n d A l -> keys d !! p = None -> represents n (set_keys (<[p := k]> (keys d)) d) A l.
Proof.
  intros [R1 R2 R3 R4 R5 R6 R7] Hp. constructor; simpl; try done; [|by apply reads_insert].
  apply insert_subseteq_r; [by eapply lookup_weaken_None|done].
Qed.

Lemma rep_mono n d A l : represents n d A l -> represents (n + 1) d A l.
Proof. intros [R1 R2 R3 R4 R5 R6 R7]. constructor; try done. eapply Forall_impl; [done|]. simpl. lia. Qed.

Lemma rep_epfd n d A l e : represents n d A l -> represents n (set_epfd e d) A l.
Proof. by intros []. Qed.

Lemma reserve_sim n d A l created key k : represents n d A l -> K !! key = Some k -> 0 <= n < 2 ^ 31 - 1 ->
  exists r d' A' l', reserve_ring 0 fds created key d = Ok (r, d') /\
    spec_reserve created (kv k) A = (Reserved r, A') /\ represents (n + 1) d' A' l'.
Proof.
  intros R HK Hn. pose proof R as [R1 R2 R3 R4 R5 R6 R7]. subst A.
  assert (keys d !! key = Some k) as Hk by by eapply lookup_weaken.
  unfold reserve_ring, ring_key_redirection_reserve, map_find, load_key. cbn [Z.eqb mbind res_bind].
  rewrite Hk. cbn [must mbind res_bind].
  destruct (map_index_spec (keys d) k _ _ R4) as [[-> Hn']|(e1 & p & [r c] & e2 & l1 & l2 & -> & E & -> & F1 & F & F2)];
    cbn [must mbind res_bind].
  - unfold new_key. set (p := fresh (dom (keys d))).
    assert (keys d !! p = None) as Hp by (apply not_elem_of_dom, is_fresh).
    assert (K !! p = None) as HKp by by eapply lookup_weaken_None.
    unfold spec_reserve. rewrite not_elem_of_list_to_map_1 by done.
    apply (rep_grow _ _ _ _ p k) in R as Rg; [|done]. destruct created as [r|].
    + exists (Some r), (add_fds (fds r) (set_ring_map ((p, (r, 1)) :: m_h_ring_map d) (set_keys (<[p := k]> (keys d)) d))),
        (<[kv k := (r, 1)]> (list_to_map l)), ((kv k, (r, 1)) :: l). do 2 (split; [done|]). apply rep_epfd.
      destruct Rg as [G1 G2 G3 G4 G5 G6 G7]. constructor; simpl in *; try done.
      * by constructor.
      * constructor; [|done]. intros (e & He & Hin)%list_elem_of_fmap. subst.
        apply list_elem_of_lookup in Hin as [i Hi]. eapply Forall2_lookup_l in R4 as (y & _ & (k' & Hk' & _)); [|exact Hi].
        rewrite <- He in Hk'. congruence.
      * constructor; [|done]. exists k. simpl. by rewrite lookup_insert_eq.
      * by constructor.
      * constructor; [simpl; lia|]. eapply Forall_impl; [done|]. simpl. lia.
    + eexists None, _, _, l. do 2 (split; [done|]). by apply rep_mono.
  - rewrite E, list_lookup_middle by done. cbn [must mbind res_bind]. rewrite <- E.
    assert (0 < c <= n) as Hc by (apply Forall_app in R7 as [_ [? _]%Forall_cons]; done).
    rewrite swrap_small by lia. pose proof (table_middle l1 l2 _ _ R5) as (Et & _ & _).
    assert ((list_to_map (l1 ++ (kv k, (r, c)) :: l2) : ring_table) !! kv k = Some (r, c)) as El
      by (rewrite Et; apply lookup_insert_eq).
    unfold spec_reserve. rewrite El.
    eexists (Some r), _, _, _. do 2 (split; [done|]). eapply update_entry; try done. lia.
Qed.

(** Removing the entry at [length e1] and deleting its key. *)
Lemma remove_entry n d e1 p r c e2 l1 kx l2 :
  represents n d (list_to_map (l1 ++ (kx, (r, c)) :: l2)) (l1 ++ (kx, (r, c)) :: l2) ->
  m_h_ring_map d = e1 ++ (p, (r, c)) :: e2 -> Forall2 (reads (keys d)) e1 l1 -> Forall2 (reads (keys d)) e2 l2 ->
  represents n (set_ring_map (e1 ++ e2) (set_keys (delete p (keys d)) d))
    (delete kx (list_to_map (l1 ++ (kx, (r, c)) :: l2))) (l1 ++ l2).
Proof.
  intros [R1 R2 R3 R4 R5 R6 R7] E F1 F2. rewrite E in *.
  destruct (table_middle l1 l2 _ _ R5) as (Et & Hn & Hnd).
  apply Forall_app in R2 as [O1 [Op O2]%Forall_cons]. simpl in Op.
  assert (NoDup ((p, (r, c)) :: e1 ++ e2).*1) as N by by rewrite Permutation_middle.
  rewrite fmap_cons in N. apply NoDup_cons in N as [Np N]. simpl in Np.
  constructor; simpl; try done.
  - apply map_subseteq_spec. intros q k Hq. rewrite lookup_delete_ne by (intros ->; congruence). by eapply lookup_weaken.
  - by apply Forall_app.
  - rewrite fmap_app, not_elem_of_app in Np. destruct Np. apply Forall2_app; by apply reads_delete.
  - by rewrite Et, delete_insert_id.
  - apply Forall_app in R7 as [? [? ?]%Forall_cons]. by apply Forall_app.
Qed.

Lemma release_sim n d A l key k : represents n d A l -> K !! key = Some k -> 0 <= n < 2 ^ 31 - 1 ->
  exists b d' A' l', release_ring 0 fds key d = Ok (b, d') /\
    spec_release (kv k) A = (Released b, A') /\ represents (n + 1) d' A' l'.
Proof.
  intros R HK Hn. pose proof R as [R1 R2 R3 R4 R5 R6 R7]. subst A.
  assert (keys d !! key = Some k) as Hk by by eapply lookup_weaken.
  unfold release_ring, ring_key_redirection_release, map_find, load_key. cbn [Z.eqb mbind res_bind].
  rewrite Hk. cbn [must mbind res_bind].
  destruct (map_index_spec (keys d) k _ _ R4) as [[-> Hn']|(e1 & p & [r c] & e2 & l1 & l2 & -> & E & -> & F1 & F & F2)];
    cbn [must mbind res_bind].
  - exists false, d, (list_to_map l), l. split; [done|]. unfold spec_release. rewrite not_elem_of_list_to_map_1 by done.
    split; [done|]. by apply rep_mono.
  - rewrite E, list_lookup_middle by done. cbn [must mbind res_bind].
    assert (0 < c <= n) as Hc by (apply Forall_app in R7 as [_ [? _]%Forall_cons]; done).
    rewrite swrap_small by lia. pose proof (table_middle l1 l2 _ _ R5) as (Et & _ & _).
    assert ((list_to_map (l1 ++ (kv k, (r, c)) :: l2) : ring_table) !! kv k = Some (r, c)) as El
      by (rewrite Et; apply lookup_insert_eq).
    unfold spec_release. rewrite El. destruct (c =? 1) eqn:E1.
    + rewrite (proj2 (Z.eqb_eq (c - 1) 0)) by lia. unfold delete_key, load_key.
      change (keys (del_fds (fds r) d)) with (keys d). destruct F as (kp & Hp & _). simpl in Hp. rewrite Hp. cbn [must mbind res_bind].
      eexists true, _, _, (l1 ++ l2). do 2 (split; [done|]). apply rep_mono.
      change (m_h_ring_map (set_keys _ (del_fds (fds r) d))) with (m_h_ring_map d). rewrite E, delete_middle.
      apply (rep_epfd _ _ _ _ (global_epfd (del_fds (fds r) d))) in R.
      apply (remove_entry _ _ e1 p r c e2) in R; done.
    + rewrite (proj2 (Z.eqb_neq (c - 1) 0)) by lia. rewrite <- E.
      eexists true, _, _, _. do 2 (split; [done|]). eapply update_entry; try done. lia.
Qed.

Lemma exec_all_sim os : forall n d A l, represents n d A l -> 0 <= n -> n + Z.of_nat (length os) < 2 ^ 31 ->
  Forall (fun o => is_Some (match o with Reserve _ key | Release key => K !! key end)) os ->
  exists rs d' A' l', exec_all 0 fds os d = Ok (rs, d') /\ spec_all K os A = Some (rs, A') /\
    represents (n + Z.of_nat (length os)) d' A' l'.
Proof.
  induction os as [|o os IH]; intros n d A l R H0 Hn Hos; cbn [exec_all spec_all].
  - exists [], d, A, l. by rewrite Z.add_0_r.
  - apply Forall_cons in Hos as [Ho Hos]. simpl in Hn.
    assert (exists r d' A' l', exec 0 fds o d = Ok (r, d') /\ spec_op K o A = Some (r, A') /\ represents (n + 1) d' A' l')
      as (r & d1 & A1 & l1 & -> & -> & R1).
    { destruct o as [created key|key]; destruct Ho as [k Hk]; simpl; rewrite Hk; simpl.
      - destruct (reserve_sim n d A l created key k R Hk) as (r & d' & A' & l' & -> & -> & R'); [lia|]. simpl. eauto 10.
      - destruct (release_sim n d A l key k R Hk) as (b & d' & A' & l' & -> & -> & R'); [lia|]. simpl. eauto 10. }
    destruct (IH (n + 1) d1 A1 l1 R1) as (rs & d2 & A2 & l2 & E1 & E2 & R2); [lia|lia|done|].
    exists (r :: rs), d2, A2, l2. cbn [mbind res_bind option_bind]. rewrite E1, E2. do 2 (split; [done|]).
    replace (n + Z.of_nat (length (o :: os))) with (n + 1 + Z.of_nat (length os)) by (simpl length; lia). done.
Qed.
End Unlimited.

(** C25: Without a limit on the number of rings, a device is a table of
    reference counts: for every sequence of [reserve_ring] and
    [release_ring] calls with live keys of the callers, no call touches a
    deleted key, and each returns what the table says: the existing ring of
    an equal key or the newly created one, and the ring disappears with its
    last reference. *)
Theorem ringmap_refines fds K os epfd : Z.of_nat (length os) < 2 ^ 31 ->
  Forall (fun o => is_Some (match o with Reserve _ key | Release key => K !! key end)) os ->
  exists rs d' A', exec_all 0 fds os (NetDev K [] [] epfd) = Ok (rs, d') /\ spec_all K os ∅ = Some (rs, A') /\
    exists l, list_to_map l = A' /\ Forall2 (reads (keys d')) (m_h_ring_map d') l.
Proof.
  intros Hn Hos. destruct (exec_all_sim fds K os 0 (NetDev K [] [] epfd) ∅ []) as (rs & d' & A' & l' & H1 & H2 & R); try done.
  - constructor; simpl; done || constructor.
  - exists rs, d', A'. do 2 (split; [done|]). exists l'. destruct R. done.
Qed.

Definition example_keys : gmap kptr ring_alloc_logic_attr :=
  {[ 1%positive := new_attr RING_LOGIC_PER_SOCKET; 2%positive := set_user_id_key 9 (new_attr RING_LOGIC_PER_SOCKET);
     3%positive := set_user_id_key 0 (new_attr RING_LOGIC_PER_SOCKET) ]}.
Definition example_ops : list ring_op :=
  [Reserve (Some 100) 1%positive; Reserve (Some 200) 2%positive; Reserve (Some 300) 3%positive;
   Release 1%positive; Release 3%positive; Release 1%positive].

Lemma ringmap_refines_witness : exists d', exec_all 0 (fun r => [r]) example_ops (NetDev example_keys [] [] []) =
  Ok ([Reserved (Some 100); Reserved (Some 200); Reserved (Some 100); Released true; Released true; Released false], d').
Proof.
  destruct (ringmap_refines (fun r => [r]) example_keys example_ops []) as (rs & d' & A' & H1 & H2 & _).
  - reflexivity.
  - repeat constructor; vm_compute; eexists; reflexivity.
  - exists d'. rewrite H1. vm_compute in H2. injection H2 as <- _. reflexivity.
Defined.

(** With a limit on the number of rings, releasing a ring touches freed
    memory: [ring_key_redirection_release] deletes the redirection key with
    its last reference and returns the pointer, which [release_ring] then
    looks up.  Reserving a ring on an unused device and releasing it again
    is enough. *)
Theorem ringmap_limit_use_after_free limit fds K key k r epfd : 0 < limit -> K !! key = Some k ->
  m_ring_alloc_logic k <> RING_LOGIC_PER_USER_ID ->
  exists d', reserve_ring limit fds (Some r) key (NetDev K [] [] epfd) = Ok (Some r, d') /\
    release_ring limit fds key d' = Undef.
Proof.
  intros Hl Hk Hu. unfold reserve_ring, ring_key_redirection_reserve, map_find, load_key, new_key.
  rewrite (proj2 (Z.eqb_neq limit 0)) by lia. cbn [keys m_h_ring_map m_h_ring_key_redirection_map]. rewrite Hk.
  cbn [must mbind res_bind map_index length]. rewrite bool_decide_eq_false_2 by done. cbn [must mbind res_bind].
  change (Z.of_nat 0) with 0. rewrite (proj2 (Z.ltb_lt 0 limit)) by lia.
  set (p := fresh (dom K)). assert (K !! p = None) as Hp by (apply not_elem_of_dom, is_fresh). set (k2 := set_user_id_key 0 k).
  cbn [mbind res_bind keys set_keys set_redirection m_h_ring_map]. rewrite lookup_insert_eq. cbn [must mbind res_bind map_index keys].
  set (q := fresh (dom (<[p := k2]> K))). assert (<[p := k2]> K !! q = None) as Hq by (apply not_elem_of_dom, is_fresh).
  eexists. split; [done|]. assert (p <> q) as Hpq by (intros E; rewrite E, lookup_insert_eq in Hq; done).
  assert (p <> key) as Hpk by congruence. assert (q <> key) as Hqk.
  { intros ->. rewrite lookup_insert_ne in Hq by done. congruence. }
  unfold release_ring, ring_key_redirection_release, map_find, load_key, delete_key, add_fds.
  rewrite (proj2 (Z.eqb_neq limit 0)) by lia. simpl. rewrite !lookup_insert_ne, Hk by done. simpl.
  rewrite (proj2 (kv_inj k k) eq_refl). simpl. unfold load_key. simpl. rewrite lookup_insert_ne, lookup_insert_eq by done. simpl.
  unfold load_key. simpl. by rewrite lookup_delete_eq.
Qed.

Lemma ringmap_limit_use_after_free_witness : exists d',
  reserve_ring 1 (fun r => [r]) (Some 100) 1 (NetDev example_keys [] [] []) = Ok (Some 100, d') /\
  release_ring 1 (fun r => [r]) 1 d' = Undef.
Proof.
  apply (ringmap_limit_use_after_free 1 (fun r => [r]) example_keys 1 (new_attr RING_LOGIC_PER_SOCKET)).
  - lia.
  - vm_compute. reflexivity.
  - discriminate.
Defined.
