(* ===== verification/HashMap.v ===== *)
(** * The hash map of flows (src/vma/util/hash_map.h, hash_map.inl)

    A table of 4096 buckets, each a singly linked list of nodes, with a
    pointer [m_last] to the node that was found last.  A node is modelled by
    its address, key and value; a bucket is the list of its nodes in order,
    and [m_last] is an address that is read through, so that a node that was
    deleted is detected.  A key is given to the hash as its bytes. *)

From S2P Require Import Prelude.

Definition HASH_MAP_SIZE : nat := Z.to_nat 4096.

(** ** The hash *)

(** [csum8[j] ^= *pval] over the bytes, [j] toggling from 1; the two bytes of
    the checksum are kept apart. *)
Fixpoint csum_loop (bytes : list Z) (j : bool) (c0 c1 : Z) : Z * Z :=
  match bytes with
  | [] => (c0, c1)
  | b :: bytes =>
    if j then csum_loop bytes false c0 (Z.lxor c1 b) else csum_loop bytes true (Z.lxor c0 b) c1
  end.

(** Folded to 12 bits; [csum] is read as a little-endian 16-bit value. *)
Definition calc_hash (bytes : list Z) : Z :=
  let '(c0, c1) := csum_loop bytes true 0 0 in
  let csum := c0 + 256 * c1 in
  u16 (Z.lor (Z.lxor c0 c1) (Z.shiftl (Z.land (Z.lxor (Z.shiftr csum 4) (Z.shiftr csum 8)) 15) 8)).

Lemma lxor_range a b w : 0 <= w -> 0 <= a < 2 ^ w -> 0 <= b < 2 ^ w -> 0 <= Z.lxor a b < 2 ^ w.
Proof.
  intros Hw Ha Hb. assert (0 <= Z.lxor a b) as H0 by (apply Z.lxor_nonneg; lia). split; [done|].
  destruct (decide (Z.lxor a b = 0)) as [->|Hne]; [lia|]. apply Z.log2_lt_cancel. rewrite Z.log2_pow2 by done.
  assert (Z.log2 (Z.lxor a b) < w); [|done].
  destruct (Z.lt_ge_cases (Z.log2 (Z.lxor a b)) w) as [|Hge]; [done|].
  assert (Z.testbit (Z.lxor a b) (Z.log2 (Z.lxor a b)) = true) as Hb1 by (apply Z.bit_log2; lia).
  rewrite Z.lxor_spec, (testbit_lt a w), (testbit_lt b w) in Hb1 by lia. done.
Qed.

Lemma csum_range bytes j c0 c1 : Forall (fun b => 0 <= b < 256) bytes -> 0 <= c0 < 256 -> 0 <= c1 < 256 ->
  let '(d0, d1) := csum_loop bytes j c0 c1 in 0 <= d0 < 256 /\ 0 <= d1 < 256.
Proof.
  intros Hb. revert j c0 c1. induction Hb as [|b bytes Hb _ IH]; intros j c0 c1 H0 H1; simpl; [done|].
  destruct j; apply IH; try done; by apply (lxor_range _ _ 8).
Qed.

(** The hash of any key is a bucket number. *)
Lemma calc_hash_range bytes : Forall (fun b => 0 <= b < 256) bytes -> 0 <= calc_hash bytes < 4096.
Proof.
  intros Hb. unfold calc_hash. pose proof (csum_range bytes true 0 0 Hb ltac:(lia) ltac:(lia)) as Hr.
  destruct (csum_loop bytes true 0 0) as [c0 c1]. destruct Hr as [H0 H1].
  set (hi := Z.land _ 15). assert (0 <= hi < 16) as Hhi.
  { unfold hi. change 15 with (Z.ones 4). rewrite Z.land_ones by lia. apply Z.mod_pos_bound. lia. }
  pose proof (lxor_range c0 c1 8 ltac:(lia) H0 H1). rewrite Z.lor_comm, lor_shiftl_add by lia. rewrite wrap_small by lia. lia.
Qed.

Section Map.
Context {K V : Type} `{EqDecision K} (key_bytes : K -> list Z).

(** ** Data *)

Abbreviation node_ptr := positive.
Record map_node := MapNode { node_addr : node_ptr; key : K; value : V }.

Record hash_map := HashMap { m_hash_table : list (list map_node); m_last : option node_ptr; next_addr : node_ptr }.

Definition hash (k : K) : nat := Z.to_nat (calc_hash (key_bytes k)).

Definition new_hash_map : hash_map := HashMap (replicate HASH_MAP_SIZE []) None 1%positive.

(** The live node at an address. *)
Definition node_at (m : hash_map) (p : node_ptr) : option map_node :=
  find (fun n => Pos.eqb (node_addr n) p) (mjoin (m_hash_table m)).

(** The walk along a bucket: the nodes before the first one with the key,
    that node, and the nodes after it. *)
Fixpoint find_node (k : K) (b : list map_node) : option (list map_node * map_node * list map_node) :=
  match b with
  | [] => None
  | n :: b =>
    if decide (key n = k) then Some ([], n, b)
    else match find_node k b with Some (l, n', r) => Some (n :: l, n', r) | None => None end
  end.

Definition bucket (m : hash_map) (k : K) : res (list map_node) := must (m_hash_table m !! hash k).
Definition set_bucket (k : K) (b : list map_node) (m : hash_map) : hash_map :=
  HashMap (<[hash k := b]> (m_hash_table m)) (m_last m) (next_addr m).
Definition set_last (p : option node_ptr) (m : hash_map) : hash_map := HashMap (m_hash_table m) p (next_addr m).

(** ** Operations *)

Definition hm_get (k : K) (default_value : V) (m : hash_map) : res (V * hash_map) :=
  last ← (match m_last m with
          | None => Ok None
          | Some p => n ← must (node_at m p); Ok (if decide (key n = k) then Some n else None)
          end);
  match last with
  | Some n => Ok (value n, m)
  | None =>
    b ← bucket m k;
    match find_node k b with
    | Some (_, n, _) => Ok (value n, set_last (Some (node_addr n)) m)
    | None => Ok (default_value, m)
    end
  end.

Definition hm_set (k : K) (v : V) (m : hash_map) : res hash_map :=
  b ← bucket m k;
  match find_node k b with
  | Some (l, n, r) => Ok (set_bucket k (l ++ MapNode (node_addr n) k v :: r) m)
  | None =>
    let m' := set_bucket k (b ++ [MapNode (next_addr m) k v]) m in
    Ok (HashMap (m_hash_table m') (m_last m') (Pos.succ (next_addr m)))
  end.

Definition hm_del (k : K) (m : hash_map) : res (bool * hash_map) :=
  b ← bucket m k;
  match find_node k b with
  | Some (l, n, r) =>
    let m := set_bucket k (l ++ r) m in
    Ok (true, if decide (m_last m = Some (node_addr n)) then set_last None m else m)
  | None => Ok (false, m)
  end.

(** ** Iteration *)

Record iterator := Iterator { m_index : Z; m_node : option (list map_node) }.

(** The rest of a bucket from a node on; the table is read out of its bounds
    when the index gets past its end. *)
Fixpoint advance (fuel : nat) (m : hash_map) (it : iterator) : res iterator :=
  match m_node it with
  | Some (_ :: _) => Ok (if Z.of_nat HASH_MAP_SIZE <=? m_index it then Iterator (m_index it) None else it)
  | _ =>
    if m_index it <? Z.of_nat HASH_MAP_SIZE then
      match fuel with
      | O => NoFuel
      | S fuel =>
        b ← must (lookupZ (m_hash_table m) (m_index it + 1));
        advance fuel m (Iterator (m_index it + 1) (Some b))
      end
    else Ok (Iterator (m_index it) None)
  end.

Definition hm_begin (m : hash_map) : res iterator :=
  b ← must (m_hash_table m !! O);
  advance HASH_MAP_SIZE m (Iterator 0 (Some b)).

Definition hm_next (m : hash_map) (it : iterator) : res iterator :=
  advance HASH_MAP_SIZE m (Iterator (m_index it) (tail <$> m_node it)).

(** ** The map as a function *)

Definition hm_lookup (m : hash_map) (k : K) : option V :=
  b ← m_hash_table m !! hash k; '(_, n, _) ← find_node k b; Some (value n).

Definition node_in (m : hash_map) (i : nat) (n : map_node) : Prop :=
  exists b, m_hash_table m !! i = Some b /\ n ∈ b.

Record hm_inv (m : hash_map) : Prop := {
  inv_len : length (m_hash_table m) = HASH_MAP_SIZE;
  inv_keys : forall i b, m_hash_table m !! i = Some b -> NoDup (key <$> b);
  inv_hash : forall i n, node_in m i n -> i = hash (key n);
  inv_addr : forall i j n n', node_in m i n -> node_in m j n' -> node_addr n = node_addr n' -> n = n';
  inv_fresh : forall i n, node_in m i n -> (node_addr n < next_addr m)%positive;
  inv_last : forall p, m_last m = Some p -> exists i n, node_in m i n /\ node_addr n = p
}.

Lemma find_node_Some k b l n r : find_node k b = Some (l, n, r) -> b = l ++ n :: r /\ key n = k.
Proof.
  revert l. induction b as [|x b IH]; intros l; simpl; [done|]. case_decide; [by intros [= <- <- <-]|].
  destruct (find_node k b) as [[[l' n'] r']|]; [|done]. intros [= <- <- <-]. destruct (IH _ eq_refl) as [-> ?]. done.
Qed.

Lemma find_node_None k b n : find_node k b = None -> n ∈ b -> key n <> k.
Proof.
  induction b as [|x b IH]; simpl; [by intros _ ?%not_elem_of_nil|]. case_decide; [done|].
  destruct (find_node k b) as [[[]]|]; [done|]. intros _ [->|Hn]%elem_of_cons; [done|by apply IH].
Qed.

(** In a bucket without repeated keys, the node of a key is the one found. *)
Lemma find_node_unique b n : NoDup (key <$> b) -> n ∈ b -> exists l r, find_node (key n) b = Some (l, n, r).
Proof.
  intros Hnd Hn. destruct (find_node (key n) b) as [[[l n'] r]|] eqn:E; [|by apply find_node_None with (n := n) in E].
  apply find_node_Some in E as [-> Ek]. exists l, r. repeat f_equal.
  apply list_elem_of_lookup in Hn as [i Hi].
  assert ((l ++ n' :: r) !! length l = Some n') as Hj by by apply list_lookup_middle.
  assert (i = length l) as ->; [|congruence].
  eapply NoDup_lookup; [exact Hnd|by rewrite list_lookup_fmap, Hi|rewrite list_lookup_fmap, Hj; simpl; by rewrite Ek].
Qed.

Lemma lookup_node m k v : hm_inv m -> hm_lookup m k = Some v <-> exists i n, node_in m i n /\ key n = k /\ value n = v.
Proof.
  intros I. unfold hm_lookup. split.
  - intros (b & Hb & ([[l n] r] & Hf & [= <-])%bind_Some)%bind_Some. apply find_node_Some in Hf as [-> Hk].
    exists (hash k), n. split; [|done]. exists (l ++ n :: r). split; [done|set_solver].
  - intros (i & n & (b & Hb & Hn) & <- & <-). rewrite <- (inv_hash m I i n), Hb by by exists b. simpl.
    destruct (find_node_unique b n) as (l & r & ->); [by eapply inv_keys|done|done].
Qed.

Lemma lookup_none m k : hm_inv m -> hm_lookup m k = None <-> forall i n, node_in m i n -> key n <> k.
Proof.
  intros I. rewrite eq_None_not_Some. split.
  - intros H i n Hn Hk. apply H. exists (value n). apply lookup_node; [done|]. by exists i, n.
  - intros H [v (i & n & Hn & Hk & _)%lookup_node]; [|done]. by eapply H.
Qed.
(** ** Each operation on the map as a function *)

Hypothesis Hhash : forall k, (hash k < HASH_MAP_SIZE)%nat.

Lemma bucket_ok m k : hm_inv m -> exists b, bucket m k = Ok b /\ m_hash_table m !! hash k = Some b.
Proof.
  intros I. destruct (m_hash_table m !! hash k) as [b|] eqn:E.
  - exists b. unfold bucket. by rewrite E.
  - apply lookup_ge_None in E. rewrite (inv_len m I) in E. specialize (Hhash k). lia.
Qed.

Lemma node_at_Some m p n : node_at m p = Some n -> node_addr n = p /\ exists i, node_in m i n.
Proof.
  unfold node_at. intros H. apply List.find_some in H as [Hin Hp]. split; [by apply Pos.eqb_eq|].
  apply list_elem_of_In, list_elem_of_join in Hin as (b & Hn & [i Hi]%list_elem_of_lookup). exists i, b. done.
Qed.

Lemma node_at_live m i n : node_in m i n -> is_Some (node_at m (node_addr n)).
Proof.
  intros (b & Hb & Hn). unfold node_at. destruct (find _ _) eqn:E; [done|].
  apply List.find_none with (x := n) in E.
  - apply Pos.eqb_neq in E. done.
  - apply list_elem_of_In, list_elem_of_join. exists b. split; [done|]. by apply list_elem_of_lookup_2 in Hb.
Qed.

Lemma set_last_inv m i n : hm_inv m -> node_in m i n -> hm_inv (set_last (Some (node_addr n)) m).
Proof. intros [] Hn. constructor; try done. simpl. intros p [= <-]. by exists i, n. Qed.

Lemma hm_get_spec k d m : hm_inv m -> exists m', hm_get k d m = Ok (default d (hm_lookup m k), m') /\
  hm_inv m' /\ m_hash_table m' = m_hash_table m.
Proof.
  intros I. unfold hm_get. destruct (bucket_ok m k I) as (b & Hb & Hb').
  assert (exists m', (b ← bucket m k;
      match find_node k b with
      | Some (_, n, _) => Ok (value n, set_last (Some (node_addr n)) m)
      | None => Ok (d, m)
      end) = Ok (default d (hm_lookup m k), m') /\ hm_inv m' /\ m_hash_table m' = m_hash_table m) as Hwalk.
  { rewrite Hb. cbn [mbind res_bind]. unfold hm_lookup. rewrite Hb'. simpl.
    destruct (find_node k b) as [[[l n] r]|] eqn:E; simpl; [|by exists m].
    eexists. split; [done|]. split; [|done]. eapply set_last_inv; [done|]. exists b. split; [done|].
    apply find_node_Some in E as [-> _]. set_solver. }
  destruct (m_last m) as [p|] eqn:El; [|done]. destruct (inv_last m I p El) as (i & n & Hn & <-).
  destruct (node_at_live m i n Hn) as [n' Hn']. rewrite Hn'. cbn [must mbind res_bind].
  apply node_at_Some in Hn' as (Ha & j & Hj). rewrite (inv_addr m I _ _ _ _ Hj Hn Ha). case_decide as Ek; [|done].
  exists m. split; [|done]. do 2 f_equal. assert (hm_lookup m k = Some (value n)) as ->; [|done].
  apply lookup_node; [done|]. by exists i, n.
Qed.

(** Membership after the bucket of a key changed. *)
Lemma node_in_set m k b i n : hm_inv m ->
  node_in (set_bucket k b m) i n <-> (i = hash k /\ n ∈ b) \/ (i <> hash k /\ node_in m i n).
Proof.
  intros I. unfold node_in. simpl. assert (hash k < length (m_hash_table m))%nat by (rewrite (inv_len m I); apply Hhash).
  destruct (decide (i = hash k)) as [->|Hi].
  - rewrite list_lookup_insert_eq by done. naive_solver.
  - rewrite list_lookup_insert_ne by done. naive_solver.
Qed.

Lemma set_bucket_inv m k b b' last' next' : hm_inv m -> m_hash_table m !! hash k = Some b ->
  NoDup (key <$> b') -> (forall n, n ∈ b' -> hash (key n) = hash k) ->
  (forall n n', n ∈ b' -> n' ∈ b' -> node_addr n = node_addr n' -> n = n') ->
  (next_addr m <= next')%positive ->
  (forall n, n ∈ b' -> (exists n0, n0 ∈ b /\ node_addr n0 = node_addr n) \/
                     (node_addr n = next_addr m /\ next_addr m < next')%positive) ->
  (forall p, last' = Some p -> exists i n, node_in (set_bucket k b' m) i n /\ node_addr n = p) ->
  hm_inv (HashMap (<[hash k := b']> (m_hash_table m)) last' next').
Proof.
  intros I Hb Hnd Hh Ha Hnx Hold Hlast. pose proof I as [I1 I2 I3 I4 I5 I6].
  assert (forall i n, node_in (HashMap (<[hash k := b']> (m_hash_table m)) last' next') i n <->
            node_in (set_bucket k b' m) i n) as E by done.
  assert (forall j n n', n ∈ b' -> j <> hash k -> node_in m j n' -> node_addr n <> node_addr n') as Hcross.
  { intros j n n' Hn Hj Hn' He. destruct (Hold n Hn) as [(n0 & Hn0 & Ha0)|[Ha0 _]].
    - assert (n0 = n') as -> by (eapply (I4 (hash k) j); [by exists b|done|congruence]).
      apply Hj. rewrite (I3 j n' Hn'). symmetry. apply (I3 (hash k) n'). by exists b.
    - pose proof (I5 j n' Hn'). lia. }
  constructor.
  - simpl. by rewrite length_insert.
  - intros i c Hc. simpl in Hc. apply list_lookup_insert_Some in Hc as [(E1 & E2 & _)|[_ Hc]]; [by subst|by eapply I2].
  - intros i n [[-> Hn]|[_ Hn]]%E%node_in_set; [|by apply I3|done]. symmetry. by apply Hh.
  - intros i j n n' Hn Hn'. rewrite E, node_in_set in Hn, Hn' by done.
    destruct Hn as [[-> Hn]|[Hi Hn]], Hn' as [[-> Hn']|[Hj Hn']]; intros He; [by apply Ha|..|by eapply I4].
    + by eapply Hcross in He.
    + by symmetry in He; eapply Hcross in He.
  - intros i n [[-> Hn]|[_ Hn]]%E%node_in_set; [|specialize (I5 i n Hn); simpl; lia|done]. simpl.
    destruct (Hold n Hn) as [(n0 & Hn0 & <-)|[-> ?]]; [|done].
    assert (node_addr n0 < next_addr m)%positive by (apply (I5 (hash k)); by exists b). lia.
  - simpl. intros p (i & n & Hn & Hp)%Hlast. exists i, n. by rewrite E.
Qed.

(** The lookup in two maps that differ in one bucket. *)
Lemma lookup_ext m m' k f : hm_inv m -> hm_inv m' ->
  (forall k' v, (exists i n, node_in m' i n /\ key n = k' /\ value n = v) <->
     if decide (k' = k) then f = Some v else exists i n, node_in m i n /\ key n = k' /\ value n = v) ->
  forall k', hm_lookup m' k' = if decide (k' = k) then f else hm_lookup m k'.
Proof.
  intros I I' H k'. apply option_eq. intros v. rewrite (lookup_node m') by done. rewrite H. case_decide; [done|].
  by rewrite lookup_node.
Qed.

Lemma fmap_key_replace (l : list map_node) n v (r : list map_node) :
  key <$> (l ++ MapNode (node_addr n) (key n) v :: r) = key <$> (l ++ n :: r).
Proof. by rewrite !fmap_app. Qed.

Lemma hm_set_old k v m b l n r : hm_inv m -> m_hash_table m !! hash k = Some b -> b = l ++ n :: r -> key n = k ->
  hm_inv (set_bucket k (l ++ MapNode (node_addr n) k v :: r) m).
Proof.
  intros I Hb -> <-. pose proof I as [I1 I2 I3 I4 I5 I6].
  assert (forall x, x ∈ l ++ n :: r -> node_in m (hash (key n)) x) as Hin by (intros x Hx; by eexists).
  assert (NoDup (node_addr <$> l ++ n :: r)) as Hna.
  { apply NoDup_fmap_2_strong; [|by eapply (NoDup_fmap_1 key), I2].
    intros x y Hx Hy. by apply (I4 (hash (key n)) (hash (key n))); apply Hin. }
  eapply set_bucket_inv; try done.
  - rewrite fmap_key_replace. by eapply I2.
  - intros x Hx. assert (key x ∈ key <$> (l ++ n :: r)) as Hk.
    { rewrite <- (fmap_key_replace l n v r). by apply list_elem_of_fmap_2. }
    apply list_elem_of_fmap in Hk as (y & -> & Hy). symmetry. by apply I3, Hin.
  - assert (NoDup (node_addr <$> (l ++ MapNode (node_addr n) (key n) v :: r))) as Hna'.
    { rewrite fmap_app in *. done. }
    intros x y Hx Hy He. apply list_elem_of_lookup in Hx as [i Hi]. apply list_elem_of_lookup in Hy as [j Hj].
    assert (i = j) as ->; [|congruence]. eapply NoDup_lookup; [exact Hna'|by rewrite list_lookup_fmap, Hi|].
    rewrite list_lookup_fmap, Hj. simpl. by rewrite He.
  - intros x Hx. left. apply elem_of_app in Hx as [Hx|[->|Hx]%elem_of_cons]; [exists x|exists n|exists x]; set_solver.
  - intros p (i & x & Hx & <-)%I6. destruct (decide (i = hash (key n))) as [->|Hi].
    + destruct Hx as (b & Hb' & Hx). simplify_eq. exists (hash (key n)).
      apply elem_of_app in Hx as [Hx|[->|Hx]%elem_of_cons].
      * exists x. split; [|done]. apply node_in_set; [done|]. left. set_solver.
      * eexists (MapNode (node_addr n) (key n) v). split; [|done]. apply node_in_set; [done|]. left. set_solver.
      * exists x. split; [|done]. apply node_in_set; [done|]. left. set_solver.
    + exists i, x. split; [|done]. apply node_in_set; [done|]. by right.
Qed.

Lemma hm_set_new k v m b : hm_inv m -> m_hash_table m !! hash k = Some b -> find_node k b = None ->
  hm_inv (HashMap (<[hash k := b ++ [MapNode (next_addr m) k v]]> (m_hash_table m)) (m_last m) (Pos.succ (next_addr m))).
Proof.
  intros I Hb Hf. pose proof I as [I1 I2 I3 I4 I5 I6].
  assert (forall x, x ∈ b -> node_in m (hash k) x) as Hin by (intros x Hx; by eexists).
  assert (forall x, x ∈ b -> (node_addr x < next_addr m)%positive) as Hfr by (intros x Hx; by eapply I5, Hin).
  eapply set_bucket_inv; try done.
  - rewrite fmap_app. apply NoDup_app. split; [by eapply I2|]. split; [|apply NoDup_singleton].
    intros k' (x & -> & Hx)%list_elem_of_fmap Hk%list_elem_of_singleton. by eapply find_node_None in Hf.
  - intros x [Hx| ->%list_elem_of_singleton]%elem_of_app; [|done]. symmetry. by apply I3, Hin.
  - intros x y [Hx| ->%list_elem_of_singleton]%elem_of_app [Hy| ->%list_elem_of_singleton]%elem_of_app He; simpl in *.
    + eapply I4; [by apply Hin|by apply Hin|done].
    + specialize (Hfr x Hx). lia.
    + specialize (Hfr y Hy). lia.
    + done.
  - lia.
  - intros x [Hx| ->%list_elem_of_singleton]%elem_of_app; [left; by exists x|right; simpl; lia].
  - intros p (i & x & Hx & <-)%I6. exists i, x. split; [|done]. apply node_in_set; [done|].
    destruct (decide (i = hash k)) as [->|Hi]; [|by right]. destruct Hx as (b' & Hb' & Hx). simplify_eq. left. set_solver.
Qed.

(** In a bucket split at a node, no other node has its key. *)
Lemma key_elsewhere m i l n r x : hm_inv m -> m_hash_table m !! i = Some (l ++ n :: r) -> x ∈ l \/ x ∈ r -> key x <> key n.
Proof.
  intros I Hb Hx Hk. pose proof (inv_keys m I _ _ Hb) as Hnd. rewrite fmap_app in Hnd.
  apply NoDup_app in Hnd as (_ & Hl & [Hr _]%NoDup_cons). destruct Hx as [Hx|Hx].
  - apply (Hl (key x)); [by apply list_elem_of_fmap_2|]. rewrite Hk. left.
  - apply Hr. rewrite <- Hk. by apply list_elem_of_fmap_2.
Qed.

Lemma hm_set_old_lookup v m l n r : hm_inv m -> m_hash_table m !! hash (key n) = Some (l ++ n :: r) ->
  forall k', hm_lookup (set_bucket (key n) (l ++ MapNode (node_addr n) (key n) v :: r) m) k' =
             if decide (k' = key n) then Some v else hm_lookup m k'.
Proof.
  intros I Hb. pose proof (hm_set_old (key n) v m _ l n r I Hb eq_refl eq_refl) as I'.
  apply lookup_ext; [done..|]. intros k' w. setoid_rewrite node_in_set; [|done]. case_decide as Hkk; subst; split.
  - intros (i & x & [[-> Hx]|[Hi Hx]] & Hkx & <-).
    + apply elem_of_app in Hx as [Hx|[->|Hx]%elem_of_cons]; [|done|];
        (exfalso; eapply (key_elsewhere m _ l n r x); [done|done|auto|done]).
    + exfalso. apply Hi. rewrite (inv_hash m I i x Hx). by rewrite Hkx.
  - intros [= <-]. eexists _, (MapNode (node_addr n) (key n) v). split; [left; split; [done|set_solver]|done].
  - intros (i & x & [[-> Hx]|[Hi Hx]] & Hkx & <-); [|by exists i, x]. exists (hash (key n)), x. split; [|done].
    eexists. split; [done|]. apply elem_of_app in Hx as [Hx|[->|Hx]%elem_of_cons]; [set_solver|done|set_solver].
  - intros (i & x & Hx & Hkx & <-). exists i, x. split; [|done].
    destruct (decide (i = hash (key n))) as [->|Hi]; [|by right]. left. split; [done|].
    destruct Hx as (b & Hb2 & Hx). simplify_eq. apply elem_of_app in Hx as [Hx|[->|Hx]%elem_of_cons]; [set_solver|done|set_solver].
Qed.

Lemma hm_set_new_lookup k v m b : hm_inv m -> m_hash_table m !! hash k = Some b -> find_node k b = None ->
  let m' := HashMap (<[hash k := b ++ [MapNode (next_addr m) k v]]> (m_hash_table m)) (m_last m) (Pos.succ (next_addr m)) in
  forall k', hm_lookup m' k' = if decide (k' = k) then Some v else hm_lookup m k'.
Proof.
  intros I Hb E m'. pose proof (hm_set_new k v m b I Hb E) as I'. apply lookup_ext; [done..|]. intros k' w.
  assert (forall i n, node_in m' i n <-> (i = hash k /\ n = MapNode (next_addr m) k v) \/ node_in m i n) as Hni.
  { intros i n. etransitivity; [apply (node_in_set m k (b ++ [MapNode (next_addr m) k v])); done|].
    rewrite elem_of_app, list_elem_of_singleton. split.
    - intros [[-> [Hn|Hn]]|[Hi Hn]]; [right; by exists b|by left|by right].
    - intros [[-> ->]|Hn]; [by left; auto|]. destruct (decide (i = hash k)) as [->|Hi]; [|by right].
      left. destruct Hn as (b2 & Hb2 & Hn). simplify_eq. auto. }
  setoid_rewrite Hni. case_decide as Hkk; subst; split.
  - intros (i & x & [[-> ->]|Hx] & Hkx & <-); [done|]. exfalso.
    destruct Hx as (b2 & Hb2 & Hx). pose proof (inv_hash m I i x ltac:(by exists b2)) as Hi. rewrite Hkx in Hi. subst.
    simplify_eq. by eapply find_node_None in E.
  - intros [= <-]. eexists _, _. split; [left; split; done|done].
  - intros (i & x & [[-> ->]|Hx] & Hkx & <-); [done|by exists i, x].
  - intros (i & x & Hx & Hkx & <-). exists i, x. split; [by right|done].
Qed.

Lemma hm_set_spec k v m : hm_inv m -> exists m', hm_set k v m = Ok m' /\ hm_inv m' /\
  forall k', hm_lookup m' k' = if decide (k' = k) then Some v else hm_lookup m k'.
Proof.
  intros I. unfold hm_set. destruct (bucket_ok m k I) as (b & Hb & Hb'). rewrite Hb. cbn [mbind res_bind].
  destruct (find_node k b) as [[[l n] r]|] eqn:E.
  - apply find_node_Some in E as [-> <-]. eexists. split; [done|].
    split; [by eapply hm_set_old|by apply hm_set_old_lookup].
  - cbn [m_hash_table m_last set_bucket].
    eexists. split; [done|]. split; [by apply hm_set_new|by apply hm_set_new_lookup].
Qed.

Lemma hm_del_inv m l n r last' : hm_inv m -> m_hash_table m !! hash (key n) = Some (l ++ n :: r) ->
  (forall p, last' = Some p -> m_last m = Some p /\ p <> node_addr n) ->
  hm_inv (HashMap (<[hash (key n) := l ++ r]> (m_hash_table m)) last' (next_addr m)).
Proof.
  intros I Hb Hl. pose proof I as [I1 I2 I3 I4 I5 I6].
  assert (forall x, x ∈ l ++ r -> x ∈ l ++ n :: r) as Hsub by set_solver.
  assert (forall x, x ∈ l ++ n :: r -> node_in m (hash (key n)) x) as Hin by (intros x Hx; by eexists).
  eapply set_bucket_inv; try done.
  - pose proof (I2 _ _ Hb) as Hnd. rewrite fmap_app in *. apply NoDup_app in Hnd as (N1 & N2 & [_ N3]%NoDup_cons).
    apply NoDup_app. split; [done|]. split; [|done]. intros x Hx Hx'. apply (N2 x Hx). by right.
  - intros x Hx. symmetry. by apply I3, Hin, Hsub.
  - intros x y Hx Hy. apply (I4 (hash (key n)) (hash (key n))); by apply Hin, Hsub.
  - intros x Hx. left. exists x. split; [by apply Hsub|done].
  - intros p [Hp Hne]%Hl. apply I6 in Hp as (i & x & Hx & <-). exists i, x. split; [|done]. apply node_in_set; [done|].
    destruct (decide (i = hash (key n))) as [->|Hi]; [|by right]. left. split; [done|].
    destruct Hx as (b & Hb' & Hx). simplify_eq. apply elem_of_app in Hx as [Hx|[->|Hx]%elem_of_cons]; [set_solver|done|set_solver].
Qed.

Lemma hm_del_spec k m : hm_inv m -> exists m', hm_del k m = Ok (bool_decide (is_Some (hm_lookup m k)), m') /\ hm_inv m' /\
  forall k', hm_lookup m' k' = if decide (k' = k) then None else hm_lookup m k'.
Proof.
  intros I. unfold hm_del. destruct (bucket_ok m k I) as (b & Hb & Hb'). rewrite Hb. cbn [mbind res_bind].
  destruct (find_node k b) as [[[l n] r]|] eqn:E.
  - apply find_node_Some in E as [-> <-]. set (m1 := set_bucket (key n) (l ++ r) m).
    set (m' := if decide (m_last m1 = Some (node_addr n)) then _ else _).
    assert (exists last', m' = HashMap (<[hash (key n) := l ++ r]> (m_hash_table m)) last' (next_addr m) /\
              forall p, last' = Some p -> m_last m = Some p /\ p <> node_addr n) as (last' & -> & Hl).
    { unfold m'. case_decide as El; [by exists None|]. exists (m_last m). split; [done|]. intros p Hp. split; [done|].
      intros ->. done. }
    pose proof (hm_del_inv m l n r last' I Hb' Hl) as I'. eexists. split; [|split; [done|]].
    + do 2 f_equal. symmetry. apply bool_decide_eq_true. exists (value n). apply lookup_node; [done|].
      exists (hash (key n)), n. split; [|done]. eexists. split; [done|set_solver].
    + apply lookup_ext; [done..|]. intros k' w. split.
      * intros (i & x & Hx & <- & <-). apply (node_in_set m (key n) (l ++ r)) in Hx; [|done].
        destruct Hx as [[-> Hx]|[Hi Hx]].
        -- rewrite decide_False by (apply (key_elsewhere m (hash (key n)) l n r x I Hb'); by apply elem_of_app).
           exists (hash (key n)), x. split; [|done].
           eexists. split; [done|set_solver].
        -- rewrite decide_False; [by exists i, x|]. intros Hk. apply Hi. by rewrite (inv_hash m I i x Hx), Hk.
      * case_decide as Hk; [done|]. intros (i & x & Hx & <- & <-). exists i, x. split; [|done].
        apply (node_in_set m (key n) (l ++ r)); [done|]. destruct (decide (i = hash (key n))) as [->|Hi]; [|by right]. left. split; [done|].
        destruct Hx as (b & Hb2 & Hx). simplify_eq. apply elem_of_app in Hx as [Hx|[->|Hx]%elem_of_cons]; [set_solver|done|set_solver].
  - assert (hm_lookup m k = None) as Hn by (unfold hm_lookup; rewrite Hb'; simpl; by rewrite E).
    exists m. rewrite Hn. split; [done|]. split; [done|]. intros k'. case_decide; [by subst|done].
Qed.

(** ** A sequence of operations *)

Inductive hm_op := Get (k : K) (default_value : V) | Set_ (k : K) (v : V) | Del (k : K).
Inductive hm_result := Got (v : V) | Done | Deleted (b : bool).

Definition hm_exec (o : hm_op) (m : hash_map) : res (hm_result * hash_map) :=
  match o with
  | Get k d => '(v, m) ← hm_get k d m; Ok (Got v, m)
  | Set_ k v => m ← hm_set k v m; Ok (Done, m)
  | Del k => '(b, m) ← hm_del k m; Ok (Deleted b, m)
  end.

Fixpoint hm_exec_all (os : list hm_op) (m : hash_map) : res (list hm_result * hash_map) :=
  match os with
  | [] => Ok ([], m)
  | o :: os => '(r, m) ← hm_exec o m; '(rs, m) ← hm_exec_all os m; Ok (r :: rs, m)
  end.

(** The same operations on a function from keys to values. *)
Definition fun_exec (o : hm_op) (f : K -> option V) : hm_result * (K -> option V) :=
  match o with
  | Get k d => (Got (default d (f k)), f)
  | Set_ k v => (Done, fun k' => if decide (k' = k) then Some v else f k')
  | Del k => (Deleted (bool_decide (is_Some (f k))), fun k' => if decide (k' = k) then None else f k')
  end.

Fixpoint fun_exec_all (os : list hm_op) (f : K -> option V) : list hm_result :=
  match os with
  | [] => []
  | o :: os => let '(r, f) := fun_exec o f in r :: fun_exec_all os f
  end.

Lemma hm_exec_spec o m f : hm_inv m -> (forall k, hm_lookup m k = f k) ->
  exists m', hm_exec o m = Ok (fst (fun_exec o f), m') /\ hm_inv m' /\ forall k, hm_lookup m' k = snd (fun_exec o f) k.
Proof.
  intros I Hf. destruct o as [k d|k v|k]; simpl.
  - destruct (hm_get_spec k d m I) as (m' & -> & I' & Ht). exists m'. rewrite Hf. split; [done|]. split; [done|].
    intros k'. rewrite <- Hf. unfold hm_lookup. by rewrite Ht.
  - destruct (hm_set_spec k v m I) as (m' & -> & I' & Hl). exists m'. split; [done|]. split; [done|].
    intros k'. by rewrite Hl, Hf.
  - destruct (hm_del_spec k m I) as (m' & -> & I' & Hl). exists m'. simpl. split; [do 2 f_equal; by rewrite Hf|]. split; [done|].
    intros k'. by rewrite Hl, Hf.
Qed.

Lemma hm_exec_all_spec os : forall m f, hm_inv m -> (forall k, hm_lookup m k = f k) ->
  exists m', hm_exec_all os m = Ok (fun_exec_all os f, m') /\ hm_inv m'.
Proof.
  induction os as [|o os IH]; intros m f I Hf; simpl; [by exists m|].
  destruct (hm_exec_spec o m f I Hf) as (m1 & -> & I1 & H1). destruct (fun_exec o f) as [r f']. simpl in *.
  destruct (IH m1 f' I1 H1) as (m2 & -> & I2). by exists m2.
Qed.

Lemma new_inv : hm_inv new_hash_map.
Proof.
  assert (forall i n, ~ node_in new_hash_map i n) as Hno.
  { intros i n (b & [-> _]%lookup_replicate & Hn). by apply not_elem_of_nil in Hn. }
  constructor.
  - apply length_replicate.
  - intros i b [-> _]%lookup_replicate. constructor.
  - by intros i n ?%Hno.
  - by intros i j n n' ?%Hno.
  - by intros i n ?%Hno.
  - intros p [=].
Qed.

Lemma new_lookup k : hm_lookup new_hash_map k = None.
Proof. apply lookup_none; [apply new_inv|]. intros i n (b & [-> _]%lookup_replicate & Hn). by apply not_elem_of_nil in Hn. Qed.
End Map.

(** C26: The hash map is a finite map: every sequence of [get], [set] and
    [del] calls on a new map returns what the same calls on a function from
    keys to values return, with the cached node of the last lookup in use,
    and no call reads a deleted node or outside the table.  The bytes of a
    key are bytes. *)
Theorem hashmap_refines {K V} `{EqDecision K} (key_bytes : K -> list Z) (os : list (@hm_op K V)) :
  (forall k, Forall (fun b => 0 <= b < 256) (key_bytes k)) ->
  exists m, hm_exec_all key_bytes os new_hash_map = Ok (fun_exec_all os (fun _ => None), m).
Proof.
  intros Hb. assert (forall k, (hash key_bytes k < HASH_MAP_SIZE)%nat) as Hh.
  { intros k. unfold hash, HASH_MAP_SIZE. pose proof (calc_hash_range (key_bytes k) (Hb k)). lia. }
  destruct (hm_exec_all_spec key_bytes Hh os new_hash_map (fun _ => None)) as (m & Hm & _);
    [apply new_inv|apply new_lookup|by exists m].
Qed.

(** Keys of one byte: 5 and 6 share no bucket, 5 is looked up twice. *)
Definition byte_key (b : bool) : list Z := [if b then 5 else 6].
Definition example_ops : list (@hm_op bool Z) :=
  [Set_ true 50; Set_ false 60; Get true 0; Set_ true 51; Get true 0; Del true; Get true 7; Del true].

Lemma hashmap_refines_witness : exists m, hm_exec_all byte_key example_ops new_hash_map =
  Ok ([Done; Done; Got 50; Done; Got 51; Deleted true; Got 7; Deleted false], m).
Proof.
  destruct (hashmap_refines byte_key example_ops) as (m & Hm).
  - intros k. unfold byte_key. repeat constructor; destruct k; lia.
  - exists m. exact Hm.
Defined.

Lemma advance_overrun {K V} (m : @hash_map K V) fuel : forall i, length (m_hash_table m) = HASH_MAP_SIZE ->
  (forall j b, (i < j)%nat -> m_hash_table m !! j = Some b -> b = []) -> (i < HASH_MAP_SIZE)%nat ->
  (HASH_MAP_SIZE - i <= fuel)%nat -> advance fuel m (Iterator (Z.of_nat i) (Some [])) = Undef.
Proof.
  induction fuel as [|fuel IH]; intros i Hlen Hempty Hi Hf; [lia|]. cbn [advance m_node m_index].
  rewrite (proj2 (Z.ltb_lt _ _)) by lia. destruct (lookupZ (m_hash_table m) (Z.of_nat i + 1)) as [b|] eqn:E; [|done].
  cbn [must mbind res_bind]. apply lookupZ_Some in E as [_ E]. rewrite Z2Nat.inj_add, Nat2Z.id in E by lia.
  change (Z.to_nat 1) with 1%nat in E. rewrite (Hempty (i + 1)%nat b ltac:(lia) E).
  replace (Z.of_nat i + 1) with (Z.of_nat (i + 1)) by lia. apply lookup_lt_Some in E.
  apply IH; [done| |lia|lia]. intros j b' Hj. apply Hempty. lia.
Qed.

(** Iterating over the map reads past the table: [advance] increments
    the index before it reads a bucket and stops only when the index is the
    size of the table, so from any position with no node after it (the
    beginning of an empty map, or the end of the last list) it reads
    [m_hash_table[HASH_MAP_SIZE]]. *)
Theorem hashmap_iterator_overrun {K V} (m : @hash_map K V) i : length (m_hash_table m) = HASH_MAP_SIZE ->
  (forall j b, (i < j)%nat -> m_hash_table m !! j = Some b -> b = []) -> (i < HASH_MAP_SIZE)%nat ->
  advance HASH_MAP_SIZE m (Iterator (Z.of_nat i) (Some [])) = Undef.
Proof. intros. apply advance_overrun; [done..|lia]. Qed.

Lemma hashmap_iterator_overrun_witness :
  advance HASH_MAP_SIZE (@new_hash_map bool Z) (Iterator (Z.of_nat 0) (Some [])) = Undef.
Proof.
  apply (hashmap_iterator_overrun (@new_hash_map bool Z) 0).
  - apply length_replicate.
  - intros j b _ Hb. apply lookup_replicate in Hb as [-> _]. reflexivity.
  - apply Nat.ltb_lt. vm_compute. reflexivity.
Defined.
