(* ===== verification/RouteTable.v ===== *)
(** * Routing tables and rules (src/vma/proto/route_table_mgr.cpp,
      rule_table_mgr.cpp, route_val.h, rule_val.h)

    VMA keeps copies of the kernel's policy rules and routes and resolves a
    destination itself: the rules that match give a list of tables, and each
    table is searched for the longest prefix.  A netlink message is modelled
    after its header and attributes are decoded.  The lists of network
    devices, the address of an interface and the largest MTU come from other
    components and are parameters.  Addresses are in network byte order. *)

From S2P Require Import Prelude Match.

(** ** Data *)

Record route_val := RouteVal {
  r_dst_addr : Z; r_dst_mask : Z; r_dst_pref_len : Z; r_src_addr : Z; r_gw : Z;
  r_protocol : Z; r_scope : Z; r_type : Z; r_table_id : Z; r_if_name : string; r_if_index : Z;
  r_is_valid : bool; r_deleted : bool; r_if_up : bool; r_mtu : Z
}.

Definition new_route_val : route_val := RouteVal 0 0 0 0 0 0 0 0 0 "" 0 false false true 0.

Record rule_val := RuleVal {
  u_protocol : Z; u_scope : Z; u_type : Z; u_tos : Z; u_dst_addr : Z; u_src_addr : Z;
  u_iif_name : string; u_oif_name : string; u_priority : Z; u_table_id : Z; u_is_valid : bool
}.

Definition new_rule_val : rule_val := RuleVal 0 0 0 0 0 0 "" "" 0 0 false.

Record route_rule_table_key := RouteKey { k_dst_ip : Z; k_src_ip : Z; k_tos : Z }.

Record route_result := RouteResult { p_src : Z; p_gw : Z; res_mtu : Z }.

Definition MAX_TABLE_SIZE : Z := 4096.

(** Setters that the algorithms below use. *)
Definition set_src_addr (a : Z) (v : route_val) : route_val :=
  RouteVal (r_dst_addr v) (r_dst_mask v) (r_dst_pref_len v) a (r_gw v) (r_protocol v) (r_scope v) (r_type v)
    (r_table_id v) (r_if_name v) (r_if_index v) (r_is_valid v) (r_deleted v) (r_if_up v) (r_mtu v).
Definition set_gw (a : Z) (v : route_val) : route_val :=
  RouteVal (r_dst_addr v) (r_dst_mask v) (r_dst_pref_len v) (r_src_addr v) a (r_protocol v) (r_scope v) (r_type v)
    (r_table_id v) (r_if_name v) (r_if_index v) (r_is_valid v) (r_deleted v) (r_if_up v) (r_mtu v).

(** ** Netlink messages *)

Definition RT_TABLE_LOCAL : Z := 255.

(** The header [rtmsg] and the attributes. *)
Record rtmsg := RtMsg {
  rtm_family : Z; rtm_dst_len : Z; rtm_tos : Z; rtm_table : Z; rtm_protocol : Z; rtm_scope : Z; rtm_type : Z
}.

Inductive route_attr :=
| RTA_DST (a : Z)
| RTA_GATEWAY (a : Z)
| RTA_OIF (index : Z)
| RTA_SRC (a : Z)
| RTA_PREFSRC (a : Z)
| RTA_TABLE (t : Z)
| RTA_METRICS (mtus : list Z)
| RTA_OTHER.

Inductive rule_attr :=
| FRA_PRIORITY (p : Z)
| FRA_DST (a : Z)
| FRA_SRC (a : Z)
| FRA_IFNAME (s : string)
| FRA_TABLE (t : Z)
| FRA_OIFNAME (s : string)
| FRA_OTHER.

Section Environment.
(** [if_indextoname], the largest MTU of the devices, the addresses and
    netmasks of the devices of an interface index ([None] is NULL), and the
    address that the kernel reports for an interface name. *)
Context (if_indextoname : Z -> string) (max_mtu : Z).
Context (get_net_device_val_lst_from_index : Z -> option (list (Z * Z))).
Context (get_ipv4_from_ifname : string -> option Z).

Definition set_mtu (mtu : Z) (v : route_val) : route_val :=
  if max_mtu <? mtu then v
  else RouteVal (r_dst_addr v) (r_dst_mask v) (r_dst_pref_len v) (r_src_addr v) (r_gw v) (r_protocol v) (r_scope v)
         (r_type v) (r_table_id v) (r_if_name v) (r_if_index v) (r_is_valid v) (r_deleted v) (r_if_up v) mtu.

Definition parse_route_attr (v : route_val) (a : route_attr) : route_val :=
  match a with
  | RTA_DST a =>
    RouteVal a (r_dst_mask v) (r_dst_pref_len v) (r_src_addr v) (r_gw v) (r_protocol v) (r_scope v)
      (r_type v) (r_table_id v) (r_if_name v) (r_if_index v) (r_is_valid v) (r_deleted v) (r_if_up v) (r_mtu v)
  | RTA_GATEWAY a => set_gw a v
  | RTA_OIF i =>
    RouteVal (r_dst_addr v) (r_dst_mask v) (r_dst_pref_len v) (r_src_addr v) (r_gw v) (r_protocol v) (r_scope v)
      (r_type v) (r_table_id v) (if_indextoname i) i (r_is_valid v) (r_deleted v) (r_if_up v) (r_mtu v)
  | RTA_SRC a | RTA_PREFSRC a => set_src_addr a v
  | RTA_TABLE t =>
    RouteVal (r_dst_addr v) (r_dst_mask v) (r_dst_pref_len v) (r_src_addr v) (r_gw v) (r_protocol v) (r_scope v)
      (r_type v) t (r_if_name v) (r_if_index v) (r_is_valid v) (r_deleted v) (r_if_up v) (r_mtu v)
  | RTA_METRICS mtus => foldl (fun v m => set_mtu m v) v mtus
  | RTA_OTHER => v
  end.

(** [parse_enrty] of the route table: [None] when the entry is skipped. *)
Definition parse_route (h : rtmsg) (attrs : list route_attr) (v : route_val) : res (option route_val) :=
  if negb (rtm_family h =? AF_INET) || (rtm_table h =? RT_TABLE_LOCAL) then Ok None
  else
    mask ← VMA_NETMASK (rtm_dst_len h);
    let v := RouteVal (r_dst_addr v) (htonl (u32 mask)) (rtm_dst_len h) (r_src_addr v) (r_gw v) (rtm_protocol h)
               (rtm_scope h) (rtm_type h) (rtm_table h) (r_if_name v) (r_if_index v) (r_is_valid v) (r_deleted v)
               (r_if_up v) (r_mtu v) in
    let v := foldl parse_route_attr v attrs in
    Ok (Some (RouteVal (r_dst_addr v) (r_dst_mask v) (r_dst_pref_len v) (r_src_addr v) (r_gw v) (r_protocol v)
                (r_scope v) (r_type v) (r_table_id v) (r_if_name v) (r_if_index v) true (r_deleted v) (r_if_up v) (r_mtu v))).

Definition parse_rule_attr (v : rule_val) (a : rule_attr) : rule_val :=
  match a with
  | FRA_PRIORITY p => RuleVal (u_protocol v) (u_scope v) (u_type v) (u_tos v) (u_dst_addr v) (u_src_addr v)
                        (u_iif_name v) (u_oif_name v) p (u_table_id v) (u_is_valid v)
  | FRA_DST a => RuleVal (u_protocol v) (u_scope v) (u_type v) (u_tos v) a (u_src_addr v)
                   (u_iif_name v) (u_oif_name v) (u_priority v) (u_table_id v) (u_is_valid v)
  | FRA_SRC a => RuleVal (u_protocol v) (u_scope v) (u_type v) (u_tos v) (u_dst_addr v) a
                   (u_iif_name v) (u_oif_name v) (u_priority v) (u_table_id v) (u_is_valid v)
  | FRA_IFNAME s => RuleVal (u_protocol v) (u_scope v) (u_type v) (u_tos v) (u_dst_addr v) (u_src_addr v)
                      s (u_oif_name v) (u_priority v) (u_table_id v) (u_is_valid v)
  | FRA_TABLE t => RuleVal (u_protocol v) (u_scope v) (u_type v) (u_tos v) (u_dst_addr v) (u_src_addr v)
                     (u_iif_name v) (u_oif_name v) (u_priority v) t (u_is_valid v)
  | FRA_OIFNAME s => RuleVal (u_protocol v) (u_scope v) (u_type v) (u_tos v) (u_dst_addr v) (u_src_addr v)
                       (u_iif_name v) s (u_priority v) (u_table_id v) (u_is_valid v)
  | FRA_OTHER => v
  end.

Definition parse_rule (h : rtmsg) (attrs : list rule_attr) (v : rule_val) : option rule_val :=
  if negb (rtm_family h =? AF_INET) || (rtm_table h =? RT_TABLE_LOCAL) then None
  else
    let v := RuleVal (rtm_protocol h) (rtm_scope h) (rtm_type h) (rtm_tos h) (u_dst_addr v) (u_src_addr v)
               (u_iif_name v) (u_oif_name v) (u_priority v) (rtm_table h) (u_is_valid v) in
    let v := foldl parse_rule_attr v attrs in
    Some (RuleVal (u_protocol v) (u_scope v) (u_type v) (u_tos v) (u_dst_addr v) (u_src_addr v)
            (u_iif_name v) (u_oif_name v) (u_priority v) (u_table_id v) true).

(** ** Rules *)

Definition is_matching_rule (key : route_rule_table_key) (v : rule_val) : bool :=
  ((u_dst_addr v =? 0) || (u_dst_addr v =? k_dst_ip key)) &&
  ((u_src_addr v =? 0) || (u_src_addr v =? k_src_ip key)) &&
  ((u_tos v =? 0) || (u_tos v =? k_tos key)) &&
  bool_decide (u_iif_name v = ""%string) && bool_decide (u_oif_name v = ""%string).

Definition find_rule_val (key : route_rule_table_key) (rules : list rule_val) : list rule_val :=
  filter (fun v => u_is_valid v && is_matching_rule key v = true) rules.

(** [table_id_list] holds [unsigned char]s. *)
Definition rule_resolve (key : route_rule_table_key) (rules : list rule_val) : list Z :=
  (fun v => u8 (u_table_id v)) <$> find_rule_val key rules.

(** ** The longest prefix *)

Definition route_matches (dst table_id : Z) (v : route_val) : bool :=
  negb (r_deleted v) && r_if_up v && (r_table_id v =? table_id) && (r_dst_addr v =? Z.land dst (r_dst_mask v)).

(** The loop of [find_route_val] from entry [i]: the index of the best. *)
Fixpoint find_route_loop (dst table_id : Z) (i : nat) (longest_prefix : Z) (best : option nat) (tab : list route_val)
  : option nat :=
  match tab with
  | [] => best
  | v :: tab =>
    if route_matches dst table_id v && (longest_prefix <? r_dst_pref_len v)
    then find_route_loop dst table_id (S i) (r_dst_pref_len v) (Some i) tab
    else find_route_loop dst table_id (S i) longest_prefix best tab
  end.

Definition find_route_val (dst table_id : Z) (tab : list route_val) : option nat :=
  find_route_loop dst table_id 0 (-1) None tab.

Fixpoint resolve_loop (dst : Z) (tables : list Z) (tab : list route_val) : option nat :=
  match tables with
  | [] => None
  | t :: tables =>
    match find_route_val dst t tab with
    | Some i => Some i
    | None => resolve_loop dst tables tab
    end
  end.

Definition route_resolve (key : route_rule_table_key) (rules : list rule_val) (tab : list route_val)
  : res (bool * route_result) :=
  match resolve_loop (k_dst_ip key) (rule_resolve key rules) tab with
  | Some i => v ← must (tab !! i); Ok (true, RouteResult (r_src_addr v) (r_gw v) (r_mtu v))
  | None => Ok (false, RouteResult 0 0 0)
  end.

(** ** Source addresses *)

(** The device whose network contains the destination, by longest mask. *)
Fixpoint best_device (dst longest_prefix correct_src : Z) (devs : list (Z * Z)) : Z :=
  match devs with
  | [] => correct_src
  | (local, mask) :: devs =>
    if (Z.land dst mask =? Z.land local mask) && negb (Z.lor mask longest_prefix =? longest_prefix)
    then best_device dst mask local devs
    else best_device dst longest_prefix correct_src devs
  end.

Definition src_from_ioctl (v : route_val) : route_val :=
  match get_ipv4_from_ifname (r_if_name v) with Some a => set_src_addr a v | None => v end.

(** Entries with neither source nor gateway. *)
Definition direct_src (v : route_val) : route_val :=
  if negb (r_src_addr v =? 0) || negb (r_gw v =? 0) then v
  else
    match get_net_device_val_lst_from_index (r_if_index v) with
    | Some devs =>
      let correct_src := best_device (r_dst_addr v) 0 0 devs in
      if negb (correct_src =? 0) then set_src_addr correct_src v else src_from_ioctl v
    | None => src_from_ioctl v
    end.

(** The entry's own gateway leads back to it. *)
Definition own_gateway (v : route_val) : route_val :=
  match get_net_device_val_lst_from_index (r_if_index v) with
  | Some devs =>
    match list_find (fun d => r_gw v = fst d) devs with
    | Some (_, (local, _)) => set_src_addr local (set_gw 0 v)
    | None => v
    end
  | None => v
  end.

(** One entry with a gateway: the entry afterwards, and whether it is still
    unresolved. *)
Definition gateway_src (tab : list route_val) (i : nat) (v : route_val) : res (route_val * bool) :=
  match find_route_val (r_gw v) (u8 (r_table_id v)) tab with
  | None => Ok (v, true)
  | Some j =>
    d ← must (tab !! j);
    let '(v, unresolved) :=
      if negb (r_src_addr d =? 0) then (set_src_addr (r_src_addr d) v, false)
      else if (i =? j)%nat then
        let v := own_gateway v in (v, r_src_addr v =? 0)
      else (v, true) in
    Ok (if r_src_addr v =? r_gw v then set_gw 0 v else v, unresolved)
  end.

(** One round over the table, which is updated in place. *)
Fixpoint gateway_round (n i : nat) (num_unresolved : Z) (tab : list route_val) : res (list route_val * Z) :=
  match n with
  | O => Ok (tab, num_unresolved)
  | S n =>
    v ← must (tab !! i);
    if negb (r_gw v =? 0) && (r_src_addr v =? 0) then
      '(v, unresolved) ← gateway_src tab i v;
      gateway_round n (S i) (if (unresolved : bool) then num_unresolved + 1 else num_unresolved) (<[i := v]> tab)
    else gateway_round n (S i) num_unresolved tab
  end.

(** The do-while loop; [prev] is [num_unresolved_src] before the round. *)
Fixpoint gateway_rounds (fuel : nat) (prev : Z) (tab : list route_val) : res (list route_val) :=
  match fuel with
  | O => NoFuel
  | S fuel =>
    '(tab, num) ← gateway_round (length tab) 0 0 tab;
    if negb (num =? 0) && (num <? prev) then gateway_rounds fuel num tab else Ok tab
  end.

Definition rt_mgr_update_source_ip (fuel : nat) (tab : list route_val) : res (list route_val) :=
  let tab := map direct_src tab in
  tab ← gateway_rounds fuel (Z.of_nat (length tab)) tab;
  Ok (map (fun v => if r_src_addr v =? 0 then src_from_ioctl v else v) tab).

(** ** A new route from the kernel *)

Definition new_route_event (netlink_route_val : option route_val) (tab : list route_val) : list route_val :=
  match netlink_route_val with
  | None => tab
  | Some v =>
    if MAX_TABLE_SIZE <=? Z.of_nat (length tab) then tab
    else
      let v' := RouteVal (r_dst_addr v) (r_dst_mask v) (r_dst_pref_len v) (r_src_addr v) (r_gw v) (r_protocol v)
                  (r_scope v) (r_type v) (r_table_id v) (r_if_name v) (r_if_index v) true false true
                  (r_mtu new_route_val) in
      tab ++ [set_mtu (r_mtu v) v']
  end.

End Environment.

(** ** Resolution *)

(** Entry [i] is the best route of a table: no other match has a longer
    prefix, and none with the same length comes before it. *)
Definition best_route (dst table_id : Z) (tab : list route_val) (i : nat) (v : route_val) : Prop :=
  tab !! i = Some v /\ route_matches dst table_id v = true /\
  forall j w, tab !! j = Some w -> route_matches dst table_id w = true ->
    r_dst_pref_len w <= r_dst_pref_len v /\ (r_dst_pref_len w = r_dst_pref_len v -> (i <= j)%nat).

Definition no_route (dst table_id : Z) (tab : list route_val) : Prop :=
  forall j w, tab !! j = Some w -> route_matches dst table_id w = false.

Lemma find_route_loop_spec dst t tab : forall i0 lp best,
  (find_route_loop dst t i0 lp best tab = best /\
     forall j w, tab !! j = Some w -> route_matches dst t w = true -> r_dst_pref_len w <= lp) \/
  (exists j v, find_route_loop dst t i0 lp best tab = Some (i0 + j)%nat /\ best_route dst t tab j v /\ lp < r_dst_pref_len v).
Proof.
  induction tab as [|v tab IH]; intros i0 lp best; simpl; [left; done|].
  destruct (route_matches dst t v && (lp <? r_dst_pref_len v)) eqn:E.
  - apply andb_true_iff in E as [Em El]. right. destruct (IH (S i0) (r_dst_pref_len v) (Some i0)) as [[-> Hall]|(j & w & -> & (Hj & Hm & Hb) & Hlt)].
    + exists O, v. rewrite Nat.add_0_r. split; [done|]. split; [|lia]. split; [done|]. split; [done|].
      intros [|j] w Hw Hmw; simpl in Hw; [simplify_eq; lia|]. specialize (Hall _ _ Hw Hmw). lia.
    + exists (S j), w. split; [f_equal; lia|]. split; [|lia]. split; [done|]. split; [done|].
      intros [|j'] w' Hw' Hmw'; simpl in Hw'; [simplify_eq; lia|]. destruct (Hb _ _ Hw' Hmw'). split; [done|]. lia.
  - destruct (IH (S i0) lp best) as [[-> Hall]|(j & w & -> & (Hj & Hm & Hb) & Hlt)].
    + left. split; [done|]. intros [|j] w Hw Hmw; simpl in Hw; [simplify_eq|by eapply Hall].
      rewrite Hmw in E. simpl in E. lia.
    + right. exists (S j), w. split; [f_equal; lia|]. split; [|lia]. split; [done|]. split; [done|].
      intros [|j'] w' Hw' Hmw'; simpl in Hw'; [simplify_eq; rewrite Hmw' in E; simpl in E; lia|].
      destruct (Hb _ _ Hw' Hmw'). split; [done|]. lia.
Qed.

Definition prefixes_ok (tab : list route_val) : Prop := Forall (fun v => 0 <= r_dst_pref_len v) tab.

Lemma find_route_val_spec dst t tab : prefixes_ok tab ->
  match find_route_val dst t tab with
  | Some i => exists v, best_route dst t tab i v
  | None => no_route dst t tab
  end.
Proof.
  intros Hp. unfold find_route_val. destruct (find_route_loop_spec dst t tab 0 (-1) None) as [[-> Hall]|(j & v & -> & Hb & _)].
  - intros j w Hw. apply not_true_is_false. intros Hm. specialize (Hall _ _ Hw Hm).
    unfold prefixes_ok in Hp. pose proof (Forall_lookup_1 _ _ _ _ Hp Hw) as H0. simpl in H0. lia.
  - simpl. by exists v.
Qed.

Lemma resolve_loop_spec dst tables tab : prefixes_ok tab ->
  match resolve_loop dst tables tab with
  | Some i => exists k t v, tables !! k = Some t /\ best_route dst t tab i v /\
      forall k' t', (k' < k)%nat -> tables !! k' = Some t' -> no_route dst t' tab
  | None => forall t, t ∈ tables -> no_route dst t tab
  end.
Proof.
  intros Hp. induction tables as [|t tables IH]; simpl; [by intros t ?%not_elem_of_nil|].
  pose proof (find_route_val_spec dst t tab Hp) as Hf. destruct (find_route_val dst t tab) as [i|].
  - destruct Hf as [v Hv]. exists O, t, v. split; [done|]. split; [done|]. intros k' t' Hk. lia.
  - destruct (resolve_loop dst tables tab) as [i|].
    + destruct IH as (k & t0 & v & Hk & Hb & Hn). exists (S k), t0, v. split; [done|]. split; [done|].
      intros [|k'] t' Hk' Ht'; simpl in Ht'; [by simplify_eq|]. eapply Hn; [|done]. lia.
    + intros t' [->|Ht']%elem_of_cons; [done|by apply IH].
Qed.

(** ** What a destination resolves to, without the code *)

(** A rule that is in use and names neither interface; an address or a type of
    service of 0 stands for all, any other for itself alone. *)
Definition applies (key : route_rule_table_key) (r : rule_val) : Prop :=
  u_is_valid r = true /\ u_dst_addr r ∈ [0; k_dst_ip key] /\ u_src_addr r ∈ [0; k_src_ip key] /\ u_tos r ∈ [0; k_tos key] /\
  u_iif_name r = ""%string /\ u_oif_name r = ""%string.

(** A route of table [t] that is in use, whose address agrees with [dst] on
    the bits of the prefix, in the order of the host. *)
Definition route_for (dst t : Z) (v : route_val) : Prop :=
  r_deleted v = false /\ r_if_up v = true /\ r_table_id v = t /\
  Z.shiftr (htonl dst) (32 - r_dst_pref_len v) = Z.shiftr (htonl (r_dst_addr v)) (32 - r_dst_pref_len v).

(** The longest such route, the first one of its length. *)
Definition longest_route (dst t : Z) (tab : list route_val) (v : route_val) : Prop :=
  exists i, tab !! i = Some v /\ route_for dst t v /\
  forall j w, tab !! j = Some w -> route_for dst t w ->
    r_dst_pref_len w <= r_dst_pref_len v /\ (r_dst_pref_len w = r_dst_pref_len v -> (i <= j)%nat).

(** Routes as [parse_route] makes them from messages of the kernel: the mask
    belongs to the length, and the address has no bit behind the prefix. *)
Record route_wf (v : route_val) : Prop := RouteWf {
  rw_len : 0 <= r_dst_pref_len v <= 32;
  rw_mask : exists mask, VMA_NETMASK (r_dst_pref_len v) = Ok mask /\ r_dst_mask v = htonl (u32 mask);
  rw_addr : ipv4_range (r_dst_addr v);
  rw_prefix : Z.land (r_dst_addr v) (r_dst_mask v) = r_dst_addr v
}.

Lemma route_matches_spec dst t v : ipv4_range dst -> route_wf v -> route_matches dst t v = true <-> route_for dst t v.
Proof.
  intros Hd [Hl (mask & Hm & Em) Ha Hp]. unfold route_matches, route_for. rewrite !andb_true_iff, negb_true_iff, !Z.eqb_eq.
  destruct (VMA_NETMASK_bits _ Hl) as (mask' & Hm' & Hbits). rewrite Hm in Hm'. injection Hm' as <-.
  rewrite <- (masked_prefix dst (r_dst_addr v) (r_dst_pref_len v) mask) by done. rewrite <- Em, Hp. naive_solver.
Qed.

Lemma applies_spec key r : u_is_valid r && is_matching_rule key r = true <-> applies key r.
Proof.
  unfold is_matching_rule, applies. rewrite !andb_true_iff, !orb_true_iff, !Z.eqb_eq, !bool_decide_eq_true, !elem_of_cons, !elem_of_nil. naive_solver.
Qed.

(** The tables of the rules that apply, in the order of the rules. *)
Lemma rule_resolve_spec key rules k t : Forall (fun r => 0 <= u_table_id r < 256) rules -> rule_resolve key rules !! k = Some t ->
  exists i r, rules !! i = Some r /\ applies key r /\ u_table_id r = t /\
    forall i' r', (i' < i)%nat -> rules !! i' = Some r' -> applies key r' -> exists k', (k' < k)%nat /\ rule_resolve key rules !! k' = Some (u_table_id r').
Proof.
  unfold rule_resolve, find_rule_val. revert k. induction rules as [|r rules IH]; intros k Ht; [done|]. apply Forall_cons in Ht as [Hr Ht].
  rewrite filter_cons. case_decide as Hc.
  - destruct k as [|k]; cbn.
    + intros [= <-]. exists O, r. rewrite applies_spec in Hc. split_and!; [done|done|symmetry; apply (wrap_small 8); exact Hr|]. intros i' r' ?; lia.
    + intros Hk. destruct (IH k Ht Hk) as (i & r0 & H1 & H2 & H3 & H4). exists (S i), r0. split_and!; [done..|].
      intros [|i'] r' Hi Hr' Ha; cbn in Hr'; [injection Hr' as <-; exists O; split; [lia|cbn; f_equal; apply (wrap_small 8); exact Hr]|].
      destruct (H4 i' r') as (k' & Hk' & E); [lia|done|done|]. exists (S k'). split; [lia|done].
  - intros Hk. destruct (IH k Ht Hk) as (i & r0 & H1 & H2 & H3 & H4). exists (S i), r0. split_and!; [done..|].
    intros [|i'] r' Hi Hr' Ha; cbn in Hr'; [injection Hr' as <-; by rewrite applies_spec in Hc|]. apply (H4 i' r'); [lia|done|done].
Qed.

Lemma rule_resolve_elem key rules r : Forall (fun r => 0 <= u_table_id r < 256) rules -> r ∈ rules -> applies key r -> u_table_id r ∈ rule_resolve key rules.
Proof.
  intros Ht Hr Ha. unfold rule_resolve, find_rule_val. apply list_elem_of_fmap. exists r.
  split; [|apply list_elem_of_filter; by rewrite applies_spec]. rewrite Forall_forall in Ht. specialize (Ht r Hr). symmetry. apply (wrap_small 8). exact Ht.
Qed.

(** C27: A destination resolves to the longest route of the table of the first
    rule that applies and whose table has a route for it, and the source,
    gateway and MTU are those of that route (the first one of its length);
    when it does not resolve, no table of a rule that applies has a route for
    it and the result is zeroed.  Prefixes are compared bit by bit in the order
    of the host; the routes are as the kernel sends them and the identifiers of
    tables are below 256. *)
Theorem route_resolve_spec key rules tab : ipv4_range (k_dst_ip key) ->
  Forall route_wf tab -> Forall (fun r => 0 <= u_table_id r < 256) rules ->
  match route_resolve key rules tab with
  | Ok (true, result) => exists i r v, rules !! i = Some r /\ applies key r /\ longest_route (k_dst_ip key) (u_table_id r) tab v /\
      (forall i' r', (i' < i)%nat -> rules !! i' = Some r' -> applies key r' -> Forall (fun w => ~ route_for (k_dst_ip key) (u_table_id r') w) tab) /\
      result = RouteResult (r_src_addr v) (r_gw v) (r_mtu v)
  | Ok (false, result) => result = RouteResult 0 0 0 /\
      forall r, r ∈ rules -> applies key r -> Forall (fun w => ~ route_for (k_dst_ip key) (u_table_id r) w) tab
  | _ => False
  end.
Proof.
  intros Hd Hwf Ht. assert (prefixes_ok tab) as Hp by (eapply Forall_impl; [exact Hwf|]; by intros v [[? _] _ _ _]).
  assert (forall t, no_route (k_dst_ip key) t tab -> Forall (fun w => ~ route_for (k_dst_ip key) t w) tab) as Hno.
  { intros t Hn. apply Forall_forall. intros w Hw. apply list_elem_of_lookup in Hw as [j Hj].
    rewrite <- route_matches_spec by (done || by eapply Forall_lookup_1 in Hwf). by rewrite (Hn j w Hj). }
  unfold route_resolve. pose proof (resolve_loop_spec (k_dst_ip key) (rule_resolve key rules) tab Hp) as H.
  destruct (resolve_loop _ _ tab) as [j|]; [|split; [done|]; intros r Hr Ha; by apply Hno, H, rule_resolve_elem].
  destruct H as (k & t & v & Hk & (Hj & Hm & Hb) & Hn). rewrite Hj. cbn [must mbind res_bind].
  destruct (rule_resolve_spec key rules k t Ht Hk) as (i & r & Hi & Ha & <- & Hfirst). exists i, r, v. split_and!; [done..| | |done].
  - exists j. split; [done|]. rewrite <- route_matches_spec by (done || by eapply Forall_lookup_1 in Hwf). split; [done|].
    intros j' w Hw. rewrite <- route_matches_spec by (done || by eapply Forall_lookup_1 in Hwf). by apply Hb.
  - intros i' r' Hi' Hr' Ha'. destruct (Hfirst i' r' Hi' Hr' Ha') as (k' & Hk' & E). by eapply Hno, Hn.
Qed.

Definition example_route (dst pref gw table : Z) : route_val :=
  RouteVal dst (htonl (match pref with 24 => 4294967040 | 8 => 4278190080 | _ => 0 end)) pref 16777343 gw 0 0 0 table "eth0" 2 true false true 1500.
Definition example_rules : list rule_val :=
  [RuleVal 0 0 0 0 0 0 "eth1" "" 0 10 true; RuleVal 0 0 0 0 0 0 "" "" 0 11 true; RuleVal 0 0 0 0 0 0 "" "" 0 254 true].

Definition example_key : route_rule_table_key := RouteKey (htonl 167838211) 0 0.
Definition example_table : list route_val :=
  [example_route (htonl 167772160) 8 1 254; example_route (htonl 167838208) 24 2 254; example_route 0 0 3 10].

Lemma example_table_wf : Forall route_wf example_table.
Proof.
  assert (forall v mask, VMA_NETMASK (r_dst_pref_len v) = Ok mask -> r_dst_mask v = htonl (u32 mask) -> 0 <= r_dst_pref_len v <= 32 ->
    ipv4_range (r_dst_addr v) -> Z.land (r_dst_addr v) (r_dst_mask v) = r_dst_addr v -> route_wf v) as H by (intros; split; eauto).
  repeat constructor; (eapply H; [vm_compute; reflexivity|vm_compute; reflexivity|split; vm_compute; discriminate|split; vm_compute; (reflexivity || discriminate)|vm_compute; reflexivity]).
Qed.

(** 10.1.2.3 by way of table 254, where 10.0.0.0/8 and 10.1.2.0/24 match. *)
Lemma route_resolve_spec_witness : exists i r v,
  example_rules !! i = Some r /\ u_table_id r = 254 /\ longest_route (k_dst_ip example_key) 254 example_table v /\ r_gw v = 2.
Proof.
  assert (ipv4_range (k_dst_ip example_key)) as Hd by (split; vm_compute; (reflexivity || discriminate)).
  assert (Forall (fun r => 0 <= u_table_id r < 256) example_rules) as Ht by (repeat constructor; vm_compute; (reflexivity || discriminate)).
  pose proof (route_resolve_spec example_key example_rules example_table Hd example_table_wf Ht) as H.
  assert (route_resolve example_key example_rules example_table = Ok (true, RouteResult 16777343 2 1500)) as E
    by (vm_compute; reflexivity).
  rewrite E in H. destruct H as (i & r & v & H1 & H2 & H3 & _ & H4).
  assert (r_gw v = 2) as Hg by (injection H4 as _ H4 _; symmetry; exact H4).
  assert (u_table_id r = 254) as Hr.
  { destruct H3 as (j & Hj & (_ & _ & Hv & _) & _). rewrite <- Hv. destruct j as [|[|[|j]]]; cbn in Hj; try discriminate; injection Hj as <-; [reflexivity..|discriminate]. }
  exists i, r, v. rewrite Hr in H3. split; [exact H1|]. split; [exact Hr|]. split; [exact H3|exact Hg].
Defined.

(** Table ids above 255 are cut to eight bits on their way from the
    rules to the routes: a rule that names table 300 does not find the route
    that covers the destination in table 300, and uses table 44 instead. *)
Theorem route_table_truncated :
  let rules := [RuleVal 0 0 0 0 0 0 "" "" 0 300 true] in
  let key := RouteKey (htonl 167838211) 0 0 in
  let r300 := example_route (htonl 167838208) 24 2 300 in
  route_matches (k_dst_ip key) 300 r300 = true /\
  route_resolve key rules [r300] = Ok (false, RouteResult 0 0 0) /\
  route_resolve key rules [r300; example_route 0 0 9 44] = Ok (true, RouteResult 16777343 9 1500).
Proof. vm_compute. done. Qed.

(** ** Source addresses are found in bounded time *)

Section Sources.
Context (devices : Z -> option (list (Z * Z))) (ioctl : string -> option Z).

(** Only the source and the gateway of an entry change, and only as long as
    it has no source. *)
Definition same_route (v v' : route_val) : Prop :=
  (exists a b, v' = set_src_addr a (set_gw b v)) /\ (r_src_addr v <> 0 -> v' = v).

Lemma same_route_intro v a b : (r_src_addr v <> 0 -> a = r_src_addr v /\ b = r_gw v) -> same_route v (set_src_addr a (set_gw b v)).
Proof. intros H. split; [by eauto|]. intros [-> ->]%H. by destruct v. Qed.

Lemma same_route_refl v : same_route v v.
Proof. split; [exists (r_src_addr v), (r_gw v); by destruct v|done]. Qed.

Lemma same_route_trans a b c : same_route a b -> same_route b c -> same_route a c.
Proof.
  intros [(x & y & ->) H1] [(x' & y' & ->) H2]. split; [by exists x', y'|].
  intros H. specialize (H1 H). rewrite H1 in H2. rewrite H1. by apply H2.
Qed.

Lemma src_from_ioctl_same v : r_src_addr v = 0 -> same_route v (src_from_ioctl ioctl v).
Proof.
  intros H0. unfold src_from_ioctl. destruct (ioctl _) as [a|]; [|apply same_route_refl].
  split; [|done]. exists a, (r_gw v). by destruct v.
Qed.

Lemma direct_src_same v : same_route v (direct_src devices ioctl v).
Proof.
  unfold direct_src. destruct (r_src_addr v =? 0) eqn:E0; simpl; [|apply same_route_refl].
  destruct (r_gw v =? 0) eqn:E1; simpl; [|apply same_route_refl].
  destruct (devices _) as [devs|]; [|apply src_from_ioctl_same; lia].
  case_match; [|apply src_from_ioctl_same; lia]. split; [|lia]. eexists _, (r_gw v). by destruct v.
Qed.

Lemma gateway_src_same tab i v : r_src_addr v = 0 -> exists v' u, gateway_src devices tab i v = Ok (v', u) /\ same_route v v'.
Proof.
  intros H0. unfold gateway_src. destruct (find_route_val _ _ tab) as [j|] eqn:Ef; [|eexists _, _; split; [done|apply same_route_refl]].
  assert (exists d, tab !! j = Some d) as [d Hd].
  { unfold find_route_val in Ef. destruct (find_route_loop_spec (r_gw v) (u8 (r_table_id v)) tab 0 (-1) None)
      as [[E _]|(j' & w & E & (Hw & _) & _)]; rewrite E in Ef; simplify_eq/=. by exists w. }
  rewrite Hd. cbn [must mbind res_bind].
  assert (forall a b u, exists v' u', Ok (let w := set_src_addr a (set_gw b v) in
    if r_src_addr w =? r_gw w then set_gw 0 w else w, u : bool) = Ok (v', u') /\ same_route v v') as Hend.
  { intros a b u. eexists _, u. split; [done|]. split; [|done]. simpl. case_match; [by exists a, 0|by exists a, b]. }
  assert (forall u, exists v' u', Ok (if r_src_addr v =? r_gw v then set_gw 0 v else v, u : bool) = Ok (v', u') /\ same_route v v') as Hself.
  { intros u. eexists _, u. split; [done|]. case_match; [|apply same_route_refl]. split; [exists (r_src_addr v), 0; by destruct v|done]. }
  destruct (r_src_addr d =? 0); simpl negb; cbv iota.
  - destruct (i =? j)%nat; [|apply Hself]. unfold own_gateway.
    destruct (devices _) as [devs|]; [|apply Hself].
    destruct (list_find _ devs) as [[? [local ?]]|]; [|apply Hself]. apply (Hend local 0).
  - replace (set_src_addr (r_src_addr d) v) with (set_src_addr (r_src_addr d) (set_gw (r_gw v) v)) by by destruct v. apply Hend.
Qed.

Lemma gateway_round_same n : forall i num tab, (i + n = length tab)%nat ->
  exists tab' num', gateway_round devices n i num tab = Ok (tab', num') /\ Forall2 same_route tab tab' /\
    num <= num' <= num + Z.of_nat n.
Proof.
  induction n as [|n IH]; intros i num tab Hl; cbn [gateway_round].
  - exists tab, num. split; [done|]. split; [by apply Forall_Forall2_diag, Forall_true; intros; apply same_route_refl|lia].
  - destruct (lookup_lt_is_Some_2 tab i) as [v Hv]; [lia|]. rewrite Hv. cbn [must mbind res_bind].
    destruct (negb (r_gw v =? 0) && (r_src_addr v =? 0)) eqn:E.
    + destruct (gateway_src_same tab i v) as (v' & u & -> & Hs); [lia|]. cbn [mbind res_bind].
      destruct (IH (S i) (if u then num + 1 else num) (<[i := v']> tab)) as (tab' & num' & -> & Hf & Hn); [rewrite length_insert; lia|].
      exists tab', num'. split; [done|]. split; [|destruct u; lia]. eapply (Forall2_trans same_route same_route same_route); [apply same_route_trans| |exact Hf].
      rewrite <- (list_insert_id tab i v Hv) at 1.
      apply Forall2_insert; [by apply Forall_Forall2_diag, Forall_true; intros; apply same_route_refl|done].
    + destruct (IH (S i) num tab) as (tab' & num' & -> & Hf & Hn); [lia|]. exists tab', num'. split; [done|]. split; [done|lia].
Qed.

Lemma gateway_rounds_same fuel : forall prev tab, 0 <= prev -> (Z.to_nat prev < fuel)%nat ->
  exists tab', gateway_rounds devices fuel prev tab = Ok tab' /\ Forall2 same_route tab tab'.
Proof.
  induction fuel as [|fuel IH]; intros prev tab H0 Hf; [lia|]. cbn [gateway_rounds].
  destruct (gateway_round_same (length tab) 0 0 tab eq_refl) as (tab1 & num & -> & H1 & Hn). cbn [mbind res_bind].
  destruct (negb (num =? 0) && (num <? prev)) eqn:E; [|by exists tab1].
  destruct (IH num tab1) as (tab2 & -> & H2); [lia|lia|]. exists tab2. split; [done|].
  by eapply (Forall2_trans same_route same_route same_route); [apply same_route_trans|exact H1|exact H2].
Qed.

Lemma map_same f (tab : list route_val) : (forall v, same_route v (f v)) -> Forall2 same_route tab (map f tab).
Proof. intros H. induction tab; simpl; by constructor. Qed.
End Sources.

(** Finding the source addresses terminates: the rounds over the entries
    with a gateway go on only while fewer entries remain unresolved, so one
    round more than the table has entries is enough.  No entry that has a
    source changes, nothing but source and gateway changes in any entry, and
    an entry that ends without a source belongs to an interface for which
    the kernel reports no address. *)
Theorem route_sources_total devices ioctl tab :
  exists tab', rt_mgr_update_source_ip devices ioctl (S (length tab)) tab = Ok tab' /\ Forall2 same_route tab tab' /\
    Forall (fun v => r_src_addr v = 0 -> default 0 (ioctl (r_if_name v)) = 0) tab'.
Proof.
  unfold rt_mgr_update_source_ip. set (tab0 := map (direct_src devices ioctl) tab).
  assert (length tab0 = length tab) as El by apply length_map.
  destruct (gateway_rounds_same devices (S (length tab)) (Z.of_nat (length tab0)) tab0) as (tab1 & -> & H1); [lia|lia|].
  cbn [mbind res_bind]. eexists. split; [done|]. split.
  - eapply (Forall2_trans same_route same_route same_route); [apply same_route_trans|apply map_same, direct_src_same|].
    eapply (Forall2_trans same_route same_route same_route); [apply same_route_trans|exact H1|].
    apply map_same. intros v. case_match; [apply src_from_ioctl_same; lia|apply same_route_refl].
  - apply Forall_map, Forall_true. intros v. simpl. destruct (r_src_addr v =? 0) eqn:E; [|lia].
    unfold src_from_ioctl. destruct (ioctl (r_if_name v)) eqn:Ei; simpl; [|by rewrite Ei]. by rewrite Ei.
Qed.
