(* ===== verification/CacheTable.v ===== *)
(** * Cached entries and their observers (src/vma/infra/subject_observer.h,
      subject_observer.cpp, cache_subject_observer.h)

    The route, rule, neighbour and device tables are instances of one
    template: a map from keys to entries, each entry a subject with a set of
    observers.  Entries are created on the first registration and deleted
    with the last one, or later by a periodic garbage collector, so that the
    template decides how long a pointer to an entry may be used.  An entry
    lives in a store of addresses: [delete] removes it and a later read
    through its address is undefined.  Addresses of deleted entries may be
    used again.

    The virtual functions of the template are a class [CacheClass]; the
    tables of devices and of neighbours are instances of it. *)

From S2P Require Import Prelude.

Abbreviation observer := positive.
Abbreviation entry_ptr := positive.

(** ** Subjects *)

Abbreviation observers_t := (gset observer).

(** A NULL observer is [None]. *)
Definition subject_register_observer (new_observer : option observer) (m_observers : observers_t) : bool * observers_t :=
  match new_observer with
  | None => (false, m_observers)
  | Some o => if decide (o ∈ m_observers) then (false, m_observers) else (true, {[o]} ∪ m_observers)
  end.

Definition subject_unregister_observer (old_observer : option observer) (m_observers : observers_t) : bool * observers_t :=
  match old_observer with
  | None => (false, m_observers)
  | Some o => (true, m_observers ∖ {[o]})
  end.

(** The callbacks are virtual: [notify_cb o ev] is what the observer at [o]
    does to the state [S] of the program. *)
Definition notify_observers {E S} (notify_cb : observer -> option E -> S -> S) (ev : option E) (m_observers : observers_t)
    (s : S) : S :=
  foldl (fun s o => notify_cb o ev s) s (elements m_observers).

Record cache_observer := CacheObserver { m_last_access_time : Z; m_is_valid : bool }.
Definition set_state (state : bool) (c : cache_observer) : cache_observer := CacheObserver (m_last_access_time c) state.

(** A [cache_observer] overrides the callback with an event; the one without
    is inherited and does nothing. *)
Definition cache_notify_cb {E} (o : observer) (ev : option E) (s : gmap observer cache_observer) : gmap observer cache_observer :=
  match ev with Some _ => alter (set_state false) o s | None => s end.

(** ** The template *)

(** What a table supplies: the creation of an entry, which may fail, return
    NULL or panic and depends on the state [W] of the rest of the program,
    and the test whether an entry with the state [D] may be deleted. *)
Class CacheClass (W Key D : Type) := {
  create_new_entry : W -> Key -> observer -> res (option D);
  is_deletable : D -> bool;
  create_defined w k o : create_new_entry w k o <> Undef /\ create_new_entry w k o <> NoFuel
}.

Section Table.
Context {W Key D : Type} `{Countable Key} `{!CacheClass W Key D}.

(** An entry: its key, its observers, and its value together with the state
    of the class derived from it. *)
Record cache_entry_subject := Entry { m_key : Key; m_observers : observers_t; m_val : D }.

Record cache_table_mgr := Table { m_cache_tbl : gmap Key entry_ptr; store : gmap entry_ptr cache_entry_subject }.

Definition new_table : cache_table_mgr := Table ∅ ∅.

Definition load (t : cache_table_mgr) (p : entry_ptr) : res cache_entry_subject := must (store t !! p).
Definition write (p : entry_ptr) (e : cache_entry_subject) (t : cache_table_mgr) : cache_table_mgr :=
  Table (m_cache_tbl t) (<[p := e]> (store t)).

Definition set_val (p : entry_ptr) (v : D) (t : cache_table_mgr) : res cache_table_mgr :=
  e ← load t p; Ok (write p (Entry (m_key e) (m_observers e) v) t).

Definition get_observers_count (e : cache_entry_subject) : nat := size (m_observers e).

Definition get_entry (key : Key) (t : cache_table_mgr) : option entry_ptr := m_cache_tbl t !! key.

(** [clean_obj] of a [cleanable_obj]: delete the object. *)
Definition clean_obj (p : entry_ptr) (t : cache_table_mgr) : res cache_table_mgr :=
  _ ← load t p; Ok (Table (m_cache_tbl t) (delete p (store t))).

(** The iterator is given as the pair it points to. *)
Definition try_to_remove_cache_entry (itr : Key * entry_ptr) (t : cache_table_mgr) : res cache_table_mgr :=
  let '(key, cache_entry) := itr in
  e ← load t cache_entry;
  if (get_observers_count e =? 0)%nat && is_deletable (m_val e)
  then clean_obj cache_entry (Table (delete key (m_cache_tbl t)) (store t))
  else Ok t.

Fixpoint gc_loop (itrs : list (Key * entry_ptr)) (t : cache_table_mgr) : res cache_table_mgr :=
  match itrs with
  | [] => Ok t
  | itr :: itrs => t ← try_to_remove_cache_entry itr t; gc_loop itrs t
  end.

(** An erased pair invalidates no other iterator, so the loop visits the
    pairs that the table has at its start. *)
Definition run_garbage_collector (t : cache_table_mgr) : res cache_table_mgr :=
  gc_loop (map_to_list (m_cache_tbl t)) t.

(** The result is [Some cache_entry] for true and [None] for false. *)
Definition register_observer (w : W) (key : Key) (new_observer : option observer) (t : cache_table_mgr)
  : res (option entry_ptr * cache_table_mgr) :=
  match new_observer with
  | None => Ok (None, t)
  | Some o =>
    r ← (match m_cache_tbl t !! key with
         | None =>
           e ← create_new_entry w key o;
           match e with
           | None => Ok (None, t)
           | Some d =>
             let p := fresh (dom (store t)) in
             Ok (Some p, Table (<[key := p]> (m_cache_tbl t)) (<[p := Entry key ∅ d]> (store t)))
           end
         | Some p => Ok (Some p, t)
         end);
    let '(my_cache_entry, t) := r in
    match my_cache_entry with
    | None => Ok (None, t)
    | Some p =>
      e ← load t p;
      Ok (Some p, write p (Entry (m_key e) (subject_register_observer new_observer (m_observers e)).2 (m_val e)) t)
    end
  end.

Definition unregister_observer (key : Key) (old_observer : option observer) (t : cache_table_mgr)
  : res (bool * cache_table_mgr) :=
  match old_observer with
  | None => Ok (false, t)
  | Some _ =>
    match m_cache_tbl t !! key with
    | None => Ok (false, t)
    | Some p =>
      e ← load t p;
      t ← try_to_remove_cache_entry (key, p)
            (write p (Entry (m_key e) (subject_unregister_observer old_observer (m_observers e)).2 (m_val e)) t);
      Ok (true, t)
    end
  end.

(** ** Sequences of calls *)

(** [SetVal key v]: the entry of a key, if there is one, changes its value. *)
Inductive op :=
| Register (w : W) (key : Key) (o : option observer)
| Unregister (key : Key) (o : option observer)
| SetVal (key : Key) (v : D)
| Collect.

Definition step (x : op) (t : cache_table_mgr) : res (bool * cache_table_mgr) :=
  match x with
  | Register w k o => r ← register_observer w k o t; Ok (bool_decide (is_Some r.1), r.2)
  | Unregister k o => unregister_observer k o t
  | SetVal k v =>
    match get_entry k t with
    | None => Ok (false, t)
    | Some p => t ← set_val p v t; Ok (true, t)
    end
  | Collect => t ← run_garbage_collector t; Ok (true, t)
  end.

Fixpoint run (xs : list op) (t : cache_table_mgr) : res (list bool * cache_table_mgr) :=
  match xs with
  | [] => Ok ([], t)
  | x :: xs => r ← step x t; rs ← run xs r.2; Ok (r.1 :: rs.1, rs.2)
  end.

(** ** The specification: a map from keys to observers and values *)

Abbreviation spec := (gmap Key (observers_t * D)).

(** An entry stays as long as it has an observer or may not be deleted. *)
Definition kept (v : observers_t * D) : Prop := ~ (v.1 = ∅ /\ is_deletable v.2 = true).
#[local] Instance kept_dec v : Decision (kept v).
Proof. unfold kept. apply _. Defined.

Definition drop (k : Key) (s : spec) : spec := filter (fun kv => kv.1 = k -> kept kv.2) s.

Definition spec_step (x : op) (s : spec) : res (bool * spec) :=
  match x with
  | Register _ _ None | Unregister _ None => Ok (false, s)
  | Register w k (Some o) =>
    match s !! k with
    | Some (obs, d) => Ok (true, <[k := ({[o]} ∪ obs, d)]> s)
    | None => e ← create_new_entry w k o; Ok (match e with Some d => (true, <[k := ({[o]}, d)]> s) | None => (false, s) end)
    end
  | Unregister k (Some o) =>
    match s !! k with
    | Some (obs, d) => Ok (true, drop k (<[k := (obs ∖ {[o]}, d)]> s))
    | None => Ok (false, s)
    end
  | SetVal k v => match s !! k with Some (obs, _) => Ok (true, <[k := (obs, v)]> s) | None => Ok (false, s) end
  | Collect => Ok (true, filter (fun kv => kept kv.2) s)
  end.

Fixpoint spec_run (xs : list op) (s : spec) : res (list bool * spec) :=
  match xs with
  | [] => Ok ([], s)
  | x :: xs => r ← spec_step x s; rs ← spec_run xs r.2; Ok (r.1 :: rs.1, rs.2)
  end.

(** The table and the store are inverse to each other: no entry of the table
    is dangling, and every live entry is in the table. *)
Definition wf (t : cache_table_mgr) : Prop :=
  (forall k p, m_cache_tbl t !! k = Some p -> exists e, store t !! p = Some e /\ m_key e = k) /\
  (forall p e, store t !! p = Some e -> m_cache_tbl t !! m_key e = Some p).

Definition view (e : cache_entry_subject) : observers_t * D := (m_observers e, m_val e).
Definition lookup_view (t : cache_table_mgr) (k : Key) : option (observers_t * D) :=
  p ← m_cache_tbl t !! k; view <$> store t !! p.

Definition refines (t : cache_table_mgr) (s : spec) : Prop := wf t /\ forall k, lookup_view t k = s !! k.

(** ** The refinement, one primitive at a time *)

#[local] Arguments try_to_remove_cache_entry : simpl never.

Section Proofs.
Context (t : cache_table_mgr) (s : spec) (Hr : refines t s).

Lemma refines_entry k p : m_cache_tbl t !! k = Some p ->
  exists e, store t !! p = Some e /\ m_key e = k /\ s !! k = Some (view e).
Proof.
  destruct Hr as [[H1 _] Hv]. intros Hk. destruct (H1 _ _ Hk) as (e & He & Hke). exists e. split_and!; [done..|].
  rewrite <- Hv. unfold lookup_view. by rewrite Hk; simpl; rewrite He.
Qed.

Lemma refines_none k : m_cache_tbl t !! k = None -> s !! k = None.
Proof. destruct Hr as [_ Hv]. intros Hk. rewrite <- Hv. unfold lookup_view. by rewrite Hk. Qed.

Lemma refines_inj k k' p : m_cache_tbl t !! k = Some p -> m_cache_tbl t !! k' = Some p -> k = k'.
Proof. intros (e & He & Hk & _)%refines_entry (e' & He' & Hk' & _)%refines_entry. congruence. Qed.

Lemma refines_write k p e : m_cache_tbl t !! k = Some p -> m_key e = k -> refines (write p e t) (<[k := view e]> s).
Proof.
  intros Hk Hke. destruct Hr as [[H1 H2] Hv]. split; [split|]; simpl.
  - intros k' p' Hk'. destruct (decide (p' = p)) as [->|Hne].
    + exists e. rewrite lookup_insert_eq. split; [done|]. rewrite Hke. by eapply refines_inj.
    + rewrite lookup_insert_ne by done. auto.
  - intros p' e' [[<- <-]|[_ He']]%lookup_insert_Some; [by rewrite Hke|auto].
  - intros k'. unfold lookup_view. simpl. destruct (decide (k' = k)) as [->|Hne].
    + rewrite Hk, lookup_insert_eq. simpl. by rewrite lookup_insert_eq.
    + rewrite lookup_insert_ne, <- Hv by done. unfold lookup_view. destruct (m_cache_tbl t !! k') as [p'|] eqn:Hk'; [|done].
      simpl. rewrite lookup_insert_ne; [done|]. intros <-. by eapply Hne, refines_inj.
Qed.

Lemma refines_insert k p e : m_cache_tbl t !! k = None -> store t !! p = None -> m_key e = k ->
  refines (Table (<[k := p]> (m_cache_tbl t)) (<[p := e]> (store t))) (<[k := view e]> s).
Proof.
  intros Hk Hp Hke. destruct Hr as [[H1 H2] Hv].
  assert (forall k' p', m_cache_tbl t !! k' = Some p' -> p' <> p) as Hne.
  { intros k' p' (e' & He' & _)%H1 ->. congruence. }
  split; [split|]; simpl.
  - intros k' p' [[<- <-]|[_ Hk']]%lookup_insert_Some; [exists e; by rewrite lookup_insert_eq|].
    rewrite lookup_insert_ne by (symmetry; eauto). auto.
  - intros p' e' [[E1 E2]|[Hpne He']]%lookup_insert_Some; [subst; by rewrite lookup_insert_eq|].
    apply H2 in He'. rewrite lookup_insert_ne by congruence. done.
  - intros k'. unfold lookup_view. simpl. destruct (decide (k' = k)) as [->|Hkne].
    + rewrite !lookup_insert_eq. simpl. by rewrite lookup_insert_eq.
    + rewrite !(lookup_insert_ne _ k) by done. rewrite <- Hv. unfold lookup_view.
      destruct (m_cache_tbl t !! k') as [p'|] eqn:Hk'; [|done]. simpl. rewrite lookup_insert_ne; [done|]. symmetry. eauto.
Qed.

Lemma refines_delete k p : m_cache_tbl t !! k = Some p ->
  refines (Table (delete k (m_cache_tbl t)) (delete p (store t))) (delete k s).
Proof.
  intros Hk. pose proof Hr as [[H1 H2] Hv]. split; [split|]; simpl.
  - intros k' p' [Hne Hk']%lookup_delete_Some. rewrite lookup_delete_ne; [auto|]. intros <-. by eapply Hne, refines_inj.
  - intros p' e' [Hne He']%lookup_delete_Some. apply H2 in He'. rewrite lookup_delete_ne; [done|]. intros E. congruence.
  - intros k'. unfold lookup_view. simpl. destruct (decide (k' = k)) as [->|Hkne].
    + by rewrite !lookup_delete_eq.
    + rewrite !(lookup_delete_ne _ k) by done. rewrite <- Hv. unfold lookup_view.
      destruct (m_cache_tbl t !! k') as [p'|] eqn:Hk'; [|done]. simpl. rewrite lookup_delete_ne; [done|].
      intros <-. by eapply Hkne, refines_inj.
Qed.

Lemma drop_kept k v : s !! k = Some v -> kept v -> drop k s = s.
Proof. intros Hk Hv. apply map_filter_id. intros k' v' Hk' E. simpl in *. naive_solver. Qed.

Lemma drop_removed k v : s !! k = Some v -> ~ kept v -> drop k s = delete k s.
Proof.
  intros Hk Hv. apply map_eq. intros k'. destruct (decide (k' = k)) as [->|Hne].
  - rewrite lookup_delete_eq. apply map_lookup_filter_None. right. simpl. naive_solver.
  - rewrite lookup_delete_ne by done. destruct (s !! k') as [v'|] eqn:E.
    + apply map_lookup_filter_Some. split; [done|]. simpl. naive_solver.
    + apply map_lookup_filter_None. by left.
Qed.

Lemma try_to_remove_refines k p : m_cache_tbl t !! k = Some p ->
  exists t', try_to_remove_cache_entry (k, p) t = Ok t' /\ refines t' (drop k s) /\
    (m_cache_tbl t' = m_cache_tbl t \/ m_cache_tbl t' = delete k (m_cache_tbl t)).
Proof.
  intros Hk. destruct (refines_entry _ _ Hk) as (e & He & <- & Hs). unfold try_to_remove_cache_entry, load. rewrite He. simpl.
  destruct ((get_observers_count e =? 0)%nat && is_deletable (m_val e)) eqn:E.
  - unfold clean_obj, load. simpl. rewrite He. simpl. eexists. split_and!; [done| |by right].
    rewrite (drop_removed _ _ Hs); [by apply refines_delete|]. intros Hkept. apply Hkept.
    apply andb_true_iff in E as [E1 E2]. split; [|done]. apply leibniz_equiv, size_empty_inv. by apply Nat.eqb_eq in E1.
  - exists t. split_and!; [done| |by left]. rewrite (drop_kept _ _ Hs); [done|]. intros [E1 E2]. simpl in *.
    unfold get_observers_count in E. rewrite E1, size_empty, E2 in E. done.
Qed.

End Proofs.

Lemma gc_loop_refines itrs : NoDup itrs.*1 -> forall t s, refines t s ->
  Forall (fun itr => m_cache_tbl t !! itr.1 = Some itr.2) itrs ->
  exists t', gc_loop itrs t = Ok t' /\ refines t' (filter (fun kv => kv.1 ∈ itrs.*1 -> kept kv.2) s) /\ m_cache_tbl t' ⊆ m_cache_tbl t.
Proof.
  induction itrs as [|[k p] itrs IH]; intros Hnd t s Hr Ha.
  - exists t. split_and!; [done| |done]. rewrite map_filter_id; [done|]. intros k v _ []%not_elem_of_nil.
  - apply NoDup_cons in Hnd as [Hn Hnd]. apply Forall_cons in Ha as [Hk Ha]. simpl in Hk.
    destruct (try_to_remove_refines t s Hr k p Hk) as (t1 & E1 & Hr1 & Htbl).
    cbn [gc_loop]. rewrite E1. cbn. destruct (IH Hnd t1 _ Hr1) as (t2 & -> & Hr2 & Hse).
    { apply Forall_forall. intros [k' p'] Hin. rewrite Forall_forall in Ha. specialize (Ha _ Hin). simpl in *.
      destruct Htbl as [->| ->]; [done|]. rewrite lookup_delete_ne; [done|]. intros ->. apply Hn.
      by apply (list_elem_of_fmap_2 fst) in Hin. }
    exists t2. split_and!; [done| |].
    + unfold drop in Hr2. rewrite map_filter_filter in Hr2. refine (eq_ind _ (refines t2) Hr2 _ _). apply map_filter_ext.
      intros k' v _. simpl. rewrite elem_of_cons. naive_solver.
    + etrans; [apply Hse|]. destruct Htbl as [->| ->]; [done|]. apply delete_subseteq.
Qed.

Lemma gc_refines t s : refines t s ->
  exists t', run_garbage_collector t = Ok t' /\ refines t' (filter (fun kv => kept kv.2) s) /\ m_cache_tbl t' ⊆ m_cache_tbl t.
Proof.
  intros Hr. destruct (gc_loop_refines (map_to_list (m_cache_tbl t)) (NoDup_fst_map_to_list _) t s Hr) as (t' & Hgc & Hr' & Hs).
  { apply Forall_forall. intros [k p] Hin%elem_of_map_to_list. done. }
  exists t'. split_and!; [done| |done]. refine (eq_ind _ (refines t') Hr' _ _). apply map_filter_ext. intros k v Hk. simpl.
  split; [|auto]. intros Hi. apply Hi. destruct (m_cache_tbl t !! k) as [p|] eqn:E.
  - apply elem_of_map_to_list in E. by apply (list_elem_of_fmap_2 fst) in E.
  - by rewrite (refines_none t s Hr k E) in Hk.
Qed.

(** Whatever a step does to the table, a key keeps the entry it has or loses
    it. *)
Definition same_entries (t t' : cache_table_mgr) : Prop :=
  forall k p p', m_cache_tbl t !! k = Some p -> m_cache_tbl t' !! k = Some p' -> p' = p.

Lemma same_entries_refl t : same_entries t t.
Proof. intros k p p' H1 H2. congruence. Qed.

Lemma subseteq_same_entries t t' : m_cache_tbl t' ⊆ m_cache_tbl t -> same_entries t t'.
Proof. intros Hs k p p' Hk Hk'. eapply lookup_weaken in Hk'; [|done]. congruence. Qed.

Lemma register_refines w k o t s : refines t s ->
  match spec_step (Register w k o) s with
  | Ok (b, s') => exists p t', register_observer w k o t = Ok (p, t') /\ b = bool_decide (is_Some p) /\
      (forall q, p = Some q -> m_cache_tbl t' !! k = Some q) /\ refines t' s' /\ same_entries t t'
  | m => m = Throw /\ register_observer w k o t = Throw
  end.
Proof.
  intros Hr. simpl. destruct o as [o|]; simpl; [|exists None, t; split_and!; [done..|apply same_entries_refl]].
  destruct (m_cache_tbl t !! k) as [p|] eqn:Hk.
  - destruct (refines_entry t s Hr k p Hk) as (e & He & Hke & ->). simpl. unfold load. rewrite He. simpl.
    exists (Some p). eexists. split_and!; [done|done|by intros q [= <-]| |intros ? ? ? H1 H2; simpl in H2; congruence].
    pose proof (refines_write t s Hr k p (Entry (m_key e) ({[o]} ∪ m_observers e) (m_val e)) Hk Hke) as Hw.
    case_decide as Ho; simpl; [|done]. rewrite (subseteq_union_1_L {[o]} (m_observers e)) in Hw by set_solver.
    rewrite (subseteq_union_1_L {[o]} (m_observers e)) by set_solver. done.
  - rewrite (refines_none t s Hr k Hk). destruct (create_defined w k o) as [Hu Hn].
    destruct (create_new_entry w k o) as [[d|]| | |] eqn:Hc; try done; simpl.
    + unfold load. simpl. rewrite lookup_insert_eq. simpl. eexists (Some _), _.
      split_and!; [done|done|intros q [= <-]; apply lookup_insert_eq| |].
      2: { intros k' p p' H1 H2. simpl in H2. rewrite lookup_insert_ne in H2 by congruence. congruence. }
      unfold write. simpl. rewrite insert_insert_eq.
      pose proof (refines_insert t s Hr k (fresh (dom (store t))) (Entry k {[o]} d) Hk) as Hi.
      rewrite decide_False by set_solver. simpl. unfold view in Hi. simpl in Hi. rewrite union_empty_r_L.
      apply Hi; [|done]. apply not_elem_of_dom, is_fresh.
    + exists None, t. split_and!; [done..|apply same_entries_refl].
Qed.

Lemma unregister_refines k o t s : refines t s ->
  match spec_step (Unregister k o) s with
  | Ok (b, s') => exists t', unregister_observer k o t = Ok (b, t') /\ refines t' s' /\ same_entries t t'
  | _ => False
  end.
Proof.
  intros Hr. destruct o as [o|]; simpl; [|exists t; split_and!; [done..|apply same_entries_refl]].
  destruct (m_cache_tbl t !! k) as [p|] eqn:Hk.
  - destruct (refines_entry t s Hr k p Hk) as (e & He & Hke & ->). unfold load. rewrite He. simpl.
    pose proof (refines_write t s Hr k p (Entry (m_key e) (m_observers e ∖ {[o]}) (m_val e)) Hk Hke) as Hw.
    destruct (try_to_remove_refines _ _ Hw k p Hk) as (t' & E & Hr' & Htbl). exists t'.
    rewrite E. split_and!; [done..|]. apply subseteq_same_entries.
    destruct Htbl as [->| ->]; [done|]. apply delete_subseteq.
  - rewrite (refines_none t s Hr k Hk). exists t. split_and!; [done..|apply same_entries_refl].
Qed.

Lemma set_val_refines k v t s : refines t s ->
  match spec_step (SetVal k v) s with
  | Ok (b, s') => exists t', step (SetVal k v) t = Ok (b, t') /\ refines t' s' /\ same_entries t t'
  | _ => False
  end.
Proof.
  intros Hr. simpl. unfold get_entry. destruct (m_cache_tbl t !! k) as [p|] eqn:Hk.
  - destruct (refines_entry t s Hr k p Hk) as (e & He & Hke & ->). unfold set_val, load. rewrite He. simpl. eexists.
    split_and!; [done|by apply (refines_write t s Hr k p (Entry (m_key e) (m_observers e) v))|].
    apply (subseteq_same_entries t). done.
  - rewrite (refines_none t s Hr k Hk). exists t. split_and!; [done..|apply same_entries_refl].
Qed.

Lemma step_refines x t s : refines t s ->
  match spec_step x s with
  | Ok (b, s') => exists t', step x t = Ok (b, t') /\ refines t' s' /\ same_entries t t'
  | m => m = Throw /\ step x t = Throw
  end.
Proof.
  intros Hr. destruct x as [w k o|k o|k v|].
  - pose proof (register_refines w k o t s Hr) as Hs. destruct (spec_step _ s) as [[b s']| | |]; unfold step.
    + destruct Hs as (p & t' & -> & -> & _ & ? & ?). by exists t'.
    + by destruct Hs as [? ->].
    + by destruct Hs.
    + by destruct Hs.
  - pose proof (unregister_refines k o t s Hr) as Hs. destruct (spec_step _ s) as [[b s']| | |]; done.
  - pose proof (set_val_refines k v t s Hr) as Hs. destruct (spec_step _ s) as [[b s']| | |]; done.
  - destruct (gc_refines t s Hr) as (t' & E & ? & ?%subseteq_same_entries). simpl. rewrite E. by exists t'.
Qed.

Lemma run_refines xs t s : refines t s ->
  match spec_run xs s with
  | Ok (bs, s') => exists t', run xs t = Ok (bs, t') /\ refines t' s'
  | m => m = Throw /\ run xs t = Throw
  end.
Proof.
  revert t s. induction xs as [|x xs IH]; intros t s Hr; simpl; [by exists t|].
  pose proof (step_refines x t s Hr) as Hs. destruct (spec_step x s) as [[b s1]| | |]; simpl.
  - destruct Hs as (t1 & -> & Hr1 & _). specialize (IH _ _ Hr1). simpl.
    destruct (spec_run xs s1) as [[bs s2]| | |]; simpl.
    + destruct IH as (t2 & -> & Hr2). by exists t2.
    + by destruct IH as [_ ->].
    + by destruct IH.
    + by destruct IH.
  - by destruct Hs as [_ ->].
  - by destruct Hs.
  - by destruct Hs.
Qed.

Lemma new_table_refines : refines new_table ∅.
Proof.
  split; [split; simpl; intros ? ? E; by rewrite lookup_empty in E|].
  intros k. unfold lookup_view. simpl. by rewrite !lookup_empty.
Qed.

(** [x] is not the call with which the observer [o] gives up the entry of [k]. *)
Definition not_unregister (k : Key) (o : observer) (x : op) : Prop := x <> Unregister k (Some o).

Lemma spec_step_registered x k o s b s' obs d : not_unregister k o x -> spec_step x s = Ok (b, s') ->
  s !! k = Some (obs, d) -> o ∈ obs -> exists obs' d', s' !! k = Some (obs', d') /\ o ∈ obs'.
Proof.
  intros Hx E Hs Ho.
  assert (forall (P : Key * (observers_t * D) -> Prop) `{!forall kv, Decision (P kv)} (s1 : spec) obs1 d1,
    s1 !! k = Some (obs1, d1) -> o ∈ obs1 -> (kept (obs1, d1) -> P (k, (obs1, d1))) ->
    exists obs' d', filter P s1 !! k = Some (obs', d') /\ o ∈ obs') as Hf.
  { intros P ? s1 obs1 d1 H1 Ho1 HP. exists obs1, d1. split; [|done]. apply map_lookup_filter_Some. split; [done|].
    apply HP. intros [E1 _]. simpl in E1. set_solver. }
  destruct x as [w k' [o'|]|k' [o'|]|k' v|]; simpl in E; try (injection E as <- <-; eauto).
  - destruct (decide (k' = k)) as [->|Hne].
    + rewrite Hs in E. injection E as <- <-. rewrite lookup_insert_eq. eexists _, _. split; [done|set_solver].
    + destruct (s !! k') as [[]|]; [injection E as <- <-; rewrite lookup_insert_ne by done; eauto|].
      inv_res. destruct x as [d'|]; simplify_eq; [rewrite lookup_insert_ne by done|]; eauto.
  - destruct (s !! k') as [[obs1 d1]|] eqn:E1; injection E as <- <-; [|eauto]. unfold drop.
    destruct (decide (k' = k)) as [->|Hne].
    + simplify_eq. eapply Hf; [apply lookup_insert_eq| |done]. assert (o <> o') by (intros ->; by apply Hx). set_solver.
    + eapply Hf; [by rewrite lookup_insert_ne|done|]. simpl. congruence.
  - destruct (s !! k') as [[obs1 d1]|] eqn:E1; injection E as <- <-; [|eauto].
    destruct (decide (k' = k)) as [->|Hne]; [rewrite lookup_insert_eq|rewrite lookup_insert_ne by done; eauto].
    simplify_eq. eauto.
Qed.

(** The entry at [p] is live, is the entry of [k], and [o] observes it. *)
Definition observed (k : Key) (o : observer) (p : entry_ptr) (t : cache_table_mgr) : Prop :=
  get_entry k t = Some p /\ exists e, store t !! p = Some e /\ m_key e = k /\ o ∈ m_observers e.

Lemma step_observed x k o p t s b t' : refines t s -> not_unregister k o x -> step x t = Ok (b, t') ->
  observed k o p t -> observed k o p t' /\ exists s', refines t' s'.
Proof.
  intros Hr Hx E [Hk (e & He & Hke & Ho)]. pose proof (step_refines x t s Hr) as Hs.
  destruct (refines_entry t s Hr k p Hk) as (e' & He' & _ & Hsk). simplify_eq.
  destruct (spec_step x s) as [[b' s']| | |] eqn:E'; [|by destruct Hs as [_ Hs]; rewrite E in Hs|by destruct Hs..].
  destruct Hs as (t1 & E1 & Hr' & Hse). rewrite E in E1. injection E1 as <- <-. split; [|by exists s'].
  destruct (spec_step_registered x _ o s b s' _ _ Hx E' Hsk Ho) as (obs' & d' & Hs' & Ho').
  destruct (m_cache_tbl t' !! m_key e) as [p'|] eqn:Hk'; [|by rewrite (refines_none t' s' Hr' _ Hk') in Hs'].
  rewrite (Hse _ _ _ Hk Hk') in Hk'. split; [done|].
  destruct (refines_entry t' s' Hr' _ _ Hk') as (e' & ? & ? & Hv). exists e'. split_and!; [done..|].
  rewrite Hs' in Hv. by injection Hv as -> ->.
Qed.

Lemma run_observed xs k o p t s bs t' : refines t s -> Forall (not_unregister k o) xs -> run xs t = Ok (bs, t') ->
  observed k o p t -> observed k o p t'.
Proof.
  intros Hr Hxs. revert t s bs Hr. induction Hxs as [|x xs Hx _ IH]; intros t s bs Hr E Ho; simpl in E; [by simplify_eq|].
  apply bind_Ok in E as ([b t1] & E1 & E). apply bind_Ok in E as ([bs1 t2] & E2 & E). simplify_eq.
  destruct (step_observed _ _ _ _ _ _ _ _ Hr Hx E1 Ho) as [Ho1 [s1 Hr1]]. eauto.
Qed.

Lemma register_observed w k o p t s t' : refines t s -> register_observer w k (Some o) t = Ok (Some p, t') ->
  observed k o p t' /\ exists s', refines t' s'.
Proof.
  intros Hr E. pose proof (register_refines w k (Some o) t s Hr) as Hs. rewrite E in Hs.
  destruct (spec_step (Register w k (Some o)) s) as [[b s']| | |] eqn:E'; [|by destruct Hs..].
  destruct Hs as (p' & t1 & E1 & -> & Hp & Hr' & _). injection E1 as <- <-. split; [|by exists s'].
  specialize (Hp p eq_refl). split; [done|].
  destruct (refines_entry t' s' Hr' _ _ Hp) as (e & He & Hke & Hv). exists e. split_and!; [done..|].
  simpl in E'. destruct (s !! k) as [[obs d]|] eqn:Es; [injection E' as <-|inv_res; destruct x as [d|]; simplify_eq];
    rewrite lookup_insert_eq in Hv; injection Hv as Hv; set_solver.
Qed.

(** C23: every sequence of registrations, unregistrations, value changes and
    garbage collections on a new table returns what the specification
    returns, a map from keys to sets of observers in which an entry is
    dropped exactly when its last observer leaves, or at a collection, and
    it may be deleted; a creation that panics is the only way to fail, so
    no deleted entry is ever read, and afterwards every live entry is
    in the table and every entry of the table is live. *)
Theorem cache_table_refines xs :
  match spec_run xs ∅ with
  | Ok (bs, s) => exists t, run xs new_table = Ok (bs, t) /\ refines t s
  | m => m = Throw /\ run xs new_table = Throw
  end.
Proof. apply run_refines, new_table_refines. Qed.

(** C38: the pointer to an entry that an observer gets when it registers
    stays the entry of its key, and the entry stays live with the observer
    among its observers, whatever calls follow, as long as this observer is
    not unregistered from this key. *)
Theorem cache_pointer_stable xs bs t w k o p t1 ys cs t2 :
  run xs new_table = Ok (bs, t) ->
  register_observer w k (Some o) t = Ok (Some p, t1) ->
  Forall (not_unregister k o) ys ->
  run ys t1 = Ok (cs, t2) ->
  get_entry k t2 = Some p /\ exists e, store t2 !! p = Some e /\ m_key e = k /\ o ∈ m_observers e.
Proof.
  intros Hxs Hreg Hys Hrun. pose proof (run_refines xs new_table ∅ new_table_refines) as Hs.
  destruct (spec_run xs ∅) as [[bs' s]| | |]; [|by destruct Hs as [_ Hs]; rewrite Hxs in Hs|by destruct Hs..].
  destruct Hs as (t' & E & Hr). rewrite Hxs in E. simplify_eq.
  destruct (register_observed _ _ _ _ _ _ _ Hr Hreg) as [Ho [s' Hr']]. by eapply run_observed.
Qed.

End Table.

(** ** Notifications *)

(** An event makes exactly the registered observers invalid. *)
Lemma notify_event {E} (ev : E) obs s o :
  notify_observers cache_notify_cb (Some ev) obs s !! o = if decide (o ∈ obs) then set_state false <$> s !! o else s !! o.
Proof.
  rewrite (decide_ext (o ∈ obs) (o ∈ elements obs)) by (symmetry; apply elem_of_elements).
  unfold notify_observers. generalize (elements obs) as l. intros l. revert s. induction l as [|o' l IH]; intros s; simpl; [done|].
  rewrite IH. destruct (decide (o' = o)) as [->|Hne].
  - rewrite lookup_alter_eq, (decide_True (P := o ∈ o :: l)) by set_solver.
    case_decide; [|done]. by destruct (s !! o).
  - rewrite lookup_alter_ne by done. apply decide_ext. set_solver.
Qed.

(** Without an event nothing happens to them. *)
Lemma notify_no_event {E} obs s : notify_observers (cache_notify_cb (E := E)) None obs s = s.
Proof. unfold notify_observers. induction (elements obs); done. Qed.

(** ** The timer of the garbage collector

    [timers] are the timers the table has with the event handler manager;
    [handle] is what [register_timer_event] returns. *)

Record gc_timer := GcTimer { m_timer_handle : option Z; timers : list Z }.

Definition stop_garbage_collector (g : gc_timer) : gc_timer :=
  match m_timer_handle g with
  | Some h => GcTimer None (filter (fun h' => h' <> h) (timers g))
  | None => g
  end.

Definition start_garbage_collector (handle : option Z) (g : gc_timer) : gc_timer :=
  let g := stop_garbage_collector g in GcTimer handle (option_list handle ++ timers g).

Lemma gc_timer_single g : timers g = option_list (m_timer_handle g) ->
  timers (stop_garbage_collector g) = [] /\
  forall handle, timers (start_garbage_collector handle g) = option_list handle.
Proof.
  destruct g as [[h|] ts]; simpl; intros ->; unfold start_garbage_collector, stop_garbage_collector; simpl.
  - rewrite filter_cons_False by (intros E; by apply E). split; [done|]. intros handle. by rewrite app_nil_r.
  - split; [done|]. intros handle. by rewrite app_nil_r.
Qed.

(** ** The table of devices (src/vma/dev/net_device_table_mgr.cpp) *)

Module NetDeviceTable.

(** A device: its address and its state. *)
Inductive state := DOWN | UP | RUNNING | INVALID.
#[global] Instance state_eq_dec : EqDecision state.
Proof. solve_decision. Defined.
Abbreviation net_device_map := (gmap Z (positive * state)).

Definition get_net_device_val (m_net_device_map : net_device_map) (local_addr : Z) : option positive :=
  match m_net_device_map !! local_addr with
  | Some (net_dev, st) => if decide (st = INVALID) then None else Some net_dev
  | None => None
  end.

(** An entry holds the device. *)
#[global, refine] Instance net_device_table : CacheClass net_device_map Z positive := {
  create_new_entry w local_ip _ := Ok (get_net_device_val w local_ip);
  is_deletable _ := true
}.
Proof. done. Defined.

End NetDeviceTable.

(** ** The table of neighbours (src/vma/proto/neighbour_table_mgr.cpp) *)

Module NeighTable.

Definition VMA_TRANSPORT_IB : Z := 0.
Definition VMA_TRANSPORT_ETH : Z := 1.
Definition ST_NOT_ACTIVE : Z := 0.
Definition ST_READY : Z := 6.

(** Addresses are in network byte order on a little-endian host. *)
Definition IS_BROADCAST_N (a : Z) : bool := Z.land a (2 ^ 32 - 1) =? 2 ^ 32 - 1.
Definition IN_MULTICAST_N (a : Z) : bool := Z.land a 240 =? 224.

Inductive type := MC | UC.

(** The classes of neighbours with the members [is_deletable] reads; a state
    machine is its current state. *)
Inductive neigh_entry :=
| neigh_ib (m_type : type) (m_state_machine : option Z)
| neigh_ib_broadcast
| neigh_eth (m_type : type) (m_state_machine : option Z).

(** The address and the device. *)
Abbreviation neigh_key := (Z * positive)%type.

(** What the constructors depend on: the transport of an observer, [None]
    when it is not a [neigh_observer]; whether the device has a ring to
    reserve; the state the state machine is in after its first event. *)
Record world := World {
  get_obs_transport_type : observer -> option Z;
  has_ring : positive -> bool;
  kick_start : neigh_key -> Z
}.

Definition new_neigh_ib (w : world) (key : neigh_key) : res neigh_entry :=
  if has_ring w key.2
  then Ok (neigh_ib (if IN_MULTICAST_N key.1 then MC else UC) (Some (kick_start w key)))
  else Throw.

(** A multicast neighbour has no state machine. *)
Definition new_neigh_eth (w : world) (key : neigh_key) : res neigh_entry :=
  if has_ring w key.2
  then Ok (if IN_MULTICAST_N key.1 then neigh_eth MC None else neigh_eth UC (Some (kick_start w key)))
  else Throw.

Definition neigh_create_new_entry (w : world) (key : neigh_key) (new_observer : observer) : res (option neigh_entry) :=
  match get_obs_transport_type w new_observer with
  | None => Throw
  | Some transport =>
    if transport =? VMA_TRANSPORT_IB then
      if IS_BROADCAST_N key.1 then Ok (Some neigh_ib_broadcast)
      else e ← new_neigh_ib w key; Ok (Some e)
    else if transport =? VMA_TRANSPORT_ETH then e ← new_neigh_eth w key; Ok (Some e)
    else Ok None
  end.

Definition neigh_entry_is_deletable (m_state_machine : option Z) : bool :=
  match m_state_machine with
  | None => true
  | Some state => (state =? ST_NOT_ACTIVE) || (state =? ST_READY)
  end.

Definition neigh_is_deletable (e : neigh_entry) : bool :=
  match e with
  | neigh_ib _ sm => neigh_entry_is_deletable sm
  | neigh_ib_broadcast => false
  | neigh_eth MC _ => true
  | neigh_eth UC sm => neigh_entry_is_deletable sm
  end.

Lemma neigh_create_defined w k o : neigh_create_new_entry w k o <> Undef /\ neigh_create_new_entry w k o <> NoFuel.
Proof. unfold neigh_create_new_entry, new_neigh_ib, new_neigh_eth. by repeat case_match. Qed.

#[global] Instance neigh_table : CacheClass world neigh_key neigh_entry := {
  create_new_entry := neigh_create_new_entry;
  is_deletable := neigh_is_deletable;
  create_defined := neigh_create_defined
}.

Abbreviation neigh_table_mgr := (cache_table_mgr (Key := neigh_key) (D := neigh_entry)).

(** The table registers itself for netlink events with its first entry. *)
Definition neigh_register_observer (self : observer) (w : world) (key : neigh_key) (o : option observer)
    (nt : observers_t * neigh_table_mgr) : res (option entry_ptr * (observers_t * neigh_table_mgr)) :=
  let '(netlink, t) := nt in
  let netlink := if (size (m_cache_tbl t) =? 0)%nat then (subject_register_observer (Some self) netlink).2 else netlink in
  r ← register_observer w key o t;
  Ok (r.1, (netlink, r.2)).

(** A table that has had an entry gets netlink events. *)
Lemma neigh_netlink self w key o netlink t r netlink' t' :
  (m_cache_tbl t <> ∅ -> self ∈ netlink) ->
  neigh_register_observer self w key o (netlink, t) = Ok (r, (netlink', t')) -> self ∈ netlink'.
Proof.
  intros Hn E. unfold neigh_register_observer in E. apply bind_Ok in E as (x & _ & E). injection E as <- <- <-.
  destruct (size (m_cache_tbl t) =? 0)%nat eqn:Hs.
  - simpl. case_decide; set_solver.
  - apply Nat.eqb_neq in Hs. apply Hn. intros E. apply Hs. by rewrite E, map_size_empty.
Qed.

End NeighTable.

(** ** Examples and witnesses *)

Module CacheExample.
Import NeighTable.

Definition w : world := World (fun o => if Pos.eqb o 9 then None else Some VMA_TRANSPORT_ETH) (fun _ => true) (fun _ => 2).
Definition k1 : neigh_key := (16777226, 1%positive).
Definition k2 : neigh_key := (224, 1%positive).

(** Resolution in progress keeps the entry of [k1] in the table without
    observers until it is ready and the collector runs; the multicast entry
    goes at once. *)
Definition calls : list (@op world neigh_key neigh_entry) :=
  [Register w k1 (Some 1%positive); Register w k2 (Some 1%positive); Register w k1 (Some 2%positive);
   Unregister k2 (Some 1%positive); Unregister k1 (Some 1%positive); Unregister k1 (Some 2%positive); Collect;
   SetVal k1 (neigh_eth UC (Some ST_READY)); Collect; Unregister k1 (Some 2%positive)].

Definition after (n : nat) : neigh_table_mgr :=
  match run (take n calls) new_table with Ok (_, t) => t | _ => new_table end.

Lemma calls_results :
  fst <$> (match run calls new_table with Ok r => Some r | _ => None end) =
    Some [true; true; true; true; true; true; true; true; true; false] /\
  (size (m_cache_tbl (after 3)), size (m_cache_tbl (after 4)), size (m_cache_tbl (after 7)), size (m_cache_tbl (after 9)))
    = (2, 1, 1, 0)%nat.
Proof. vm_compute. done. Qed.

(** An observer of an unexpected class panics. *)
Lemma wrong_observer : run [Register w k1 (Some 9%positive)] new_table = Throw.
Proof. done. Qed.

Definition registered : option entry_ptr * neigh_table_mgr :=
  match register_observer w k1 (Some 1%positive) new_table with Ok r => r | _ => (None, new_table) end.

Definition others : list (@op world neigh_key neigh_entry) :=
  [Register w k1 (Some 2%positive); Unregister k1 (Some 2%positive); SetVal k1 (neigh_eth UC (Some ST_READY)); Collect].

Lemma cache_pointer_stable_witness :
  exists p t2, registered.1 = Some p /\ run others registered.2 = Ok ([true; true; true; true], t2) /\
    get_entry k1 t2 = Some p /\ exists e, store t2 !! p = Some e /\ m_key e = k1 /\ 1%positive ∈ m_observers e.
Proof.
  eexists _, (match run others registered.2 with Ok (_, t) => t | _ => new_table end).
  split; [vm_compute; reflexivity|]. split; [vm_compute; reflexivity|].
  apply (cache_pointer_stable [] [] new_table w k1 1%positive _ registered.2 others [true; true; true; true]).
  - reflexivity.
  - vm_compute. reflexivity.
  - repeat constructor; unfold not_unregister; discriminate.
  - vm_compute. reflexivity.
Defined.

End CacheExample.
