(* ===== verification/EpfdInfo.v ===== *)
(** * Epoll descriptors (src/vma/iomux/epfd_info.cpp, epoll_wait_call.cpp and
      the epoll members of src/vma/sock/socket_fd_api.cpp, sockinfo.cpp)

    An epoll descriptor keeps its offloaded sockets in an array and an
    intrusive list, the records of other descriptors in a map, reference
    counts of the rings its sockets receive from, and a list of the sockets
    with pending events.  The record of an offloaded socket is a member of
    the socket, that of another descriptor a node of the map, so a record is
    reached through a pointer into one or the other; a pointer into a node
    that was erased is undefined to read.

    One epoll descriptor is modelled, with all sockets of the process; a
    socket knows the epoll descriptor it belongs to.  The system's
    [epoll_ctl] is a parameter, and so are the answers of [is_readable] and
    [is_writeable].  The locks, the wake-up pipe and statistics are left out;
    the window in which [add_fd] and [del_fd] release the lock to take the
    one of the ring map is not modelled. *)

From S2P Require Import Prelude.

(** ** Data *)

Definition EPOLLIN : Z := 1.
Definition EPOLLOUT : Z := 4.
Definition EPOLLERR : Z := 8.
Definition EPOLLHUP : Z := 16.
Definition EPOLLONESHOT : Z := 2 ^ 30.
Definition EPOLLET : Z := 2 ^ 31.
Definition CQ_FD_MARK : Z := 43981.

Inductive errno := EEXIST | ENOMEM | ENOENT | EINVAL | EOS.
Inductive ctl_op := EPOLL_CTL_ADD | EPOLL_CTL_DEL | EPOLL_CTL_MOD.

Record epoll_fd_rec := FdRec { events : Z; epdata : Z; offloaded_index : Z }.
Definition rec_reset : epoll_fd_rec := FdRec 0 0 0.

Abbreviation ring := positive.

(** The members of a [socket_fd_api] that the epoll code uses; [m_econtext]
    is the descriptor of the epoll set it belongs to, [is_socket] says that
    its type is FD_TYPE_SOCKET, and [m_rx_ring_map] are the rings of a
    [sockinfo]. *)
Record socket_fd_api := Sock {
  is_socket : bool;
  skip_os_select : bool;
  m_econtext : option Z;
  m_fd_rec : epoll_fd_rec;
  m_epoll_event_flags : Z;
  m_rx_ring_map : gset ring
}.

Definition set_econtext c s := Sock (is_socket s) (skip_os_select s) c (m_fd_rec s) (m_epoll_event_flags s) (m_rx_ring_map s).
Definition set_fd_rec r s := Sock (is_socket s) (skip_os_select s) (m_econtext s) r (m_epoll_event_flags s) (m_rx_ring_map s).
Definition set_flags f s := Sock (is_socket s) (skip_os_select s) (m_econtext s) (m_fd_rec s) f (m_rx_ring_map s).
Definition set_rings r s := Sock (is_socket s) (skip_os_select s) (m_econtext s) (m_fd_rec s) (m_epoll_event_flags s) r.
Definition set_index i (r : epoll_fd_rec) := FdRec (events r) (epdata r) i.

(** An intrusive list ([vma_list_t]): the objects that are linked, and the
    size that it counts. *)
Record vma_list := VList { items : list Z; list_size : Z }.
Definition list_push_back (x : Z) (l : vma_list) : vma_list := VList (items l ++ [x]) (u64 (list_size l + 1)).
Definition list_erase (x : Z) (l : vma_list) : vma_list := VList (filter (fun y => y <> x) (items l)) (u64 (list_size l - 1)).

Record epfd_info := Epfd {
  m_size : Z;
  m_p_offloaded_fds : list Z;
  m_n_offloaded_fds : Z;
  m_fd_non_offloaded_map : gmap Z epoll_fd_rec;
  m_fd_offloaded_list : vma_list;
  m_ring_map : gmap ring Z;
  m_ready_fds : vma_list;
  m_ready_cq_fd_q : list Z;
  m_b_os_data_available : bool
}.

Definition set_offloaded a n e := Epfd (m_size e) a n (m_fd_non_offloaded_map e) (m_fd_offloaded_list e) (m_ring_map e)
  (m_ready_fds e) (m_ready_cq_fd_q e) (m_b_os_data_available e).
Definition set_non_offloaded m e := Epfd (m_size e) (m_p_offloaded_fds e) (m_n_offloaded_fds e) m (m_fd_offloaded_list e)
  (m_ring_map e) (m_ready_fds e) (m_ready_cq_fd_q e) (m_b_os_data_available e).
Definition set_offloaded_list l e := Epfd (m_size e) (m_p_offloaded_fds e) (m_n_offloaded_fds e) (m_fd_non_offloaded_map e) l
  (m_ring_map e) (m_ready_fds e) (m_ready_cq_fd_q e) (m_b_os_data_available e).
Definition set_ring_map m e := Epfd (m_size e) (m_p_offloaded_fds e) (m_n_offloaded_fds e) (m_fd_non_offloaded_map e)
  (m_fd_offloaded_list e) m (m_ready_fds e) (m_ready_cq_fd_q e) (m_b_os_data_available e).
Definition set_ready l e := Epfd (m_size e) (m_p_offloaded_fds e) (m_n_offloaded_fds e) (m_fd_non_offloaded_map e)
  (m_fd_offloaded_list e) (m_ring_map e) l (m_ready_cq_fd_q e) (m_b_os_data_available e).
Definition set_cq_fds q e := Epfd (m_size e) (m_p_offloaded_fds e) (m_n_offloaded_fds e) (m_fd_non_offloaded_map e)
  (m_fd_offloaded_list e) (m_ring_map e) (m_ready_fds e) q (m_b_os_data_available e).
Definition set_os_data b e := Epfd (m_size e) (m_p_offloaded_fds e) (m_n_offloaded_fds e) (m_fd_non_offloaded_map e)
  (m_fd_offloaded_list e) (m_ring_map e) (m_ready_fds e) (m_ready_cq_fd_q e) b.

Section Epoll.
(** The number of the epoll descriptor, the system's [epoll_ctl] on it (true
    for success) with the state [OS] it acts on, and the notification
    descriptors of a ring. *)
Context (m_epfd : Z) {OS : Type} (epoll_ctl : ctl_op -> Z -> OS -> bool * OS) (get_rx_channel_fds : ring -> list Z).

(** The sockets of the process (the descriptor collection), the epoll
    descriptor and the system. *)
Record world := World { socks : gmap Z socket_fd_api; ep : epfd_info; os : OS }.

Definition set_socks m w := World m (ep w) (os w).
Definition on_ep (f : epfd_info -> epfd_info) w := World (socks w) (f (ep w)) (os w).
Definition ctl_os (op : ctl_op) (fd : Z) (w : world) : bool * world :=
  let '(r, o) := epoll_ctl op fd (os w) in (r, World (socks w) (ep w) o).

(** A write to the socket of a descriptor. *)
Definition on_sock (fd : Z) (f : socket_fd_api -> socket_fd_api) (w : world) : res world :=
  s ← must (socks w !! fd); Ok (set_socks (<[fd := f s]> (socks w)) w).

(** [max_fds] is the system's limit of open descriptors; [garbage] the
    contents of the new array. *)
Definition new_epfd_info (size max_fds : Z) (garbage : Z -> Z) : epfd_info :=
  let size := if size <=? max_fds then max_fds else size in
  Epfd size (garbage <$> seqZ 0 size) 0 ∅ (VList [] 0) ∅ (VList [] 0) [] false.

(** ** Sockets and their epoll descriptor *)

(** 0 stands for no epoll descriptor. *)
Definition get_epoll_context_fd (s : socket_fd_api) : Z := default 0 (m_econtext s).

Definition in_context (s : option socket_fd_api) : bool :=
  match s with Some s => get_epoll_context_fd s =? m_epfd | None => false end.

Definition increase_ring_ref_count (r : ring) (w : world) : world :=
  match m_ring_map (ep w) !! r with
  | Some c => on_ep (set_ring_map (<[r := c + 1]> (m_ring_map (ep w)))) w
  | None =>
    foldl (fun w fd => snd (ctl_os EPOLL_CTL_ADD fd w)) (on_ep (set_ring_map (<[r := 1]> (m_ring_map (ep w)))) w)
      (get_rx_channel_fds r)
  end.

Definition decrease_ring_ref_count (r : ring) (w : world) : world :=
  match m_ring_map (ep w) !! r with
  | None => w
  | Some c =>
    if c - 1 =? 0 then
      foldl (fun w fd => snd (ctl_os EPOLL_CTL_DEL fd w)) (on_ep (set_ring_map (delete r (m_ring_map (ep w)))) w)
        (get_rx_channel_fds r)
    else on_ep (set_ring_map (<[r := c - 1]> (m_ring_map (ep w)))) w
  end.

(** [add_epoll_context] of a [sockinfo]; the callbacks of the rings reach the
    epoll descriptor that the socket has just been given. *)
Definition add_epoll_context (fd : Z) (w : world) : res (option errno * world) :=
  s ← must (socks w !! fd);
  match m_econtext s with
  | None =>
    w ← on_sock fd (set_econtext (Some m_epfd)) w;
    Ok (None, foldl (fun w r => increase_ring_ref_count r w) w (elements (m_rx_ring_map s)))
  | Some c => Ok (Some (if c =? m_epfd then EEXIST else ENOMEM), w)
  end.

Definition remove_epoll_context (fd : Z) (w : world) : res world :=
  s ← must (socks w !! fd);
  if decide (m_econtext s = Some m_epfd) then
    on_sock fd (set_econtext None) (foldl (fun w r => decrease_ring_ref_count r w) w (elements (m_rx_ring_map s)))
  else Ok w.

(** ** Records *)

Inductive rec_ptr := SockRec (fd : Z) | MapRec (fd : Z).

Definition read_rec (p : rec_ptr) (w : world) : res epoll_fd_rec :=
  match p with
  | SockRec fd => s ← must (socks w !! fd); Ok (m_fd_rec s)
  | MapRec fd => must (m_fd_non_offloaded_map (ep w) !! fd)
  end.

Definition write_rec (p : rec_ptr) (r : epoll_fd_rec) (w : world) : res world :=
  match p with
  | SockRec fd => on_sock fd (set_fd_rec r) w
  | MapRec fd =>
    _ ← must (m_fd_non_offloaded_map (ep w) !! fd);
    Ok (on_ep (set_non_offloaded (<[fd := r]> (m_fd_non_offloaded_map (ep w)))) w)
  end.

Definition get_fd_rec (fd : Z) (w : world) : option rec_ptr :=
  if in_context (socks w !! fd) then Some (SockRec fd)
  else if decide (is_Some (m_fd_non_offloaded_map (ep w) !! fd)) then Some (MapRec fd) else None.

(** ** Pending events *)

(** [ep_ready_fd_node.is_list_member()]: the node is in at most one list, and
    there is one epoll descriptor here, so that it is the list of this one. *)
Definition is_ready (fd : Z) (w : world) : bool := bool_decide (fd ∈ items (m_ready_fds (ep w))).

Definition insert_epoll_event (fd event_flags : Z) (w : world) : res world :=
  if is_ready fd w
  then on_sock fd (fun s => set_flags (Z.lor (m_epoll_event_flags s) event_flags) s) w
  else
    w ← on_sock fd (set_flags event_flags) w;
    Ok (on_ep (fun e => set_ready (list_push_back fd (m_ready_fds e)) e) w).

Definition insert_epoll_event_cb (fd event_flags : Z) (w : world) : res world :=
  s ← must (socks w !! fd);
  if negb (Z.land event_flags (Z.lor (events (m_fd_rec s)) (Z.lor EPOLLHUP EPOLLERR)) =? 0)
  then insert_epoll_event fd event_flags w else Ok w.

Definition remove_epoll_event (fd event_flags : Z) (w : world) : res world :=
  w ← on_sock fd (fun s => set_flags (Z.ldiff (m_epoll_event_flags s) event_flags) s) w;
  s ← must (socks w !! fd);
  Ok (if m_epoll_event_flags s =? 0 then on_ep (fun e => set_ready (list_erase fd (m_ready_fds e)) e) w else w).

(** The removal of a socket that is in the list. *)
Definition drop_ready (fd : Z) (w : world) : res world :=
  match socks w !! fd with
  | Some _ =>
    if is_ready fd w then
      w ← on_sock fd (set_flags 0) w;
      Ok (on_ep (fun e => set_ready (list_erase fd (m_ready_fds e)) e) w)
    else Ok w
  | None => Ok w
  end.

(** What a socket has to report of the requested events. *)
Definition current_events (requested : Z) (readable writeable : bool) : Z :=
  Z.lor (if negb (Z.land requested EPOLLIN =? 0) && readable then EPOLLIN else 0)
        (if negb (Z.land requested EPOLLOUT =? 0) && writeable then EPOLLOUT else 0).

(** ** epoll_ctl

    [readable] and [writeable] are what the socket answers during the call. *)

Section Ctl.
Context (readable writeable : bool).

(** The part of [add_fd] for an offloaded socket. *)
Definition add_offloaded (fd : Z) (ev data : Z) (w : world) : res (option errno * world) :=
  if m_size (ep w) <=? m_n_offloaded_fds (ep w) then Ok (Some ENOMEM, w)
  else
    '(ret, w) ← add_epoll_context fd w;
    match ret with
    | Some e => Ok (Some e, w)
    | None =>
      let n := m_n_offloaded_fds (ep w) in
      _ ← must (lookupZ (m_p_offloaded_fds (ep w)) n);
      let w := on_ep (fun e => set_offloaded (insertZ n fd (m_p_offloaded_fds e)) (n + 1) e) w in
      let w := on_ep (fun e => set_offloaded_list (list_push_back fd (m_fd_offloaded_list e)) e) w in
      w ← on_sock fd (set_fd_rec (FdRec ev data (n + 1))) w;
      let events := current_events ev readable writeable in
      w ← (if negb (events =? 0) then insert_epoll_event fd events w else Ok w);
      Ok (None, w)
    end.

Definition add_fd (fd : Z) (ev data : Z) (w : world) : res (option errno * world) :=
  let temp_sock_fd_api := socks w !! fd in
  let is_offloaded := match temp_sock_fd_api with Some s => is_socket s | None => false end in
  let skip := match temp_sock_fd_api with Some s => skip_os_select s | None => false end in
  let '(err, w) :=
    if skip then ((match get_fd_rec fd w with Some _ => Some EEXIST | None => None end), w)
    else let '(ok, w) := ctl_os EPOLL_CTL_ADD fd w in ((if ok : bool then None else Some EOS), w) in
  match err with
  | Some e => Ok (Some e, w)
  | None =>
    if is_offloaded then add_offloaded fd ev data w
    else Ok (None, on_ep (fun e => set_non_offloaded (<[fd := FdRec ev data (-1)]> (m_fd_non_offloaded_map e)) e) w)
  end.

(** The removal of index [i] from the array: the last entry takes its place. *)
Definition remove_offloaded (i : Z) (w : world) : res world :=
  let a := m_p_offloaded_fds (ep w) in
  let n := m_n_offloaded_fds (ep w) in
  w ← (if i <? n then
         last ← must (lookupZ a (n - 1));
         _ ← must (lookupZ a (i - 1));
         let w := on_ep (set_offloaded (insertZ (i - 1) last a) n) w in
         match socks w !! last with
         | Some s => if get_epoll_context_fd s =? m_epfd
                     then on_sock last (fun s => set_fd_rec (set_index i (m_fd_rec s)) s) w else Ok w
         | None => Ok w
         end
       else Ok w);
  Ok (on_ep (fun e => set_offloaded (m_p_offloaded_fds e) (m_n_offloaded_fds e - 1) e) w).

(** The second half of [del_fd]: the ready list, the array, the socket. *)
Definition detach (fi : rec_ptr) (temp_sock_fd_api : option socket_fd_api) (fd : Z) (w : world) : res world :=
  w ← drop_ready fd w;
  r ← read_rec fi w;
  w ← (if 0 <? offloaded_index r then remove_offloaded (offloaded_index r) w else Ok w);
  match temp_sock_fd_api with
  | Some _ => w ← on_sock fd (set_fd_rec rec_reset) w; remove_epoll_context fd w
  | None => Ok w
  end.

Definition del_fd (fd : Z) (passthrough : bool) (w : world) : res (option errno * world) :=
  let temp_sock_fd_api := socks w !! fd in
  let skip := match temp_sock_fd_api with Some s => skip_os_select s | None => false end in
  let w := if skip || passthrough then w else snd (ctl_os EPOLL_CTL_DEL fd w) in
  match get_fd_rec fd w with
  | None => Ok (Some ENOENT, w)
  | Some fi =>
    w ← (if in_context temp_sock_fd_api then
           let w := on_ep (fun e => set_offloaded_list (list_erase fd (m_fd_offloaded_list e)) e) w in
           if passthrough then
             r ← read_rec fi w;
             Ok (on_ep (fun e => set_non_offloaded (<[fd := set_index (-1) r]> (m_fd_non_offloaded_map e)) e) w)
           else Ok w
         else Ok (on_ep (fun e => set_non_offloaded (delete fd (m_fd_non_offloaded_map e)) e) w));
    w ← detach fi temp_sock_fd_api fd w;
    Ok (None, w)
  end.

Definition mod_fd (fd : Z) (ev data : Z) (w : world) : res (option errno * world) :=
  match get_fd_rec fd w with
  | None => Ok (Some ENOENT, w)
  | Some fd_rec =>
    let temp_sock_fd_api := socks w !! fd in
    let skip := match temp_sock_fd_api with Some s => skip_os_select s | None => false end in
    let '(ok, w) := if skip then (true, w) else ctl_os EPOLL_CTL_MOD fd w in
    if negb ok then Ok (Some EOS, w)
    else
      r ← read_rec fd_rec w;
      w ← write_rec fd_rec (FdRec ev data (offloaded_index r)) w;
      let is_offloaded := match temp_sock_fd_api with Some s => is_socket s | None => false end in
      let events := if is_offloaded then current_events ev readable writeable else 0 in
      w ← (if negb (events =? 0) then insert_epoll_event fd events w else Ok w);
      w ← (if (ev =? 0) || (events =? 0) then drop_ready fd w else Ok w);
      Ok (None, w)
  end.

(** [event] is NULL for [None]; an operation that is not one of the three is
    refused. *)
Definition ctl (op : option ctl_op) (fd : Z) (event : option (Z * Z)) (w : world) : res (option errno * world) :=
  let '(ev, data) := default (0, 0) event in
  match op with
  | Some EPOLL_CTL_ADD => add_fd fd ev data w
  | Some EPOLL_CTL_DEL => del_fd fd false w
  | Some EPOLL_CTL_MOD => mod_fd fd ev data w
  | None => Ok (Some EINVAL, w)
  end.

End Ctl.

Definition fd_closed (fd : Z) (passthrough : bool) (w : world) : res world :=
  match get_fd_rec fd w with
  | Some _ => r ← del_fd fd passthrough w; Ok (snd r)
  | None => Ok w
  end.

(** [handle_close] of sock-redirect.cpp: the epoll descriptor is told, then
    the socket leaves the descriptor collection. *)
Definition handle_close (fd : Z) (passthrough : bool) (w : world) : res world :=
  w ← fd_closed fd passthrough w; Ok (set_socks (delete fd (socks w)) w).

(** The internal thread's marks: a notification of a ring, told apart from
    other descriptors by its upper half, and data of the system. *)
Definition is_cq_fd (data : Z) (w : world) : bool * world :=
  if negb (Z.shiftr data 32 =? CQ_FD_MARK) then (false, w)
  else (true, on_ep (fun e => set_cq_fds (m_ready_cq_fd_q e ++ [Z.land data 65535]) e) w).

Definition set_os_data_available (w : world) : world := on_ep (set_os_data true) w.

Definition get_and_unset_os_data_available (w : world) : bool * world :=
  (m_b_os_data_available (ep w), on_ep (set_os_data false) w).

(** ** epoll_wait: the events of the ready sockets *)

Section Wait.
Context (is_readable is_writeable : Z -> bool).

(** The entry of [m_events] that is being filled: its events and data.  The
    second removal reads the events after the first write to them. *)
Definition handle_epoll_event (is_ready : bool) (ev : Z) (fd : Z) (out : Z * Z) (w : world) : res (bool * (Z * Z) * world) :=
  if is_ready then
    s ← must (socks w !! fd);
    let fd_rec := m_fd_rec s in
    let out := (Z.lor (fst out) ev, epdata fd_rec) in
    let fd_rec := if negb (Z.land (events fd_rec) EPOLLONESHOT =? 0)
                  then FdRec (Z.ldiff (events fd_rec) ev) (epdata fd_rec) (offloaded_index fd_rec) else fd_rec in
    w ← on_sock fd (set_fd_rec fd_rec) w;
    w ← (if negb (Z.land (events fd_rec) EPOLLET =? 0) then remove_epoll_event fd ev w else Ok w);
    Ok (true, out, w)
  else
    w ← remove_epoll_event fd ev w;
    Ok (false, out, w).

(** EPOLLHUP and EPOLLOUT are mutually exclusive. *)
Definition mutual_events (s : socket_fd_api) : Z :=
  let m := Z.land (m_epoll_event_flags s) (Z.lor (events (m_fd_rec s)) (Z.lor EPOLLERR EPOLLHUP)) in
  if negb (Z.land m EPOLLHUP =? 0) && negb (Z.land m EPOLLOUT =? 0) then Z.ldiff m EPOLLOUT else m.

(** One of the three blocks of the loop: it is skipped without its events. *)
Definition report (is_ready : bool) (ev : Z) (fd : Z) (x : bool * (Z * Z) * world) : res (bool * (Z * Z) * world) :=
  let '(got, out, w) := x in
  if ev =? 0 then Ok x
  else '(g, out, w) ← handle_epoll_event is_ready ev fd out w; Ok (got || g, out, w).

Definition report_socket (fd : Z) (w : world) : res (bool * (Z * Z) * world) :=
  s ← must (socks w !! fd);
  let m := mutual_events s in
  x ← report (is_readable fd) (Z.land m EPOLLIN) fd (false, (0, 0), w);
  let m := Z.ldiff m EPOLLIN in
  x ← report (is_writeable fd) (Z.land m EPOLLOUT) fd x;
  let m := Z.ldiff m EPOLLOUT in
  report true m fd x.

(** The iterator is advanced before its socket may be erased, so the loop
    visits the sockets that are ready at its start. *)
Fixpoint events_loop (fds : list Z) (room : nat) (w : world) : res (list (Z * Z * Z) * world) :=
  match fds, room with
  | fd :: fds, S room' =>
    x ← report_socket fd w;
    let '(got, out, w) := x : bool * (Z * Z) * world in
    y ← events_loop fds (if got then room' else room) w;
    let '(l, w) := y : list (Z * Z * Z) * world in
    Ok (if got then (fd, fst out, snd out) :: l else l, w)
  | _, _ => Ok ([], w)
  end.

(** [n_ready] events of the system are in the array of [maxevents] entries. *)
Definition get_current_events (n_ready maxevents : Z) (w : world) : res (list (Z * Z * Z) * world) :=
  if list_size (m_ready_fds (ep w)) =? 0 then Ok ([], w)
  else events_loop (items (m_ready_fds (ep w))) (Z.to_nat (maxevents - n_ready)) w.

End Wait.

(** ** Rings and sockets of the process *)

Definition notify_epoll_context_add_ring (fd : Z) (r : ring) (w : world) : res world :=
  s ← must (socks w !! fd);
  Ok (if decide (m_econtext s = Some m_epfd) then increase_ring_ref_count r w else w).

Definition notify_epoll_context_remove_ring (fd : Z) (r : ring) (w : world) : res world :=
  s ← must (socks w !! fd);
  Ok (if decide (m_econtext s = Some m_epfd) then decrease_ring_ref_count r w else w).

(** The first flow of a socket on a ring, and its last one, change its rings
    and are told to the epoll descriptor. *)
Definition rx_add_ring (fd : Z) (r : ring) (w : world) : res world :=
  s ← must (socks w !! fd);
  if decide (r ∈ m_rx_ring_map s) then Ok w
  else w ← on_sock fd (set_rings ({[r]} ∪ m_rx_ring_map s)) w; notify_epoll_context_add_ring fd r w.

Definition rx_del_ring (fd : Z) (r : ring) (w : world) : res world :=
  s ← must (socks w !! fd);
  if decide (r ∈ m_rx_ring_map s)
  then w ← on_sock fd (set_rings (m_rx_ring_map s ∖ {[r]})) w; notify_epoll_context_remove_ring fd r w
  else Ok w.

(** An event of a socket, for the epoll descriptor it belongs to. *)
Definition notify_epoll_context (fd event_flags : Z) (w : world) : res world :=
  s ← must (socks w !! fd);
  if decide (m_econtext s = Some m_epfd) then insert_epoll_event_cb fd event_flags w else Ok w.

(** ** Histories of calls *)

Inductive ep_op :=
| Ctl (readable writeable : bool) (op : option ctl_op) (fd : Z) (event : option (Z * Z))
| Close (fd : Z) (passthrough : bool)
| NewSock (fd : Z) (socket skip : bool)
| AddRing (fd : Z) (r : ring)
| DelRing (fd : Z) (r : ring)
| Notify (fd event_flags : Z)
| Wait (is_readable is_writeable : Z -> bool) (n_ready maxevents : Z).

(** A call on the socket of a descriptor, if it has one. *)
Definition if_sock (fd : Z) (f : world -> res world) (w : world) : res world :=
  match socks w !! fd with Some _ => f w | None => Ok w end.

(** A new socket does not get a number that is still in use. *)
Definition exec (o : ep_op) (w : world) : res world :=
  match o with
  | Ctl rd wr op fd event => x ← ctl rd wr op fd event w; Ok (snd x)
  | Close fd pt => handle_close fd pt w
  | NewSock fd b skip =>
    if decide (socks w !! fd = None /\ m_fd_non_offloaded_map (ep w) !! fd = None)
    then Ok (set_socks (<[fd := Sock b skip None rec_reset 0 ∅]> (socks w)) w) else Ok w
  | AddRing fd r => if_sock fd (rx_add_ring fd r) w
  | DelRing fd r => if_sock fd (rx_del_ring fd r) w
  | Notify fd ev => if_sock fd (notify_epoll_context fd ev) w
  | Wait rd wr n maxevents => x ← get_current_events rd wr n maxevents w; Ok (snd x)
  end.

(** A new epoll descriptor, with sockets that belong to none or to others. *)
Inductive reach : world -> Prop :=
| reach_new m size max_fds garbage o : 0 <= max_fds -> map_Forall (fun _ s => m_econtext s <> Some m_epfd) m ->
    reach (World m (new_epfd_info size max_fds garbage) o)
| reach_exec o w w' : reach w -> exec o w = Ok w' -> reach w'.

(** The calls that remove a descriptor that is not offloaded. *)
Definition deletes_other (o : ep_op) (w : world) : Prop :=
  match o with
  | Ctl _ _ (Some EPOLL_CTL_DEL) fd _ | Close fd _ =>
    in_context (socks w !! fd) = false /\ is_Some (m_fd_non_offloaded_map (ep w) !! fd)
  | _ => False
  end.
#[global] Instance deletes_other_dec o w : Decision (deletes_other o w).
Proof. destruct o as [? ? [[]|] ? ?|? ?| | | | |]; simpl; apply _. Defined.

(** ** The invariant *)

Definition member (s : socket_fd_api) : Prop := m_econtext s = Some m_epfd.
#[local] Instance member_dec s : Decision (member s).
Proof. unfold member. apply _. Defined.

(** The number of sockets of the epoll descriptor that receive from a ring. *)
Definition users (r : ring) (m : gmap Z socket_fd_api) : nat :=
  size (filter (fun kv => member kv.2 /\ r ∈ m_rx_ring_map kv.2) m).

Definition count_of (n : nat) : option Z := if decide (n = O) then None else Some (Z.of_nat n).

Definition list_ok (l : vma_list) : Prop := NoDup (items l) /\ list_size l = u64 (Z.of_nat (length (items l))).

Record inv (m : gmap Z socket_fd_api) (e : epfd_info) : Prop := {
  inv_bounds : 0 <= m_n_offloaded_fds e <= m_size e /\ Z.of_nat (length (m_p_offloaded_fds e)) = m_size e;
  inv_index fd s : m !! fd = Some s -> member s ->
    1 <= offloaded_index (m_fd_rec s) <= m_n_offloaded_fds e /\
    lookupZ (m_p_offloaded_fds e) (offloaded_index (m_fd_rec s) - 1) = Some fd;
  inv_array i : 0 <= i < m_n_offloaded_fds e -> exists fd s,
    lookupZ (m_p_offloaded_fds e) i = Some fd /\ m !! fd = Some s /\ member s /\ offloaded_index (m_fd_rec s) = i + 1;
  inv_list : list_ok (m_fd_offloaded_list e) /\
    forall fd, fd ∈ items (m_fd_offloaded_list e) <-> exists s, m !! fd = Some s /\ member s;
  inv_ready : list_ok (m_ready_fds e) /\
    forall fd, fd ∈ items (m_ready_fds e) -> exists s, m !! fd = Some s /\ member s;
  inv_rings r : m_ring_map e !! r = count_of (users r m);
  inv_type fd s : m !! fd = Some s -> member s -> is_socket s = true
}.

(** Descriptors in the map of others are not those of offloaded sockets. *)
Definition map_ok (m : gmap Z socket_fd_api) (e : epfd_info) : Prop :=
  forall fd s, is_Some (m_fd_non_offloaded_map e !! fd) -> m !! fd = Some s -> is_socket s = false.

(** *** Lists *)

Lemma u64_add_l x y : u64 (u64 x + y) = u64 (x + y).
Proof. unfold wrap. by rewrite Zplus_mod_idemp_l. Qed.

Lemma push_ok x l : list_ok l -> x ∉ items l -> list_ok (list_push_back x l).
Proof.
  intros [Hn Hs] Hx. split; simpl.
  - apply NoDup_app. split_and!; [done| |apply NoDup_singleton]. by intros y Hy ->%list_elem_of_singleton.
  - rewrite Hs, u64_add_l, length_app. f_equal. simpl. lia.
Qed.

Lemma length_filter_ne (x : Z) l : NoDup l -> x ∈ l -> S (length (filter (fun y => y <> x) l)) = length l.
Proof.
  induction 1 as [|y l Hy Hn IH]; [by intros ?%not_elem_of_nil|]. intros [->|Hx]%elem_of_cons.
  - rewrite filter_cons_False by (intros E; by apply E). simpl. f_equal. f_equal. apply filter_all, Forall_forall.
    by intros z Hz ->.
  - rewrite filter_cons_True by congruence. simpl. f_equal. by apply IH.
Qed.

Lemma erase_ok x l : list_ok l -> x ∈ items l -> list_ok (list_erase x l).
Proof.
  intros [Hn Hs] Hx. split; simpl; [by apply NoDup_filter|].
  rewrite Hs, <- (length_filter_ne x (items l)) by done. rewrite <- Z.add_opp_r, u64_add_l. f_equal. lia.
Qed.

Lemma elem_of_erase x y l : y ∈ items (list_erase x l) <-> y <> x /\ y ∈ items l.
Proof. simpl. by rewrite list_elem_of_filter. Qed.

(** *** Counting the users of a ring *)

Definition uses (r : ring) (s : socket_fd_api) : nat := if decide (member s /\ r ∈ m_rx_ring_map s) then 1 else 0.

Lemma users_new r m fd s : m !! fd = None -> users r (<[fd := s]> m) = (uses r s + users r m)%nat.
Proof.
  intros Hm. unfold users, uses. case_decide as Hd.
  - rewrite map_filter_insert_True by done. rewrite map_size_insert_None; [done|]. apply map_lookup_filter_None. by left.
  - rewrite map_filter_insert_False by done. by rewrite delete_id.
Qed.

Lemma users_delete r m fd s : m !! fd = Some s -> users r m = (uses r s + users r (delete fd m))%nat.
Proof. intros Hm. rewrite <- (users_new r (delete fd m) fd s) by apply lookup_delete_eq. by rewrite insert_delete_id. Qed.

Lemma users_insert r m fd s s' : m !! fd = Some s ->
  (users r (<[fd := s']> m) + uses r s = users r m + uses r s')%nat.
Proof.
  intros Hm. rewrite (users_delete r m fd s Hm), <- insert_delete_eq, users_new by apply lookup_delete_eq. lia.
Qed.

(** *** Steps that leave the membership of sockets alone *)

Definition similar (s s' : socket_fd_api) : Prop :=
  is_socket s' = is_socket s /\ m_econtext s' = m_econtext s /\ m_rx_ring_map s' = m_rx_ring_map s /\
  offloaded_index (m_fd_rec s') = offloaded_index (m_fd_rec s).

Lemma member_insert (m : gmap Z socket_fd_api) fd s s' : m !! fd = Some s -> (member s' <-> member s) ->
  forall fd', (exists t, <[fd := s']> m !! fd' = Some t /\ member t) <-> (exists t, m !! fd' = Some t /\ member t).
Proof.
  intros Hm Hs fd'. destruct (decide (fd' = fd)) as [->|Hne]; [rewrite lookup_insert_eq|by rewrite lookup_insert_ne].
  rewrite Hm. naive_solver.
Qed.

Lemma inv_similar m e fd s s' : inv m e -> m !! fd = Some s -> similar s s' -> inv (<[fd := s']> m) e.
Proof.
  intros I Hm (Ht & Hc & Hr & Hi). assert (member s' <-> member s) as Hmem by (unfold member; by rewrite Hc).
  split.
  - apply I.
  - intros fd' t [[<- <-]|[_ Ht']]%lookup_insert_Some Hmt; [|by apply (inv_index _ _ I)].
    rewrite Hi. by apply (inv_index _ _ I), Hmem.
  - intros i Hb. destruct (inv_array _ _ I i Hb) as (fd' & t & Ha & Hm' & Hmt & Hit).
    destruct (decide (fd' = fd)) as [->|Hne].
    + exists fd, s'. rewrite lookup_insert_eq. simplify_eq. split_and!; [done..|by apply Hmem|congruence].
    + exists fd', t. by rewrite lookup_insert_ne.
  - destruct (inv_list _ _ I) as [Hl Hx]. split; [done|]. intros fd'. by rewrite Hx, (member_insert m fd s s').
  - destruct (inv_ready _ _ I) as [Hl Hx]. split; [done|]. intros fd' Hf. apply (member_insert m fd s s'); auto.
  - intros r. rewrite (inv_rings _ _ I). f_equal. pose proof (users_insert r m fd s s' Hm) as Hu.
    assert (uses r s' = uses r s) as E by (unfold uses; apply decide_ext; by rewrite Hr, Hmem). lia.
  - intros fd' t [[<- <-]|[_ Ht']]%lookup_insert_Some Hmt; [|by apply (inv_type _ _ I fd')].
    rewrite Ht. by apply (inv_type _ _ I fd), Hmem.
Qed.

Lemma map_ok_similar m e fd s s' : map_ok m e -> m !! fd = Some s -> is_socket s' = is_socket s -> map_ok (<[fd := s']> m) e.
Proof. intros H Hm Hs fd' t Hd [[<- <-]|[_ Ht]]%lookup_insert_Some; [rewrite Hs|]; eauto. Qed.

Lemma on_sock_Ok fd f w s : socks w !! fd = Some s -> on_sock fd f w = Ok (set_socks (<[fd := f s]> (socks w)) w).
Proof. intros Hs. unfold on_sock. by rewrite Hs. Qed.

Lemma ctl_os_same op fd w : socks (ctl_os op fd w).2 = socks w /\ ep (ctl_os op fd w).2 = ep w.
Proof. unfold ctl_os. by destruct (epoll_ctl op fd (os w)). Qed.

Lemma ctl_os_all op fds w : exists o, foldl (fun w fd => (ctl_os op fd w).2) w fds = World (socks w) (ep w) o.
Proof.
  revert w. induction fds as [|fd fds IH]; intros w; simpl; [by exists (os w); destruct w|].
  destruct (IH (ctl_os op fd w).2) as [o ->]. destruct (ctl_os_same op fd w) as [-> ->]. by exists o.
Qed.

(** *** The reference counts of rings *)

Lemma increase_spec r w : exists o,
  increase_ring_ref_count r w = World (socks w) (set_ring_map (<[r := default 0 (m_ring_map (ep w) !! r) + 1]> (m_ring_map (ep w))) (ep w)) o.
Proof.
  unfold increase_ring_ref_count. destruct (m_ring_map (ep w) !! r) as [c|]; simpl; [by exists (os w)|].
  destruct (ctl_os_all EPOLL_CTL_ADD (get_rx_channel_fds r) (on_ep (set_ring_map (<[r := 1]> (m_ring_map (ep w)))) w)) as [o ->].
  by exists o.
Qed.

Lemma decrease_spec r w : exists o,
  decrease_ring_ref_count r w = World (socks w)
    (set_ring_map (partial_alter (fun c => c ← c; if decide (c = 1) then None else Some (c - 1)) r (m_ring_map (ep w))) (ep w)) o.
Proof.
  unfold decrease_ring_ref_count. destruct (m_ring_map (ep w) !! r) as [c|] eqn:E.
  - destruct (Z.eqb_spec (c - 1) 0) as [Hc|Hc].
    + destruct (ctl_os_all EPOLL_CTL_DEL (get_rx_channel_fds r) (on_ep (set_ring_map (delete r (m_ring_map (ep w)))) w)) as [o ->].
      exists o. simpl. f_equal. f_equal. apply map_eq. intros r'. destruct (decide (r' = r)) as [->|Hne].
      * rewrite lookup_delete_eq, lookup_partial_alter_eq, E. simpl. by rewrite decide_True by lia.
      * by rewrite lookup_delete_ne, lookup_partial_alter_ne.
    + exists (os w). unfold on_ep. f_equal. f_equal. apply map_eq. intros r'. destruct (decide (r' = r)) as [->|Hne].
      * rewrite lookup_insert_eq, lookup_partial_alter_eq, E. simpl. by rewrite decide_False by lia.
      * by rewrite lookup_insert_ne, lookup_partial_alter_ne.
  - exists (os w). destruct w as [m [] o]. simpl in *. f_equal. unfold set_ring_map. simpl. f_equal.
    apply map_eq. intros r'. destruct (decide (r' = r)) as [->|Hne].
    + by rewrite lookup_partial_alter_eq, E.
    + by rewrite lookup_partial_alter_ne.
Qed.

Lemma set_ring_map_twice a b e : set_ring_map a (set_ring_map b e) = set_ring_map a e.
Proof. done. Qed.

Lemma increase_all rs w : NoDup rs -> exists rm o,
  foldl (fun w r => increase_ring_ref_count r w) w rs = World (socks w) (set_ring_map rm (ep w)) o /\
  forall r, rm !! r = if decide (r ∈ rs) then Some (default 0 (m_ring_map (ep w) !! r) + 1) else m_ring_map (ep w) !! r.
Proof.
  intros Hn. revert w. induction Hn as [|r rs Hr Hn IH]; intros w.
  - exists (m_ring_map (ep w)), (os w). simpl. split; [by destruct w as [m [] o]|]. done.
  - simpl. destruct (increase_spec r w) as [o ->]. match goal with |- context [foldl _ ?w1 rs] => destruct (IH w1) as (rm & o' & -> & Hrm) end. simpl in *.
    exists rm, o'. split; [done|]. intros r'. rewrite Hrm. destruct (decide (r' = r)) as [->|Hne].
    + rewrite decide_False by done. rewrite decide_True by set_solver. by rewrite lookup_insert_eq.
    + rewrite lookup_insert_ne by done. apply decide_ext. set_solver.
Qed.

Lemma decrease_all rs w : NoDup rs -> exists rm o,
  foldl (fun w r => decrease_ring_ref_count r w) w rs = World (socks w) (set_ring_map rm (ep w)) o /\
  forall r, rm !! r = if decide (r ∈ rs) then c ← m_ring_map (ep w) !! r; if decide (c = 1) then None else Some (c - 1)
                      else m_ring_map (ep w) !! r.
Proof.
  intros Hn. revert w. induction Hn as [|r rs Hr Hn IH]; intros w.
  - exists (m_ring_map (ep w)), (os w). simpl. split; [by destruct w as [m [] o]|]. done.
  - simpl. destruct (decrease_spec r w) as [o ->]. match goal with |- context [foldl _ ?w1 rs] => destruct (IH w1) as (rm & o' & -> & Hrm) end. simpl in *.
    exists rm, o'. split; [done|]. intros r'. rewrite Hrm. destruct (decide (r' = r)) as [->|Hne].
    + rewrite decide_False by done. rewrite decide_True by set_solver. by rewrite lookup_partial_alter_eq.
    + rewrite lookup_partial_alter_ne by done. apply decide_ext. set_solver.
Qed.

(** *** A socket joins and leaves *)

Lemma users_join r m fd s s' : m !! fd = Some s -> ~ member s -> member s' -> m_rx_ring_map s' = m_rx_ring_map s ->
  users r (<[fd := s']> m) = (if decide (r ∈ m_rx_ring_map s) then S (users r m) else users r m).
Proof.
  intros Hm Hs Hs' Hr. pose proof (users_insert r m fd s s' Hm) as Hu. unfold uses in Hu.
  rewrite (decide_False (P := member s /\ _)) in Hu by naive_solver. rewrite Hr in Hu. repeat case_decide; naive_solver lia.
Qed.

Lemma inv_add m e fd s ev d rm : inv m e -> m !! fd = Some s -> m_econtext s = None -> is_socket s = true ->
  m_n_offloaded_fds e < m_size e ->
  (forall r, rm !! r = if decide (r ∈ elements (m_rx_ring_map s)) then Some (default 0 (m_ring_map e !! r) + 1) else m_ring_map e !! r) ->
  let n := m_n_offloaded_fds e in
  inv (<[fd := set_fd_rec (FdRec ev d (n + 1)) (set_econtext (Some m_epfd) s)]> m)
    (set_offloaded_list (list_push_back fd (m_fd_offloaded_list e))
      (set_offloaded (insertZ n fd (m_p_offloaded_fds e)) (n + 1) (set_ring_map rm e))).
Proof.
  intros I Hm Hc Ht Hn Hrm n. assert (~ member s) as Hns by (unfold member; by rewrite Hc).
  pose proof (inv_bounds _ _ I) as [Hb Hl]. fold n in Hb, Hn.
  assert (forall j, lookupZ (insertZ n fd (m_p_offloaded_fds e)) j = if decide (n = j) then Some fd else lookupZ (m_p_offloaded_fds e) j) as Ha
    by (intros j; apply lookupZ_insertZ; lia).
  assert (forall fd' t, m !! fd' = Some t -> member t -> fd' <> fd) as Hne by (intros fd' t Hm' Hmt ->; congruence).
  set (s' := set_fd_rec _ _). assert (member s') as Hms by done.
  split; simpl.
  - rewrite length_insertZ. lia.
  - intros fd' t [[<- <-]|[_ Ht']]%lookup_insert_Some Hmt; simpl.
    + rewrite Ha, decide_True by lia. split; [lia|done].
    + destruct (inv_index _ _ I _ _ Ht' Hmt) as [Hi Hx]. rewrite Ha, decide_False by lia. split; [lia|done].
  - intros j Hj. rewrite Ha. destruct (decide (n = j)) as [<-|Hnj].
    + exists fd, s'. by rewrite lookup_insert_eq.
    + destruct (inv_array _ _ I j) as (fd' & t & Hx & Hm' & Hmt & Hi); [fold n; lia|]. exists fd', t.
      rewrite lookup_insert_ne by (symmetry; eauto). done.
  - destruct (inv_list _ _ I) as [Hok Hx]. split.
    + apply push_ok; [done|]. intros (t & Hm' & Hmt)%Hx. by eapply Hne.
    + intros fd'. rewrite elem_of_app, list_elem_of_singleton, Hx. destruct (decide (fd' = fd)) as [->|Hd].
      * rewrite lookup_insert_eq. naive_solver.
      * rewrite lookup_insert_ne by done. naive_solver.
  - destruct (inv_ready _ _ I) as [Hok Hx]. split; [done|]. intros fd' (t & Hm' & Hmt)%Hx. exists t.
    rewrite lookup_insert_ne by (symmetry; eauto). done.
  - intros r. rewrite Hrm, (users_join r m fd s s') by done. rewrite (inv_rings _ _ I).
    rewrite (decide_ext _ (r ∈ m_rx_ring_map s)) by apply elem_of_elements. case_decide; [|done].
    unfold count_of. destruct (users r m); simpl; repeat case_decide; try lia; f_equal; simpl; lia.
  - intros fd' t [[<- <-]|[_ Ht']]%lookup_insert_Some Hmt; [done|by apply (inv_type _ _ I fd')].
Qed.

(** The sockets and the array after the entry of index [i] was removed. *)
Definition removed (m : gmap Z socket_fd_api) (a : list Z) (n i : Z) (m1 : gmap Z socket_fd_api) (a1 : list Z) : Prop :=
  (i < n /\ exists last t, lookupZ a (n - 1) = Some last /\ m !! last = Some t /\
    m1 = <[last := set_fd_rec (set_index i (m_fd_rec t)) t]> m /\ a1 = insertZ (i - 1) last a) \/
  (i = n /\ m1 = m /\ a1 = a).

Lemma removed_entries m e fd s m1 a1 : inv m e -> m !! fd = Some s -> member s ->
  let n := m_n_offloaded_fds e in
  removed m (m_p_offloaded_fds e) n (offloaded_index (m_fd_rec s)) m1 a1 ->
  m1 !! fd = Some s /\
  (forall fd' t, fd' <> fd -> m1 !! fd' = Some t -> member t ->
    1 <= offloaded_index (m_fd_rec t) <= n - 1 /\ lookupZ a1 (offloaded_index (m_fd_rec t) - 1) = Some fd') /\
  (forall j, 0 <= j < n - 1 -> exists fd' t,
    fd' <> fd /\ lookupZ a1 j = Some fd' /\ m1 !! fd' = Some t /\ member t /\ offloaded_index (m_fd_rec t) = j + 1).
Proof.
  intros I Hm Hs n. destruct (inv_index _ _ I _ _ Hm Hs) as [Hi Ha]. pose proof (inv_bounds _ _ I) as [Hb Hl].
  fold n in Hi, Hb. intros [(Hin & last & t & Hlast & Ht & -> & ->)|(Hin & -> & ->)].
  - destruct (inv_array _ _ I (n - 1)) as (last' & t' & Hl' & Ht' & Hmt & Hit); [fold n; lia|].
    rewrite Hlast in Hl'. injection Hl' as <-. rewrite Ht in Ht'. injection Ht' as <-.
    assert (last <> fd) as Hne by (intros ->; rewrite Hm in Ht; injection Ht as ->; lia).
    assert (forall j, lookupZ (insertZ (offloaded_index (m_fd_rec s) - 1) last (m_p_offloaded_fds e)) j =
      if decide (offloaded_index (m_fd_rec s) - 1 = j) then Some last else lookupZ (m_p_offloaded_fds e) j) as Hx
      by (intros j; apply lookupZ_insertZ; lia).
    split_and!; [by rewrite lookup_insert_ne| |].
    + intros fd' t1 Hfd [[<- <-]|[Hfl Ht1]]%lookup_insert_Some Hm1; simpl.
      * rewrite Hx, decide_True by lia. split; [lia|done].
      * destruct (inv_index _ _ I _ _ Ht1 Hm1) as [Hi1 Ha1]. fold n in Hi1.
        assert (offloaded_index (m_fd_rec t1) <> n) by (intros E; rewrite E in Ha1; congruence).
        rewrite Hx, decide_False by (intros E; rewrite <- E in Ha1; congruence). split; [lia|done].
    + intros j Hj. rewrite Hx. destruct (decide (offloaded_index (m_fd_rec s) - 1 = j)) as [<-|Hij].
      * exists last, (set_fd_rec (set_index (offloaded_index (m_fd_rec s)) (m_fd_rec t)) t).
        rewrite lookup_insert_eq. simpl. split_and!; [done..|lia].
      * destruct (inv_array _ _ I j) as (fd' & t1 & Hx1 & Ht1 & Hmt1 & Hi1); [fold n; lia|]. exists fd', t1.
        assert (fd' <> fd) by (intros ->; rewrite Hm in Ht1; injection Ht1 as ->; lia).
        assert (fd' <> last) by (intros ->; rewrite Ht in Ht1; injection Ht1 as ->; lia).
        by rewrite lookup_insert_ne.
  - split_and!; [done| |].
    + intros fd' t1 Hfd Ht1 Hm1. destruct (inv_index _ _ I _ _ Ht1 Hm1) as [Hi1 Ha1]. fold n in Hi1.
      assert (offloaded_index (m_fd_rec t1) <> n) by (intros E; rewrite E, <- Hin in Ha1; congruence). split; [lia|done].
    + intros j Hj. destruct (inv_array _ _ I j) as (fd' & t1 & Hx1 & Ht1 & Hmt1 & Hi1); [fold n; lia|]. exists fd', t1.
      assert (fd' <> fd) by (intros ->; rewrite Hm in Ht1; injection Ht1 as ->; lia). done.
Qed.

Lemma removed_others m a n i m1 a1 : removed m a n i m1 a1 ->
  (forall r, users r m1 = users r m) /\
  (forall fd, (exists t, m1 !! fd = Some t /\ member t) <-> (exists t, m !! fd = Some t /\ member t)) /\
  (forall fd t, m1 !! fd = Some t -> exists t0, m !! fd = Some t0 /\ m_econtext t = m_econtext t0 /\ is_socket t = is_socket t0).
Proof.
  intros [(_ & last & t & _ & Ht & -> & ->)|(_ & -> & ->)]; [|naive_solver]. split_and!.
  - intros r. pose proof (users_insert r m last t (set_fd_rec (set_index i (m_fd_rec t)) t) Ht) as Hu.
    assert (uses r (set_fd_rec (set_index i (m_fd_rec t)) t) = uses r t) by done. lia.
  - by apply (member_insert m last t).
  - intros fd t1 [[<- <-]|[_ H1]]%lookup_insert_Some; eauto.
Qed.

Lemma inv_del m e fd s m1 a1 s2 rm e2 : inv m e -> m !! fd = Some s -> member s -> fd ∉ items (m_ready_fds e) ->
  removed m (m_p_offloaded_fds e) (m_n_offloaded_fds e) (offloaded_index (m_fd_rec s)) m1 a1 ->
  m_econtext s2 = None ->
  (forall r, rm !! r = if decide (r ∈ elements (m_rx_ring_map s)) then c ← m_ring_map e !! r; if decide (c = 1) then None else Some (c - 1)
                       else m_ring_map e !! r) ->
  m_size e2 = m_size e -> m_p_offloaded_fds e2 = a1 -> m_n_offloaded_fds e2 = m_n_offloaded_fds e - 1 ->
  m_fd_offloaded_list e2 = list_erase fd (m_fd_offloaded_list e) -> m_ring_map e2 = rm -> m_ready_fds e2 = m_ready_fds e ->
  inv (<[fd := s2]> m1) e2.
Proof.
  intros I Hm Hs Hnr Hrem Hc2 Hrm E1 E2 E3 E4 E5 E6. assert (~ member s2) as Hs2 by (unfold member; by rewrite Hc2).
  destruct (removed_entries _ _ _ _ _ _ I Hm Hs Hrem) as (Hm1 & Hidx & Harr).
  destruct (removed_others _ _ _ _ _ _ Hrem) as (Hu & Hmem & Hold).
  destruct (inv_index _ _ I _ _ Hm Hs) as [Hi _]. pose proof (inv_bounds _ _ I) as [Hb Hl].
  assert (length a1 = length (m_p_offloaded_fds e)) as Hla.
  { destruct Hrem as [(_ & last & t & _ & _ & _ & ->)|(_ & _ & ->)]; [apply length_insertZ|done]. }
  split; rewrite ?E1, ?E2, ?E3, ?E4, ?E5, ?E6, ?Hla.
  - lia.
  - intros fd' t [[<- <-]|[Hne Ht]]%lookup_insert_Some Hmt; [done|]. by apply Hidx.
  - intros j Hj. destruct (Harr j) as (fd' & t & Hne & Hx & Ht & Hmt & Hit); [lia|]. exists fd', t. by rewrite lookup_insert_ne.
  - destruct (inv_list _ _ I) as [Hok Hx]. split; [apply erase_ok; [done|]; apply Hx; eauto|]. intros fd'.
    rewrite elem_of_erase, Hx, <- Hmem. destruct (decide (fd' = fd)) as [->|Hd].
    + rewrite lookup_insert_eq. naive_solver.
    + rewrite lookup_insert_ne by done. naive_solver.
  - destruct (inv_ready _ _ I) as [Hok Hx]. split; [done|]. intros fd' Hf. assert (fd' <> fd) by congruence.
    rewrite lookup_insert_ne by done. apply Hmem. auto.
  - intros r. rewrite Hrm. pose proof (users_insert r m1 fd s s2 Hm1) as Hus. rewrite Hu in Hus. rewrite (inv_rings _ _ I).
    rewrite (decide_ext _ (r ∈ m_rx_ring_map s)) by apply elem_of_elements. unfold uses in Hus.
    rewrite (decide_False (P := member s2 /\ _)) in Hus by naive_solver.
    destruct (decide (r ∈ m_rx_ring_map s)) as [Hr|Hr]; [rewrite decide_True in Hus by done|rewrite decide_False in Hus by naive_solver; f_equal; lia].
    unfold count_of. destruct (users r m) as [|u] eqn:Eu; [lia|]. simpl. repeat case_decide; try done; try lia. f_equal. lia.
  - intros fd' t [[<- <-]|[Hne Ht]]%lookup_insert_Some Hmt; [done|]. destruct (Hold _ _ Ht) as (t0 & Ht0 & Hc0 & ->).
    apply (inv_type _ _ I _ _ Ht0). unfold member in *. congruence.
Qed.

(** *** The ready list *)

Lemma inv_push_ready m e fd s : inv m e -> m !! fd = Some s -> member s -> fd ∉ items (m_ready_fds e) ->
  inv m (set_ready (list_push_back fd (m_ready_fds e)) e).
Proof.
  intros I Hm Hs Hn. destruct (inv_ready _ _ I) as [Hok Hx]. split; simpl; try apply I. split; [by apply push_ok|].
  intros fd' [| ->%list_elem_of_singleton]%elem_of_app; eauto.
Qed.

Lemma inv_erase_ready m e fd : inv m e -> fd ∈ items (m_ready_fds e) -> inv m (set_ready (list_erase fd (m_ready_fds e)) e).
Proof.
  intros I Hf. destruct (inv_ready _ _ I) as [Hok Hx]. split; simpl; try apply I. split; [by apply erase_ok|].
  intros fd' [_ Hf']%elem_of_erase. auto.
Qed.

(** ** The operations keep the invariant *)

Definition good (w : world) : Prop := inv (socks w) (ep w) /\ map_ok (socks w) (ep w).

Definition is_member (fd : Z) (w : world) : Prop := exists s, socks w !! fd = Some s /\ member s.

(** An update of a member that does not touch its membership. *)
Lemma on_sock_good fd f w s : good w -> socks w !! fd = Some s -> similar s (f s) ->
  returns (fun w' => good w' /\ socks w' = <[fd := f s]> (socks w) /\ ep w' = ep w) (on_sock fd f w).
Proof.
  intros [I M] Hm Hs. rewrite (on_sock_Ok fd f w s Hm). apply returns_Ok. split; [|done]. split; simpl.
  - by apply (inv_similar _ _ _ s).
  - apply (map_ok_similar _ _ _ s); [done..|apply Hs].
Qed.

Lemma insert_event_good fd ev w : good w -> is_member fd w ->
  returns (fun w' => good w' /\ is_member fd w') (insert_epoll_event fd ev w).
Proof.
  intros G (s & Hm & Hs). unfold insert_epoll_event, is_ready. case_bool_decide as Hr.
  - eapply returns_mono, on_sock_good; [|done..]. intros w' (G' & E & _). split; [done|].
    eexists. rewrite E, lookup_insert_eq. done.
  - eapply returns_bind; [by apply (on_sock_good fd _ w s)|]. intros w' ([I M] & E & E'). apply returns_Ok.
    assert (socks w' !! fd = Some (set_flags ev s)) as Hm' by by rewrite E, lookup_insert_eq.
    split; [split; [|apply M]|by exists (set_flags ev s)]. apply (inv_push_ready _ _ _ (set_flags ev s)); [done..|by rewrite E'].
Qed.

Lemma drop_ready_good fd w : good w ->
  returns (fun w' => good w' /\ fd ∉ items (m_ready_fds (ep w')) /\
    (forall fd', fd' <> fd -> socks w' !! fd' = socks w !! fd')) (drop_ready fd w).
Proof.
  intros G. unfold drop_ready, is_ready. destruct (socks w !! fd) as [s|] eqn:Hm.
  - case_bool_decide as Hr; [|by apply returns_Ok]. eapply returns_bind; [by apply (on_sock_good fd _ w s)|].
    intros w' ([I M] & E & E'). apply returns_Ok. simpl. split_and!.
    + split; [apply inv_erase_ready; [done|by rewrite E']|apply M].
    + intros [[] _]%elem_of_erase. done.
    + intros fd' Hne. by rewrite E, lookup_insert_ne.
  - apply returns_Ok. split_and!; [done| |done]. intros Hf. destruct G as [I _].
    destruct (inv_ready _ _ I) as [_ Hx]. destruct (Hx _ Hf) as (s & ? & _). congruence.
Qed.

Lemma good_same w w' : socks w' = socks w -> ep w' = ep w -> good w -> good w'.
Proof. unfold good. by intros -> ->. Qed.

Lemma ctl_os_good op fd w : good w -> good (ctl_os op fd w).2.
Proof. destruct (ctl_os_same op fd w). by apply good_same. Qed.

Section Operations.
(** The number 0 is the answer of a socket without an epoll descriptor. *)
Context (Hepfd : m_epfd <> 0).

Lemma in_context_spec o : in_context o = true <-> exists s, o = Some s /\ member s.
Proof.
  unfold in_context, get_epoll_context_fd, member. destruct o as [s|]; [|naive_solver]. rewrite Z.eqb_eq.
  split; [|intros (s0 & [= <-] & ->); done]. destruct (m_econtext s) as [c|] eqn:E; simpl; [intros ->; eauto|congruence].
Qed.

Lemma add_context_good fd w s ev d : good w -> socks w !! fd = Some s -> is_socket s = true ->
  m_n_offloaded_fds (ep w) < m_size (ep w) ->
  returns (fun x => (x.1 <> None -> x.2 = w /\ m_econtext s <> None) /\ (x.1 = None ->
    m_n_offloaded_fds (ep x.2) = m_n_offloaded_fds (ep w) /\ m_p_offloaded_fds (ep x.2) = m_p_offloaded_fds (ep w) /\
    exists t, socks x.2 !! fd = Some t /\
    let n := m_n_offloaded_fds (ep x.2) in
    let w3 := World (<[fd := set_fd_rec (FdRec ev d (n + 1)) t]> (socks x.2))
      (set_offloaded_list (list_push_back fd (m_fd_offloaded_list (ep x.2)))
        (set_offloaded (insertZ n fd (m_p_offloaded_fds (ep x.2))) (n + 1) (ep x.2))) (os x.2) in
    good w3 /\ is_member fd w3)) (add_epoll_context fd w).
Proof.
  intros [I M] Hm Ht Hn. unfold add_epoll_context. rewrite Hm. simpl. destruct (m_econtext s) as [c|] eqn:Hc.
  { apply returns_Ok. split; [done|by intros]. }
  rewrite (on_sock_Ok fd _ w s Hm). simpl.
  destruct (increase_all (elements (m_rx_ring_map s)) (set_socks (<[fd := set_econtext (Some m_epfd) s]> (socks w)) w)) as (rm & o & -> & Hrm).
  { apply NoDup_elements. }
  apply returns_Ok. simpl in *. split; [done|]. intros _. split_and!; [done..|].
  exists (set_econtext (Some m_epfd) s). rewrite lookup_insert_eq. split; [done|]. rewrite insert_insert_eq. split; [split|].
  - by apply inv_add.
  - simpl. intros fd' t Hd [[<- <-]|[_ Ht']]%lookup_insert_Some; [|eauto]. simpl. eauto.
  - eexists. simpl. by rewrite lookup_insert_eq.
Qed.

Lemma add_offloaded_good rd wr fd ev d w s : good w -> socks w !! fd = Some s -> is_socket s = true ->
  returns (fun x => good x.2) (add_offloaded rd wr fd ev d w).
Proof.
  intros G Hm Ht. unfold add_offloaded. destruct (Z.leb_spec (m_size (ep w)) (m_n_offloaded_fds (ep w))) as [Hn|Hn]; [by apply returns_Ok|].
  eapply returns_bind; [by apply (add_context_good fd w s ev d)|]. intros [[e|] w2] [H1 H2]; simpl in *.
  { apply returns_Ok. simpl. by destruct H1 as [-> _]. }
  destruct (H2 eq_refl) as (En & Ea & t & Hm2 & G3 & M3). pose proof G as [I _]. pose proof (inv_bounds _ _ I) as [Hb Hl].
  destruct (lookupZ_is_Some (m_p_offloaded_fds (ep w2)) (m_n_offloaded_fds (ep w2))) as [_ [x Hx]]; [rewrite En, Ea; lia|].
  eapply returns_must; [done|]. erewrite on_sock_Ok by (simpl; exact Hm2). simpl.
  case_match; [|by apply returns_Ok]. eapply returns_bind; [by apply insert_event_good|]. intros w' [G' _]. by apply returns_Ok.
Qed.

Lemma add_fd_good rd wr fd ev d w : good w -> returns (fun x => good x.2) (add_fd rd wr fd ev d w).
Proof.
  intros G. unfold add_fd.
  set (b := match socks w !! fd with Some s => skip_os_select s | None => false end).
  set (r := if b then _ else _).
  assert (good r.2 /\ socks r.2 = socks w) as [G2 Hs].
  { unfold r. destruct b; [done|]. pose proof (ctl_os_good EPOLL_CTL_ADD fd w G). pose proof (ctl_os_same EPOLL_CTL_ADD fd w) as [? _].
    by destruct (ctl_os EPOLL_CTL_ADD fd w). }
  destruct r as [[e|] w2]; simpl in *; [by apply returns_Ok|]. destruct (socks w !! fd) as [s|] eqn:Hm.
  - destruct (is_socket s) eqn:Ht; [eapply (add_offloaded_good _ _ _ _ _ _ s); [done|by rewrite Hs|done]|].
    apply returns_Ok. simpl. destruct G2 as [I M]. split; [by split; apply I|].
    intros fd' t Hd Ht'. simpl in *. destruct (decide (fd' = fd)) as [->|Hne]; [rewrite Hs in Ht'; congruence|].
    rewrite lookup_insert_ne in Hd by done. eauto.
  - apply returns_Ok. simpl. destruct G2 as [I M]. split; [by split; apply I|].
    intros fd' t Hd Ht'. simpl in *. destruct (decide (fd' = fd)) as [->|Hne]; [rewrite Hs in Ht'; congruence|].
    rewrite lookup_insert_ne in Hd by done. eauto.
Qed.

(** A record is that of a member or one of the map. *)
Lemma get_fd_rec_cases fd w :
  match get_fd_rec fd w with
  | Some (SockRec fd') => fd' = fd /\ is_member fd w
  | Some (MapRec fd') => fd' = fd /\ ~ is_member fd w /\ is_Some (m_fd_non_offloaded_map (ep w) !! fd)
  | None => ~ is_member fd w /\ m_fd_non_offloaded_map (ep w) !! fd = None
  end.
Proof.
  unfold get_fd_rec. pose proof (in_context_spec (socks w !! fd)) as H. unfold is_member. destruct (in_context (socks w !! fd)).
  - split; [done|]. by apply H.
  - assert (~ exists s, socks w !! fd = Some s /\ member s) as Hn by (intros E; by apply H in E). case_decide as Hd; [done|].
    split; [done|]. by apply eq_None_not_Some.
Qed.

Lemma write_rec_good p w : good w ->
  match p with SockRec fd => is_member fd w | MapRec fd => is_Some (m_fd_non_offloaded_map (ep w) !! fd) end ->
  returns (fun r => forall ev d, returns (fun w' => good w' /\ forall fd, is_member fd w -> is_member fd w')
    (write_rec p (FdRec ev d (offloaded_index r)) w)) (read_rec p w).
Proof.
  intros G. destruct p as [fd|fd]; simpl.
  - intros (s & Hm & Hs). rewrite Hm. simpl. apply returns_Ok. intros ev d.
    eapply returns_mono, (on_sock_good fd _ w s); [|done..]. intros w' (G' & E & _). split; [done|].
    intros fd' (t & Ht & Hmt). unfold is_member. rewrite E. destruct (decide (fd' = fd)) as [->|Hne].
    + rewrite lookup_insert_eq. simplify_eq. eauto.
    + rewrite lookup_insert_ne by done. eauto.
  - intros [r Hr]. rewrite Hr. apply returns_Ok. intros ev d. simpl. apply returns_Ok. split; [|done].
    destruct G as [I M]. split; simpl; [by split; apply I|]. intros fd' t Hd. apply M.
    destruct (decide (fd' = fd)) as [->|Hne]; [done|]. simpl in Hd. by rewrite lookup_insert_ne in Hd.
Qed.

Lemma mod_fd_good rd wr fd ev d w : good w -> returns (fun x => good x.2) (mod_fd rd wr fd ev d w).
Proof.
  intros G. unfold mod_fd. pose proof (get_fd_rec_cases fd w) as Hc. destruct (get_fd_rec fd w) as [p|]; [|by apply returns_Ok].
  set (b := match socks w !! fd with Some s => skip_os_select s | None => false end).
  set (r := if b then _ else _).
  assert (good r.2 /\ socks r.2 = socks w /\ ep r.2 = ep w) as (G2 & Hs & He).
  { unfold r. destruct b; [done|]. split; [by apply ctl_os_good|apply ctl_os_same]. }
  destruct r as [ok w2]; simpl in *. destruct ok; simpl; [|by apply returns_Ok].
  eapply returns_bind; [apply (write_rec_good p w2 G2)|].
  { unfold is_member. rewrite Hs, He. destruct p; destruct Hc as [-> ?]; [done|naive_solver]. }
  intros r2 Hw. eapply returns_bind; [apply Hw|]. intros w3 [G3 Hk].
  eapply (returns_bind good).
  - match goal with |- returns _ (if ?c then _ else _) => destruct c eqn:Hev end; [|by apply returns_Ok].
    eapply returns_mono, insert_event_good; [by intros ? []|done|].
    apply Hk. unfold is_member. rewrite Hs. destruct (socks w !! fd) as [s|] eqn:Hm; [|done]. destruct (is_socket s) eqn:Ht; [|done].
    destruct p as [fd'|fd']; destruct Hc as [-> Hc]; [by rewrite <- Hm|]. destruct Hc as [_ Hx]. destruct G as [_ M].
    rewrite (M _ _ Hx Hm) in Ht. done.
  - intros w4 G4. eapply returns_bind with (P := good); [|by intros; apply returns_Ok].
    match goal with |- returns _ (if ?c then _ else _) => destruct c end; [|by apply returns_Ok].
    eapply returns_mono, drop_ready_good; [|done]. by intros ? [].
Qed.

(** The socket and the ready list after [drop_ready]. *)
Definition dropped (fd : Z) (s : socket_fd_api) (l : vma_list) : socket_fd_api * vma_list :=
  if decide (fd ∈ items l) then (set_flags 0 s, list_erase fd l) else (s, l).

Lemma drop_ready_eq fd w s : socks w !! fd = Some s ->
  drop_ready fd w = let '(t, l) := dropped fd s (m_ready_fds (ep w)) in
    Ok (World (<[fd := t]> (socks w)) (set_ready l (ep w)) (os w)).
Proof.
  intros Hm. unfold drop_ready, is_ready, dropped. rewrite Hm. case_decide as Hd.
  - rewrite bool_decide_true by done. by rewrite (on_sock_Ok fd _ w s Hm).
  - rewrite bool_decide_false by done. rewrite insert_id by done. by destruct w as [? [] ?].
Qed.

Lemma inv_dropped m e fd s : inv m e -> m !! fd = Some s ->
  let '(t, l) := dropped fd s (m_ready_fds e) in
  inv (<[fd := t]> m) (set_ready l e) /\ fd ∉ items l /\ similar s t.
Proof.
  intros I Hm. unfold dropped. case_decide as Hd.
  - split_and!; [|by intros [[] _]%elem_of_erase|done]. apply (inv_similar _ _ fd s); [|done..]. by apply inv_erase_ready.
  - split_and!; [|done..]. rewrite insert_id by done. by destruct e.
Qed.

Lemma remove_offloaded_eq m e fd s w : inv m e -> m !! fd = Some s -> member s ->
  socks w = m -> m_p_offloaded_fds (ep w) = m_p_offloaded_fds e -> m_n_offloaded_fds (ep w) = m_n_offloaded_fds e ->
  exists m1 a1, removed m (m_p_offloaded_fds e) (m_n_offloaded_fds e) (offloaded_index (m_fd_rec s)) m1 a1 /\
    remove_offloaded (offloaded_index (m_fd_rec s)) w = Ok (World m1 (set_offloaded a1 (m_n_offloaded_fds e - 1) (ep w)) (os w)).
Proof.
  intros I Hm Hs Es Ea En. unfold remove_offloaded. rewrite Ea, En. destruct (inv_index _ _ I _ _ Hm Hs) as [Hi Hx].
  destruct (Z.ltb_spec (offloaded_index (m_fd_rec s)) (m_n_offloaded_fds e)) as [Hlt|Hge].
  - destruct (inv_array _ _ I (m_n_offloaded_fds e - 1)) as (last & t & Hl & Ht & Hmt & Hit); [lia|].
    exists (<[last := set_fd_rec (set_index (offloaded_index (m_fd_rec s)) (m_fd_rec t)) t]> m),
      (insertZ (offloaded_index (m_fd_rec s) - 1) last (m_p_offloaded_fds e)).
    split; [left; split; [done|]; by exists last, t|]. rewrite Hl, Hx. simpl. rewrite Es, Ht.
    assert (get_epoll_context_fd t =? m_epfd = true) as ->.
    { unfold get_epoll_context_fd. rewrite Hmt. apply Z.eqb_refl. }
    erewrite on_sock_Ok by (simpl; rewrite Es; exact Ht). simpl. by rewrite Es.
  - exists m, (m_p_offloaded_fds e). split; [right; split; [lia|done]|]. simpl. unfold on_ep. rewrite Es, Ea, En. done.
Qed.

Lemma remove_context_eq fd w s : socks w !! fd = Some s -> member s -> exists rm o,
  remove_epoll_context fd w = Ok (World (<[fd := set_econtext None s]> (socks w)) (set_ring_map rm (ep w)) o) /\
  forall r, rm !! r = if decide (r ∈ elements (m_rx_ring_map s)) then c ← m_ring_map (ep w) !! r; if decide (c = 1) then None else Some (c - 1)
                      else m_ring_map (ep w) !! r.
Proof.
  intros Hm Hs. unfold remove_epoll_context. rewrite Hm. simpl. rewrite decide_True by done.
  destruct (decrease_all (elements (m_rx_ring_map s)) w (NoDup_elements _)) as (rm & o & -> & Hrm). exists rm, o.
  split; [|done]. by erewrite on_sock_Ok by (simpl; exact Hm).
Qed.

(** [e] with the socket erased from the list and another map. *)
Definition unlisted (fd : Z) (e e1 : epfd_info) : Prop :=
  exists mp, e1 = set_non_offloaded mp (set_offloaded_list (list_erase fd (m_fd_offloaded_list e)) e).

Lemma detach_member fd w s e : inv (socks w) e -> socks w !! fd = Some s -> member s -> unlisted fd e (ep w) ->
  returns (fun w' => inv (socks w') (ep w') /\ ~ is_member fd w' /\
    m_fd_non_offloaded_map (ep w') = m_fd_non_offloaded_map (ep w) /\
    (forall fd' t, socks w' !! fd' = Some t -> exists t0, socks w !! fd' = Some t0 /\ is_socket t = is_socket t0))
    (detach (SockRec fd) (Some s) fd w).
Proof.
  intros I Hm Hs [mp Ee]. unfold detach. rewrite (drop_ready_eq fd w s Hm).
  pose proof (inv_dropped _ _ fd s I Hm) as Hd. replace (m_ready_fds (ep w)) with (m_ready_fds e) by by rewrite Ee.
  destruct (dropped fd s (m_ready_fds e)) as [t l]. destruct Hd as (I2 & Hnl & Ht & Hc & Hr & Hi).
  assert (member t) as Hmt by (unfold member; by rewrite Hc).
  cbn [mbind res_bind read_rec socks]. rewrite lookup_insert_eq. cbn [must mbind res_bind].
  destruct (inv_index _ _ I _ _ Hm Hs) as [Hix _]. rewrite (proj2 (Z.ltb_lt _ _)) by lia.
  destruct (remove_offloaded_eq _ _ fd t (World (<[fd := t]> (socks w)) (set_ready l (ep w)) (os w)) I2) as (m1 & a1 & Hrem & ->);
    [apply lookup_insert_eq|done|done|by rewrite Ee..|]. simpl.
  destruct (removed_entries _ _ fd t _ _ I2 (lookup_insert_eq _ _ _) Hmt Hrem) as (Hm1 & _).
  destruct (removed_others _ _ _ _ _ _ Hrem) as (_ & _ & Hold).
  erewrite on_sock_Ok by (simpl; exact Hm1). simpl.
  match goal with |- returns _ (remove_epoll_context fd ?w3) =>
    destruct (remove_context_eq fd w3 (set_fd_rec rec_reset t)) as (rm & o & -> & Hrm); [apply lookup_insert_eq|done|] end.
  simpl in *. rewrite insert_insert_eq. apply returns_Ok. simpl. split_and!.
  - eapply (inv_del _ _ fd t m1 a1 _ rm); [exact I2|apply lookup_insert_eq|done|done|done|done| |..]; simpl; rewrite ?Ee; try done.
    intros r. rewrite Hrm. by rewrite Ee.
  - intros (t' & Ht' & Hmt'). simpl in Ht'. rewrite lookup_insert_eq in Ht'. by injection Ht' as <-.
  - done.
  - intros fd' t' [[<- <-]|[Hne Ht']]%lookup_insert_Some; [exists s; split; [done|exact Ht]|].
    destruct (Hold _ _ Ht') as (t0 & Ht0 & _ & Hst). rewrite lookup_insert_ne in Ht0 by done. eauto.
Qed.

Lemma del_fd_member fd pt w : good w -> is_member fd w ->
  returns (fun x => x.1 = None /\ inv (socks x.2) (ep x.2) /\ ~ is_member fd x.2 /\
    map_ok (if pt : bool then delete fd (socks x.2) else socks x.2) (ep x.2)) (del_fd fd pt w).
Proof.
  intros G (s & Hm & Hs). unfold del_fd. rewrite Hm. set (b := skip_os_select s || pt).
  set (w0 := if b then w else _). assert (socks w0 = socks w /\ ep w0 = ep w) as [Es Ee].
  { unfold w0. destruct b; [done|apply ctl_os_same]. }
  clearbody w0. destruct G as [I M]. unfold get_fd_rec. rewrite Es, Hm.
  assert (in_context (Some s) = true) as -> by (apply in_context_spec; eauto).
  eapply (returns_bind (fun w1 => socks w1 = socks w /\ unlisted fd (ep w) (ep w1) /\
    map_ok (if pt then delete fd (socks w) else socks w) (ep w1))).
  - destruct pt; simpl.
    + rewrite Es, Hm. simpl. apply returns_Ok. split_and!; [done|eexists; simpl; by rewrite Ee|].
      intros fd' t Hd [Hne Ht]%lookup_delete_Some. apply (M fd'); [|done]. simpl in Hd. by rewrite Ee, lookup_insert_ne in Hd.
    + apply returns_Ok. split_and!; [done| |by simpl; rewrite Ee]. exists (m_fd_non_offloaded_map (ep w)). simpl. rewrite Ee.
      by destruct (ep w).
  - intros w1 (Es1 & Hu & M1). eapply returns_bind; [apply (detach_member fd w1 s (ep w)); [by rewrite Es1..|done|done]|].
    intros w' (I' & Hn & Emap & Hold). apply returns_Ok. split_and!; [done..|]. simpl. intros fd' t Hd Ht. rewrite Emap in Hd.
    destruct pt.
    + apply lookup_delete_Some in Ht as [Hne Ht]. destruct (Hold _ _ Ht) as (t0 & Ht0 & ->). apply (M1 fd'); [done|].
      rewrite lookup_delete_ne by done. by rewrite <- Es1.
    + destruct (Hold _ _ Ht) as (t0 & Ht0 & ->). apply (M1 fd'); [done|]. by rewrite <- Es1.
Qed.

(** Deleting a record of the map reads it after it was erased. *)
Lemma del_fd_map fd pt w : ~ is_member fd w -> is_Some (m_fd_non_offloaded_map (ep w) !! fd) -> inv (socks w) (ep w) ->
  del_fd fd pt w = Undef.
Proof.
  intros Hn Hs I. unfold del_fd. set (b := _ || _). set (w0 := if b then w else _).
  assert (socks w0 = socks w /\ ep w0 = ep w) as [Es Ee] by (unfold w0; destruct b; [done|apply ctl_os_same]).
  clearbody w0. pose proof (get_fd_rec_cases fd w0) as Hc. unfold is_member in Hc. rewrite Es, Ee in Hc.
  destruct (get_fd_rec fd w0) as [[fd'|fd']|]; [by destruct Hc as [_ ?]| |destruct Hc as [_ Hc]; rewrite Hc in Hs; by destruct Hs].
  destruct Hc as [-> _]. destruct (in_context (socks w !! fd)) eqn:Hi; [by apply in_context_spec in Hi|].
  cbn [mbind res_bind]. unfold detach. assert (forall w1, socks w1 = socks w -> m_ready_fds (ep w1) = m_ready_fds (ep w) -> drop_ready fd w1 = Ok w1) as Hd.
  { intros w1 E1 E2. unfold drop_ready, is_ready. rewrite E1, E2. destruct (socks w !! fd) eqn:Hm; [|done].
    rewrite bool_decide_false; [done|]. intros Hf. by destruct (inv_ready _ _ I) as [_ Hx]; apply Hx in Hf. }
  rewrite Hd by (simpl; congruence). simpl. by rewrite lookup_delete_eq.
Qed.

Lemma del_fd_absent fd pt w : ~ is_member fd w -> m_fd_non_offloaded_map (ep w) !! fd = None ->
  exists w', del_fd fd pt w = Ok (Some ENOENT, w') /\ socks w' = socks w /\ ep w' = ep w.
Proof.
  intros Hn Hs. unfold del_fd. set (b := _ || _). set (w0 := if b then w else _).
  assert (socks w0 = socks w /\ ep w0 = ep w) as [Es Ee] by (unfold w0; destruct b; [done|apply ctl_os_same]).
  clearbody w0. pose proof (get_fd_rec_cases fd w0) as Hc. unfold is_member in Hc. rewrite Es, Ee in Hc. exists w0.
  destruct (get_fd_rec fd w0) as [[fd'|fd']|]; [by destruct Hc as [_ ?]| |done].
  destruct Hc as (_ & _ & Hx). rewrite Hs in Hx. by destruct Hx.
Qed.

Lemma fd_closed_good fd pt w : good w -> (is_member fd w \/ m_fd_non_offloaded_map (ep w) !! fd = None) ->
  returns good (handle_close fd pt w).
Proof.
  intros G Hf. unfold handle_close, fd_closed. pose proof (get_fd_rec_cases fd w) as Hc.
  assert (forall w1, ~ is_member fd w1 -> inv (socks w1) (ep w1) -> map_ok (delete fd (socks w1)) (ep w1) -> good (set_socks (delete fd (socks w1)) w1)) as Hgood.
  { intros w1 Hn I M. split; [|done]. unfold set_socks. simpl.
    assert (forall fd' t, delete fd (socks w1) !! fd' = Some t <-> fd' <> fd /\ socks w1 !! fd' = Some t) as Hl by (intros; rewrite lookup_delete_Some; naive_solver).
    assert (forall fd' t, socks w1 !! fd' = Some t -> member t -> fd' <> fd) as Hne by (intros fd' t H1 H2 ->; apply Hn; by exists t).
    split; try apply I.
    - intros fd' t [_ Ht]%Hl. by apply I.
    - intros j Hj. destruct (inv_array _ _ I j Hj) as (fd' & t & ? & Ht & Hm & ?). exists fd', t. rewrite Hl. split_and!; eauto.
    - destruct (inv_list _ _ I) as [Hok Hx]. split; [done|]. intros fd'. rewrite Hx. setoid_rewrite Hl. naive_solver.
    - destruct (inv_ready _ _ I) as [Hok Hx]. split; [done|]. intros fd' (t & Ht & Hm)%Hx. exists t. rewrite Hl. split_and!; eauto.
    - intros r. rewrite (inv_rings _ _ I). f_equal. destruct (socks w1 !! fd) as [t|] eqn:Ht; [|by rewrite delete_id].
      rewrite (users_delete r _ fd t Ht). unfold uses. rewrite decide_False; [done|]. intros [Hm _]. by eapply Hne.
    - intros fd' t [_ Ht]%Hl. by apply (inv_type _ _ I fd'). }
  destruct (get_fd_rec fd w) as [p|].
  - eapply returns_bind with (P := fun w1 => ~ is_member fd w1 /\ inv (socks w1) (ep w1) /\ map_ok (delete fd (socks w1)) (ep w1)).
    + eapply returns_bind; [apply (del_fd_member fd pt w G)|].
      * destruct p as [fd'|fd']; destruct Hc as [-> Hc]; [done|]. destruct Hf as [|Hf]; [done|]. destruct Hc as [_ Hc]. rewrite Hf in Hc. by destruct Hc.
      * intros x (_ & I & Hn & M). apply returns_Ok. split_and!; [done..|]. destruct pt; [done|].
        intros fd' t Hd [_ Ht]%lookup_delete_Some. eauto.
    + intros w1 (Hn & I & M). apply returns_Ok. by apply Hgood.
  - apply returns_Ok. apply Hgood; [apply Hc|apply G|]. destruct G as [_ M]. intros fd' t Hd [_ Ht]%lookup_delete_Some. eauto.
Qed.

(** *** Rings *)

Lemma users_rings r m fd s rs : m !! fd = Some s ->
  (users r (<[fd := set_rings rs s]> m) + uses r s = users r m + (if decide (member s /\ r ∈ rs) then 1 else 0))%nat.
Proof. intros Hm. apply (users_insert r m fd s (set_rings rs s) Hm). Qed.

Lemma inv_rings_change m e fd s rs rm : inv m e -> m !! fd = Some s ->
  (forall r, rm !! r = count_of (users r (<[fd := set_rings rs s]> m))) ->
  inv (<[fd := set_rings rs s]> m) (set_ring_map rm e).
Proof.
  intros I Hm Hr. assert (member (set_rings rs s) <-> member s) as Hs by done.
  split; simpl; try apply I; try done.
  - intros fd' t [[<- <-]|[_ Ht]]%lookup_insert_Some Hmt; [by apply (inv_index _ _ I fd s)|by apply (inv_index _ _ I)].
  - intros j Hj. destruct (inv_array _ _ I j Hj) as (fd' & t & Hx & Ht & Hmt & Hi). destruct (decide (fd' = fd)) as [->|Hne].
    + exists fd, (set_rings rs s). simplify_eq. by rewrite lookup_insert_eq.
    + exists fd', t. by rewrite lookup_insert_ne.
  - destruct (inv_list _ _ I) as [Hok Hx]. split; [done|]. intros fd'. by rewrite Hx, (member_insert m fd s _ Hm Hs).
  - destruct (inv_ready _ _ I) as [Hok Hx]. split; [done|]. intros fd' Hf. apply (member_insert m fd s _ Hm Hs). auto.
  - intros fd' t [[<- <-]|[_ Ht]]%lookup_insert_Some Hmt; [by apply (inv_type _ _ I fd s)|by apply (inv_type _ _ I fd')].
Qed.

Lemma ring_change_good fd rs w s rm o : good w -> socks w !! fd = Some s ->
  (forall r, rm !! r = count_of (users r (<[fd := set_rings rs s]> (socks w)))) ->
  good (World (<[fd := set_rings rs s]> (socks w)) (set_ring_map rm (ep w)) o).
Proof.
  intros [I M] Hm Hr. split; simpl; [by apply inv_rings_change|].
  exact (map_ok_similar _ (ep w) fd s (set_rings rs s) M Hm eq_refl).
Qed.

Lemma add_ring_good fd r w : good w -> is_Some (socks w !! fd) -> returns good (rx_add_ring fd r w).
Proof.
  intros G [s Hm]. unfold rx_add_ring. rewrite Hm. simpl. case_decide as Hr; [by apply returns_Ok|].
  rewrite (on_sock_Ok fd _ w s Hm). simpl. unfold notify_epoll_context_add_ring. simpl. rewrite lookup_insert_eq. simpl.
  apply returns_Ok. pose proof G as [I _]. assert (forall r', users r' (<[fd := set_rings ({[r]} ∪ m_rx_ring_map s) s]> (socks w)) =
    ((if decide (member s /\ r' = r) then 1 else 0) + users r' (socks w))%nat) as Hu.
  { intros r'. pose proof (users_rings r' (socks w) fd s ({[r]} ∪ m_rx_ring_map s) Hm) as Hu. unfold uses in Hu.
    repeat case_decide; try lia; set_solver. }
  case_decide as Hs.
  - match goal with |- good (increase_ring_ref_count r ?w1) => destruct (increase_spec r w1) as [o E]; rewrite E end.
    apply (ring_change_good fd _ w s _ o G Hm). simpl. intros r'. rewrite Hu. destruct (decide (r' = r)) as [->|Hne].
    + rewrite lookup_insert_eq, (inv_rings _ _ I), decide_True by done. unfold count_of.
      destruct (users r (socks w)); simpl; repeat case_decide; try lia; f_equal; lia.
    + rewrite lookup_insert_ne by done. rewrite (inv_rings _ _ I), (decide_False (P := member s /\ _)) by naive_solver. done.
  - eapply (good_same (World _ (set_ring_map (m_ring_map (ep w)) (ep w)) (os w))); [done|simpl; by destruct (ep w)|].
    apply (ring_change_good fd _ w s _ _ G Hm). intros r'. rewrite Hu, (decide_False (P := member s /\ _)) by (intros [? _]; done). apply I.
Qed.

Lemma del_ring_good fd r w : good w -> is_Some (socks w !! fd) -> returns good (rx_del_ring fd r w).
Proof.
  intros G [s Hm]. unfold rx_del_ring. rewrite Hm. simpl. case_decide as Hr; [|by apply returns_Ok].
  rewrite (on_sock_Ok fd _ w s Hm). simpl. unfold notify_epoll_context_remove_ring. simpl. rewrite lookup_insert_eq. simpl.
  apply returns_Ok. pose proof G as [I _]. assert (forall r', users r' (socks w) =
    ((if decide (member s /\ r' = r) then 1 else 0) + users r' (<[fd := set_rings (m_rx_ring_map s ∖ {[r]}) s]> (socks w)))%nat) as Hu.
  { intros r'. pose proof (users_rings r' (socks w) fd s (m_rx_ring_map s ∖ {[r]}) Hm) as Hu. unfold uses in Hu.
    repeat case_decide; try lia; set_solver. }
  case_decide as Hs.
  - match goal with |- good (decrease_ring_ref_count r ?w1) => destruct (decrease_spec r w1) as [o E]; rewrite E end.
    apply (ring_change_good fd _ w s _ o G Hm). simpl. intros r'. specialize (Hu r'). destruct (decide (r' = r)) as [->|Hne].
    + rewrite lookup_partial_alter_eq, (inv_rings _ _ I). rewrite decide_True in Hu by done. rewrite Hu. simpl. unfold count_of at 1.
      simpl. unfold count_of. repeat case_decide; try done; try lia. f_equal. lia.
    + rewrite lookup_partial_alter_ne by done. rewrite (decide_False (P := member s /\ _)) in Hu by naive_solver. by rewrite (inv_rings _ _ I), Hu.
  - eapply (good_same (World _ (set_ring_map (m_ring_map (ep w)) (ep w)) (os w))); [done|simpl; by destruct (ep w)|].
    apply (ring_change_good fd _ w s _ _ G Hm). intros r'. specialize (Hu r'). rewrite (decide_False (P := member s /\ _)) in Hu by (intros [? _]; done). by rewrite (inv_rings _ _ I), Hu.
Qed.

(** *** Events *)

Lemma notify_good fd ev w : good w -> is_Some (socks w !! fd) -> returns good (notify_epoll_context fd ev w).
Proof.
  intros G [s Hm]. unfold notify_epoll_context, insert_epoll_event_cb. rewrite Hm. simpl. case_decide as Hs; [|by apply returns_Ok].
  match goal with |- returns _ (if ?c then _ else _) => destruct c end; [|by apply returns_Ok].
  eapply returns_mono, insert_event_good; [by intros ? []|done|by exists s].
Qed.

(** All bits of [a] are bits of [b]. *)
Definition sub (a b : Z) : Prop := Z.land a b = a.

Lemma sub_bits a b : sub a b <-> forall i, 0 <= i -> Z.testbit a i = true -> Z.testbit b i = true.
Proof.
  unfold sub. split.
  - intros E i Hi Ha. rewrite <- E, Z.land_spec in Ha. by apply andb_true_iff in Ha as [_ Hb].
  - intros H. apply Z.bits_inj'. intros i Hi. rewrite Z.land_spec. specialize (H i Hi). destruct (Z.testbit a i); [by rewrite H|done].
Qed.

Lemma sub_land_l a b c : sub a b -> sub (Z.land a c) b.
Proof. rewrite !sub_bits. intros H i Hi. rewrite Z.land_spec. intros [Ha _]%andb_true_iff. auto. Qed.

Lemma sub_ldiff_l a b c : sub a b -> sub (Z.ldiff a c) b.
Proof. rewrite !sub_bits. intros H i Hi. rewrite Z.ldiff_spec. intros [Ha _]%andb_true_iff. auto. Qed.

Lemma sub_lor a b c : sub a c -> sub b c -> sub (Z.lor a b) c.
Proof. rewrite !sub_bits. intros H1 H2 i Hi. rewrite Z.lor_spec. intros [Ha|Ha]%orb_true_iff; auto. Qed.

(** Bits that are kept when others are cleared. *)
Lemma sub_cleared a b c : sub a b -> Z.land a c = 0 -> sub a (Z.ldiff b c).
Proof.
  rewrite !sub_bits. intros H Hc i Hi Ha. rewrite Z.ldiff_spec, H by done. simpl. apply negb_true_iff.
  destruct (Z.testbit c i) eqn:Ec; [|done]. assert (Z.testbit (Z.land a c) i = true) as E by (rewrite Z.land_spec; by rewrite Ha, Ec).
  by rewrite Hc, Z.bits_0 in E.
Qed.

Lemma sub_nonzero a b : sub a b -> a <> 0 -> b <> 0.
Proof. unfold sub. intros E Ha ->. apply Ha. by rewrite <- E, Z.land_0_r. Qed.

Lemma ldiff_land_disjoint a b : Z.land (Z.ldiff a b) (Z.land a b) = 0.
Proof. apply Z.bits_inj'. intros i Hi. rewrite !Z.land_spec, Z.ldiff_spec, Z.bits_0. by destruct (Z.testbit a i), (Z.testbit b i). Qed.

(** The sockets and the ready lists agree but for one socket. *)
Definition same_others (fd : Z) (w w' : world) : Prop :=
  forall fd', fd' <> fd -> socks w' !! fd' = socks w !! fd' /\
    (fd' ∈ items (m_ready_fds (ep w')) <-> fd' ∈ items (m_ready_fds (ep w))).

Lemma same_others_trans fd w1 w2 w3 : same_others fd w1 w2 -> same_others fd w2 w3 -> same_others fd w1 w3.
Proof. intros H1 H2 fd' Hne. destruct (H1 fd' Hne) as [E1 I1], (H2 fd' Hne) as [E2 I2]. split; [congruence|by rewrite I2]. Qed.

(** A ready socket that still has the events [m] to report. *)
Definition pending (fd m : Z) (w : world) : Prop :=
  good w /\ is_member fd w /\ (m <> 0 -> fd ∈ items (m_ready_fds (ep w)) /\
    exists s, socks w !! fd = Some s /\ sub m (m_epoll_event_flags s)).

Lemma remove_event_pending fd ev m w : pending fd ev w -> ev <> 0 -> Z.land m ev = 0 ->
  (forall s, socks w !! fd = Some s -> sub m (m_epoll_event_flags s)) ->
  returns (fun w' => pending fd m w' /\ same_others fd w w') (remove_epoll_event fd ev w).
Proof.
  intros (G & (s & Hm & Hs) & Hp) Hev Hd Hsub. destruct (Hp Hev) as [Hr _]. specialize (Hsub _ Hm).
  unfold remove_epoll_event. eapply returns_bind; [by apply (on_sock_good fd _ w s)|]. intros w1 (G1 & E1 & Ee1).
  assert (socks w1 !! fd = Some (set_flags (Z.ldiff (m_epoll_event_flags s) ev) s)) as Hm1 by by rewrite E1, lookup_insert_eq.
  eapply returns_must; [exact Hm1|]. apply returns_Ok. simpl. pose proof (sub_cleared m _ ev Hsub Hd) as Hsub'.
  destruct (Z.eqb_spec (Z.ldiff (m_epoll_event_flags s) ev) 0) as [E0|E0].
  - split; [split; [|split]|].
    + destruct G1 as [I1 M1]. split; [|done]. apply inv_erase_ready; [done|by rewrite Ee1].
    + by eexists.
    + intros Hm0. by destruct (sub_nonzero _ _ Hsub' Hm0).
    + intros fd' Hne. simpl. rewrite list_elem_of_filter, Ee1, E1, lookup_insert_ne by done. naive_solver.
  - split; [split; [done|split]|].
    + by eexists.
    + intros _. rewrite Ee1. split; [done|]. by eexists.
    + intros fd' Hne. by rewrite Ee1, E1, lookup_insert_ne.
Qed.

Lemma handle_pending fd rdy ev m out w : pending fd ev w -> ev <> 0 -> Z.land m ev = 0 ->
  (forall s, socks w !! fd = Some s -> sub m (m_epoll_event_flags s)) ->
  returns (fun x => pending fd m x.2 /\ same_others fd w x.2 /\ x.1.1 = rdy /\
    (fst x.1.2 = Z.lor (fst out) ev \/ rdy = false /\ x.1.2 = out)) (handle_epoll_event rdy ev fd out w).
Proof.
  intros Hp Hev Hd Hsub. unfold handle_epoll_event. destruct rdy.
  - pose proof Hp as (G & (s & Hm & Hs) & Hr). eapply returns_must; [exact Hm|].
    match goal with |- returns _ (on_sock fd (set_fd_rec ?r) w ≫= _) => set (r' := r) end.
    assert (similar s (set_fd_rec r' s)) as Hsim by (unfold r'; destruct (negb _); done). simpl.
    eapply returns_bind; [by apply (on_sock_good fd _ w s)|]. intros w1 (G1 & E1 & Ee1).
    assert (socks w1 !! fd = Some (set_fd_rec r' s)) as Hm1 by by rewrite E1, lookup_insert_eq.
    assert (forall x, sub x (m_epoll_event_flags s) -> pending fd x w1) as Hp1.
    { intros x Hx. split; [done|]. split; [by eexists|]. intros _. rewrite Ee1. split; [by apply Hr|]. by eexists. }
    assert (sub ev (m_epoll_event_flags s)) as Hse by (destruct (Hr Hev) as (_ & s0 & ? & ?); by simplify_eq).
    assert (same_others fd w w1) as Hsr by (intros fd' Hne; by rewrite Ee1, E1, lookup_insert_ne).
    match goal with |- returns _ ((if ?c then _ else _) ≫= _) => destruct c end; simpl.
    + eapply returns_bind; [apply (remove_event_pending fd ev m w1 (Hp1 _ Hse) Hev Hd)|].
      * intros s1 Hs1. rewrite Hm1 in Hs1. injection Hs1 as <-. by apply (Hsub s).
      * intros w2 [P2 S2]. apply returns_Ok. simpl. split_and!; [done| |done|by left].
        by eapply same_others_trans.
    + apply returns_Ok. simpl. split_and!; [by apply Hp1, (Hsub s)|done|done|by left].
  - eapply returns_bind; [by apply (remove_event_pending fd ev m w)|]. intros w2 [P2 S2]. apply returns_Ok. simpl.
    split_and!; [done..|]. by right.
Qed.

Lemma sub_trans a b c : sub a b -> sub b c -> sub a c.
Proof. rewrite !sub_bits. auto. Qed.

Lemma pending_weaken fd m m' w : pending fd m w -> sub m' m -> pending fd m' w.
Proof.
  intros (G & Hm & Hp) Hs. split_and!; [done..|]. intros Hm'. destruct (Hp (sub_nonzero _ _ Hs Hm')) as (Hr & s & Hx & Hf).
  split; [done|]. exists s. split; [done|]. by eapply sub_trans.
Qed.

Lemma sub_refl a : sub a a.
Proof. apply Z.land_diag. Qed.

Lemma report_pending fd rdy x m b got out w : pending fd m w -> sub m b -> sub (fst out) b -> (got = true -> fst out <> 0) ->
  returns (fun y => pending fd (Z.ldiff m x) y.2 /\ same_others fd w y.2 /\ sub (fst y.1.2) b /\ (y.1.1 = true -> fst y.1.2 <> 0))
    (report rdy (Z.land m x) fd (got, out, w)).
Proof.
  intros Hp Hb Ho Hg. unfold report. destruct (Z.eqb_spec (Z.land m x) 0) as [E0|E0].
  - apply returns_Ok. split_and!; [|done..]. eapply pending_weaken; [done|]. apply sub_ldiff_l, sub_refl.
  - assert (m <> 0) as Hm0 by (intros ->; by rewrite Z.land_0_l in E0).
    eapply returns_bind; [apply (handle_pending fd rdy (Z.land m x) (Z.ldiff m x) out w)|].
    + eapply pending_weaken; [done|]. apply sub_land_l, sub_refl.
    + done.
    + apply ldiff_land_disjoint.
    + intros s Hs. destruct Hp as (_ & _ & Hp). destruct (Hp Hm0) as (_ & s' & Hs' & Hf). simplify_eq. by apply sub_ldiff_l.
    + intros [[g out'] w'] (P' & S' & Hr & Hout). apply returns_Ok. simpl in *. split_and!; [done..| |].
      * destruct Hout as [->|[_ ->]]; [|done]. apply sub_lor; [done|by apply sub_land_l].
      * destruct Hout as [->|[-> ->]]; [intros _ [? ?]%Z.lor_eq_0_iff; done|]. rewrite Hr. intros [?|?]%orb_true_iff; [auto|done].
Qed.

Definition requested (s : socket_fd_api) : Z := Z.land (m_epoll_event_flags s) (Z.lor (events (m_fd_rec s)) (Z.lor EPOLLERR EPOLLHUP)).

Lemma report_socket_good rd wr fd w s : good w -> fd ∈ items (m_ready_fds (ep w)) -> socks w !! fd = Some s ->
  returns (fun y => good y.2 /\ same_others fd w y.2 /\ sub (fst y.1.2) (requested s) /\ (y.1.1 = true -> fst y.1.2 <> 0))
    (report_socket rd wr fd w).
Proof.
  intros G Hr Hm. unfold report_socket. eapply returns_must; [exact Hm|].
  assert (sub (mutual_events s) (requested s)) as Hs.
  { unfold mutual_events. fold (requested s). destruct (_ && _); [apply sub_ldiff_l|]; apply sub_refl. }
  assert (pending fd (mutual_events s) w) as Hp.
  { split_and!; [done| |].
    - destruct G as [I _]. destruct (inv_ready _ _ I) as [_ Hx]. by apply Hx.
    - intros _. split; [done|]. exists s. split; [done|]. eapply sub_trans; [exact Hs|]. apply sub_land_l, sub_refl. }
  eapply returns_bind; [apply (report_pending fd (rd fd) EPOLLIN _ (requested s) false (0, 0) w Hp Hs); [apply Z.land_0_l|done]|].
  intros [[g1 o1] w1] (P1 & S1 & O1 & G1). simpl in *.
  eapply returns_bind; [apply (report_pending fd (wr fd) EPOLLOUT _ (requested s) g1 o1 w1 P1); [by apply sub_ldiff_l|done|done]|].
  intros [[g2 o2] w2] (P2 & S2 & O2 & G2). simpl in *.
  rewrite <- (Z.land_m1_r (Z.ldiff (Z.ldiff _ _) _)).
  eapply returns_mono, (report_pending fd true (-1) _ (requested s) g2 o2 w2 P2); [|by do 2 apply sub_ldiff_l|done|done].
  intros [[g3 o3] w3] ((G3 & _) & S3 & O3 & H3). split_and!; [done| |done|done].
  by eapply same_others_trans, same_others_trans.
Qed.

Lemma events_loop_good rd wr w0 fds room w : NoDup fds -> good w ->
  Forall (fun fd => fd ∈ items (m_ready_fds (ep w)) /\ socks w !! fd = socks w0 !! fd) fds ->
  returns (fun y => good y.2 /\ (length y.1 <= room)%nat /\ NoDup (y.1.*1.*1) /\
    Forall (fun '(fd, ev, _) => fd ∈ fds /\ ev <> 0 /\ exists s, socks w0 !! fd = Some s /\ sub ev (requested s)) y.1)
    (events_loop rd wr fds room w).
Proof.
  intros Hn. revert room w. induction Hn as [|fd fds Hfd Hn IH]; intros room w G Ha.
  { destruct room; apply returns_Ok; simpl; (split_and!; [done|lia|constructor|done]). }
  destruct room as [|room]; [apply returns_Ok; simpl; split_and!; [done|lia|constructor|done]|].
  apply Forall_cons in Ha as [[Hr Hw] Ha]. destruct (inv_ready _ _ (proj1 G)) as [_ Hx]. destruct (Hx _ Hr) as (s & Hm & _).
  cbn [events_loop]. eapply returns_bind; [by apply (report_socket_good rd wr fd w s)|].
  intros [[got out] w1] (G1 & S1 & O1 & N1). simpl in *.
  eapply returns_bind; [apply (IH (if got then room else S room) w1 G1)|].
  { rewrite Forall_forall in Ha |- *. intros fd' Hin. assert (fd' <> fd) as Hne by congruence.
    destruct (S1 fd' Hne) as [-> ->]. auto. }
  intros [l w2] (G2 & Hl & Hnd & Hall). simpl in *. apply returns_Ok. simpl. split; [done|].
  assert (Forall (fun '(fd', ev, _) => fd' ∈ fd :: fds /\ ev <> 0 /\ exists s, socks w0 !! fd' = Some s /\ sub ev (requested s)) l) as Hall'.
  { eapply Forall_impl; [exact Hall|]. intros [[? ?] ?] (? & ? & ?). split_and!; [by apply elem_of_cons; right|done..]. }
  destruct got; [|by split_and!]. split_and!; [simpl; lia| |].
  - simpl. constructor; [|done]. intros Hin. apply list_elem_of_fmap in Hin as ([fd' ev] & -> & Hin).
    apply list_elem_of_fmap in Hin as ([[fd1 ev1] d1] & [= -> ->] & Hin). rewrite Forall_forall in Hall.
    by destruct (Hall _ Hin) as [? _].
  - constructor; [|done]. split_and!; [by apply elem_of_cons; left|by apply N1|]. exists s. by rewrite <- Hw.
Qed.

(** *** All operations *)

Lemma get_current_events_good rd wr n maxevents w : good w ->
  returns (fun y => good y.2 /\ (length y.1 <= Z.to_nat (maxevents - n))%nat /\ NoDup (y.1.*1.*1) /\
    Forall (fun '(fd, ev, _) => fd ∈ items (m_ready_fds (ep w)) /\ ev <> 0 /\ exists s, socks w !! fd = Some s /\ sub ev (requested s)) y.1)
    (get_current_events rd wr n maxevents w).
Proof.
  intros G. unfold get_current_events. case_match.
  - apply returns_Ok. simpl. split_and!; [done|lia|constructor|done].
  - destruct (inv_ready _ _ (proj1 G)) as [[Hn _] _]. apply (events_loop_good rd wr w); [done..|]. by apply Forall_forall.
Qed.

Lemma new_epfd_good m size max_fds garbage o : 0 <= max_fds -> map_Forall (fun _ s => m_econtext s <> Some m_epfd) m ->
  good (World m (new_epfd_info size max_fds garbage) o).
Proof.
  intros Hmax Hm. assert (forall fd s, m !! fd = Some s -> ~ member s) as Hn by (intros fd s Hs; exact (Hm _ _ Hs)).
  split; [split|]; simpl; unfold list_ok; simpl.
  - rewrite length_fmap, length_seqZ. destruct (Z.leb_spec size max_fds); lia.
  - intros fd s Hs Hmem. by destruct (Hn fd s).
  - lia.
  - split; [split; [constructor|done]|]. intros fd. split; [by intros ?%not_elem_of_nil|]. intros (s & Hs & Hmem). by destruct (Hn fd s).
  - split; [split; [constructor|done]|]. by intros fd ?%not_elem_of_nil.
  - intros r. assert (users r m = O) as ->; [|done]. apply map_size_empty_iff, map_eq. intros fd. rewrite lookup_empty. apply map_lookup_filter_None. right. intros s Hs [Hmem _]. by destruct (Hn fd s).
  - intros fd s Hs Hmem. by destruct (Hn fd s).
  - intros fd s [? Hx]. simpl in Hx. by rewrite lookup_empty in Hx.
Qed.

Lemma new_sock_good fd b skip w : good w -> socks w !! fd = None -> m_fd_non_offloaded_map (ep w) !! fd = None ->
  good (set_socks (<[fd := Sock b skip None rec_reset 0 ∅]> (socks w)) w).
Proof.
  intros [I M] Hm Hmap. set (s := Sock b skip None rec_reset 0 ∅). assert (~ member s) as Hs by done.
  assert (forall fd' t, <[fd := s]> (socks w) !! fd' = Some t -> member t -> socks w !! fd' = Some t) as Hl.
  { intros fd' t [[<- <-]|[_ Ht]]%lookup_insert_Some Hmt; done. }
  assert (forall fd' t, socks w !! fd' = Some t -> <[fd := s]> (socks w) !! fd' = Some t) as Hl'.
  { intros fd' t Ht. rewrite lookup_insert_ne by congruence. done. }
  split; [split|]; simpl; try apply I.
  - intros fd' t Ht Hmt. apply (inv_index _ _ I); auto.
  - intros j Hj. destruct (inv_array _ _ I j Hj) as (fd' & t & ? & Ht & ? & ?). exists fd', t. auto.
  - destruct (inv_list _ _ I) as [Hok Hx]. split; [done|]. intros fd'. rewrite Hx. split; intros (t & ? & ?); eauto.
  - destruct (inv_ready _ _ I) as [Hok Hx]. split; [done|]. intros fd' (t & ? & ?)%Hx. eauto.
  - intros r. rewrite users_new by done. unfold uses. rewrite (decide_False (P := member s /\ _)) by naive_solver. apply I.
  - intros fd' t Ht Hmt. apply (inv_type _ _ I fd'); auto.
  - intros fd' t Hd [[<- <-]|[_ Ht]]%lookup_insert_Some; [rewrite Hmap in Hd; by destruct Hd|]. eauto.
Qed.

Lemma exec_undef o w : good w -> deletes_other o w -> exec o w = Undef.
Proof.
  intros [I M] Hd. assert (forall fd, in_context (socks w !! fd) = false -> ~ is_member fd w) as Hn.
  { intros fd E Hm. apply in_context_spec in Hm. congruence. }
  destruct o as [rd wr [[]|] fd ev|fd pt| | | | |]; try done; destruct Hd as [Hc Hx]; simpl.
  - unfold ctl. destruct (default (0, 0) ev). by rewrite (del_fd_map fd false w (Hn _ Hc) Hx I).
  - unfold handle_close, fd_closed. pose proof (get_fd_rec_cases fd w) as Hg. destruct (get_fd_rec fd w) as [p|].
    + by rewrite (del_fd_map fd pt w (Hn _ Hc) Hx I).
    + destruct Hg as [_ Hg]. rewrite Hg in Hx. by destruct Hx.
Qed.

Lemma exec_good o w : good w -> ~ deletes_other o w -> returns good (exec o w).
Proof.
  intros G Hd. assert (forall fd, ~ (in_context (socks w !! fd) = false /\ is_Some (m_fd_non_offloaded_map (ep w) !! fd)) ->
    is_member fd w \/ m_fd_non_offloaded_map (ep w) !! fd = None /\ ~ is_member fd w) as Hn.
  { intros fd Hn. destruct (in_context (socks w !! fd)) eqn:E; [left; by apply in_context_spec|]. right.
    split; [destruct (m_fd_non_offloaded_map (ep w) !! fd); [naive_solver|done]|]. intros Hm. apply in_context_spec in Hm. congruence. }
  destruct o as [rd wr op fd ev|fd pt|fd b skip|fd r|fd r|fd ev|rd wr n mx]; simpl in *.
  - eapply returns_bind with (P := fun x => good x.2); [|intros x Hx; by apply returns_Ok]. unfold ctl.
    destruct (default (0, 0) ev) as [e d]. destruct op as [[]|].
    + by apply add_fd_good.
    + destruct (Hn fd Hd) as [Hm|[Hx Hm]].
      * eapply returns_mono, del_fd_member; [|done..]. intros x (_ & I & _ & M). done.
      * destruct (del_fd_absent fd false w Hm Hx) as (w' & -> & Es & Ee). apply returns_Ok. by eapply good_same.
    + by apply mod_fd_good.
    + by apply returns_Ok.
  - apply fd_closed_good; [done|]. destruct (Hn fd Hd) as [|[? _]]; auto.
  - case_decide as Hx; apply returns_Ok; [|done]. destruct Hx. by apply new_sock_good.
  - unfold if_sock. destruct (socks w !! fd) eqn:E; [|by apply returns_Ok]. apply add_ring_good; [done|by rewrite E].
  - unfold if_sock. destruct (socks w !! fd) eqn:E; [|by apply returns_Ok]. apply del_ring_good; [done|by rewrite E].
  - unfold if_sock. destruct (socks w !! fd) eqn:E; [|by apply returns_Ok]. apply notify_good; [done|by rewrite E].
  - eapply returns_bind; [by apply get_current_events_good|]. intros y (G' & _). by apply returns_Ok.
Qed.

Lemma reach_good w : reach w -> good w.
Proof.
  induction 1 as [m size mx g o Hmx Hm|o w w' _ IH E]; [by apply new_epfd_good|].
  destruct (decide (deletes_other o w)) as [Hd|Hd]; [by rewrite (exec_undef o w IH Hd) in E|].
  destruct (exec_good o w IH Hd) as (w1 & E1 & G). rewrite E in E1. by injection E1 as ->.
Qed.

(** C14: in every history of calls the entries of the array up to its count
    are exactly the sockets that belong to the epoll descriptor, each at the
    index its record says; the list of offloaded sockets has the same
    members; the ready list has members only, each once; the sizes of both
    lists are right; and a ring is counted with the number of members that
    receive from it, or is absent when there is none. *)
Theorem epfd_invariant w : reach w -> inv (socks w) (ep w).
Proof. intros Hr. apply (reach_good w Hr). Qed.

(** after any history of calls every call returns, except the removal of
    a descriptor that is not offloaded, which reads the record after it was
    erased. *)
Theorem epfd_calls w o : reach w ->
  if decide (deletes_other o w) then exec o w = Undef else exists w', exec o w = Ok w'.
Proof.
  intros Hr%reach_good. case_decide as Hd; [by apply exec_undef|]. destruct (exec_good o w Hr Hd) as (w' & E & _). eauto.
Qed.

(** C34: after any history of calls the collection of events returns at most
    the room there is, at most one entry per socket, and only events that
    the socket has pending and that were asked for or are errors. *)
Theorem epfd_wait w rd wr n maxevents : reach w -> exists l w',
  get_current_events rd wr n maxevents w = Ok (l, w') /\ Z.of_nat (length l) <= Z.max 0 (maxevents - n) /\ NoDup (l.*1.*1) /\
  Forall (fun '(fd, ev, _) => ev <> 0 /\ exists s, socks w !! fd = Some s /\ m_econtext s = Some m_epfd /\
    Z.land ev (Z.land (m_epoll_event_flags s) (Z.lor (events (m_fd_rec s)) (Z.lor EPOLLERR EPOLLHUP))) = ev) l.
Proof.
  intros G%reach_good. destruct (get_current_events_good rd wr n maxevents w G) as ([l w'] & E & _ & Hl & Hn & Ha).
  exists l, w'. split_and!; [done|simpl in *; lia|done|]. eapply Forall_impl; [exact Ha|].
  intros [[fd ev] d] (Hin & Hev & s & Hs & Hsub). split; [done|]. exists s. split_and!; [done| |done].
  destruct (inv_ready _ _ (proj1 G)) as [_ Hx]. destruct (Hx _ Hin) as (s' & Hs' & Hm). by simplify_eq.
Qed.

End Operations.

Fixpoint exec_all (os : list ep_op) (w : world) : res world :=
  match os with [] => Ok w | o :: os => w ← exec o w; exec_all os w end.

Lemma exec_all_reach os w w' : reach w -> exec_all os w = Ok w' -> reach w'.
Proof.
  revert w. induction os as [|o os IH]; intros w Hr E; simpl in E; [by injection E as <-|].
  apply bind_Ok in E as (w1 & E1 & E). eapply IH; [|exact E]. by eapply reach_exec.
Qed.

End Epoll.

(** ** Examples and witnesses *)

Module EpollExample.

(** The system remembers its calls; every call succeeds. *)
Definition os_ctl (op : ctl_op) (fd : Z) (log : list Z) : bool * list Z := (true, fd :: log).
Definition rings (r : ring) : list Z := [100 + Zpos r].

Definition start : world (OS := list Z) := World ∅ (new_epfd_info 1 4 (fun i => i)) [].

(** Two sockets on one ring, a descriptor that is not offloaded, an event. *)
Definition calls : list ep_op :=
  [NewSock 10 true false; NewSock 11 true false; AddRing 10 1; AddRing 11 1;
   Ctl false false (Some EPOLL_CTL_ADD) 10 (Some (EPOLLIN, 7)); Ctl false true (Some EPOLL_CTL_ADD) 11 (Some (EPOLLIN + EPOLLOUT, 8));
   Ctl false false (Some EPOLL_CTL_ADD) 12 (Some (EPOLLIN, 9)); Notify 10 EPOLLIN].

Definition after (os : list ep_op) : world (OS := list Z) :=
  match exec_all 3 os_ctl rings os start with Ok w => w | _ => start end.

Lemma start_reach : reach 3 os_ctl rings start.
Proof. apply reach_new; [lia|apply map_Forall_empty]. Qed.

Lemma example_results :
  m_ring_map (ep (after calls)) !! 1%positive = Some 2 /\ items (m_ready_fds (ep (after calls))) = [11; 10] /\
  take 2 (m_p_offloaded_fds (ep (after calls))) = [10; 11] /\
  (let w := after (calls ++ [Ctl false false (Some EPOLL_CTL_DEL) 10 None]) in
   (m_n_offloaded_fds (ep w), take 1 (m_p_offloaded_fds (ep w)), m_ring_map (ep w) !! 1%positive, items (m_ready_fds (ep w)))
     = (1, [11], Some 1, [11])) /\
  exec 3 os_ctl rings (Ctl false false (Some EPOLL_CTL_DEL) 12 None) (after calls) = Undef.
Proof. vm_compute. done. Qed.

Lemma epfd_invariant_witness : inv 3 (socks (after calls)) (ep (after calls)).
Proof.
  apply (epfd_invariant 3 os_ctl rings); [discriminate|]. apply (exec_all_reach 3 os_ctl rings calls start _ start_reach).
  vm_compute. reflexivity.
Defined.

Lemma epfd_calls_witness :
  exec 3 os_ctl rings (Close 12 false) (after calls) = Undef /\
  exists w', exec 3 os_ctl rings (Close 11 true) (after calls) = Ok w'.
Proof.
  assert (reach 3 os_ctl rings (after calls)) as Hr.
  { apply (exec_all_reach 3 os_ctl rings calls start _ start_reach). vm_compute. reflexivity. }
  split.
  - pose proof (epfd_calls 3 os_ctl rings ltac:(discriminate) (after calls) (Close 12 false) Hr) as H.
    rewrite decide_True in H; [exact H|]. vm_compute. split; [reflexivity|eexists; reflexivity].
  - pose proof (epfd_calls 3 os_ctl rings ltac:(discriminate) (after calls) (Close 11 true) Hr) as H.
    rewrite decide_False in H; [exact H|]. intros [H1 _]. vm_compute in H1. discriminate.
Defined.

Lemma epfd_wait_witness : exists l w',
  get_current_events (fun _ => true) (fun _ => true) 0 1 (after calls) = Ok (l, w') /\ Z.of_nat (length l) <= 1.
Proof.
  destruct (epfd_wait 3 os_ctl rings ltac:(discriminate) (after calls) (fun _ => true) (fun _ => true) 0 1) as (l & w' & E & Hl & _).
  - apply (exec_all_reach 3 os_ctl rings calls start _ start_reach). vm_compute. reflexivity.
  - exists l, w'. split; [exact E|]. simpl in Hl. lia.
Defined.

End EpollExample.
