(* ===== verification/Neighbour.v ===== *)
(** * Neighbours (src/vma/proto/neighbour.cpp): resolution of a unicast
      Ethernet neighbour

    A neighbour resolves the link address of a peer.  It is a client of the
    generic machine of [StateMachine]: its table of transitions, its entry
    functions and the events they post are given to that machine unchanged,
    and packets that are sent meanwhile wait in a queue.  What comes from
    outside (the netlink cache, the connection manager, the ring) is an
    oracle [env] that is asked in the order of the calls, so that every
    answer is possible at every call.

    A read through a NULL pointer inside a callback of the machine sets
    [null_read]; the call from outside in which it happens is [Undef]. *)

From S2P Require Import Prelude StateMachine CacheTable.

(** ** States and events *)

Definition ST_NOT_ACTIVE : Z := 0.
Definition ST_INIT : Z := 1.
Definition ST_INIT_RESOLUTION : Z := 2.
Definition ST_ADDR_RESOLVED : Z := 3.
Definition ST_READY : Z := 6.
Definition ST_ERROR : Z := 7.
Definition ST_LAST : Z := 8.

Definition EV_KICK_START : Z := 0.
Definition EV_START_RESOLUTION : Z := 1.
Definition EV_ARP_RESOLVED : Z := 2.
Definition EV_ADDR_RESOLVED : Z := 3.
Definition EV_PATH_RESOLVED : Z := 4.
Definition EV_ERROR : Z := 5.
Definition EV_UNHANDLED : Z := 7.
Definition EV_LAST : Z := 8.

(** The kernel's states of a neighbour. *)
Definition NUD_INCOMPLETE : Z := 1.
Definition NUD_REACHABLE : Z := 2.
Definition NUD_STALE : Z := 4.
Definition NUD_FAILED : Z := 32.
Definition NUD_PERMANENT : Z := 128.

Definition priv_is_reachable (state : Z) : bool := negb (Z.land state (Z.lor NUD_REACHABLE NUD_PERMANENT) =? 0).
Definition priv_is_failed (state : Z) : bool := negb (Z.land state (Z.lor NUD_FAILED NUD_INCOMPLETE) =? 0).

(** The callbacks of the machine. *)
Definition GENERAL_ST_ENTRY : positive := 1.
Definition DOFUNC_ENTER_INIT : positive := 2.
Definition DOFUNC_ENTER_INIT_RESOLUTION : positive := 3.
Definition DOFUNC_ENTER_ERROR : positive := 4.
Definition DOFUNC_ENTER_NOT_ACTIVE : positive := 5.
Definition DOFUNC_ENTER_ADDR_RESOLVED : positive := 6.
Definition DOFUNC_ENTER_READY : positive := 7.
Definition PRINT_EVENT_INFO : positive := 8.

(** The short table of [neigh_eth]. *)
Definition short_sm_table : list sm_short_table_line_t := [
  SmLine ST_NOT_ACTIVE EV_KICK_START ST_INIT None;
  SmLine ST_ERROR EV_KICK_START ST_INIT None;
  SmLine ST_INIT EV_ARP_RESOLVED ST_READY None;
  SmLine ST_INIT EV_START_RESOLUTION ST_INIT_RESOLUTION None;
  SmLine ST_INIT_RESOLUTION EV_ADDR_RESOLVED ST_ADDR_RESOLVED None;
  SmLine ST_INIT_RESOLUTION EV_ARP_RESOLVED ST_READY None;
  SmLine ST_ADDR_RESOLVED EV_ARP_RESOLVED ST_READY None;
  SmLine ST_READY EV_ERROR ST_ERROR None;
  SmLine ST_INIT EV_ERROR ST_ERROR None;
  SmLine ST_INIT_RESOLUTION EV_ERROR ST_ERROR None;
  SmLine ST_ERROR EV_ERROR ST_NOT_ACTIVE None;
  SmLine ST_INIT SM_STATE_ENTRY SM_NO_ST (Some DOFUNC_ENTER_INIT);
  SmLine ST_INIT_RESOLUTION SM_STATE_ENTRY SM_NO_ST (Some DOFUNC_ENTER_INIT_RESOLUTION);
  SmLine ST_ERROR SM_STATE_ENTRY SM_NO_ST (Some DOFUNC_ENTER_ERROR);
  SmLine ST_NOT_ACTIVE SM_STATE_ENTRY SM_NO_ST (Some DOFUNC_ENTER_NOT_ACTIVE);
  SmLine ST_ADDR_RESOLVED SM_STATE_ENTRY SM_NO_ST (Some DOFUNC_ENTER_ADDR_RESOLVED);
  SmLine ST_READY SM_STATE_ENTRY SM_NO_ST (Some DOFUNC_ENTER_READY);
  SmLine SM_NO_ST SM_NO_ST SM_NO_ST None ].

Definition new_neigh_machine : res state_machine :=
  new_state_machine 1 ST_NOT_ACTIVE ST_LAST EV_LAST short_sm_table (Some GENERAL_ST_ENTRY) None None (Some PRINT_EVENT_INFO).

(** ** Data *)

(** What the outside answers to one question. *)
Record answer := Answer {
  a_neigh : option (Z * Z);   (* the netlink cache: state and link address *)
  a_create : bool;            (* rdma_create_id succeeds *)
  a_resolve : bool;           (* rdma_resolve_addr succeeds *)
  a_arp : bool;               (* an ARP request can be posted *)
  a_send : bool               (* a packet can be prepared and posted *)
}.

(** What became of a packet that left the queue. *)
Inductive fate := Posted | Failed | Flushed.

(** [m_val] is [None] for NULL, and then its link address likewise; the
    counter of errors stays below the number of retries, so it cannot wrap.  Packets
    are numbers; [departed] lists those that left the queue, oldest first. *)
Record neigh_entry := Neigh {
  m_cma_id : bool;
  m_state : bool;
  m_unsent_queue : list Z;
  m_err_counter : Z;
  m_timer_handle : bool;
  m_arp_counter : Z;
  m_is_first_send_arp : bool;
  m_val : option (option Z);
  departed : list (Z * fate);
  notified : nat;
  null_read : bool;
  tick : nat
}.

Definition set_cma b n :=
  Neigh b (m_state n) (m_unsent_queue n) (m_err_counter n) (m_timer_handle n) (m_arp_counter n)
    (m_is_first_send_arp n) (m_val n) (departed n) (notified n) (null_read n) (tick n).
Definition set_mstate b n :=
  Neigh (m_cma_id n) b (m_unsent_queue n) (m_err_counter n) (m_timer_handle n) (m_arp_counter n)
    (m_is_first_send_arp n) (m_val n) (departed n) (notified n) (null_read n) (tick n).
Definition set_unsent q n :=
  Neigh (m_cma_id n) (m_state n) q (m_err_counter n) (m_timer_handle n) (m_arp_counter n)
    (m_is_first_send_arp n) (m_val n) (departed n) (notified n) (null_read n) (tick n).
Definition set_err c n :=
  Neigh (m_cma_id n) (m_state n) (m_unsent_queue n) c (m_timer_handle n) (m_arp_counter n)
    (m_is_first_send_arp n) (m_val n) (departed n) (notified n) (null_read n) (tick n).
Definition set_timer b n :=
  Neigh (m_cma_id n) (m_state n) (m_unsent_queue n) (m_err_counter n) b (m_arp_counter n)
    (m_is_first_send_arp n) (m_val n) (departed n) (notified n) (null_read n) (tick n).
Definition set_arp c f n :=
  Neigh (m_cma_id n) (m_state n) (m_unsent_queue n) (m_err_counter n) (m_timer_handle n) c
    f (m_val n) (departed n) (notified n) (null_read n) (tick n).
Definition set_mval v n :=
  Neigh (m_cma_id n) (m_state n) (m_unsent_queue n) (m_err_counter n) (m_timer_handle n) (m_arp_counter n)
    (m_is_first_send_arp n) v (departed n) (notified n) (null_read n) (tick n).
Definition add_departed l n :=
  Neigh (m_cma_id n) (m_state n) (m_unsent_queue n) (m_err_counter n) (m_timer_handle n) (m_arp_counter n)
    (m_is_first_send_arp n) (m_val n) (departed n ++ l) (notified n) (null_read n) (tick n).
Definition notify n :=
  Neigh (m_cma_id n) (m_state n) (m_unsent_queue n) (m_err_counter n) (m_timer_handle n) (m_arp_counter n)
    (m_is_first_send_arp n) (m_val n) (departed n) (S (notified n)) (null_read n) (tick n).
Definition read_null n :=
  Neigh (m_cma_id n) (m_state n) (m_unsent_queue n) (m_err_counter n) (m_timer_handle n) (m_arp_counter n)
    (m_is_first_send_arp n) (m_val n) (departed n) (notified n) true (tick n).
Definition next_tick n :=
  Neigh (m_cma_id n) (m_state n) (m_unsent_queue n) (m_err_counter n) (m_timer_handle n) (m_arp_counter n)
    (m_is_first_send_arp n) (m_val n) (departed n) (notified n) (null_read n) (S (tick n)).

Definition new_neigh_entry : neigh_entry := Neigh false false [] 0 false 0 true None [] 0 false 0.

Section Neigh.
Context (m_n_sysvar_neigh_uc_arp_quata m_n_sysvar_neigh_num_err_retries : Z) (m_is_loopback is_cleaned : bool) (dev_l2_address : Z)
  (env : nat -> answer).

Definition ask (n : neigh_entry) : answer * neigh_entry := (env (tick n), next_tick n).

(** ** Helpers *)

Definition priv_get_neigh_state (n : neigh_entry) : option Z * neigh_entry :=
  if m_is_loopback then (Some NUD_REACHABLE, n)
  else let '(a, n) := ask n in (fst <$> a_neigh a, n).

Definition priv_get_neigh_l2 (n : neigh_entry) : option Z * neigh_entry :=
  if m_is_loopback then (Some dev_l2_address, n)
  else
    let '(a, n) := ask n in
    (match a_neigh a with Some (state, lladdr) => if priv_is_failed state then None else Some lladdr | None => None end, n).

Definition priv_destroy_cma_id (n : neigh_entry) : neigh_entry := set_cma false n.
Definition priv_register_timer_event (n : neigh_entry) : neigh_entry := set_timer (negb is_cleaned) n.
Definition priv_unregister_timer (n : neigh_entry) : neigh_entry := set_timer false n.

(** [m_val->get_l2_address()->get_address()] of a unicast request is read
    before the test for NULL. *)
Definition post_send_arp (is_broadcast : bool) (n : neigh_entry) : bool * neigh_entry :=
  let n := if negb is_broadcast && negb (bool_decide (is_Some (mjoin (m_val n)))) then read_null n else n in
  let '(a, n) := ask n in (a_arp a, n).

Definition send_arp (n : neigh_entry) : neigh_entry :=
  let is_broadcast := (m_n_sysvar_neigh_uc_arp_quata <=? m_arp_counter n) || m_is_first_send_arp n || bool_decide (m_val n = None) in
  let '(ok, n) := post_send_arp is_broadcast n in
  if ok : bool then set_arp (u32 (m_arp_counter n + 1)) false n else n.

(** A packet needs the link address of the peer to be prepared. *)
Fixpoint empty_queue (q : list Z) (n : neigh_entry) : neigh_entry :=
  match q with
  | [] => n
  | p :: q =>
    let n := if bool_decide (m_val n = None) then read_null n else n in
    let '(a, n) := ask n in
    let sent := bool_decide (is_Some (mjoin (m_val n))) && a_send a in
    empty_queue q (add_departed [(p, if sent : bool then Posted else Failed)] n)
  end.

Definition empty_unsent_queue (n : neigh_entry) : neigh_entry :=
  empty_queue (m_unsent_queue n) (set_unsent [] n).

Definition build_uc_neigh_val (n : neigh_entry) : bool * neigh_entry :=
  let n := match m_val n with None => set_mval (Some None) n | Some _ => n end in
  let '(l2, n) := priv_get_neigh_l2 n in
  match l2 with
  | None => (false, n)
  | Some a => (true, set_mval (Some (Some a)) n)
  end.

Definition zero_all_members (v : option (option Z)) : option (option Z) :=
  match v with Some _ => Some None | None => None end.

(** ** The entry functions, with the events they post *)

Abbreviation ev := (fun e : Z => SmFifoEntry e 0).

Definition enter_init (n : neigh_entry) : neigh_entry * list sm_fifo_entry_t :=
  let '(st, n) := priv_get_neigh_state n in
  match st with
  | Some state =>
    if negb (priv_is_failed state) then (n, [ev EV_ARP_RESOLVED])
    else (priv_register_timer_event n, [])
  | None => (priv_register_timer_event n, [])
  end.

(** [neigh_entry::priv_enter_init_resolution]: false for -1. *)
Definition start_resolution (n : neigh_entry) : bool * neigh_entry :=
  let n := priv_destroy_cma_id n in
  let '(a, n) := ask n in
  if negb (a_create a) then (false, n)
  else
    let n := set_cma true n in
    let '(a, n) := ask n in
    (a_resolve a, n).

Definition enter_init_resolution (n : neigh_entry) : neigh_entry * list sm_fifo_entry_t :=
  let '(ok, n) := start_resolution n in
  if ok : bool then
    let '(st, n) := priv_get_neigh_state n in
    match st with
    | Some state => if negb (priv_is_failed state) then (n, [ev EV_ARP_RESOLVED]) else (n, [])
    | None => (n, [])
    end
  else (n, [ev EV_ERROR]).

Definition enter_addr_resolved (n : neigh_entry) : neigh_entry * list sm_fifo_entry_t :=
  let '(st, n) := priv_get_neigh_state n in
  if match st with Some state => priv_is_reachable state | None => false end
  then (n, [ev EV_ARP_RESOLVED])
  else (priv_register_timer_event (send_arp n), []).

(** What both ways out of the working states begin with: [m_state] is false,
    the identifier is destroyed, the timer is forgotten, the next ARP request
    is a broadcast and [m_val] is zeroed. *)
Definition invalidate (n : neigh_entry) : neigh_entry :=
  Neigh false false (m_unsent_queue n) (m_err_counter n) false 0 true (zero_all_members (m_val n))
    (departed n) (notified n) (null_read n) (tick n).

Definition priv_enter_not_active (n : neigh_entry) : neigh_entry :=
  set_unsent [] (add_departed ((fun p => (p, Flushed)) <$> m_unsent_queue n) (invalidate n)).

Definition priv_enter_error (n : neigh_entry) : neigh_entry * list sm_fifo_entry_t :=
  let n := notify (invalidate n) in
  if negb (bool_decide (m_unsent_queue n = [])) && (m_err_counter n <? m_n_sysvar_neigh_num_err_retries)
  then (set_err (m_err_counter n + 1) n, [ev EV_KICK_START])
  else (set_err 0 n, [ev EV_ERROR]).

(** A unicast neighbour that is not reachable is asked again. *)
Definition priv_enter_ready (n : neigh_entry) : neigh_entry :=
  let n := empty_unsent_queue (set_mstate true n) in
  if negb m_is_loopback then
    let '(st, n) := priv_get_neigh_state n in
    match st with
    | Some state => if negb (priv_is_reachable state) then priv_register_timer_event (send_arp n) else n
    | None => n
    end
  else n.

Definition enter_ready (n : neigh_entry) : neigh_entry * list sm_fifo_entry_t :=
  let '(ok, n) := build_uc_neigh_val (priv_destroy_cma_id n) in
  if ok : bool then (priv_enter_ready n, []) else (n, [ev EV_ERROR]).

(** The callbacks of the machine; logging does nothing. *)
Definition run_action (p : positive) (i : sm_info_t) (n : neigh_entry) : neigh_entry * list sm_fifo_entry_t :=
  match p with
  | 2%positive => enter_init n
  | 3%positive => enter_init_resolution n
  | 4%positive => priv_enter_error n
  | 5%positive => (priv_enter_not_active n, [])
  | 6%positive => enter_addr_resolved n
  | 7%positive => enter_ready n
  | _ => (n, [])
  end.

Definition run_notify (p : positive) (state event : Z) (app : void_ptr) (n : neigh_entry) : neigh_entry * list sm_fifo_entry_t :=
  (n, []).

(** ** Calls from outside *)

Abbreviation world := (state_machine * neigh_entry)%type.

(** Undefined behaviour inside of a call. *)
Definition defined (w : world) : res world := if null_read (snd w) then Undef else Ok w.

(** One event causes at most three more per retry, and four besides. *)
Definition neigh_fuel : nat := 4 + 3 * Z.to_nat m_n_sysvar_neigh_num_err_retries.

Definition event_handler (event : Z) (w : world) : res world :=
  if event =? EV_UNHANDLED then Ok w
  else x ← process_event run_action run_notify neigh_fuel event 0 w; defined (snd x).

(** Whether the link address is another one than before; it is an error
    then, and also when there was none. *)
Definition priv_handle_neigh_is_l2_changed (new_l2_address : Z) (w : world) : res (bool * world) :=
  match m_val (snd w) with
  | Some (Some l2) =>
    if negb (l2 =? new_l2_address) then (w ← event_handler EV_ERROR w; Ok (true, w)) else Ok (false, w)
  | _ => w ← event_handler EV_ERROR w; Ok (true, w)
  end.

Definition on_neigh (f : neigh_entry -> neigh_entry) (w : world) : world := (fst w, f (snd w)).

Definition ask_again (w : world) : res world := defined (on_neigh (fun n => priv_register_timer_event (send_arp n)) w).

Definition handle_timer_expired (w : world) : res world :=
  let w := on_neigh (set_timer false) w in
  if get_curr_state (fst w) =? ST_INIT then event_handler EV_START_RESOLUTION w
  else
    let '(st, n) := priv_get_neigh_state (snd w) in
    let w := (fst w, n) in
    match st with
    | None => Ok w
    | Some state =>
      stop ← (if negb (priv_is_failed state) then
                let '(l2, n) := priv_get_neigh_l2 (snd w) in
                let w := (fst w, n) in
                match l2 with
                | None => Ok (true, w)
                | Some a => priv_handle_neigh_is_l2_changed a w
                end
              else Ok (false, w));
      let '(stopped, w) := stop : bool * world in
      if stopped then Ok w
      else if negb (priv_is_reachable state) then ask_again w else Ok w
    end.

Definition priv_handle_neigh_reachable_event (w : world) : world :=
  on_neigh (fun n => priv_unregister_timer (set_arp 0 (m_is_first_send_arp n) n)) w.

Definition handle_neigh_event (state lladdr : Z) (w : world) : res world :=
  if (state =? NUD_REACHABLE) || (state =? NUD_PERMANENT) then
    let w := priv_handle_neigh_reachable_event w in
    if negb (get_curr_state (fst w) =? ST_READY) then event_handler EV_ARP_RESOLVED w
    else x ← priv_handle_neigh_is_l2_changed lladdr w; Ok (snd x)
  else if state =? NUD_STALE then
    if negb (get_curr_state (fst w) =? ST_READY) then Ok w
    else
      x ← priv_handle_neigh_is_l2_changed lladdr w;
      let '(changed, w) := x : bool * world in
      if changed then Ok w else ask_again w
  else if state =? NUD_FAILED then event_handler EV_ERROR w
  else Ok w.

(** Events of the connection manager. *)
Inductive rdma_cm_event :=
| ADDR_RESOLVED | MULTICAST_JOIN | ROUTE_RESOLVED | ADDR_ERROR | MULTICAST_ERROR | ROUTE_ERROR | TIMEWAIT_EXIT | OTHER.

(** [same_id]: the event is for the identifier the neighbour holds. *)
Definition rdma_event_mapping (same_id : bool) (e : rdma_cm_event) (n : neigh_entry) : Z :=
  if m_cma_id n && negb same_id then EV_UNHANDLED
  else match e with
       | ADDR_RESOLVED => EV_ADDR_RESOLVED
       | MULTICAST_JOIN | ROUTE_RESOLVED => EV_PATH_RESOLVED
       | ADDR_ERROR | MULTICAST_ERROR | ROUTE_ERROR | TIMEWAIT_EXIT => EV_ERROR
       | OTHER => EV_UNHANDLED
       end.

Definition handle_event_rdma_cm_cb (same_id : bool) (e : rdma_cm_event) (w : world) : res world :=
  event_handler (rdma_event_mapping same_id e (snd w)) w.

(** The link address, if it is known. *)
Definition peer_value (n : neigh_entry) : res (option (option Z)) :=
  if m_state n then v ← must (m_val n); Ok (Some v) else Ok None.

Definition get_peer_info (w : world) : res (option (option Z) * world) :=
  v ← peer_value (snd w);
  match v with
  | Some v => Ok (Some v, w)
  | None =>
    w ← (if get_curr_state (fst w) =? ST_NOT_ACTIVE then event_handler EV_KICK_START w else Ok w);
    v ← peer_value (snd w);
    Ok (v, w)
  end.

Definition neigh_send (p : Z) (w : world) : res world :=
  defined (on_neigh (fun n =>
    let n := set_unsent (m_unsent_queue n ++ [p]) n in
    if m_state n then empty_unsent_queue n else n) w).

(** [subject::register_observer] says whether the observer is a new one. *)
Definition register_observer (fresh : bool) (w : world) : res (bool * world) :=
  if fresh then
    w ← (if negb (m_state (snd w)) && (get_curr_state (fst w) =? ST_NOT_ACTIVE) then event_handler EV_KICK_START w else Ok w);
    Ok (true, w)
  else Ok (false, w).

(** How the table of neighbours sees this one. *)
Definition deletable (w : world) : bool :=
  NeighTable.neigh_is_deletable (NeighTable.neigh_eth NeighTable.UC (Some (get_curr_state (fst w)))).

(** The constructor of a unicast neighbour. *)
Definition new_neigh : res world :=
  s ← new_neigh_machine; event_handler EV_KICK_START (s, new_neigh_entry).

(** A history of calls; each takes the locks of the neighbour. *)
Inductive call :=
| c_send (p : Z)
| c_timer
| c_neigh_event (state lladdr : Z)
| c_rdma_cm (same_id : bool) (e : rdma_cm_event)
| c_get_peer_info
| c_register_observer (fresh : bool).

Definition run_call (c : call) (w : world) : res world :=
  match c with
  | c_send p => neigh_send p w
  | c_timer => handle_timer_expired w
  | c_neigh_event state lladdr => handle_neigh_event state lladdr w
  | c_rdma_cm same_id e => handle_event_rdma_cm_cb same_id e w
  | c_get_peer_info => x ← get_peer_info w; Ok (snd x)
  | c_register_observer fresh => x ← register_observer fresh w; Ok (snd x)
  end.

Fixpoint run_calls (l : list call) (w : world) : res world :=
  match l with
  | [] => Ok w
  | c :: l => w ← run_call c w; run_calls l w
  end.

(** The packets given to [send], in order. *)
Definition sends (l : list call) : list Z := omap (fun c => match c with c_send p => Some p | _ => None end) l.

(** ** The entry functions, by what they do to the queue and to the state *)

(** The packets that were ever queued. *)
Definition history (n : neigh_entry) : list Z := (fst <$> departed n) ++ m_unsent_queue n.

(** The members the invariant is about. *)
Definition core (n : neigh_entry) := (m_state n, m_unsent_queue n, m_err_counter n, m_val n, departed n).

(** The next ARP request goes to an address that was known and zeroed. *)
Definition forgotten (n : neigh_entry) : Prop :=
  m_val n = Some None /\ m_is_first_send_arp n = false /\ m_arp_counter n < m_n_sysvar_neigh_uc_arp_quata.

(** The members that decide on that, and the flag. *)
Definition arp_core (n : neigh_entry) := (m_val n, m_is_first_send_arp n, m_arp_counter n, null_read n).

Lemma forgotten_core n n' : arp_core n' = arp_core n -> forgotten n' -> forgotten n.
Proof. unfold forgotten. by intros [= -> -> -> _]. Qed.

Lemma get_state_arp n st n' : priv_get_neigh_state n = (st, n') -> arp_core n' = arp_core n.
Proof. unfold priv_get_neigh_state, ask. case_match; naive_solver. Qed.

Lemma get_l2_arp n l2 n' : priv_get_neigh_l2 n = (l2, n') -> arp_core n' = arp_core n.
Proof. unfold priv_get_neigh_l2, ask. case_match; naive_solver. Qed.

Lemma send_arp_null n : null_read (send_arp n) = null_read n \/ forgotten n.
Proof.
  unfold send_arp. set (b := _ || _ || _). destruct (b || bool_decide (is_Some (mjoin (m_val n)))) eqn:E.
  - left. unfold post_send_arp. destruct b; cbn in *; [by case_match|]. rewrite E. cbn. by case_match.
  - right. apply orb_false_iff in E as [E Hs%bool_decide_eq_false]. apply orb_false_iff in E as [E Hv%bool_decide_eq_false]. apply orb_false_iff in E as [Hq%Z.leb_gt Hf].
    split; [|by split; [|lia]]. destruct (m_val n) as [[a|]|]; [|done|done]. destruct Hs. by exists a.
Qed.

Lemma empty_queue_arp q n a : m_val n = Some a -> arp_core (empty_queue q n) = arp_core n.
Proof.
  revert n. induction q as [|p q IH]; intros n Hv; simpl; [done|]. rewrite Hv, (bool_decide_false (Some a = None)) by done. by rewrite IH.
Qed.

Lemma empty_unsent_queue_arp n a : m_val n = Some a -> arp_core (empty_unsent_queue n) = arp_core n.
Proof. intros Hv. unfold empty_unsent_queue. by rewrite (empty_queue_arp _ _ a). Qed.

Lemma priv_enter_ready_null n a : m_val n = Some (Some a) -> null_read (priv_enter_ready n) = null_read n.
Proof.
  intros Hv. pose proof (empty_unsent_queue_arp (set_mstate true n) _ Hv) as E. unfold priv_enter_ready.
  set (n1 := empty_unsent_queue _) in *. clearbody n1. injection E as Hv1 Hf1 Ha1 Hn1. cbn in *. destruct m_is_loopback; cbn; [done|].
  destruct (priv_get_neigh_state n1) as [st n2] eqn:E2. apply get_state_arp in E2 as [= Hv2 Hf2 Ha2 Hn2].
  destruct st as [state|]; [|congruence]. destruct (negb (priv_is_reachable state)); [|congruence]. change (null_read (send_arp n2) = null_read n). destruct (send_arp_null n2) as [E3|[E3 _]]; congruence.
Qed.

Lemma enter_ready_null n : null_read (fst (enter_ready n)) = null_read n.
Proof.
  unfold enter_ready, build_uc_neigh_val. set (n0 := match m_val _ with None => _ | Some _ => _ end).
  assert (null_read n0 = null_read n) as E0 by (subst n0; by case_match).
  destruct (priv_get_neigh_l2 n0) as [[a|] n1] eqn:E; apply get_l2_arp in E as [= _ _ _ En]; cbn; [|congruence].
  rewrite (priv_enter_ready_null _ a) by done. cbn. congruence.
Qed.

Lemma enter_addr_resolved_null n : null_read (fst (enter_addr_resolved n)) = null_read n \/ forgotten n.
Proof.
  unfold enter_addr_resolved. destruct (priv_get_neigh_state n) as [st n1] eqn:E. apply get_state_arp in E. pose proof E as [= _ _ _ E'].
  destruct (match st with Some _ => _ | None => _ end); [by left|]. change (null_read (send_arp n1) = null_read n \/ forgotten n). destruct (send_arp_null n1) as [H1|H1]; [left; congruence|right; by eapply forgotten_core].
Qed.

Lemma send_arp_core n : core (send_arp n) = core n.
Proof. unfold send_arp, post_send_arp. simpl. repeat case_match; simplify_eq/=; done. Qed.

Lemma get_state_core n st n' : priv_get_neigh_state n = (st, n') -> core n' = core n.
Proof. unfold priv_get_neigh_state, ask. case_match; naive_solver. Qed.

Lemma get_l2_core n l2 n' : priv_get_neigh_l2 n = (l2, n') -> core n' = core n.
Proof. unfold priv_get_neigh_l2, ask. case_match; naive_solver. Qed.

Lemma enter_init_core n n' q : enter_init n = (n', q) ->
  core n' = core n /\ (q = [] \/ q = [ev EV_ARP_RESOLVED]).
Proof.
  unfold enter_init. destruct (priv_get_neigh_state n) as [st n1] eqn:E. apply get_state_core in E.
  repeat case_match; intros [= <- <-]; (split; [by etrans; [|eassumption]|auto]).
Qed.

Lemma start_resolution_core n ok n' : start_resolution n = (ok, n') -> core n' = core n.
Proof. unfold start_resolution, ask. simpl. repeat case_match; naive_solver. Qed.

Lemma enter_init_resolution_core n n' q : enter_init_resolution n = (n', q) ->
  core n' = core n /\ (q = [] \/ q = [ev EV_ARP_RESOLVED] \/ q = [ev EV_ERROR]).
Proof.
  unfold enter_init_resolution. destruct (start_resolution n) as [ok n1] eqn:E. apply start_resolution_core in E.
  destruct (priv_get_neigh_state n1) as [st n2] eqn:E2. apply get_state_core in E2.
  repeat case_match; intros [= <- <-]; (split; [by etrans; [|eassumption]|auto]).
Qed.

Lemma enter_addr_resolved_core n n' q : enter_addr_resolved n = (n', q) ->
  core n' = core n /\ (q = [] \/ q = [ev EV_ARP_RESOLVED]).
Proof.
  unfold enter_addr_resolved. destruct (priv_get_neigh_state n) as [st n1] eqn:E. apply get_state_core in E.
  case_match; intros [= <- <-]; [auto|]. split; [|by left].
  rewrite <- E. apply (send_arp_core n1).
Qed.

(** The queue is emptied in order, and nothing else changes. *)
Lemma empty_queue_spec q n : exists l, (fst <$> l) = q /\
  core (empty_queue q n) = (m_state n, m_unsent_queue n, m_err_counter n, m_val n, departed n ++ l).
Proof.
  revert n. induction q as [|p q IH]; intros n; simpl.
  - exists []. by rewrite app_nil_r.
  - set (n1 := add_departed _ _). destruct (IH n1) as (l & Hl & ->).
    exists ((p, if bool_decide (is_Some (mjoin (m_val n))) && a_send (env (tick n)) then Posted else Failed) :: l).
    split; [by rewrite fmap_cons, Hl|]. subst n1. destruct (bool_decide (m_val n = None)); simpl; by rewrite <- app_assoc.
Qed.

Lemma empty_unsent_queue_spec n : exists l, (fst <$> l) = m_unsent_queue n /\
  core (empty_unsent_queue n) = (m_state n, [], m_err_counter n, m_val n, departed n ++ l).
Proof. apply (empty_queue_spec (m_unsent_queue n) (set_unsent [] n)). Qed.

Lemma priv_enter_ready_core n : core (priv_enter_ready n) = core (empty_unsent_queue (set_mstate true n)).
Proof.
  unfold priv_enter_ready. case_match; [|done].
  destruct (priv_get_neigh_state _) as [st n1] eqn:E. apply get_state_core in E.
  repeat case_match; try done. rewrite <- E. apply (send_arp_core n1).
Qed.

(** The entry into READY either has the link address and empties the queue,
    or leaves the queue and the state and posts an error. *)
Lemma enter_ready_spec n n' q : enter_ready n = (n', q) ->
  (q = [] /\ exists l a, (fst <$> l) = m_unsent_queue n /\
     core n' = (true, [], m_err_counter n, Some (Some a), departed n ++ l)) \/
  (q = [ev EV_ERROR] /\ exists v, core n' = (m_state n, m_unsent_queue n, m_err_counter n, v, departed n)).
Proof.
  unfold enter_ready, build_uc_neigh_val. set (n0 := match m_val _ with None => _ | Some _ => _ end).
  assert (exists v, core n0 = (m_state n, m_unsent_queue n, m_err_counter n, v, departed n)) as [v Hv].
  { subst n0. case_match; eauto. }
  destruct (priv_get_neigh_l2 n0) as [[a|] n1] eqn:E; apply get_l2_core in E; intros [= <- <-].
  - left. split; [done|]. rewrite priv_enter_ready_core.
    destruct (empty_unsent_queue_spec (set_mstate true (set_mval (Some (Some a)) n1))) as (l & Hl & ->).
    simpl in *. rewrite Hv in E. injection E as _ Hq -> _ ->. rewrite Hq in Hl. by exists l, a.
  - right. split; [done|]. exists v. by rewrite <- Hv.
Qed.

Lemma enter_not_active_spec n : exists l v, (fst <$> l) = m_unsent_queue n /\
  core (priv_enter_not_active n) = (false, [], m_err_counter n, v, departed n ++ l).
Proof.
  exists ((fun p => (p, Flushed)) <$> m_unsent_queue n). eexists. split; [|done].
  by rewrite <- list_fmap_compose, list_fmap_id.
Qed.

Lemma enter_error_spec n n' q : priv_enter_error n = (n', q) -> exists c v,
  core n' = (false, m_unsent_queue n, c, v, departed n) /\
  (q = [ev EV_KICK_START] /\ m_err_counter n < m_n_sysvar_neigh_num_err_retries /\ c = m_err_counter n + 1 \/
   q = [ev EV_ERROR] /\ c = 0).
Proof.
  unfold priv_enter_error. simpl. case_match eqn:E; intros [= <- <-];
    [apply andb_true_iff in E as [_ E%Z.ltb_lt]|]; simpl in *; eauto 8.
Qed.

(** ** The machine of the neighbour *)

Definition eth_machine : state_machine :=
  Eval vm_compute in match new_neigh_machine with Ok s => s | _ => StateMachine 0 0 [] None [] false (SmInfo 0 0 0 0 0) end.

Lemma new_neigh_machine_Ok : new_neigh_machine = Ok eth_machine.
Proof. vm_compute. done. Qed.

Definition eth_state (c : Z) : Prop := c ∈ [ST_NOT_ACTIVE; ST_INIT; ST_INIT_RESOLUTION; ST_ADDR_RESOLVED; ST_READY; ST_ERROR].
Definition eth_event (e : Z) : Prop := e ∈ [0; 1; 2; 3; 4; 5; 6; 7].

(** The state an event leads to, if it is another one. *)
Definition eth_next (c e : Z) : option Z :=
  match c, e with
  | 0, 0 | 7, 0 => Some ST_INIT
  | 1, 2 | 2, 2 | 3, 2 => Some ST_READY
  | 1, 1 => Some ST_INIT_RESOLUTION
  | 2, 3 => Some ST_ADDR_RESOLVED
  | 6, 5 | 1, 5 | 2, 5 => Some ST_ERROR
  | 7, 5 => Some ST_NOT_ACTIVE
  | _, _ => None
  end.

Definition enter (c : Z) (n : neigh_entry) : neigh_entry * list sm_fifo_entry_t :=
  match c with
  | 0 => (priv_enter_not_active n, [])
  | 1 => enter_init n
  | 2 => enter_init_resolution n
  | 3 => enter_addr_resolved n
  | 6 => enter_ready n
  | 7 => priv_enter_error n
  | _ => (n, [])
  end.

Lemma react_eth i n e : eth_state (old_state i) -> eth_event e ->
  react run_action run_notify eth_machine i n (ev e) =
    let c := eth_next (old_state i) e in
    let '(n', q) := match c with Some c => enter c n | None => (n, []) end in
    Ok (SmInfo (default (old_state i) c) (default SM_ST_STAY c) e 0 (app_hndl i), n', q).
Proof.
  destruct i as [c ? ? ? ?]. unfold eth_state, eth_event. simpl. intros Hc He.
  repeat (apply elem_of_cons in Hc as [->|Hc]; [|]); [..|by apply not_elem_of_nil in Hc];
  repeat (apply elem_of_cons in He as [->|He]; [|]); try (by apply not_elem_of_nil in He);
  lazy -[enter_init enter_init_resolution priv_enter_error priv_enter_not_active enter_addr_resolved enter_ready app];
  reflexivity.
Qed.

(** ** The invariant, also between two events of a chain

    [chain c q n]: the machine is in state [c], the entry function posted the
    events [q], which are still to come.  The value is valid in READY only,
    and then nothing waits and the link address is known; a READY that failed
    and ERROR have an event that leads out of them. *)
Record chain (c : Z) (q : list Z) (n : neigh_entry) : Prop := Chain {
  ch_state : eth_state c;
  ch_valid : m_state n = true -> c = ST_READY /\ m_unsent_queue n = [] /\ exists a, m_val n = Some (Some a);
  ch_ready : c = ST_READY -> m_state n = true \/ q = [EV_ERROR];
  ch_error : c = ST_ERROR -> q = [EV_KICK_START] \/ q = [EV_ERROR];
  ch_err : 0 <= m_err_counter n
}.

(** How many events are still processed, the first one included. *)
Definition cost (c e : Z) (n : neigh_entry) : nat :=
  let r := (3 * Z.to_nat (m_n_sysvar_neigh_num_err_retries - m_err_counter n))%nat in
  if decide (c = ST_ERROR /\ e = EV_ERROR) then 1
  else if decide (e = EV_ERROR) then 2 + r
  else if decide (e = EV_ARP_RESOLVED) then 3 + r
  else 4 + r.

Lemma core_fields n st q e v d : core n = (st, q, e, v, d) ->
  m_state n = st /\ m_unsent_queue n = q /\ m_err_counter n = e /\ m_val n = v /\ departed n = d.
Proof. by intros [= <- <- <- <- <-]. Qed.

Lemma core_chain n n' c c' q q' : core n' = core n -> chain c q n -> c <> ST_READY -> eth_state c' ->
  c' <> ST_READY -> c' <> ST_ERROR -> chain c' q' n' /\ history n' = history n.
Proof.
  intros (Hs & Hq & He & Hv & Hd)%core_fields [Hc Hm Hr _ H0] Hn Hc' Hr' He'. split; [|by unfold history; rewrite Hd, Hq].
  split; [done| |done|done|lia]. rewrite Hs. intros [? _]%Hm. done.
Qed.

Lemma eth_next_inv c e c' : eth_next c e = Some c' ->
  (c' = ST_INIT /\ e = EV_KICK_START /\ (c = ST_NOT_ACTIVE \/ c = ST_ERROR)) \/
  (c' = ST_INIT_RESOLUTION /\ e = EV_START_RESOLUTION /\ c = ST_INIT) \/
  (c' = ST_ADDR_RESOLVED /\ e = EV_ADDR_RESOLVED /\ c = ST_INIT_RESOLUTION) \/
  (c' = ST_READY /\ e = EV_ARP_RESOLVED /\ (c = ST_INIT \/ c = ST_INIT_RESOLUTION \/ c = ST_ADDR_RESOLVED)) \/
  (c' = ST_ERROR /\ e = EV_ERROR /\ (c = ST_READY \/ c = ST_INIT \/ c = ST_INIT_RESOLUTION)) \/
  (c' = ST_NOT_ACTIVE /\ e = EV_ERROR /\ c = ST_ERROR).
Proof. unfold eth_next. repeat case_match; intros [= <-]; subst; tauto. Qed.

#[local] Arguments cost : simpl never.

(** Only the resolution of an address asks for one that was forgotten. *)
Lemma enter_null c n : null_read (fst (enter c n)) = null_read n \/ c = ST_ADDR_RESOLVED /\ forgotten n.
Proof.
  assert (forall n, null_read (fst (enter_init n)) = null_read n) as H1.
  { intros n1. unfold enter_init. destruct (priv_get_neigh_state n1) as [st n2] eqn:E. apply get_state_arp in E as [= _ _ _ En]. by repeat case_match. }
  assert (forall n, null_read (fst (enter_init_resolution n)) = null_read n) as H2.
  { intros n1. unfold enter_init_resolution, start_resolution, ask. cbn. destruct (a_create _); cbn; [|done]. destruct (a_resolve _); cbn; [|done].
    destruct (priv_get_neigh_state _) as [st n2] eqn:E. apply get_state_arp in E as [= _ _ _ En]. by repeat case_match. }
  unfold enter. repeat case_match; subst; try (by left); first [left; apply H1|left; apply H2|left; apply enter_ready_null|left; unfold priv_enter_error; by case_match|idtac].
  destruct (enter_addr_resolved_null n) as [?|?]; [by left|by right].
Qed.

(** What the queue of a chain may be after an entry function. *)
Definition follows (c e : Z) (n : neigh_entry) (c' : Z) (n' : neigh_entry) (q : list sm_fifo_entry_t) : Prop :=
  history n' = history n /\
  ((q = [] /\ chain c' [] n') \/
   exists e', q = [ev e'] /\ eth_event e' /\ e' <> EV_ADDR_RESOLVED /\ chain c' [e'] n' /\ (cost c' e' n' < cost c e n)%nat).

Ltac in_table := unfold eth_state, eth_event; rewrite !elem_of_cons; tauto.

Lemma follows_core c e n c' n' q : chain c [e] n -> core n' = core n -> c <> ST_READY -> eth_state c' ->
  c' <> ST_READY -> c' <> ST_ERROR -> e <> EV_ERROR -> e <> EV_ARP_RESOLVED ->
  q = [] \/ q = [ev EV_ARP_RESOLVED] \/ q = [ev EV_ERROR] -> follows c e n c' n' q.
Proof.
  intros Hch Hn Hc Hc' Hr He He1 He2 Hq.
  assert (forall q', chain c' q' n' /\ history n' = history n) as H by (intros; by eapply core_chain).
  split; [by apply (H [])|]. destruct Hq as [->|Hq]; [left; split; [done|by apply H]|right].
  pose proof (core_fields _ _ _ _ _ _ Hn) as (_ & _ & Hec & _ & _).
  destruct Hq as [->| ->]; eexists; (split; [done|]); (split; [in_table|]); (split; [done|]); (split; [apply H|]);
    unfold cost; rewrite Hec; repeat case_decide; unfold EV_ERROR, EV_ARP_RESOLVED in *; try lia; tauto.
Qed.

Lemma follows_ready c n n' q : chain c [EV_ARP_RESOLVED] n -> c <> ST_READY -> enter_ready n = (n', q) ->
  follows c EV_ARP_RESOLVED n ST_READY n' q.
Proof.
  intros [Hc Hm Hr _ H0] Hcr [[-> (l & a & Hl & (? & Hq & He & Hv & Hd)%core_fields)]|
                               [-> [v (Hs & Hq & He & Hv & Hd)%core_fields]]]%enter_ready_spec.
  - split; [unfold history; rewrite Hq, Hd, fmap_app, Hl; by rewrite <- app_assoc, app_nil_r|].
    left. split; [done|]. split; [in_table|eauto|auto|done|lia].
  - split; [unfold history; by rewrite Hq, Hd|]. right. exists EV_ERROR. split; [done|]. split; [in_table|]. split; [done|].
    split; [split; [in_table| |auto|done|lia]|].
    + rewrite Hs. by intros [? _]%Hm.
    + unfold cost. rewrite He. repeat case_decide; naive_solver lia.
Qed.

Lemma follows_error c n n' q : chain c [EV_ERROR] n -> c <> ST_ERROR -> priv_enter_error n = (n', q) ->
  follows c EV_ERROR n ST_ERROR n' q.
Proof.
  intros [Hc Hm Hr _ H0] Hce (k & v & (Hs & Hq & He & Hv & Hd)%core_fields & Hk)%enter_error_spec.
  split; [unfold history; by rewrite Hq, Hd|]. right.
  assert (0 <= k) by (destruct Hk; naive_solver lia).
  destruct Hk as [(-> & Hlt & ->)|[-> ->]]; eexists; (split; [done|]); (split; [in_table|]); (split; [done|]);
    (split; [split; [in_table|congruence|done|auto|lia]|]); unfold cost; rewrite He;
    repeat case_decide; naive_solver lia.
Qed.

Lemma follows_not_active n : chain ST_ERROR [EV_ERROR] n ->
  follows ST_ERROR EV_ERROR n ST_NOT_ACTIVE (priv_enter_not_active n) [].
Proof.
  intros [_ _ _ _ H0]. destruct (enter_not_active_spec n) as (l & v & Hl & (Hs & Hq & He & Hv & Hd)%core_fields).
  split; [unfold history; rewrite Hq, Hd, fmap_app, Hl; by rewrite <- app_assoc, app_nil_r|].
  left. split; [done|]. split; [in_table|congruence|done|done|lia].
Qed.

(** One event of a chain that leads to another state. *)
Lemma enter_follows c e c' n n' q : chain c [e] n -> eth_next c e = Some c' -> enter c' n = (n', q) ->
  follows c e n c' n' q.
Proof.
  intros Hch [(-> & -> & Hc)|[(-> & -> & ->)|[(-> & -> & ->)|[(-> & -> & Hc)|[(-> & -> & Hc)|(-> & -> & ->)]]]]]%eth_next_inv
    Hn; simpl in Hn.
  - apply enter_init_core in Hn as [? ?]. apply follows_core; try done; [|in_table|tauto]. by destruct Hc as [->| ->].
  - apply enter_init_resolution_core in Hn as [? ?]. apply follows_core; try done; in_table.
  - apply enter_addr_resolved_core in Hn as [? ?]. apply follows_core; try done; [in_table|tauto].
  - apply follows_ready; try done. by destruct Hc as [->|[->| ->]].
  - apply follows_error; try done. by destruct Hc as [->|[->| ->]].
  - injection Hn as <- <-. by apply follows_not_active.
Qed.

(** An event that leads nowhere. *)
Lemma stay_chain c e n : chain c [e] n -> eth_next c e = None -> chain c [] n.
Proof.
  intros [Hc Hm Hr He H0] Hn. split; [done|done| |..|done]; intros ->.
  - destruct Hr as [?|[= ->]]; [done|auto|done].
  - destruct He as [[= ->]|[= ->]]; done.
Qed.

(** A chain ends, within its cost. *)
Lemma chain_runs fuel i n e : eth_event e -> chain (old_state i) [e] n -> (cost (old_state i) e n <= fuel)%nat ->
  returns (fun x => chain (old_state x.1) [] x.2 /\ history x.2 = history n /\
      (null_read x.2 = null_read n \/ e = EV_ADDR_RESOLVED /\ forgotten n))
    (run_queue run_action run_notify eth_machine fuel [ev e] i n).
Proof.
  revert i n e. induction fuel as [|fuel IH]; intros i n e He Hch Hf.
  { unfold cost in Hf. repeat case_decide; lia. }
  cbn [run_queue]. assert (rejected eth_machine (fe_event (ev e)) = false) as ->.
  { simpl. unfold eth_event in He. set_unfold. unfold rejected. simpl. repeat destruct He as [->|He]; done. }
  rewrite react_eth by (apply Hch || done).
  destruct (eth_next (old_state i) e) as [c'|] eqn:Hn; simpl.
  - destruct (enter c' n) as [n' q] eqn:E. simpl.
    assert (null_read n' = null_read n \/ e = EV_ADDR_RESOLVED /\ forgotten n) as Hnull.
    { pose proof (enter_null c' n) as H. rewrite E in H. destruct H as [?|[-> ?]]; [by left|right]. split; [|done]. apply eth_next_inv in Hn. naive_solver. }
    destruct (enter_follows _ _ _ _ _ _ Hch Hn E) as [Hh [[-> Hc]|(e' & -> & He' & Hne & Hc & Hlt)]].
    + destruct fuel; apply returns_Ok; done.
    + eapply returns_mono; [|apply IH; [done..|simpl; lia]]. simpl. intros [? ?] (? & -> & Hx). split_and!; [done..|].
      destruct Hx as [->|[? _]]; done.
  - destruct fuel; apply returns_Ok; simpl; (split; [by eapply stay_chain|by auto]).
Qed.

(** ** Worlds between two calls *)

Definition settled (w : world) : Prop :=
  (exists i, fst w = set_info i eth_machine) /\ chain (get_curr_state (fst w)) [] (snd w).

Lemma settled_busy w : settled w -> idle (fst w) /\ m_sm_fifo (fst w) = [].
Proof. intros [[i ->] _]. done. Qed.

(** [promise h w]: what every call leaves, with the packets [h] ever queued. *)
Definition promise (h : list Z) (w : world) : Prop := settled w /\ history (snd w) = h /\ null_read (snd w) = false.

(** A call returns with [P], or asks for a forgotten address, which is undefined. *)
Definition returns_or {A} (F : Prop) (P : A -> Prop) (m : res A) : Prop := returns P m \/ m = Undef /\ F.

Lemma returns_or_Ok {A} F (P : A -> Prop) a : P a -> returns_or F P (Ok a).
Proof. intros. left. by apply returns_Ok. Qed.

Lemma returns_or_bind {A B} F (P : A -> Prop) (Q : B -> Prop) m (f : A -> res B) :
  returns_or F P m -> (forall a, P a -> returns_or F Q (f a)) -> returns_or F Q (m ≫= f).
Proof. intros [(a & -> & Ha)|[-> HF]] Hf; [by apply Hf|by right]. Qed.

Lemma returns_or_mono {A} (F F' : Prop) (P Q : A -> Prop) m : (F -> F') -> (forall a, P a -> Q a) -> returns_or F P m -> returns_or F' Q m.
Proof. intros HF HP [H|[-> ?]]; [left; by eapply returns_mono|right; auto]. Qed.


Lemma chain_wait c n e : chain c [] n -> chain c [e] n.
Proof.
  intros [Hc Hm Hr He H0]. split; [done|done| | |done]; intros Hce; [by destruct (Hr Hce); auto|by destruct (He Hce)].
Qed.

Lemma defined_ok h w F : settled w -> history (snd w) = h -> null_read (snd w) = false \/ F -> returns_or F (promise h) (defined w).
Proof.
  intros Hs Hh Hn. unfold defined. destruct (null_read (snd w)) eqn:E; [right; by destruct Hn|]. by apply returns_or_Ok.
Qed.

(** [calm w w']: what is forgotten in [w'] is forgotten in [w]. *)
Definition calm (w w' : world) : Prop := forgotten (snd w') -> forgotten (snd w).

Lemma event_handler_settled h e w : eth_event e -> promise h w ->
  returns_or (e = EV_ADDR_RESOLVED /\ forgotten (snd w)) (promise h) (event_handler e w).
Proof.
  intros He ([[i Hi] Hch] & Hh & Hnull). destruct w as [s n]. simpl in *. subst s.
  unfold event_handler. case_match; [apply returns_or_Ok; split; [split; eauto|done]|].
  destruct (chain_runs neigh_fuel i n e) as ([i' n'] & Hr & Hc & Hh' & Hn'); [done|by apply chain_wait| |].
  { unfold cost, neigh_fuel. pose proof (ch_err _ _ _ Hch). repeat case_decide; lia. }
  erewrite (proj2 (process_event_run_queue run_action run_notify neigh_fuel e 0 (set_info i eth_machine) n _ _ _ eq_refl)).
  2:{ eexists. split_and!; [|done..]. rewrite <- Hr. by apply run_queue_cfg. }
  apply (defined_ok h (set_info i' eth_machine, n')); simpl in *; [split; [eauto|done]|congruence|]. destruct Hn' as [E|?]; [left; congruence|by right].
Qed.

(** Other events never read NULL. *)
Lemma event_handler_returns h e w : eth_event e -> e <> EV_ADDR_RESOLVED -> promise h w -> returns (promise h) (event_handler e w).
Proof. intros He Hne Hw. destruct (event_handler_settled h e w He Hw) as [?|[_ [? _]]]; done. Qed.

Lemma promise_core h s n n' : core n' = core n -> null_read n' = null_read n -> promise h (s, n) -> promise h (s, n').
Proof.
  intros (Hs & Hq & He & Hv & Hd)%core_fields Hnull ([Hi [Hc Hm Hr Her H0]] & Hh & Hn). unfold promise, settled, history in *. simpl in *.
  rewrite Hd, Hq, Hnull. split_and!; [done| |done..]. split; [done|by rewrite Hs, Hq, Hv|by rewrite Hs|done|by rewrite He].
Qed.

Lemma ask_again_promise h w : promise h w -> returns_or (forgotten (snd w)) (promise h) (ask_again w).
Proof.
  destruct w as [s n]. intros Hw. pose proof Hw as ([Hi Hch] & Hh & Hnull). unfold ask_again, on_neigh, history in *. cbn [fst snd] in *.
  set (n1 := priv_register_timer_event (send_arp n)). assert (core n1 = core n) as E by apply (send_arp_core n).
  assert (null_read n1 = null_read n \/ forgotten n) as E' by apply (send_arp_null n). clearbody n1.
  apply core_fields in E as (Hs & Hq & He & Hv & Hd). destruct Hch as [Hc Hm Hr Her H0].
  apply defined_ok; unfold history; cbn [snd]; [|by rewrite Hd, Hq|rewrite <- Hnull; by destruct E'; auto].
  split; [done|]. cbn [fst snd] in *. split; [done|by rewrite Hs, Hq, Hv|by rewrite Hs|done|by rewrite He].
Qed.

Lemma l2_changed_promise h a w : promise h w ->
  returns (fun x => promise h (snd x) /\ (fst x = false -> snd x = w)) (priv_handle_neigh_is_l2_changed a w).
Proof.
  intros Hw. assert (returns (fun x => promise h (snd x) /\ (fst x = false -> snd x = w)) (w ← event_handler EV_ERROR w; Ok (true, w))) as He.
  { eapply returns_bind; [apply event_handler_returns; [in_table|done|done]|]. intros w' Hw'. by apply returns_Ok. }
  unfold priv_handle_neigh_is_l2_changed. repeat case_match; try done. by apply returns_Ok.
Qed.

Lemma handle_timer_promise h w : promise h w -> returns_or (forgotten (snd w)) (promise h) (handle_timer_expired w).
Proof.
  intros Hw. unfold handle_timer_expired.
  assert (promise h (on_neigh (set_timer false) w)) as Hw1 by (destruct w; by eapply promise_core, Hw).
  assert (calm w (on_neigh (set_timer false) w)) as Hf by exact (fun H => H).
  clear Hw. set (w1 := on_neigh _ w) in *. clearbody w1. apply (returns_or_mono (forgotten (snd w1)) _ (promise h) _ _ Hf (fun _ H => H)). clear w Hf. destruct w1 as [s n]. simpl.
  case_match; [left; apply event_handler_returns; [in_table|done|done]|].
  destruct (priv_get_neigh_state n) as [[st|] n1] eqn:E1; pose proof (get_state_arp _ _ _ E1) as A1; apply get_state_core in E1;
    (assert (promise h (s, n1)) as Hw2 by (eapply promise_core, Hw1; [done|by injection A1])); [|by apply returns_or_Ok].
  eapply (returns_or_bind _ (fun x => promise h (snd x) /\ (fst x = false -> arp_core (snd (snd x)) = arp_core n))).
  - left. case_match; [|by apply returns_Ok].
    destruct (priv_get_neigh_l2 n1) as [[a|] n2] eqn:E2; pose proof (get_l2_arp _ _ _ E2) as A2; apply get_l2_core in E2;
      (assert (promise h (s, n2)) as Hw3 by (eapply promise_core, Hw2; [done|by injection A2])); [|by apply returns_Ok].
    eapply returns_mono; [|by apply l2_changed_promise]. simpl. intros [b w] [? Hb]. split; [done|]. intros E. rewrite (Hb E). simpl. congruence.
  - intros [stopped w] [Hw Hb]. simpl in *. destruct stopped; [by apply returns_or_Ok|]. case_match; [|by apply returns_or_Ok].
    eapply returns_or_mono; [|done|by apply ask_again_promise]. by apply forgotten_core, Hb.
Qed.

Lemma handle_neigh_event_promise h st a w : promise h w -> returns_or (forgotten (snd w)) (promise h) (handle_neigh_event st a w).
Proof.
  intros Hw. unfold handle_neigh_event.
  assert (promise h (priv_handle_neigh_reachable_event w)) as Hw1 by (destruct w; by eapply promise_core, Hw).
  repeat case_match; try (by apply returns_or_Ok); try (left; apply event_handler_returns; [in_table|done|done]).
  - left. eapply returns_bind; [by apply l2_changed_promise|]. intros [changed w'] [Hw' _]. by apply returns_Ok.
  - eapply returns_or_bind; [left; by apply l2_changed_promise|]. intros [changed w'] [Hw' Hb]; simpl in *.
    destruct changed; [by apply returns_or_Ok|]. rewrite (Hb eq_refl). by apply ask_again_promise.
Qed.

Lemma send_promise h p w : promise h w -> returns (promise (h ++ [p])) (neigh_send p w).
Proof.
  destruct w as [s n]. intros ([Hi [Hc Hm Hr Her H0]] & Hh & Hnull). unfold promise, settled, history, neigh_send, on_neigh, defined in *. simpl in *.
  destruct (m_state n) eqn:Hs.
  - destruct (empty_unsent_queue_spec (set_unsent (m_unsent_queue n ++ [p]) n))
      as (l & Hl & (Hs' & Hq & He & Hv & Hd)%core_fields). simpl in *. destruct Hm as (HR & Hu & a & Ha); [done|].
    pose proof (empty_unsent_queue_arp (set_unsent (m_unsent_queue n ++ [p]) n) _ Ha) as [= _ _ _ Hn']. simpl in *.
    set (n1 := empty_unsent_queue _) in *. clearbody n1. rewrite Hn', Hnull. apply returns_Ok. simpl.
    rewrite Hd, Hq, fmap_app, Hl, Hu, app_nil_r. rewrite Hu, app_nil_r in Hh. rewrite Hh. split_and!; [done| |done|congruence].
    split; [done|rewrite Hq, Hv; eauto|rewrite Hs'; auto|done|by rewrite He].
  - change (null_read (set_unsent _ n)) with (null_read n). rewrite Hnull. apply returns_Ok. simpl. split_and!; [done| |by rewrite app_assoc, Hh|done]. split; simpl; [done|congruence|rewrite Hs; auto|done|done].
Qed.

Lemma kick_promise h (b : bool) w : promise h w -> returns (promise h) (if b then event_handler EV_KICK_START w else Ok w).
Proof. intros Hw. destruct b; [apply event_handler_returns; [in_table|done|done]|by apply returns_Ok]. Qed.

Lemma peer_value_promise h w : promise h w ->
  returns (fun v => v = if m_state (snd w) then m_val (snd w) else None) (peer_value (snd w)).
Proof.
  intros [[_ Hch] _]. unfold peer_value. destruct (m_state (snd w)) eqn:Hs; [|by apply returns_Ok].
  destruct (ch_valid _ _ _ Hch Hs) as (_ & _ & a & ->). by apply returns_Ok.
Qed.

Lemma get_peer_info_promise h w : promise h w ->
  returns (fun x => promise h (snd x) /\ fst x = if m_state (snd (snd x)) then m_val (snd (snd x)) else None) (get_peer_info w).
Proof.
  intros Hw. unfold get_peer_info. destruct (peer_value_promise h w Hw) as (v & -> & Hv). simpl.
  destruct v as [v|]; [by apply returns_Ok|].
  eapply returns_bind; [by apply kick_promise|]. intros w' Hw'.
  eapply returns_bind; [by eapply peer_value_promise|]. intros v' ->. by apply returns_Ok.
Qed.

Lemma run_call_promise h c w : promise h w -> returns_or (forgotten (snd w)) (promise (h ++ sends [c])) (run_call c w).
Proof.
  intros Hw. destruct c; simpl; rewrite ?app_nil_r.
  - left. by apply send_promise.
  - by apply handle_timer_promise.
  - by apply handle_neigh_event_promise.
  - eapply returns_or_mono; [|done|apply event_handler_settled; [|done]]; [by intros [_ ?]|]. unfold rdma_event_mapping. repeat case_match; in_table.
  - left. eapply returns_bind; [by apply get_peer_info_promise|]. intros x [? _]. by apply returns_Ok.
  - left. unfold register_observer. destruct fresh; [|by apply returns_Ok]. simpl.
    eapply returns_bind; [eapply returns_bind; [by apply kick_promise|intros w' Hw'; by apply (returns_Ok (fun x => promise h (snd x)))]|].
    intros x ?. by apply returns_Ok.
Qed.

(** A sequence of calls returns, or stops at the call that reads NULL. *)
Lemma run_calls_promise h l w : promise h w -> returns (promise (h ++ sends l)) (run_calls l w) \/
  exists l1 c l2 w1, l = l1 ++ c :: l2 /\ run_calls l1 w = Ok w1 /\ run_call c w1 = Undef /\ forgotten (snd w1).
Proof.
  revert h w. induction l as [|c l IH]; intros h w Hw; [left; rewrite app_nil_r; by apply returns_Ok|].
  replace (h ++ sends (c :: l)) with ((h ++ sends [c]) ++ sends l) by (rewrite <- app_assoc; by destruct c).
  destruct (run_call_promise h c w Hw) as [(w1 & E & Hw1)|[E Hf]]; [|right; by exists [], c, l, w].
  destruct (IH _ _ Hw1) as [H|(l1 & c' & l2 & w2 & -> & E2 & H)]; [left; simpl; by rewrite E|].
  right. exists (c :: l1), c', l2, w2. split_and!; [done|simpl; by rewrite E|by apply H..].
Qed.

Lemma new_neigh_promise : returns (promise []) new_neigh.
Proof.
  unfold new_neigh. rewrite new_neigh_machine_Ok. apply event_handler_returns; [in_table|done|].
  split; [|done]. split; [by exists (m_info eth_machine)|]. by split; [in_table|..].
Qed.

(** ** Chains of one and two events *)

Definition reachable (l : list call) (w : world) : Prop := (w0 ← new_neigh; run_calls l w0) = Ok w.

Lemma reachable_promise l w : reachable l w -> promise (sends l) w.
Proof.
  unfold reachable. destruct new_neigh_promise as (w0 & -> & H0). simpl.
  intros E. destruct (run_calls_promise [] l w0 H0) as [(w' & E' & Hw')|(l1 & c & l2 & w1 & -> & E1 & E2 & _)]; [rewrite E in E'; by injection E' as <-|].
  exfalso. revert E. clear -E1 E2. revert w0 E1. induction l1 as [|c1 l1 IH]; simpl; intros w0; [intros [= ->]; by rewrite E2|].
  destruct (run_call c1 w0); simpl; naive_solver.
Qed.

(** The events of a chain one after the other. *)
Lemma event_handler_runs e i n i' n' : eth_event e -> e <> EV_UNHANDLED ->
  run_queue run_action run_notify eth_machine neigh_fuel [ev e] i n = Ok (i', n') ->
  event_handler e (set_info i eth_machine, n) = defined (set_info i' eth_machine, n').
Proof.
  intros He Hu Hr. unfold event_handler. rewrite (proj2 (Z.eqb_neq _ _) Hu).
  erewrite (proj2 (process_event_run_queue run_action run_notify neigh_fuel e 0 (set_info i eth_machine) n _ _ _ eq_refl));
    [done|]. eexists. split_and!; [|done..]. rewrite <- Hr. by apply run_queue_cfg.
Qed.

Lemma run_queue_eth fuel i n e c n' q : eth_state (old_state i) -> eth_event e ->
  eth_next (old_state i) e = Some c -> enter c n = (n', q) ->
  run_queue run_action run_notify eth_machine (S fuel) [ev e] i n =
  run_queue run_action run_notify eth_machine fuel q (SmInfo c c e 0 (app_hndl i)) n'.
Proof.
  intros Hc He Hn Hq. cbn [run_queue]. assert (rejected eth_machine (fe_event (ev e)) = false) as ->.
  { unfold eth_event in He. set_unfold. repeat destruct He as [->|He]; done. }
  rewrite react_eth by done. rewrite Hn. cbn [default]. rewrite Hq. done.
Qed.



Lemma neigh_fuel_two : exists r, neigh_fuel = S (S r).
Proof. unfold neigh_fuel. simpl. eauto. Qed.

(** The fates of the packets, as the ring takes them. *)
Lemma empty_queue_fates q n a : m_val n = Some (Some a) ->
  departed (empty_queue q n) = departed n ++
    imap (fun k p => (p, if a_send (env (tick n + k)) then Posted else Failed)) q.
Proof.
  revert n. induction q as [|p q IH]; intros n Hv; simpl; [by rewrite app_nil_r|].
  rewrite Hv. rewrite (bool_decide_false (Some (Some a) = None)) by done. rewrite IH by done. simpl.
  rewrite Hv, <- app_assoc, Nat.add_0_r. f_equal. simpl. f_equal.
  apply imap_ext. intros k p' _. simpl. by rewrite Nat.add_succ_r.
Qed.

Lemma enter_ready_resolved n st a : m_is_loopback = false -> a_neigh (env (tick n)) = Some (st, a) ->
  priv_is_failed st = false -> exists n', enter_ready n = (n', []) /\
  core n' = (true, [], m_err_counter n, Some (Some a),
    departed n ++ imap (fun k p => (p, if a_send (env (S (tick n) + k)) then Posted else Failed)) (m_unsent_queue n)).
Proof.
  intros Hl Ha Hf. unfold enter_ready, build_uc_neigh_val, priv_get_neigh_l2. rewrite Hl.
  set (n0 := match m_val _ with None => _ | Some _ => _ end).
  assert (tick n0 = tick n /\ m_err_counter n0 = m_err_counter n /\ departed n0 = departed n /\
          m_unsent_queue n0 = m_unsent_queue n) as (Ht & He & Hd & Hq) by (subst n0; by case_match).
  clearbody n0. unfold ask. rewrite Ht, Ha, Hf. eexists. split; [done|]. rewrite priv_enter_ready_core.
  set (n1 := set_mstate true _). pose proof (empty_queue_fates (m_unsent_queue n1) (set_unsent [] n1) a eq_refl) as HD.
  destruct (empty_unsent_queue_spec n1) as (l & _ & (Hs & Hq' & He' & Hv' & Hd')%core_fields).
  unfold core. rewrite Hs, Hq', He', Hv'. change (departed (empty_unsent_queue n1)) with
    (departed (empty_queue (m_unsent_queue n1) (set_unsent [] n1))). rewrite HD. simpl. by rewrite He, Hd, Hq, Ht.
Qed.

(** ** Theorems *)

(** C22: Whatever the netlink cache, the connection manager and the ring
    answer, a unicast neighbour is constructed, and every sequence of calls on
    it returns, or stops at a call that asks the peer for whose link address
    was known and then forgotten: that call reads NULL.  The events that the
    entry functions post come to an end within four and three more per retry.
    Between two calls the machine is idle and its queue of events is empty, it
    is not in ERROR, its value is valid exactly in READY, where the link
    address is known and no packet waits, so a READY neighbour can be deleted
    without losing a packet.  The packets given to send left the queue in that
    order or are still in it. *)
Theorem neigh_calls l :
  (exists l1 c l2 w, l = l1 ++ c :: l2 /\ reachable l1 w /\ run_call c w = Undef /\ forgotten (snd w)) \/
  exists w,
  (w0 ← new_neigh; run_calls l w0) = Ok w /\
  idle (fst w) /\ m_sm_fifo (fst w) = [] /\
  get_curr_state (fst w) ∈ [ST_NOT_ACTIVE; ST_INIT; ST_INIT_RESOLUTION; ST_ADDR_RESOLVED; ST_READY] /\
  (m_state (snd w) = true <-> get_curr_state (fst w) = ST_READY) /\
  (m_state (snd w) = true -> deletable w = true /\ m_unsent_queue (snd w) = [] /\ exists a, m_val (snd w) = Some (Some a)) /\
  sends l = (fst <$> departed (snd w)) ++ m_unsent_queue (snd w).
Proof.
  unfold reachable. destruct new_neigh_promise as (w0 & -> & H0). simpl.
  destruct (run_calls_promise [] l w0 H0) as [(w & Hw & Hs & Hh & _)|(l1 & c & l2 & w1 & H)]; [right|left; by exists l1, c, l2, w1].
  exists w. split; [done|]. pose proof (settled_busy w Hs) as [? ?]. destruct Hs as [_ [Hc Hm Hr He _]].
  split_and!; try done.
  - assert (get_curr_state (fst w) <> ST_ERROR) by (intros Hce; by destruct (He Hce)).
    unfold eth_state in Hc. set_solver.
  - split; [by intros [? _]%Hm|]. intros Hce. by destruct (Hr Hce).
  - intros Ht. destruct (Hm Ht) as (HR & ? & ?). split_and!; [|done..]. unfold deletable. by rewrite HR.
Qed.

(** C35: A neighbour that is being resolved is resolved by the first event that
    says it is reachable, if the netlink cache then has its link address: it is
    READY, its value is the address of the cache, and every packet that waited
    went to the ring, in order, whatever the ring answered. *)
Theorem neigh_resolves l w lladdr st a : reachable l w ->
  get_curr_state (fst w) ∈ [ST_INIT; ST_INIT_RESOLUTION; ST_ADDR_RESOLVED] ->
  m_is_loopback = false -> a_neigh (env (tick (snd w))) = Some (st, a) -> priv_is_failed st = false ->
  exists w', handle_neigh_event NUD_REACHABLE lladdr w = Ok w' /\
    get_curr_state (fst w') = ST_READY /\ get_peer_info w' = Ok (Some (Some a), w') /\
    m_unsent_queue (snd w') = [] /\
    departed (snd w') = departed (snd w) ++
      imap (fun k p => (p, if a_send (env (S (tick (snd w)) + k)) then Posted else Failed)) (m_unsent_queue (snd w)).
Proof.
  intros ([[i Hi] Hch] & _ & Hnull)%reachable_promise Hc Hl Ha Hf. destruct w as [s n]. simpl in *. subst s.
  set (n0 := priv_unregister_timer (set_arp 0 (m_is_first_send_arp n) n)).
  destruct (enter_ready_resolved n0 st a) as (n' & Hn & (Hs & Hq & _ & Hv & Hd)%core_fields); [done..|].
  assert (eth_next (old_state i) EV_ARP_RESOLVED = Some ST_READY /\ old_state i <> ST_READY) as [Hnx Hnr]
    by (change (get_curr_state _) with (old_state i) in Hc; set_unfold; by destruct Hc as [->|[->|[->|[]]]]).
  exists (set_info (SmInfo ST_READY ST_READY EV_ARP_RESOLVED 0 (app_hndl i)) eth_machine, n').
  split; [|split_and!; [done| |done|done]].
  - unfold handle_neigh_event. simpl. change (get_curr_state _) with (old_state i).
    rewrite (proj2 (Z.eqb_neq _ _) Hnr). change (event_handler EV_ARP_RESOLVED (set_info i eth_machine, n0) = Ok (set_info (SmInfo ST_READY ST_READY EV_ARP_RESOLVED 0 (app_hndl i)) eth_machine, n')).
    erewrite event_handler_runs; [|in_table|done|].
    { unfold defined. simpl. pose proof (enter_ready_null n0) as E0. rewrite Hn in E0. simpl in E0. by rewrite E0, Hnull. }
    destruct neigh_fuel_two as [r ->]. erewrite run_queue_eth; [|apply Hch|in_table|exact Hnx|exact Hn]. done.
  - unfold get_peer_info, peer_value. simpl. by rewrite Hs, Hv.
Qed.


End Neigh.

(** ** A neighbour with two waiting packets *)

Module NeighExample.

(** The netlink cache does not know the peer at first. *)
Definition late_env (k : nat) : answer := Answer (if decide (k = O) then None else Some (NUD_REACHABLE, 42)) true true true true.
Definition no_env (k : nat) : answer := Answer None true true true true.

Definition run (env : nat -> answer) (l : list call) : state_machine * neigh_entry :=
  match w ← new_neigh 3 1 false false 9 env; run_calls 3 1 false false 9 env l w with
  | Ok w => w
  | _ => (eth_machine, new_neigh_entry)
  end.

Lemma neigh_resolves_witness : exists w', handle_neigh_event 3 1 false false 9 late_env NUD_REACHABLE 42 (run late_env [c_send 7; c_send 8]) = Ok w' /\
  departed (snd w') = [(7, Posted); (8, Posted)].
Proof.
  destruct (neigh_resolves 3 1 false false 9 late_env [c_send 7; c_send 8] (run late_env [c_send 7; c_send 8]) 42 NUD_REACHABLE 42)
    as (w' & Hw & _ & _ & _ & Hd); [by vm_compute|vm_compute; set_solver|by vm_compute..|]. exists w'. split; [done|]. rewrite Hd. by vm_compute.
Defined.


Example second_failure : departed (snd (run no_env [c_send 7; c_neigh_event NUD_FAILED 0; c_neigh_event NUD_FAILED 0])) = [(7, Flushed)].
Proof. by vm_compute. Qed.

(** A packet that is given to a neighbour that stopped waits in its queue,
    although the neighbour can be deleted. *)
Lemma neigh_deletable_waits : let w := run no_env [c_neigh_event NUD_FAILED 0; c_send 7] in
  deletable w = true /\ m_unsent_queue (snd w) = [7].
Proof. by vm_compute. Qed.

(** The peer is known, then fails, then is resolved again while the cache
    says that it failed: the second ARP request is a unicast one and reads
    the link address that was zeroed. *)
Definition failing_env (k : nat) : answer :=
  Answer (if decide (k <= 2)%nat then Some (NUD_REACHABLE, 42) else if decide (k <= 6)%nat then None else Some (NUD_FAILED, 0))
    true true true true.

Lemma neigh_arp_reads_null : (w ← new_neigh 3 1 false false 9 failing_env; run_calls 3 1 false false 9 failing_env
  [c_neigh_event NUD_FAILED 0; c_get_peer_info; c_timer; c_rdma_cm true ADDR_RESOLVED; c_timer] w) = Undef.
Proof. by vm_compute. Qed.

(** While an ARP request is on its way, a peer that the kernel gives up is not
    noticed. *)
Lemma neigh_failure_ignored : let w := run no_env [c_send 7; c_timer; c_rdma_cm true ADDR_RESOLVED; c_neigh_event NUD_FAILED 0] in
  get_curr_state (fst w) = ST_ADDR_RESOLVED /\ m_unsent_queue (snd w) = [7] /\ notified (snd w) = 0%nat.
Proof. by vm_compute. Qed.

End NeighExample.
