(* ===== verification/Checksum.v ===== *)
(** * Internet checksums (src/vma/util/utils.cpp)

    The checksums of IPv4 headers, TCP segments and received UDP datagrams.
    The code adds 16-bit words as a little-endian host reads them into an
    [unsigned long]; the reference is the sum in ones' complement arithmetic. *)

From S2P Require Import Prelude.

(** One monadic step, without evaluating the numbers. *)
Ltac bind_ret := match goal with |- context [Ok ?x ≫= ?f] => change (Ok x ≫= f) with (f x); cbv beta iota; cbn [fst snd] end.

(** ** The functions *)

(** A 16-bit word of memory. *)
Definition word (a b : Z) : Z := a + 256 * b.

(** The loop of [compute_ip_checksum] over [nshort_words] words. *)
Fixpoint add_words (nshort_words : nat) (buf : list Z) (sum : Z) : res Z :=
  match nshort_words with
  | O => Ok sum
  | S n => match buf with w :: buf => add_words n buf (u64 (sum + w)) | [] => Undef end
  end.

Definition compute_ip_checksum (buf : list Z) (nshort_words : nat) : res Z :=
  sum ← add_words nshort_words buf 0;
  let sum := u64 (Z.shiftr sum 16 + Z.land sum 65535) in
  let sum := u64 (sum + Z.shiftr sum 16) in
  Ok (u16 (Z.lnot sum)).

(** [while (sum >> 16) sum = (sum & 0xffff) + (sum >> 16)] *)
Fixpoint fold_sum (fuel : nat) (sum : Z) : res Z :=
  if Z.shiftr sum 16 =? 0 then Ok sum
  else match fuel with
       | O => NoFuel
       | S fuel => fold_sum fuel (u64 (Z.land sum 65535 + Z.shiftr sum 16))
       end.

(** The loop over a payload of [len] bytes at [p]; it leaves the pointer and
    the bytes that are left, one at most. *)
Fixpoint add_payload (len : nat) (p : list Z) (sum : Z) : res (nat * list Z * Z) :=
  match len with
  | S (S len) => match p with a :: b :: p => add_payload len p (u64 (sum + word a b)) | _ => Undef end
  | _ => Ok (len, p, sum)
  end.

(** The last byte is read as a word and padded. *)
Definition add_rest (len : nat) (p : list Z) (sum : Z) : res Z :=
  match len with
  | O => Ok sum
  | _ => match p with a :: b :: _ => Ok (u64 (sum + Z.land (word a b) (ntohs 65280))) | _ => Undef end
  end.

Definition add_address (addr sum : Z) : Z := u64 (u64 (sum + Z.land (Z.shiftr addr 16) 65535) + Z.land addr 65535).

(** Folding a sum of 64 bits takes five rounds at most. *)
Definition fold_fuel : nat := 5.

Definition finish (sum : Z) : res Z := sum ← fold_sum fold_fuel sum; Ok (u16 (Z.lnot sum)).

Definition IPPROTO_TCP : Z := 6.
Definition IPPROTO_UDP : Z := 17.

Definition compute_tcp_checksum (saddr daddr tot_len ihl : Z) (p_ip_payload : list Z) : res Z :=
  let tcpLen := u16 (ntohs tot_len - Z.shiftl ihl 2) in
  let sum := add_address daddr (add_address saddr 0) in
  let sum := u64 (u64 (sum + ntohs IPPROTO_TCP) + ntohs tcpLen) in
  x ← add_payload (Z.to_nat tcpLen) p_ip_payload sum;
  let '(len, p, sum) := x : nat * list Z * Z in
  sum ← add_rest len p sum;
  finish sum.

(** A fragment: what its pointer points to and its length.  [rest] are the
    fragments that follow the current one. *)
Fixpoint add_fragments (fuel : nat) (udp_len : Z) (rest : list (list Z * Z)) (p : list Z) (ip_frag_len ip_frag_remainder sum : Z)
    : res (Z * list Z * Z) :=
  if udp_len <=? 1 then Ok (udp_len, p, sum)
  else match fuel with
       | O => NoFuel
       | S fuel =>
         let '(rest, p, ip_frag_len, ip_frag_remainder) :=
           match rest with
           | (base, len) :: rest' => if ip_frag_remainder =? 0 then (rest', base, u16 len, u16 len) else (rest, p, ip_frag_len, ip_frag_remainder)
           | [] => (rest, p, ip_frag_len, ip_frag_remainder)
           end in
         x ← add_payload (Z.to_nat ip_frag_remainder) p sum;
         let '(odd, p, sum) := x : nat * list Z * Z in
         add_fragments fuel (u16 (udp_len - (ip_frag_len - Z.of_nat odd))) rest p ip_frag_len (Z.of_nat odd) sum
       end.

(** [udphdr_len] is the field of the header, [p] points to the header and
    [iov_len] is the length of the first fragment without it. *)
Definition compute_udp_checksum_rx (fuel : nat) (saddr daddr udphdr_len : Z) (p : list Z) (iov_len : Z) (rest : list (list Z * Z)) : res Z :=
  let sum := add_address daddr (add_address saddr 0) in
  let sum := u64 (u64 (sum + ntohs IPPROTO_UDP) + udphdr_len) in
  let ip_frag_len := u16 (iov_len + 8) in
  x ← add_fragments fuel (ntohs udphdr_len) rest p ip_frag_len ip_frag_len sum;
  let '(udp_len, p, sum) := x : Z * list Z * Z in
  sum ← add_rest (Z.to_nat udp_len) p sum;
  finish sum.

(** ** The reference: sums in ones' complement arithmetic *)

(** A sum of words, folded: zero only for zero. *)
Definition ones_sum (t : Z) : Z := if t =? 0 then 0 else (t - 1) mod 65535 + 1.
Definition checksum (t : Z) : Z := 65535 - ones_sum t.

Definition total (l : list Z) : Z := foldr Z.add 0 l.
Definition is_word (w : Z) : Prop := 0 <= w < 65536.
Definition is_byte (b : Z) : Prop := 0 <= b < 256.

(** The words of a sequence of bytes, with padding. *)
Fixpoint words (l : list Z) : list Z :=
  match l with
  | a :: b :: l => word a b :: words l
  | [a] => [word a 0]
  | [] => []
  end.

(** The same as a big-endian host reads them. *)
Fixpoint be_words (l : list Z) : list Z :=
  match l with
  | a :: b :: l => word b a :: be_words l
  | [a] => [word 0 a]
  | [] => []
  end.

Lemma total_app l l' : total (l ++ l') = total l + total l'.
Proof. induction l; simpl; lia. Qed.

Lemma total_bound l : Forall is_word l -> 0 <= total l <= 65535 * Z.of_nat (length l).
Proof. induction 1 as [|w l Hw Hl IH]; [done|]. cbn [total foldr length]. unfold is_word, total in *. lia. Qed.

Lemma ones_sum_range t : 0 <= t -> 0 <= ones_sum t <= 65535.
Proof. intros Ht. unfold ones_sum. destruct (Z.eqb_spec t 0); [lia|]. pose proof (Z.mod_pos_bound (t - 1) 65535). lia. Qed.

Lemma ones_sum_small t : 0 <= t <= 65535 -> ones_sum t = t.
Proof. intros Ht. unfold ones_sum. destruct (Z.eqb_spec t 0); [lia|]. rewrite Z.mod_small; lia. Qed.

(** Folding keeps the sum. *)
Lemma ones_sum_fold hi lo : 0 <= hi -> 0 <= lo -> ones_sum (hi * 65536 + lo) = ones_sum (hi + lo).
Proof.
  intros Hh Hl. unfold ones_sum. destruct (Z.eqb_spec (hi * 65536 + lo) 0), (Z.eqb_spec (hi + lo) 0); try lia.
  f_equal. replace (hi * 65536 + lo - 1) with (hi + lo - 1 + hi * 65535) by lia. by rewrite Z.mod_add by lia.
Qed.

Lemma split_16 t : 0 <= t -> t = Z.shiftr t 16 * 65536 + Z.land t 65535 /\ 0 <= Z.land t 65535 < 65536 /\ 0 <= Z.shiftr t 16.
Proof.
  intros Ht. rewrite Z.shiftr_div_pow2 by lia. change 65535 with (Z.ones 16). rewrite Z.land_ones by lia.
  change (2 ^ 16) with 65536. pose proof (Z.div_mod t 65536). pose proof (Z.mod_pos_bound t 65536).
  pose proof (Z.div_pos t 65536). lia.
Qed.

Lemma lnot_word s : 0 <= s < 65536 -> u16 (Z.lnot s) = 65535 - s.
Proof.
  intros Hs. unfold Z.lnot, wrap. symmetry. apply (Z.mod_unique _ _ (-1)); [left|]; change (2 ^ 16) with 65536; lia.
Qed.

(** ** The IPv4 header *)

Lemma add_words_total n buf sum : Forall is_word buf -> (n <= length buf)%nat -> 0 <= sum -> sum + total (take n buf) < 2 ^ 64 ->
  add_words n buf sum = Ok (sum + total (take n buf)).
Proof.
  revert buf sum. induction n as [|n IH]; intros buf sum Hb Hn Hs Hlt; simpl; [f_equal; unfold total; simpl; lia|].
  destruct buf as [|w buf]; [simpl in Hn; lia|]. apply Forall_cons in Hb as [Hw Hb]. cbn [length] in Hn.
  assert (total (take (S n) (w :: buf)) = w + total (take n buf)) as E by done. rewrite E in *. unfold is_word in Hw.
  pose proof (total_bound (take n buf) (Forall_take _ _ _ Hb)) as Ht.
  rewrite wrap_small by lia. rewrite IH by (done || lia). f_equal. lia.
Qed.

Lemma ip_checksum_total buf n : Forall is_word buf -> (n <= length buf)%nat -> Z.of_nat n <= 65536 ->
  compute_ip_checksum buf n = Ok (checksum (total (take n buf))).
Proof.
  intros Hb Hn Hn2. unfold compute_ip_checksum. pose proof (total_bound _ (Forall_take _ n _ Hb)) as Ht.
  rewrite length_take in Ht. set (t := total (take n buf)) in *.
  rewrite add_words_total; try done; fold t; [|lia]. cbv beta iota zeta delta [mbind res_bind]. rewrite Z.add_0_l. f_equal.
  destruct (split_16 t) as (E & Hlo & Hhi); [lia|]. set (hi := Z.shiftr t 16) in *. set (lo := Z.land t 65535) in *.
  rewrite (wrap_small 64 (hi + lo)) by lia. destruct (split_16 (hi + lo)) as (E2 & Hlo2 & Hhi2); [lia|].
  assert (ones_sum t = ones_sum (hi + lo)) as Eo by (rewrite E; apply ones_sum_fold; lia).
  assert (hi <= 65535) by lia. set (c := Z.shiftr (hi + lo) 16) in *. set (d := Z.land (hi + lo) 65535) in *.
  assert (c = 0 \/ c = 1) as [Hc|Hc] by lia; rewrite Hc.
  - rewrite Z.add_0_r, (wrap_small 64) by lia. rewrite lnot_word by lia. unfold checksum. rewrite Eo, ones_sum_small; lia.
  - rewrite (wrap_small 64) by lia. unfold checksum. rewrite Eo.
    assert (u16 (Z.lnot (hi + lo + 1)) = u16 (Z.lnot (d + 1))) as ->.
    { unfold wrap, Z.lnot. replace (Z.pred (- (hi + lo + 1))) with (Z.pred (- (d + 1)) + -1 * 2 ^ 16) by (change (2 ^ 16) with 65536; lia).
      by rewrite Z.mod_add by done. }
    rewrite lnot_word by lia. rewrite E2, Hc, ones_sum_fold by lia. rewrite ones_sum_small; lia.
Qed.

(** ** The other sums *)

Lemma fold_sum_done fuel t : 0 <= t < 65536 -> fold_sum fuel t = Ok (ones_sum t).
Proof.
  intros Ht. assert (Z.shiftr t 16 = 0) as E by (rewrite Z.shiftr_div_pow2 by lia; by apply Z.div_small).
  destruct fuel; unfold fold_sum; rewrite E, ones_sum_small by lia; done.
Qed.

(** One more round of folding. *)
Lemma fold_sum_round fuel B B' : B' < 2 ^ 64 -> 65535 + B' / 65536 <= B ->
  (forall t, 0 <= t <= B -> fold_sum fuel t = Ok (ones_sum t)) -> forall t, 0 <= t <= B' -> fold_sum (S fuel) t = Ok (ones_sum t).
Proof.
  intros HB' HB H t Ht. destruct (split_16 t) as (E & Hlo & Hhi); [lia|]. cbn [fold_sum].
  set (hi := Z.shiftr t 16) in *. set (lo := Z.land t 65535) in *. destruct (Z.eqb_spec hi 0) as [H0|H0].
  - rewrite ones_sum_small by lia. done.
  - assert (hi <= B' / 65536) by (apply Z.div_le_lower_bound; lia). rewrite wrap_small by lia.
    rewrite H by lia. rewrite E, ones_sum_fold, Z.add_comm by lia. done.
Qed.

Lemma fold_sum_ok t : 0 <= t < 2 ^ 64 -> fold_sum fold_fuel t = Ok (ones_sum t).
Proof.
  intros Ht. assert (forall t, 0 <= t <= 65536 -> fold_sum 1 t = Ok (ones_sum t)) as H1.
  { intros u Hu. destruct (decide (u = 65536)) as [->|Hne]; [done|]. apply fold_sum_done. lia. }
  assert (forall t, 0 <= t <= 131071 -> fold_sum 2 t = Ok (ones_sum t)) as H2 by (apply (fold_sum_round 1 65536); done).
  assert (forall t, 0 <= t <= 2 ^ 32 + 65535 -> fold_sum 3 t = Ok (ones_sum t)) as H3 by (apply (fold_sum_round 2 131071); done).
  assert (forall t, 0 <= t <= 2 ^ 48 + 65534 -> fold_sum 4 t = Ok (ones_sum t)) as H4 by (apply (fold_sum_round 3 (2 ^ 32 + 65535)); done).
  apply (fold_sum_round 4 (2 ^ 48 + 65534) (2 ^ 64 - 1)); try done. lia.
Qed.

Lemma finish_ok t : 0 <= t < 2 ^ 64 -> finish t = Ok (checksum t).
Proof.
  intros Ht. unfold finish. rewrite fold_sum_ok by done. pose proof (ones_sum_range t) as Hr.
  cbv beta iota zeta delta [mbind res_bind]. destruct (decide (ones_sum t = 65536)); [lia|]. rewrite lnot_word by lia. done.
Qed.

Lemma word_range a b : is_byte a -> is_byte b -> is_word (word a b).
Proof. unfold is_byte, is_word, word. lia. Qed.

Lemma words_words l : Forall is_byte l -> Forall is_word (words l).
Proof.
  revert l. fix IH 1. intros [|a [|b l]] H; simpl; constructor; inv H; try (inv H3); try done.
  - apply word_range; done.
  - apply word_range; done.
  - by apply IH.
Qed.

Lemma total_words_bound l : Forall is_byte l -> 0 <= total (words l) <= 65535 * Z.of_nat (length l).
Proof.
  intros H. pose proof (total_bound _ (words_words l H)) as Ht.
  assert (length (words l) <= length l)%nat; [|lia]. clear. revert l. fix IH 1. intros [|a [|b l]]; simpl; try lia. specialize (IH l). lia.
Qed.

(** The bytes of a payload, the last one padded. *)
Lemma add_payload_ok len p sum : Forall is_byte p -> (len + len mod 2 <= length p)%nat -> 0 <= sum -> sum + 65535 * Z.of_nat len < 2 ^ 64 ->
  exists q sum', add_payload len p sum = Ok ((len mod 2)%nat, q, sum') /\
    add_rest (len mod 2) q sum' = Ok (sum + total (words (take len p))) /\
    ((len mod 2 = 0)%nat -> sum' = sum + total (words (take len p))).
Proof.
  revert p sum. induction len as [len IH] using lt_wf_ind; intros p sum Hp Hl Hs Hlt. destruct len as [|[|len]].
  - exists p, sum. split; [done|]. simpl. unfold total. simpl. split; [f_equal; lia|lia].
  - destruct p as [|a [|b p]]; [simpl in Hl; lia..|]. exists (a :: b :: p), sum. split; [done|].
    inv Hp. inv H2. unfold is_byte in *. split; [|done]. change ((1 mod 2)%nat) with 1%nat. cbv beta iota delta [add_rest].
    change (ntohs 65280) with 255.
    rewrite land_255. unfold word. replace ((a + 256 * b) mod 256) with a by (apply (Z.mod_unique _ _ b); lia).
    rewrite wrap_small by lia. f_equal. cbn [take words total foldr]. unfold word. lia.
  - assert ((S (S len)) mod 2 = len mod 2)%nat as E by (replace (S (S len)) with (len + 1 * 2)%nat by lia; by rewrite Nat.Div0.mod_add).
    rewrite E in *. destruct p as [|a [|b p]]; [simpl in Hl; lia..|]. inv Hp. inv H2. cbn [length] in Hl.
    pose proof (word_range a b ltac:(done) ltac:(done)) as Hw. unfold is_word in Hw. cbn [add_payload]. rewrite wrap_small by lia.
    destruct (IH len ltac:(lia) p (sum + word a b)) as (q & sum' & -> & Hr & He); [done|lia..|]. exists q, sum'.
    cbn [take words total foldr]. split; [done|]. fold (total (words (take len p))). split; [rewrite Hr; f_equal; lia|]. intros H0. rewrite He by done. lia.
Qed.

Lemma add_address_ok addr sum : 0 <= addr < 2 ^ 32 -> 0 <= sum < 2 ^ 62 -> exists d, add_address addr sum = sum + d /\ 0 <= d < 131072 /\ d = Z.shiftr addr 16 + Z.land addr 65535.
Proof.
  intros Ha Hs. destruct (split_16 addr) as (E & Hlo & Hhi); [lia|]. unfold add_address. set (hi := Z.shiftr addr 16) in *.
  assert (hi < 65536) by lia. assert (Z.land hi 65535 = hi) as -> by (change 65535 with (Z.ones 16); rewrite Z.land_ones by lia; apply Z.mod_small; lia).
  rewrite (wrap_small 64 (sum + hi)) by lia. rewrite wrap_small by lia. exists (hi + Z.land addr 65535). split_and!; lia.
Qed.

(** The words of the pseudo header. *)
Definition address_sum (addr : Z) : Z := Z.shiftr addr 16 + Z.land addr 65535.
Definition pseudo (saddr daddr protocol len : Z) : Z := address_sum saddr + address_sum daddr + ntohs protocol + ntohs len.

Lemma ntohs_range x : 0 <= ntohs x < 65536.
Proof.
  unfold ntohs. rewrite !land_255. rewrite lor_shiftl_add; try lia; [|apply Z.mod_pos_bound; lia].
  pose proof (Z.mod_pos_bound x 256). pose proof (Z.mod_pos_bound (Z.shiftr x 8) 256). change (2 ^ 8) with 256. lia.
Qed.

Lemma ntohs_invol x : 0 <= x < 65536 -> ntohs (ntohs x) = x.
Proof.
  intros Hx. pose proof (Z.mod_pos_bound x 256). assert (0 <= x / 256 < 256) by (split; [apply Z.div_pos; lia|apply Z.div_lt_upper_bound; lia]).
  pose proof (Z.div_mod x 256 ltac:(lia)) as E. rewrite E, (Z.add_comm (256 * _)). rewrite ntohs_swap by lia.
  replace (x mod 256 * 256 + x / 256) with (x / 256 + 256 * (x mod 256)) by lia. rewrite ntohs_swap by lia. lia.
Qed.

Lemma pseudo_sum saddr daddr protocol len : 0 <= saddr < 2 ^ 32 -> 0 <= daddr < 2 ^ 32 ->
  u64 (u64 (add_address daddr (add_address saddr 0) + ntohs protocol) + ntohs len) = pseudo saddr daddr protocol len /\
  0 <= pseudo saddr daddr protocol len < 2 ^ 20.
Proof.
  intros Hs Hd. destruct (add_address_ok saddr 0) as (a & -> & Ha & Ea); [done|lia|].
  destruct (add_address_ok daddr (0 + a)) as (b & -> & Hb & Eb); [done|lia|].
  pose proof (ntohs_range protocol). pose proof (ntohs_range len). unfold pseudo, address_sum. rewrite <- Ea, <- Eb.
  rewrite (wrap_small 64 (0 + a + b + ntohs protocol)) by lia. rewrite wrap_small by lia. lia.
Qed.

(** The length of the segment as the header has it. *)
Definition tcp_len (tot_len ihl : Z) : Z := u16 (ntohs tot_len - Z.shiftl ihl 2).

Lemma tcp_checksum_total saddr daddr tot_len ihl p : 0 <= saddr < 2 ^ 32 -> 0 <= daddr < 2 ^ 32 -> Forall is_byte p ->
  let n := Z.to_nat (tcp_len tot_len ihl) in (n + n mod 2 <= length p)%nat ->
  compute_tcp_checksum saddr daddr tot_len ihl p =
  Ok (checksum (pseudo saddr daddr IPPROTO_TCP (tcp_len tot_len ihl) + total (words (take n p)))).
Proof.
  intros Hs Hd Hp n Hn. unfold compute_tcp_checksum. fold (tcp_len tot_len ihl).
  destruct (pseudo_sum saddr daddr IPPROTO_TCP (tcp_len tot_len ihl) Hs Hd) as [-> Hb]. fold n.
  assert (0 <= Z.of_nat n < 65536) as Hr.
  { subst n. unfold tcp_len. pose proof (wrap_range 16 (ntohs tot_len - Z.shiftl ihl 2)). lia. }
  destruct (add_payload_ok n p (pseudo saddr daddr IPPROTO_TCP (tcp_len tot_len ihl))) as (q & sum' & -> & Hrest & _); [done|done|lia|lia|].
  cbv beta iota zeta delta [mbind res_bind]. rewrite Hrest. apply finish_ok.
  pose proof (total_words_bound _ (Forall_take _ n _ Hp)). rewrite length_take in *. lia.
Qed.

(** ** Fragmented datagrams *)

Definition frag_words (f : list Z * Z) : Z := total (words (take (Z.to_nat f.2) f.1)).

(** What the loop needs of a fragment: it is in memory, it has at least two
    bytes, and an even number of them unless it is the last one. *)
Definition frag_ok (last : bool) (f : list Z * Z) : Prop :=
  Forall is_byte f.1 /\ 2 <= f.2 < 65536 /\ (Z.to_nat f.2 + Z.to_nat f.2 mod 2 <= length f.1)%nat /\ (last = false -> f.2 mod 2 = 0).

Fixpoint frags_ok (l : list (list Z * Z)) : Prop :=
  match l with
  | [] => True
  | f :: l => frag_ok (bool_decide (l = [])) f /\ frags_ok l
  end.

Definition frags_len (l : list (list Z * Z)) : Z := total (snd <$> l).

Lemma frags_len_pos l : frags_ok l -> 0 <= frags_len l /\ (l <> [] -> 2 <= frags_len l).
Proof.
  induction l as [|f l IH]; [done|]. intros [(_ & H & _) Hl]. destruct (IH Hl) as [? _].
  assert (frags_len (f :: l) = f.2 + frags_len l) as -> by done. split; intros; lia.
Qed.

(** The next fragment is the current one. *)
Lemma add_fragments_next fuel u b len l q flen sum : 1 < u -> 0 < len < 65536 ->
  add_fragments (S fuel) u ((b, len) :: l) q flen 0 sum = add_fragments (S fuel) u l b len len sum.
Proof.
  intros Hu Hlen. cbn [add_fragments]. destruct (Z.leb_spec u 1); [lia|]. rewrite (wrap_small 16 len) by lia. cbn [Z.eqb].
  destruct l as [|[b' len'] l]; [done|]. destruct (Z.eqb_spec len 0); [lia|]. done.
Qed.

Lemma add_fragments_ok l f sum : frags_ok (f :: l) -> frags_len (f :: l) < 65536 -> 0 <= sum -> sum + 65535 * frags_len (f :: l) < 2 ^ 64 ->
  forall fuel, (length l < fuel)%nat ->
  (x ← add_fragments fuel (frags_len (f :: l)) l f.1 f.2 f.2 sum; add_rest (Z.to_nat x.1.1) x.1.2 x.2) =
  Ok (sum + total (frag_words <$> f :: l)).
Proof.
  revert f sum. induction l as [|g l IH]; intros [p len] sum [Hf Hl] Hlt Hs Hsum fuel Hfuel; (destruct fuel as [|fuel]; [simpl in Hfuel; lia|]);
    destruct Hf as (Hp & Hlen & Hmem & Heven); cbn [fst snd] in *; cbn [add_fragments].
  - assert (frags_len [(p, len)] = len) as E by (unfold frags_len, total; simpl; lia). rewrite E in *.
    destruct (Z.leb_spec len 1); [lia|].
    destruct (add_payload_ok (Z.to_nat len) p sum) as (q & sum' & -> & Hrest & _); [done..|lia|].
    bind_ret.
    assert (u16 (len - (len - Z.of_nat (Z.to_nat len mod 2))) = Z.of_nat (Z.to_nat len mod 2)) as ->.
    { pose proof (Nat.mod_upper_bound (Z.to_nat len) 2). rewrite wrap_small; lia. }
    pose proof (Nat.mod_upper_bound (Z.to_nat len) 2).
    assert (add_fragments fuel (Z.of_nat (Z.to_nat len mod 2)) [] q len (Z.of_nat (Z.to_nat len mod 2)) sum' =
      Ok (Z.of_nat (Z.to_nat len mod 2), q, sum')) as ->.
    { destruct fuel; cbn [add_fragments]; (destruct (Z.leb_spec (Z.of_nat (Z.to_nat len mod 2)) 1); [done|lia]). }
    bind_ret. rewrite Nat2Z.id, Hrest. f_equal. cbn [fmap list_fmap total foldr]. unfold frag_words. cbn [fst snd]. lia.
  - pose proof (frags_len_pos (g :: l) Hl) as [_ Hpos]. specialize (Hpos ltac:(done)).
    assert (frags_len ((p, len) :: g :: l) = len + frags_len (g :: l)) as E by done. rewrite E in *.
    destruct (Z.leb_spec (len + frags_len (g :: l)) 1); [lia|].
    assert ((Z.to_nat len mod 2 = 0)%nat) as Hev.
    { apply Nat2Z.inj. rewrite Nat2Z.inj_mod, Z2Nat.id by lia. apply Heven. by apply bool_decide_false. }
    destruct g as [b glen]. destruct (Z.eqb_spec len 0); [lia|].
    destruct (add_payload_ok (Z.to_nat len) p sum) as (q & sum' & -> & _ & Hsum'); [done|lia|lia|lia|]. rewrite Hev.
    bind_ret.
    rewrite Z.sub_0_r. replace (len + frags_len ((b, glen) :: l) - len) with (frags_len ((b, glen) :: l)) by lia. rewrite wrap_small by lia.
    pose proof (total_words_bound _ (Forall_take _ (Z.to_nat len) _ Hp)) as Hb. rewrite length_take in Hb.
    destruct fuel as [|fuel]; [simpl in Hfuel; lia|]. destruct Hl as [Hg Hl]. pose proof Hg as (_ & Hglen & _). cbn [fst snd] in Hglen.
    rewrite add_fragments_next by lia. rewrite Hsum' by done.
    etrans; [apply (IH (b, glen) (sum + frag_words (p, len))); [done|lia|unfold frag_words; cbn [fst snd]; lia..|simpl in Hfuel; lia]|].
    f_equal. change (total (frag_words <$> (p, len) :: (b, glen) :: l)) with (frag_words (p, len) + total (frag_words <$> (b, glen) :: l)). lia.
Qed.

Lemma frag_words_bound l : frags_ok l -> 0 <= total (frag_words <$> l) <= 65535 * frags_len l.
Proof.
  induction l as [|f l IH]; [done|]. intros [(Hp & Hlen & Hmem & _) Hl]. specialize (IH Hl).
  assert (frags_len (f :: l) = f.2 + frags_len l) as -> by done.
  assert (total (frag_words <$> f :: l) = frag_words f + total (frag_words <$> l)) as -> by done.
  pose proof (total_words_bound _ (Forall_take _ (Z.to_nat f.2) _ Hp)) as Hb. rewrite length_take in Hb.
  unfold frag_words at 1 3. lia.
Qed.

Lemma udp_checksum_total fuel saddr daddr udphdr_len p iov_len rest : 0 <= saddr < 2 ^ 32 -> 0 <= daddr < 2 ^ 32 -> 0 <= udphdr_len < 65536 ->
  let frags := (p, iov_len + 8) :: rest in frags_ok frags -> ntohs udphdr_len = frags_len frags -> (length rest < fuel)%nat ->
  compute_udp_checksum_rx fuel saddr daddr udphdr_len p iov_len rest =
  Ok (checksum (pseudo saddr daddr IPPROTO_UDP (ntohs udphdr_len) + total (frag_words <$> frags))).
Proof.
  intros Hs Hd Hu frags Hf Hlen Hfuel. unfold compute_udp_checksum_rx.
  destruct (pseudo_sum saddr daddr IPPROTO_UDP (ntohs udphdr_len) Hs Hd) as [Eq Hb]. rewrite (ntohs_invol udphdr_len) in Eq by lia. rewrite Eq.
  pose proof Hf as [(_ & Hfl & _) _]. cbn [fst snd] in Hfl. rewrite (wrap_small 16 (iov_len + 8)) by lia.
  pose proof (ntohs_range udphdr_len) as Hr. rewrite Hlen in Hr.
  pose proof (add_fragments_ok rest (p, iov_len + 8) (pseudo saddr daddr IPPROTO_UDP (ntohs udphdr_len)) Hf) as H.
  specialize (H ltac:(fold frags; lia) ltac:(lia) ltac:(fold frags; lia) fuel Hfuel). fold frags in H. rewrite <- Hlen in H. cbn [fst snd] in H.
  apply bind_Ok in H as ([[udp_len q] sum] & -> & Hrest). cbn [fst snd] in Hrest. bind_ret. rewrite Hrest. bind_ret. apply finish_ok.
  pose proof (frag_words_bound frags Hf). lia.
Qed.

(** ** Zero checksums and byte order *)

Lemma checksum_zero t : 0 <= t -> checksum t = 0 <-> t <> 0 /\ t mod 65535 = 0.
Proof.
  intros Ht. unfold checksum, ones_sum. destruct (Z.eqb_spec t 0) as [->|Hne]; [split; [lia|intros [? _]; lia]|].
  pose proof (Z.mod_pos_bound (t - 1) 65535 ltac:(lia)) as Hb. pose proof (Z.div_mod (t - 1) 65535 ltac:(lia)) as E. split.
  - intros H. split; [done|]. replace t with ((t - 1) / 65535 * 65535 + 65535) by lia.
    rewrite Z.add_comm, Z.mod_add by lia. done.
  - intros [_ H]. apply Z.mod_divide in H as [q Hq]; [|lia].
    assert ((t - 1) mod 65535 = 65534) as ->; [|lia]. symmetry. apply (Z.mod_unique _ _ (q - 1)); lia.
Qed.

(** Adding the checksum makes the sum a multiple of 65535. *)
Lemma checksum_completes t : 0 < t -> checksum (t + checksum t) = 0 /\ 0 <= checksum t < 65535.
Proof.
  intros Ht. assert (0 <= checksum t < 65535) as Hr.
  { unfold checksum, ones_sum. destruct (Z.eqb_spec t 0); [lia|]. pose proof (Z.mod_pos_bound (t - 1) 65535). lia. }
  split; [|done]. apply checksum_zero; [lia|]. split; [lia|]. unfold checksum, ones_sum. destruct (Z.eqb_spec t 0); [lia|].
  pose proof (Z.div_mod (t - 1) 65535 ltac:(lia)) as E.
  replace (t + (65535 - ((t - 1) mod 65535 + 1))) with (((t - 1) / 65535 + 1) * 65535) by lia. by apply Z.mod_mul.
Qed.

Lemma ntohs_word a b : is_byte a -> is_byte b -> ntohs (word a b) = word b a.
Proof. intros Ha Hb. unfold word. rewrite ntohs_swap by done. lia. Qed.

Lemma be_words_total l : Forall is_byte l -> exists q, total (be_words l) = 256 * total (words l) - 65535 * q /\ 0 <= q /\
  (total (be_words l) = 0 <-> total (words l) = 0) /\ 0 <= total (be_words l).
Proof.
  revert l. fix IH 1. intros [|a [|b l]] Hl.
  - exists 0. done.
  - apply Forall_cons in Hl as [Hl _]. exists 0. unfold is_byte in Hl. unfold total. cbn [be_words words foldr]. unfold word. lia.
  - apply Forall_cons in Hl as [Ha Hl]. apply Forall_cons in Hl as [Hb Hl]. destruct (IH l Hl) as (q & E & Hq & Hz & Hp).
    pose proof (total_words_bound l Hl) as Hw.
    assert (total (be_words (a :: b :: l)) = word b a + total (be_words l)) as -> by done.
    assert (total (words (a :: b :: l)) = word a b + total (words l)) as -> by done.
    exists (q + b). unfold is_byte, word in *. lia.
Qed.

Lemma ones_sum_swap t t' q : 0 <= t -> 0 <= t' -> t' = 256 * t - 65535 * q -> (t' = 0 <-> t = 0) -> ones_sum t' = ntohs (ones_sum t).
Proof.
  intros Ht Ht' E Hz. unfold ones_sum. destruct (Z.eqb_spec t 0) as [H0|H0], (Z.eqb_spec t' 0) as [H1|H1]; try lia; [done|].
  pose proof (Z.mod_pos_bound (t - 1) 65535 ltac:(lia)) as Hm. pose proof (Z.div_mod (t - 1) 65535 ltac:(lia)) as Ed.
  set (s := (t - 1) mod 65535 + 1) in *. pose proof (Z.mod_pos_bound s 256 ltac:(lia)) as Hl. pose proof (Z.div_mod s 256 ltac:(lia)) as Es.
  assert (0 <= s / 256 < 256) as Hh by (split; [apply Z.div_pos; lia|apply Z.div_lt_upper_bound; lia]).
  assert (ntohs s = s mod 256 * 256 + s / 256) as ->.
  { rewrite Es at 1. rewrite (Z.add_comm (256 * _)). apply ntohs_swap; lia. }
  assert ((t' - 1) mod 65535 = s mod 256 * 256 + s / 256 - 1) as ->; [|lia].
  symmetry. apply (Z.mod_unique _ _ (256 * ((t - 1) / 65535) + s / 256 - q)); lia.
Qed.

Lemma checksum_swap l : Forall is_byte l -> ntohs (checksum (total (words l))) = checksum (total (be_words l)).
Proof.
  intros Hl. destruct (be_words_total l Hl) as (q & E & _ & Hz & Hp). pose proof (total_words_bound l Hl) as Hw.
  unfold checksum. rewrite (ones_sum_swap (total (words l)) (total (be_words l)) q) by (done || lia).
  pose proof (ones_sum_range (total (words l))) as Hr. set (s := ones_sum (total (words l))) in *.
  pose proof (Z.mod_pos_bound s 256 ltac:(lia)) as Hm. pose proof (Z.div_mod s 256 ltac:(lia)) as Es.
  assert (0 <= s / 256 < 256) as Hh by (split; [apply Z.div_pos; lia|apply Z.div_lt_upper_bound; lia]).
  assert (ntohs s = s mod 256 * 256 + s / 256) as ->.
  { rewrite Es at 1. rewrite (Z.add_comm (256 * _)). apply ntohs_swap; lia. }
  replace (65535 - s) with ((255 - s mod 256) + 256 * (255 - s / 256)) by lia. rewrite ntohs_swap by lia. lia.
Qed.

Lemma words_app l l' : (length l mod 2 = 0)%nat -> words (l ++ l') = words l ++ words l'.
Proof.
  revert l. fix IH 1. intros [|a [|b l]] H; [done|done|]. cbn [app words]. f_equal. apply IH.
  replace (length (a :: b :: l)) with (length l + 1 * 2)%nat in H by (cbn [length]; lia). by rewrite Nat.Div0.mod_add in H.
Qed.

(** The fragments as one datagram. *)
Definition datagram (l : list (list Z * Z)) : list Z := mjoin ((fun f => take (Z.to_nat f.2) f.1) <$> l).

Lemma datagram_words l : frags_ok l -> total (frag_words <$> l) = total (words (datagram l)).
Proof.
  induction l as [|f l IH]; [done|]. intros [(Hp & Hlen & Hmem & Heven) Hl]. specialize (IH Hl).
  assert (total (frag_words <$> f :: l) = frag_words f + total (frag_words <$> l)) as -> by done. rewrite IH.
  change (datagram (f :: l)) with (take (Z.to_nat f.2) f.1 ++ datagram l). unfold frag_words. destruct (decide (l = [])) as [->|Hne].
  - unfold datagram. simpl. rewrite app_nil_r. unfold total. simpl. lia.
  - rewrite words_app, total_app; [done|]. rewrite length_take, min_l by lia. apply Nat2Z.inj. rewrite Nat2Z.inj_mod, Z2Nat.id by lia.
    apply Heven. by apply bool_decide_false.
Qed.

(** ** Theorems *)

(** C33: A header of up to 65536 words whose checksum field is zero gets a
    checksum with which the receiver's test gives zero; conversely, after a
    test that gave zero, changing one word makes it fail, unless 0 becomes
    65535 or the reverse. *)
Theorem ip_checksum_verifies pre post w w' : Forall is_word (pre ++ post) -> is_word w -> is_word w' ->
  let n := length (pre ++ 0 :: post) in Z.of_nat n <= 65536 -> total (pre ++ post) <> 0 ->
  (exists c, compute_ip_checksum (pre ++ 0 :: post) n = Ok c /\ is_word c /\ compute_ip_checksum (pre ++ c :: post) n = Ok 0) /\
  (compute_ip_checksum (pre ++ w :: post) n = Ok 0 -> (w - w') mod 65535 <> 0 ->
   exists c', compute_ip_checksum (pre ++ w' :: post) n = Ok c' /\ c' <> 0).
Proof.
  intros Hl Hw Hw' n Hn Hne.
  assert (forall x, is_word x -> compute_ip_checksum (pre ++ x :: post) n = Ok (checksum (total (pre ++ post) + x))) as H.
  { intros x Hx. rewrite ip_checksum_total; [| |subst n; rewrite !length_app; simpl; lia|done].
    - do 2 f_equal. rewrite take_ge by (subst n; rewrite !length_app; simpl; lia). rewrite !total_app. cbn [total foldr]. unfold total. lia.
    - apply Forall_app in Hl as [? ?]. apply Forall_app. split; [done|]. by constructor. }
  pose proof (total_bound _ Hl) as Hb. split.
  - destruct (checksum_completes (total (pre ++ post))) as [Hz Hr]; [lia|].
    exists (checksum (total (pre ++ post))). rewrite !H by (unfold is_word in *; lia). rewrite Z.add_0_r. split; [done|]. unfold is_word. split; [lia|by f_equal].
  - rewrite !H by done. unfold is_word in *. intros [= Hc] Hm. eexists. split; [done|]. intros Hc'.
    apply checksum_zero in Hc as [_ Hc]; [|lia]. apply checksum_zero in Hc' as [_ Hc']; [|lia]. apply Hm.
    apply Z.mod_divide in Hc as [a Ha]; [|lia]. apply Z.mod_divide in Hc' as [b Hb']; [|lia].
    replace (w - w') with ((a - b) * 65535) by lia. by apply Z.mod_mul.
Qed.

(** C21: The software checksum of a received datagram is computed fragment by
    fragment; when the fragments have at least two bytes each, an even number
    except for the last one, and together as many as the UDP header says, it
    is the checksum of the pseudo header and of the whole datagram, as if it
    had come in one piece, and in network byte order it is the one that the
    big-endian words give. *)
Theorem udp_checksum_fragments fuel saddr daddr udphdr_len p iov_len rest : 0 <= saddr < 2 ^ 32 -> 0 <= daddr < 2 ^ 32 ->
  0 <= udphdr_len < 65536 -> let frags := (p, iov_len + 8) :: rest in
  frags_ok frags -> ntohs udphdr_len = frags_len frags -> (length rest < fuel)%nat ->
  compute_udp_checksum_rx fuel saddr daddr udphdr_len p iov_len rest =
    Ok (checksum (pseudo saddr daddr IPPROTO_UDP (ntohs udphdr_len) + total (words (datagram frags)))) /\
  (Forall is_byte (datagram frags) -> ntohs (checksum (total (words (datagram frags)))) = checksum (total (be_words (datagram frags)))).
Proof.
  intros Hs Hd Hu frags Hf Hlen Hfuel. split; [|apply checksum_swap].
  rewrite udp_checksum_total by done. by rewrite datagram_words by done.
Qed.

Lemma wrap_mod4 u f : f mod 4 = 0 -> u16 (u - f) mod 4 = u mod 4.
Proof.
  intros Hf. unfold wrap. change (2 ^ 16) with (4 * 16384). rewrite Z.rem_mul_r by lia.
  rewrite (Z.mul_comm 4), Z.mod_add, Z.mod_mod by lia. by rewrite Zminus_mod, Hf, Z.sub_0_r, Z.mod_mod by lia.
Qed.

Lemma add_fragments_hangs fuel u p flen sum : 0 <= u -> 2 <= u mod 4 -> flen mod 4 = 0 -> add_fragments fuel u [] p flen 0 sum = NoFuel.
Proof.
  revert u. induction fuel as [|fuel IH]; intros u Hu Hm Hf; cbn [add_fragments];
    (destruct (Z.leb_spec u 1); [rewrite Z.mod_small in Hm by lia; lia|]); [done|].
  change (add_payload (Z.to_nat 0) p sum) with (Ok (0%nat, p, sum)). bind_ret.
  apply IH; [apply wrap_range; lia| |done]. by rewrite Z.sub_0_r, wrap_mod4.
Qed.

(** The loop over the fragments does not end for a datagram in one piece
    whose IP payload is a multiple of four bytes and whose UDP header gives a
    length that is two or three more than a multiple of four: the length that
    is left wraps around and never gets to zero or one.  Any length that
    disagrees with the payload in this way has this effect. *)
Theorem udp_checksum_hangs fuel saddr daddr udphdr_len p iov_len : 0 <= saddr < 2 ^ 32 -> 0 <= daddr < 2 ^ 32 -> 0 <= udphdr_len < 65536 ->
  Forall is_byte p -> 0 <= iov_len -> iov_len + 8 < 65536 -> iov_len + 8 <= Z.of_nat (length p) ->
  (iov_len + 8) mod 4 = 0 -> 2 <= ntohs udphdr_len mod 4 ->
  compute_udp_checksum_rx fuel saddr daddr udphdr_len p iov_len [] = NoFuel.
Proof.
  intros Hs Hd Hu Hp Hi Hlt Hmem H4 Hm. unfold compute_udp_checksum_rx.
  destruct (pseudo_sum saddr daddr IPPROTO_UDP (ntohs udphdr_len) Hs Hd) as [Eq Hb]. rewrite (ntohs_invol udphdr_len) in Eq by lia. rewrite Eq.
  rewrite (wrap_small 16 (iov_len + 8)) by lia. pose proof (ntohs_range udphdr_len) as Hr.
  assert ((Z.to_nat (iov_len + 8) mod 2 = 0)%nat) as Hev.
  { apply Nat2Z.inj. rewrite Nat2Z.inj_mod, Z2Nat.id by lia. apply Z.mod_divide in H4 as [k ->]; [|lia].
    replace (k * 4) with (k * 2 * 2) by lia. by apply Z.mod_mul. }
  destruct fuel as [|fuel]; cbn [add_fragments]; (destruct (Z.leb_spec (ntohs udphdr_len) 1); [rewrite Z.mod_small in Hm by lia; lia|]); [done|].
  destruct (add_payload_ok (Z.to_nat (iov_len + 8)) p (pseudo saddr daddr IPPROTO_UDP (ntohs udphdr_len))) as (q & sum' & -> & _); [done|lia|lia|lia|].
  bind_ret. rewrite Hev, Z.sub_0_r. rewrite add_fragments_hangs; [done|apply wrap_range; lia| |done]. by rewrite wrap_mod4.
Qed.

Module ChecksumExample.

Ltac concrete := repeat (apply Forall_cons; split; [by vm_compute|]); by apply Forall_nil.

Lemma ip_checksum_verifies_witness : exists c, compute_ip_checksum [69; 0; 17] 3 = Ok c /\ compute_ip_checksum [69; c; 17] 3 = Ok 0.
Proof.
  destruct (ip_checksum_verifies [69] [17] 0 0) as [(c & H1 & _ & H2) _]; [concrete|by vm_compute..|]. eauto.
Defined.

(** A header and two bytes, then three bytes. *)
Definition first_frag : list Z := [0; 7; 0; 9; 0; 13; 0; 0; 1; 2].
Definition last_frag : list Z := [3; 4; 5; 0].

Lemma udp_checksum_fragments_witness : compute_udp_checksum_rx 2 10 20 (ntohs 13) first_frag 2 [(last_frag, 3)] =
  Ok (checksum (pseudo 10 20 IPPROTO_UDP 13 + total (words (first_frag ++ [3; 4; 5])))).
Proof.
  apply (udp_checksum_fragments 2 10 20 (ntohs 13) first_frag 2 [(last_frag, 3)]); [by vm_compute..| |done|simpl; lia].
  split; [|split; [|done]]; (split; [concrete|by vm_compute]).
Defined.

Lemma udp_checksum_hangs_witness : compute_udp_checksum_rx 1000 10 20 (ntohs 10) (first_frag ++ [0; 0]) 4 [] = NoFuel.
Proof. apply udp_checksum_hangs; try (by vm_compute). concrete. Defined.

(** A last fragment of one byte is not read: the byte after the previous
    fragment is added in its place. *)
Lemma udp_checksum_last_byte :
  compute_udp_checksum_rx 2 10 20 (ntohs 11) (first_frag ++ [77; 0]) 2 [([3; 0], 1)] <>
  compute_udp_checksum_rx 2 10 20 (ntohs 11) (first_frag ++ [3; 0]) 3 [].
Proof. by vm_compute. Qed.

End ChecksumExample.
