(* ===== verification/FlowSteering.v ===== *)
(** * Flow steering (src/vma/dev/rfs.cpp, rfs_uc.cpp, rfs_mc.cpp and the
      attachment of flows in ring_simple.cpp)

    A ring keeps, for each flow that its sockets asked for, an object [rfs]
    with the list of the sockets (sinks) of that flow and the rule of the
    adapter that brings its packets to the ring.  Some flows share one rule: a
    filter counts them, and the rule lives as long as the count is not zero.

    The three hash maps of the ring are one map here, with the kind of flow in
    its key (the refinement of [HashMap] says that each behaves as a map), and
    so are the two maps of filters.  The adapter is the set of its live rules;
    whether a rule can be created is an oracle.  Destroying a rule that does
    not live is [Undef]. *)

From S2P Require Import Prelude CacheTable.

Abbreviation sink := Z (only parsing).

Definition PROTO_UDP : Z := 1.
Definition PROTO_TCP : Z := 2.
Definition FLOW_TAG_MASK : Z := Z.shiftl 1 20 - 1.
Definition RFS_SINKS_LIST_DEFAULT_LEN : nat := 32.

(** ** Flows and their keys *)

Record flow_tuple := FlowTuple {
  m_dst_ip : Z;
  m_dst_port : Z;
  m_src_ip : Z;
  m_src_port : Z;
  m_protocol : Z
}.

#[global] Instance flow_tuple_eq_dec : EqDecision flow_tuple.
Proof. solve_decision. Defined.

Definition is_tcp (t : flow_tuple) : bool := m_protocol t =? PROTO_TCP.
Definition is_udp_uc (t : flow_tuple) : bool := (m_protocol t =? PROTO_UDP) && negb (NeighTable.IN_MULTICAST_N (m_dst_ip t)).
Definition is_udp_mc (t : flow_tuple) : bool := (m_protocol t =? PROTO_UDP) && NeighTable.IN_MULTICAST_N (m_dst_ip t).
Definition is_5_tuple (t : flow_tuple) : bool := negb (m_src_ip t =? 0) && negb (m_src_port t =? 0).
Definition is_3_tuple (t : flow_tuple) : bool := (m_src_ip t =? 0) && (m_src_port t =? 0).

Inductive flow_key :=
| key_udp_uc (dst_port : Z)
| key_udp_mc (dst_ip dst_port : Z)
| key_tcp (src_ip dst_port src_port : Z).

#[global] Instance flow_key_eq_dec : EqDecision flow_key.
Proof. solve_decision. Defined.
#[global] Instance flow_key_countable : Countable flow_key.
Proof.
  apply (inj_countable'
    (fun k => match k with key_udp_uc a => inl (inl a) | key_udp_mc a b => inl (inr (a, b)) | key_tcp a b c => inr (a, b, c) end)
    (fun x => match x with inl (inl a) => key_udp_uc a | inl (inr (a, b)) => key_udp_mc a b | inr (a, b, c) => key_tcp a b c end)).
  by intros [].
Defined.

Inductive filter_key := l2_mc_ip (dst_ip : Z) | tcp_dst_port (dst_port : Z).

#[global] Instance filter_key_eq_dec : EqDecision filter_key.
Proof. solve_decision. Defined.
#[global] Instance filter_key_countable : Countable filter_key.
Proof.
  apply (inj_countable' (fun k => match k with l2_mc_ip a => inl a | tcp_dst_port a => inr a end)
    (fun x => match x with inl a => l2_mc_ip a | inr a => tcp_dst_port a end)).
  by intros [].
Defined.

(** ** Data *)

Record counter_and_ibv_flows := Counter { counter : Z; ibv_flows : list (option Z) }.
Abbreviation rule_filter_map_t := (gmap filter_key counter_and_ibv_flows).

(** The rules that live in the adapter, with the flow and the tag they were
    made from; rules are numbered in the order of the attempts. *)
Record adapter := Adapter { alive : gmap Z (flow_tuple * Z); next_flow : Z }.

Inductive rfs_class := rfs_uc | rfs_mc | rfs_uc_tcp_gro.

(** [attach_flow_data] is the member [ibv_flow] of each element of
    [m_attach_flow_data_vector]. *)
Record rfs := Rfs {
  class : rfs_class;
  m_flow_tuple : flow_tuple;
  m_p_rule_filter : option filter_key;
  attach_flow_data : list (option Z);
  m_sinks_list : list (option sink);
  m_n_sinks_list_entries : nat;
  m_flow_tag_id : Z;
  m_b_tmp_is_attached : bool
}.

Definition set_attached (b : bool) (f : rfs) : rfs :=
  Rfs (class f) (m_flow_tuple f) (m_p_rule_filter f) (attach_flow_data f) (m_sinks_list f) (m_n_sinks_list_entries f) (m_flow_tag_id f) b.
Definition set_flow_data (l : list (option Z)) (f : rfs) : rfs :=
  Rfs (class f) (m_flow_tuple f) (m_p_rule_filter f) l (m_sinks_list f) (m_n_sinks_list_entries f) (m_flow_tag_id f) (m_b_tmp_is_attached f).
Definition set_sinks (l : list (option sink)) (n : nat) (f : rfs) : rfs :=
  Rfs (class f) (m_flow_tuple f) (m_p_rule_filter f) (attach_flow_data f) l n (m_flow_tag_id f) (m_b_tmp_is_attached f).

(** What a socket remembers for the fast path. *)
Record sock_flags := SockFlags { sock_flow_tag_id : Z; sock_flow_tag_enabled : bool; m_tcp_flow_is_5t : bool }.

Record ring_simple := Ring {
  flow_map : gmap flow_key rfs;
  attach_map : rule_filter_map_t;
  hw : adapter;
  socks : gmap sink sock_flags
}.

Definition set_flow_map (m : gmap flow_key rfs) (r : ring_simple) : ring_simple := Ring m (attach_map r) (hw r) (socks r).
Definition set_attach_map (m : rule_filter_map_t) (r : ring_simple) : ring_simple := Ring (flow_map r) m (hw r) (socks r).
Definition set_hw (h : adapter) (r : ring_simple) : ring_simple := Ring (flow_map r) (attach_map r) h (socks r).
Definition set_socks (s : gmap sink sock_flags) (r : ring_simple) : ring_simple := Ring (flow_map r) (attach_map r) (hw r) s.

(** The parameters of the ring and of the adapter.  [ib_flow_spec] is the
    build option DEFINED_IBV_FLOW_SPEC_IB. *)
Record ring_cfg := RingCfg {
  m_transport_type : Z;
  underly_qpn : Z;
  m_b_sysvar_eth_mc_l2_only_rules : bool;
  m_b_sysvar_mc_force_flowtag : bool;
  tcp_3t_rules : bool;
  gro_streams_max : Z;
  m_flow_tag_enabled : bool;
  ib_flow_spec : bool;
  device_removed : bool;
  creates : Z -> bool
}.

Section Steering.
Context (cfg : ring_cfg) (get_fd : sink -> Z) (addr_in_reuse : sink -> bool) (uninitialised : option sink).

(** ** The list of sinks *)

Definition registered (p_sink : sink) (f : rfs) : bool :=
  bool_decide (Some p_sink ∈ take (m_n_sinks_list_entries f) (m_sinks_list f)).

(** A full array is replaced by one of twice its length, whose second half
    is not initialised. *)
Definition add_sink (p_sink : sink) (f : rfs) : rfs :=
  if registered p_sink f then f
  else
    let n := m_n_sinks_list_entries f in
    let l := if (n =? length (m_sinks_list f))%nat
             then m_sinks_list f ++ replicate (length (m_sinks_list f)) uninitialised else m_sinks_list f in
    set_sinks (<[n := Some p_sink]> l) (S n) f.

(** The loop that moves the sinks behind the removed one, [k] of them. *)
Fixpoint shift_sinks (k i : nat) (l : list (option sink)) : list (option sink) :=
  match k with
  | O => <[i := None]> l
  | S k => shift_sinks k (S i) (match l !! S i with Some x => <[i := x]> l | None => l end)
  end.

Definition del_sink (p_sink : sink) (f : rfs) : bool * rfs :=
  let n := m_n_sinks_list_entries f in
  match list_find (eq (Some p_sink)) (take n (m_sinks_list f)) with
  | Some (i, _) => (true, set_sinks (shift_sinks (n - 1 - i) i (m_sinks_list f)) (n - 1) f)
  | None => (false, f)
  end.

(** ** Rules of the adapter *)

Fixpoint create_flows (t : flow_tuple) (tag : Z) (l : list (option Z)) (h : adapter) : bool * list (option Z) * adapter :=
  match l with
  | [] => (true, [], h)
  | _ :: l =>
    let id := next_flow h in
    if creates cfg id then
      let '(ok, l, h) := create_flows t tag l (Adapter (<[id := (t, tag)]> (alive h)) (id + 1)) in
      (ok, Some id :: l, h)
    else (false, None :: l, Adapter (alive h) (id + 1))
  end.

Definition create_ibv_flow (f : rfs) (h : adapter) : bool * rfs * adapter :=
  let '(ok, l, h) := create_flows (m_flow_tuple f) (m_flow_tag_id f) (attach_flow_data f) h in
  let f := set_flow_data l f in
  (ok, if ok : bool then set_attached true f else f, h).

Fixpoint destroy_flows (l : list (option Z)) (h : adapter) : res adapter :=
  match l with
  | [] => Ok h
  | o :: l =>
    h ← (match o with
         | Some id =>
           if device_removed cfg then Ok h
           else _ ← must (alive h !! id); Ok (Adapter (delete id (alive h)) (next_flow h))
         | None => Ok h
         end);
    destroy_flows l h
  end.

Definition destroy_ibv_flow (f : rfs) (h : adapter) : res (rfs * adapter) :=
  h ← destroy_flows (attach_flow_data f) h; Ok (set_attached false f, h).

(** ** Filters *)

(** The counter of the filter, whether there is one, and the object. *)
Definition prepare_filter_attach (m : rule_filter_map_t) (f : rfs) : Z * bool * rfs :=
  match m_p_rule_filter f with
  | None => (1, false, f)
  | Some k =>
    match m !! k with
    | None => (1, false, f)
    | Some c => (counter c, true, set_attached ((1 <? counter c) || m_b_tmp_is_attached f) f)
    end
  end.

Definition filter_keep_attached (found : bool) (f : rfs) (m : rule_filter_map_t) : rule_filter_map_t :=
  match m_p_rule_filter f with
  | Some k => if found then alter (fun c => Counter (counter c) (ibv_flows c ++ attach_flow_data f)) k m else m
  | None => m
  end.

(** The object takes over the rules of its filter. *)
Fixpoint take_flows (l flows : list (option Z)) : res (list (option Z)) :=
  match l with
  | [] => Ok []
  | own :: l =>
    match flows with
    | [] => Undef
    | kept :: flows =>
      l ← take_flows l flows;
      Ok ((match own with
           | Some a => if bool_decide (Some a <> kept) then own else kept
           | None => kept
           end) :: l)
    end
  end.

Definition prepare_filter_detach (decrease_counter : bool) (m : rule_filter_map_t) (f : rfs) : res (Z * rule_filter_map_t * rfs) :=
  match m_p_rule_filter f with
  | None => Ok (0, m, f)
  | Some k =>
    match m !! k with
    | None => Ok (0, m, f)
    | Some c =>
      let c := if decrease_counter then Counter (if 0 <? counter c then counter c - 1 else 0) (ibv_flows c) else c in
      let m := <[k := c]> m in
      let f := set_attached ((counter c =? 0) && m_b_tmp_is_attached f) f in
      if negb (counter c =? 0) || bool_decide (ibv_flows c = []) then Ok (counter c, m, f)
      else l ← take_flows (attach_flow_data f) (ibv_flows c); Ok (counter c, m, set_flow_data l f)
    end
  end.

(** ** The object of a flow *)

(** The rule is made by the first sink. *)
Definition rfs_attach_flow (s : option sink) (f : rfs) (m : rule_filter_map_t) (h : adapter)
    : bool * rfs * rule_filter_map_t * adapter :=
  let '(filter_counter, found, f) := prepare_filter_attach m f in
  let '(ok, f, m, h) :=
    if (m_n_sinks_list_entries f =? 0)%nat && negb (m_b_tmp_is_attached f) && (filter_counter =? 1) then
      let '(ok, f, h) := create_ibv_flow f h in
      (ok, f, if ok : bool then filter_keep_attached found f m else m, h)
    else (true, f, m, h) in
  if ok : bool then (true, match s with Some s => add_sink s f | None => f end, m, h) else (false, f, m, h).

Definition rfs_detach_flow (s : option sink) (f : rfs) (m : rule_filter_map_t) (h : adapter)
    : res (bool * rfs * rule_filter_map_t * adapter) :=
  let '(ret, f) := match s with Some s => del_sink s f | None => (false, f) end in
  x ← prepare_filter_detach false m f;
  let '(filter_counter, m, f) := x : Z * rule_filter_map_t * rfs in
  if (m_n_sinks_list_entries f =? 0)%nat && (filter_counter =? 0) then
    y ← destroy_ibv_flow f h; Ok (true, fst y, m, snd y)
  else Ok (ret, f, m, h).

(** The destructor. *)
Definition delete_rfs (f : rfs) (m : rule_filter_map_t) (h : adapter) : res (rule_filter_map_t * adapter) :=
  match m_p_rule_filter f with
  | Some k =>
    if m_b_tmp_is_attached f then
      x ← prepare_filter_detach true m f;
      let '(c, m, f) := x : Z * rule_filter_map_t * rfs in
      if c =? 0 then y ← destroy_ibv_flow f h; Ok (delete k m, snd y) else Ok (m, h)
    else Ok (m, h)
  | None => if m_b_tmp_is_attached f then y ← destroy_ibv_flow f h; Ok (m, snd y) else Ok (m, h)
  end.

(** [prepare_flow_spec] makes one element of [m_attach_flow_data_vector], or
    fails on a transport it does not know. *)
Definition uc_flow_spec : bool :=
  (m_transport_type cfg =? NeighTable.VMA_TRANSPORT_IB) || (m_transport_type cfg =? NeighTable.VMA_TRANSPORT_ETH).

Definition mc_flow_spec : res bool :=
  if m_transport_type cfg =? NeighTable.VMA_TRANSPORT_IB then Ok (ib_flow_spec cfg)
  else if m_transport_type cfg =? NeighTable.VMA_TRANSPORT_ETH then Ok true else Throw.

(** The constructors: [None] is an exception that the ring catches.  The flow
    of a filter replaces the flow that was asked for. *)
Definition new_rfs (c : rfs_class) (t : flow_tuple) (k : option filter_key) (tag : Z) : res (option rfs) :=
  let f := Rfs c t k [None] (replicate RFS_SINKS_LIST_DEFAULT_LEN None) 0 tag false in
  match c with
  | rfs_mc => if negb (is_udp_mc t) then Ok None else ok ← mc_flow_spec; Ok (if ok : bool then Some f else None)
  | _ => Ok (if is_udp_mc t then None else if uc_flow_spec then Some f else None)
  end.

(** ** The ring *)

(** The tag of the rules of a socket: its descriptor plus one, if it fits. *)
Definition flow_tag_id (s : sink) : Z :=
  if m_flow_tag_enabled cfg then
    let candidate := i32 (get_fd s + 1) in
    if 0 <? candidate then
      let tag := Z.land candidate FLOW_TAG_MASK in if negb (candidate =? tag) then FLOW_TAG_MASK else tag
    else FLOW_TAG_MASK
  else 0.

Definition mc_filtered : bool :=
  ((m_transport_type cfg =? NeighTable.VMA_TRANSPORT_IB) && (underly_qpn cfg =? 0)) || m_b_sysvar_eth_mc_l2_only_rules cfg.

(** A flow is counted before its object is looked up. *)
Definition count_flow (k : filter_key) (r : ring_simple) : ring_simple :=
  set_attach_map (<[k := match attach_map r !! k with
                         | None => Counter 1 []
                         | Some c => Counter (counter c + 1) (ibv_flows c)
                         end]> (attach_map r)) r.

(** The attachment drops the lock of the ring while it makes a new object:
    what it holds meanwhile. *)
Record pending := Pending { p_key : flow_key; p_tag : Z; p_rfs : rfs }.

Inductive begun := begin_failed | begin_found (k : flow_key) (tag : Z) | begin_new (p : pending).

Definition look_up (k : flow_key) (tag tag' : Z) (o : res (option rfs)) (r : ring_simple) : res (begun * ring_simple) :=
  match flow_map r !! k with
  | Some _ => Ok (begin_found k tag, r)
  | None => f ← o; Ok (match f with None => begin_failed | Some f => begin_new (Pending k tag' f) end, r)
  end.

Definition attach_begin (t : flow_tuple) (s : sink) (r : ring_simple) : res (begun * ring_simple) :=
  let tag := flow_tag_id s in
  if is_udp_uc t then
    look_up (key_udp_uc (m_dst_port t)) tag tag (new_rfs rfs_uc t None tag) r
  else if is_udp_mc t then
    let tag := if negb (tag =? 0) && negb (m_b_sysvar_mc_force_flowtag cfg || negb (addr_in_reuse s)) then FLOW_TAG_MASK else tag in
    let k := l2_mc_ip (m_dst_ip t) in
    let r := if mc_filtered then count_flow k r else r in
    look_up (key_udp_mc (m_dst_ip t) (m_dst_port t)) tag tag (new_rfs rfs_mc t (if mc_filtered then Some k else None) tag) r
  else if is_tcp t then
    let k := tcp_dst_port (m_dst_port t) in
    let r := if tcp_3t_rules cfg then count_flow k r else r in
    let filter := if tcp_3t_rules cfg then Some k else None in
    let t' := if tcp_3t_rules cfg then FlowTuple (m_dst_ip t) (m_dst_port t) 0 0 (m_protocol t) else t in
    let key := key_tcp (m_src_ip t) (m_dst_port t) (m_src_port t) in
    if negb (gro_streams_max cfg =? 0) && is_5_tuple t then
      let tag' := if negb (tag =? 0) then FLOW_TAG_MASK else tag in
      look_up key tag tag' (f ← new_rfs rfs_uc_tcp_gro t' filter tag'; match f with None => Throw | Some f => Ok (Some f) end) r
    else look_up key tag tag (new_rfs rfs_uc t' filter tag) r
  else Ok (begin_failed, r).

Definition get_flags (s : sink) (r : ring_simple) : sock_flags := default (SockFlags 0 false false) (socks r !! s).

Definition attach_finish (t : flow_tuple) (s : sink) (k : flow_key) (tag : Z) (r : ring_simple) : res (bool * ring_simple) :=
  f ← must (flow_map r !! k);
  let '(ret, f, m, h) := rfs_attach_flow (Some s) f (attach_map r) (hw r) in
  let r := Ring (<[k := f]> (flow_map r)) m h (socks r) in
  if ret : bool then
    let fl := get_flags s r in
    let fl := if negb (tag =? 0) && negb (tag =? FLOW_TAG_MASK) then SockFlags tag true (m_tcp_flow_is_5t fl) else fl in
    let fl := if is_tcp t && negb (is_3_tuple t) then SockFlags (sock_flow_tag_id fl) (sock_flow_tag_enabled fl) true else fl in
    Ok (true, set_socks (<[s := fl]> (socks r)) r)
  else Ok (false, r).

(** The lock is taken again: another thread may have made the object. *)
Definition attach_end (t : flow_tuple) (s : sink) (p : pending) (r : ring_simple) : res (bool * ring_simple) :=
  match flow_map r !! p_key p with
  | Some _ =>
    x ← delete_rfs (p_rfs p) (attach_map r) (hw r);
    attach_finish t s (p_key p) (p_tag p) (Ring (flow_map r) (fst x) (snd x) (socks r))
  | None => attach_finish t s (p_key p) (p_tag p) (set_flow_map (<[p_key p := p_rfs p]> (flow_map r)) r)
  end.

Definition attach_flow (t : flow_tuple) (o : option sink) (r : ring_simple) : res (bool * ring_simple) :=
  match o with
  | None => Ok (false, r)
  | Some s =>
    x ← attach_begin t s r;
    let '(b, r) := x : begun * ring_simple in
    match b with
    | begin_failed => Ok (false, r)
    | begin_found k tag => attach_finish t s k tag r
    | begin_new p => attach_end t s p r
    end
  end.

(** The counter goes down before the object is looked up; the result says
    whether the filter stays in its map. *)
Definition uncount_flow (counted : bool) (k : filter_key) (r : ring_simple) : bool * ring_simple :=
  if counted then
    match attach_map r !! k with
    | None => (true, r)
    | Some c =>
      let n := Z.max 0 (counter c - 1) in
      (negb (n =? 0), set_attach_map (<[k := Counter n (ibv_flows c)]> (attach_map r)) r)
    end
  else (true, r).

Definition detach_key (k : flow_key) (s : option sink) (keep_in_map : bool) (fk : filter_key) (r : ring_simple) : res (bool * ring_simple) :=
  match flow_map r !! k with
  | None => Ok (false, r)
  | Some f =>
    x ← rfs_detach_flow s f (attach_map r) (hw r);
    let '(_, f, m, h) := x : bool * rfs * rule_filter_map_t * adapter in
    let m := if keep_in_map then m else delete fk m in
    if (m_n_sinks_list_entries f =? 0)%nat then
      y ← delete_rfs f m h;
      Ok (true, Ring (delete k (flow_map r)) (fst y) (snd y) (socks r))
    else Ok (true, Ring (<[k := f]> (flow_map r)) m h (socks r))
  end.

Definition detach_flow (t : flow_tuple) (s : option sink) (r : ring_simple) : res (bool * ring_simple) :=
  if is_udp_uc t then detach_key (key_udp_uc (m_dst_port t)) s true (l2_mc_ip 0) r
  else if is_udp_mc t then
    let k := l2_mc_ip (m_dst_ip t) in
    let counted := (m_transport_type cfg =? NeighTable.VMA_TRANSPORT_IB) || m_b_sysvar_eth_mc_l2_only_rules cfg in
    let '(keep, r) := uncount_flow counted k r in
    detach_key (key_udp_mc (m_dst_ip t) (m_dst_port t)) s keep k r
  else if is_tcp t then
    let k := tcp_dst_port (m_dst_port t) in
    let '(keep, r) := uncount_flow (tcp_3t_rules cfg) k r in
    detach_key (key_tcp (m_src_ip t) (m_dst_port t) (m_src_port t)) s keep k r
  else Ok (false, r).

(** The flows go one by one when the ring is deleted. *)
Fixpoint del_all (l : list flow_key) (r : ring_simple) : res ring_simple :=
  match l with
  | [] => Ok r
  | k :: l =>
    f ← must (flow_map r !! k);
    x ← delete_rfs f (attach_map r) (hw r);
    del_all l (Ring (delete k (flow_map r)) (fst x) (snd x) (socks r))
  end.

Definition new_ring : ring_simple := Ring ∅ ∅ (Adapter ∅ 0) ∅.

(** ** The array of sinks as a list *)

Definition holds (arr : list (option sink)) (n : nat) (l : list sink) : Prop :=
  n = length l /\ arr <> [] /\ exists rest, arr = (Some <$> l) ++ rest.

Lemma holds_take arr n l : holds arr n l -> take n arr = Some <$> l.
Proof. intros (-> & _ & rest & ->). apply take_app_length'. by rewrite length_fmap. Qed.

Lemma holds_elem f l s : holds (m_sinks_list f) (m_n_sinks_list_entries f) l -> registered s f = bool_decide (s ∈ l).
Proof.
  intros H. unfold registered. rewrite (holds_take _ _ _ H). apply bool_decide_ext.
  rewrite list_elem_of_fmap. naive_solver.
Qed.

Lemma add_sink_holds f l s : holds (m_sinks_list f) (m_n_sinks_list_entries f) l -> exists arr n,
  add_sink s f = set_sinks arr n f /\ holds arr n (if decide (s ∈ l) then l else l ++ [s]).
Proof.
  intros H. pose proof (holds_elem f l s H) as He. unfold add_sink. rewrite He.
  case_bool_decide as Hs; [rewrite decide_True by done|rewrite decide_False by done].
  { exists (m_sinks_list f), (m_n_sinks_list_entries f). split; [by destruct f|done]. }
  destruct H as (Hn & H0 & rest & Hr). set (arr := if (_ =? _)%nat then _ else _).
  assert (exists x rest', arr = (Some <$> l) ++ x :: rest') as (x & rest' & Ha).
  { subst arr. rewrite Hn, Hr, length_app, length_fmap. destruct rest as [|x rest].
    - rewrite (proj2 (Nat.eqb_eq _ _)) by (simpl; lia). rewrite app_nil_r. destruct l; [by destruct (m_sinks_list f)|].
      simpl. eauto.
    - rewrite (proj2 (Nat.eqb_neq _ _)) by (simpl; lia). eauto. }
  clearbody arr. subst arr. eexists _, _. split; [done|].
  rewrite Hn, <- (length_fmap (@Some sink) l), insert_app_r_alt, Nat.sub_diag by lia. simpl.
  split; [by rewrite length_app, length_fmap, Nat.add_1_r|]. split; [by destruct l|].
  exists rest'. by rewrite fmap_app, <- app_assoc.
Qed.

Lemma shift_sinks_spec l2 i (pre : list (option sink)) x rest : i = length pre ->
  shift_sinks (length l2) i (pre ++ x :: l2 ++ rest) = pre ++ l2 ++ None :: rest.
Proof.
  revert i pre x. induction l2 as [|y l2 IH]; intros i pre x ->; simpl.
  - by rewrite insert_app_r_alt, Nat.sub_diag by lia.
  - rewrite lookup_app_r by lia. replace (S (length pre) - length pre)%nat with 1%nat by lia. simpl.
    rewrite insert_app_r_alt, Nat.sub_diag by lia. simpl.
    replace (pre ++ y :: y :: l2 ++ rest) with ((pre ++ [y]) ++ y :: l2 ++ rest) by by rewrite <- app_assoc.
    rewrite IH by (rewrite length_app; simpl; lia). by rewrite <- app_assoc.
Qed.

Lemma del_sink_holds f l1 s l2 : holds (m_sinks_list f) (m_n_sinks_list_entries f) (l1 ++ s :: l2) -> s ∉ l1 ->
  exists arr n, del_sink s f = (true, set_sinks arr n f) /\ holds arr n (l1 ++ l2).
Proof.
  intros H Hs. pose proof (holds_take _ _ _ H) as Ht. destruct H as (Hn & H0 & rest & Hr). unfold del_sink.
  assert (list_find (eq (Some s)) (take (m_n_sinks_list_entries f) (m_sinks_list f)) = Some (length l1, Some s)) as ->.
  { rewrite Ht, fmap_app. apply list_find_Some. split_and!; [|done|].
    - rewrite lookup_app_r; rewrite length_fmap; [|lia]. by rewrite Nat.sub_diag.
    - intros j y Hy Hj. rewrite lookup_app_l in Hy by (by rewrite length_fmap). intros <-.
      apply list_elem_of_lookup_2, list_elem_of_fmap in Hy as (? & [= <-] & ?). done. }
  eexists _, _. split; [done|]. rewrite Hn, Hr, length_app. simpl.
  replace (length l1 + S (length l2) - 1 - length l1)%nat with (length (Some <$> l2)) by (rewrite length_fmap; lia).
  rewrite fmap_app. simpl. rewrite <- app_assoc. simpl. rewrite shift_sinks_spec by (by rewrite length_fmap).
  split; [rewrite length_app; lia|]. split; [by destruct l1, l2|].
  exists (None :: rest). by rewrite fmap_app, <- app_assoc.
Qed.

Lemma del_sink_absent f l s : holds (m_sinks_list f) (m_n_sinks_list_entries f) l -> s ∉ l -> del_sink s f = (false, f).
Proof.
  intros H Hs. unfold del_sink. rewrite (holds_take _ _ _ H).
  destruct (list_find (eq (Some s)) (Some <$> l)) as [[i x]|] eqn:E; [|done].
  apply list_find_Some in E as (Hi & <- & _). apply list_elem_of_lookup_2, list_elem_of_fmap in Hi as (? & [= <-] & ?). done.
Qed.

(** ** Specification: the registrations, in their order *)

Abbreviation registrations := (list (flow_key * sink)).

Definition key_of (t : flow_tuple) : option flow_key :=
  if is_udp_uc t then Some (key_udp_uc (m_dst_port t))
  else if is_udp_mc t then Some (key_udp_mc (m_dst_ip t) (m_dst_port t))
  else if is_tcp t then Some (key_tcp (m_src_ip t) (m_dst_port t) (m_src_port t))
  else None.

Definition filter_of (k : flow_key) : option filter_key :=
  match k with
  | key_udp_uc _ => None
  | key_udp_mc ip _ => if mc_filtered then Some (l2_mc_ip ip) else None
  | key_tcp _ port _ => if tcp_3t_rules cfg then Some (tcp_dst_port port) else None
  end.

(** What has one rule: a flow, or all the flows of a filter. *)
Definition owner (k : flow_key) : flow_key + filter_key :=
  match filter_of k with Some g => inr g | None => inl k end.

Definition sinks_of (k : flow_key) (R : registrations) : list sink := snd <$> filter (fun p => p.1 = k) R.
Definition group (g : filter_key) (R : registrations) : registrations := filter (fun p => filter_of p.1 = Some g) R.

Definition spec_attach (k : flow_key) (s : sink) (R : registrations) : registrations :=
  if decide ((k, s) ∈ R) then R else R ++ [(k, s)].
Definition spec_detach (k : flow_key) (s : sink) (R : registrations) : registrations := filter (fun p => p <> (k, s)) R.

Lemma sinks_of_elem k s R : s ∈ sinks_of k R <-> (k, s) ∈ R.
Proof.
  unfold sinks_of. rewrite list_elem_of_fmap. setoid_rewrite list_elem_of_filter. split.
  - intros ([k' s'] & -> & <- & H). done.
  - intros H. by exists (k, s).
Qed.

Lemma sinks_of_app k R R' : sinks_of k (R ++ R') = sinks_of k R ++ sinks_of k R'.
Proof. unfold sinks_of. by rewrite filter_app, fmap_app. Qed.

Lemma sinks_of_one k k' s : sinks_of k [(k', s)] = if decide (k' = k) then [s] else [].
Proof. unfold sinks_of. rewrite filter_cons, filter_nil. simpl. by case_decide. Qed.

Lemma sinks_of_cons k p R : sinks_of k (p :: R) = (if decide (p.1 = k) then [p.2] else []) ++ sinks_of k R.
Proof. unfold sinks_of. rewrite filter_cons. by case_decide. Qed.

Lemma NoDup_sinks_of k R : NoDup R -> NoDup (sinks_of k R).
Proof.
  intros H. unfold sinks_of. apply NoDup_fmap_2_strong; [|by apply NoDup_filter].
  intros [k1 s1] [k2 s2] [? _]%list_elem_of_filter [? _]%list_elem_of_filter ?. simpl in *. congruence.
Qed.

Lemma spec_attach_new k s R : (k, s) ∉ R -> spec_attach k s R = R ++ [(k, s)].
Proof. intros. unfold spec_attach. by rewrite decide_False. Qed.

Lemma spec_attach_sinks k s R k' : sinks_of k' (spec_attach k s R) =
  if decide (k = k') then if decide (s ∈ sinks_of k R) then sinks_of k R else sinks_of k R ++ [s] else sinks_of k' R.
Proof.
  unfold spec_attach. destruct (decide ((k, s) ∈ R)) as [H|H]; destruct (decide (k = k')) as [<-|Hk].
  - rewrite decide_True; [done|by apply sinks_of_elem].
  - done.
  - rewrite decide_False by (by rewrite sinks_of_elem). rewrite sinks_of_app, sinks_of_one. by rewrite decide_True.
  - by rewrite sinks_of_app, sinks_of_one, decide_False, app_nil_r.
Qed.

Lemma spec_detach_split k s R1 R2 : NoDup (R1 ++ (k, s) :: R2) -> spec_detach k s (R1 ++ (k, s) :: R2) = R1 ++ R2.
Proof.
  intros (_ & H1 & [H2 _]%NoDup_cons)%NoDup_app. unfold spec_detach.
  rewrite filter_app, filter_cons_False by (by intros []). f_equal; apply filter_all, Forall_forall; intros x Hx ->; [|done].
  apply (H1 _ Hx). left.
Qed.

Lemma spec_detach_absent k s R : (k, s) ∉ R -> spec_detach k s R = R.
Proof. intros H. apply filter_all, Forall_forall. by intros x Hx ->. Qed.

Lemma group_app g R R' : group g (R ++ R') = group g R ++ group g R'.
Proof. apply filter_app. Qed.

Lemma group_cons g p R : group g (p :: R) = (if decide (filter_of p.1 = Some g) then [p] else []) ++ group g R.
Proof. unfold group. rewrite filter_cons. by case_decide. Qed.

Lemma group_nil g k R : group g R = [] -> filter_of k = Some g -> sinks_of k R = [].
Proof.
  intros Hg Hk. destruct (sinks_of k R) as [|s l] eqn:E; [done|]. assert ((k, s) ∈ R) as H.
  { apply sinks_of_elem. rewrite E. left. }
  assert ((k, s) ∈ group g R) as Hin by (by apply list_elem_of_filter). rewrite Hg in Hin. by apply not_elem_of_nil in Hin.
Qed.

Lemma sinks_of_group g k s R : filter_of k = Some g -> (k, s) ∈ R -> (k, s) ∈ group g R.
Proof. intros. by apply list_elem_of_filter. Qed.

(** ** The invariant *)

(** What the object of flow [k] is with the sinks [l]. *)
Record flow_ok (r : ring_simple) (k : flow_key) (f : rfs) (l : list sink) : Prop := FlowOk {
  fo_sinks : holds (m_sinks_list f) (m_n_sinks_list_entries f) l;
  fo_filter : m_p_rule_filter f = filter_of k;
  fo_owner : owner <$> key_of (m_flow_tuple f) = Some (owner k);
  fo_rule : match filter_of k with
            | None => if bool_decide (l = []) then m_b_tmp_is_attached f = false /\ attach_flow_data f = [None]
                      else m_b_tmp_is_attached f = true /\ exists id, attach_flow_data f = [Some id] /\
                           alive (hw r) !! id = Some (m_flow_tuple f, m_flow_tag_id f)
            | Some g => l <> [] /\ (attach_flow_data f = [None] \/
                        exists c id, attach_map r !! g = Some c /\ ibv_flows c = [Some id] /\ attach_flow_data f = [Some id])
            end
}.

Record ring_ok (r : ring_simple) (R : registrations) : Prop := RingOk {
  ro_nodup : NoDup R;
  ro_found : forall p, p ∈ R -> is_Some (flow_map r !! p.1);
  ro_flow : forall k f, flow_map r !! k = Some f -> flow_ok r k f (sinks_of k R);
  ro_count : forall g c, attach_map r !! g = Some c -> counter c = Z.of_nat (length (group g R)) /\ group g R <> [] /\
               exists id t tag, ibv_flows c = [Some id] /\ alive (hw r) !! id = Some (t, tag) /\ owner <$> key_of t = Some (inr g);
  ro_counted : forall g, group g R <> [] -> is_Some (attach_map r !! g);
  ro_alive : forall id t tag, alive (hw r) !! id = Some (t, tag) -> id < next_flow (hw r) /\
               ((exists k f, flow_map r !! k = Some f /\ filter_of k = None /\ attach_flow_data f = [Some id]) \/
                (exists g c, attach_map r !! g = Some c /\ ibv_flows c = [Some id]))
}.

Lemma new_ring_ok : ring_ok new_ring [].
Proof.
  split; simpl; try set_solver; [constructor|..]; intros *; rewrite ?lookup_empty; done.
Qed.

Definition rule_of (r : ring_simple) (o : flow_key + filter_key) (id : Z) : Prop :=
  exists t tag, alive (hw r) !! id = Some (t, tag) /\ owner <$> key_of t = Some o.

Lemma rule_of_owner r o o' id : rule_of r o id -> rule_of r o' id -> o = o'.
Proof. intros (t & tag & H & Ho) (t' & tag' & H' & Ho'). congruence. Qed.

(** An object stays as it is when the rules and the counter of its owner do. *)
Lemma flow_ok_frame r r' k f l : flow_ok r k f l ->
  (forall id x, filter_of k = None -> alive (hw r) !! id = Some x -> owner <$> key_of x.1 = Some (owner k) ->
     alive (hw r') !! id = Some x) ->
  (forall g c id, filter_of k = Some g -> attach_map r !! g = Some c -> ibv_flows c = [Some id] ->
     exists c', attach_map r' !! g = Some c' /\ ibv_flows c' = [Some id]) ->
  flow_ok r' k f l.
Proof.
  intros [Hs Hf Ho Hr] H1 H2. split; try done. destruct (filter_of k) as [g|] eqn:Hk.
  - destruct Hr as [Hl [Hd|(c & id & Hc & Hi & Hd)]]; split; auto.
    destruct (H2 g c id) as (c' & ? & ?); auto. right. eauto 8.
  - case_bool_decide; [done|]. destruct Hr as (Ha & id & Hd & Hal). split; [done|]. exists id. split; [done|].
    apply H1; done.
Qed.

Lemma ring_ok_socks r R s : ring_ok r R -> ring_ok (set_socks s r) R.
Proof.
  intros [H1 H2 H3 H4 H5 H6]. split; try done. intros k f Hk. eapply flow_ok_frame; [by apply H3|done|simpl; eauto].
Qed.

Lemma spec_attach_NoDup k s R : NoDup R -> NoDup (spec_attach k s R).
Proof.
  intros H. unfold spec_attach. case_decide; [done|]. apply NoDup_app. split_and!; [done| |apply NoDup_singleton].
  by intros x Hx ->%list_elem_of_singleton.
Qed.

Lemma spec_attach_elem k s R p : p ∈ spec_attach k s R <-> p ∈ R \/ p = (k, s).
Proof. unfold spec_attach. case_decide; set_solver. Qed.

Lemma spec_attach_group g k s R : filter_of k <> Some g -> group g (spec_attach k s R) = group g R.
Proof.
  intros Hk. unfold spec_attach. case_decide; [done|]. rewrite group_app, group_cons. simpl.
  rewrite decide_False by done. by rewrite app_nil_r.
Qed.

(** A flow without an object has no sinks. *)
Lemma absent_sinks r R k : ring_ok r R -> flow_map r !! k = None -> sinks_of k R = [].
Proof.
  intros H Hk. destruct (sinks_of k R) as [|s l] eqn:E; [done|].
  assert ((k, s) ∈ R) as Hin by (apply sinks_of_elem; rewrite E; left).
  destruct (ro_found _ _ H _ Hin) as [f Hf]. simpl in Hf. congruence.
Qed.

Record fresh (k : flow_key) (f : rfs) : Prop := Fresh {
  fr_sinks : holds (m_sinks_list f) (m_n_sinks_list_entries f) [];
  fr_filter : m_p_rule_filter f = filter_of k;
  fr_owner : owner <$> key_of (m_flow_tuple f) = Some (owner k);
  fr_data : attach_flow_data f = [None];
  fr_attached : m_b_tmp_is_attached f = false
}.

(** The object that an attachment of [k] works on. *)
Definition current (r : ring_simple) (k : flow_key) (f : rfs) : Prop :=
  flow_map r !! k = Some f \/ flow_map r !! k = None /\ fresh k f.

Lemma current_holds r R k f : ring_ok r R -> current r k f -> holds (m_sinks_list f) (m_n_sinks_list_entries f) (sinks_of k R).
Proof.
  intros H [Hk|[Hk Hf]]; [by apply (ro_flow _ _ H _ _ Hk)|]. rewrite (absent_sinks r R k) by done. apply Hf.
Qed.

Lemma current_unfiltered r R k f : ring_ok r R -> filter_of k = None -> current r k f -> flow_ok r k f (sinks_of k R).
Proof.
  intros H Hn [Hk|[Hk [Hs Hf Ho Hd Ha]]]; [by apply (ro_flow _ _ H)|]. rewrite (absent_sinks r R k) by done.
  split; try done. rewrite Hn. done.
Qed.

(** The rule of an object without filter belongs to its flow. *)
Lemma flow_rule_owner r R k f id x : ring_ok r R -> flow_map r !! k = Some f -> filter_of k = None ->
  attach_flow_data f = [Some id] -> alive (hw r) !! id = Some x -> owner <$> key_of x.1 = Some (owner k).
Proof.
  intros H Hk Hn Hd Hx. destruct (ro_flow _ _ H _ _ Hk) as [_ _ Ho Hr]. rewrite Hn in Hr.
  case_bool_decide; [destruct Hr as [_ Hr]; congruence|]. destruct Hr as (_ & id' & Hd' & Hal).
  assert (id' = id) as -> by congruence. rewrite Hx in Hal. injection Hal as ->. done.
Qed.

Lemma group_flow_nonempty g k R : filter_of k = Some g -> sinks_of k R <> [] -> group g R <> [].
Proof. intros Hk Hl Hg. by apply Hl, (group_nil g). Qed.

(** An operation on flow [k] has to establish the invariant for the flow, for
    its filter and for the rules of their owner only. *)
Lemma ring_ok_update r R r' R' k : ring_ok r R -> NoDup R' ->
  (forall k', k' <> k -> sinks_of k' R' = sinks_of k' R /\ flow_map r' !! k' = flow_map r !! k') ->
  (forall g, filter_of k <> Some g -> group g R' = group g R /\ attach_map r' !! g = attach_map r !! g) ->
  (forall id x, owner <$> key_of x.1 <> Some (owner k) -> alive (hw r') !! id = Some x <-> alive (hw r) !! id = Some x) ->
  next_flow (hw r) <= next_flow (hw r') ->
  (forall g c id, filter_of k = Some g -> group g R' <> [] -> attach_map r !! g = Some c -> ibv_flows c = [Some id] ->
     exists c', attach_map r' !! g = Some c' /\ ibv_flows c' = [Some id]) ->
  (sinks_of k R' <> [] -> is_Some (flow_map r' !! k)) ->
  (forall f, flow_map r' !! k = Some f -> flow_ok r' k f (sinks_of k R')) ->
  (forall g, filter_of k = Some g ->
     match attach_map r' !! g with
     | Some c => counter c = Z.of_nat (length (group g R')) /\ group g R' <> [] /\
         exists id t tag, ibv_flows c = [Some id] /\ alive (hw r') !! id = Some (t, tag) /\ owner <$> key_of t = Some (inr g)
     | None => group g R' = []
     end) ->
  (forall id x, alive (hw r') !! id = Some x -> owner <$> key_of x.1 = Some (owner k) -> id < next_flow (hw r') /\
     ((exists f, flow_map r' !! k = Some f /\ filter_of k = None /\ attach_flow_data f = [Some id]) \/
      (exists g c, attach_map r' !! g = Some c /\ ibv_flows c = [Some id]))) ->
  ring_ok r' R'.
Proof.
  intros H Hnd Hk' Hg' Hal Hnext Hkeep Hfound Hflow Hcount Howner. split; [done| | | | |].
  - intros [k0 s0] Hp. simpl. apply sinks_of_elem in Hp. destruct (decide (k0 = k)) as [->|Hne].
    + apply Hfound. intros E. rewrite E in Hp. by apply not_elem_of_nil in Hp.
    + destruct (Hk' k0 Hne) as [E1 E2]. rewrite E2. rewrite E1 in Hp. apply sinks_of_elem in Hp. by apply (ro_found _ _ H (k0, s0)).
  - intros k0 f0. destruct (decide (k0 = k)) as [->|Hne]; [apply Hflow|]. destruct (Hk' k0 Hne) as [E1 E2]. rewrite E1, E2.
    intros Hf0. pose proof (ro_flow _ _ H _ _ Hf0) as Hok. eapply flow_ok_frame; [done| |].
    + intros id x Hn Hx Hox. apply Hal; [|done]. rewrite Hox. unfold owner. rewrite Hn. intros [= Heq].
      destruct (filter_of k); congruence.
    + intros g c id Hg Hc Hi. destruct (decide (filter_of k = Some g)) as [Hfg|Hfg]; [|rewrite (proj2 (Hg' g Hfg)); eauto].
      apply (Hkeep g c id); try done. apply (group_flow_nonempty g k0); [done|]. rewrite E1.
      destruct Hok as [_ _ _ Hr]. rewrite Hg in Hr. apply Hr.
  - intros g c Hc. destruct (decide (filter_of k = Some g)) as [Hfg|Hfg].
    + specialize (Hcount g Hfg). by rewrite Hc in Hcount.
    + destruct (Hg' g Hfg) as [E1 E2]. rewrite E1. rewrite E2 in Hc.
      destruct (ro_count _ _ H _ _ Hc) as (? & ? & id & t & tag & ? & Hid & Ho). split_and!; [done..|].
      exists id, t, tag. split_and!; [done| |done]. apply Hal; [|done]. simpl. rewrite Ho. unfold owner. case_match; congruence.
  - intros g Hg. destruct (decide (filter_of k = Some g)) as [Hfg|Hfg].
    + specialize (Hcount g Hfg). destruct (attach_map r' !! g); [eauto|done].
    + destruct (Hg' g Hfg) as [E1 E2]. rewrite E2. rewrite E1 in Hg. by apply H.
  - intros id t tag Hid. destruct (decide (owner <$> key_of t = Some (owner k))) as [Ho|Ho].
    + destruct (Howner _ _ Hid Ho) as [Hlt [(f & ? & ? & ?)|Hgc]]; (split; [done|]); [left; eauto|by right].
    + apply (Hal id (t, tag)) in Hid; [|done]. destruct (ro_alive _ _ H _ _ _ Hid) as [Hlt Hown]. split; [lia|].
      destruct Hown as [(k0 & f0 & Hk0 & Hn0 & Hd0)|(g & c & Hg & Hi)].
      * left. exists k0, f0. destruct (decide (k0 = k)) as [->|Hne]; [|by rewrite (proj2 (Hk' k0 Hne))].
        destruct Ho. by apply (flow_rule_owner r R k f0 id (t, tag)).
      * right. exists g, c. destruct (decide (filter_of k = Some g)) as [Hfg|Hfg]; [|by rewrite (proj2 (Hg' g Hfg))].
        destruct Ho. destruct (ro_count _ _ H _ _ Hg) as (_ & _ & id' & t' & tag' & Hi' & Hid' & Ho').
        assert (id' = id) as -> by congruence. rewrite Hid in Hid'. injection Hid' as -> _. rewrite Ho'. unfold owner. by rewrite Hfg.
Qed.

(** ** Attachment *)

Lemma group_new g k s R : filter_of k = Some g -> (k, s) ∉ R -> group g (spec_attach k s R) = group g R ++ [(k, s)].
Proof. intros Hk Hs. rewrite spec_attach_new, group_app, group_cons by done. simpl. by rewrite decide_True. Qed.

Lemma next_flow_dead r R : ring_ok r R -> alive (hw r) !! next_flow (hw r) = None.
Proof. intros H. destruct (alive (hw r) !! _) as [[t tag]|] eqn:E; [|done]. apply H in E as [? _]. lia. Qed.

(** The parts of [ring_ok_update] that every attachment shares. *)
Lemma attach_update r R r' k s : ring_ok r R ->
  (forall k', k' <> k -> flow_map r' !! k' = flow_map r !! k') ->
  (forall g, filter_of k <> Some g -> attach_map r' !! g = attach_map r !! g) ->
  (hw r' = hw r \/ exists t tag, hw r' = Adapter (<[next_flow (hw r) := (t, tag)]> (alive (hw r))) (next_flow (hw r) + 1) /\
     owner <$> key_of t = Some (owner k)) ->
  (forall g c id, filter_of k = Some g -> attach_map r !! g = Some c -> ibv_flows c = [Some id] ->
     exists c', attach_map r' !! g = Some c' /\ ibv_flows c' = [Some id]) ->
  is_Some (flow_map r' !! k) ->
  (forall f, flow_map r' !! k = Some f -> flow_ok r' k f (sinks_of k (spec_attach k s R))) ->
  (forall g, filter_of k = Some g -> exists c, attach_map r' !! g = Some c /\
     counter c = Z.of_nat (length (group g (spec_attach k s R))) /\
     exists id t tag, ibv_flows c = [Some id] /\ alive (hw r') !! id = Some (t, tag) /\ owner <$> key_of t = Some (inr g)) ->
  (forall id x, alive (hw r') !! id = Some x -> owner <$> key_of x.1 = Some (owner k) ->
     (exists f, flow_map r' !! k = Some f /\ filter_of k = None /\ attach_flow_data f = [Some id]) \/
     (exists g c, attach_map r' !! g = Some c /\ ibv_flows c = [Some id])) ->
  ring_ok r' (spec_attach k s R).
Proof.
  intros H Hk Hg Hhw Hkeep Hfound Hflow Hcount Howner. pose proof (next_flow_dead r R H) as Hdead.
  apply (ring_ok_update r R r' _ k); try done.
  - by apply spec_attach_NoDup, H.
  - intros k' Hne. rewrite spec_attach_sinks, decide_False by done. auto.
  - intros g Hne. rewrite spec_attach_group by done. auto.
  - intros id x Hox. destruct Hhw as [->|(t & tag & -> & Ho)]; [done|]. simpl. rewrite lookup_insert_Some. split; [|naive_solver].
    intros [[<- <-]|[? ?]]; done.
  - destruct Hhw as [->|(t & tag & -> & Ho)]; simpl; lia.
  - eauto.
  - intros g Hfg. destruct (Hcount g Hfg) as (c & -> & Hc & Hid). split_and!; [done| |done].
    intros E. assert ((k, s) ∈ spec_attach k s R) as Hin by (apply spec_attach_elem; auto).
    apply (sinks_of_group g) in Hin; [|done]. rewrite E in Hin. by apply not_elem_of_nil in Hin.
  - intros id x Hx Ho. split; [|by eapply Howner]. destruct Hhw as [Hh|(t & tag & Hh & _)]; rewrite Hh in Hx |- *; simpl in *.
    + by apply (ro_alive _ _ H id x.1 x.2); destruct x.
    + apply lookup_insert_Some in Hx as [[<- _]|[_ Hx]]; [lia|]. destruct x as [t' tag']. apply H in Hx as [? _]. lia.
Qed.

Lemma owner_unfiltered k : filter_of k = None -> owner k = inl k.
Proof. intros Hn. unfold owner. by rewrite Hn. Qed.

Lemma owner_filtered k g : filter_of k = Some g -> owner k = inr g.
Proof. intros Hn. unfold owner. by rewrite Hn. Qed.

(** A live rule of a flow without filter is the one of its object. *)
Lemma unfiltered_alive r R k f id x : ring_ok r R -> filter_of k = None -> current r k f -> alive (hw r) !! id = Some x ->
  owner <$> key_of x.1 = Some (owner k) -> flow_map r !! k = Some f /\ attach_flow_data f = [Some id].
Proof.
  intros H Hn Hk Hx Ho. destruct x as [t tag]. rewrite owner_unfiltered in Ho by done.
  destruct (ro_alive _ _ H _ _ _ Hx) as [_ [(k' & f' & Hk' & Hn' & Hd')|(g & c & Hg & Hi)]].
  - pose proof (flow_rule_owner r R k' f' id (t, tag) H Hk' Hn' Hd' Hx) as Ho'. simpl in *. rewrite owner_unfiltered in Ho' by done.
    assert (k' = k) as -> by congruence. destruct Hk as [Hk|[Hk _]]; [|congruence]. split; congruence.
  - destruct (ro_count _ _ H _ _ Hg) as (_ & _ & id' & t' & tag' & Hi' & Hid' & Ho'). simpl in *. congruence.
Qed.

(** A live rule of a filter is the one it keeps. *)
Lemma filtered_alive r R k g id x : ring_ok r R -> filter_of k = Some g -> alive (hw r) !! id = Some x ->
  owner <$> key_of x.1 = Some (owner k) -> exists c, attach_map r !! g = Some c /\ ibv_flows c = [Some id].
Proof.
  intros H Hn Hx Ho. destruct x as [t tag]. rewrite (owner_filtered k g) in Ho by done.
  destruct (ro_alive _ _ H _ _ _ Hx) as [_ [(k' & f' & Hk' & Hn' & Hd')|(g' & c & Hg & Hi)]].
  - pose proof (flow_rule_owner r R k' f' id (t, tag) H Hk' Hn' Hd' Hx) as Ho'. simpl in *. rewrite owner_unfiltered in Ho' by done. congruence.
  - destruct (ro_count _ _ H _ _ Hg) as (_ & _ & id' & t' & tag' & Hi' & Hid' & Ho'). simpl in *.
    assert (id' = id) as -> by congruence. rewrite Hx in Hid'. injection Hid' as -> _. assert (g' = g) as -> by congruence. eauto.
Qed.

(** One more sink of a flow that has no filter and has sinks. *)
Lemma unfiltered_more_ok r R k f s arr n : ring_ok r R -> filter_of k = None -> flow_map r !! k = Some f ->
  sinks_of k R <> [] -> holds arr n (sinks_of k (spec_attach k s R)) ->
  ring_ok (Ring (<[k := set_sinks arr n f]> (flow_map r)) (attach_map r) (hw r) (socks r)) (spec_attach k s R).
Proof.
  intros H Hn Hk Hne Ha. destruct (ro_flow _ _ H _ _ Hk) as [Hs Hf Ho Hr]. rewrite Hn in Hr.
  rewrite bool_decide_false in Hr by done. apply (attach_update r); simpl; try done; try (by rewrite Hn).
  - intros k' Hkk. by rewrite lookup_insert_ne.
  - by left.
  - rewrite lookup_insert_eq. eauto.
  - intros f'. rewrite lookup_insert_eq. intros [= <-]. split; try done. rewrite Hn, bool_decide_false; [done|].
    rewrite spec_attach_sinks, decide_True by done. case_decide; [done|]. by destruct (sinks_of k R).
  - intros id x Hx Hox. left. eexists. rewrite lookup_insert_eq. split_and!; [done..|].
    by apply (unfiltered_alive r R k f id x H Hn (or_introl Hk)).
Qed.

(** The first sink of a flow that has no filter makes its rule. *)
Lemma unfiltered_first_ok r R k f s arr n : ring_ok r R -> filter_of k = None -> current r k f ->
  sinks_of k R = [] -> holds arr n [s] ->
  let id := next_flow (hw r) in
  ring_ok (Ring (<[k := set_sinks arr n (set_attached true (set_flow_data [Some id] f))]> (flow_map r)) (attach_map r)
             (Adapter (<[id := (m_flow_tuple f, m_flow_tag_id f)]> (alive (hw r))) (id + 1)) (socks r)) (spec_attach k s R).
Proof.
  intros H Hn Hk Hne Ha id. destruct (current_unfiltered r R k f H Hn Hk) as [Hs Hf Ho Hr].
  apply (attach_update r); simpl; try done; try (by rewrite Hn).
  - intros k' Hkk. by rewrite lookup_insert_ne.
  - right. eauto.
  - rewrite lookup_insert_eq. eauto.
  - intros f'. rewrite lookup_insert_eq. intros [= <-].
    assert (sinks_of k (spec_attach k s R) = [s]) as ->.
    { rewrite spec_attach_sinks, decide_True, Hne, decide_False by (done || apply not_elem_of_nil). done. }
    split; try done. rewrite Hn, bool_decide_false by done. split; [done|].
    exists id. split; [done|]. simpl. by rewrite lookup_insert_eq.
  - intros id' x Hx Hox. left. eexists. rewrite lookup_insert_eq. split_and!; [done..|]. simpl.
    apply lookup_insert_Some in Hx as [[-> _]|[_ Hx]]; [done|].
    destruct (unfiltered_alive r R k f id' x H Hn Hk Hx Hox) as [_ Hd]. rewrite Hn, Hne in Hr. simpl in Hr. destruct Hr. congruence.
Qed.

(** The adapter has no room for the rule: the object stays without sinks. *)
Lemma unfiltered_failed_ok r R k f : ring_ok r R -> filter_of k = None -> current r k f -> sinks_of k R = [] ->
  ring_ok (Ring (<[k := set_flow_data [None] f]> (flow_map r)) (attach_map r)
             (Adapter (alive (hw r)) (next_flow (hw r) + 1)) (socks r)) R.
Proof.
  intros H Hn Hk Hne. destruct (current_unfiltered r R k f H Hn Hk) as [Hs Hf Ho Hr]. rewrite Hn, Hne in Hr. simpl in Hr.
  apply (ring_ok_update r R _ R k); simpl; try done; try (by rewrite Hn); try apply H.
  - intros k' Hkk. by rewrite lookup_insert_ne.
  - lia.
  - rewrite lookup_insert_eq. intros f' [= <-]. split; try done. rewrite Hn, Hne. naive_solver.
  - intros id x Hx Hox. destruct (unfiltered_alive r R k f id x H Hn Hk Hx Hox) as [_ Hd]. destruct Hr. congruence.
Qed.

(** A flow of a filter that counts others: no new rule. *)
Lemma filtered_more_ok r R k f s g c b arr n : ring_ok r R -> filter_of k = Some g -> current r k f -> (k, s) ∉ R ->
  attach_map r !! g = Some c -> holds arr n (sinks_of k (spec_attach k s R)) ->
  ring_ok (Ring (<[k := set_sinks arr n (set_attached b f)]> (flow_map r))
             (<[g := Counter (counter c + 1) (ibv_flows c)]> (attach_map r)) (hw r) (socks r)) (spec_attach k s R).
Proof.
  intros H Hn Hk Hs Hc Ha. destruct (ro_count _ _ H _ _ Hc) as (Hcnt & Hne & id & t & tag & Hi & Hal & Ho).
  apply (attach_update r); simpl; try done.
  - intros k' Hkk. by rewrite lookup_insert_ne.
  - intros g' Hg'. rewrite lookup_insert_ne by congruence. done.
  - by left.
  - intros g' c' id' Hg' Hc' Hi'. assert (g' = g) as -> by congruence. rewrite lookup_insert_eq. eexists. split; [done|]. simpl. congruence.
  - rewrite lookup_insert_eq. eauto.
  - intros f'. rewrite lookup_insert_eq. intros [= <-].
    assert (m_p_rule_filter f = filter_of k /\ owner <$> key_of (m_flow_tuple f) = Some (owner k) /\
            (attach_flow_data f = [None] \/ attach_flow_data f = [Some id])) as (Hf & Hof & Hd).
    { destruct Hk as [Hk|[_ [? ? ? ? ?]]]; [|by auto]. destruct (ro_flow _ _ H _ _ Hk) as [_ ? ? Hr]. rewrite Hn in Hr.
      destruct Hr as [_ [?|(c' & id' & Hc' & Hi' & ?)]]; [by auto|]. split_and!; [done..|]. right. congruence. }
    split; try done. rewrite Hn. split.
    + rewrite spec_attach_sinks, decide_True by done. rewrite decide_False by (by rewrite sinks_of_elem). by destruct (sinks_of k R).
    + simpl. rewrite lookup_insert_eq. destruct Hd; [by left|right; eauto 8].
  - intros g' Hg'. assert (g' = g) as -> by congruence. eexists. rewrite lookup_insert_eq, group_new, length_app by done. simpl.
    split; [done|]. split; [simpl; lia|simpl; eauto 8].
  - intros id' x Hx Hox. right. destruct (filtered_alive r R k g id' x H Hn Hx Hox) as (c' & Hc' & Hi').
    eexists g, _. rewrite lookup_insert_eq. split; [done|]. simpl. congruence.
Qed.

(** The first flow of a filter makes the rule, which the filter keeps. *)
Lemma filtered_first_ok r R k f s g arr n : ring_ok r R -> filter_of k = Some g -> fresh k f -> flow_map r !! k = None ->
  attach_map r !! g = None -> holds arr n [s] ->
  let id := next_flow (hw r) in
  ring_ok (Ring (<[k := set_sinks arr n (set_attached true (set_flow_data [Some id] f))]> (flow_map r))
             (<[g := Counter 1 [Some id]]> (attach_map r))
             (Adapter (<[id := (m_flow_tuple f, m_flow_tag_id f)]> (alive (hw r))) (id + 1)) (socks r)) (spec_attach k s R).
Proof.
  intros H Hn [Hs Hf Ho Hd Hat] Hk Hc Ha id. pose proof (absent_sinks r R k H Hk) as Hne.
  assert (group g R = []) as Hg.
  { destruct (group g R) eqn:E; [done|]. destruct (ro_counted _ _ H g) as [c' Hc']; [by rewrite E|congruence]. }
  assert ((k, s) ∉ R) as Hks by (rewrite <- sinks_of_elem, Hne; apply not_elem_of_nil).
  apply (attach_update r); simpl; try done.
  - intros k' Hkk. by rewrite lookup_insert_ne.
  - intros g' Hg'. rewrite lookup_insert_ne by congruence. done.
  - right. eauto.
  - intros g' c' id' Hg' Hc'. congruence.
  - rewrite lookup_insert_eq. eauto.
  - intros f'. rewrite lookup_insert_eq. intros [= <-].
    assert (sinks_of k (spec_attach k s R) = [s]) as ->.
    { rewrite spec_attach_sinks, decide_True, Hne, decide_False by (done || apply not_elem_of_nil). done. }
    split; try done. rewrite Hn. split; [done|]. right. exists (Counter 1 [Some id]), id. simpl. by rewrite lookup_insert_eq.
  - intros g' Hg'. assert (g' = g) as -> by congruence. eexists. rewrite lookup_insert_eq, group_new, Hg by done.
    split; [done|]. split; [done|]. exists id, (m_flow_tuple f), (m_flow_tag_id f). rewrite lookup_insert_eq.
    by rewrite <- (owner_filtered k g) by done.
  - intros id' x Hx Hox. right. eexists g, _. rewrite lookup_insert_eq. split; [done|].
    apply lookup_insert_Some in Hx as [[-> _]|[_ Hx]]; [done|].
    destruct (filtered_alive r R k g id' x H Hn Hx Hox) as (c' & Hc' & Hi'). congruence.
Qed.

(** The filter counts the flow first. *)
Definition counted (k : flow_key) (r : ring_simple) : ring_simple :=
  match filter_of k with Some g => count_flow g r | None => r end.

Lemma entries_zero arr n l : holds arr n l -> (n =? 0)%nat = bool_decide (l = []).
Proof. intros (-> & _). by destruct l. Qed.

Lemma attach_unfiltered r R k f s : ring_ok r R -> filter_of k = None -> current r k f ->
  exists ret f' m' h', rfs_attach_flow (Some s) f (attach_map r) (hw r) = (ret, f', m', h') /\
    ring_ok (Ring (<[k := f']> (flow_map r)) m' h' (socks r)) (if ret then spec_attach k s R else R) /\
    ((forall n, creates cfg n = true) -> ret = true).
Proof.
  intros H Hn Hk. pose proof (current_unfiltered r R k f H Hn Hk) as [Hs Hf Ho Hr].
  unfold rfs_attach_flow, prepare_filter_attach. rewrite Hf, Hn. rewrite Hn in Hr. rewrite (entries_zero _ _ _ Hs).
  case_bool_decide as Hl; simpl.
  - destruct Hr as [Ha Hd]. rewrite Ha. simpl. unfold create_ibv_flow. rewrite Hd. simpl.
    destruct (creates cfg (next_flow (hw r))) eqn:Hc; simpl.
    + unfold filter_keep_attached. simpl. rewrite Hf, Hn. rewrite Hl in Hs.
      destruct (add_sink_holds (set_attached true (set_flow_data [Some (next_flow (hw r))] f)) [] s Hs) as (arr & n & -> & Hh).
      rewrite decide_False in Hh by apply not_elem_of_nil. do 4 eexists. split; [done|]. split; [|done].
      by apply (unfiltered_first_ok r R k f s arr n).
    + do 4 eexists. split; [done|]. split; [by apply (unfiltered_failed_ok r R k f)|]. intros Hall. congruence.
  - destruct Hr as [Ha _].
    destruct Hk as [Hk|[Hk _]]; [|by rewrite (absent_sinks r R k H Hk) in Hl].
    destruct (add_sink_holds f _ s Hs) as (arr & n & -> & Hh). do 4 eexists. split; [done|]. split; [|done].
    apply unfiltered_more_ok; try done. by rewrite spec_attach_sinks, decide_True.
Qed.

Lemma attach_filtered r R k f s g : ring_ok r R -> filter_of k = Some g -> current r k f -> (k, s) ∉ R ->
  (forall n, creates cfg n = true) ->
  exists f' m' h', rfs_attach_flow (Some s) f (attach_map (count_flow g r)) (hw r) = (true, f', m', h') /\
    ring_ok (Ring (<[k := f']> (flow_map r)) m' h' (socks r)) (spec_attach k s R).
Proof.
  intros H Hn Hk Hks Hall. pose proof (current_holds r R k f H Hk) as Hs.
  assert (m_p_rule_filter f = Some g) as Hf.
  { rewrite <- Hn. destruct Hk as [Hk|[_ Hk]]; [by apply (ro_flow _ _ H _ _ Hk)|apply Hk]. }
  unfold rfs_attach_flow, prepare_filter_attach. rewrite Hf. simpl. rewrite lookup_insert_eq.
  destruct (attach_map r !! g) as [c|] eqn:Hc; simpl.
  - destruct (ro_count _ _ H _ _ Hc) as (Hcnt & Hne & _). destruct (group g R) as [|p l]; [done|]. simpl in Hcnt.
    rewrite (proj2 (Z.ltb_lt 1 (counter c + 1))) by lia. simpl. rewrite andb_false_r. simpl.
    destruct (add_sink_holds (set_attached true f) (sinks_of k R) s Hs) as (arr & n & -> & Hh). do 3 eexists. split; [done|].
    apply filtered_more_ok; try done. by rewrite spec_attach_sinks, decide_True.
  - destruct Hk as [Hk|[Hk Hfr]].
    { destruct (ro_flow _ _ H _ _ Hk) as [_ _ _ Hr]. rewrite Hn in Hr. destruct Hr as [Hl _].
      destruct (ro_counted _ _ H g) as [c' Hc']; [|congruence]. intros Hg. by apply Hl, (group_nil g). }
    rewrite (absent_sinks r R k H Hk) in Hs. rewrite (entries_zero _ _ _ Hs), (fr_attached _ _ Hfr). simpl.
    unfold create_ibv_flow. simpl. rewrite (fr_data _ _ Hfr). simpl. rewrite Hall. simpl.
    unfold filter_keep_attached. simpl. rewrite Hf.
    destruct (add_sink_holds (set_attached true (set_flow_data [Some (next_flow (hw r))] (set_attached false f))) [] s Hs) as (arr & n & -> & Hh).
    rewrite decide_False in Hh by apply not_elem_of_nil. do 3 eexists. split; [done|].
    rewrite alter_insert_eq. by apply (filtered_first_ok r R k f s g arr n).
Qed.

Lemma attach_finish_ok r R t s k tag f : ring_ok r R -> current r k f ->
  (filter_of k <> None -> (k, s) ∉ R /\ forall n, creates cfg n = true) ->
  exists ret r', attach_finish t s k tag (set_flow_map (<[k := f]> (flow_map r)) (counted k r)) = Ok (ret, r') /\
    ring_ok r' (if ret then spec_attach k s R else R) /\ ((forall n, creates cfg n = true) -> ret = true).
Proof.
  intros H Hk Hd. unfold attach_finish. simpl. rewrite lookup_insert_eq. simpl.
  assert (exists ret f' m' h', rfs_attach_flow (Some s) f (attach_map (counted k r)) (hw r) = (ret, f', m', h') /\
    ring_ok (Ring (<[k := f']> (flow_map r)) m' h' (socks r)) (if ret then spec_attach k s R else R) /\
    ((forall n, creates cfg n = true) -> ret = true)) as (ret & f' & m' & h' & E & Hok & Hret).
  { unfold counted. destruct (filter_of k) as [g|] eqn:Hn; [|by apply attach_unfiltered].
    destruct Hd as [Hks Hall]; [done|]. destruct (attach_filtered r R k f s g) as (f' & m' & h' & E & Hok); [done..|].
    exists true, f', m', h'. done. }
  assert (hw (counted k r) = hw r /\ socks (counted k r) = socks r) as [Hh Hso] by (unfold counted; destruct (filter_of k); by split).
  rewrite Hh, Hso.
  rewrite E. rewrite insert_insert_eq. destruct ret; do 2 eexists; (split; [done|]); (split; [|done]); [|done].
  by apply ring_ok_socks.
Qed.

(** The transports that the ring has flow specifications for. *)
Definition supported : Prop :=
  m_transport_type cfg = NeighTable.VMA_TRANSPORT_ETH \/ m_transport_type cfg = NeighTable.VMA_TRANSPORT_IB /\ ib_flow_spec cfg = true.

Lemma supported_specs : supported -> uc_flow_spec = true /\ mc_flow_spec = Ok true.
Proof. unfold uc_flow_spec, mc_flow_spec. by intros [->|[-> ->]]. Qed.

Lemma holds_new : holds (replicate RFS_SINKS_LIST_DEFAULT_LEN None) 0 [].
Proof. split; [done|]. split; [done|]. by eexists. Qed.

(** The first part of an attachment counts the flow and finds its object or
    makes a new one. *)
Definition begins (k : flow_key) (r : ring_simple) (b : begun) : Prop :=
  match b with
  | begin_failed => False
  | begin_found k' _ => k' = k /\ is_Some (flow_map r !! k)
  | begin_new p => p_key p = k /\ flow_map r !! k = None /\ fresh k (p_rfs p)
  end.

Lemma look_up_begins k tag tag' f r r0 : flow_map r = flow_map r0 -> fresh k f ->
  exists b, look_up k tag tag' (Ok (Some f)) r = Ok (b, r) /\ begins k r0 b.
Proof. intros E Hf. unfold look_up. rewrite E. destruct (flow_map r0 !! k) eqn:Hk; simpl; eexists; (split; [done|]); simpl; eauto. Qed.

Lemma attach_begin_ok r t s k : supported -> key_of t = Some k ->
  exists b, attach_begin t s r = Ok (b, counted k r) /\ begins k r b.
Proof.
  intros [Hu Hm]%supported_specs. unfold key_of, attach_begin, counted, new_rfs. rewrite Hu, Hm.
  destruct (is_udp_uc t) eqn:E1; [|destruct (is_udp_mc t) eqn:E2; [|destruct (is_tcp t) eqn:E3; [|done]]]; intros [= <-]; simpl.
  - assert (is_udp_mc t = false) as ->.
    { unfold is_udp_uc, is_udp_mc in *. apply andb_true_iff in E1 as [-> E1%negb_true_iff]. by rewrite E1. }
    apply look_up_begins; [done|]. split; try done; [apply holds_new|]. unfold key_of. simpl. by rewrite E1.
  - destruct mc_filtered eqn:Ef; apply look_up_begins; try done; (split; [apply holds_new|by simpl; rewrite Ef| |done|done]);
      unfold key_of; simpl; by rewrite E1, E2.
  - assert (forall t', m_protocol t' = m_protocol t -> is_udp_mc t' = false /\ key_of t' = Some (key_tcp (m_src_ip t') (m_dst_port t') (m_src_port t'))) as Ht'.
    { intros t' Hp. unfold key_of, is_udp_uc, is_udp_mc, is_tcp in *. rewrite Hp, E3.
      apply Z.eqb_eq in E3. rewrite E3. done. }
    destruct (tcp_3t_rules cfg) eqn:Ef; case_match; simpl;
      match goal with |- context [is_udp_mc ?x] => rewrite (proj1 (Ht' x eq_refl)) end; simpl;
      apply look_up_begins; try done; (split; [apply holds_new|by simpl; rewrite Ef| |done|done]); simpl;
      match goal with |- context [key_of ?x] => rewrite (proj2 (Ht' x eq_refl)) end; simpl; unfold owner; simpl; by rewrite Ef.
Qed.

Lemma current_insert r k f : flow_map r !! k = Some f -> counted k r = set_flow_map (<[k := f]> (flow_map r)) (counted k r).
Proof. intros Hk. unfold counted, set_flow_map. destruct (filter_of k); simpl; rewrite insert_id by done; by destruct r. Qed.

Lemma attach_flow_ok r R t s k : supported -> ring_ok r R -> key_of t = Some k ->
  (filter_of k <> None -> (k, s) ∉ R /\ forall n, creates cfg n = true) ->
  exists ret r', attach_flow t (Some s) r = Ok (ret, r') /\
    ring_ok r' (if ret then spec_attach k s R else R) /\ ((forall n, creates cfg n = true) -> ret = true).
Proof.
  intros Hsup H Hk Hd. unfold attach_flow. destruct (attach_begin_ok r t s k Hsup Hk) as (b & -> & Hb). simpl.
  assert (flow_map (counted k r) = flow_map r) as Hfm by (unfold counted; by destruct (filter_of k)).
  destruct b as [|k' tag|p]; [done|..]; simpl in Hb.
  - destruct Hb as [-> [f Hf]]. rewrite (current_insert r k f Hf). apply attach_finish_ok; try done. by left.
  - destruct Hb as (<- & Hn & Hf). unfold attach_end. rewrite Hfm, Hn. apply attach_finish_ok; try done. by right.
Qed.

(** ** Detachment *)

Lemma spec_detach_facts R k s : NoDup R -> (k, s) ∈ R -> let R' := spec_detach k s R in
  NoDup R' /\
  (exists l1 l2, sinks_of k R = l1 ++ s :: l2 /\ s ∉ l1 /\ sinks_of k R' = l1 ++ l2) /\
  (forall k', k' <> k -> sinks_of k' R' = sinks_of k' R) /\
  (forall g, filter_of k <> Some g -> group g R' = group g R) /\
  (forall g, filter_of k = Some g -> length (group g R) = S (length (group g R'))).
Proof.
  intros Hnd (R1 & R2 & ->)%list_elem_of_split. rewrite spec_detach_split by done. cbv zeta. split_and!.
  - apply NoDup_app in Hnd as (N1 & N12 & [_ N2]%NoDup_cons). apply NoDup_app. split_and!; [done| |done]. set_solver.
  - exists (sinks_of k R1), (sinks_of k R2). rewrite !sinks_of_app, sinks_of_cons. simpl. rewrite decide_True by done.
    split_and!; [done| |done]. rewrite sinks_of_elem. apply NoDup_app in Hnd as (_ & N12 & _). intros Hin. apply (N12 _ Hin). left.
  - intros k' Hk. rewrite !sinks_of_app, sinks_of_cons. simpl. by rewrite decide_False by done.
  - intros g Hg. rewrite !group_app, group_cons. simpl. by rewrite decide_False.
  - intros g Hg. rewrite !group_app, group_cons. simpl. rewrite decide_True by done. rewrite !length_app. simpl. lia.
Qed.

(** The parts of [ring_ok_update] that every detachment shares: the rule of
    the owner stays, or it goes with its last registration. *)
Lemma detach_update r R r' k s : ring_ok r R -> (k, s) ∈ R -> let R' := spec_detach k s R in
  (forall k', k' <> k -> flow_map r' !! k' = flow_map r !! k') ->
  (forall g, filter_of k <> Some g -> attach_map r' !! g = attach_map r !! g) ->
  (hw r' = hw r \/ exists id, rule_of r (owner k) id /\ hw r' = Adapter (delete id (alive (hw r))) (next_flow (hw r))) ->
  (forall g c, filter_of k = Some g -> attach_map r !! g = Some c ->
     if decide (group g R' = []) then attach_map r' !! g = None
     else exists c', attach_map r' !! g = Some c' /\ ibv_flows c' = ibv_flows c /\ counter c' = counter c - 1 /\ hw r' = hw r) ->
  (sinks_of k R' <> [] -> is_Some (flow_map r' !! k)) ->
  (forall f, flow_map r' !! k = Some f -> flow_ok r' k f (sinks_of k R')) ->
  (forall id x, alive (hw r') !! id = Some x -> owner <$> key_of x.1 = Some (owner k) ->
     (exists f, flow_map r' !! k = Some f /\ filter_of k = None /\ attach_flow_data f = [Some id]) \/
     (exists g, filter_of k = Some g /\ group g R' <> [])) ->
  ring_ok r' R'.
Proof.
  intros H Hin R' Hk Hg Hhw Hcount Hfound Hflow Howner.
  destruct (spec_detach_facts R k s (ro_nodup _ _ H) Hin) as (Hnd & _ & Hs' & Hg' & Hlen). fold R' in Hnd, Hs', Hg', Hlen.
  assert (forall g, filter_of k = Some g -> exists c, attach_map r !! g = Some c) as Hc.
  { intros g Hfg. apply (ro_counted _ _ H). intros E. specialize (Hlen g Hfg). rewrite E in Hlen. done. }
  apply (ring_ok_update r R r' R' k); try done; auto.
  - intros id x Hox. destruct Hhw as [->|(id0 & (t & tag & Hid0 & Ho0) & ->)]; [done|]. simpl. rewrite lookup_delete_Some. split; [naive_solver|].
    intros Hx. split; [|done]. intros ->. rewrite Hx in Hid0. injection Hid0 as ->. done.
  - by destruct Hhw as [->|(id0 & _ & ->)].
  - intros g c id Hfg Hne Hgc Hi. specialize (Hcount g c Hfg Hgc). rewrite decide_False in Hcount by done.
    destruct Hcount as (c' & ? & ? & _). exists c'. split; congruence.
  - intros g Hfg. destruct (Hc g Hfg) as [c Hgc]. specialize (Hcount g c Hfg Hgc). case_decide as Hemp; [by rewrite Hcount|].
    destruct Hcount as (c' & -> & -> & -> & ->). destruct (ro_count _ _ H _ _ Hgc) as (-> & _ & ?). rewrite (Hlen g Hfg).
    split_and!; [lia|done|done].
  - intros id x Hx Ho. split.
    + destruct x as [t tag]. destruct Hhw as [Hh|(id0 & _ & Hh)]; rewrite Hh in Hx |- *; simpl in *; [by apply H in Hx as [? _]|].
      apply lookup_delete_Some in Hx as [_ Hx]. by apply H in Hx as [? _].
    + destruct (Howner id x Hx Ho) as [?|(g & Hfg & Hne)]; [by left|]. right. destruct (Hc g Hfg) as [c Hgc].
      specialize (Hcount g c Hfg Hgc). rewrite decide_False in Hcount by done. destruct Hcount as (c' & Hc' & Hi & _ & Hh).
      rewrite Hh in Hx. destruct (filtered_alive r R k g id x H Hfg Hx Ho) as (c0 & Hc0 & Hi0). exists g, c'. split; congruence.
Qed.

Lemma detach_unfiltered_last r R k f s : ring_ok r R -> filter_of k = None -> flow_map r !! k = Some f -> (k, s) ∈ R ->
  sinks_of k (spec_detach k s R) = [] -> exists id, attach_flow_data f = [Some id] /\ is_Some (alive (hw r) !! id) /\
  ring_ok (Ring (delete k (flow_map r)) (attach_map r) (Adapter (delete id (alive (hw r))) (next_flow (hw r))) (socks r)) (spec_detach k s R).
Proof.
  intros H Hn Hk Hin Hl. destruct (ro_flow _ _ H _ _ Hk) as [Hs Hf Ho Hr]. rewrite Hn, bool_decide_false in Hr.
  2: { intros E. apply sinks_of_elem in Hin. rewrite E in Hin. by apply not_elem_of_nil in Hin. }
  destruct Hr as (_ & id & Hd & Hal). exists id. split; [done|]. split; [eauto|].
  apply (detach_update r); simpl; try done.
  - intros k' Hkk. by rewrite lookup_delete_ne.
  - right. exists id. split; [|done]. exists (m_flow_tuple f), (m_flow_tag_id f). done.
  - intros g c Hg. congruence.
  - rewrite lookup_delete_eq. done.
  - intros id' x [Hne Hx]%lookup_delete_Some Hox. destruct (unfiltered_alive r R k f id' x H Hn (or_introl Hk) Hx Hox). congruence.
Qed.

Lemma detach_unfiltered_more r R k f s arr n : ring_ok r R -> filter_of k = None -> flow_map r !! k = Some f -> (k, s) ∈ R ->
  sinks_of k (spec_detach k s R) <> [] -> holds arr n (sinks_of k (spec_detach k s R)) ->
  ring_ok (Ring (<[k := set_sinks arr n f]> (flow_map r)) (attach_map r) (hw r) (socks r)) (spec_detach k s R).
Proof.
  intros H Hn Hk Hin Hl Ha. destruct (ro_flow _ _ H _ _ Hk) as [Hs Hf Ho Hr]. rewrite Hn, bool_decide_false in Hr.
  2: { intros E. apply sinks_of_elem in Hin. rewrite E in Hin. by apply not_elem_of_nil in Hin. }
  apply (detach_update r); simpl; try done.
  - intros k' Hkk. by rewrite lookup_insert_ne.
  - by left.
  - intros g c Hg. congruence.
  - rewrite lookup_insert_eq. eauto.
  - rewrite lookup_insert_eq. intros f' [= <-]. split; try done. by rewrite Hn, bool_decide_false.
  - intros id' x Hx Hox. left. eexists. rewrite lookup_insert_eq. split_and!; [done..|].
    by apply (unfiltered_alive r R k f id' x H Hn (or_introl Hk)).
Qed.

(** An object whose rule could not be made goes away. *)
Lemma drop_empty_ok r R k f : ring_ok r R -> filter_of k = None -> flow_map r !! k = Some f -> sinks_of k R = [] ->
  ring_ok (Ring (delete k (flow_map r)) (attach_map r) (hw r) (socks r)) R.
Proof.
  intros H Hn Hk Hl. destruct (ro_flow _ _ H _ _ Hk) as [Hs Hf Ho Hr]. rewrite Hn, Hl in Hr. simpl in Hr.
  apply (ring_ok_update r R _ R k); simpl; try done; try apply H; try (by rewrite Hn).
  - intros k' Hkk. by rewrite lookup_delete_ne.
  - by rewrite lookup_delete_eq.
  - intros id x Hx Hox. destruct (unfiltered_alive r R k f id x H Hn (or_introl Hk) Hx Hox) as [_ Hd]. destruct Hr. congruence.
Qed.

Lemma detach_unfiltered r R k s fk : device_removed cfg = false -> ring_ok r R -> filter_of k = None ->
  exists r', detach_key k (Some s) true fk r = Ok (bool_decide (is_Some (flow_map r !! k)), r') /\ ring_ok r' (spec_detach k s R).
Proof.
  intros Hdev H Hn. unfold detach_key. destruct (flow_map r !! k) as [f|] eqn:Hk.
  2: { exists r. split; [done|]. rewrite spec_detach_absent; [done|]. rewrite <- sinks_of_elem, (absent_sinks r R k H Hk). apply not_elem_of_nil. }
  destruct (ro_flow _ _ H _ _ Hk) as [Hs Hf Ho Hr]. rewrite Hn in Hr. unfold rfs_detach_flow.
  destruct (decide ((k, s) ∈ R)) as [Hin|Hin].
  - clear Hr. destruct (spec_detach_facts R k s (ro_nodup _ _ H) Hin) as (_ & (l1 & l2 & E & Hl1 & E') & _).
    rewrite E in Hs. destruct (del_sink_holds f l1 s l2 Hs Hl1) as (arr & n & -> & Hh). simpl.
    unfold prepare_filter_detach. simpl. rewrite Hf, Hn. simpl. rewrite (entries_zero _ _ _ Hh). case_bool_decide as Hl; simpl.
    + destruct (detach_unfiltered_last r R k f s) as (id & Hd & [x Hx] & Hok); [done..|by rewrite E'|].
      unfold destroy_ibv_flow. simpl. rewrite Hd. simpl. rewrite Hdev, Hx. simpl. rewrite (entries_zero _ _ _ Hh), bool_decide_true by done.
      unfold delete_rfs. simpl. rewrite Hf, Hn. simpl. eexists. split; [done|]. done.
    + rewrite (entries_zero _ _ _ Hh), bool_decide_false by done. eexists. split; [done|].
      apply detach_unfiltered_more; try done; by rewrite E'.
  - rewrite (del_sink_absent f (sinks_of k R) s Hs) by (by rewrite sinks_of_elem). simpl. rewrite spec_detach_absent by done.
    unfold prepare_filter_detach. rewrite Hf, Hn. simpl. rewrite (entries_zero _ _ _ Hs). case_bool_decide as Hl; simpl.
    + destruct Hr as [Ha Hd]. unfold destroy_ibv_flow. rewrite Hd. simpl. rewrite (entries_zero _ _ _ Hs), bool_decide_true by done.
      unfold delete_rfs. simpl. rewrite Hf, Hn. simpl. eexists. split; [done|]. by eapply drop_empty_ok.
    + rewrite (entries_zero _ _ _ Hs), bool_decide_false by done. eexists. split; [done|]. rewrite insert_id by done. by destruct r.
Qed.

(** The last flow of a filter takes the rule from it and destroys it. *)
Lemma detach_filtered_last r R k s g c id : ring_ok r R -> filter_of k = Some g -> (k, s) ∈ R -> attach_map r !! g = Some c ->
  ibv_flows c = [Some id] -> group g (spec_detach k s R) = [] ->
  is_Some (alive (hw r) !! id) /\
  ring_ok (Ring (delete k (flow_map r)) (delete g (attach_map r)) (Adapter (delete id (alive (hw r))) (next_flow (hw r))) (socks r))
    (spec_detach k s R).
Proof.
  intros H Hn Hin Hc Hi Hg. destruct (ro_count _ _ H _ _ Hc) as (_ & _ & id' & t & tag & Hi' & Hal & Ho).
  assert (id' = id) as -> by congruence. split; [eauto|]. pose proof (group_nil g k _ Hg Hn) as Hl.
  apply (detach_update r); simpl; try done.
  - intros k' Hkk. by rewrite lookup_delete_ne.
  - intros g' Hg'. rewrite lookup_delete_ne by congruence. done.
  - right. exists id. split; [|done]. exists t, tag. by rewrite (owner_filtered k g).
  - intros g' c' Hg' Hc'. assert (g' = g) as -> by congruence. rewrite decide_True by done. apply lookup_delete_eq.
  - rewrite lookup_delete_eq. done.
  - intros id' x [Hne Hx]%lookup_delete_Some Hox. destruct (filtered_alive r R k g id' x H Hn Hx Hox) as (c' & Hc' & Hi''). congruence.
Qed.

(** Another flow of a filter only lowers the counter. *)
Lemma detach_filtered_more r R k f s g c : ring_ok r R -> filter_of k = Some g -> flow_map r !! k = Some f -> (k, s) ∈ R ->
  attach_map r !! g = Some c -> group g (spec_detach k s R) <> [] -> forall b arr n, holds arr n (sinks_of k (spec_detach k s R)) ->
  ring_ok (Ring (if bool_decide (sinks_of k (spec_detach k s R) = []) then delete k (flow_map r)
                 else <[k := set_attached b (set_sinks arr n f)]> (flow_map r))
             (<[g := Counter (counter c - 1) (ibv_flows c)]> (attach_map r)) (hw r) (socks r)) (spec_detach k s R).
Proof.
  intros H Hn Hk Hin Hc Hg b arr n Ha. destruct (ro_flow _ _ H _ _ Hk) as [Hs Hf Ho Hr]. rewrite Hn in Hr.
  apply (detach_update r); simpl; try done.
  - intros k' Hkk. case_bool_decide; [by rewrite lookup_delete_ne|by rewrite lookup_insert_ne].
  - intros g' Hg'. rewrite lookup_insert_ne by congruence. done.
  - by left.
  - intros g' c' Hg' Hc'. assert (g' = g) as -> by congruence. assert (c' = c) as -> by congruence. rewrite decide_False by done.
    rewrite lookup_insert_eq. eauto.
  - intros Hne. rewrite bool_decide_false by done. rewrite lookup_insert_eq. eauto.
  - case_bool_decide; [by rewrite lookup_delete_eq|]. rewrite lookup_insert_eq. intros f' [= <-]. split; try done. rewrite Hn. split; [done|].
    simpl. rewrite lookup_insert_eq. destruct Hr as [_ [?|(c' & id & Hc' & Hi & Hd)]]; [by left|right].
    eexists _, id. split; [done|]. split; simpl; congruence.
  - intros id' x Hx Hox. right. eauto.
Qed.

Lemma detach_filtered r R k s g : device_removed cfg = false -> ring_ok r R -> filter_of k = Some g -> (k, s) ∈ R ->
  exists r', (let '(keep, r) := uncount_flow true g r in detach_key k (Some s) keep g r) = Ok (true, r') /\ ring_ok r' (spec_detach k s R).
Proof.
  intros Hdev H Hn Hin.
  destruct (spec_detach_facts R k s (ro_nodup _ _ H) Hin) as (_ & (l1 & l2 & E & Hl1 & E') & _ & _ & Hlen). specialize (Hlen g Hn).
  destruct (ro_counted _ _ H g) as [c Hc]; [intros Hg; by rewrite Hg in Hlen|].
  destruct (ro_count _ _ H _ _ Hc) as (Hcnt & _ & id & _ & _ & Hi & _ & _).
  destruct (ro_found _ _ H _ Hin) as [f Hk]. simpl in Hk. destruct (ro_flow _ _ H _ _ Hk) as [Hs Hf Ho Hr]. rewrite Hn in Hr.
  unfold uncount_flow. rewrite Hc. rewrite Z.max_r by lia. unfold detach_key. simpl. rewrite Hk. unfold rfs_detach_flow.
  rewrite E in Hs. destruct (del_sink_holds f l1 s l2 Hs Hl1) as (arr & n & -> & Hh). simpl.
  unfold prepare_filter_detach. simpl. rewrite Hf, Hn, lookup_insert_eq. simpl. rewrite insert_insert_eq.
  destruct (Z.eqb_spec (counter c - 1) 0) as [Hz|Hz]; simpl.
  - assert (group g (spec_detach k s R) = []) as Hg by (destruct (group g (spec_detach k s R)); [done|simpl in *; lia]).
    pose proof (group_nil g k _ Hg Hn) as Hl. rewrite E' in Hl. rewrite Hi.
    destruct (detach_filtered_last r R k s g c id) as [[x Hx] Hok]; [done..|].
    assert (take_flows (attach_flow_data f) [Some id] = Ok [Some id]) as Htk.
    { destruct Hr as [_ [->|(c' & id' & Hc' & Hi' & ->)]]; [done|]. assert (id' = id) as -> by congruence. simpl.
      by rewrite bool_decide_false by (by intros []). }
    rewrite bool_decide_false by done. simpl. rewrite Htk. simpl. rewrite Hz. simpl. rewrite (entries_zero _ _ _ Hh), bool_decide_true by done. simpl.
    unfold destroy_ibv_flow. simpl. rewrite Hdev, Hx. simpl. rewrite (entries_zero _ _ _ Hh), bool_decide_true by done.
    unfold delete_rfs. simpl. rewrite Hf, Hn. simpl. rewrite delete_insert_eq. eexists. split; [done|]. done.
  - assert (group g (spec_detach k s R) <> []) as Hg by (intros Hg; rewrite Hg in Hlen; simpl in Hlen; lia).
    rewrite (proj2 (Z.eqb_neq _ _) Hz), andb_false_r. simpl. rewrite <- E' in Hh.
    pose proof (detach_filtered_more r R k f s g c H Hn Hk Hin Hc Hg false arr n Hh) as Hok.
    rewrite (entries_zero _ _ _ Hh). case_bool_decide; simpl; [unfold delete_rfs; simpl; rewrite Hf, Hn; simpl|]; eexists; (split; [done|]); done.
Qed.

Lemma detach_flow_ok r R t s k : device_removed cfg = false -> ring_ok r R -> key_of t = Some k -> (filter_of k <> None -> (k, s) ∈ R) ->
  exists ret r', detach_flow t (Some s) r = Ok (ret, r') /\ ring_ok r' (spec_detach k s R).
Proof.
  intros Hdev H Hk Hd. unfold detach_flow. unfold key_of in Hk.
  destruct (is_udp_uc t) eqn:E1; [|destruct (is_udp_mc t) eqn:E2; [|destruct (is_tcp t) eqn:E3; [|done]]]; injection Hk as <-.
  - destruct (detach_unfiltered r R (key_udp_uc (m_dst_port t)) s (l2_mc_ip 0)) as (r' & -> & Hok); eauto.
  - destruct mc_filtered eqn:Ef.
    + replace ((m_transport_type cfg =? NeighTable.VMA_TRANSPORT_IB) || m_b_sysvar_eth_mc_l2_only_rules cfg) with true
        by (unfold mc_filtered in Ef; destruct (_ =? _), (m_b_sysvar_eth_mc_l2_only_rules cfg); simpl in *; congruence).
      destruct (detach_filtered r R (key_udp_mc (m_dst_ip t) (m_dst_port t)) s (l2_mc_ip (m_dst_ip t))) as (r' & Hr' & Hok);
        [done|done|by simpl; rewrite Ef|apply Hd; by simpl; rewrite Ef|]. eauto.
    + assert (uncount_flow ((m_transport_type cfg =? NeighTable.VMA_TRANSPORT_IB) || m_b_sysvar_eth_mc_l2_only_rules cfg)
        (l2_mc_ip (m_dst_ip t)) r = (true, r)) as ->.
      { unfold uncount_flow. case_match; [|done]. destruct (attach_map r !! l2_mc_ip (m_dst_ip t)) as [c|] eqn:Hc; [|done].
        destruct (ro_count _ _ H _ _ Hc) as (_ & Hg & _). destruct (group _ R) as [|[k s'] l] eqn:Eg; [done|].
        assert ((k, s') ∈ group (l2_mc_ip (m_dst_ip t)) R) as [Hkf _]%list_elem_of_filter by (rewrite Eg; left).
        simpl in Hkf. unfold filter_of in Hkf. rewrite Ef in Hkf. repeat case_match; done. }
      destruct (detach_unfiltered r R (key_udp_mc (m_dst_ip t) (m_dst_port t)) s (l2_mc_ip (m_dst_ip t))) as (r' & -> & Hok);
        [done|done|by simpl; rewrite Ef|]. eauto.
  - destruct (tcp_3t_rules cfg) eqn:Ef.
    + destruct (detach_filtered r R (key_tcp (m_src_ip t) (m_dst_port t) (m_src_port t)) s (tcp_dst_port (m_dst_port t))) as (r' & Hr' & Hok);
        [done|done|by simpl; rewrite Ef|apply Hd; by simpl; rewrite Ef|]. eauto.
    + unfold uncount_flow. destruct (detach_unfiltered r R (key_tcp (m_src_ip t) (m_dst_port t) (m_src_port t)) s (tcp_dst_port (m_dst_port t))) as (r' & -> & Hok);
        [done|done|by simpl; rewrite Ef|]. eauto.
Qed.

(** ** Sequences of calls *)

Inductive flow_call := c_attach (t : flow_tuple) (s : sink) | c_detach (t : flow_tuple) (s : sink).

Definition flow_call_run (c : flow_call) (r : ring_simple) : res (bool * ring_simple) :=
  match c with c_attach t s => attach_flow t (Some s) r | c_detach t s => detach_flow t (Some s) r end.

Fixpoint flow_calls_run (l : list flow_call) (r : ring_simple) : res ring_simple :=
  match l with [] => Ok r | c :: l => x ← flow_call_run c r; flow_calls_run l (snd x) end.

Definition spec_call (c : flow_call) (R : registrations) : registrations :=
  match c with
  | c_attach t s => match key_of t with Some k => spec_attach k s R | None => R end
  | c_detach t s => match key_of t with Some k => spec_detach k s R | None => R end
  end.

Definition spec_calls (l : list flow_call) (R : registrations) : registrations := fold_left (fun R c => spec_call c R) l R.

(** The sockets attach a flow that is counted by a filter once, and detach it
    only after that. *)
Definition paired (c : flow_call) (R : registrations) : Prop :=
  match c with
  | c_attach t s => forall k, key_of t = Some k -> filter_of k <> None -> (k, s) ∉ R
  | c_detach t s => forall k, key_of t = Some k -> filter_of k <> None -> (k, s) ∈ R
  end.

Fixpoint all_paired (l : list flow_call) (R : registrations) : Prop :=
  match l with [] => True | c :: l => paired c R /\ all_paired l (spec_call c R) end.

Lemma no_key t s r : key_of t = None -> attach_flow t (Some s) r = Ok (false, r) /\ detach_flow t (Some s) r = Ok (false, r).
Proof.
  unfold key_of, attach_flow, attach_begin, detach_flow.
  destruct (is_udp_uc t), (is_udp_mc t), (is_tcp t); done.
Qed.

#[local] Arguments attach_flow : simpl never.

Lemma flow_calls_ok l r R : supported -> device_removed cfg = false -> (forall n, creates cfg n = true) -> ring_ok r R -> all_paired l R ->
  returns (fun r' => ring_ok r' (spec_calls l R)) (flow_calls_run l r).
Proof.
  intros Hsup Hdev Hall. revert r R. induction l as [|c l IH]; intros r R H Hp; [by apply returns_Ok|]. destruct Hp as [Hc Hp]. simpl.
  eapply (returns_bind (fun x => ring_ok (snd x) (spec_call c R))); [|intros x Hx; by apply IH].
  destruct c as [t s|t s]; simpl in *; (destruct (key_of t) as [k|] eqn:Hk; [|destruct (no_key t s r Hk) as [E1 E2]; rewrite ?E1, ?E2; by apply returns_Ok]).
  - destruct (attach_flow_ok r R t s k) as (ret & r' & -> & Hok & Hret); [done..|split; [by apply Hc|done]|].
    rewrite (Hret Hall) in Hok. by apply returns_Ok.
  - destruct (detach_flow_ok r R t s k) as (ret & r' & -> & Hok); [done..|by apply Hc|]. by apply returns_Ok.
Qed.

(** ** What the invariant says about the adapter *)

(** The sockets of flow [k], as the ring has them. *)
Definition ring_sinks (k : flow_key) (r : ring_simple) : list (option sink) :=
  match flow_map r !! k with Some f => take (m_n_sinks_list_entries f) (m_sinks_list f) | None => [] end.

Lemma ring_ok_sinks r R k : ring_ok r R -> ring_sinks k r = Some <$> sinks_of k R.
Proof.
  intros H. unfold ring_sinks. destruct (flow_map r !! k) as [f|] eqn:Hk.
  - apply holds_take, (ro_flow _ _ H _ _ Hk).
  - by rewrite (absent_sinks r R k H Hk).
Qed.

(** There is exactly one live rule for each flow or filter with a
    registration, and no other one. *)
Definition steered (r : ring_simple) (R : registrations) : Prop :=
  (forall k s, (k, s) ∈ R -> exists id, rule_of r (owner k) id) /\
  (forall o id, rule_of r o id -> exists k s, (k, s) ∈ R /\ owner k = o) /\
  (forall id x, alive (hw r) !! id = Some x -> exists o, rule_of r o id) /\
  (forall o id id', rule_of r o id -> rule_of r o id' -> id = id').

Lemma sinks_registered k R : sinks_of k R <> [] -> exists s, (k, s) ∈ R.
Proof. destruct (sinks_of k R) as [|s l] eqn:E; [done|]. intros _. exists s. apply sinks_of_elem. rewrite E. left. Qed.

Lemma ring_ok_steered r R : ring_ok r R -> steered r R.
Proof.
  intros H. assert (forall o id, rule_of r o id -> (exists k f, flow_map r !! k = Some f /\ filter_of k = None /\
      attach_flow_data f = [Some id] /\ o = inl k) \/ exists g c, attach_map r !! g = Some c /\ ibv_flows c = [Some id] /\ o = inr g) as Hown.
  { intros o id (t & tag & Hx & Ho). destruct (ro_alive _ _ H _ _ _ Hx) as [_ [(k & f & Hk & Hn & Hd)|(g & c & Hg & Hi)]].
    - left. exists k, f. split_and!; [done..|]. pose proof (flow_rule_owner r R k f id (t, tag) H Hk Hn Hd Hx) as Ho'.
      rewrite owner_unfiltered in Ho' by done. simpl in *. congruence.
    - right. exists g, c. split_and!; [done..|]. destruct (ro_count _ _ H _ _ Hg) as (_ & _ & id' & t' & tag' & Hi' & Hx' & Ho'). congruence. }
  split_and!.
  - intros k s Hin. destruct (filter_of k) as [g|] eqn:Hn.
    + destruct (ro_counted _ _ H g) as [c Hc]; [intros E; apply (sinks_of_group g) in Hin; [|done]; rewrite E in Hin; by apply not_elem_of_nil in Hin|].
      destruct (ro_count _ _ H _ _ Hc) as (_ & _ & id & t & tag & _ & Hx & Ho). exists id, t, tag. by rewrite (owner_filtered k g).
    + destruct (ro_found _ _ H _ Hin) as [f Hk]. simpl in Hk. destruct (ro_flow _ _ H _ _ Hk) as [_ _ Ho Hr]. rewrite Hn, bool_decide_false in Hr.
      2: { intros E. apply sinks_of_elem in Hin. rewrite E in Hin. by apply not_elem_of_nil in Hin. }
      destruct Hr as (_ & id & _ & Hx). exists id, (m_flow_tuple f), (m_flow_tag_id f). done.
  - intros o id Hr. destruct (Hown o id Hr) as [(k & f & Hk & Hn & Hd & ->)|(g & c & Hc & Hi & ->)].
    + destruct (ro_flow _ _ H _ _ Hk) as [_ _ _ Hrule]. rewrite Hn in Hrule. case_bool_decide as Hl; [destruct Hrule; congruence|].
      apply sinks_registered in Hl as [s Hs]. exists k, s. by rewrite owner_unfiltered.
    + destruct (ro_count _ _ H _ _ Hc) as (_ & Hg & _). destruct (group g R) as [|[k s] l] eqn:E; [done|].
      assert ((k, s) ∈ group g R) as [Hkg Hin]%list_elem_of_filter by (rewrite E; left). exists k, s. by rewrite (owner_filtered k g).
  - intros id [t tag] Hx. destruct (ro_alive _ _ H _ _ _ Hx) as [_ [(k & f & Hk & Hn & Hd)|(g & c & Hg & Hi)]].
    + exists (owner k), t, tag. split; [done|]. by apply (flow_rule_owner r R k f id (t, tag)).
    + destruct (ro_count _ _ H _ _ Hg) as (_ & _ & id' & t' & tag' & Hi' & Hx' & Ho'). assert (id' = id) as -> by congruence. exists (inr g), t', tag'. done.
  - intros o id id' H1 H2. destruct (Hown _ _ H1) as [(k & f & Hk & Hn & Hd & ->)|(g & c & Hc & Hi & ->)];
      destruct (Hown _ _ H2) as [(k' & f' & Hk' & Hn' & Hd' & Eo)|(g' & c' & Hc' & Hi' & Eo)]; congruence.
Qed.

(** C8: Flows are steered by reference counts: after any sequence of
    attachments and detachments of sockets that pair them for counted flows,
    with an adapter that never refuses a rule ([failure_loses_rule] shows what
    happens otherwise; interleaved attachments below are covered with refusals,
    where no rules are shared), each flow of the ring has
    exactly the sockets that are registered for it, in the order they
    attached; and the adapter has exactly one live rule for each flow, or for
    each group of flows that shares a filter, that has a registered socket.  No
    rule is destroyed twice and none outlives its last socket. *)
Theorem flows_refine l : supported -> device_removed cfg = false -> (forall n, creates cfg n = true) -> all_paired l [] ->
  exists r, flow_calls_run l new_ring = Ok r /\
    (forall k, ring_sinks k r = Some <$> sinks_of k (spec_calls l [])) /\ steered r (spec_calls l []).
Proof.
  intros Hsup Hdev Hall Hp. destruct (flow_calls_ok l new_ring [] Hsup Hdev Hall new_ring_ok Hp) as (r & Hr & Hok).
  exists r. split; [done|]. split; [intros k; by apply ring_ok_sinks|by apply ring_ok_steered].
Qed.

(** ** Interleaved attachments

    The attachments of several threads interleave where the lock is dropped;
    the third component is what the threads were told. *)

Inductive event := e_begin (t : flow_tuple) (s : sink) | e_end (i : nat) | e_detach (t : flow_tuple) (s : sink).

Abbreviation schedule := (ring_simple * list (flow_tuple * sink * pending) * registrations)%type.

Definition told (t : flow_tuple) (s : sink) (ok : bool) (R : registrations) : registrations :=
  if ok then spec_call (c_attach t s) R else R.

Definition event_run (e : event) (x : schedule) : res schedule :=
  let '(r, P, R) := x in
  match e with
  | e_begin t s =>
    y ← attach_begin t s r;
    let '(b, r) := y : begun * ring_simple in
    match b with
    | begin_failed => Ok (r, P, R)
    | begin_found k tag => z ← attach_finish t s k tag r; Ok (snd z, P, told t s (fst z) R)
    | begin_new p => Ok (r, P ++ [(t, s, p)], R)
    end
  | e_end i =>
    match P !! i with
    | Some (t, s, p) => z ← attach_end t s p r; Ok (snd z, delete i P, told t s (fst z) R)
    | None => Ok (r, P, R)
    end
  | e_detach t s => z ← detach_flow t (Some s) r; Ok (snd z, P, spec_call (c_detach t s) R)
  end.

Fixpoint events_run (l : list event) (x : schedule) : res schedule :=
  match l with [] => Ok x | e :: l => x ← event_run e x; events_run l x end.

Definition waiting_ok (x : flow_tuple * sink * pending) : Prop :=
  key_of x.1.1 = Some (p_key x.2) /\ fresh (p_key x.2) (p_rfs x.2).

Definition schedule_ok (x : schedule) : Prop := ring_ok x.1.1 x.2 /\ Forall waiting_ok x.1.2.

Lemma counted_unfiltered k r : filter_of k = None -> counted k r = r.
Proof. intros Hn. unfold counted. by rewrite Hn. Qed.

Lemma told_ok t s k ok R : key_of t = Some k -> told t s ok R = if ok then spec_attach k s R else R.
Proof. intros Hk. unfold told. simpl. by rewrite Hk. Qed.

Lemma attach_end_ok r R t s p : ring_ok r R -> filter_of (p_key p) = None -> waiting_ok (t, s, p) ->
  returns (fun z => ring_ok (snd z) (told t s (fst z) R)) (attach_end t s p r).
Proof.
  intros H Hn [Hk Hf]. simpl in *. unfold attach_end. destruct (flow_map r !! p_key p) as [f|] eqn:Hm.
  - unfold delete_rfs. rewrite (fr_filter _ _ Hf), Hn, (fr_attached _ _ Hf). simpl.
    destruct (attach_finish_ok r R t s (p_key p) (p_tag p) f) as (ret & r' & Hr & Hok & _); [done|by left|by rewrite Hn|].
    rewrite <- current_insert, counted_unfiltered in Hr by done. exists (ret, r'). split; [by rewrite <- Hr; destruct r|].
    simpl. by rewrite (told_ok _ _ _ _ _ Hk).
  - destruct (attach_finish_ok r R t s (p_key p) (p_tag p) (p_rfs p)) as (ret & r' & Hr & Hok & _); [done|by right|by rewrite Hn|].
    rewrite counted_unfiltered in Hr by done. exists (ret, r'). split; [done|]. simpl. by rewrite (told_ok _ _ _ _ _ Hk).
Qed.

Lemma event_run_ok e x : supported -> device_removed cfg = false -> (forall k, filter_of k = None) -> schedule_ok x ->
  returns schedule_ok (event_run e x).
Proof.
  intros Hsup Hdev Hnf. destruct x as [[r P] R]. intros [H HP]. simpl in *. destruct e as [t s|i|t s]; simpl.
  - destruct (key_of t) as [k|] eqn:Hk.
    2: { assert (attach_begin t s r = Ok (begin_failed, r)) as -> by
           (unfold key_of, attach_begin in *; destruct (is_udp_uc t), (is_udp_mc t), (is_tcp t); done). by apply returns_Ok. }
    destruct (attach_begin_ok r t s k Hsup Hk) as (b & -> & Hb). simpl. rewrite counted_unfiltered by done.
    destruct b as [|k' tag|p]; [done|..]; simpl in Hb.
    + destruct Hb as [-> [f Hf]].
      destruct (attach_finish_ok r R t s k tag f) as (ret & r' & Hr & Hok & _); [done|by left|by rewrite Hnf|].
      rewrite <- current_insert, counted_unfiltered in Hr by done. rewrite Hr. apply returns_Ok. split; [|done].
      simpl. by rewrite (told_ok _ _ _ _ _ Hk).
    + destruct Hb as (<- & Hn & Hf). apply returns_Ok. split; [done|]. simpl. apply Forall_app. split; [done|].
      by apply Forall_singleton.
  - destruct (P !! i) as [[[t s] p]|] eqn:Hi; [|by apply returns_Ok].
    eapply returns_bind; [apply attach_end_ok; [done|done|by eapply Forall_lookup_1 in HP]|]. intros z Hz.
    apply returns_Ok. split; [done|]. simpl. by apply Forall_delete.
  - destruct (key_of t) as [k|] eqn:Hk.
    + destruct (detach_flow_ok r R t s k) as (ret & r' & -> & Hok); [done..|by rewrite Hnf|]. by apply returns_Ok.
    + destruct (no_key t s r Hk) as [_ ->]. by apply returns_Ok.
Qed.

Lemma events_run_ok l x : supported -> device_removed cfg = false -> (forall k, filter_of k = None) -> schedule_ok x ->
  returns schedule_ok (events_run l x).
Proof.
  intros Hsup Hdev Hnf. revert x. induction l as [|e l IH]; intros x Hx; simpl; [by apply returns_Ok|].
  eapply returns_bind; [by apply event_run_ok|]. intros x' Hx'. by apply IH.
Qed.

Lemma schedule_start : schedule_ok (new_ring, [], []).
Proof. split; [apply new_ring_ok|by constructor]. Qed.

Lemma no_filters : mc_filtered = false -> tcp_3t_rules cfg = false -> forall k, filter_of k = None.
Proof. intros Hm Ht []; simpl; by rewrite ?Hm, ?Ht. Qed.

(** C20: The lock of the ring is dropped inside an attachment, between looking
    the flow up and registering the socket.  Without counted flows this is
    safe: whatever the interleaving of attachments and detachments, and even
    if the adapter refuses rules, every operation returns, each flow has
    exactly the sockets that were told they are attached, in order, and there
    is exactly one live rule for each flow with a socket. *)
Theorem flows_interleaved l : supported -> device_removed cfg = false -> mc_filtered = false -> tcp_3t_rules cfg = false ->
  exists r P R, events_run l (new_ring, [], []) = Ok (r, P, R) /\
    (forall k, ring_sinks k r = Some <$> sinks_of k R) /\ steered r R.
Proof.
  intros Hsup Hdev Hm Ht.
  destruct (events_run_ok l _ Hsup Hdev (no_filters Hm Ht) schedule_start) as ([[r P] R] & Hr & Hok & _).
  exists r, P, R. split; [done|]. split; [intros k; by apply ring_ok_sinks|by apply ring_ok_steered].
Qed.

(** ** The class of the object of a flow *)

Definition class_of (k : flow_key) (c : rfs_class) : Prop :=
  match k with
  | key_udp_uc _ => c = rfs_uc
  | key_udp_mc _ _ => c = rfs_mc
  | key_tcp _ _ _ => c <> rfs_mc
  end.

Definition classed (m : gmap flow_key rfs) : Prop := map_Forall (fun k f => class_of k (class f)) m.

Lemma add_sink_class s f : class (add_sink s f) = class f.
Proof. unfold add_sink. by destruct (registered s f). Qed.

Lemma rfs_attach_flow_class s f m h : class (rfs_attach_flow s f m h).1.1.2 = class f.
Proof.
  unfold rfs_attach_flow. destruct (prepare_filter_attach m f) as [[c found] f1] eqn:E1.
  assert (class f1 = class f) as <-.
  { unfold prepare_filter_attach in E1. destruct (m_p_rule_filter f) as [k|]; [destruct (m !! k)|]; by injection E1 as _ _ <-. }
  destruct (_ && _).
  - destruct (create_ibv_flow f1 h) as [[ok f2] h2] eqn:E2. assert (class f2 = class f1) as <-.
    { unfold create_ibv_flow in E2. destruct (create_flows _ _ _ _) as [[[] l] h3]; by injection E2 as <- <- _. }
    destruct ok, s; simpl; try done. apply add_sink_class.
  - destruct s; simpl; [apply add_sink_class|done].
Qed.

Lemma rfs_detach_flow_class s f m h x : rfs_detach_flow s f m h = Ok x -> class x.1.1.2 = class f.
Proof.
  unfold rfs_detach_flow. destruct (match s with Some s => del_sink s f | None => (false, f) end) as [ret f1] eqn:E1.
  assert (class f1 = class f) as <-.
  { destruct s as [s|]; [|by injection E1 as _ <-]. unfold del_sink in E1. destruct (list_find _ _) as [[]|]; by injection E1 as _ <-. }
  intros H. apply bind_Ok in H as ([[c m1] f2] & E2 & H). assert (class f2 = class f1) as <-.
  { unfold prepare_filter_detach in E2. destruct (m_p_rule_filter f1) as [k|]; [|by injection E2 as _ _ <-].
    destruct (m !! k); [|by injection E2 as _ _ <-]. destruct (_ || _); [by injection E2 as _ _ <-|].
    apply bind_Ok in E2 as (l & _ & E2). by injection E2 as _ _ <-. }
  destruct (_ && _); [|by injection H as <-]. apply bind_Ok in H as ([f3 h3] & E3 & H). injection H as <-. simpl.
  unfold destroy_ibv_flow in E3. apply bind_Ok in E3 as (h4 & _ & E3). by injection E3 as <- _.
Qed.

Lemma attach_finish_classed t s k tag r x : attach_finish t s k tag r = Ok x -> classed (flow_map r) -> classed (flow_map x.2).
Proof.
  intros H Hc. unfold attach_finish in H. apply bind_Ok in H as (f & Hf & H).
  pose proof (rfs_attach_flow_class (Some s) f (attach_map r) (hw r)) as Hcl.
  destruct (rfs_attach_flow _ _ _ _) as [[[ret f1] m] h]. simpl in Hcl.
  assert (classed (<[k := f1]> (flow_map r))).
  { apply map_Forall_insert_2; [|done]. rewrite Hcl. apply Hc. by apply must_Ok. }
  destruct ret; by injection H as <-.
Qed.

Definition pending_classed (x : flow_tuple * sink * pending) : Prop := class_of (p_key x.2) (class (p_rfs x.2)).

Lemma attach_end_classed t s p r x : pending_classed (t, s, p) -> attach_end t s p r = Ok x -> classed (flow_map r) -> classed (flow_map x.2).
Proof.
  intros Hp H Hc. unfold attach_end in H. destruct (flow_map r !! p_key p) as [f|] eqn:Hk.
  - apply bind_Ok in H as (y & _ & H). by eapply attach_finish_classed in H.
  - eapply attach_finish_classed in H; [done|]. simpl. by apply map_Forall_insert_2.
Qed.

Lemma new_rfs_class c t k tag f : new_rfs c t k tag = Ok (Some f) -> class f = c.
Proof.
  unfold new_rfs. intros H. destruct c.
  - destruct (is_udp_mc t); [done|]. destruct uc_flow_spec; [by injection H as <-|done].
  - destruct (negb _); [done|]. apply bind_Ok in H as ([] & _ & H); [by injection H as <-|done].
  - destruct (is_udp_mc t); [done|]. destruct uc_flow_spec; [by injection H as <-|done].
Qed.

Lemma look_up_classed t s k tag tag' o r r' b : (forall f, o = Ok (Some f) -> class_of k (class f)) ->
  look_up k tag tag' o r = Ok (b, r') -> r' = r /\ forall p, b = begin_new p -> pending_classed (t, s, p).
Proof.
  intros Ho H. unfold look_up in H. destruct (flow_map r !! k); [by injection H as <- <-|].
  apply bind_Ok in H as (f & -> & H). destruct f as [f|]; injection H as <- <-; [|done]. split; [done|].
  intros p [= <-]. by apply Ho.
Qed.

Lemma attach_begin_classed t s r r' b : attach_begin t s r = Ok (b, r') ->
  flow_map r' = flow_map r /\ forall p, b = begin_new p -> pending_classed (t, s, p).
Proof.
  intros H. unfold attach_begin in H. destruct (is_udp_uc t).
  { apply look_up_classed with (t := t) (s := s) in H as [-> ?]; [done|]. intros f ->%new_rfs_class. done. }
  destruct (is_udp_mc t).
  { apply look_up_classed with (t := t) (s := s) in H as [-> ?]; [by destruct mc_filtered|]. intros f ->%new_rfs_class. done. }
  destruct (is_tcp t); [|by injection H as <- <-]. destruct (_ && _).
  - apply look_up_classed with (t := t) (s := s) in H as [-> ?]; [by destruct (tcp_3t_rules cfg)|].
    intros f Hf. apply bind_Ok in Hf as ([f'|] & E & Hf); [|done]. injection Hf as ->. by apply new_rfs_class in E as ->.
  - apply look_up_classed with (t := t) (s := s) in H as [-> ?]; [by destruct (tcp_3t_rules cfg)|]. intros f ->%new_rfs_class. done.
Qed.

Lemma detach_flow_classed t s r x : detach_flow t s r = Ok x -> classed (flow_map r) -> classed (flow_map x.2).
Proof.
  assert (forall k s keep fk r x, detach_key k s keep fk r = Ok x -> classed (flow_map r) -> classed (flow_map x.2)) as Hkey.
  { clear. intros k s keep fk r x H Hc. unfold detach_key in H. destruct (flow_map r !! k) as [f|] eqn:Hk; [|by injection H as <-].
    apply bind_Ok in H as ([[[ret f1] m] h] & E & H). apply rfs_detach_flow_class in E. simpl in E.
    destruct (_ =? _)%nat.
    - apply bind_Ok in H as (y & _ & H). injection H as <-. simpl. by apply map_Forall_delete.
    - injection H as <-. simpl. apply map_Forall_insert_2; [|done]. rewrite E. by apply Hc. }
  assert (forall b k r, flow_map (uncount_flow b k r).2 = flow_map r) as Hun.
  { clear. intros [] k r; [|done]. simpl. by destruct (attach_map r !! k). }
  intros H Hc. unfold detach_flow in H. destruct (is_udp_uc t); [by eapply Hkey|]. destruct (is_udp_mc t).
  { destruct (uncount_flow _ _ r) as [keep r1] eqn:E. eapply Hkey; [done|]. pose proof (Hun ((m_transport_type cfg =? NeighTable.VMA_TRANSPORT_IB) || m_b_sysvar_eth_mc_l2_only_rules cfg) (l2_mc_ip (m_dst_ip t)) r) as Hr.
    rewrite E in Hr. simpl in Hr. by rewrite Hr. }
  destruct (is_tcp t); [|by injection H as <-].
  destruct (uncount_flow _ _ r) as [keep r1] eqn:E. eapply Hkey; [done|]. pose proof (Hun (tcp_3t_rules cfg) (tcp_dst_port (m_dst_port t)) r) as Hr.
  rewrite E in Hr. simpl in Hr. by rewrite Hr.
Qed.

Lemma event_run_classed e x y : event_run e x = Ok y -> classed (flow_map x.1.1) -> Forall pending_classed x.1.2 ->
  classed (flow_map y.1.1) /\ Forall pending_classed y.1.2.
Proof.
  destruct x as [[r P] R]. destruct e as [t s|i|t s]; simpl; intros H Hc HP.
  - apply bind_Ok in H as ([b r1] & E & H). apply attach_begin_classed in E as [Er Hb]. destruct b as [|k tag|p].
    + injection H as <-. simpl. by rewrite Er.
    + apply bind_Ok in H as (z & E & H). injection H as <-. simpl. split; [|done]. eapply attach_finish_classed; [done|by rewrite Er].
    + injection H as <-. simpl. rewrite Er. split; [done|]. apply Forall_app. split; [done|]. apply Forall_singleton. by apply Hb.
  - destruct (P !! i) as [[[t s] p]|] eqn:Hi; [|by injection H as <-].
    apply bind_Ok in H as (z & E & H). injection H as <-. simpl. split; [|by apply Forall_delete].
    eapply attach_end_classed; [|done..]. by eapply Forall_lookup_1 in HP.
  - apply bind_Ok in H as (z & E & H). injection H as <-. simpl. split; [|done]. by eapply detach_flow_classed.
Qed.

Lemma events_run_classed l x y : events_run l x = Ok y -> classed (flow_map x.1.1) -> Forall pending_classed x.1.2 -> classed (flow_map y.1.1).
Proof.
  revert x. induction l as [|e l IH]; intros x H Hc HP; simpl in H; [by injection H as <-|].
  apply bind_Ok in H as (z & E & H). apply event_run_classed in E as [? ?]; [|done..]. by eapply IH.
Qed.

(** ** Deletion of the ring *)

Definition drop_flow (k : flow_key) (R : registrations) : registrations := filter (fun p => p.1 <> k) R.

Lemma drop_flow_sinks k k' R : sinks_of k' (drop_flow k R) = if decide (k' = k) then [] else sinks_of k' R.
Proof.
  unfold sinks_of, drop_flow. rewrite list_filter_filter. case_decide as Hk.
  - destruct (filter _ R) as [|p l] eqn:E; [done|].
    assert (p ∈ filter (fun x => x.1 = k' /\ x.1 <> k) R) as [[? ?] _]%list_elem_of_filter by (rewrite E; left). congruence.
  - f_equal. apply list_filter_iff. intros p. split; [tauto|]. intros <-. auto.
Qed.

Lemma drop_flow_group g k R : filter_of k = None -> group g (drop_flow k R) = group g R.
Proof.
  intros Hn. unfold group, drop_flow. rewrite list_filter_filter. apply list_filter_iff. intros p.
  split; [tauto|]. intros Hp. split; [done|]. intros E. rewrite E, Hn in Hp. done.
Qed.

(** The destructor of an object without filter destroys its rule. *)
Lemma delete_flow_ok r R k f : device_removed cfg = false -> filter_of k = None -> ring_ok r R -> flow_map r !! k = Some f ->
  exists h, delete_rfs f (attach_map r) (hw r) = Ok (attach_map r, h) /\
    ring_ok (Ring (delete k (flow_map r)) (attach_map r) h (socks r)) (drop_flow k R).
Proof.
  intros Hdev Hn H Hk. destruct (ro_flow _ _ H _ _ Hk) as [Hs Hf Ho Hr]. rewrite Hn in Hf, Hr. unfold delete_rfs. rewrite Hf.
  assert (forall h, (exists id, attach_flow_data f = [Some id] /\ rule_of r (owner k) id /\ h = Adapter (delete id (alive (hw r))) (next_flow (hw r))) \/
    (attach_flow_data f = [None] /\ h = hw r) -> ring_ok (Ring (delete k (flow_map r)) (attach_map r) h (socks r)) (drop_flow k R)) as Hok.
  { intros h Hh. assert (h = hw r \/ exists id, h = Adapter (delete id (alive (hw r))) (next_flow (hw r)) /\ rule_of r (owner k) id) as Hh' by naive_solver.
    apply (ring_ok_update r R _ _ k); simpl; try done.
    - apply NoDup_filter, H.
    - intros k' Hne. rewrite drop_flow_sinks, decide_False, lookup_delete_ne by done. done.
    - intros g _. by rewrite drop_flow_group.
    - intros id x Hox. destruct Hh' as [->|(id0 & -> & t & tag & Hx0 & Ho0)]; [done|]. simpl. rewrite lookup_delete_Some. split; [naive_solver|].
      intros Hx. split; [|done]. intros <-. rewrite Hx in Hx0. injection Hx0 as ->. done.
    - by destruct Hh' as [->|(id0 & -> & _)].
    - by rewrite Hn.
    - by rewrite drop_flow_sinks, decide_True.
    - by rewrite lookup_delete_eq.
    - by rewrite Hn.
    - intros id x Hx Hox. exfalso. destruct Hh as [(id0 & Hd & _ & ->)|[Hd ->]]; simpl in Hx.
      + apply lookup_delete_Some in Hx as [Hne Hx]. destruct (unfiltered_alive r R k f id x H Hn (or_introl Hk) Hx Hox). congruence.
      + destruct (unfiltered_alive r R k f id x H Hn (or_introl Hk) Hx Hox). congruence. }
  case_bool_decide; destruct Hr as [-> Hr].
  - exists (hw r). split; [done|]. apply Hok. by right.
  - destruct Hr as (id & Hd & Hal). unfold destroy_ibv_flow. rewrite Hd. simpl. rewrite Hdev, Hal. simpl. eexists. split; [done|].
    apply Hok. left. exists id. split; [done|]. split; [|done]. exists (m_flow_tuple f), (m_flow_tag_id f). done.
Qed.

Lemma del_all_ok l r R : device_removed cfg = false -> (forall k, filter_of k = None) -> NoDup l ->
  (forall k, k ∈ l <-> is_Some (flow_map r !! k)) -> ring_ok r R ->
  exists r', del_all l r = Ok r' /\ flow_map r' = ∅ /\ alive (hw r') = ∅.
Proof.
  intros Hdev Hnf. revert r R. induction l as [|k l IH]; intros r R Hnd Hin Hok; simpl.
  - exists r. split; [done|]. assert (flow_map r = ∅) as Hemp.
    { apply map_empty. intros k. apply eq_None_not_Some. rewrite <- Hin. apply not_elem_of_nil. }
    split; [done|]. apply map_empty. intros id. destruct (alive (hw r) !! id) as [[t tag]|] eqn:Hx; [|done].
    destruct (ring_ok_steered r R Hok) as (_ & H2 & H3 & _). destruct (H3 id _ Hx) as [o Ho]. destruct (H2 o id Ho) as (k & s & Hks & _).
    destruct (ro_found _ _ Hok _ Hks) as [f Hf]. rewrite Hemp in Hf. done.
  - apply NoDup_cons in Hnd as [Hkl Hnd]. destruct (proj1 (Hin k)) as [f Hf]; [left|]. rewrite Hf. simpl.
    destruct (delete_flow_ok r R k f Hdev (Hnf k) Hok Hf) as (h & -> & Hok'). simpl. apply (IH _ _ Hnd) in Hok'; [done|].
    intros k'. simpl. rewrite lookup_delete_is_Some, <- Hin, elem_of_cons. split; [|naive_solver]. intros Hk'. split; [|by right]. congruence.
Qed.

(** The destructor of a ring without counted flows deletes its flows, in
    whatever order the hash maps give them, and leaves no live rule in the
    adapter. *)
Theorem flows_deleted evs r P R l : supported -> device_removed cfg = false -> mc_filtered = false -> tcp_3t_rules cfg = false ->
  events_run evs (new_ring, [], []) = Ok (r, P, R) -> l ≡ₚ (map_to_list (flow_map r)).*1 ->
  exists r', del_all l r = Ok r' /\ flow_map r' = ∅ /\ alive (hw r') = ∅.
Proof.
  intros Hsup Hdev Hm Ht Hrun Hl. pose proof (no_filters Hm Ht) as Hnf.
  destruct (events_run_ok evs _ Hsup Hdev Hnf schedule_start) as (x & Hx & Hok & _). rewrite Hrun in Hx. injection Hx as <-.
  apply (del_all_ok l r R); try done; [rewrite Hl; apply NoDup_fst_map_to_list|].
  intros k. rewrite Hl, list_elem_of_fmap. split.
  - intros ([k' f] & -> & Hf%elem_of_map_to_list). simpl. eauto.
  - intros [f Hf]. exists (k, f). split; [done|]. by apply elem_of_map_to_list.
Qed.

End Steering.

(** ** Small rings *)

Module FlowExample.

(** An Ethernet ring with flow tags; sockets are numbered by their descriptors. *)
Definition eth_cfg (tcp_3t : bool) (creates : Z -> bool) : ring_cfg := RingCfg 1 0 false false tcp_3t 0 true false false creates.

Definition udp_flow : flow_tuple := FlowTuple 10 5000 0 0 PROTO_UDP.
Definition tcp_flow (src_port : Z) : flow_tuple := FlowTuple 10 80 20 src_port PROTO_TCP.

Abbreviation calls cfg := (flow_calls_run cfg id (fun _ => false) None).
Abbreviation sched cfg l := (events_run cfg id (fun _ => false) None l (new_ring, [], [])).

Definition tcp_calls : list flow_call := [c_attach (tcp_flow 1) 1; c_attach (tcp_flow 2) 2; c_detach (tcp_flow 1) 1].

(** Two connections to one port share a rule, which stays with the second. *)
Lemma flows_refine_witness : exists r, calls (eth_cfg true (fun _ => true)) tcp_calls new_ring = Ok r /\
  ring_sinks (key_tcp 20 80 2) r = [Some 2].
Proof.
  destruct (flows_refine (eth_cfg true (fun _ => true)) id (fun _ => false) None tcp_calls) as (r & Hr & Hs & _).
  - by left.
  - done.
  - done.
  - split; [|split; [|split; [|done]]]; intros k [= <-] _; vm_compute; set_solver.
  - exists r. split; [done|]. rewrite Hs. by vm_compute.
Defined.

Definition udp_events : list event := [e_begin udp_flow 3; e_begin udp_flow 4; e_end 1; e_end 0; e_detach udp_flow 4].

(** Both threads found no object; the second to finish uses that of the first. *)
Lemma flows_interleaved_witness : exists r P R, sched (eth_cfg false (fun _ => true)) udp_events = Ok (r, P, R) /\
  ring_sinks (key_udp_uc 5000) r = [Some 3] /\ R = [(key_udp_uc 5000, 3)].
Proof.
  destruct (flows_interleaved (eth_cfg false (fun _ => true)) id (fun _ => false) None udp_events) as (r & P & R & Hr & Hs & _);
    [by left|done|done|done|].
  exists r, P, R. split; [done|]. rewrite Hs.
  assert (R = [(key_udp_uc 5000, 3)]) as -> by (vm_compute in Hr; congruence). by vm_compute.
Defined.

Definition udp_ring : ring_simple :=
  match sched (eth_cfg false (fun _ => true)) [e_begin udp_flow 3; e_end 0] with Ok (r, _, _) => r | _ => new_ring end.

Lemma flows_deleted_witness : exists r', del_all (eth_cfg false (fun _ => true)) [key_udp_uc 5000] udp_ring = Ok r' /\ alive (hw r') = ∅.
Proof.
  destruct (flows_deleted (eth_cfg false (fun _ => true)) id (fun _ => false) None [e_begin udp_flow 3; e_end 0] udp_ring []
    [(key_udp_uc 5000, 3)] [key_udp_uc 5000]) as (r' & Hr & _ & Ha); [by left|done|done|done|by vm_compute|by vm_compute|]. eauto.
Defined.

(** What a schedule leaves: how many sockets were told they are attached, and
    how many rules live. *)
Definition outcome (x : res (ring_simple * list (flow_tuple * Z * pending) * list (flow_key * Z))) : option (nat * nat) :=
  match x with Ok (r, _, R) => Some (length R, size (alive (hw r))) | _ => None end.

(** Two threads attach flows of one filter: both are counted before either
    makes its rule, so neither makes it. *)
Lemma race_loses_rule : outcome (sched (eth_cfg true (fun _ => true))
  [e_begin (tcp_flow 1) 1; e_begin (tcp_flow 2) 2; e_end 0; e_end 0]) = Some (2, 0)%nat.
Proof. by vm_compute. Qed.

(** An attachment that failed stays counted, so the next one succeeds without
    a rule. *)
Lemma failure_loses_rule : outcome (sched (eth_cfg true (fun n => 0 <? n))
  [e_begin (tcp_flow 1) 1; e_end 0; e_begin (tcp_flow 1) 1]) = Some (1, 0)%nat.
Proof. by vm_compute. Qed.

(** The rule of a flow keeps the tag of the socket that made it, also when
    only another socket is left. *)
Lemma tag_outlives_socket :
  match calls (eth_cfg false (fun _ => true)) [c_attach udp_flow 3; c_attach udp_flow 4; c_detach udp_flow 3] new_ring with
  | Ok r => ring_sinks (key_udp_uc 5000) r = [Some 4] /\ alive (hw r) !! 0 = Some (udp_flow, 3 + 1)
  | _ => False
  end.
Proof. by vm_compute. Qed.

(** The destructor counts down once for each flow, not for each socket. *)
Lemma deleted_ring_keeps_rule :
  match x ← calls (eth_cfg true (fun _ => true)) [c_attach (tcp_flow 1) 1; c_attach (tcp_flow 1) 2] new_ring;
        del_all (eth_cfg true (fun _ => true)) [key_tcp 20 80 1] x with
  | Ok r => flow_map r = ∅ /\ size (alive (hw r)) = 1%nat
  | _ => False
  end.
Proof. by vm_compute. Qed.

End FlowExample.
