(* ===== verification/RxPath.v ===== *)
(** * The receive path (src/vma/dev/ring_simple.cpp, rfs_uc.cpp, rfs_mc.cpp)

    [rx_process_buffer] parses the headers of a received buffer, hands
    fragments to the fragment manager of [IpFrag], verifies checksums in
    software with [Checksum] when the adapter did not, finds the flow in the
    map of [FlowSteering] and dispatches the packet to its sinks.  A packet
    whose rule carries the tag of a socket takes a fast path to that socket.

    Buffers are lists of bytes; a read outside of a buffer is [Undef].  What a
    socket does with a packet is a parameter: whether it keeps the packet,
    which takes one reference. *)

From S2P Require Import Prelude MemBuf BufferPool IpFrag Checksum FlowSteering.

(** ** Dispatch to the sinks *)

Section Dispatch.
Context {A : Type} (rx_input_cb : sink -> A -> bool * A).

(** The loop of [rfs_uc::rx_dispatch_packet]: the packet goes to the first
    sink that keeps it.  The reference count is the second component. *)
Fixpoint uc_loop (sinks : list (option sink)) (n_ref_count : Z) (a : A) : bool * Z * A :=
  match sinks with
  | [] => (false, n_ref_count, a)
  | None :: sinks => uc_loop sinks n_ref_count a
  | Some s :: sinks =>
    let n := n_ref_count + 1 in
    let '(keeps, a) := rx_input_cb s a in
    let n := if keeps : bool then n + 1 else n in
    if 1 <? n then (true, n - 1, a) else uc_loop sinks (n - 1) a
  end.

Definition uc_rx_dispatch_packet (f : rfs) (a : A) : bool * Z * A :=
  uc_loop (take (m_n_sinks_list_entries f) (m_sinks_list f)) 0 a.

(** [rfs_mc::rx_dispatch_packet]: the packet goes to every sink. *)
Fixpoint mc_loop (sinks : list (option sink)) (n_ref_count : Z) (a : A) : Z * A :=
  match sinks with
  | [] => (n_ref_count, a)
  | None :: sinks => mc_loop sinks n_ref_count a
  | Some s :: sinks => let '(keeps, a) := rx_input_cb s a in mc_loop sinks (if keeps : bool then n_ref_count + 1 else n_ref_count) a
  end.

Definition mc_rx_dispatch_packet (f : rfs) (a : A) : bool * Z * A :=
  let '(n, a) := mc_loop (take (m_n_sinks_list_entries f) (m_sinks_list f)) 1 a in (1 <? n, n - 1, a).

(** [check_rx_packet], the dispatch of the fast path. *)
Definition check_rx_packet (s : sink) (a : A) : bool * Z * A :=
  let '(keeps, a) := rx_input_cb s a in
  let n := if keeps : bool then 2 else 1 in (1 <? n, n - 1, a).

(** What the sinks answer when they are asked one after the other. *)
Fixpoint answers (sinks : list sink) (a : A) : list bool * A :=
  match sinks with
  | [] => ([], a)
  | s :: sinks => let '(k, a) := rx_input_cb s a in let '(l, a) := answers sinks a in (k :: l, a)
  end.

(** The sinks of [l1] were asked; all of them refused, or the last one kept
    the packet. *)
Lemma uc_loop_spec l a : exists l1 l2 m, l = l1 ++ l2 /\
  ((answers l1 a).1 = replicate m false /\ l2 = [] /\ uc_loop (Some <$> l) 0 a = (false, 0, (answers l1 a).2) \/
   (answers l1 a).1 = replicate m false ++ [true] /\ uc_loop (Some <$> l) 0 a = (true, 1, (answers l1 a).2)).
Proof.
  revert a. induction l as [|s l IH]; intros a; [exists [], [], 0%nat; by auto|].
  cbn [fmap list_fmap uc_loop]. destruct (rx_input_cb s a) as [[] a1] eqn:E.
  - exists [s], l, 0%nat. split; [done|]. right. simpl. by rewrite E.
  - destruct (IH a1) as (l1 & l2 & m & -> & H). exists (s :: l1), l2, (S m). split; [done|]. simpl. rewrite E.
    destruct (answers l1 a1) as [ks a2]. simpl in *. destruct H as [(-> & Hl & Hu)|(-> & Hu)]; [left|right]; split; auto.
Qed.

Lemma mc_loop_spec l n a : mc_loop (Some <$> l) n a =
  (n + Z.of_nat (length (filter (fun k => k = true) (answers l a).1)), (answers l a).2).
Proof.
  revert n a. induction l as [|s l IH]; intros n a; [simpl; f_equal; lia|]. cbn [fmap list_fmap mc_loop answers].
  destruct (rx_input_cb s a) as [k a1]. rewrite IH. destruct (answers l a1) as [ks a2]. simpl.
  destruct k; [rewrite filter_cons_True by done|rewrite filter_cons_False by done]; f_equal; simpl; lia.
Qed.

End Dispatch.

(** ** Parsing *)

Definition ETH_HDR_LEN : Z := 14.
Definition ETH_VLAN_HDR_LEN : Z := 18.
Definition GRH_HDR_LEN : Z := 40.
Definition IPOIB_HDR_LEN : Z := 4.
Definition ETH_P_8021Q : Z := 33024.
Definition ETH_P_IP : Z := 2048.
Definition VLAN_VID_MASK : Z := 4095.
Definition IPPROTO_IGMP : Z := 2.

(** The union of the TCP and UDP members of a received descriptor: offsets of
    the headers, or the address of the interface. *)
Inductive l4_info := l4_none | l4_tcp (p_ip_h p_tcp_h n_transport_header_len : Z) | l4_udp (local_if : Z).

(** The member [rx] of a descriptor; addresses and ports are in network byte
    order, [iov_base] is an offset into the buffer. *)
Record rx_desc := RxDesc {
  src_addr : Z;
  src_port : Z;
  dst_addr : Z;
  dst_port : Z;
  iov_base : Z;
  iov_len : Z;
  sz_payload : Z;
  l4 : l4_info;
  n_frags : Z;
  rx_flow_tag_id : Z;
  is_sw_csum_need : bool
}.

Definition set_frag (base len : Z) (d : rx_desc) : rx_desc :=
  RxDesc (src_addr d) (src_port d) (dst_addr d) (dst_port d) base len (sz_payload d) (l4 d) (n_frags d) (rx_flow_tag_id d) (is_sw_csum_need d).
Definition set_n_frags (n : Z) (d : rx_desc) : rx_desc :=
  RxDesc (src_addr d) (src_port d) (dst_addr d) (dst_port d) (iov_base d) (iov_len d) (sz_payload d) (l4 d) n (rx_flow_tag_id d) (is_sw_csum_need d).
Definition set_l3 (src dst : Z) (d : rx_desc) : rx_desc :=
  RxDesc src (src_port d) dst (dst_port d) (iov_base d) (iov_len d) (sz_payload d) (l4 d) (n_frags d) (rx_flow_tag_id d) (is_sw_csum_need d).
Definition set_l4 (src dst payload : Z) (i : l4_info) (d : rx_desc) : rx_desc :=
  RxDesc (src_addr d) src (dst_addr d) dst (iov_base d) (iov_len d) payload i (n_frags d) (rx_flow_tag_id d) (is_sw_csum_need d).

Record rx_world := RxWorld { frag_mgr : ip_frag_manager; rx : gmap ptr rx_desc }.

(** What becomes of a buffer: [rx_held] by the fragment manager, given to a
    socket on the fast path, or to the sinks of a flow. *)
Inductive rx_outcome := rx_drop | rx_held | rx_igmp (p : ptr) | rx_fast (s : sink) (p : ptr) | rx_flow (k : flow_key) (f : rfs) (p : ptr).

Section Rx.
Context (cfg : ring_cfg) (m_partition m_local_if : Z) (get_sockfd : Z -> option sink) (buffer : ptr -> list Z) (igmp_mgr : bool).

Definition rd8 (p : ptr) (o : Z) : res Z := must (lookupZ (buffer p) o).
Definition rd16 (p : ptr) (o : Z) : res Z := a ← rd8 p o; b ← rd8 p (o + 1); Ok (word a b).
Definition rd32 (p : ptr) (o : Z) : res Z := a ← rd16 p o; b ← rd16 p (o + 2); Ok (a + 65536 * b).

(** The bytes of a buffer from an offset on. *)
Definition bytes_at (p : ptr) (o : Z) : list Z := drop (Z.to_nat o) (buffer p).

Definition get_rx (p : ptr) (w : rx_world) : res rx_desc := must (rx w !! p).
Definition put_rx (p : ptr) (d : rx_desc) (w : rx_world) : rx_world := RxWorld (frag_mgr w) (<[p := d]> (rx w)).

(** The fast path: the descriptor for the socket, unless it is neither a
    connected TCP socket nor the packet a UDP one. *)
Definition fast_path (p : ptr) (is_5t : bool) (d : rx_desc) : res (option rx_desc) :=
  proto ← rd16 p 12;
  let hdr := if proto =? ntohs ETH_P_8021Q then ETH_VLAN_HDR_LEN else ETH_HDR_LEN in
  let ip_hdr_len := 20 in
  tot ← rd16 p (hdr + 2);
  let ip_tot_len := ntohs tot in
  protocol ← rd8 p (hdr + 9);
  let h := hdr + ip_hdr_len in
  if is_5t then
    source ← rd16 p h; saddr ← rd32 p (hdr + 12); dest ← rd16 p (h + 2); daddr ← rd32 p (hdr + 16); doff ← rd8 p (h + 12);
    Ok (Some (RxDesc saddr source daddr dest (h + 20) (u64 (ip_tot_len - ip_hdr_len - 20)) (u64 (ip_tot_len - ip_hdr_len - Z.shiftr doff 4 * 4))
                (l4_tcp hdr h hdr) 1 (rx_flow_tag_id d) (is_sw_csum_need d)))
  else if protocol =? IPPROTO_UDP then
    source ← rd16 p h; saddr ← rd32 p (hdr + 12); dest ← rd16 p (h + 2); daddr ← rd32 p (hdr + 16); len ← rd16 p (h + 4);
    Ok (Some (RxDesc saddr source daddr dest (h + 8) (u64 (ip_tot_len - ip_hdr_len - 8)) (u64 (ntohs len - 8))
                (l4_udp m_local_if) 1 (rx_flow_tag_id d) (is_sw_csum_need d)))
  else Ok None.

(** The transport header: its length, or [None] if the packet is dropped. *)
Definition transport_header (p : ptr) : res (option Z) :=
  if m_transport_type cfg =? CacheTable.NeighTable.VMA_TRANSPORT_IB then
    h ← rd32 p GRH_HDR_LEN; Ok (if h =? 8 then Some (GRH_HDR_LEN + IPOIB_HDR_LEN) else None)
  else if m_transport_type cfg =? CacheTable.NeighTable.VMA_TRANSPORT_ETH then
    proto ← rd16 p 12;
    x ← (if proto =? ntohs ETH_P_8021Q then
           tci ← rd16 p ETH_HDR_LEN; proto ← rd16 p (ETH_HDR_LEN + 2);
           Ok (ETH_VLAN_HDR_LEN, proto, Z.land (ntohs tci) VLAN_VID_MASK)
         else Ok (ETH_HDR_LEN, proto, 0));
    let '(hdr, proto, packet_vlan) := x : Z * Z * Z in
    Ok (if negb (Z.land m_partition VLAN_VID_MASK =? packet_vlan) then None
        else if negb (proto =? ntohs ETH_P_IP) then None else Some hdr)
  else Ok None.

(** Fragments are counted along the chain, in an [int8_t]. *)
Fixpoint count_frags (fuel : nat) (m : bufs) (o : option ptr) (n : Z) : res Z :=
  match o with
  | None => Ok n
  | Some q =>
    match fuel with
    | O => NoFuel
    | S fuel => b ← load m q; count_frags fuel m (p_next_desc b) (swrap 8 (n + 1))
    end
  end.

(** The fragments behind the first one, for the checksum. *)
Fixpoint next_frags (fuel : nat) (w : rx_world) (o : option ptr) : res (list (list Z * Z)) :=
  match o with
  | None => Ok []
  | Some q =>
    match fuel with
    | O => NoFuel
    | S fuel =>
      d ← get_rx q w; b ← load (bufs_ (frag_mgr w)) q;
      l ← next_frags fuel w (p_next_desc b);
      Ok ((bytes_at q (iov_base d), iov_len d) :: l)
    end
  end.

Definition chain_fuel (w : rx_world) : nat := S (size (bufs_ (frag_mgr w))).

(** The header of a packet, for the fragment manager. *)
Definition read_iphdr (p : ptr) (hdr : Z) : res iphdr :=
  vihl ← rd8 p hdr; tot ← rd16 p (hdr + 2); id ← rd16 p (hdr + 4); off ← rd16 p (hdr + 6);
  protocol ← rd8 p (hdr + 9); saddr ← rd32 p (hdr + 12); daddr ← rd32 p (hdr + 16);
  Ok (IpHdr id saddr daddr protocol off tot (Z.land vihl 15)).

(** The checksum of the IP header, when the adapter did not verify it. *)
Definition bad_ip_checksum (p : ptr) (hdr : Z) (h : iphdr) (d : rx_desc) : res bool :=
  if is_sw_csum_need d then c ← compute_ip_checksum (words (bytes_at p hdr)) (Z.to_nat (ih_ihl h * 2)); Ok (negb (c =? 0)) else Ok false.

Definition rx_udp (p : ptr) (hdr : Z) (h : iphdr) (r : ring_simple) (w : rx_world) : res (rx_outcome * rx_world) :=
  d ← get_rx p w;
  let ip_hdr_len := ih_ihl h * 4 in
  let ip_tot_len := ntohs (ih_tot_len h) in
  let u := hdr + ip_hdr_len in
  let d := set_frag (u + 8) (u64 (ip_tot_len - ip_hdr_len - 8)) d in
  check ← rd16 p (u + 6); len ← rd16 p (u + 4);
  bad ← (if is_sw_csum_need d && negb (check =? 0) then
           b ← load (bufs_ (frag_mgr w)) p;
           rest ← next_frags (chain_fuel w) w (p_next_desc b);
           c ← compute_udp_checksum_rx (chain_fuel w) (ih_saddr h) (ih_daddr h) len (bytes_at p u) (iov_len d) rest;
           Ok (negb (c =? 0))
         else Ok false);
  if bad : bool then Ok (rx_drop, put_rx p d w)
  else
    source ← rd16 p u; dest ← rd16 p (u + 2);
    let d := set_l4 source dest (u64 (ntohs len - 8)) (l4_udp m_local_if) d in
    let k := if negb (CacheTable.NeighTable.IN_MULTICAST_N (dst_addr d)) then key_udp_uc dest else key_udp_mc (dst_addr d) dest in
    Ok (match flow_map r !! k with Some f => rx_flow k f p | None => rx_drop end, put_rx p d w).

Definition rx_tcp (p : ptr) (hdr : Z) (h : iphdr) (r : ring_simple) (w : rx_world) : res (rx_outcome * rx_world) :=
  d ← get_rx p w;
  let ip_hdr_len := ih_ihl h * 4 in
  let ip_tot_len := ntohs (ih_tot_len h) in
  let t := hdr + ip_hdr_len in
  bad ← (if is_sw_csum_need d then
           c ← compute_tcp_checksum (ih_saddr h) (ih_daddr h) (ih_tot_len h) (ih_ihl h) (bytes_at p t); Ok (negb (c =? 0))
         else Ok false);
  if bad : bool then Ok (rx_drop, w)
  else
    doff ← rd8 p (t + 12); source ← rd16 p t; dest ← rd16 p (t + 2);
    let d := set_frag (t + 20) (u64 (ip_tot_len - ip_hdr_len - 20)) d in
    let d := set_l4 source dest (u64 (ip_tot_len - ip_hdr_len - Z.shiftr doff 4 * 4)) (l4_tcp hdr t hdr) d in
    let k5 := key_tcp (src_addr d) dest source in
    let k3 := key_tcp 0 dest 0 in
    Ok (match flow_map r !! k5 with
        | Some f => rx_flow k5 f p
        | None => match flow_map r !! k3 with Some f => rx_flow k3 f p | None => rx_drop end
        end, put_rx p d w).

(** What follows the handling of fragments. *)
Definition rx_packet (p : ptr) (hdr : Z) (h : iphdr) (r : ring_simple) (w : rx_world) : res (rx_outcome * rx_world) :=
  d ← get_rx p w;
  bad ← bad_ip_checksum p hdr h d;
  if bad : bool then Ok (rx_drop, w)
  else
    let w := put_rx p (set_l3 (ih_saddr h) (ih_daddr h) d) w in
    if ih_protocol h =? IPPROTO_UDP then rx_udp p hdr h r w
    else if ih_protocol h =? IPPROTO_TCP then rx_tcp p hdr h r w
    else if ih_protocol h =? IPPROTO_IGMP then
      Ok (if ((m_transport_type cfg =? CacheTable.NeighTable.VMA_TRANSPORT_IB) || m_b_sysvar_eth_mc_l2_only_rules cfg) && igmp_mgr then rx_igmp p else rx_drop, w)
    else Ok (rx_drop, w).

Definition rx_fragment (p : ptr) (hdr : Z) (h : iphdr) (d : rx_desc) (r : ring_simple) (w : rx_world) : res (rx_outcome * rx_world) :=
  let ip_hdr_len := ih_ihl h * 4 in
  let w := put_rx p (set_frag (hdr + ip_hdr_len) (u64 (ntohs (ih_tot_len h) - ip_hdr_len)) d) w in
  x ← add_frag h p (frag_mgr w);
  let '(ret, new_buf, s) := x : Z * option (option ptr) * ip_frag_manager in
  let w := RxWorld s (rx w) in
  if ret <? 0 then Ok (rx_drop, w)
  else match mjoin new_buf with
       | None => Ok (rx_held, w)
       | Some q =>
         h ← read_iphdr q hdr;
         d ← get_rx q w;
         n ← count_frags (chain_fuel w) (bufs_ s) (Some q) (n_frags d);
         rx_packet q hdr h r (put_rx q (set_n_frags n d) w)
       end.

(** What follows the fast path. *)
Definition rx_slow (p : ptr) (r : ring_simple) (w : rx_world) : res (rx_outcome * rx_world) :=
  t ← transport_header p;
  match t with
  | None => Ok (rx_drop, w)
  | Some hdr =>
    b ← load (bufs_ (frag_mgr w)) p;
    let size := u64 (sz_data b - hdr) in
    if size <? 20 then Ok (rx_drop, w)
    else
      vihl ← rd8 p hdr;
      if negb (Z.shiftr vihl 4 =? 4) then Ok (rx_drop, w)
      else
        h ← read_iphdr p hdr;
        let ip_tot_len := ntohs (ih_tot_len h) in
        if size <? ip_tot_len then Ok (rx_drop, w)
        else
          m ← (if ip_tot_len <? size then store p (set_sz_data (u64 (sz_data b - (size - ip_tot_len)))) (bufs_ (frag_mgr w)) else Ok (bufs_ (frag_mgr w)));
          let w := RxWorld (set_bufs m (frag_mgr w)) (rx w) in
          let ip_frag_off := ntohs (ih_frag_off h) in
          let n_frag_offset := u16 (Z.land ip_frag_off FRAGMENT_OFFSET * 8) in
          if (n_frag_offset =? 0) && (ip_tot_len <? ih_ihl h * 4 + 8) then Ok (rx_drop, w)
          else
            d ← get_rx p w;
            let d := set_n_frags 1 d in
            let w := put_rx p d w in
            if negb (Z.land ip_frag_off MORE_FRAGMENTS_FLAG =? 0) || negb (n_frag_offset =? 0)
            then rx_fragment p hdr h d r w
            else rx_packet p hdr h r w
  end.

Definition classify (p : ptr) (r : ring_simple) (w : rx_world) : res (rx_outcome * rx_world) :=
  b ← load (bufs_ (frag_mgr w)) p;
  if Z.of_nat (length (buffer p)) <? sz_data b then Ok (rx_drop, w)
  else
    d ← get_rx p w;
    let tag := rx_flow_tag_id d in
    match (if m_flow_tag_enabled cfg && negb (tag =? 0) && negb (tag =? FLOW_TAG_MASK) then get_sockfd (tag - 1) else None) with
    | Some s =>
      let flags := get_flags s r in
      if sock_flow_tag_enabled flags then
        o ← fast_path p (m_tcp_flow_is_5t flags) d;
        match o with
        | Some d => Ok (rx_fast s p, put_rx p d w)
        | None => rx_slow p r w
        end
      else rx_slow p r w
    | None => rx_slow p r w
    end.

(** ** Frames

    A frame as the bytes of its headers.  [bytes2] and [bytes4] lay out a
    value as it is read back in memory order. *)

Definition bytes2 (x : Z) : list Z := [x mod 256; x / 256].
Definition bytes4 (x : Z) : list Z := bytes2 (x mod 65536) ++ bytes2 (x / 65536).

Inductive l2_header := l2_eth (mac : list Z) | l2_vlan (mac : list Z) (tci : Z) | l2_ipoib (grh : list Z).

Definition l2_bytes (l : l2_header) : list Z :=
  match l with
  | l2_eth mac => mac ++ bytes2 (ntohs ETH_P_IP)
  | l2_vlan mac tci => mac ++ bytes2 (ntohs ETH_P_8021Q) ++ bytes2 (ntohs tci) ++ bytes2 (ntohs ETH_P_IP)
  | l2_ipoib grh => grh ++ bytes4 8
  end.

Definition l2_len (l : l2_header) : Z :=
  match l with l2_eth _ => ETH_HDR_LEN | l2_vlan _ _ => ETH_VLAN_HDR_LEN | l2_ipoib _ => GRH_HDR_LEN + IPOIB_HDR_LEN end.

(** A link header for this ring: its transport, and its VLAN. *)
Definition l2_ok (l : l2_header) : Prop :=
  match l with
  | l2_eth mac => m_transport_type cfg = CacheTable.NeighTable.VMA_TRANSPORT_ETH /\ length mac = 12%nat /\ Z.land m_partition VLAN_VID_MASK = 0
  | l2_vlan mac tci => m_transport_type cfg = CacheTable.NeighTable.VMA_TRANSPORT_ETH /\ length mac = 12%nat /\ 0 <= tci < 65536 /\
                       Z.land m_partition VLAN_VID_MASK = Z.land tci VLAN_VID_MASK
  | l2_ipoib grh => m_transport_type cfg = CacheTable.NeighTable.VMA_TRANSPORT_IB /\ length grh = 40%nat
  end.

Definition ip_bytes (h : iphdr) (tos ttl check : Z) (opts : list Z) : list Z :=
  [64 + ih_ihl h; tos] ++ bytes2 (ih_tot_len h) ++ bytes2 (ih_id h) ++ bytes2 (ih_frag_off h) ++ [ttl; ih_protocol h] ++
  bytes2 check ++ bytes4 (ih_saddr h) ++ bytes4 (ih_daddr h) ++ opts.

Definition iphdr_ok (h : iphdr) (opts : list Z) : Prop :=
  5 <= ih_ihl h < 16 /\ Z.of_nat (length opts) = (ih_ihl h - 5) * 4 /\ is_word (ih_tot_len h) /\ is_word (ih_id h) /\
  is_word (ih_frag_off h) /\ is_byte (ih_protocol h) /\ 0 <= ih_saddr h < 2 ^ 32 /\ 0 <= ih_daddr h < 2 ^ 32.

(** The bytes at an offset of a buffer. *)
Definition at_ (p : ptr) (o : Z) (l : list Z) : Prop := 0 <= o /\ exists t, bytes_at p o = l ++ t.

Lemma at_app p o l l' : at_ p o (l ++ l') -> at_ p o l /\ at_ p (o + Z.of_nat (length l)) l'.
Proof.
  intros (Ho & t & H). split; split; try lia.
  - exists (l' ++ t). by rewrite H, app_assoc.
  - exists t. unfold bytes_at in *. rewrite Z2Nat.inj_add, Nat2Z.id, <- drop_drop, H by lia. rewrite <- app_assoc. apply drop_app_length.
Qed.

Lemma at_rd8 p o l i x : at_ p o l -> 0 <= i -> l !! Z.to_nat i = Some x -> rd8 p (o + i) = Ok x.
Proof.
  intros (Ho & t & H) Hi Hl. unfold rd8, lookupZ. rewrite decide_True by lia. rewrite Z2Nat.inj_add by lia.
  rewrite <- lookup_drop. unfold bytes_at in H. rewrite H, lookup_app_l by (by eapply lookup_lt_Some). by rewrite Hl.
Qed.

Lemma at_rd16 p o l i x : at_ p o l -> is_word x -> 0 <= i -> take 2 (drop (Z.to_nat i) l) = bytes2 x -> rd16 p (o + i) = Ok x.
Proof.
  intros H Hx Hi Ht. destruct (drop (Z.to_nat i) l) as [|a [|b r]] eqn:E; [done..|]. injection Ht as -> ->.
  assert (forall j, l !! (Z.to_nat i + j)%nat = (x mod 256 :: x / 256 :: r) !! j) as Hl by (intros; by rewrite <- E, lookup_drop).
  unfold rd16. rewrite (at_rd8 p o l i (x mod 256)); [|done..|by rewrite <- (Nat.add_0_r (Z.to_nat i)), Hl]. bind_ret.
  rewrite <- Z.add_assoc, (at_rd8 p o l (i + 1) (x / 256)); [|done|lia|rewrite Z2Nat.inj_add by lia; by rewrite Hl]. bind_ret. f_equal.
  unfold word. pose proof (Z.div_mod x 256). lia.
Qed.

Lemma at_rd32 p o l i x : at_ p o l -> 0 <= x < 2 ^ 32 -> 0 <= i -> take 4 (drop (Z.to_nat i) l) = bytes4 x -> rd32 p (o + i) = Ok x.
Proof.
  intros H Hx Hi Ht. unfold rd32. rewrite (at_rd16 p o l i (x mod 65536)); [|done|by apply Z.mod_pos_bound|done|].
  - bind_ret. rewrite <- Z.add_assoc, (at_rd16 p o l (i + 2) (x / 65536)); [|done| |lia|].
    + bind_ret. f_equal. pose proof (Z.div_mod x 65536). lia.
    + unfold is_word. split; [apply Z.div_pos; lia|apply Z.div_lt_upper_bound; lia].
    + rewrite Z2Nat.inj_add, <- drop_drop, take_drop_commute by lia. change (Z.to_nat 2 + 2)%nat with 4%nat. by rewrite Ht.
  - change 2%nat with (2 `min` 4)%nat. by rewrite <- take_take, Ht.
Qed.

Lemma read_iphdr_ok p o h tos ttl check opts : iphdr_ok h opts -> at_ p o (ip_bytes h tos ttl check opts) ->
  read_iphdr p o = Ok h /\ rd8 p o = Ok (64 + ih_ihl h).
Proof.
  intros (Hi & Ho & Ht & Hid & Hf & Hp & Hs & Hd) H. unfold read_iphdr.
  assert (rd8 p o = Ok (64 + ih_ihl h)) as E by (rewrite <- (Z.add_0_r o); by apply (at_rd8 _ _ _ 0 _ H)). split; [|done]. rewrite E. bind_ret.
  rewrite (at_rd16 _ _ _ 2 (ih_tot_len h) H) by done. bind_ret. rewrite (at_rd16 _ _ _ 4 (ih_id h) H) by done. bind_ret.
  rewrite (at_rd16 _ _ _ 6 (ih_frag_off h) H) by done. bind_ret. rewrite (at_rd8 _ _ _ 9 (ih_protocol h) H) by done. bind_ret.
  rewrite (at_rd32 _ _ _ 12 (ih_saddr h) H) by done. bind_ret. rewrite (at_rd32 _ _ _ 16 (ih_daddr h) H) by done. bind_ret.
  assert (Z.land (64 + ih_ihl h) 15 = ih_ihl h) as ->.
  { change 15 with (Z.ones 4). rewrite Z.land_ones by lia. change (2 ^ 4) with 16. change 64 with (4 * 16). rewrite Z.add_comm, Z.mod_add by lia.
    apply Z.mod_small. lia. }
  by destruct h.
Qed.

Lemma l2_bytes_len l : l2_ok l -> Z.of_nat (length (l2_bytes l)) = l2_len l.
Proof. destruct l; simpl; intros; rewrite length_app; simpl; destruct_and!; unfold ETH_HDR_LEN, ETH_VLAN_HDR_LEN, GRH_HDR_LEN, IPOIB_HDR_LEN; lia. Qed.

Lemma transport_header_ok p l : l2_ok l -> at_ p 0 (l2_bytes l) -> transport_header p = Ok (Some (l2_len l)).
Proof.
  intros Hl H. unfold transport_header. destruct l as [mac|mac tci|grh]; simpl in Hl.
  - destruct Hl as (-> & Hm & Hp). apply at_app in H as [_ H]. rewrite Hm in H. cbn [Z.eqb]. change (0 + Z.of_nat 12) with 12 in H.
    change 12 with (12 + 0) at 1. rewrite (at_rd16 _ _ _ 0 (ntohs ETH_P_IP) H) by done. bind_ret. by rewrite Hp.
  - destruct Hl as (-> & Hm & Ht & Hp). apply at_app in H as [_ H]. rewrite Hm in H. cbn [Z.eqb]. change (0 + Z.of_nat 12) with 12 in H.
    change 12 with (12 + 0) at 1. rewrite (at_rd16 _ _ _ 0 (ntohs ETH_P_8021Q) H) by done. bind_ret. rewrite Z.eqb_refl. cbv iota.
    change ETH_HDR_LEN with (12 + 2). rewrite (at_rd16 _ _ _ 2 (ntohs tci) H) by (done || apply ntohs_range). bind_ret.
    change (12 + 2 + 2) with (12 + 4). rewrite (at_rd16 _ _ _ 4 (ntohs ETH_P_IP) H) by done. bind_ret.
    rewrite ntohs_invol, Hp, Z.eqb_refl by lia. simpl. by rewrite !Z.eqb_refl.
  - destruct Hl as (-> & Hm). apply at_app in H as [_ H]. rewrite Hm in H. cbn [Z.eqb]. change (0 + Z.of_nat 40) with 40 in H.
    change (rd32 p GRH_HDR_LEN) with (rd32 p (40 + 0)). by rewrite (at_rd32 _ _ _ 0 8 H).
Qed.

Lemma load_ok m p b : m !! p = Some b -> load m p = Ok b.
Proof. intros H. unfold load. by rewrite H. Qed.

Lemma put_rx_twice p d d' w : put_rx p d (put_rx p d' w) = put_rx p d w.
Proof. unfold put_rx. simpl. by rewrite insert_insert_eq. Qed.

Lemma get_rx_ok p w d : rx w !! p = Some d -> get_rx p w = Ok d.
Proof. intros H. unfold get_rx. by rewrite H. Qed.

Lemma get_put p d w : get_rx p (put_rx p d w) = Ok d.
Proof. unfold get_rx, put_rx. simpl. by rewrite lookup_insert_eq. Qed.

(** A packet that is not a fragment: padding is cut off. *)
Definition whole (h : iphdr) : Prop := Z.land (ntohs (ih_frag_off h)) 16383 = 0.

Lemma whole_ok h : whole h -> Z.land (ntohs (ih_frag_off h)) MORE_FRAGMENTS_FLAG = 0 /\ Z.land (ntohs (ih_frag_off h)) FRAGMENT_OFFSET = 0.
Proof.
  unfold whole. intros H. split.
  - change MORE_FRAGMENTS_FLAG with (Z.land 16383 MORE_FRAGMENTS_FLAG). by rewrite Z.land_assoc, H.
  - change FRAGMENT_OFFSET with (Z.land 16383 FRAGMENT_OFFSET). by rewrite Z.land_assoc, H.
Qed.

Definition trimmed (p : ptr) (n : Z) (b : mem_buf_desc_t) (w : rx_world) : rx_world :=
  RxWorld (set_bufs (<[p := set_sz_data n b]> (bufs_ (frag_mgr w))) (frag_mgr w)) (rx w).

Lemma rx_slow_whole p r w b d l h tos ttl check opts : l2_ok l -> iphdr_ok h opts -> whole h ->
  at_ p 0 (l2_bytes l ++ ip_bytes h tos ttl check opts) -> bufs_ (frag_mgr w) !! p = Some b -> rx w !! p = Some d ->
  l2_len l + ntohs (ih_tot_len h) <= sz_data b < 2 ^ 64 -> ih_ihl h * 4 + 8 <= ntohs (ih_tot_len h) ->
  rx_slow p r w = rx_packet p (l2_len l) h r (put_rx p (set_n_frags 1 d) (trimmed p (l2_len l + ntohs (ih_tot_len h)) b w)).
Proof.
  intros Hl Hh [Hm Ho]%whole_ok Hat Hb Hd Hsz Htot. apply at_app in Hat as [H2 Hip]. rewrite Z.add_0_l, l2_bytes_len in Hip by done.
  unfold rx_slow. rewrite (transport_header_ok p l Hl H2). bind_ret. rewrite (load_ok _ _ _ Hb). bind_ret.
  destruct (read_iphdr_ok _ _ _ _ _ _ _ Hh Hip) as [Hr Hv]. assert (0 <= l2_len l) by (by destruct l). destruct Hh as [Hi _].
  rewrite (wrap_small 64) by lia. destruct (Z.ltb_spec (sz_data b - l2_len l) 20); [lia|]. rewrite Hv. bind_ret.
  assert (Z.shiftr (64 + ih_ihl h) 4 = 4) as ->.
  { rewrite Z.shiftr_div_pow2 by lia. change (2 ^ 4) with 16. change 64 with (4 * 16). rewrite Z.add_comm, Z.div_add by lia. rewrite Z.div_small; lia. }
  cbn [Z.eqb Pos.eqb negb]. rewrite Hr. bind_ret. destruct (Z.ltb_spec (sz_data b - l2_len l) (ntohs (ih_tot_len h))); [lia|].
  assert ((if ntohs (ih_tot_len h) <? sz_data b - l2_len l
    then store p (set_sz_data (u64 (sz_data b - (sz_data b - l2_len l - ntohs (ih_tot_len h))))) (bufs_ (frag_mgr w)) else Ok (bufs_ (frag_mgr w))) =
    Ok (<[p := set_sz_data (l2_len l + ntohs (ih_tot_len h)) b]> (bufs_ (frag_mgr w)))) as ->.
  { destruct (Z.ltb_spec (ntohs (ih_tot_len h)) (sz_data b - l2_len l)).
    - unfold store. rewrite (load_ok _ _ _ Hb). bind_ret. rewrite (wrap_small 64) by lia. do 3 f_equal. lia.
    - rewrite insert_id; [done|]. rewrite Hb. f_equal. destruct b. unfold set_sz_data. simpl in *. f_equal. lia. }
  bind_ret. rewrite Hm, Ho. cbn [Z.mul Z.eqb negb orb]. change (u16 0) with 0. cbn [Z.eqb andb].
  destruct (Z.ltb_spec (ntohs (ih_tot_len h)) (ih_ihl h * 4 + 8)); [lia|]. unfold get_rx at 1. simpl. rewrite Hd. done.
Qed.

(** ** Datagrams *)

Definition udp_bytes (source dest len check : Z) : list Z := bytes2 source ++ bytes2 dest ++ bytes2 len ++ bytes2 check.

(** The key of the flow that a datagram belongs to. *)
Definition udp_key (daddr dest : Z) : flow_key :=
  if CacheTable.NeighTable.IN_MULTICAST_N daddr then key_udp_mc daddr dest else key_udp_uc dest.

(** The sums that the receiver has to accept, by the reference definition. *)
Definition ip_sum_ok (hdr : list Z) : bool := checksum (total (words hdr)) =? 0.
Definition udp_sum_ok (h : iphdr) (check : Z) (datagram : list Z) : bool :=
  (check =? 0) || (checksum (pseudo (ih_saddr h) (ih_daddr h) IPPROTO_UDP (Z.of_nat (length datagram)) + total (words datagram)) =? 0).

Lemma length_ip_bytes h tos ttl check opts : length (ip_bytes h tos ttl check opts) = (20 + length opts)%nat.
Proof. done. Qed.

Lemma length_words l : (length l mod 2 = 0)%nat -> (2 * length (words l) = length l)%nat.
Proof.
  induction l as [l IH] using (well_founded_induction (well_founded_ltof _ (@length Z))). destruct l as [|a [|b l]]; [done..|].
  intros H. cbn [words length] in *. assert (2 * length (words l) = length l)%nat; [|lia].
  apply IH; [unfold ltof; simpl; lia|]. apply Nat.Div0.mod_divides in H as [c Hc]. apply Nat.Div0.mod_divides. exists (c - 1)%nat. lia.
Qed.

Lemma take_words l l' : (length l mod 2 = 0)%nat -> take (length l / 2) (words (l ++ l')) = words l.
Proof.
  intros H. rewrite words_app by done. apply take_app_length'. pose proof (length_words l H). rewrite <- H0, Nat.mul_comm, Nat.div_mul; lia.
Qed.

Lemma bad_ip_checksum_ok p hdr h d tos ttl check opts : iphdr_ok h opts -> at_ p hdr (ip_bytes h tos ttl check opts) -> Forall is_byte (buffer p) ->
  bad_ip_checksum p hdr h d = Ok (is_sw_csum_need d && negb (ip_sum_ok (ip_bytes h tos ttl check opts))).
Proof.
  intros Hh (Ho & t & Hat) Hb. unfold bad_ip_checksum. destruct (is_sw_csum_need d); [|done]. destruct Hh as (Hi & Hopt & _).
  pose proof (length_ip_bytes h tos ttl check opts) as Hlen. set (l := ip_bytes h tos ttl check opts) in *.
  assert (length l = 2 * Z.to_nat (ih_ihl h * 2))%nat as Hl by lia.
  assert (length l mod 2 = 0)%nat as Hev by (rewrite Hl, Nat.mul_comm; by apply Nat.Div0.mod_mul).
  assert (Forall is_byte (bytes_at p hdr)) as Hby by (by apply Forall_drop). rewrite Hat in Hby |- *.
  rewrite ip_checksum_total.
  - bind_ret. unfold ip_sum_ok. replace (Z.to_nat (ih_ihl h * 2)) with (length l / 2)%nat; [by rewrite take_words|].
    rewrite Hl, Nat.mul_comm, Nat.div_mul; lia.
  - by apply words_words.
  - rewrite words_app, length_app by done. pose proof (length_words l Hev). lia.
  - lia.
Qed.

Lemma checksum_udp_ok p w b u h source dest len check payload tail : bufs_ (frag_mgr w) !! p = Some b -> p_next_desc b = None ->
  0 <= ih_saddr h < 2 ^ 32 -> 0 <= ih_daddr h < 2 ^ 32 -> is_word len -> ntohs len = 8 + Z.of_nat (length payload) ->
  at_ p u (udp_bytes source dest len check ++ payload ++ tail) -> Forall is_byte (buffer p) -> tail <> [] ->
  (b ← load (bufs_ (frag_mgr w)) p; rest ← next_frags (chain_fuel w) w (p_next_desc b);
   c ← compute_udp_checksum_rx (chain_fuel w) (ih_saddr h) (ih_daddr h) len (bytes_at p u) (Z.of_nat (length payload)) rest; Ok (negb (c =? 0))) =
  Ok (negb (checksum (pseudo (ih_saddr h) (ih_daddr h) IPPROTO_UDP (8 + Z.of_nat (length payload)) + total (words (udp_bytes source dest len check ++ payload))) =? 0)).
Proof.
  intros Hb Hn Hs Hd Hl Hlen (Hu & t & Hat) Hby Htail. rewrite (load_ok _ _ _ Hb). bind_ret. rewrite Hn. unfold chain_fuel. cbn [next_frags]. bind_ret.
  set (dg := udp_bytes source dest len check ++ payload) in *.
  assert (bytes_at p u = dg ++ tail ++ t) as Hat' by (rewrite Hat; subst dg; by rewrite <- !app_assoc).
  assert (length dg = 8 + length payload)%nat as Hdg by done. pose proof (ntohs_range len) as Hrange.
  assert (Forall is_byte (bytes_at p u)) as Hby2 by (by apply Forall_drop).
  rewrite udp_checksum_total; [|exact Hs|exact Hd|exact Hl| | |apply Nat.lt_0_succ].
  - bind_ret. do 3 f_equal. rewrite Hlen. do 2 f_equal. unfold frag_words, total at 1. cbn [fmap list_fmap foldr fst snd]. rewrite Z.add_0_r, Hat'.
    by rewrite take_app_length' by lia.
  - split; [|done]. split; [done|]. cbn [fst snd]. split; [lia|]. split; [|done]. rewrite Hat', !length_app.
    assert (1 <= length tail)%nat by (destruct tail; simpl; [done|lia]). pose proof (Nat.mod_upper_bound (Z.to_nat (Z.of_nat (length payload) + 8)) 2). lia.
  - unfold frags_len. simpl. lia.
Qed.

(** A datagram that came in one piece: its headers, its payload, and what
    follows it in the buffer (padding and unused space). *)
Record udp_frame := UdpFrame {
  f_l2 : l2_header;
  f_ip : iphdr;
  f_tos : Z;
  f_ttl : Z;
  f_ip_check : Z;
  f_opts : list Z;
  f_source : Z;
  f_dest : Z;
  f_len : Z;
  f_check : Z;
  f_payload : list Z;
  f_tail : list Z
}.

Definition f_ip_bytes (f : udp_frame) : list Z := ip_bytes (f_ip f) (f_tos f) (f_ttl f) (f_ip_check f) (f_opts f).
Definition f_udp_bytes (f : udp_frame) : list Z := udp_bytes (f_source f) (f_dest f) (f_len f) (f_check f).
Definition f_base (f : udp_frame) : Z := l2_len (f_l2 f) + ih_ihl (f_ip f) * 4.
Definition f_end (f : udp_frame) : Z := l2_len (f_l2 f) + ntohs (ih_tot_len (f_ip f)).

(** The lengths agree, it is not a fragment, and at least one byte follows
    it, which the sum of an odd number of bytes reads. *)
Record frame_ok (f : udp_frame) : Prop := FrameOk {
  fo_l2 : l2_ok (f_l2 f);
  fo_ip : iphdr_ok (f_ip f) (f_opts f);
  fo_whole : whole (f_ip f);
  fo_udp : ih_protocol (f_ip f) = IPPROTO_UDP;
  fo_ports : is_word (f_source f) /\ is_word (f_dest f) /\ is_word (f_len f) /\ is_word (f_check f);
  fo_len : ntohs (f_len f) = 8 + Z.of_nat (length (f_payload f));
  fo_tot : ntohs (ih_tot_len (f_ip f)) = ih_ihl (f_ip f) * 4 + ntohs (f_len f);
  fo_tail : f_tail f <> []
}.

(** The buffer holds the frame, and perhaps padding. *)
Definition received (p : ptr) (f : udp_frame) (b : mem_buf_desc_t) : Prop :=
  buffer p = l2_bytes (f_l2 f) ++ f_ip_bytes f ++ f_udp_bytes f ++ f_payload f ++ f_tail f /\ Forall is_byte (buffer p) /\
  f_end f <= sz_data b <= Z.of_nat (length (buffer p)) /\ Z.of_nat (length (buffer p)) < 2 ^ 63 /\ p_next_desc b = None.

Definition accepted (f : udp_frame) (d : rx_desc) : bool :=
  negb (is_sw_csum_need d) || ip_sum_ok (f_ip_bytes f) && udp_sum_ok (f_ip f) (f_check f) (f_udp_bytes f ++ f_payload f).

(** What a socket gets: the addresses, and the payload in the buffer. *)
Definition udp_desc (f : udp_frame) (d : rx_desc) : rx_desc :=
  RxDesc (ih_saddr (f_ip f)) (f_source f) (ih_daddr (f_ip f)) (f_dest f) (f_base f + 8) (Z.of_nat (length (f_payload f)))
    (Z.of_nat (length (f_payload f))) (l4_udp m_local_if) 1 (rx_flow_tag_id d) (is_sw_csum_need d).

Lemma received_at p f b : frame_ok f -> received p f b ->
  at_ p 0 (l2_bytes (f_l2 f) ++ f_ip_bytes f) /\ at_ p (l2_len (f_l2 f)) (f_ip_bytes f) /\ at_ p (f_base f) (f_udp_bytes f ++ f_payload f ++ f_tail f).
Proof.
  intros Hf (Hb & _). assert (at_ p 0 (l2_bytes (f_l2 f) ++ f_ip_bytes f ++ f_udp_bytes f ++ f_payload f ++ f_tail f)) as H.
  { split; [done|]. exists []. unfold bytes_at. by rewrite Hb, app_nil_r. }
  assert (at_ p 0 (l2_bytes (f_l2 f) ++ f_ip_bytes f)) as H0.
  { rewrite app_assoc in H. by apply at_app in H as [H _]. }
  apply at_app in H as [_ H]. rewrite Z.add_0_l, l2_bytes_len in H by apply Hf. apply at_app in H as [H1 H2]. split_and!; [done..|].
  replace (f_base f) with (l2_len (f_l2 f) + Z.of_nat (length (f_ip_bytes f))); [done|].
  unfold f_base, f_ip_bytes. rewrite length_ip_bytes. destruct (fo_ip _ Hf) as (? & ? & _). lia.
Qed.

Lemma received_payload p f b d : frame_ok f -> received p f b ->
  take (Z.to_nat (iov_len (udp_desc f d))) (drop (Z.to_nat (iov_base (udp_desc f d))) (buffer p)) = f_payload f.
Proof.
  intros Hf Hr. destruct (received_at p f b Hf Hr) as (_ & _ & H). apply at_app in H as [_ H]. apply at_app in H as [(Ho & t & H) _].
  simpl. unfold bytes_at in H. change (Z.of_nat (length (f_udp_bytes f))) with 8 in H. rewrite H. apply take_app_length'. lia.
Qed.

Lemma rx_udp_ok p r w b d f : frame_ok f -> received p f b -> bufs_ (frag_mgr w) !! p = Some b -> get_rx p w = Ok d ->
  dst_addr d = ih_daddr (f_ip f) ->
  let ok := negb (is_sw_csum_need d) || udp_sum_ok (f_ip f) (f_check f) (f_udp_bytes f ++ f_payload f) in
  let k := udp_key (ih_daddr (f_ip f)) (f_dest f) in
  let n := Z.of_nat (length (f_payload f)) in
  let d1 := set_frag (f_base f + 8) n d in
  rx_udp p (l2_len (f_l2 f)) (f_ip f) r w =
  Ok (if ok then (match flow_map r !! k with Some o => rx_flow k o p | None => rx_drop end,
                  put_rx p (set_l4 (f_source f) (f_dest f) n (l4_udp m_local_if) d1) w)
      else (rx_drop, put_rx p d1 w)).
Proof.
  intros Hf Hr Hb Hd Hda ok k n d1. destruct (received_at p f b Hf Hr) as (_ & _ & H). pose proof H as Hu. apply at_app in Hu as [Hu _].
  destruct Hr as (_ & Hby & _ & _ & Hn). destruct Hf as [_ (Hi & _ & _ & _ & _ & _ & Hs & Hda') _ _ (Hp1 & Hp2 & Hp3 & Hp4) Hlen Htot Htail].
  unfold rx_udp. rewrite Hd. bind_ret. fold (f_base f).
  replace (u64 (ntohs (ih_tot_len (f_ip f)) - ih_ihl (f_ip f) * 4 - 8)) with n by (pose proof (ntohs_range (f_len f)); rewrite wrap_small; lia).
  fold d1. rewrite (at_rd16 _ _ _ 6 (f_check f) Hu) by done. bind_ret. rewrite (at_rd16 _ _ _ 4 (f_len f) Hu) by done. bind_ret.
  change (iov_len d1) with n. change (is_sw_csum_need d1) with (is_sw_csum_need d). subst n.
  rewrite (checksum_udp_ok p w b _ _ _ _ _ _ _ _ Hb Hn Hs Hda' Hp3 Hlen H Hby Htail). fold (f_udp_bytes f).
  assert ((if is_sw_csum_need d && negb (f_check f =? 0) then Ok (negb (checksum (pseudo (ih_saddr (f_ip f)) (ih_daddr (f_ip f)) IPPROTO_UDP
    (8 + Z.of_nat (length (f_payload f))) + total (words (f_udp_bytes f ++ f_payload f))) =? 0)) else Ok false) = Ok (negb ok)) as ->.
  { subst ok. unfold udp_sum_ok. rewrite length_app. change (length (f_udp_bytes f)) with 8%nat. rewrite Nat2Z.inj_add.
    by destruct (is_sw_csum_need d), (f_check f =? 0). }
  bind_ret. destruct ok; cbn [negb]; [|done].
  rewrite <- (Z.add_0_r (f_base f)) at 1. rewrite (at_rd16 _ _ _ 0 (f_source f) Hu) by done. bind_ret.
  rewrite (at_rd16 _ _ _ 2 (f_dest f) Hu) by done. bind_ret. subst k. unfold udp_key. simpl. rewrite Hda.
  assert (u64 (ntohs (f_len f) - 8) = Z.of_nat (length (f_payload f))) as -> by (pose proof (ntohs_range (f_len f)); rewrite wrap_small; lia).
  by destruct (CacheTable.NeighTable.IN_MULTICAST_N (ih_daddr (f_ip f))).
Qed.

Lemma udp_slow_ok p r w b d f : frame_ok f -> received p f b -> bufs_ (frag_mgr w) !! p = Some b -> rx w !! p = Some d ->
  let k := udp_key (ih_daddr (f_ip f)) (f_dest f) in exists w',
  rx_slow p r w = Ok (if accepted f d then match flow_map r !! k with Some o => rx_flow k o p | None => rx_drop end else rx_drop, w') /\
  (accepted f d = true -> w' = put_rx p (udp_desc f d) (trimmed p (f_end f) b w)).
Proof.
  intros Hf Hr Hb Hd k. destruct (received_at p f b Hf Hr) as (H0 & Hip & _). pose proof (ntohs_range (f_len f)) as Hrange.
  pose proof (fo_len f Hf) as Hlen. pose proof (fo_tot f Hf) as Htot. pose proof Hr as (_ & Hby & Hsz & Hbig & Hn).
  unfold f_end in *. rewrite (rx_slow_whole p r w b d _ _ _ _ _ _ (fo_l2 f Hf) (fo_ip f Hf) (fo_whole f Hf) H0 Hb Hd) by lia.
  unfold rx_packet. rewrite get_put. bind_ret. rewrite (bad_ip_checksum_ok _ _ _ _ _ _ _ _ (fo_ip f Hf) Hip Hby). bind_ret. fold (f_ip_bytes f).
  change (is_sw_csum_need (set_n_frags 1 d)) with (is_sw_csum_need d). unfold accepted.
  destruct (is_sw_csum_need d && negb (ip_sum_ok (f_ip_bytes f))) eqn:Hbad.
  { apply andb_true_iff in Hbad as [-> ->%negb_true_iff]. eexists. by split. }
  rewrite (fo_udp f Hf), Z.eqb_refl, put_rx_twice.
  erewrite (rx_udp_ok p r _ (set_sz_data (l2_len (f_l2 f) + ntohs (ih_tot_len (f_ip f))) b) (set_l3 (ih_saddr (f_ip f)) (ih_daddr (f_ip f)) (set_n_frags 1 d)) f); try done.
  - fold k. change (is_sw_csum_need (set_l3 _ _ (set_n_frags 1 d))) with (is_sw_csum_need d). rewrite !put_rx_twice.
    assert (negb (is_sw_csum_need d) || ip_sum_ok (f_ip_bytes f) && udp_sum_ok (f_ip f) (f_check f) (f_udp_bytes f ++ f_payload f) =
      negb (is_sw_csum_need d) || udp_sum_ok (f_ip f) (f_check f) (f_udp_bytes f ++ f_payload f)) as ->.
    { destruct (is_sw_csum_need d); [|done]. by destruct (ip_sum_ok (f_ip_bytes f)). }
    destruct (_ || _); eexists; by split.
  - split_and!; try apply Hr; simpl; unfold f_end; lia.
  - simpl. by rewrite lookup_insert_eq.
  - apply get_put.
Qed.

End Rx.

(** ** The whole function *)

(** The callbacks get the packet; a GRO flow has its own dispatch, and IGMP
    packets go to the IGMP manager.  The number is the reference count that
    the dispatch leaves. *)
Section Process.
Context {A : Type} (rx_input_cb : ptr -> option rx_desc -> sink -> A -> bool * A)
  (gro_dispatch : rfs -> ptr -> A -> bool * Z * A) (process_igmp_packet : ptr -> A -> A).

Definition deliver (o : rx_outcome) (w : rx_world) (a : A) : bool * option (ptr * Z) * A :=
  match o with
  | rx_drop => (false, None, a)
  | rx_igmp p => (false, None, process_igmp_packet p a)
  | rx_held => (true, None, a)
  | rx_fast s p => let '(ret, n, a) := check_rx_packet (rx_input_cb p (rx w !! p)) s a in (ret, Some (p, n), a)
  | rx_flow _ f p =>
    let '(ret, n, a) :=
      match class f with
      | rfs_uc => uc_rx_dispatch_packet (rx_input_cb p (rx w !! p)) f a
      | rfs_mc => mc_rx_dispatch_packet (rx_input_cb p (rx w !! p)) f a
      | rfs_uc_tcp_gro => gro_dispatch f p a
      end in (ret, Some (p, n), a)
  end.

(** True if somebody else returns the buffer. *)
Definition rx_process_buffer cfg m_partition m_local_if get_sockfd buffer igmp_mgr (p : ptr) (r : ring_simple) (w : rx_world) (a : A)
    : res (bool * rx_world * A) :=
  x ← classify cfg m_partition m_local_if get_sockfd buffer igmp_mgr p r w;
  let '(o, w) := x : rx_outcome * rx_world in
  let '(ret, count, a) := deliver o w a in
  m ← (match count with Some (q, n) => store q (set_ref_count n) (bufs_ (frag_mgr w)) | None => Ok (bufs_ (frag_mgr w)) end);
  Ok (ret, RxWorld (set_bufs m (frag_mgr w)) (rx w), a).

End Process.

(** ** Theorems *)

Section Delivery.
Context (cfg : ring_cfg) (m_partition m_local_if : Z) (get_sockfd : Z -> option sink) (buffer : ptr -> list Z) (igmp_mgr : bool).
Context (get_fd : sink -> Z) (addr_in_reuse : sink -> bool) (uninitialised : option sink).
Context {A : Type} (rx_input_cb : ptr -> option rx_desc -> sink -> A -> bool * A)
  (gro_dispatch : rfs -> ptr -> A -> bool * Z * A) (process_igmp_packet : ptr -> A -> A).

Abbreviation process := (rx_process_buffer rx_input_cb gro_dispatch process_igmp_packet cfg m_partition m_local_if get_sockfd buffer igmp_mgr).
Abbreviation runs l := (events_run cfg get_fd addr_in_reuse uninitialised l (new_ring, [], [])).

(** The packet has no tag of a socket. *)
Definition untagged (d : rx_desc) : Prop := m_flow_tag_enabled cfg = false \/ rx_flow_tag_id d = 0 \/ rx_flow_tag_id d = FLOW_TAG_MASK.

Lemma classify_slow p r w b d : untagged d -> bufs_ (frag_mgr w) !! p = Some b -> rx w !! p = Some d -> sz_data b <= Z.of_nat (length (buffer p)) ->
  classify cfg m_partition m_local_if get_sockfd buffer igmp_mgr p r w = rx_slow cfg m_partition m_local_if buffer igmp_mgr p r w.
Proof.
  intros Hu Hb Hd Hsz. unfold classify. rewrite (load_ok _ _ _ Hb). bind_ret. destruct (Z.ltb_spec (Z.of_nat (length (buffer p))) (sz_data b)); [lia|].
  unfold get_rx. rewrite Hd. simpl. assert (m_flow_tag_enabled cfg && negb (rx_flow_tag_id d =? 0) && negb (rx_flow_tag_id d =? FLOW_TAG_MASK) = false) as ->; [|done].
  destruct Hu as [->|[->| ->]]; [done|..]; by destruct (m_flow_tag_enabled cfg).
Qed.

(** The ring after a schedule: who is registered, and with which class. *)
Lemma ring_flows l r P R : supported cfg -> device_removed cfg = false -> mc_filtered cfg = false -> tcp_3t_rules cfg = false ->
  runs l = Ok (r, P, R) -> (forall k, ring_sinks k r = Some <$> sinks_of k R) /\ classed (flow_map r).
Proof.
  intros Hs Hd Hm Ht Hr. destruct (events_run_ok cfg get_fd addr_in_reuse uninitialised l _ Hs Hd (no_filters cfg Hm Ht) (schedule_start cfg)) as (x & Hx & Hok & _).
  rewrite Hr in Hx. injection Hx as <-. split; [intros k; by eapply ring_ok_sinks|].
  by apply (events_run_classed cfg get_fd addr_in_reuse uninitialised l _ _ Hr).
Qed.

Lemma true_elem ks : (1 <? 1 + Z.of_nat (length (filter (fun k => k = true) ks))) = bool_decide (true ∈ ks).
Proof.
  apply eq_true_iff_eq. rewrite Z.ltb_lt, bool_decide_eq_true. split.
  - destruct (filter _ ks) as [|k l] eqn:E; [simpl; lia|]. intros _. assert (k ∈ filter (fun k => k = true) ks) as [-> ?]%list_elem_of_filter by (rewrite E; left). done.
  - intros H. assert (true ∈ filter (fun k => k = true) ks) as Ht by (by apply list_elem_of_filter). destruct (filter _ ks); [by apply not_elem_of_nil in Ht|simpl; lia].
Qed.

(** How many sockets keep the packet. *)
Definition keepers (ks : list bool) : nat := length (filter (fun k => k = true) ks).

Lemma keepers_false m ks : keepers (replicate m false ++ ks) = keepers ks.
Proof. unfold keepers. induction m as [|m IH]; [done|]. simpl. by rewrite filter_cons_False. Qed.

(** What the dispatch of an accepted datagram does. *)
Lemma deliver_uc k f p w a l : class f = rfs_uc -> take (m_n_sinks_list_entries f) (m_sinks_list f) = Some <$> l ->
  let cb := rx_input_cb p (rx w !! p) in exists l1 l2 m ret, l = l1 ++ l2 /\
  deliver rx_input_cb gro_dispatch process_igmp_packet (rx_flow k f p) w a = (ret, Some (p, Z.of_nat (keepers (answers cb l1 a).1)), (answers cb l1 a).2) /\
  (answers cb l1 a).1 = replicate m false ++ (if ret : bool then [true] else []) /\ (ret = false -> l2 = []).
Proof.
  intros Hc Ht cb. simpl. rewrite Hc. unfold uc_rx_dispatch_packet. rewrite Ht. fold cb.
  destruct (uc_loop_spec cb l a) as (l1 & l2 & m & -> & [(Ha & -> & ->)|(Ha & ->)]); eexists l1, _, m, _; (split; [done|]).
  - split; [by rewrite Ha, <- (app_nil_r (replicate m false)), keepers_false|]. split; [by rewrite app_nil_r|done].
  - split; [by rewrite Ha, keepers_false|done].
Qed.

Lemma deliver_mc k f p w a l : class f = rfs_mc -> take (m_n_sinks_list_entries f) (m_sinks_list f) = Some <$> l ->
  let cb := rx_input_cb p (rx w !! p) in
  deliver rx_input_cb gro_dispatch process_igmp_packet (rx_flow k f p) w a =
    (bool_decide (true ∈ (answers cb l a).1), Some (p, Z.of_nat (keepers (answers cb l a).1)), (answers cb l a).2).
Proof.
  intros Hc Ht cb. simpl. rewrite Hc. unfold mc_rx_dispatch_packet. rewrite Ht. fold cb. rewrite mc_loop_spec, true_elem. fold (keepers (answers cb l a).1).
  by replace (1 + Z.of_nat (keepers (answers cb l a).1) - 1) with (Z.of_nat (keepers (answers cb l a).1)) by lia.
Qed.

(** What becomes of a datagram, with the descriptor and the store that the
    sockets find. *)
Lemma udp_processed l r P R p w b d f a : supported cfg -> device_removed cfg = false -> mc_filtered cfg = false -> tcp_3t_rules cfg = false ->
  runs l = Ok (r, P, R) -> frame_ok cfg m_partition f -> received buffer p f b -> bufs_ (frag_mgr w) !! p = Some b -> rx w !! p = Some d -> untagged d ->
  let d' := udp_desc m_local_if f d in
  let cb := rx_input_cb p (Some d') in
  let socks := if accepted f d then sinks_of (udp_key (ih_daddr (f_ip f)) (f_dest f)) R else [] in
  exists ret asked rest m w', process p r w a = Ok (ret, w', (answers cb asked a).2) /\ socks = asked ++ rest /\
    (if CacheTable.NeighTable.IN_MULTICAST_N (ih_daddr (f_ip f)) then rest = [] /\ ret = bool_decide (true ∈ (answers cb asked a).1)
     else (answers cb asked a).1 = replicate m false ++ (if ret : bool then [true] else []) /\ (ret = false -> rest = [])) /\
    (accepted f d = true -> socks <> [] -> rx w' = <[p := d']> (rx w) /\
      bufs_ (frag_mgr w') = <[p := set_ref_count (Z.of_nat (keepers (answers cb asked a).1)) (set_sz_data (f_end f) b)]> (bufs_ (frag_mgr w))).
Proof.
  intros Hs Hdev Hm Ht Hrun Hf Hr Hb Hd Hu d' cb socks.
  destruct (ring_flows l r P R Hs Hdev Hm Ht Hrun) as [Hsinks Hcl].
  destruct (udp_slow_ok cfg m_partition m_local_if buffer igmp_mgr p r w b d f Hf Hr Hb Hd) as (w1 & Hslow & Hacc).
  unfold rx_process_buffer. rewrite (classify_slow p r w b d Hu Hb Hd), Hslow by apply Hr. bind_ret. subst socks.
  set (k := udp_key _ _) in *. pose proof (Hsinks k) as Hk. unfold ring_sinks in Hk.
  assert (forall (socks : list sink) w1, socks = [] -> exists ret asked rest m w', Ok (false, RxWorld (set_bufs (bufs_ (frag_mgr w1)) (frag_mgr w1)) (rx w1), a) = Ok (ret, w', (answers cb asked a).2) /\
    socks = asked ++ rest /\ (if CacheTable.NeighTable.IN_MULTICAST_N (ih_daddr (f_ip f)) then rest = [] /\ ret = bool_decide (true ∈ (answers cb asked a).1)
    else (answers cb asked a).1 = replicate m false ++ (if ret : bool then [true] else []) /\ (ret = false -> rest = [])) /\
    (accepted f d = true -> socks <> [] -> rx w' = <[p := d']> (rx w) /\
      bufs_ (frag_mgr w') = <[p := set_ref_count (Z.of_nat (keepers (answers cb asked a).1)) (set_sz_data (f_end f) b)]> (bufs_ (frag_mgr w)))) as Hdrop.
  { intros socks w2 ->. exists false, [], [], 0%nat. eexists. split; [done|]. split; [done|]. split; [by destruct (CacheTable.NeighTable.IN_MULTICAST_N _)|done]. }
  destruct (accepted f d); [|by apply Hdrop]. rewrite (Hacc eq_refl) in *. destruct (flow_map r !! k) as [o|] eqn:Ho.
  2: { destruct (sinks_of k R); [|done]. by apply Hdrop. }
  set (w2 := put_rx p _ _) in *. assert (rx w2 = <[p := d']> (rx w)) as Ew2 by done.
  assert (bufs_ (frag_mgr w2) = <[p := set_sz_data (f_end f) b]> (bufs_ (frag_mgr w))) as Eb2 by done.
  assert (rx w2 !! p = Some d') as Hw2 by (rewrite Ew2; by rewrite lookup_insert_eq).
  assert (bufs_ (frag_mgr w2) !! p = Some (set_sz_data (f_end f) b)) as Hb2 by (rewrite Eb2; by rewrite lookup_insert_eq).
  specialize (Hcl k o Ho). subst k. unfold udp_key in *. destruct (CacheTable.NeighTable.IN_MULTICAST_N (ih_daddr (f_ip f))); simpl in Hcl.
  - rewrite (deliver_mc (key_udp_mc (ih_daddr (f_ip f)) (f_dest f)) o p w2 a _ Hcl Hk). rewrite Hw2. fold cb.
    unfold store. rewrite (load_ok _ _ _ Hb2). bind_ret. eexists _, _, [], 0%nat, _. split; [done|]. split; [by rewrite app_nil_r|]. split; [done|]. intros _ _. split; [done|].
    simpl. apply insert_insert_eq.
  - destruct (deliver_uc (key_udp_uc (f_dest f)) o p w2 a _ Hcl Hk) as (l1 & l2 & m & ret & -> & -> & Ha & Hr2). rewrite Hw2 in *. fold cb in Ha |- *.
    unfold store. rewrite (load_ok _ _ _ Hb2). bind_ret. exists ret, l1, l2, m. eexists. split; [done|]. split; [done|]. split; [by split|]. intros _ _. split; [done|].
    simpl. apply insert_insert_eq.
Qed.

(** C6: A datagram reaches its sockets.  Whatever attachments and detachments
    the ring went through, interleaved or not, with a rule of the adapter for
    each flow (none is shared) on a device that is present, a UDP datagram that
    came in one piece without a flow tag, over Ethernet, VLAN or IPoIB, with or
    without IP options and padding, is given to the sockets registered for its destination port (or
    its group and port) with its addresses and exactly its payload: to all of
    them in order for a multicast address, to the first that keeps it for
    another one; and the buffer is left to the caller exactly if none keeps
    it.  If the software has to verify checksums, it is dropped exactly if the
    one of the header or of the datagram is wrong. *)
Theorem rx_udp_delivered l r P R p w b d f a : supported cfg -> device_removed cfg = false -> mc_filtered cfg = false -> tcp_3t_rules cfg = false ->
  runs l = Ok (r, P, R) -> frame_ok cfg m_partition f -> received buffer p f b -> bufs_ (frag_mgr w) !! p = Some b -> rx w !! p = Some d -> untagged d ->
  let d' := udp_desc m_local_if f d in
  let cb := rx_input_cb p (Some d') in
  let socks := if accepted f d then sinks_of (udp_key (ih_daddr (f_ip f)) (f_dest f)) R else [] in
  take (Z.to_nat (iov_len d')) (drop (Z.to_nat (iov_base d')) (buffer p)) = f_payload f /\
  exists ret asked rest m w', process p r w a = Ok (ret, w', (answers cb asked a).2) /\ socks = asked ++ rest /\
    if CacheTable.NeighTable.IN_MULTICAST_N (ih_daddr (f_ip f)) then rest = [] /\ ret = bool_decide (true ∈ (answers cb asked a).1)
    else (answers cb asked a).1 = replicate m false ++ (if ret : bool then [true] else []) /\ (ret = false -> rest = []).
Proof.
  intros Hs Hdev Hm Ht Hrun Hf Hr Hb Hd Hu d' cb socks. split; [by eapply received_payload|].
  destruct (udp_processed l r P R p w b d f a Hs Hdev Hm Ht Hrun Hf Hr Hb Hd Hu) as (ret & asked & rest & m & w' & H1 & H2 & H3 & _). by exists ret, asked, rest, m, w'.
Qed.

End Delivery.

(** ** The fast path *)

Section FastPath.
Context (cfg : ring_cfg) (m_partition m_local_if : Z) (get_sockfd : Z -> option sink) (buffer : ptr -> list Z) (igmp_mgr : bool).

(** The first bytes of a frame over Ethernet say how long its header is. *)
Lemma fast_header p l o : l2_ok cfg m_partition l -> m_transport_type cfg = CacheTable.NeighTable.VMA_TRANSPORT_ETH -> at_ buffer p 0 (l2_bytes l ++ o) ->
  exists proto, rd16 buffer p 12 = Ok proto /\ (if proto =? ntohs ETH_P_8021Q then ETH_VLAN_HDR_LEN else ETH_HDR_LEN) = l2_len l.
Proof.
  intros Hl Ht H. apply at_app in H as [H _]. destruct l as [mac|mac tci|grh]; simpl in Hl; [..|destruct Hl as [E _]; by rewrite E in Ht].
  - destruct Hl as (_ & Hm & _). apply at_app in H as [_ H]. rewrite Hm in H. change (0 + Z.of_nat 12) with 12 in H.
    exists (ntohs ETH_P_IP). change 12 with (12 + 0). by rewrite (at_rd16 _ _ _ _ 0 (ntohs ETH_P_IP) H).
  - destruct Hl as (_ & Hm & _). apply at_app in H as [_ H]. rewrite Hm in H. change (0 + Z.of_nat 12) with 12 in H.
    exists (ntohs ETH_P_8021Q). change 12 with (12 + 0). by rewrite (at_rd16 _ _ _ _ 0 (ntohs ETH_P_8021Q) H).
Qed.

Lemma fast_path_udp p f b d : frame_ok cfg m_partition f -> received buffer p f b -> ih_ihl (f_ip f) = 5 ->
  m_transport_type cfg = CacheTable.NeighTable.VMA_TRANSPORT_ETH ->
  fast_path m_local_if buffer p false d = Ok (Some (udp_desc m_local_if f d)).
Proof.
  intros Hf Hr Hi Ht. destruct (received_at _ _ _ p f b Hf Hr) as (H0 & H1 & H2). apply at_app in H2 as [H2 _].
  destruct (fast_header p _ _ (fo_l2 _ _ f Hf) Ht H0) as (proto & Hp & Hh). unfold fast_path. rewrite Hp. bind_ret. rewrite Hh.
  destruct (fo_ip _ _ f Hf) as (_ & _ & Hw & _ & _ & _ & Hs & Hd). destruct (fo_ports _ _ f Hf) as (Hp1 & Hp2 & Hp3 & Hp4).
  assert (f_base f = l2_len (f_l2 f) + 20) as Hb by (unfold f_base; lia). rewrite Hb in H2. pose proof (ntohs_range (f_len f)) as Hrange.
  rewrite (at_rd16 _ _ _ _ 2 (ih_tot_len (f_ip f)) H1) by done. bind_ret. rewrite (at_rd8 _ _ _ _ 9 (ih_protocol (f_ip f)) H1) by done. bind_ret.
  rewrite (fo_udp _ _ f Hf), Z.eqb_refl.
  rewrite <- (Z.add_0_r (l2_len (f_l2 f) + 20)) at 1. rewrite (at_rd16 _ _ _ _ 0 (f_source f) H2) by done. bind_ret.
  rewrite (at_rd32 _ _ _ _ 12 (ih_saddr (f_ip f)) H1) by done. bind_ret. rewrite (at_rd16 _ _ _ _ 2 (f_dest f) H2) by done. bind_ret.
  rewrite (at_rd32 _ _ _ _ 16 (ih_daddr (f_ip f)) H1) by done. bind_ret. rewrite (at_rd16 _ _ _ _ 4 (f_len f) H2) by done. bind_ret.
  unfold udp_desc. rewrite Hb, (fo_tot _ _ f Hf), Hi, (fo_len _ _ f Hf). pose proof (fo_len _ _ f Hf).
  rewrite !(wrap_small 64) by lia. do 2 f_equal. f_equal; lia.
Qed.

(** C31: The fast path agrees with the slow one: a datagram without IP options
    that came in one piece over Ethernet, and whose tag names a UDP socket
    with flow tags, is given to that socket without looking the flow up, with
    the same descriptor, addresses and payload, as the slow path makes for the
    sockets of the flow. *)
Theorem rx_fast_path_agrees p r w b d f s : frame_ok cfg m_partition f -> received buffer p f b -> bufs_ (frag_mgr w) !! p = Some b -> rx w !! p = Some d ->
  ih_ihl (f_ip f) = 5 -> m_transport_type cfg = CacheTable.NeighTable.VMA_TRANSPORT_ETH -> m_flow_tag_enabled cfg = true ->
  rx_flow_tag_id d <> 0 -> rx_flow_tag_id d <> FLOW_TAG_MASK -> get_sockfd (rx_flow_tag_id d - 1) = Some s ->
  sock_flow_tag_enabled (get_flags s r) = true -> m_tcp_flow_is_5t (get_flags s r) = false ->
  exists w1 o w2, classify cfg m_partition m_local_if get_sockfd buffer igmp_mgr p r w = Ok (rx_fast s p, w1) /\
    rx_slow cfg m_partition m_local_if buffer igmp_mgr p r w = Ok (o, w2) /\ rx w1 !! p = Some (udp_desc m_local_if f d) /\
    (accepted f d = true -> rx w2 = rx w1).
Proof.
  intros Hf Hr Hb Hd Hi Ht He H0 Hm Hs Hen H5. destruct (udp_slow_ok cfg m_partition m_local_if buffer igmp_mgr p r w b d f Hf Hr Hb Hd) as (w2 & Hslow & Hacc).
  exists (put_rx p (udp_desc m_local_if f d) w). eexists _, w2. split_and!; [|done|by simpl; rewrite lookup_insert_eq|by intros ->%Hacc].
  unfold classify. rewrite (load_ok _ _ _ Hb). bind_ret. destruct Hr as (Hr1 & Hr2 & Hr3 & Hr4).
  destruct (Z.ltb_spec (Z.of_nat (length (buffer p))) (sz_data b)); [lia|]. unfold get_rx. rewrite Hd. cbn [must]. bind_ret.
  rewrite He, (proj2 (Z.eqb_neq _ _) H0), (proj2 (Z.eqb_neq _ _) Hm), Hs. cbn [andb negb]. rewrite Hen, H5.
  by rewrite (fast_path_udp p f b d Hf (conj Hr1 (conj Hr2 (conj Hr3 Hr4))) Hi Ht).
Qed.

End FastPath.

(** ** Arbitrary packets *)

Section Total.
Context (cfg : ring_cfg) (m_partition m_local_if : Z) (get_sockfd : Z -> option sink) (buffer : ptr -> list Z) (igmp_mgr : bool).

(** Room for the longest headers: GRH and IPoIB, 60 bytes of IP, 20 of TCP. *)
Definition MAX_HEADERS : Z := 124.

(** Any bytes; but the checksums need not be verified in software, and it is
    no IP fragment. *)
Record any_packet (p : ptr) (w : rx_world) : Prop := AnyPacket {
  ap_bytes : Forall is_byte (buffer p);
  ap_room : MAX_HEADERS <= Z.of_nat (length (buffer p));
  ap_desc : exists d, rx w !! p = Some d /\ is_sw_csum_need d = false;
  ap_whole : forall hdr h, transport_header cfg m_partition buffer p = Ok (Some hdr) -> read_iphdr buffer p hdr = Ok h -> whole h
}.

(** What becomes of the descriptors. *)
Definition same_refs (b b' : mem_buf_desc_t) : Prop :=
  n_ref_count b' = n_ref_count b /\ pbuf_ref b' = pbuf_ref b /\ p_next_desc b' = p_next_desc b /\ p_desc_owner b' = p_desc_owner b.

Definition about (p : ptr) (o : rx_outcome) : Prop :=
  match o with rx_drop => True | rx_held => False | rx_igmp q | rx_fast _ q | rx_flow _ _ q => q = p end.

Definition same_csum (w w' : rx_world) : Prop := forall q, is_sw_csum_need <$> rx w' !! q = is_sw_csum_need <$> rx w !! q.

Definition settled (p : ptr) (w : rx_world) (x : rx_outcome * rx_world) : Prop :=
  about p x.1 /\ same_csum w x.2 /\ (forall q, q <> p -> bufs_ (frag_mgr x.2) !! q = bufs_ (frag_mgr w) !! q) /\
  exists b b', bufs_ (frag_mgr w) !! p = Some b /\ bufs_ (frag_mgr x.2) !! p = Some b' /\ same_refs b b'.

Lemma same_csum_put p d d' w : rx w !! p = Some d -> is_sw_csum_need d' = is_sw_csum_need d -> same_csum w (put_rx p d' w).
Proof.
  intros Hd Hc q. simpl. destruct (decide (q = p)) as [->|Hq]; [|by rewrite lookup_insert_ne]. rewrite lookup_insert_eq, Hd. simpl. by rewrite Hc.
Qed.

Lemma settled_put p d d' w x : rx w !! p = Some d -> is_sw_csum_need d' = is_sw_csum_need d -> settled p (put_rx p d' w) x -> settled p w x.
Proof.
  intros Hd Hc (H1 & H2 & H3). split; [done|]. split; [|done]. intros q. rewrite H2. by eapply same_csum_put.
Qed.

Lemma settled_same p o w w' b : about p o -> same_csum w w' -> frag_mgr w' = frag_mgr w -> bufs_ (frag_mgr w) !! p = Some b -> settled p w (o, w').
Proof. intros Ho Hc Hw Hb. split; [done|]. split; [done|]. simpl. rewrite Hw. split; [done|]. by exists b, b. Qed.

Lemma rd8_total p o : Forall is_byte (buffer p) -> 0 <= o < Z.of_nat (length (buffer p)) -> returns is_byte (rd8 buffer p o).
Proof.
  intros Hb Ho. unfold rd8. destruct (proj2 (lookupZ_is_Some (buffer p) o) Ho) as [x Hx]. rewrite Hx. apply returns_Ok.
  apply lookupZ_Some in Hx as [_ Hx]. by eapply Forall_lookup_1.
Qed.

Lemma rd16_total p o : Forall is_byte (buffer p) -> 0 <= o -> o + 1 < Z.of_nat (length (buffer p)) -> returns is_word (rd16 buffer p o).
Proof.
  intros Hb H0 H1. unfold rd16. eapply returns_bind; [apply rd8_total; [done|lia]|]. intros x Hx.
  eapply returns_bind; [apply rd8_total; [done|lia]|]. intros y Hy. apply returns_Ok. by apply word_range.
Qed.

Lemma rd32_total p o : Forall is_byte (buffer p) -> 0 <= o -> o + 3 < Z.of_nat (length (buffer p)) -> returns (fun x => 0 <= x < 2 ^ 32) (rd32 buffer p o).
Proof.
  intros Hb H0 H1. unfold rd32. eapply returns_bind; [apply rd16_total; [done|lia..]|]. intros x Hx.
  eapply returns_bind; [apply rd16_total; [done|lia..]|]. intros y Hy. apply returns_Ok. unfold is_word in *. lia.
Qed.

Ltac read_total := match goal with
  | |- returns _ (rd8 _ _ _ ≫= _) => eapply returns_bind; [apply rd8_total; [done|unfold MAX_HEADERS in *; lia]|intros ? ?]
  | |- returns _ (rd16 _ _ _ ≫= _) => eapply returns_bind; [apply rd16_total; [done|unfold MAX_HEADERS in *; lia..]|intros ? ?]
  | |- returns _ (rd32 _ _ _ ≫= _) => eapply returns_bind; [apply rd32_total; [done|unfold MAX_HEADERS in *; lia..]|intros ? ?]
  end; cbv beta zeta.

Lemma read_iphdr_total p hdr : Forall is_byte (buffer p) -> MAX_HEADERS <= Z.of_nat (length (buffer p)) -> 0 <= hdr <= 44 ->
  returns (fun h => 0 <= ih_ihl h < 16) (read_iphdr buffer p hdr).
Proof.
  intros Hb Hr Hh. unfold read_iphdr. repeat read_total. apply returns_Ok. simpl. change 15 with (Z.ones 4). rewrite Z.land_ones by lia.
  by apply Z.mod_pos_bound.
Qed.

Lemma transport_header_total p : Forall is_byte (buffer p) -> MAX_HEADERS <= Z.of_nat (length (buffer p)) ->
  returns (fun o => forall hdr, o = Some hdr -> 0 <= hdr <= 44) (transport_header cfg m_partition buffer p).
Proof.
  intros Hb Hr. unfold transport_header. unfold ETH_HDR_LEN, ETH_VLAN_HDR_LEN, GRH_HDR_LEN, IPOIB_HDR_LEN.
  destruct (_ =? _).
  - read_total. apply returns_Ok. destruct (_ =? _); [|done]. intros hdr [= <-]. lia.
  - destruct (_ =? _); [|by apply returns_Ok]. read_total.
    eapply (returns_bind (fun x : Z * Z * Z => 0 <= x.1.1 <= 44)).
    + destruct (_ =? _); repeat read_total; apply returns_Ok; simpl; lia.
    + intros [[hdr proto] vlan] Hx. simpl in Hx. apply returns_Ok. repeat case_match; try done. intros ? [= <-]. lia.
Qed.

(** The descriptor of [p] and its buffer, during the processing. *)
Definition unchecked (p : ptr) (w : rx_world) : Prop :=
  is_Some (bufs_ (frag_mgr w) !! p) /\ exists d, rx w !! p = Some d /\ is_sw_csum_need d = false.

Lemma rx_udp_total p hdr h r w : Forall is_byte (buffer p) -> MAX_HEADERS <= Z.of_nat (length (buffer p)) -> 0 <= hdr <= 44 -> 0 <= ih_ihl h < 16 ->
  unchecked p w -> returns (settled p w) (rx_udp m_local_if buffer p hdr h r w).
Proof.
  intros Hb Hr Hh Hi ([b Hp] & d & Hd & Hc). unfold rx_udp. rewrite (get_rx_ok _ _ _ Hd). bind_ret. repeat read_total.
  simpl is_sw_csum_need. rewrite Hc. simpl. repeat read_total. apply returns_Ok. eapply settled_same; [|by eapply same_csum_put|done..]. by destruct (flow_map r !! _).
Qed.

Lemma rx_tcp_total p hdr h r w : Forall is_byte (buffer p) -> MAX_HEADERS <= Z.of_nat (length (buffer p)) -> 0 <= hdr <= 44 -> 0 <= ih_ihl h < 16 ->
  unchecked p w -> returns (settled p w) (rx_tcp buffer p hdr h r w).
Proof.
  intros Hb Hr Hh Hi ([b Hp] & d & Hd & Hc). unfold rx_tcp. rewrite (get_rx_ok _ _ _ Hd). bind_ret. rewrite Hc. bind_ret. repeat read_total.
  apply returns_Ok. eapply settled_same; [|by eapply same_csum_put|done..]. by repeat case_match.
Qed.

Lemma rx_packet_total p hdr h r w : Forall is_byte (buffer p) -> MAX_HEADERS <= Z.of_nat (length (buffer p)) -> 0 <= hdr <= 44 -> 0 <= ih_ihl h < 16 ->
  unchecked p w -> returns (settled p w) (rx_packet cfg m_local_if buffer igmp_mgr p hdr h r w).
Proof.
  intros Hb Hr Hh Hi H. pose proof H as ([b Hp] & d & Hd & Hc). unfold rx_packet. rewrite (get_rx_ok _ _ _ Hd). bind_ret.
  unfold bad_ip_checksum. rewrite Hc. bind_ret. set (w' := put_rx p _ w). assert (unchecked p w') as Hu.
  { split; [by exists b|]. eexists. simpl. rewrite lookup_insert_eq. by split. }
  eapply returns_mono; [intros x; by apply (settled_put p d (set_l3 (ih_saddr h) (ih_daddr h) d))|]. fold w'. destruct (_ =? _); [by apply rx_udp_total|]. destruct (_ =? _); [by apply rx_tcp_total|].
  destruct (_ =? _); apply returns_Ok; (eapply settled_same; [|done..]); [|done]. by repeat case_match.
Qed.

Lemma trim_total p b n tot m : m !! p = Some b ->
  returns (fun m' => exists b', same_refs b b' /\ m' = <[p := b']> m)
    (if tot <? n then store p (set_sz_data (u64 (sz_data b - (n - tot)))) m else Ok m).
Proof.
  intros Hp. destruct (_ <? _).
  - unfold store. rewrite (load_ok _ _ _ Hp). bind_ret. apply returns_Ok. by eexists (set_sz_data _ b).
  - apply returns_Ok. exists b. split; [done|]. by rewrite insert_id.
Qed.

Lemma settled_trim p w b b' m x : bufs_ (frag_mgr w) !! p = Some b -> same_refs b b' -> m = <[p := b']> (bufs_ (frag_mgr w)) ->
  settled p (RxWorld (set_bufs m (frag_mgr w)) (rx w)) x -> settled p w x.
Proof.
  intros Hp (H1 & H2 & H3 & H3') -> (Ha & Hcs & Hq & b1 & b2 & E1 & E2 & H4 & H5 & H6 & H6'). simpl in *. rewrite lookup_insert_eq in E1. injection E1 as <-.
  split; [done|]. split; [done|]. split.
  - intros q Hne. rewrite Hq by done. by rewrite lookup_insert_ne.
  - exists b, b2. split_and!; [done..|]. unfold same_refs. by rewrite H4, H5, H6, H6'.
Qed.

Lemma rx_slow_total p r w : any_packet p w -> is_Some (bufs_ (frag_mgr w) !! p) ->
  returns (settled p w) (rx_slow cfg m_partition m_local_if buffer igmp_mgr p r w).
Proof.
  intros [Hb Hr (d & Hd & Hc) Hw] [b Hp]. unfold rx_slow. destruct (transport_header_total p Hb Hr) as (o & Ho & Hhdr). rewrite Ho. bind_ret.
  assert (returns (settled p w) (Ok (rx_drop, w))) as Hdrop by (apply returns_Ok; by eapply settled_same).
  destruct o as [hdr|]; [|done]. specialize (Hhdr hdr eq_refl). rewrite (load_ok _ _ _ Hp). bind_ret. destruct (_ <? _); [done|].
  read_total. destruct (negb _); [done|]. destruct (read_iphdr_total p hdr Hb Hr Hhdr) as (h & Hh & Hi). specialize (Hw hdr h Ho Hh). rewrite Hh. bind_ret.
  destruct (_ <? _); [done|].
  eapply returns_bind; [by apply trim_total|]. intros m (b' & Hs & Hm). cbv beta zeta. set (w1 := RxWorld _ _).
  eapply returns_mono; [by intros x; apply (settled_trim p w b b' m)|]. fold w1. assert (bufs_ (frag_mgr w1) !! p = Some b') as Hp1 by (subst m; simpl; by rewrite lookup_insert_eq).
  destruct (whole_ok h Hw) as [-> ->]. change (u16 (0 * 8)) with 0. cbn [Z.eqb negb orb andb]. destruct (_ <? _); [apply returns_Ok; by eapply settled_same|].
  rewrite (get_rx_ok p w1 d Hd). bind_ret. eapply returns_mono; [intros x; by apply (settled_put p d (set_n_frags 1 d))|].
  apply rx_packet_total; try done. split; [by exists b'|]. eexists. simpl. rewrite lookup_insert_eq. by split.
Qed.

Lemma fast_path_total p is_5t d : Forall is_byte (buffer p) -> MAX_HEADERS <= Z.of_nat (length (buffer p)) ->
  returns (fun o => forall d', o = Some d' -> is_sw_csum_need d' = is_sw_csum_need d) (fast_path m_local_if buffer p is_5t d).
Proof.
  intros Hb Hr. unfold fast_path, ETH_HDR_LEN, ETH_VLAN_HDR_LEN. read_total. set (hdr := if _ =? _ then 18 else 14).
  assert (14 <= hdr <= 18) as Hh by (subst hdr; case_match; lia). clearbody hdr.
  repeat read_total. destruct is_5t; [repeat read_total; apply returns_Ok; by intros ? [= <-]|]. destruct (_ =? _); repeat read_total; apply returns_Ok; by intros ? [= <-].
Qed.

Lemma classify_total p r w : any_packet p w -> is_Some (bufs_ (frag_mgr w) !! p) ->
  returns (settled p w) (classify cfg m_partition m_local_if get_sockfd buffer igmp_mgr p r w).
Proof.
  intros H Hs. pose proof H as [Hb Hr (d & Hd & Hc) Hw]. pose proof Hs as [b Hp]. unfold classify. rewrite (load_ok _ _ _ Hp). bind_ret.
  destruct (_ <? _); [apply returns_Ok; by eapply settled_same|]. rewrite (get_rx_ok _ _ _ Hd). bind_ret.
  match goal with |- context [match ?o with Some _ => _ | None => _ end] => destruct o as [s|] end; [|by apply rx_slow_total].
  destruct (sock_flow_tag_enabled _); [|by apply rx_slow_total]. eapply returns_bind; [by apply fast_path_total|]. intros [d'|] Hd'; [|by apply rx_slow_total]. apply returns_Ok. eapply settled_same; [done|by eapply same_csum_put; [|apply Hd']|done..].
Qed.

(** A dispatch that returns false leaves no reference. *)
Lemma uc_loop_refs {A} (cb : sink -> A -> bool * A) l a : (uc_loop cb l 0 a).1.1 = false -> 0 <= (uc_loop cb l 0 a).1.2 <= 1.
Proof.
  revert a. induction l as [|[s|] l IH]; intros a; [done|..]; simpl; [|apply IH]. destruct (cb s a) as [[] a1]; [done|]. apply IH.
Qed.

Lemma mc_loop_grows {A} (cb : sink -> A -> bool * A) l n a : n <= (mc_loop cb l n a).1.
Proof.
  revert n a. induction l as [|[s|] l IH]; intros n a; [done|..]; simpl; [|apply IH]. destruct (cb s a) as [[] a1]; [|apply IH].
  etrans; [|apply IH]. lia.
Qed.

Section Any.
Context {A : Type} (rx_input_cb : ptr -> option rx_desc -> sink -> A -> bool * A)
  (gro_dispatch : rfs -> ptr -> A -> bool * Z * A) (process_igmp_packet : ptr -> A -> A).
Context (gro_refs : forall f p a, (gro_dispatch f p a).1.1 = false -> 0 <= (gro_dispatch f p a).1.2 <= 1).

Lemma deliver_refs p o w a : about p o -> exists ret c a', deliver rx_input_cb gro_dispatch process_igmp_packet o w a = (ret, c, a') /\
  match c with None => True | Some (q, n) => q = p /\ (ret = false -> 0 <= n <= 1) end.
Proof.
  intros Ho. destruct o as [| |q|s q|k f q]; simpl in Ho; subst; simpl; try (by repeat eexists).
  - unfold check_rx_packet. destruct (rx_input_cb _ _ s a) as [[] a']; do 3 eexists; (split; [done|]); by split.
  - assert (exists ret n a', match class f with
      | rfs_uc => uc_rx_dispatch_packet (rx_input_cb p (rx w !! p)) f a
      | rfs_mc => mc_rx_dispatch_packet (rx_input_cb p (rx w !! p)) f a
      | rfs_uc_tcp_gro => gro_dispatch f p a end = (ret, n, a') /\ (ret = false -> 0 <= n <= 1)) as (ret & n & a' & -> & Hn); [|by exists ret, (Some (p, n)), a'].
    destruct (class f).
    + unfold uc_rx_dispatch_packet. match goal with |- context [uc_loop ?cb ?l 0 a] => pose proof (uc_loop_refs cb l a) as H; destruct (uc_loop cb l 0 a) as [[ret n] a'] end.
      by exists ret, n, a'.
    + unfold mc_rx_dispatch_packet. pose proof (mc_loop_grows (rx_input_cb p (rx w !! p)) (take (m_n_sinks_list_entries f) (m_sinks_list f)) 1 a) as Hg.
      destruct (mc_loop _ _ _ _) as [n a']. eexists _, _, a'. split; [done|]. simpl in Hg. intros ?%Z.ltb_ge. lia.
    + pose proof (gro_refs f p a) as H. destruct (gro_dispatch f p a) as [[ret n] a']. by exists ret, n, a'.
Qed.

Lemma rx_any_packet_ok p r w b a : any_packet p w -> bufs_ (frag_mgr w) !! p = Some b -> n_ref_count b <= 1 ->
  returns (fun x => same_csum w x.1.2 /\ (forall q, q <> p -> bufs_ (frag_mgr x.1.2) !! q = bufs_ (frag_mgr w) !! q) /\
    exists b', bufs_ (frag_mgr x.1.2) !! p = Some b' /\ p_next_desc b' = p_next_desc b /\ pbuf_ref b' = pbuf_ref b /\
      p_desc_owner b' = p_desc_owner b /\ (x.1.1 = false -> Z.min 0 (n_ref_count b) <= n_ref_count b' <= 1))
    (rx_process_buffer rx_input_cb gro_dispatch process_igmp_packet cfg m_partition m_local_if get_sockfd buffer igmp_mgr p r w a).
Proof.
  intros H Hp Hn. unfold rx_process_buffer. eapply returns_bind; [by apply classify_total; [|exists b]|].
  intros [o w1] (Ho & Hcs & Hq & b1 & b2 & E1 & E2 & H1 & H2 & H3 & H4). simpl in *. rewrite Hp in E1. injection E1 as <-.
  destruct (deliver_refs p o w1 a Ho) as (ret & c & a' & -> & Hc). destruct c as [[q n]|].
  - destruct Hc as [-> Hc]. unfold store. rewrite (load_ok _ _ _ E2). bind_ret. apply returns_Ok. simpl. split; [done|]. split.
    + intros q Hne. rewrite lookup_insert_ne by done. by apply Hq.
    + exists (set_ref_count n b2). rewrite lookup_insert_eq. split_and!; [done..|]. simpl. intros Hret. specialize (Hc Hret). lia.
  - bind_ret. apply returns_Ok. simpl. split; [done|]. split; [done|]. exists b2. split_and!; [done..|]. intros _. lia.
Qed.

(** C15: No packet makes the receive path read outside of its buffer: on a
    buffer with room for the longest headers, whatever its bytes are, and
    whatever flows and tags the ring has, the processing of a packet that is
    not a fragment and whose checksums the software need not verify returns
    (for a packet with a wrong length, the loop over its fragments in
    [compute_udp_checksum_rx] may not end).  It touches no other descriptor,
    does not relink the one of the packet, and if it returns false there is at most the
    reference of the caller. *)
Theorem rx_any_packet p r w b a : any_packet p w -> bufs_ (frag_mgr w) !! p = Some b -> n_ref_count b <= 1 ->
  returns (fun x => (forall q, q <> p -> bufs_ (frag_mgr x.1.2) !! q = bufs_ (frag_mgr w) !! q) /\
    exists b', bufs_ (frag_mgr x.1.2) !! p = Some b' /\ p_next_desc b' = p_next_desc b /\ pbuf_ref b' = pbuf_ref b /\
      p_desc_owner b' = p_desc_owner b /\ (x.1.1 = false -> Z.min 0 (n_ref_count b) <= n_ref_count b' <= 1))
    (rx_process_buffer rx_input_cb gro_dispatch process_igmp_packet cfg m_partition m_local_if get_sockfd buffer igmp_mgr p r w a).
Proof. intros. eapply returns_mono; [|by apply rx_any_packet_ok]. intros x [_ Hx]. done. Qed.

End Any.

End Total.

(** ** Small packets *)

Module RxExample.

Definition eth_cfg : ring_cfg := RingCfg 1 0 false false false 0 true false false (fun _ => true).
Definition local_if : Z := 10.
Definition mac : list Z := replicate 12 1.

(** A datagram of three bytes from 20:7 to 10:[ntohs 5000], with the options
    and the checksums that are given. *)
Definition header (opts : list Z) : iphdr :=
  let ihl := 5 + Z.of_nat (length opts) / 4 in IpHdr 1 20 10 17 0 (ntohs (ihl * 4 + 11)) ihl.
Definition frame (opts : list Z) (ip_check check : Z) : udp_frame :=
  UdpFrame (l2_eth mac) (header opts) 0 64 ip_check opts 7 (ntohs 5000) (ntohs 11) check [1; 2; 3] [0; 0].

Definition frame_bytes (f : udp_frame) : list Z := l2_bytes (f_l2 f) ++ f_ip_bytes f ++ f_udp_bytes f ++ f_payload f ++ f_tail f.
Definition buf (f : udp_frame) : mem_buf_desc_t := MemBufDesc 0 0 0 0 None (f_end f + 1) None.
Definition desc (tag : Z) (csum : bool) : rx_desc := RxDesc 0 0 0 0 0 0 0 l4_none 0 tag csum.
Definition start (f : udp_frame) (d : rx_desc) : rx_world := RxWorld (Manager {[1%positive := buf f]} 0 [] ∅ [] 0 [] 0) {[1%positive := d]}.

(** The flow of socket 3 and then of socket 4, attached by one thread. *)
Definition flow : flow_tuple := FlowTuple 10 (ntohs 5000) 0 0 PROTO_UDP.
Definition attach_events : list event := [e_begin flow 3; e_end 0; e_begin flow 4].
Definition ring : ring_simple :=
  match events_run eth_cfg id (fun _ => false) None attach_events (new_ring, [], []) with Ok (r, _, _) => r | _ => new_ring end.

(** A socket keeps what it gets, or nothing; what was asked is recorded. *)
Definition cb (keeps : list sink) (p : ptr) (d : option rx_desc) (s : sink) (a : list (sink * option rx_desc)) : bool * list (sink * option rx_desc) :=
  (bool_decide (s ∈ keeps), a ++ [(s, d)]).

Lemma frame_fine opts : opts = [] \/ opts = [0; 0; 0; 0] -> frame_ok eth_cfg 0 (frame opts 0 0).
Proof. intros [-> | ->]; split; vm_compute; try done; repeat split; done. Qed.

Lemma received_fine opts : opts = [] \/ opts = [0; 0; 0; 0] ->
  received (fun _ => frame_bytes (frame opts 0 0)) 1 (frame opts 0 0) (buf (frame opts 0 0)).
Proof.
  intros [-> | ->]; (split; [done|]); (split; [|by vm_compute]); apply (bool_decide_unpack _); vm_compute; done.
Qed.

Definition process_frame (keeps : list sink) (f : udp_frame) (d : rx_desc) : option (bool * list (sink * option rx_desc)) :=
  match rx_process_buffer (cb keeps) (fun _ _ a => (false, 0, a)) (fun _ a => a) eth_cfg 0 local_if (fun fd => Some fd)
          (fun _ => frame_bytes f) true 1 ring (start f d) [] with
  | Ok (ret, _, a) => Some (ret, a)
  | _ => None
  end.

(** With an option in the IP header, socket 3 refuses and socket 4 keeps. *)
Lemma rx_udp_delivered_witness :
  let f := frame [0; 0; 0; 0] 0 0 in let d := desc 0 false in
  exists w', rx_process_buffer (cb [4]) (fun _ _ a => (false, 0, a)) (fun _ a => a) eth_cfg 0 local_if (fun fd => Some fd)
    (fun _ => frame_bytes f) true 1 ring (start f d) [] =
    Ok (true, w', [(3, Some (udp_desc local_if f d)); (4, Some (udp_desc local_if f d))]).
Proof.
  intros f d. destruct (events_run eth_cfg id (fun _ => false) None attach_events (new_ring, [], [])) as [[[r P] R]| | |] eqn:E;
    [|by vm_compute in E..]. assert (R = [(key_udp_uc (ntohs 5000), 3); (key_udp_uc (ntohs 5000), 4)]) as HR by (vm_compute in E; injection E as _ _ <-; by vm_compute).
  assert (ring = r) as -> by (unfold ring; by rewrite E).
  destruct (rx_udp_delivered eth_cfg 0 local_if (fun fd => Some fd) (fun _ => frame_bytes f) true id (fun _ => false) None
    (cb [4]) (fun _ _ a => (false, 0, a)) (fun _ a => a) attach_events r P R 1 (start f d) (buf f) d f [])
    as (_ & ret & asked & rest & m & w' & Hp & Hs & Ha).
  - by left.
  - done.
  - done.
  - done.
  - done.
  - apply frame_fine. by right.
  - apply received_fine. by right.
  - done.
  - done.
  - by right; left.
  - rewrite HR in Hs. vm_compute in Hs. change (CacheTable.NeighTable.IN_MULTICAST_N (ih_daddr (f_ip f))) with false in Ha. cbv iota in Ha.
    destruct Ha as [Ha Hr]. clear E. destruct asked as [|s1 [|s2 [|s3 asked]]]; [..|by destruct asked]; simplify_eq/=;
      destruct ret, m as [|[|[|m]]]; try done; try (by specialize (Hr eq_refl)); by eexists.
Defined.

Definition tagged_desc : rx_desc := desc 4 false.

Lemma rx_fast_path_agrees_witness : exists w1 o w2,
  classify eth_cfg 0 local_if (fun fd => Some fd) (fun _ => frame_bytes (frame [] 0 0)) true 1 ring (start (frame [] 0 0) tagged_desc) = Ok (rx_fast 3 1, w1) /\
  rx_slow eth_cfg 0 local_if (fun _ => frame_bytes (frame [] 0 0)) true 1 ring (start (frame [] 0 0) tagged_desc) = Ok (o, w2) /\ rx w2 = rx w1.
Proof.
  destruct (rx_fast_path_agrees eth_cfg 0 local_if (fun fd => Some fd) (fun _ => frame_bytes (frame [] 0 0)) true 1 ring
    (start (frame [] 0 0) tagged_desc) (buf (frame [] 0 0)) tagged_desc (frame [] 0 0) 3) as (w1 & o & w2 & H1 & H2 & _ & H3);
    [apply frame_fine; by left|apply received_fine; by left|done..|].
  exists w1, o, w2. split_and!; [done..|]. by apply H3.
Defined.

(** A TCP header that is not there: the bytes behind the datagram. *)
Definition noise : list Z := frame_bytes (UdpFrame (l2_eth mac) (IpHdr 1 20 10 6 0 (ntohs 31) 5) 0 64 0 [] 7 7 7 7 [1; 2; 3] (replicate 99 255)).

Lemma rx_any_packet_witness : exists ret w' a',
  rx_process_buffer (cb [3]) (fun _ _ a => (false, 0, a)) (fun _ a => a) eth_cfg 0 local_if (fun fd => Some fd) (fun _ => noise) true 1 ring
    (start (frame [] 0 0) (desc 0 false)) [] = Ok (ret, w', a').
Proof.
  destruct (rx_any_packet eth_cfg 0 local_if (fun fd => Some fd) (fun _ => noise) true (cb [3]) (fun _ _ a => (false, 0, a)) (fun _ a => a)
    ltac:(intros; simpl; lia) 1 ring (start (frame [] 0 0) (desc 0 false)) (buf (frame [] 0 0)) []) as ([[ret w'] a'] & H & _); [|done..|by exists ret, w', a'].
  split.
  - apply (bool_decide_unpack _). by vm_compute.
  - by vm_compute.
  - by exists (desc 0 false).
  - intros hdr h Ht Hr. vm_compute in Ht. injection Ht as <-. vm_compute in Hr. injection Hr as <-. done.
Defined.

(** The fast path does not look at [is_sw_csum_need]: a datagram with wrong
    checksums, which the slow path drops, reaches the socket. *)
Lemma fast_path_skips_checksum :
  process_frame [3] (frame [] 0 9) (desc 0 true) = Some (false, []) /\
  (fst <$> process_frame [3] (frame [] 0 9) (desc 4 true)) = Some true.
Proof. by vm_compute. Qed.

(** It takes the IP header for 20 bytes long: with an option of four bytes,
    the socket gets the option for the ports, the UDP header for the payload,
    and a length that the buffer does not have. *)
Lemma fast_path_ip_options :
  (head ∘ snd <$> process_frame [3] (frame [0; 0; 0; 0] 0 0) (desc 4 false)) =
    Some (Some (3, Some (RxDesc 20 0 10 0 42 7 (ntohs 7 - 8) (l4_udp local_if) 1 4 false)))%Z.
Proof. by vm_compute. Qed.

(** Nobody compares the length of the UDP header with the one of the packet:
    the payload of a datagram that says 4 has 2^64 - 4 bytes. *)
Lemma udp_length_underflow :
  let f := UdpFrame (l2_eth mac) (header []) 0 64 0 [] 7 (ntohs 5000) (ntohs 4) 0 [1; 2; 3] [0; 0] in
  (head ∘ snd <$> process_frame [3] f (desc 0 false)) = Some (Some (3, Some (RxDesc 20 7 10 (ntohs 5000) 42 3 (2 ^ 64 - 4) (l4_udp local_if) 1 0 false))).
Proof. by vm_compute. Qed.

End RxExample.
