(* ===== verification/CqMgr.v ===== *)
(** * The receive completion queue (src/vma/dev/cq_mgr.cpp, cq_mgr.inl and
      the posting of receive buffers in qp_mgr.cpp)

    A completion queue takes the completions of the adapter, hands the
    buffers to the ring, keeps the ones that come back in a pool of its own
    and posts them again.  It borrows from the global pool of [BufferPool]
    when its own is empty, and gives back what it has in excess.

    This is the build without DEFINED_SOCKETXTREME.  What the ring does with a
    buffer is an interface, the class [RxRing] with the laws of
    [RxRingLaws]; the receive path of [RxPath] implements it.  The adapter is
    the queue of the posted buffers and the queue of its completions; posting
    more than the receive queue holds is [Throw]. *)

From S2P Require Import Prelude MemBuf BufferPool IpFrag Checksum FlowSteering RxPath.

Definition MCE_MAX_CQ_POLL_BATCH : Z := 128.

(** A completion, with what the adapter wrote to the buffer. *)
Record vma_ibv_wc := Wce {
  wr_id : option ptr;
  success : bool;
  rx_hw_csum_ok : bool;
  opcode_recv : bool;
  byte_len : Z;
  data : list Z
}.

(** ** The interface to the ring *)

(** [kept] are the buffers that the ring gave to somebody else. *)
Class RxRing (A : Type) := {
  kept : A -> gset ptr;
  rx_process : ptr -> bufs -> A -> res (bool * bufs * A);
  rx_received : ptr -> bool -> list Z -> A -> A;
  rx_reset : ptr -> A -> A;
  is_tcp_frame : ptr -> A -> res bool;
  gro_flush_all : bufs -> A -> res (bufs * A);
  take_back : list ptr -> A -> A
}.

(** The part of a descriptor that the queue relies on. *)
Definition owner_of (m : bufs) (q : ptr) : option (option ptr) := p_desc_owner <$> m !! q.

(** What the ring promises: a buffer that it gets is kept, or comes back with
    no more than one reference and not linked; the buffers that are with the
    queue or the adapter are not touched.  [good] is what the ring assumes of
    its state, [allowed] of the packets. *)
Class RxRingLaws (A : Type) `{RxRing A} := {
  good : A -> Prop;
  allowed : bool -> list Z -> Prop;
  rx_process_law p m a b : good a -> m !! p = Some b -> p_next_desc b = None -> n_ref_count b <= 1 -> pbuf_ref b <= 1 -> p ∉ kept a ->
    exists ret m' a', rx_process p m a = Ok (ret, m', a') /\ good a' /\ kept a' = (if ret then {[p]} ∪ kept a else kept a) /\
      (forall q, q ∉ kept a -> q <> p -> m' !! q = m !! q) /\ (forall q, owner_of m' q = owner_of m q) /\
      (ret = false -> exists b', m' !! p = Some b' /\ p_next_desc b' = None /\ pbuf_ref b' <= 1 /\ Z.min 0 (n_ref_count b) <= n_ref_count b' <= 1);
  rx_received_law p c d a : good a -> allowed c d -> good (rx_received p c d a) /\ kept (rx_received p c d a) = kept a;
  is_tcp_frame_law p a : good a -> exists b, is_tcp_frame p a = Ok b;
  rx_reset_law p a : good a -> good (rx_reset p a) /\ kept (rx_reset p a) = kept a;
  gro_flush_law m a : good a -> exists m' a', gro_flush_all m a = Ok (m', a') /\ good a' /\ kept a' = kept a /\
      (forall q, q ∉ kept a -> m' !! q = m !! q) /\ (forall q, owner_of m' q = owner_of m q);
  take_back_law l a : good a -> good (take_back l a) /\ kept (take_back l a) = kept a ∖ list_to_set l
}.

Record cq_cfg := CqCfg {
  this : Z;
  m_p_ring : ptr;
  m_rx_lkey : Z;
  m_n_sysvar_rx_num_wr_to_post_recv : Z;
  m_n_sysvar_qp_compensation_level : Z;
  m_n_sysvar_cq_poll_batch_max : Z;
  m_n_sysvar_progress_engine_wce_max : Z;
  m_b_sysvar_cq_keep_qp_full : bool;
  m_b_sysvar_is_rx_sw_csum_on : bool;
  m_b_is_rx_hw_csum_on : bool;
  m_rx_num_wr : Z
}.

(** [wr_array] are the first [m_curr_rx_wr] elements of the array of work
    requests; [rq] and [cqes] belong to the adapter. *)
Record cq_mgr (A : Type) := Cq {
  world_ : world;
  ring : A;
  context : gmap ptr Z;
  m_rx_queue : list ptr;
  m_rx_pool : list ptr;
  qp : bool;
  debt : Z;
  wr_array : list ptr;
  rq : list ptr;
  cqes : list vma_ibv_wc;
  m_n_wce_counter : Z;
  m_b_was_drained : bool;
  n_rx_pkt_drop : Z
}.
Arguments Cq {A}.
Arguments world_ {A}.
Arguments ring {A}.
Arguments context {A}.
Arguments m_rx_queue {A}.
Arguments m_rx_pool {A}.
Arguments qp {A}.
Arguments debt {A}.
Arguments wr_array {A}.
Arguments rq {A}.
Arguments cqes {A}.
Arguments m_n_wce_counter {A}.
Arguments m_b_was_drained {A}.
Arguments n_rx_pkt_drop {A}.

Section CqMgr.
Context {A : Type} {RR : RxRing A} (cfg : cq_cfg).
Implicit Types (s : cq_mgr A).

Definition set_world (w : world) s : cq_mgr A :=
  Cq w (ring s) (context s) (m_rx_queue s) (m_rx_pool s) (qp s) (debt s) (wr_array s) (rq s) (cqes s) (m_n_wce_counter s) (m_b_was_drained s) (n_rx_pkt_drop s).
Definition set_ring (m : bufs) (a : A) s : cq_mgr A :=
  Cq (m, snd (world_ s)) a (context s) (m_rx_queue s) (m_rx_pool s) (qp s) (debt s) (wr_array s) (rq s) (cqes s) (m_n_wce_counter s) (m_b_was_drained s) (n_rx_pkt_drop s).
Definition set_context (c : gmap ptr Z) s : cq_mgr A :=
  Cq (world_ s) (ring s) c (m_rx_queue s) (m_rx_pool s) (qp s) (debt s) (wr_array s) (rq s) (cqes s) (m_n_wce_counter s) (m_b_was_drained s) (n_rx_pkt_drop s).
Definition set_queue (q : list ptr) s : cq_mgr A :=
  Cq (world_ s) (ring s) (context s) q (m_rx_pool s) (qp s) (debt s) (wr_array s) (rq s) (cqes s) (m_n_wce_counter s) (m_b_was_drained s) (n_rx_pkt_drop s).
Definition set_pool (w : world) (l : list ptr) s : cq_mgr A :=
  Cq w (ring s) (context s) (m_rx_queue s) l (qp s) (debt s) (wr_array s) (rq s) (cqes s) (m_n_wce_counter s) (m_b_was_drained s) (n_rx_pkt_drop s).
Definition set_qp (q : bool) (d : Z) s : cq_mgr A :=
  Cq (world_ s) (ring s) (context s) (m_rx_queue s) (m_rx_pool s) q d (wr_array s) (rq s) (cqes s) (m_n_wce_counter s) (m_b_was_drained s) (n_rx_pkt_drop s).
Definition set_debt (d : Z) s : cq_mgr A := set_qp (qp s) d s.
Definition set_posted (wr r : list ptr) s : cq_mgr A :=
  Cq (world_ s) (ring s) (context s) (m_rx_queue s) (m_rx_pool s) (qp s) (debt s) wr r (cqes s) (m_n_wce_counter s) (m_b_was_drained s) (n_rx_pkt_drop s).
Definition set_cqes (l : list vma_ibv_wc) s : cq_mgr A :=
  Cq (world_ s) (ring s) (context s) (m_rx_queue s) (m_rx_pool s) (qp s) (debt s) (wr_array s) (rq s) l (m_n_wce_counter s) (m_b_was_drained s) (n_rx_pkt_drop s).
Definition set_drain (n : Z) (d : bool) s : cq_mgr A :=
  Cq (world_ s) (ring s) (context s) (m_rx_queue s) (m_rx_pool s) (qp s) (debt s) (wr_array s) (rq s) (cqes s) n d (n_rx_pkt_drop s).
Definition inc_drop s : cq_mgr A :=
  Cq (world_ s) (ring s) (context s) (m_rx_queue s) (m_rx_pool s) (qp s) (debt s) (wr_array s) (rq s) (cqes s) (m_n_wce_counter s) (m_b_was_drained s) (n_rx_pkt_drop s + 1).

(** ** Posting buffers *)

(** [qp_mgr::post_recv_buffer]: full arrays go to the adapter. *)
Definition post_recv_buffer (p : ptr) s : res (cq_mgr A) :=
  let wr := wr_array s ++ [p] in
  if Z.of_nat (length (wr_array s)) =? m_n_sysvar_rx_num_wr_to_post_recv cfg - 1 then
    if m_rx_num_wr cfg <? Z.of_nat (length (rq s) + length (cqes s) + length wr) then Throw
    else Ok (set_posted [] (rq s ++ wr) s)
  else Ok (set_posted wr (rq s) s).

(** The first [count] buffers of a queue. *)
Fixpoint post_recv_buffers (count : nat) (p_buffers : list ptr) s : res (list ptr * cq_mgr A) :=
  match count with
  | O => Ok (p_buffers, s)
  | S count =>
    match p_buffers with
    | [] => Undef
    | p :: l => s ← post_recv_buffer p s; post_recv_buffers count l s
    end
  end.

(** ** The two pools *)

Definition request_more_buffers s : res (bool * cq_mgr A) :=
  x ← get_buffers_thread_safe (m_rx_pool s) (Some (m_p_ring cfg)) (m_n_sysvar_qp_compensation_level cfg) (m_rx_lkey cfg) (world_ s);
  let '(ok, l, w) := x : bool * list ptr * world in Ok (ok, set_pool w l s).

Definition return_extra_buffers s : res (cq_mgr A) :=
  let n := Z.of_nat (length (m_rx_pool s)) in
  if n <? m_n_sysvar_qp_compensation_level cfg * 2 then Ok s
  else x ← put_buffers_q (m_rx_pool s) (n - m_n_sysvar_qp_compensation_level cfg) (world_ s); Ok (set_pool (snd x) (fst x) s).

(** [m_rx_pool.size() || request_more_buffers()] *)
Definition have_buffers s : res (bool * cq_mgr A) :=
  match m_rx_pool s with [] => request_more_buffers s | _ => Ok (true, s) end.

Definition refill s : res (cq_mgr A) :=
  let n := Z.min (debt s) (Z.of_nat (length (m_rx_pool s))) in
  x ← post_recv_buffers (Z.to_nat n) (m_rx_pool s) (set_pool (world_ s) [] s);
  let '(l, s) := x : list ptr * cq_mgr A in Ok (set_debt (debt s - n) (set_pool (world_ s) l s)).

Definition compensate_qp_poll_failed s : res (cq_mgr A) :=
  if debt s =? 0 then Ok s
  else
    x ← have_buffers s;
    let '(ok, s) := x : bool * cq_mgr A in
    if ok : bool then refill s else Ok s.

(** True if the buffer was used. *)
Definition compensate_qp_poll_success (buff_cur : ptr) s : res (bool * cq_mgr A) :=
  if qp s then
    let s := set_debt (debt s + 1) s in
    if debt s <? m_n_sysvar_rx_num_wr_to_post_recv cfg then Ok (false, s)
    else
      x ← have_buffers s;
      let '(ok, s) := x : bool * cq_mgr A in
      if ok : bool then s ← refill s; Ok (false, s)
      else if m_b_sysvar_cq_keep_qp_full cfg || (m_rx_num_wr cfg <? debt s + MCE_MAX_CQ_POLL_BATCH) then
        s ← post_recv_buffer buff_cur (inc_drop s); Ok (true, set_debt (debt s - 1) s)
      else Ok (false, s)
  else Ok (false, s).

(** ** Taking a buffer back *)

(** The loop over a list of buffers, all of which go to the pool. *)
Fixpoint reclaim_loop (fuel : nat) (buff : option ptr) s : res (cq_mgr A) :=
  match buff with
  | None => Ok s
  | Some temp =>
    match fuel with
    | O => NoFuel
    | S fuel =>
      b ← load (fst (world_ s)) temp;
      let m := <[temp := free_lwip_pbuf (set_ref_count 0 (set_next_desc None b))]> (fst (world_ s)) in
      let s := set_ring m (rx_reset temp (ring s)) s in
      reclaim_loop fuel (p_next_desc b) (set_pool (world_ s) (m_rx_pool s ++ [temp]) s)
    end
  end.

Definition reclaim_recv_buffer_helper (buff : ptr) s : res (cq_mgr A) :=
  x ← dec_ref_count buff (fst (world_ s));
  let '(n, m) := x : Z * bufs in
  if n <=? 1 then
    b ← load m buff;
    let m := <[buff := set_pbuf (pbuf_flags b) (u16 (pbuf_ref b - 1)) b]> m in
    let s := set_world (m, snd (world_ s)) s in
    if pbuf_ref b <=? 1 then
      if bool_decide (context s !! buff = Some (this cfg)) then reclaim_loop (size m) (Some buff) s
      else w ← put_buffers (Some buff) (world_ s); Ok (set_world w s)
    else Ok s
  else Ok (set_world (m, snd (world_ s)) s).

(** ** Completions *)

(** The sum has to be verified in software, and whether the completion is bad. *)
Definition csum_need (e : vma_ibv_wc) : bool :=
  m_b_sysvar_is_rx_sw_csum_on cfg && negb (m_b_is_rx_hw_csum_on cfg && rx_hw_csum_ok e).
Definition bad_wce (e : vma_ibv_wc) : bool :=
  negb (success e) || negb (m_b_sysvar_is_rx_sw_csum_on cfg) && m_b_is_rx_hw_csum_on cfg && negb (rx_hw_csum_ok e).

Definition process_cq_element_rx (e : vma_ibv_wc) s : res (option ptr * cq_mgr A) :=
  match wr_id e with
  | None => Ok (None, s)
  | Some p =>
    b ← load (fst (world_ s)) p;
    if bad_wce e then
      match p_desc_owner b with
      | Some _ => s ← reclaim_recv_buffer_helper p s; Ok (None, s)
      | None => Ok (None, s)
      end
    else
      let '(m, a) := (fst (world_ s), rx_received p (csum_need e) (data e) (ring s)) in
      if opcode_recv e then
        Ok (Some p, set_context (<[p := this cfg]> (context s)) (set_ring (<[p := set_sz_data (byte_len e) b]> m) a s))
      else Ok (Some p, set_ring m a s)
  end.

Definition process_recv_buffer (p : ptr) s : res (cq_mgr A) :=
  x ← rx_process p (fst (world_ s)) (ring s);
  let '(ret, m, a) := x : bool * bufs * A in
  let s := set_ring m a s in
  if ret : bool then Ok s else reclaim_recv_buffer_helper p s.

(** The loop stops when the queue is empty or the batch is full. *)
Fixpoint process_recv_queue (fuel : nat) (processed : Z) s : res (Z * cq_mgr A) :=
  match m_rx_queue s with
  | [] => Ok (processed, s)
  | buff :: l =>
    match fuel with
    | O => NoFuel
    | S fuel =>
      s ← process_recv_buffer buff (set_queue l s);
      if m_n_sysvar_cq_poll_batch_max cfg <=? processed + 1 then Ok (processed + 1, s)
      else process_recv_queue fuel (processed + 1) s
    end
  end.

(** [poll]: at most [n] completions. *)
Definition poll (n : Z) s : list vma_ibv_wc * cq_mgr A :=
  (take (Z.to_nat n) (cqes s), set_cqes (drop (Z.to_nat n) (cqes s)) s).

Definition flush s : res (cq_mgr A) :=
  x ← gro_flush_all (fst (world_ s)) (ring s); Ok (set_ring (fst x) (snd x) s).

Fixpoint process_completions (l : list vma_ibv_wc) s : res (cq_mgr A) :=
  match l with
  | [] => Ok s
  | e :: l =>
    x ← process_cq_element_rx e s;
    let '(buff, s) := x : option ptr * cq_mgr A in
    s ← (match buff with
         | Some p =>
           if opcode_recv e then
             y ← compensate_qp_poll_success p s;
             let '(used, s) := y : bool * cq_mgr A in
             if used : bool then Ok s else process_recv_buffer p s
           else Ok s
         | None => Ok s
         end);
    process_completions l s
  end.

Definition poll_and_process_element_rx s : res (Z * cq_mgr A) :=
  x ← process_recv_queue (S (length (m_rx_queue s))) 0 s;
  let '(processed, s) := x : Z * cq_mgr A in
  if m_n_sysvar_cq_poll_batch_max cfg <=? processed then s ← flush s; Ok (processed, s)
  else
    let '(l, s) := poll (m_n_sysvar_cq_poll_batch_max cfg) s in
    let ret := Z.of_nat (length l) in
    if 0 <? ret then
      let s := set_drain (u32 (m_n_wce_counter s + ret)) (if ret <? m_n_sysvar_cq_poll_batch_max cfg then true else m_b_was_drained s) s in
      s ← process_completions l s;
      s ← flush s;
      Ok (processed + ret, s)
    else s ← compensate_qp_poll_failed s; Ok (processed, s).

(** ** Draining *)

(** Buffers are recycled, or processed now if they hold TCP, or queued. *)
Fixpoint drain_completions (recycle : bool) (l : list vma_ibv_wc) s : res (cq_mgr A) :=
  match l with
  | [] => Ok s
  | e :: l =>
    x ← process_cq_element_rx e s;
    let '(buff, s) := x : option ptr * cq_mgr A in
    s ← (match buff with
         | Some p =>
           if recycle then reclaim_recv_buffer_helper p (inc_drop s)
           else
             process_now ← is_tcp_frame p (ring s);
             if process_now : bool then
               y ← compensate_qp_poll_success p s;
               let '(used, s) := y : bool * cq_mgr A in
               if used : bool then Ok s else process_recv_buffer p s
             else
               match m_rx_queue s ++ [p] with
               | [] => Undef
               | buff_cur :: q =>
                 y ← compensate_qp_poll_success buff_cur (set_queue q s);
                 let '(used, s) := y : bool * cq_mgr A in
                 Ok (if used : bool then s else set_queue (buff_cur :: m_rx_queue s) s)
               end
         | None => Ok s
         end);
    drain_completions recycle l s
  end.

Fixpoint drain_loop (fuel : nat) (recycle : bool) (ret_total : Z) s : res (Z * cq_mgr A) :=
  if (m_n_wce_counter s <? m_n_sysvar_progress_engine_wce_max cfg) && negb (m_b_was_drained s) then
    match fuel with
    | O => NoFuel
    | S fuel =>
      let '(l, s) := poll MCE_MAX_CQ_POLL_BATCH s in
      let ret := Z.of_nat (length l) in
      if ret <=? 0 then
        s ← flush (set_drain (m_n_wce_counter s) true s); Ok (ret_total, s)
      else
        let s := set_drain (u32 (m_n_wce_counter s + ret)) (if ret <? MCE_MAX_CQ_POLL_BATCH then true else m_b_was_drained s) s in
        s ← drain_completions recycle l s;
        drain_loop fuel recycle (ret_total + ret) s
    end
  else s ← flush s; Ok (ret_total, set_drain 0 false s).

Definition drain_and_proccess (recycle : bool) s : res (Z * cq_mgr A) :=
  let s := if recycle then set_drain (m_n_wce_counter s) false s else s in
  drain_loop (S (length (cqes s))) recycle 0 s.

(** ** Returned buffers *)

(** A queue that a socket gives back. *)
Fixpoint reclaim_recv_buffers_no_lock (rx_reuse : list ptr) s : res (cq_mgr A) :=
  match rx_reuse with [] => Ok s | p :: l => s ← reclaim_recv_buffer_helper p s; reclaim_recv_buffers_no_lock l s end.

Definition reclaim_recv_buffers (rx_reuse : list ptr) s : res (cq_mgr A) :=
  s ← reclaim_recv_buffers_no_lock rx_reuse s; return_extra_buffers s.

(** ** The queue pair *)

(** The loop of [add_qp_rx] that fills the receive queue. *)
Fixpoint fill_qp (fuel : nat) (qp_rx_wr_num : Z) s : res (cq_mgr A) :=
  if qp_rx_wr_num =? 0 then Ok s
  else
    match fuel with
    | O => NoFuel
    | S fuel =>
      let n := Z.min (m_n_sysvar_rx_num_wr_to_post_recv cfg) qp_rx_wr_num in
      x ← get_buffers_thread_safe [] (Some (m_p_ring cfg)) n (m_rx_lkey cfg) (world_ s);
      let '(ok, l, w) := x : bool * list ptr * world in
      let s := set_world w s in
      if ok : bool then
        y ← post_recv_buffers (length l) l s;
        let '(l, s) := y : list ptr * cq_mgr A in
        if bool_decide (l <> []) then
          z ← put_buffers_q l (Z.of_nat (length l)) (world_ s); Ok (set_world (snd z) s)
        else fill_qp fuel (qp_rx_wr_num - n) s
      else Ok s
    end.

Definition add_qp_rx s : res (cq_mgr A) :=
  s ← fill_qp (S (Z.to_nat (m_rx_num_wr cfg))) (m_rx_num_wr cfg) s; Ok (set_qp true 0 s).

Definition del_qp_rx s : res (cq_mgr A) := s ← return_extra_buffers s; Ok (set_qp false 0 s).

End CqMgr.

(** ** Only [poll] takes completions *)

Section SameCqes.
Context {A : Type} {RR : RxRing A} (cfg : cq_cfg).
Implicit Types (s : cq_mgr A).

Ltac run_ok := repeat match goal with
  | E : _ ≫= _ = Ok _ |- _ => apply bind_Ok in E as (? & ? & E)
  | E : context [let '(_, _) := ?x in _] |- _ => destruct x
  | E : Ok _ = Ok _ |- _ => injection E as E; subst
  | E : context [if ?b then _ else _] |- _ => destruct b
  | E : Throw = Ok _ |- _ => discriminate E
  | E : Undef = Ok _ |- _ => discriminate E
  | E : NoFuel = Ok _ |- _ => discriminate E
  | E : (_, _) = (_, _) |- _ => injection E as E; subst
  end; simpl in *; subst; try done.

Lemma post_recv_buffer_cqes p s s' : post_recv_buffer cfg p s = Ok s' -> cqes s' = cqes s.
Proof. unfold post_recv_buffer. intros E. run_ok. Qed.

Lemma post_recv_buffers_cqes n : forall l s x, post_recv_buffers cfg n l s = Ok x -> cqes x.2 = cqes s.
Proof.
  induction n as [|n IH]; intros l s x E; simpl in E; [run_ok|]. destruct l as [|p l]; [done|].
  apply bind_Ok in E as (s1 & E1 & E). apply IH in E. apply post_recv_buffer_cqes in E1. congruence.
Qed.

Lemma have_buffers_cqes s x : have_buffers cfg s = Ok x -> cqes x.2 = cqes s.
Proof. unfold have_buffers, request_more_buffers. intros E. destruct (m_rx_pool s); run_ok. Qed.

Lemma refill_cqes s s' : refill cfg s = Ok s' -> cqes s' = cqes s.
Proof. unfold refill. intros E. apply bind_Ok in E as ([l s1] & E1 & E). apply post_recv_buffers_cqes in E1. run_ok. Qed.

Lemma compensate_failed_cqes s s' : compensate_qp_poll_failed cfg s = Ok s' -> cqes s' = cqes s.
Proof.
  unfold compensate_qp_poll_failed. intros E. destruct (_ =? _); [run_ok|]. apply bind_Ok in E as ([ok s1] & E1 & E). apply have_buffers_cqes in E1.
  destruct ok; [apply refill_cqes in E|injection E as <-]; simpl in *; congruence.
Qed.

Lemma compensate_success_cqes p s x : compensate_qp_poll_success cfg p s = Ok x -> cqes x.2 = cqes s.
Proof.
  unfold compensate_qp_poll_success. intros E. destruct (qp s); [|run_ok]. destruct (_ <? _); [run_ok|].
  apply bind_Ok in E as ([ok s1] & E1 & E). apply have_buffers_cqes in E1. simpl in E1. destruct ok.
  - apply bind_Ok in E as (s2 & E2 & E). apply refill_cqes in E2. run_ok. congruence.
  - destruct (_ || _); [|run_ok]. apply bind_Ok in E as (s2 & E2 & E). apply post_recv_buffer_cqes in E2. run_ok. congruence.
Qed.

Lemma reclaim_loop_cqes fuel : forall o s s', reclaim_loop fuel o s = Ok s' -> cqes s' = cqes s.
Proof.
  induction fuel as [|fuel IH]; intros o s s' E; (destruct o as [p|]; [|by injection E as <-]); [done|]. cbn [reclaim_loop] in E.
  apply bind_Ok in E as (b & _ & E). by apply IH in E.
Qed.

Lemma reclaim_cqes p s s' : reclaim_recv_buffer_helper cfg p s = Ok s' -> cqes s' = cqes s.
Proof.
  unfold reclaim_recv_buffer_helper. intros E. apply bind_Ok in E as ([n m] & _ & E). destruct (_ <=? _); [|run_ok].
  apply bind_Ok in E as (b & _ & E). destruct (_ <=? _); [|run_ok]. case_bool_decide; [by apply reclaim_loop_cqes in E|]. run_ok.
Qed.

Lemma process_recv_buffer_cqes p s s' : process_recv_buffer cfg p s = Ok s' -> cqes s' = cqes s.
Proof.
  unfold process_recv_buffer. intros E. apply bind_Ok in E as ([[ret m] a] & _ & E). destruct ret; [run_ok|]. by apply reclaim_cqes in E.
Qed.

Lemma process_cq_element_cqes e s x : process_cq_element_rx cfg e s = Ok x -> cqes x.2 = cqes s.
Proof.
  unfold process_cq_element_rx. intros E. destruct (wr_id e) as [p|]; [|run_ok]. apply bind_Ok in E as (b & _ & E). destruct (bad_wce cfg e); [|run_ok].
  destruct (p_desc_owner b); [|run_ok]. apply bind_Ok in E as (s1 & E1 & E). apply reclaim_cqes in E1. run_ok.
Qed.

Lemma process_recv_queue_cqes fuel : forall n s x, process_recv_queue cfg fuel n s = Ok x -> cqes x.2 = cqes s.
Proof.
  induction fuel as [|fuel IH]; intros n s x E; cbn [process_recv_queue] in E; (destruct (m_rx_queue s) as [|p l]; [run_ok|]); [done|].
  apply bind_Ok in E as (s1 & E1 & E). apply process_recv_buffer_cqes in E1. destruct (_ <=? _); [run_ok|]. apply IH in E. simpl in *. congruence.
Qed.

Lemma flush_cqes s s' : flush s = Ok s' -> cqes s' = cqes s.
Proof. unfold flush. intros E. run_ok. Qed.

Lemma process_completions_cqes l : forall s s', process_completions cfg l s = Ok s' -> cqes s' = cqes s.
Proof.
  induction l as [|e l IH]; intros s s' E; cbn [process_completions] in E; [run_ok|]. apply bind_Ok in E as ([o s1] & E1 & E).
  apply process_cq_element_cqes in E1. apply bind_Ok in E as (s2 & E2 & E). apply IH in E. simpl in E1. rewrite E, <- E1. clear E E1.
  destruct o as [p|]; [|run_ok]. destruct (opcode_recv e); [|run_ok]. apply bind_Ok in E2 as ([used s3] & E3 & E2). apply compensate_success_cqes in E3.
  destruct used; [injection E2 as <-; done|]. apply process_recv_buffer_cqes in E2. simpl in *. congruence.
Qed.

Lemma drain_completions_cqes recycle l : forall s s', drain_completions cfg recycle l s = Ok s' -> cqes s' = cqes s.
Proof.
  induction l as [|e l IH]; intros s s' E; cbn [drain_completions] in E; [run_ok|]. apply bind_Ok in E as ([o s1] & E1 & E).
  apply process_cq_element_cqes in E1. apply bind_Ok in E as (s2 & E2 & E). apply IH in E. simpl in E1. rewrite E, <- E1. clear E E1.
  destruct o as [p|]; [|run_ok]. destruct recycle; [by apply reclaim_cqes in E2|]. apply bind_Ok in E2 as (now & _ & E2). destruct now.
  - apply bind_Ok in E2 as ([used s3] & E3 & E2). apply compensate_success_cqes in E3.
    destruct used; [injection E2 as <-; done|]. apply process_recv_buffer_cqes in E2. simpl in *. congruence.
  - destruct (m_rx_queue s1 ++ [p]) as [|q r]; [done|]. apply bind_Ok in E2 as ([used s3] & E3 & E2). apply compensate_success_cqes in E3.
    destruct used; injection E2 as <-; done.
Qed.

End SameCqes.

(** ** Conservation of buffers *)

Section Conserve.
Context {A : Type} {RR : RxRing A} {RL : RxRingLaws A} (cfg : cq_cfg) (T : list ptr).
Implicit Types (s : cq_mgr A).

Ltac in_app := rewrite ?elem_of_app in *; tauto.

(** The parameters make sense: [T] are all the buffers of the global pool. *)
Record cfg_ok : Prop := CfgOk {
  co_post : 1 <= m_n_sysvar_rx_num_wr_to_post_recv cfg;
  co_level : 0 <= m_n_sysvar_qp_compensation_level cfg;
  co_batch : 1 <= m_n_sysvar_cq_poll_batch_max cfg;
  co_nodup : NoDup T;
  co_length : Z.of_nat (length T) < 2 ^ 31
}.
Context (Hcfg : cfg_ok).

Abbreviation store_of s := (fst (world_ s)).

(** At most one reference; a count goes below zero by one each time a buffer
    that never was received is flushed. *)
Definition idle (k : Z) (b : mem_buf_desc_t) : Prop := - k <= n_ref_count b <= 1 /\ pbuf_ref b <= 1.

Definition ready (k : Z) (m : bufs) (q : ptr) : Prop :=
  exists b, m !! q = Some b /\ p_next_desc b = None /\ idle k b /\ p_desc_owner b = Some (m_p_ring cfg).
Definition owned (m : bufs) (q : ptr) : Prop := owner_of m q = Some (Some (m_p_ring cfg)).
Definition mine s : list ptr := m_rx_queue s ++ m_rx_pool s ++ wr_array s ++ rq s ++ omap wr_id (cqes s).
Definition cqe_ok (e : vma_ibv_wc) : Prop := is_Some (wr_id e) /\ opcode_recv e = true /\ allowed (csum_need cfg e) (data e).
Definition received_here s (q : ptr) : Prop := context s !! q = Some (this cfg).

(** [X] are received buffers in hand, [Y] other ones, [V] buffers that were
    kept and come back; [c] is room in the receive queue that is set aside. *)
Record cq_ok (k c : Z) (X Y V : list ptr) s : Prop := CqOk {
  ok_free : exists L, pool_ok (Z.of_nat (length T)) (world_ s) L /\ L ++ mine s ++ X ++ Y ++ V ++ elements (kept (ring s)) ≡ₚ T /\
              Forall (fun q => exists b, store_of s !! q = Some b /\ idle k b) L;
  ok_ready : Forall (ready k (store_of s)) (mine s ++ X ++ Y);
  ok_loose : Forall (owned (store_of s)) V;
  ok_kept : set_Forall (fun q => owned (store_of s) q /\ received_here s q) (kept (ring s));
  ok_context : Forall (received_here s) (m_rx_queue s ++ X ++ V);
  ok_good : good (ring s);
  ok_room : Z.of_nat (length (rq s) + length (cqes s) + length (wr_array s)) + debt s + c <= m_rx_num_wr cfg;
  ok_debt : 0 <= debt s;
  ok_wr : Z.of_nat (length (wr_array s)) < m_n_sysvar_rx_num_wr_to_post_recv cfg;
  ok_cqes : Forall cqe_ok (cqes s)
}.

Lemma idle_mono k k' b : k <= k' -> idle k b -> idle k' b.
Proof. unfold idle. intros. lia. Qed.

Lemma ready_mono k k' m q : k <= k' -> ready k m q -> ready k' m q.
Proof. intros Hk (b & ? & ? & Hi & ?). exists b. split_and!; try done. by eapply idle_mono. Qed.

Lemma ready_owned k m q : ready k m q -> owned m q.
Proof. intros (b & Hb & _ & _ & Ho). unfold owned, owner_of. rewrite Hb. simpl. by rewrite Ho. Qed.

Lemma cq_ok_mono k k' c c' X Y V s : k <= k' -> c' <= c -> cq_ok k c X Y V s -> cq_ok k' c' X Y V s.
Proof.
  intros Hk Hc [(L & H1 & H2 & H3) H4 H5 H6 H7 H8 H9 H10 H11 H12]. split; try done; [|by eapply Forall_impl; [done|]; intros; eapply ready_mono|lia].
  exists L. split_and!; try done. eapply Forall_impl; [done|]. intros q (b & Hb & Hi). exists b. split; [done|]. by eapply idle_mono.
Qed.

(** Buffers change hands. *)
Lemma cq_ok_drop_context k c p X Y V s : cq_ok k c (p :: X) Y V s -> cq_ok k c X (p :: Y) V s.
Proof.
  intros [(L & H1 & H2 & H3) H4 H5 H6 H7 H8 H9 H10 H11 H12]. split; try done.
  - exists L. split_and!; try done. rewrite <- H2. solve_Permutation.
  - eapply Permutation_Forall; [|exact H4]. solve_Permutation.
  - rewrite !Forall_app, Forall_cons in *. naive_solver.
Qed.

Lemma cq_ok_loosen k c p X Y V s : cq_ok k c (p :: X) Y V s -> cq_ok k c X Y (p :: V) s.
Proof.
  intros [(L & H1 & H2 & H3) H4 H5 H6 H7 H8 H9 H10 H11 H12]. rewrite !Forall_app, Forall_cons in *. split; try done.
  - exists L. split_and!; try done. rewrite <- H2. solve_Permutation.
  - rewrite !Forall_app. naive_solver.
  - constructor; [|done]. eapply ready_owned. naive_solver.
  - rewrite !Forall_app, Forall_cons. naive_solver.
Qed.

(** ** Posting *)

Lemma post_recv_buffer_ok k c p X Y V s : cq_ok k c X (p :: Y) V s -> 1 <= debt s + c ->
  exists s', post_recv_buffer cfg p s = Ok s' /\ cq_ok k (c - 1) X Y V s' /\ debt s' = debt s /\ m_rx_pool s' = m_rx_pool s /\ qp s' = qp s /\ world_ s' = world_ s.
Proof.
  intros [(L & H1 & H2 & H3) H4 H5 H6 H7 H8 H9 H10 H11 H12] Hc. unfold post_recv_buffer. rewrite length_app. simpl.
  set (s1 := set_posted _ _ s). set (s2 := set_posted _ _ s). assert (Hok : forall s', (s' = s1 /\ m_n_sysvar_rx_num_wr_to_post_recv cfg - 1 = Z.of_nat (length (wr_array s)) \/
    s' = s2 /\ m_n_sysvar_rx_num_wr_to_post_recv cfg - 1 <> Z.of_nat (length (wr_array s))) -> cq_ok k (c - 1) X Y V s').
  { intros s' Hs'. assert (mine s' ≡ₚ p :: mine s) as Hm.
    { destruct Hs' as [[-> _]|[-> _]]; unfold mine; simpl; solve_Permutation. }
    assert (world_ s' = world_ s /\ ring s' = ring s /\ context s' = context s /\ m_rx_queue s' = m_rx_queue s /\ debt s' = debt s /\ cqes s' = cqes s)
      as (E1 & E2 & E3 & E4 & E5 & E6) by (by destruct Hs' as [[-> _]|[-> _]]).
    split; rewrite ?E1, ?E2, ?E4, ?E5, ?E6; unfold received_here; rewrite ?E3; try done.
    - exists L. split_and!; try done. rewrite <- H2, Hm. solve_Permutation.
    - eapply Permutation_Forall; [|exact H4]. rewrite Hm. solve_Permutation.
    - destruct Hs' as [[-> _]|[-> _]]; simpl; rewrite !length_app; simpl; lia.
    - pose proof (co_post Hcfg). destruct Hs' as [[-> _]|[-> ?]]; simpl; rewrite ?length_app; simpl; lia. }
  destruct (Z.eqb_spec (Z.of_nat (length (wr_array s))) (m_n_sysvar_rx_num_wr_to_post_recv cfg - 1)) as [E|E].
  - destruct (Z.ltb_spec (m_rx_num_wr cfg) (Z.of_nat (length (rq s) + length (cqes s) + (length (wr_array s) + 1)))); [lia|].
    exists s1. split; [done|]. split; [|done]. apply Hok. left. split; [done|lia].
  - exists s2. split; [done|]. split; [|done]. apply Hok. right. split; [done|lia].
Qed.

Lemma post_recv_buffers_ok k n : forall c l X Y V s, cq_ok k c X (l ++ Y) V s -> (n <= length l)%nat -> Z.of_nat n <= debt s + c ->
  exists s', post_recv_buffers cfg n l s = Ok (drop n l, s') /\ cq_ok k (c - Z.of_nat n) X (drop n l ++ Y) V s' /\ debt s' = debt s /\
    m_rx_pool s' = m_rx_pool s /\ qp s' = qp s /\ world_ s' = world_ s.
Proof.
  induction n as [|n IH]; intros c l X Y V s Hs Hn Hc.
  { exists s. rewrite Z.sub_0_r. by destruct l. }
  destruct l as [|p l]; simpl in Hn; [lia|]. cbn [post_recv_buffers].
  destruct (post_recv_buffer_ok k c p X (l ++ Y) V s Hs) as (s1 & -> & H1 & E1 & E2 & E3 & E4); [lia|]. cbn [mbind res_bind].
  destruct (IH (c - 1) l X Y V s1 H1) as (s2 & -> & H2 & F1 & F2 & F3 & F4); [lia..|]. exists s2. split; [done|].
  split_and!; try congruence. by replace (c - Z.of_nat (S n)) with (c - 1 - Z.of_nat n) by lia.
Qed.

Lemma refill_ok k c X Y V s : cq_ok k c X Y V s -> 0 <= c -> exists s', refill cfg s = Ok s' /\ cq_ok k c X Y V s' /\
  let n := Z.min (debt s) (Z.of_nat (length (m_rx_pool s))) in debt s' = debt s - n /\ m_rx_pool s' = drop (Z.to_nat n) (m_rx_pool s).
Proof.
  intros H Hc. set (n := Z.min _ _). assert (0 <= n <= Z.of_nat (length (m_rx_pool s))) as Hn by (pose proof (ok_debt _ _ _ _ _ _ H); lia).
  assert (cq_ok k c X (m_rx_pool s ++ Y) V (set_pool (world_ s) [] s)) as H0.
  { destruct H as [(L & H1 & H2 & H3) H4 H5 H6 H7 H8 H9 H10 H11 H12]. split; try done.
    - exists L. split_and!; try done. rewrite <- H2. unfold mine. simpl. solve_Permutation.
    - eapply Permutation_Forall; [|exact H4]. unfold mine. simpl. solve_Permutation. }
  destruct (post_recv_buffers_ok k (Z.to_nat n) c _ X Y V _ H0) as (s1 & Hp & H1 & E1 & E2 & E3 & E4); [lia|simpl; lia|].
  unfold refill. fold n. rewrite Hp. cbn [mbind res_bind]. eexists. split; [done|]. split; [|by simpl; rewrite E1].
  simpl in E1, E2. destruct H1 as [(L & G1 & G2 & G3) G4 G5 G6 G7 G8 G9 G10 G11 G12]. split; try done; simpl.
  - exists L. split_and!; try done. rewrite <- G2. unfold mine. simpl. rewrite E2. solve_Permutation.
  - eapply Permutation_Forall; [|exact G4]. unfold mine. simpl. rewrite E2. solve_Permutation.
  - lia.
  - pose proof (ok_debt _ _ _ _ _ _ H). lia.
Qed.

(** ** The pools *)

Lemma free_same k (m m' : bufs) l : (forall q, q ∈ l -> m' !! q = m !! q) -> Forall (fun q => exists b, m !! q = Some b /\ idle k b) l ->
  Forall (fun q => exists b, m' !! q = Some b /\ idle k b) l.
Proof. intros Hq. rewrite !Forall_forall. intros Hl q Hin. destruct (Hl q Hin) as (b & Hb & ?). exists b. by rewrite Hq. Qed.

Lemma ready_same k m m' l : (forall q, q ∈ l -> m' !! q = m !! q) -> Forall (ready k m) l -> Forall (ready k m') l.
Proof. intros Hq. rewrite !Forall_forall. intros Hl q Hin. destruct (Hl q Hin) as (b & Hb & ?). exists b. by rewrite Hq. Qed.

Lemma owned_same m m' l : (forall q, q ∈ l -> m' !! q = m !! q) -> Forall (owned m) l -> Forall (owned m') l.
Proof. intros Hq. rewrite !Forall_forall. intros Hl q Hin. unfold owned, owner_of in *. rewrite Hq by done. by apply Hl. Qed.

(** The store changes only at buffers of the global pool. *)
Lemma kept_same m m' s (K : gset ptr) : (forall q, q ∈ K -> m' !! q = m !! q) -> set_Forall (fun q => owned m q /\ received_here s q) K ->
  set_Forall (fun q => owned m' q /\ received_here s q) K.
Proof. intros Hq HK q Hin. destruct (HK q Hin) as [Ho ?]. split; [|done]. unfold owned, owner_of in *. by rewrite Hq. Qed.

Lemma apart (L R : list ptr) : L ++ R ≡ₚ T -> forall q, q ∈ R -> q ∉ L.
Proof. intros HT q HR HL. pose proof (co_nodup Hcfg) as Hn. rewrite <- HT in Hn. apply NoDup_app in Hn as (_ & Hd & _). by apply (Hd q). Qed.

(** Buffers from the global pool come into hand. *)
Lemma get_ok k c X Y V s dq n : 0 <= n -> cq_ok k c X Y V s -> exists ok l w,
  get_buffers_thread_safe dq (Some (m_p_ring cfg)) n (m_rx_lkey cfg) (world_ s) = Ok (ok, dq ++ l, w) /\
  cq_ok k c X (l ++ Y) V (set_world w s) /\ Z.of_nat (length l) = if ok then n else 0.
Proof.
  intros Hn [(L & H1 & H2 & H3) H4 H5 H6 H7 H8 H9 H10 H11 H12]. destruct (world_ s) as [m bp] eqn:Ew.
  destruct (get_buffers_spec _ m bp L dq (Some (m_p_ring cfg)) n (m_rx_lkey cfg) H1 Hn) as (m' & bp' & -> & Hno & Hyes).
  destruct (Z.leb_spec n (Z.of_nat (length L))) as [Hle|Hlt].
  - destruct (Hyes Hle) as (P1 & P2 & P3). set (i := Z.to_nat n) in *. eexists true, (take i L), _. split; [done|].
    split; [|rewrite length_take; subst i; lia].
    assert (take i L ++ drop i L ++ mine s ++ X ++ Y ++ V ++ elements (kept (ring s)) ≡ₚ T) as HT by (rewrite app_assoc, take_drop; exact H2).
    assert (forall q, q ∈ drop i L ++ mine s ++ X ++ Y ++ V ++ elements (kept (ring s)) -> m' !! q = m !! q) as Hsame.
    { intros q Hq. apply P2. by apply (apart _ _ HT). }
    simpl in *. split; simpl; try done.
    + exists (drop i L). split; [done|]. split; [rewrite <- HT; unfold mine; simpl; solve_Permutation|]. eapply free_same; [|by apply Forall_drop].
      intros q Hq. apply Hsame. in_app.
    + eapply (Permutation_Forall (x := take i L ++ mine s ++ X ++ Y)); [unfold mine; simpl; solve_Permutation|]. apply Forall_app. split.
      * rewrite Forall_forall in H3 |- *. intros q Hq. destruct (P3 q Hq) as (b & Hb & Hb').
        destruct (H3 q) as (b1 & Hb1 & Hi); [rewrite <- (take_drop i L); in_app|]. simplify_eq. eexists. split; [exact Hb'|]. done.
      * eapply ready_same; [|exact H4]. intros q Hq. apply Hsame. in_app.
    + eapply owned_same; [|exact H5]. intros q Hq. apply Hsame. in_app.
    + eapply kept_same; [|exact H6]. intros q Hq%elem_of_elements. apply Hsame. in_app.
  - destruct (Hno Hlt) as (-> & P1 & _). eexists false, [], _. rewrite app_nil_r. split; [done|]. split; [|done].
    split; simpl; rewrite ?Ew in *; try done. exists L. by split_and!.
Qed.

Lemma request_more_ok k c X Y V s : cq_ok k c X Y V s -> exists ok s', request_more_buffers cfg s = Ok (ok, s') /\ cq_ok k c X Y V s' /\
  debt s' = debt s /\ qp s' = qp s /\ (ok = false -> m_rx_pool s' = m_rx_pool s).
Proof.
  intros H. unfold request_more_buffers. destruct (get_ok k c X Y V s (m_rx_pool s) _ (co_level Hcfg) H) as (ok & l & w & -> & H1 & Hl).
  cbn [mbind res_bind]. eexists _, _. split; [done|]. split; [|split_and!; try done; intros ->; destruct l; simpl in *; [by rewrite app_nil_r|lia]].
  destruct H1 as [(L & G1 & G2 & G3) G4 G5 G6 G7 G8 G9 G10 G11 G12]. split; try done.
  - exists L. split_and!; try done. rewrite <- G2. unfold mine. simpl. solve_Permutation.
  - eapply Permutation_Forall; [|exact G4]. unfold mine. simpl. solve_Permutation.
Qed.

Lemma have_buffers_ok k c X Y V s : cq_ok k c X Y V s -> exists ok s', have_buffers cfg s = Ok (ok, s') /\ cq_ok k c X Y V s' /\ debt s' = debt s /\ qp s' = qp s /\
  (ok = false -> m_rx_pool s' = []).
Proof.
  intros H. unfold have_buffers. destruct (m_rx_pool s) eqn:E; [|by exists true, s].
  destruct (request_more_ok k c X Y V s H) as (ok & s' & ? & ? & ? & ? & Hf). exists ok, s'. rewrite E in Hf. by split_and!.
Qed.

Lemma refilled n (l : list ptr) d : n = Z.min d (Z.of_nat (length l)) -> 0 <= d -> d - n = 0 \/ drop (Z.to_nat n) l = [].
Proof. intros -> Hd. destruct (Z.min_spec d (Z.of_nat (length l))) as [[? ->]|[? ->]]; [left; lia|]. right. apply drop_ge. lia. Qed.

Lemma compensate_failed_ok k c X Y V s : cq_ok k c X Y V s -> 0 <= c -> exists s', compensate_qp_poll_failed cfg s = Ok s' /\ cq_ok k c X Y V s' /\
  (debt s' = 0 \/ m_rx_pool s' = []).
Proof.
  intros H Hc. unfold compensate_qp_poll_failed. destruct (Z.eqb_spec (debt s) 0); [exists s; auto|].
  destruct (have_buffers_ok k c X Y V s H) as (ok & s1 & -> & H1 & E1 & E2 & E3). cbn [mbind res_bind]. destruct ok.
  - destruct (refill_ok k c X Y V s1 H1 Hc) as (s2 & -> & H2 & F1 & F2). exists s2. split; [done|]. split; [done|]. rewrite F1, F2.
    eapply refilled; [done|]. apply (ok_debt _ _ _ _ _ _ H1).
  - exists s1. auto.
Qed.

Lemma cq_ok_debt k c c' d X Y V s : cq_ok k c X Y V s -> 0 <= d -> d + c' <= debt s + c -> cq_ok k c' X Y V (set_debt d s).
Proof. intros [H1 H4 H5 H6 H7 H8 H9 H10 H11 H12] Hd Hc. split; try done. simpl. lia. Qed.

Lemma cq_ok_inc_drop k c X Y V s : cq_ok k c X Y V s -> cq_ok k c X Y V (inc_drop s).
Proof. intros [H1 H4 H5 H6 H7 H8 H9 H10 H11 H12]. by split. Qed.

Lemma compensate_success_ok k c p X Y V s : cq_ok k c (p :: X) Y V s -> 1 <= c -> exists used s', compensate_qp_poll_success cfg p s = Ok (used, s') /\
  cq_ok k (c - 1) (if used then X else p :: X) Y V s'.
Proof.
  intros H Hc. unfold compensate_qp_poll_success. destruct (qp s) eqn:Eq.
  2: { exists false, s. split; [done|]. eapply cq_ok_mono; [..|exact H]; lia. }
  set (s1 := set_debt (debt s + 1) s). assert (cq_ok k (c - 1) (p :: X) Y V s1) as H1.
  { eapply cq_ok_debt; [done|..]; pose proof (ok_debt _ _ _ _ _ _ H); lia. }
  destruct (_ <? _); [by exists false, s1|]. destruct (have_buffers_ok _ _ _ _ _ _ H1) as (ok & s2 & -> & H2 & E1 & _). cbn [mbind res_bind]. destruct ok.
  { destruct (refill_ok _ _ _ _ _ _ H2) as (s3 & -> & H3 & _); [lia|]. by exists false, s3. }
  destruct (_ || _); [|by exists false, s2].
  destruct (post_recv_buffer_ok k (c - 1) p X Y V (inc_drop s2)) as (s3 & -> & H3 & F1 & _).
  - by apply cq_ok_drop_context, cq_ok_inc_drop.
  - simpl. rewrite E1. simpl. pose proof (ok_debt _ _ _ _ _ _ H). lia.
  - cbn [mbind res_bind]. exists true. eexists. split; [done|]. eapply cq_ok_debt; [done|..]; rewrite F1; simpl; rewrite E1; simpl; pose proof (ok_debt _ _ _ _ _ _ H); lia.
Qed.

(** ** Taking back *)

Lemma cq_ok_take_context k c p X Y V s : cq_ok k c X (p :: Y) V s -> received_here s p -> cq_ok k c (p :: X) Y V s.
Proof.
  intros [(L & H1 & H2 & H3) H4 H5 H6 H7 H8 H9 H10 H11 H12] Hp. split; try done.
  - exists L. split_and!; try done. rewrite <- H2. solve_Permutation.
  - eapply Permutation_Forall; [|exact H4]. solve_Permutation.
  - rewrite !Forall_app, Forall_cons in *. naive_solver.
Qed.

(** The store and the ring change; the buffers in the hands of the queue do
    not, except for [p], which comes to the end of the pool. *)
Lemma reclaim_one_ok k c p X Y V s b : 0 <= k -> cq_ok k c X Y (p :: V) s -> store_of s !! p = Some b ->
  let m := <[p := free_lwip_pbuf (set_ref_count 0 (set_next_desc None b))]> (store_of s) in
  cq_ok k c X Y V (set_pool (world_ (set_ring m (rx_reset p (ring s)) s)) (m_rx_pool s ++ [p]) (set_ring m (rx_reset p (ring s)) s)).
Proof.
  intros Hk [(L & H1 & H2 & H3) H4 H5 H6 H7 H8 H9 H10 H11 H12] Hb m. destruct (rx_reset_law p (ring s) H8) as [Hg Hkept].
  assert ([p] ++ L ++ mine s ++ X ++ Y ++ V ++ elements (kept (ring s)) ≡ₚ T) as HT by (rewrite <- H2; solve_Permutation).
  assert (forall q, q ∈ L ++ mine s ++ X ++ Y ++ V ++ elements (kept (ring s)) -> m !! q = store_of s !! q) as Hsame.
  { intros q Hq. subst m. apply lookup_insert_ne. intros <-. apply (apart _ _ HT p Hq). left. }
  apply Forall_cons in H5 as [Hp H5]. split; simpl; rewrite ?Hkept; try done.
  - exists L. split; [|split].
    + eapply pool_ok_same; [| |exact H1]; [done|]. intros q Hq. apply Hsame. in_app.
    + rewrite <- HT. unfold mine. simpl. solve_Permutation.
    + eapply free_same; [|exact H3]. intros q Hq. apply Hsame. in_app.
  - eapply (Permutation_Forall (x := p :: mine s ++ X ++ Y)); [unfold mine; simpl; solve_Permutation|]. constructor.
    + eexists. split; [subst m; by rewrite lookup_insert_eq|]. split_and!; try done; [unfold idle; simpl; lia|]. simpl.
      unfold owned, owner_of in Hp. rewrite Hb in Hp. by injection Hp.
    + eapply ready_same; [|done]. intros q Hq. apply Hsame. in_app.
  - eapply owned_same; [|done]. intros q Hq. apply Hsame. in_app.
  - eapply kept_same; [|done]. intros q Hq%elem_of_elements. apply Hsame. in_app.
  - rewrite !Forall_app, Forall_cons in H7. rewrite !Forall_app. naive_solver.
Qed.

Lemma reclaim_loop_ok k c X Y : 0 <= k -> forall l fuel o V s, cq_ok k c X Y (l ++ V) s -> chain (store_of s) o l -> (length l <= fuel)%nat ->
  exists s', reclaim_loop fuel o s = Ok s' /\ cq_ok k c X Y V s'.
Proof.
  intros Hk. induction l as [|p l IH]; intros fuel o V s H Hc Hf.
  { simpl in Hc. subst. exists s. by destruct fuel. }
  pose proof (chain_NoDup _ _ _ Hc) as Hn. destruct Hc as (-> & b & Hb & Hc). destruct fuel as [|fuel]; simpl in Hf; [lia|]. cbn [reclaim_loop].
  rewrite (load_ok _ _ _ Hb). cbn [mbind res_bind]. apply (IH fuel (p_next_desc b) V).
  - exact (reclaim_one_ok k c p X Y (l ++ V) s b Hk H Hb).
  - simpl. apply chain_insert; [|done]. by apply NoDup_cons in Hn as [? _].
  - lia.
Qed.

Lemma loose_update k c X Y V s p b b' : cq_ok k c X Y (p :: V) s -> store_of s !! p = Some b -> p_desc_owner b' = p_desc_owner b ->
  cq_ok k c X Y (p :: V) (set_world (<[p := b']> (store_of s), snd (world_ s)) s).
Proof.
  intros [(L & H1 & H2 & H3) H4 H5 H6 H7 H8 H9 H10 H11 H12] Hb Ho.
  assert ([p] ++ L ++ mine s ++ X ++ Y ++ V ++ elements (kept (ring s)) ≡ₚ T) as HT by (rewrite <- H2; solve_Permutation).
  assert (forall q, q ∈ L ++ mine s ++ X ++ Y ++ V ++ elements (kept (ring s)) -> <[p := b']> (store_of s) !! q = store_of s !! q) as Hsame.
  { intros q Hq. apply lookup_insert_ne. intros <-. apply (apart _ _ HT p Hq). left. }
  apply Forall_cons in H5 as [Hp H5]. split; simpl; try done.
  - exists L. split; [|split; [done|]].
    + eapply pool_ok_same; [| |exact H1]; [done|]. intros q Hq. apply Hsame. in_app.
    + eapply free_same; [|exact H3]. intros q Hq. apply Hsame. in_app.
  - eapply ready_same; [|done]. intros q Hq. apply Hsame. in_app.
  - constructor; [unfold owned, owner_of in *; rewrite lookup_insert_eq; rewrite Hb in Hp; simpl in *; by rewrite Ho|].
    eapply owned_same; [|done]. intros q Hq. apply Hsame. in_app.
  - eapply kept_same; [|done]. intros q Hq%elem_of_elements. apply Hsame. in_app.
Qed.

Lemma set_world_twice w w' s : set_world w (set_world w' s) = set_world w s.
Proof. done. Qed.

(** The last reference to a list of buffers that this queue received. *)
Lemma reclaim_own_ok k c X Y V s p l b : 0 <= k -> cq_ok k c X Y (p :: l ++ V) s -> chain (store_of s) (Some p) (p :: l) -> store_of s !! p = Some b ->
  n_ref_count b <= 1 -> pbuf_ref b <= 1 -> received_here s p -> exists s', reclaim_recv_buffer_helper cfg p s = Ok s' /\ cq_ok k c X Y V s'.
Proof.
  intros Hk H Hc Hb Hn Hp Hr. unfold reclaim_recv_buffer_helper, dec_ref_count. rewrite (load_ok _ _ _ Hb). cbn [mbind res_bind].
  rewrite (proj2 (Z.leb_le _ _) Hn). rewrite (load_ok _ p (set_ref_count (i32 (n_ref_count b - 1)) b)) by apply lookup_insert_eq. cbn [mbind res_bind].
  rewrite insert_insert_eq. simpl pbuf_ref. rewrite (proj2 (Z.leb_le _ _) Hp). simpl context. rewrite bool_decide_true by done.
  set (b2 := set_pbuf _ _ _). apply (reclaim_loop_ok k c X Y Hk (p :: l)).
  - simpl. by eapply loose_update.
  - eapply chain_ext; [|exact Hc]. intros q _. simpl. destruct (decide (q = p)) as [->|Hq]; [by rewrite lookup_insert_eq, Hb|by rewrite lookup_insert_ne].
  - pose proof (chain_size (store_of s) (Some p) (p :: l) Hc). simpl. rewrite map_size_insert, Hb. done.
Qed.

Lemma put_single_ok C w L p b : pool_ok C w L -> fst w !! p = Some b -> p_next_desc b = None -> p ∉ L -> Z.of_nat (S (length L)) <= C -> C < 2 ^ 32 ->
  exists w', put_buffers (Some p) w = Ok w' /\ pool_ok C w' (p :: L) /\ fst w' = <[p := free_lwip_pbuf (set_next_desc (m_p_head (snd w)) b)]> (fst w).
Proof.
  intros (H1 & H2 & H3) Hb Hn Hp HC HC2. unfold put_buffers.
  assert (exists n, size (fst w) = S n) as (n & ->).
  { destruct (size (fst w)) eqn:E; [|eauto]. apply map_size_empty_inv in E. by rewrite E in Hb. }
  cbn [put_loop]. rewrite (load_ok _ _ _ Hb). cbn [mbind res_bind].
  destruct (put_buffer_helper_spec p b w L) as (w' & -> & Hw & Hcr & Hm); [done..|lia|]. cbn [mbind res_bind]. rewrite Hn.
  assert (put_loop n None w' = Ok w') as -> by (by destruct n). cbn [mbind res_bind]. exists w'.
  assert (m_n_buffers_created (snd w') = C) as HC' by (by rewrite Hcr).
  rewrite (check_count_ok C w' (p :: L)); [|done..]. split; [done|]. split; [|done]. split; [done|]. by split.
Qed.

(** A flushed buffer that another queue received before. *)
Lemma reclaim_foreign_ok k c X Y V s p : 0 <= k < 2 ^ 31 - 1 -> cq_ok k c X (p :: Y) V s -> ~ received_here s p ->
  exists s', reclaim_recv_buffer_helper cfg p s = Ok s' /\ cq_ok (k + 1) c X Y V s'.
Proof.
  intros Hk [(L & H1 & H2 & H3) H4 H5 H6 H7 H8 H9 H10 H11 H12] Hr.
  assert ([p] ++ L ++ mine s ++ X ++ Y ++ V ++ elements (kept (ring s)) ≡ₚ T) as HT by (rewrite <- H2; solve_Permutation).
  eapply (Permutation_Forall (y := p :: mine s ++ X ++ Y)) in H4; [|solve_Permutation]. apply Forall_cons in H4 as [(b & Hb & Hn & [Hi Hpr] & Ho) H4].
  unfold reclaim_recv_buffer_helper, dec_ref_count. rewrite (load_ok _ _ _ Hb). cbn [mbind res_bind].
  rewrite (proj2 (Z.leb_le (n_ref_count b) 1)) by lia. rewrite (load_ok _ p (set_ref_count (i32 (n_ref_count b - 1)) b)) by apply lookup_insert_eq. cbn [mbind res_bind].
  rewrite insert_insert_eq. simpl pbuf_ref. rewrite (proj2 (Z.leb_le _ _) Hpr). simpl context. rewrite bool_decide_false by done. simpl world_.
  set (b2 := set_pbuf _ _ _). assert (forall q, q ∈ L ++ mine s ++ X ++ Y ++ V ++ elements (kept (ring s)) -> <[p := b2]> (store_of s) !! q = store_of s !! q) as Hsame.
  { intros q Hq. apply lookup_insert_ne. intros <-. apply (apart _ _ HT p Hq). left. }
  pose proof (co_length Hcfg) as Hlen. pose proof (Permutation_length HT) as HTl. rewrite !length_app in HTl. simpl in HTl.
  destruct (put_single_ok (Z.of_nat (length T)) (<[p := b2]> (store_of s), snd (world_ s)) L p b2) as (w' & -> & Hw' & Hm').
  - eapply pool_ok_same; [| |exact H1]; [done|]. intros q Hq. apply Hsame. in_app.
  - apply lookup_insert_eq.
  - done.
  - intros HL. apply (apart _ _ HT p); [in_app|left].
  - lia.
  - lia.
  - cbn [mbind res_bind]. eexists. split; [done|]. simpl in Hm'. rewrite insert_insert_eq in Hm'.
    assert (forall q, q ∈ L ++ mine s ++ X ++ Y ++ V ++ elements (kept (ring s)) -> fst w' !! q = store_of s !! q) as Hsame'.
    { intros q Hq. rewrite Hm'. apply lookup_insert_ne. intros <-. apply (apart _ _ HT p Hq). left. }
    split; try done; simpl.
    + exists (p :: L). split; [done|]. split; [rewrite <- HT; solve_Permutation|]. constructor.
      * eexists. split; [rewrite Hm'; apply lookup_insert_eq|]. unfold idle. simpl. rewrite swrap_small by (change (2 ^ (32 - 1)) with (2 ^ 31); lia). lia.
      * apply Forall_forall. intros q Hq. rewrite Forall_forall in H3. destruct (H3 q Hq) as (b1 & Hb1 & Hi1). exists b1.
        split; [rewrite Hsame'; [done|set_solver]|]. eapply idle_mono; [|done]. lia.
    + eapply Forall_impl; [eapply ready_same; [|exact H4]; intros q Hq; apply Hsame'; in_app|]. intros q Hq. eapply ready_mono; [|done]. lia.
    + eapply owned_same; [|done]. intros q Hq. apply Hsame'. in_app.
    + eapply kept_same; [|done]. intros q Hq%elem_of_elements. apply Hsame'. in_app.
Qed.

(** A received buffer that the ring does not keep. *)
Lemma reclaim_received_ok k c X Y V s p : 0 <= k -> cq_ok k c (p :: X) Y V s ->
  exists s', reclaim_recv_buffer_helper cfg p s = Ok s' /\ cq_ok k c X Y V s'.
Proof.
  intros Hk H. pose proof (ok_ready _ _ _ _ _ _ H) as Hr. pose proof (ok_context _ _ _ _ _ _ H) as Hc.
  rewrite !Forall_app, Forall_cons in Hr, Hc. destruct Hr as (_ & [(b & Hb & Hn & [Hi Hp] & _) _] & _). destruct Hc as (_ & [Hx _] & _).
  apply (reclaim_own_ok k c X Y V s p [] b); try done; [by apply cq_ok_loosen| |lia]. by apply single_chain; exists b.
Qed.

(** ** The ring *)

(** The ring works on the store: the buffers of the queue stay as they are. *)
Lemma cq_ok_ring k c X Y V s m a : cq_ok k c X Y V s -> good a -> kept a = kept (ring s) ->
  (forall q, q ∉ kept (ring s) -> m !! q = store_of s !! q) -> (forall q, owner_of m q = owner_of (store_of s) q) -> cq_ok k c X Y V (set_ring m a s).
Proof.
  intros [(L & H1 & H2 & H3) H4 H5 H6 H7 H8 H9 H10 H11 H12] Hg Hk Hm Ho.
  assert (elements (kept (ring s)) ++ L ++ mine s ++ X ++ Y ++ V ≡ₚ T) as HT by (rewrite <- H2; solve_Permutation).
  assert (forall q, q ∈ L ++ mine s ++ X ++ Y ++ V -> m !! q = store_of s !! q) as Hsame.
  { intros q Hq. apply Hm. intros Hin%elem_of_elements. by apply (apart _ _ HT q Hq). }
  split; simpl; rewrite ?Hk; try done.
  - exists L. split; [eapply pool_ok_same; [| |exact H1]; [done|]; intros q Hq; apply Hsame; in_app|]. split; [done|].
    eapply free_same; [|exact H3]. intros q Hq. apply Hsame. in_app.
  - eapply ready_same; [|done]. intros q Hq. apply Hsame. in_app.
  - eapply owned_same; [|done]. intros q Hq. apply Hsame. in_app.
  - intros q Hq. destruct (H6 q Hq) as [Hq1 Hq2]. split; [|done]. unfold owned in *. by rewrite Ho.
Qed.

Lemma flush_ok k c X Y V s : cq_ok k c X Y V s -> exists s', flush s = Ok s' /\ cq_ok k c X Y V s'.
Proof.
  intros H. unfold flush. destruct (gro_flush_law (store_of s) (ring s) (ok_good _ _ _ _ _ _ H)) as (m & a & -> & Hg & Hk & Hm & Ho).
  cbn [mbind res_bind]. eexists. split; [done|]. by apply cq_ok_ring.
Qed.

Lemma process_recv_buffer_ok k c p X Y V s : 0 <= k -> cq_ok k c (p :: X) Y V s -> exists s', process_recv_buffer cfg p s = Ok s' /\ cq_ok k c X Y V s'.
Proof.
  intros Hk0 H. pose proof H as [(L & H1 & H2 & H3) H4 H5 H6 H7 H8 H9 H10 H11 H12]. unfold process_recv_buffer.
  assert ([p] ++ L ++ mine s ++ X ++ Y ++ V ++ elements (kept (ring s)) ≡ₚ T) as HT by (rewrite <- H2; solve_Permutation).
  eapply (Permutation_Forall (y := p :: mine s ++ X ++ Y)) in H4; [|solve_Permutation]. apply Forall_cons in H4 as [(b & Hb & Hn & [Hi Hpr] & Ho) H4].
  assert (p ∉ kept (ring s)) as Hpk by (intros Hin%elem_of_elements; apply (apart _ _ HT p); [in_app|left]).
  destruct (rx_process_law p (store_of s) (ring s) b) as (ret & m & a & -> & Hg & Hk & Hm & Hown & Hret); [done..|lia|done|done|]. cbn [mbind res_bind].
  assert (forall q, q ∈ L ++ mine s ++ X ++ Y ++ V -> m !! q = store_of s !! q) as Hsame.
  { intros q Hq. apply Hm; [|intros ->; apply (apart _ _ HT p); [in_app|left]]. intros Hin%elem_of_elements.
    assert (elements (kept (ring s)) ++ [p] ++ L ++ mine s ++ X ++ Y ++ V ≡ₚ T) as HT' by (rewrite <- HT; solve_Permutation).
    apply (apart _ _ HT' q); [in_app|done]. }
  assert (received_here s p) as Hrec by (rewrite !Forall_app, Forall_cons in H7; naive_solver). destruct ret.
  - eexists. split; [done|]. split; simpl; rewrite ?Hk; try done.
    + exists L. split; [eapply pool_ok_same; [| |exact H1]; [done|]; intros q Hq; apply Hsame; in_app|]. split.
      * rewrite <- HT. change (mine (set_ring m a s)) with (mine s). rewrite elements_union_singleton by done. solve_Permutation.
      * eapply free_same; [|exact H3]. intros q Hq. apply Hsame. in_app.
    + eapply ready_same; [|exact H4]. intros q Hq. apply Hsame. change (mine (set_ring m a s)) with (mine s) in Hq. in_app.
    + eapply owned_same; [|done]. intros q Hq. apply Hsame. in_app.
    + intros q [->%elem_of_singleton|Hq]%elem_of_union; (split; [unfold owned; rewrite Hown|]).
      * unfold owner_of. rewrite Hb. simpl. by rewrite Ho.
      * done.
      * by apply H6.
      * by apply H6.
    + rewrite !Forall_app, Forall_cons in *. naive_solver.
  - destruct (Hret eq_refl) as (b' & Hb' & Hn' & Hp' & Hi'). apply reclaim_received_ok; [done|].
    split; simpl; rewrite ?Hk; try done.
    + exists L. split; [eapply pool_ok_same; [| |exact H1]; [done|]; intros q Hq; apply Hsame; in_app|]. split; [done|].
      eapply free_same; [|exact H3]. intros q Hq. apply Hsame. in_app.
    + eapply (Permutation_Forall (x := p :: mine s ++ X ++ Y)); [change (mine (set_ring m a s)) with (mine s); solve_Permutation|]. constructor.
      * exists b'. split_and!; try done; [unfold idle; lia|]. pose proof (Hown p) as E. unfold owner_of in E. rewrite Hb, Hb' in E. injection E as ->. done.
      * eapply ready_same; [|exact H4]. intros q Hq. apply Hsame. in_app.
    + eapply owned_same; [|done]. intros q Hq. apply Hsame. in_app.
    + intros q Hq. destruct (H6 q Hq) as [Hq1 Hq2]. split; [|done]. unfold owned in *. by rewrite Hown.
Qed.

(** ** Completions *)

(** A good completion: the buffer is received. *)
Lemma receive_ok k c X Y V s p b n csum d : cq_ok k c X (p :: Y) V s -> store_of s !! p = Some b -> allowed csum d ->
  cq_ok k c (p :: X) Y V (set_context (<[p := this cfg]> (context s)) (set_ring (<[p := set_sz_data n b]> (store_of s)) (rx_received p csum d (ring s)) s)).
Proof.
  intros [(L & H1 & H2 & H3) H4 H5 H6 H7 H8 H9 H10 H11 H12] Hb Ha. destruct (rx_received_law p csum d (ring s) H8 Ha) as [Hg Hk].
  assert ([p] ++ L ++ mine s ++ X ++ Y ++ V ++ elements (kept (ring s)) ≡ₚ T) as HT by (rewrite <- H2; solve_Permutation).
  assert (forall q, q ∈ L ++ mine s ++ X ++ Y ++ V ++ elements (kept (ring s)) -> q <> p) as Hne.
  { intros q Hq ->. apply (apart _ _ HT p Hq). left. }
  assert (forall q, q ∈ L ++ mine s ++ X ++ Y ++ V ++ elements (kept (ring s)) -> <[p := set_sz_data n b]> (store_of s) !! q = store_of s !! q) as Hsame.
  { intros q Hq. apply lookup_insert_ne. by apply not_eq_sym, Hne. }
  eapply (Permutation_Forall (y := p :: mine s ++ X ++ Y)) in H4; [|solve_Permutation]. apply Forall_cons in H4 as [(b0 & Hb0 & Hn & Hi & Ho) H4].
  rewrite Hb in Hb0. injection Hb0 as <-. split; simpl; rewrite ?Hk; try done.
  - exists L. split; [eapply pool_ok_same; [| |exact H1]; [done|]; intros q Hq; apply Hsame; in_app|]. split; [rewrite <- HT; unfold mine; simpl; solve_Permutation|].
    eapply free_same; [|exact H3]. intros q Hq. apply Hsame. in_app.
  - eapply (Permutation_Forall (x := p :: mine s ++ X ++ Y)); [unfold mine; simpl; solve_Permutation|]. constructor.
    + eexists. by rewrite lookup_insert_eq.
    + eapply ready_same; [|exact H4]. intros q Hq. apply Hsame. in_app.
  - eapply owned_same; [|done]. intros q Hq. apply Hsame. in_app.
  - intros q Hq. destruct (H6 q Hq) as [Hq1 Hq2]. apply elem_of_elements in Hq. split.
    + unfold owned, owner_of in *. rewrite Hsame; [done|in_app].
    + unfold received_here. simpl. rewrite lookup_insert_ne; [done|]. apply not_eq_sym, Hne. in_app.
  - apply (Permutation_Forall (x := p :: m_rx_queue s ++ X ++ V)); [solve_Permutation|]. constructor; [apply lookup_insert_eq|].
    rewrite Forall_forall in H7 |- *. intros q Hq. unfold received_here. simpl. rewrite lookup_insert_ne; [by apply H7|]. apply not_eq_sym, Hne.
    unfold mine. in_app.
Qed.

Lemma process_cq_element_ok k c X Y V s e p : 0 <= k < 2 ^ 31 - 1 -> cq_ok k c X (p :: Y) V s -> wr_id e = Some p -> cqe_ok e ->
  exists o s', process_cq_element_rx cfg e s = Ok (o, s') /\ (o = Some p /\ cq_ok k c (p :: X) Y V s' \/ o = None /\ cq_ok (k + 1) c X Y V s').
Proof.
  intros Hk H Hp (_ & Hr & Ha). unfold process_cq_element_rx. rewrite Hp.
  assert (ready k (store_of s) p) as (b & Hb & Hn & Hi & Ho).
  { pose proof (ok_ready _ _ _ _ _ _ H) as Hre. rewrite !Forall_app, Forall_cons in Hre. naive_solver. }
  rewrite (load_ok _ _ _ Hb). cbn [mbind res_bind]. destruct (bad_wce cfg e).
  - rewrite Ho. destruct (decide (context s !! p = Some (this cfg))) as [Hc|Hc].
    + destruct (reclaim_received_ok k c X Y V s p) as (s' & -> & H'); [lia|by apply cq_ok_take_context|]. cbn [mbind res_bind].
      exists None, s'. split; [done|]. right. split; [done|]. eapply cq_ok_mono; [..|exact H']; lia.
    + destruct (reclaim_foreign_ok k c X Y V s p Hk H Hc) as (s' & -> & H'). cbn [mbind res_bind]. exists None, s'. auto.
  - rewrite Hr. eexists _, _. split; [done|]. left. split; [done|]. by apply receive_ok.
Qed.

(** The end of the processing of a received buffer. *)
Lemma compensate_process_ok k c p X Y V s : 0 <= k -> cq_ok k c (p :: X) Y V s -> 1 <= c ->
  exists s', (y ← compensate_qp_poll_success cfg p s; let '(used, s) := y : bool * cq_mgr A in if used : bool then Ok s else process_recv_buffer cfg p s) = Ok s' /\
    cq_ok k (c - 1) X Y V s'.
Proof.
  intros Hk H Hc. destruct (compensate_success_ok k c p X Y V s H Hc) as (used & s1 & -> & H1). cbn [mbind res_bind].
  destruct used; [by exists s1|]. by apply process_recv_buffer_ok.
Qed.

Lemma process_completions_ok X V l : forall k c Y s, 0 <= k -> k + Z.of_nat (length l) < 2 ^ 31 -> Z.of_nat (length l) <= c -> Forall cqe_ok l ->
  cq_ok k c X (omap wr_id l ++ Y) V s ->
  exists s', process_completions cfg l s = Ok s' /\ cq_ok (k + Z.of_nat (length l)) (c - Z.of_nat (length l)) X Y V s'.
Proof.
  induction l as [|e l IH]; intros k c Y s Hk Hk2 Hc Hl H.
  { exists s. split; [done|]. simpl. by rewrite Z.add_0_r, Z.sub_0_r. }
  apply Forall_cons in Hl as [He Hl]. pose proof He as ([p Hp] & Hr & _). simpl in H. rewrite Hp in H. cbn [length] in *. cbn [process_completions].
  destruct (process_cq_element_ok k c X (omap wr_id l ++ Y) V s e p) as (o & s1 & -> & [[-> H1]|[-> H1]]); [lia|done..| |]; cbn [mbind res_bind].
  - rewrite Hr. destruct (compensate_process_ok k c p X _ V s1 Hk H1) as (s2 & -> & H2); [lia|]. cbn [mbind res_bind].
    destruct (IH k (c - 1) Y s2) as (s3 & -> & H3); [lia|lia|lia|done|done|]. exists s3. split; [done|]. eapply cq_ok_mono; [..|exact H3]; lia.
  - destruct (IH (k + 1) c Y s1) as (s3 & -> & H3); [lia|lia|lia|done|done|]. exists s3. split; [done|]. eapply cq_ok_mono; [..|exact H3]; lia.
Qed.

(** ** Polling and draining *)

Lemma poll_ok k c n X Y V s l s1 : poll n s = (l, s1) -> cq_ok k c X Y V s ->
  cq_ok k (c + Z.of_nat (length l)) X (omap wr_id l ++ Y) V s1 /\ Forall cqe_ok l /\ l ++ cqes s1 = cqes s.
Proof.
  intros E [(L & H1 & H2 & H3) H4 H5 H6 H7 H8 H9 H10 H11 H12]. injection E as <- <-. set (i := Z.to_nat n).
  assert (omap wr_id (cqes s) = omap wr_id (take i (cqes s)) ++ omap wr_id (drop i (cqes s))) as Eo by (by rewrite <- omap_app, take_drop).
  assert (length (cqes s) = length (take i (cqes s)) + length (drop i (cqes s)))%nat as El by (by rewrite <- length_app, take_drop).
  split; [|split; [by apply Forall_take|apply take_drop]]. split; try done; simpl.
  - exists L. split_and!; try done. rewrite <- H2. unfold mine. simpl. rewrite Eo. solve_Permutation.
  - eapply Permutation_Forall; [|exact H4]. unfold mine. simpl. rewrite Eo. solve_Permutation.
  - lia.
  - by apply Forall_drop.
Qed.

Lemma cq_ok_drain k c X Y V s n d : cq_ok k c X Y V s -> cq_ok k c X Y V (set_drain n d s).
Proof. intros [H1 H4 H5 H6 H7 H8 H9 H10 H11 H12]. by split. Qed.

Lemma cq_ok_pop k c p X Y V s q : m_rx_queue s = p :: q -> cq_ok k c X Y V s -> cq_ok k c (p :: X) Y V (set_queue q s).
Proof.
  intros E [(L & H1 & H2 & H3) H4 H5 H6 H7 H8 H9 H10 H11 H12]. split; try done; simpl.
  - exists L. split_and!; try done. rewrite <- H2. unfold mine. simpl. rewrite E. solve_Permutation.
  - eapply Permutation_Forall; [|exact H4]. unfold mine. simpl. rewrite E. solve_Permutation.
  - eapply Permutation_Forall; [|exact H7]. rewrite E. solve_Permutation.
Qed.

Lemma cq_ok_push k c p X Y V s q : q ≡ₚ p :: m_rx_queue s -> cq_ok k c (p :: X) Y V s -> cq_ok k c X Y V (set_queue q s).
Proof.
  intros E [(L & H1 & H2 & H3) H4 H5 H6 H7 H8 H9 H10 H11 H12]. split; try done; simpl.
  - exists L. split_and!; try done. rewrite <- H2. unfold mine. simpl. rewrite E. solve_Permutation.
  - eapply Permutation_Forall; [|exact H4]. unfold mine. simpl. rewrite E. solve_Permutation.
  - eapply Permutation_Forall; [|exact H7]. rewrite E. solve_Permutation.
Qed.

Lemma process_recv_buffer_queue p s s' : process_recv_buffer cfg p s = Ok s' -> m_rx_queue s' = m_rx_queue s.
Proof.
  assert (forall fuel o s s', reclaim_loop fuel o s = Ok s' -> m_rx_queue s' = m_rx_queue s) as Hloop.
  { clear. induction fuel as [|fuel IH]; intros o s s' E; (destruct o as [p|]; [|by injection E as <-]); [done|]. cbn [reclaim_loop] in E.
    apply bind_Ok in E as (b & _ & E). by apply IH in E. }
  unfold process_recv_buffer. intros E. apply bind_Ok in E as ([[ret m] a] & _ & E). destruct ret; [by injection E as <-|].
  unfold reclaim_recv_buffer_helper in E. apply bind_Ok in E as ([n m'] & _ & E). destruct (_ <=? _); [|by injection E as <-].
  apply bind_Ok in E as (b & _ & E). destruct (_ <=? _); [|by injection E as <-]. case_bool_decide; [by apply Hloop in E|].
  apply bind_Ok in E as (w & _ & E). by injection E as <-.
Qed.

Lemma process_recv_queue_ok k c X Y V fuel : 0 <= k -> forall n s, cq_ok k c X Y V s -> (length (m_rx_queue s) < fuel)%nat ->
  exists r s', process_recv_queue cfg fuel n s = Ok (r, s') /\ cq_ok k c X Y V s'.
Proof.
  intros Hk. induction fuel as [|fuel IH]; intros n s H Hf; [lia|]. cbn [process_recv_queue]. destruct (m_rx_queue s) as [|p q] eqn:E; [by exists n, s|].
  destruct (process_recv_buffer_ok k c p X Y V (set_queue q s) Hk) as (s1 & E1 & H1); [by apply cq_ok_pop|]. rewrite E1. cbn [mbind res_bind].
  destruct (_ <=? _); [by eexists _, s1|]. apply IH; [done|]. apply process_recv_buffer_queue in E1. rewrite E1. simpl in *. lia.
Qed.

(** The invariant between the calls; [n] completions came so far. *)
Definition cq_inv (n : Z) s : Prop := exists k, 0 <= k /\ k + Z.of_nat (length (cqes s)) <= n /\ cq_ok k 0 [] [] [] s.

Lemma poll_rx_ok n s : n < 2 ^ 31 -> cq_inv n s -> exists r s', poll_and_process_element_rx cfg s = Ok (r, s') /\ cq_inv n s'.
Proof.
  intros Hn (k & Hk & Hkn & H). unfold poll_and_process_element_rx.
  destruct (process_recv_queue_ok k 0 [] [] [] (S (length (m_rx_queue s))) Hk 0 s H) as (r & s1 & E1 & H1); [lia|].
  pose proof (process_recv_queue_cqes cfg _ _ _ _ E1) as Q1. simpl in Q1. rewrite E1. cbn [mbind res_bind].
  destruct (_ <=? _).
  { destruct (flush_ok _ _ _ _ _ _ H1) as (s2 & E2 & H2). rewrite E2. cbn [mbind res_bind]. eexists _, _. split; [done|]. exists k.
    apply flush_cqes in E2. split_and!; try done. rewrite E2, Q1. done. }
  destruct (poll (m_n_sysvar_cq_poll_batch_max cfg) s1) as [l s2] eqn:Ep. destruct (poll_ok _ _ _ _ _ _ _ _ _ Ep H1) as (H2 & Hl & Q2).
  assert (length (cqes s1) = length l + length (cqes s2))%nat as Q3 by (by rewrite <- length_app, Q2). rewrite Q1 in Q3.
  destruct (Z.ltb_spec 0 (Z.of_nat (length l))) as [Hpos|Hz].
  - set (s3 := set_drain _ _ s2). destruct (process_completions_ok [] [] l k (0 + Z.of_nat (length l)) [] s3) as (s4 & E4 & H4); [done|lia|lia|done|by apply cq_ok_drain|].
    rewrite E4. cbn [mbind res_bind]. destruct (flush_ok _ _ _ _ _ _ H4) as (s5 & E5 & H5). rewrite E5. cbn [mbind res_bind]. eexists _, _. split; [done|].
    apply process_completions_cqes in E4. apply flush_cqes in E5. exists (k + Z.of_nat (length l)). rewrite E5, E4. simpl. split_and!; [lia|lia|].
    eapply cq_ok_mono; [..|exact H5]; lia.
  - destruct l; simpl in Hz; [|lia]. simpl in H2. destruct (compensate_failed_ok k 0 [] [] [] s2 H2) as (s3 & E3 & H3 & _); [lia|].
    rewrite E3. cbn [mbind res_bind]. eexists _, _. split; [done|]. exists k. apply compensate_failed_cqes in E3. rewrite E3. simpl in Q3. split_and!; [lia|lia|done].
Qed.

Lemma drain_completions_ok recycle X V l : forall k c Y s, 0 <= k -> k + Z.of_nat (length l) < 2 ^ 31 -> Z.of_nat (length l) <= c -> Forall cqe_ok l ->
  cq_ok k c X (omap wr_id l ++ Y) V s ->
  exists s', drain_completions cfg recycle l s = Ok s' /\ cq_ok (k + Z.of_nat (length l)) (c - Z.of_nat (length l)) X Y V s'.
Proof.
  induction l as [|e l IH]; intros k c Y s Hk Hk2 Hc Hl H.
  { exists s. split; [done|]. simpl. by rewrite Z.add_0_r, Z.sub_0_r. }
  apply Forall_cons in Hl as [He Hl]. pose proof He as ([p Hp] & Hr & _). simpl in H. rewrite Hp in H. cbn [length] in *. cbn [drain_completions].
  destruct (process_cq_element_ok k c X (omap wr_id l ++ Y) V s e p) as (o & s1 & -> & [[-> H1]|[-> H1]]); [lia|done..| |]; cbn [mbind res_bind].
  2: { destruct (IH (k + 1) c Y s1) as (s3 & -> & H3); [lia|lia|lia|done|done|]. exists s3. split; [done|]. eapply cq_ok_mono; [..|exact H3]; lia. }
  match goal with |- exists s', ?body ≫= _ = Ok s' /\ _ => assert (exists s2, body = Ok s2 /\ cq_ok k (c - 1) X (omap wr_id l ++ Y) V s2) as (s2 & -> & H2) end.
  - destruct recycle.
    { destruct (reclaim_received_ok k c X (omap wr_id l ++ Y) V (inc_drop s1) p) as (s2 & -> & H2); [done|by apply cq_ok_inc_drop|].
      exists s2. split; [done|]. eapply cq_ok_mono; [..|exact H2]; lia. }
    destruct (is_tcp_frame_law p (ring s1) (ok_good _ _ _ _ _ _ H1)) as (now & ->). cbn [mbind res_bind]. destruct now; [apply (compensate_process_ok k c p); [done|done|lia]|].
    destruct (m_rx_queue s1 ++ [p]) as [|q r] eqn:Eq; [by destruct (m_rx_queue s1)|].
    assert (cq_ok k c (q :: X) (omap wr_id l ++ Y) V (set_queue r s1)) as H2.
    { apply (cq_ok_pop k c q X _ V (set_queue (q :: r) s1)); [done|]. apply (cq_ok_push k c p); [|done]. rewrite <- Eq. solve_Permutation. }
    destruct (compensate_success_ok k c q X _ V _ H2) as (used & s2 & -> & H3); [lia|]. cbn [mbind res_bind]. eexists. split; [done|].
    destruct used; [done|]. by apply (cq_ok_push k _ q).
  - cbn [mbind res_bind]. destruct (IH k (c - 1) Y s2) as (s3 & -> & H3); [lia|lia|lia|done|done|]. exists s3. split; [done|].
    eapply cq_ok_mono; [..|exact H3]; lia.
Qed.

Lemma drain_loop_ok recycle n fuel : n < 2 ^ 31 -> forall t s, cq_inv n s -> (length (cqes s) < fuel)%nat ->
  exists r s', drain_loop cfg fuel recycle t s = Ok (r, s') /\ cq_inv n s'.
Proof.
  intros Hn. induction fuel as [|fuel IH]; intros t s (k & Hk & Hkn & H) Hf; [lia|]. cbn [drain_loop]. destruct (_ && _).
  2: { destruct (flush_ok _ _ _ _ _ _ H) as (s1 & E1 & H1). rewrite E1. cbn [mbind res_bind]. eexists _, _. split; [done|]. exists k.
       apply flush_cqes in E1. simpl. rewrite E1. split_and!; [done..|]. by apply cq_ok_drain. }
  destruct (poll MCE_MAX_CQ_POLL_BATCH s) as [l s2] eqn:Ep. destruct (poll_ok _ _ _ _ _ _ _ _ _ Ep H) as (H2 & Hl & Q2).
  assert (length (cqes s) = length l + length (cqes s2))%nat as Q3 by (by rewrite <- length_app, Q2).
  destruct (Z.leb_spec (Z.of_nat (length l)) 0) as [Hz|Hpos].
  - destruct l; simpl in Hz; [|lia]. simpl in H2. destruct (flush_ok k 0 [] [] [] (set_drain (m_n_wce_counter s2) true s2)) as (s3 & E3 & H3); [by apply cq_ok_drain|].
    rewrite E3. cbn [mbind res_bind]. eexists _, _. split; [done|]. exists k. apply flush_cqes in E3. simpl in *. rewrite E3. split_and!; [lia|lia|done].
  - set (s3 := set_drain _ _ s2). destruct (drain_completions_ok recycle [] [] l k (0 + Z.of_nat (length l)) [] s3) as (s4 & E4 & H4); [done|lia|lia|done|by apply cq_ok_drain|].
    rewrite E4. cbn [mbind res_bind]. apply drain_completions_cqes in E4. simpl in E4. apply IH; [|rewrite E4; lia].
    exists (k + Z.of_nat (length l)). rewrite E4. split_and!; [lia|lia|]. eapply cq_ok_mono; [..|exact H4]; lia.
Qed.

Lemma drain_ok recycle n s : n < 2 ^ 31 -> cq_inv n s -> exists r s', drain_and_proccess cfg recycle s = Ok (r, s') /\ cq_inv n s'.
Proof.
  intros Hn (k & Hk & Hkn & H). unfold drain_and_proccess. apply drain_loop_ok; [done| |destruct recycle; simpl; lia].
  exists k. destruct recycle; [|done]. split_and!; [done..|]. by apply cq_ok_drain.
Qed.

(** ** Giving back to the global pool *)

(** The counts of the descriptors that go to a pool. *)
Definition tamed (m m' : bufs) : Prop := forall q b, m !! q = Some b ->
  exists b', m' !! q = Some b' /\ n_ref_count b' = n_ref_count b /\ (pbuf_ref b' = pbuf_ref b \/ pbuf_ref b' = 0).

Lemma tamed_trans m1 m2 m3 : tamed m1 m2 -> tamed m2 m3 -> tamed m1 m3.
Proof.
  intros H1 H2 q b Hb. destruct (H1 q b Hb) as (b2 & Hb2 & E2 & F2). destruct (H2 q b2 Hb2) as (b3 & Hb3 & E3 & F3). exists b3.
  split; [done|]. split; [congruence|]. destruct F3 as [->| ->]; auto.
Qed.

Lemma put_loop_tamed fuel : forall o w w', put_loop fuel o w = Ok w' -> tamed (fst w) (fst w').
Proof.
  induction fuel as [|fuel IH]; intros o w w' E; (destruct o as [p|]; [|injection E as <-; intros q b Hb; exists b; auto]); [done|].
  cbn [put_loop] in E. apply bind_Ok in E as (b & Hb & E). apply bind_Ok in E as (w1 & E1 & E). apply IH in E. eapply tamed_trans; [|exact E].
  destruct w as [m bp]. unfold put_buffer_helper, store in E1. simpl in Hb. rewrite Hb in E1. cbn [mbind res_bind] in E1. injection E1 as <-.
  unfold load in Hb. apply must_Ok in Hb. intros q b1 Hb1. simpl in *. destruct (decide (q = p)) as [->|Hq].
  - rewrite Hb in Hb1. injection Hb1 as <-. rewrite lookup_insert_eq. eexists. by split_and!; [| |right].
  - rewrite lookup_insert_ne by done. exists b1. auto.
Qed.

Lemma put_queue_tamed n : forall bs w x, put_queue n bs w = Ok x -> tamed (fst w) (fst x.2).
Proof.
  induction n as [|n IH]; intros bs w x E; cbn [put_queue] in E; [injection E as <-; intros q b Hb; exists b; auto|].
  destruct (list.last bs) as [p|]; [|injection E as <-; intros q b Hb; exists b; auto]. apply bind_Ok in E as (w1 & E1 & E).
  apply put_loop_tamed in E1. apply IH in E. by eapply tamed_trans.
Qed.

Lemma return_extra_ok k c X Y V s : cq_ok k c X Y V s -> exists s', return_extra_buffers cfg s = Ok s' /\ cq_ok k c X Y V s' /\ cqes s' = cqes s /\
  rq s' = rq s /\ wr_array s' = wr_array s.
Proof.
  intros H. pose proof H as [(L & H1 & H2 & H3) H4 H5 H6 H7 H8 H9 H10 H11 H12]. unfold return_extra_buffers. destruct (_ <? _) eqn:Elt; [by exists s|].
  apply Z.ltb_ge in Elt. pose proof (co_level Hcfg) as Hlev. set (l := m_rx_pool s) in *. set (lev := m_n_sysvar_qp_compensation_level cfg) in *.
  unfold put_buffers_q. replace (Z.min (Z.of_nat (length l) - lev) (Z.of_nat (length l))) with (Z.of_nat (length l) - lev) by lia.
  set (n := Z.to_nat (Z.of_nat (length l) - lev)). set (back := drop (length l - n) l). set (stay := take (length l - n) l).
  assert (stay ++ back = l) as El by apply take_drop.
  assert (L ++ l ++ (m_rx_queue s ++ wr_array s ++ rq s ++ omap wr_id (cqes s)) ++ X ++ Y ++ V ++ elements (kept (ring s)) ≡ₚ T) as HT
    by (rewrite <- H2; unfold mine; solve_Permutation).
  pose proof (co_nodup Hcfg) as Hnd. rewrite <- HT in Hnd. apply NoDup_app in Hnd as (HnL & HdL & Hnd). apply NoDup_app in Hnd as (Hnl & Hdl & _).
  pose proof (co_length Hcfg) as Hlen. pose proof (Permutation_length HT) as HTl. rewrite !length_app in HTl.
  assert (Forall (ready k (store_of s)) l) as Hrl by (unfold mine in H4; rewrite !Forall_app in H4; naive_solver).
  destruct (put_queue_spec l n (world_ s) L) as (w' & E & Hw & Hcr & Hsb).
  { apply H1. } { done. } { intros q Hq HL. apply (HdL q HL). in_app. }
  { eapply Forall_impl; [exact Hrl|]. intros q (b & ? & ? & _). by exists b. } { lia. } { lia. }
  fold stay back in E, Hw, Hsb. pose proof (put_queue_tamed _ _ _ _ E) as Ht. simpl in Ht. rewrite E. cbn [mbind res_bind].
  assert (length back + length stay = length l)%nat as Ebs by (rewrite <- El, length_app; lia).
  assert (m_n_buffers_created (snd w') = Z.of_nat (length T)) as HC by (rewrite Hcr; apply H1).
  rewrite (check_count_ok (Z.of_nat (length T)) w' (back ++ L)); [|done|done|rewrite length_app; lia]. cbn [mbind res_bind].
  eexists. split; [done|]. split; [|done]. simpl.
  assert (back ++ L ++ mine (set_pool w' stay s) ++ X ++ Y ++ V ++ elements (kept (ring s)) ≡ₚ T) as HT2.
  { rewrite <- HT. rewrite <- El. unfold mine. simpl. solve_Permutation. }
  assert (forall q, q ∈ L ++ mine (set_pool w' stay s) ++ X ++ Y ++ V ++ elements (kept (ring s)) -> fst w' !! q = store_of s !! q) as Hsame.
  { intros q Hq. apply Hsb. by apply (apart _ _ HT2). }
  split; simpl; try done.
  - exists (back ++ L). split; [|split; [rewrite <- HT2; solve_Permutation|]].
    + split; [done|]. split; [done|]. rewrite length_app. lia.
    + apply Forall_app. split.
      * apply Forall_forall. intros q Hq. rewrite Forall_forall in Hrl. destruct (Hrl q) as (b & Hb & _ & [Hi Hp] & _); [rewrite <- El; in_app|].
        destruct (Ht q b Hb) as (b' & Hb' & En & Ep). exists b'. split; [done|]. unfold idle. lia.
      * eapply free_same; [|exact H3]. intros q Hq. apply Hsame. in_app.
  - eapply (ready_same k (store_of s)); [intros q Hq; apply Hsame; in_app|]. apply Forall_forall. intros q Hq. rewrite Forall_forall in H4. apply H4.
    unfold mine in *. simpl in Hq. fold l. rewrite <- El. in_app.
  - eapply owned_same; [|done]. intros q Hq. apply Hsame. in_app.
  - eapply kept_same; [|done]. intros q Hq%elem_of_elements. apply Hsame. in_app.
Qed.

(** ** The queue pair *)

Lemma fill_qp_ok k : 0 <= k -> forall fuel num s, 0 <= num < Z.of_nat fuel -> cq_ok k num [] [] [] s -> debt s = 0 ->
  exists s', fill_qp cfg fuel num s = Ok s' /\ cq_ok k 0 [] [] [] s' /\ debt s' = 0.
Proof.
  intros Hk. induction fuel as [|fuel IH]; intros num s Hf H Hd; [lia|]. cbn [fill_qp].
  assert (exists s', Ok s = Ok s' /\ cq_ok k 0 [] [] [] s' /\ debt s' = 0) as Hend by (exists s; split_and!; try done; eapply cq_ok_mono; [..|exact H]; lia).
  destruct (Z.eqb_spec num 0) as [->|Hn]; [done|]. pose proof (co_post Hcfg) as Hp. set (n := Z.min (m_n_sysvar_rx_num_wr_to_post_recv cfg) num).
  destruct (get_ok k num [] [] [] s [] n) as (ok & l & w & -> & H1 & Hl); [lia|done|]. cbn [mbind res_bind app]. destruct ok.
  2: { destruct l; [|simpl in Hl; lia]. eexists. split; [done|]. split; [|done]. eapply cq_ok_mono; [..|exact H1]; lia. }
  rewrite app_nil_r in H1. rewrite <- (app_nil_r l) in H1.
  destruct (post_recv_buffers_ok k (length l) num l [] [] [] _ H1) as (s2 & -> & H2 & E2 & _); [lia|simpl; lia|]. cbn [mbind res_bind].
  rewrite drop_all in *. rewrite bool_decide_false by (by intros []). apply IH; [lia| |simpl in E2; congruence].
  by replace (num - n) with (num - Z.of_nat (length l)) by lia.
Qed.

Lemma add_qp_ok n s : 0 <= m_rx_num_wr cfg -> rq s = [] -> cqes s = [] -> wr_array s = [] -> debt s = 0 -> cq_inv n s ->
  exists s', add_qp_rx cfg s = Ok s' /\ (cqes s' = [] -> cq_inv n s').
Proof.
  intros Hm E1 E2 E3 E4 (k & Hk & Hkn & H). unfold add_qp_rx.
  destruct (fill_qp_ok k Hk (S (Z.to_nat (m_rx_num_wr cfg))) (m_rx_num_wr cfg) s) as (s1 & -> & H1 & D1); [lia| |done|].
  { destruct H as [F1 F4 F5 F6 F7 F8 F9 F10 F11 F12]. split; try done. rewrite E1, E2, E3, E4. simpl. lia. }
  cbn [mbind res_bind]. eexists. split; [done|]. intros Hc. exists k. rewrite Hc. rewrite E2 in Hkn. split_and!; [done..|].
  destruct H1 as [F1 F4 F5 F6 F7 F8 F9 F10 F11 F12]. split; try done. simpl. lia.
Qed.

Lemma fill_qp_cqes fuel : forall num s s', fill_qp cfg fuel num s = Ok s' -> cqes s' = cqes s.
Proof.
  induction fuel as [|fuel IH]; intros num s s' E; cbn [fill_qp] in E; (destruct (_ =? _); [by injection E as <-|]); [done|].
  apply bind_Ok in E as ([[ok l] w] & _ & E). destruct ok; [|by injection E as <-]. apply bind_Ok in E as ([l2 s2] & E2 & E).
  apply post_recv_buffers_cqes in E2. simpl in E2. case_bool_decide; [|apply IH in E; congruence].
  apply bind_Ok in E as (z & _ & E). injection E as <-. done.
Qed.

(** ** All the steps *)

(** The adapter completes a posted buffer; somebody who was given a buffer,
    or a list of linked ones, drops the last reference to it. *)
Inductive cq_step : cq_mgr A -> Z -> cq_mgr A -> Prop :=
| step_complete s e p l1 l2 : rq s = l1 ++ p :: l2 -> wr_id e = Some p -> cqe_ok e ->
    cq_step s 1 (set_cqes (cqes s ++ [e]) (set_posted (wr_array s) (l1 ++ l2) s))
| step_poll s r s' : poll_and_process_element_rx cfg s = Ok (r, s') -> cq_step s 0 s'
| step_drain recycle s r s' : drain_and_proccess cfg recycle s = Ok (r, s') -> cq_step s 0 s'
| step_return s p l b s' : chain (store_of s) (Some p) (p :: l) -> (forall q, q ∈ p :: l -> q ∈ kept (ring s)) ->
    store_of s !! p = Some b -> n_ref_count b <= 1 -> pbuf_ref b <= 1 ->
    reclaim_recv_buffers cfg [p] (set_ring (store_of s) (take_back (p :: l) (ring s)) s) = Ok s' -> cq_step s 0 s'
| step_add_qp s s' : rq s = [] -> cqes s = [] -> wr_array s = [] -> debt s = 0 -> add_qp_rx cfg s = Ok s' -> cq_step s 0 s'
| step_del_qp s s' : del_qp_rx cfg s = Ok s' -> cq_step s 0 s'.

Inductive cq_reaches (s0 : cq_mgr A) : Z -> cq_mgr A -> Prop :=
| reaches_start : cq_reaches s0 0 s0
| reaches_step n m s s' : cq_reaches s0 n s -> cq_step s m s' -> cq_reaches s0 (n + m) s'.

Lemma complete_ok n s e p l1 l2 : cq_inv n s -> rq s = l1 ++ p :: l2 -> wr_id e = Some p -> cqe_ok e ->
  cq_inv (n + 1) (set_cqes (cqes s ++ [e]) (set_posted (wr_array s) (l1 ++ l2) s)).
Proof.
  intros (k & Hk & Hkn & [(L & H1 & H2 & H3) H4 H5 H6 H7 H8 H9 H10 H11 H12]) Er Ep He. exists k. split; [done|].
  simpl. rewrite length_app. simpl. split; [lia|].
  assert (mine (set_cqes (cqes s ++ [e]) (set_posted (wr_array s) (l1 ++ l2) s)) ≡ₚ mine s) as Hm.
  { unfold mine. simpl. rewrite Er, omap_app. simpl. rewrite Ep. solve_Permutation. }
  split; try done; simpl.
  - exists L. split_and!; try done. rewrite <- H2, Hm. done.
  - eapply Permutation_Forall; [|exact H4]. by rewrite Hm.
  - rewrite Er in H9. rewrite !length_app in *. simpl in *. lia.
  - apply Forall_app. by split; [|constructor].
Qed.

Lemma take_back_ok k c X Y V s l : cq_ok k c X Y V s -> NoDup l -> (forall q, q ∈ l -> q ∈ kept (ring s)) ->
  cq_ok k c X Y (l ++ V) (set_ring (store_of s) (take_back l (ring s)) s).
Proof.
  intros [(L & H1 & H2 & H3) H4 H5 H6 H7 H8 H9 H10 H11 H12] Hn Hl. destruct (take_back_law l (ring s) H8) as [Hg Hk].
  assert (elements (kept (ring s)) ≡ₚ l ++ elements (kept (ring s) ∖ list_to_set l)) as Ek.
  { rewrite <- (elements_list_to_set (C := gset ptr) l) at 1 by done. rewrite <- elements_disj_union by set_solver.
    assert (list_to_set l ∪ kept (ring s) ∖ list_to_set l = kept (ring s)) as ->; [|done]. apply set_eq. intros q. destruct (decide (q ∈ l)); set_solver. }
  split; simpl; rewrite ?Hk; try done.
  - exists L. split; [by destruct (world_ s)|]. split; [|done]. rewrite <- H2, Ek. change (mine (set_ring _ _ s)) with (mine s). solve_Permutation.
  - apply Forall_app. split; [|done]. apply Forall_forall. intros q Hq. by apply H6, Hl.
  - intros q Hq. apply H6. set_solver.
  - apply Forall_app in H7 as [G1 [G2 G3]%Forall_app]. apply Forall_app. split; [done|]. apply Forall_app. split; [done|]. apply Forall_app. split; [|done].
    apply Forall_forall. intros q Hq. exact (proj2 (H6 q (Hl q Hq))).
Qed.

(** A buffer, with the list behind it, comes back. *)
Lemma cq_returned_ok k s p l b : 0 <= k -> cq_ok k 0 [] [] [] s -> chain (store_of s) (Some p) (p :: l) -> (forall q, q ∈ p :: l -> q ∈ kept (ring s)) ->
  store_of s !! p = Some b -> n_ref_count b <= 1 -> pbuf_ref b <= 1 ->
  exists s', reclaim_recv_buffers cfg [p] (set_ring (store_of s) (take_back (p :: l) (ring s)) s) = Ok s' /\ cq_ok k 0 [] [] [] s' /\ cqes s' = cqes s.
Proof.
  intros Hk H Hc Hl Hb Hn1 Hp1. assert (received_here s p) as Hrec by (by apply (ok_kept _ _ _ _ _ _ H), Hl; left).
  pose proof (take_back_ok k 0 [] [] [] s (p :: l) H (chain_NoDup _ _ _ Hc) Hl) as H1. unfold reclaim_recv_buffers. cbn [reclaim_recv_buffers_no_lock].
  destruct (reclaim_own_ok k 0 [] [] [] _ p l b Hk H1 Hc Hb Hn1 Hp1 Hrec) as (s1 & E1 & H2). rewrite E1. cbn [mbind res_bind].
  destruct (return_extra_ok k 0 [] [] [] s1 H2) as (s2 & E2 & H3 & Q & _). exists s2. split; [done|]. split; [done|]. apply reclaim_cqes in E1. by rewrite Q, E1.
Qed.

Lemma cq_step_ok n m s s' : n + m < 2 ^ 31 -> 0 <= m_rx_num_wr cfg -> cq_step s m s' -> cq_inv n s -> cq_inv (n + m) s'.
Proof.
  intros Hn Hm Hs H. destruct Hs as [s e p l1 l2 Er Ep He|s r s' E|recycle s r s' E|s p l b s' Hc Hl Hb Hn1 Hp1 E|s s' E1 E2 E3 E4 E|s s' E].
  - by eapply complete_ok.
  - rewrite Z.add_0_r in *. destruct (poll_rx_ok n s Hn H) as (r' & s2 & E' & H'). congruence.
  - rewrite Z.add_0_r in *. destruct (drain_ok recycle n s Hn H) as (r' & s2 & E' & H'). congruence.
  - rewrite Z.add_0_r. destruct H as (k & Hk & Hkn & H). destruct (cq_returned_ok k s p l b Hk H Hc Hl Hb Hn1 Hp1) as (s2 & E2 & H2 & Q). rewrite E2 in E. injection E as <-.
    exists k. by rewrite Q.
  - rewrite Z.add_0_r. destruct (add_qp_ok n s Hm E1 E2 E3 E4 H) as (s2 & E' & H'). rewrite E' in E. injection E as <-. apply H'.
    unfold add_qp_rx in E'. apply bind_Ok in E' as (s1 & E5 & E'). injection E' as <-. apply fill_qp_cqes in E5. simpl. congruence.
  - rewrite Z.add_0_r. destruct H as (k & Hk & Hkn & H). destruct (return_extra_ok k 0 [] [] [] s H) as (s2 & E2 & H3 & Q & Q2 & Q3).
    unfold del_qp_rx in E. rewrite E2 in E. cbn [mbind res_bind] in E. injection E as <-. exists k. simpl. rewrite Q. split_and!; try done.
    destruct H3 as [F1 F4 F5 F6 F7 F8 F9 F10 F11 F12]. split; try done. simpl. lia.
Qed.

(** Everything is in the global pool. *)
Record at_rest s : Prop := AtRest {
  ar_pool : exists L, pool_ok (Z.of_nat (length T)) (world_ s) L /\ L ≡ₚ T /\ Forall (fun q => exists b, store_of s !! q = Some b /\ idle 0 b) L;
  ar_ring : good (ring s) /\ kept (ring s) = ∅;
  ar_empty : mine s = [] /\ debt s = 0 /\ cqes s = []
}.

Lemma reaches_ok s0 n s : 0 <= m_rx_num_wr cfg -> at_rest s0 -> cq_reaches s0 n s -> n < 2 ^ 31 -> cq_inv n s /\ 0 <= n.
Proof.
  intros Hm [(L & H1 & H2 & H3) [Hg Hk] (He & Hd & Hq)]. induction 1 as [|n m s s' _ IH Hs]; intros Hn.
  - split; [|lia]. exists 0. rewrite Hq. split_and!; [done..|]. pose proof (co_post Hcfg). unfold mine in He.
    apply app_eq_nil in He as [E1 [E2 [E3 [E4 E5]%app_eq_nil]%app_eq_nil]%app_eq_nil]. split; rewrite ?Hk, ?E1, ?E2, ?E3, ?E4, ?Hq, ?Hd; try done; simpl; try lia.
    + exists L. split_and!; try done. unfold mine. rewrite E1, E2, E3, E4, E5, elements_empty. simpl. by rewrite app_nil_r.
    + unfold mine. by rewrite E1, E2, E3, E4, E5.
  - assert (0 <= m) by (destruct Hs; lia). destruct IH as [IH Hpos]; [lia|]. split; [|lia]. by eapply cq_step_ok.
Qed.

(** C5: No receive buffer is lost or used twice.  Let the adapter complete
    posted buffers, with success or error, with packets that the ring accepts
    by its laws (for the receive path of [RxPath]: packets of any bytes that
    are no fragments and whose checksum the adapter verified).  However polls,
    drains, the returns of buffers by those who have them, and the attachment
    and removal of the queue pair follow each other, every buffer of the global
    pool is at each time in exactly one place: in that pool, in the queue or
    the pool of this completion queue, posted, completed, or with somebody that
    the ring gave it to.  The receive queue is never overfilled, and each of
    these calls returns: polls and drains, a returned buffer with the list
    behind it, and the attachment (to an empty receive queue) and removal of
    the queue pair. *)
Theorem cq_conserves s0 n s : 0 <= m_rx_num_wr cfg -> at_rest s0 -> cq_reaches s0 n s -> n < 2 ^ 31 ->
  (exists L, pool_list (world_ s) L /\ L ++ mine s ++ elements (kept (ring s)) ≡ₚ T) /\
  Z.of_nat (length (rq s) + length (cqes s) + length (wr_array s)) + debt s <= m_rx_num_wr cfg /\
  (exists r s', poll_and_process_element_rx cfg s = Ok (r, s')) /\ (forall recycle, exists r s', drain_and_proccess cfg recycle s = Ok (r, s')) /\
  (forall p l b, chain (store_of s) (Some p) (p :: l) -> (forall q, q ∈ p :: l -> q ∈ kept (ring s)) ->
     store_of s !! p = Some b -> n_ref_count b <= 1 -> pbuf_ref b <= 1 ->
     exists s', reclaim_recv_buffers cfg [p] (set_ring (store_of s) (take_back (p :: l) (ring s)) s) = Ok s') /\
  (rq s = [] -> cqes s = [] -> wr_array s = [] -> debt s = 0 -> exists s', add_qp_rx cfg s = Ok s') /\
  exists s', del_qp_rx cfg s = Ok s'.
Proof.
  intros Hm H0 Hr Hn. destruct (reaches_ok s0 n s Hm H0 Hr Hn) as [H _]. pose proof H as (k & Hk & Hkn & Hok).
  split_and!.
  - destruct (ok_free _ _ _ _ _ _ Hok) as (L & H1 & H2 & _). exists L. split; [apply H1|]. rewrite <- H2. simpl. done.
  - pose proof (ok_room _ _ _ _ _ _ Hok). lia.
  - destruct (poll_rx_ok n s Hn H) as (r & s' & ? & _). eauto.
  - intros recycle. destruct (drain_ok recycle n s Hn H) as (r & s' & ? & _). eauto.
  - intros p l b Hc Hl Hb Hn1 Hp1. destruct (cq_returned_ok k s p l b Hk Hok Hc Hl Hb Hn1 Hp1) as (s' & E & _). eauto.
  - intros E1 E2 E3 E4. destruct (add_qp_ok n s Hm E1 E2 E3 E4 H) as (s' & ? & _). eauto.
  - destruct (return_extra_ok k 0 [] [] [] s Hok) as (s' & E & _). unfold del_qp_rx. rewrite E. by eexists.
Qed.

(** ** What a poll posts *)

Lemma post_recv_buffer_posted p s s' : post_recv_buffer cfg p s = Ok s' -> rq s' ++ wr_array s' = (rq s ++ wr_array s) ++ [p].
Proof. unfold post_recv_buffer. repeat case_match; intros [= <-]; simpl; by rewrite ?app_nil_r, <- ?app_assoc. Qed.

Lemma post_recv_buffers_posted n : forall l s l' s', post_recv_buffers cfg n l s = Ok (l', s') ->
  l' = drop n l /\ rq s' ++ wr_array s' = (rq s ++ wr_array s) ++ take n l.
Proof.
  induction n as [|n IH]; intros l s l' s' E; cbn [post_recv_buffers] in E; [injection E as <- <-; by rewrite take_0, app_nil_r|].
  destruct l as [|p l]; [done|]. apply bind_Ok in E as (s1 & E1 & E). apply post_recv_buffer_posted in E1. apply IH in E as [-> E]. split; [done|].
  rewrite E, E1, <- app_assoc. done.
Qed.

Lemma refill_posted s s' : refill cfg s = Ok s' ->
  rq s' ++ wr_array s' = (rq s ++ wr_array s) ++ take (Z.to_nat (Z.min (debt s) (Z.of_nat (length (m_rx_pool s))))) (m_rx_pool s).
Proof. unfold refill. intros E. apply bind_Ok in E as ([l s1] & E1 & E). injection E as <-. by apply post_recv_buffers_posted in E1 as [_ E1]. Qed.

(** The buffers that a poll can post: its own, or as many of the global pool
    as one request brings, if it has none itself. *)
Definition at_hand (L : list ptr) s : list ptr :=
  match m_rx_pool s with
  | [] => if m_n_sysvar_qp_compensation_level cfg <=? Z.of_nat (length L) then take (Z.to_nat (m_n_sysvar_qp_compensation_level cfg)) L else []
  | l => l
  end.

Lemma have_buffers_at_hand L s : pool_ok (Z.of_nat (length T)) (world_ s) L -> exists ok s', have_buffers cfg s = Ok (ok, s') /\
  m_rx_pool s' = at_hand L s /\ debt s' = debt s /\ rq s' = rq s /\ wr_array s' = wr_array s /\ (ok = false -> at_hand L s = []).
Proof.
  intros Hp. unfold have_buffers, at_hand. destruct (m_rx_pool s) as [|p l] eqn:E; [|by exists true, s].
  unfold request_more_buffers. rewrite E. destruct (world_ s) as [m bp].
  destruct (get_buffers_spec _ m bp L [] (Some (m_p_ring cfg)) _ (m_rx_lkey cfg) Hp (co_level Hcfg)) as (m' & bp' & -> & _). cbn [mbind res_bind].
  eexists _, _. split; [done|]. split_and!; try done. by intros ->.
Qed.

(** C32: The receive queue is refilled: a poll that finds nothing to do posts
    as many buffers as it owes to the adapter, in order, or all that it has at
    hand; those are the ones of its own pool, or, when that is empty, those of
    one request to the global pool.  The rest stays in its own pool, and what
    it owes goes down by what it posted. *)
Theorem cq_refills s0 n s : 0 <= m_rx_num_wr cfg -> at_rest s0 -> cq_reaches s0 n s -> n < 2 ^ 31 -> m_rx_queue s = [] -> cqes s = [] ->
  exists L s', pool_list (world_ s) L /\ poll_and_process_element_rx cfg s = Ok (0, s') /\
  if debt s =? 0 then s' = s
  else
    let posted := Z.to_nat (Z.min (debt s) (Z.of_nat (length (at_hand L s)))) in
    rq s' ++ wr_array s' = (rq s ++ wr_array s) ++ take posted (at_hand L s) /\ m_rx_pool s' = drop posted (at_hand L s) /\
    debt s' = debt s - Z.of_nat posted.
Proof.
  intros Hm H0 Hr Hn Eq Ec. destruct (reaches_ok s0 n s Hm H0 Hr Hn) as [(k & Hk & Hkn & Hok) _]. unfold poll_and_process_element_rx.
  cbn [process_recv_queue]. rewrite Eq. cbn [length process_recv_queue mbind res_bind]. pose proof (co_batch Hcfg) as Hb.
  destruct (Z.leb_spec (m_n_sysvar_cq_poll_batch_max cfg) 0); [lia|]. unfold poll. rewrite Ec, take_nil, drop_nil.
  assert (set_cqes [] s = s) as -> by (destruct s; simpl in *; by subst). simpl.
  destruct (ok_free _ _ _ _ _ _ Hok) as (L & HL & _). exists L. unfold compensate_qp_poll_failed. destruct (Z.eqb_spec (debt s) 0) as [Ed|Hd]; [exists s; by split; [apply HL|]|].
  destruct (have_buffers_at_hand L s HL) as (ok & s1 & E1 & P1 & D1 & R1 & W1 & F1).
  destruct (have_buffers_ok k 0 [] [] [] s Hok) as (ok' & s1' & E1' & H1 & _). rewrite E1 in E1'. injection E1' as <- <-. rewrite E1. cbn [mbind res_bind]. destruct ok.
  - destruct (refill_ok k 0 [] [] [] s1 H1) as (s2 & E2 & H2 & G1 & G2); [lia|]. rewrite E2. cbn [mbind res_bind]. exists s2. split; [apply HL|]. split; [done|].
    apply refill_posted in E2. rewrite P1, D1, R1, W1 in *. split_and!; [done|done|]. rewrite G1. pose proof (ok_debt _ _ _ _ _ _ Hok). lia.
  - rewrite (F1 eq_refl) in *. cbn [mbind res_bind length]. exists s1. split; [apply HL|]. split; [done|]. rewrite take_nil, drop_nil, app_nil_r, R1, W1, D1.
    split_and!; [done|done|]. pose proof (ok_debt _ _ _ _ _ _ Hok). lia.
Qed.

End Conserve.

(** ** The receive path as the ring *)

Definition is_eth_tcp_frame (buffer : ptr -> list Z) (p : ptr) : res bool :=
  proto ← rd16 buffer p 12;
  x ← (if proto =? ntohs ETH_P_8021Q then proto ← rd16 buffer p (ETH_HDR_LEN + 2); Ok (ETH_VLAN_HDR_LEN, proto) else Ok (ETH_HDR_LEN, proto));
  let '(transport_header_len, proto) := x : Z * Z in
  protocol ← rd8 buffer p (transport_header_len + 9);
  Ok ((proto =? ntohs ETH_P_IP) && (protocol =? IPPROTO_TCP)).

Definition is_ib_tcp_frame (buffer : ptr -> list Z) (p : ptr) : res bool :=
  h ← rd32 buffer p GRH_HDR_LEN;
  if negb (h =? 8) then Ok false
  else protocol ← rd8 buffer p (GRH_HDR_LEN + IPOIB_HDR_LEN + 9); Ok (protocol =? IPPROTO_TCP).

(** What the ring knows of the buffers: their bytes, the members [rx] of
    their descriptors, and who was given which. *)
Record rx_state (B : Type) := RxState {
  fragments : ip_frag_manager;
  memory : ptr -> list Z;
  descs : gmap ptr rx_desc;
  given : gset ptr;
  sockets : B
}.
Arguments RxState {B}.
Arguments fragments {B}.
Arguments memory {B}.
Arguments descs {B}.
Arguments given {B}.
Arguments sockets {B}.

Section Instance.
Context {B : Type} (cfg : ring_cfg) (m_partition m_local_if : Z) (get_sockfd : Z -> option sink) (igmp_mgr : bool) (r : ring_simple).
Context (rx_input_cb : ptr -> option rx_desc -> sink -> B -> bool * B) (gro_dispatch : rfs -> ptr -> B -> bool * Z * B) (process_igmp_packet : ptr -> B -> B).

Definition blank : rx_desc := RxDesc 0 0 0 0 0 0 0 l4_none 0 0 false.
Definition desc_of (a : rx_state B) (p : ptr) : rx_desc := default blank (descs a !! p).

(** Every descriptor of the store has a member [rx]. *)
Definition rx_of (m : bufs) (a : rx_state B) : gmap ptr rx_desc := map_imap (fun p _ => Some (desc_of a p)) m.

Definition ring_process (p : ptr) (m : bufs) (a : rx_state B) : res (bool * bufs * rx_state B) :=
  x ← rx_process_buffer rx_input_cb gro_dispatch process_igmp_packet cfg m_partition m_local_if get_sockfd (memory a) igmp_mgr p r
        (RxWorld (set_bufs m (fragments a)) (rx_of m a)) (sockets a);
  let '(ret, w, b) := x : bool * rx_world * B in
  Ok (ret, bufs_ (frag_mgr w), RxState (frag_mgr w) (memory a) (rx w) (if ret : bool then {[p]} ∪ given a else given a) b).

Definition set_rx (p : ptr) (d : rx_desc) (a : rx_state B) : rx_state B :=
  RxState (fragments a) (memory a) (<[p := d]> (descs a)) (given a) (sockets a).

Definition ring_received (p : ptr) (csum : bool) (d : list Z) (a : rx_state B) : rx_state B :=
  let x := desc_of a p in
  let x := RxDesc (src_addr x) (src_port x) (dst_addr x) (dst_port x) (iov_base x) (iov_len x) (sz_payload x) (l4 x) (n_frags x) (rx_flow_tag_id x) csum in
  set_rx p x (RxState (fragments a) (fun q => if decide (q = p) then d else memory a q) (descs a) (given a) (sockets a)).

Definition ring_reset (p : ptr) (a : rx_state B) : rx_state B :=
  let x := desc_of a p in
  set_rx p (RxDesc (src_addr x) (src_port x) (dst_addr x) (dst_port x) (iov_base x) (iov_len x) (sz_payload x) l4_none (n_frags x) 0 (is_sw_csum_need x)) a.

Definition ring_tcp_frame (p : ptr) (a : rx_state B) : res bool :=
  if m_transport_type cfg =? CacheTable.NeighTable.VMA_TRANSPORT_ETH then is_eth_tcp_frame (memory a) p
  else if m_transport_type cfg =? CacheTable.NeighTable.VMA_TRANSPORT_IB then is_ib_tcp_frame (memory a) p
  else Ok false.

(** Without streams to merge there is nothing to flush. *)
#[local] Instance rx_ring : RxRing (rx_state B) := {
  kept := given;
  rx_process := ring_process;
  rx_received := ring_received;
  rx_reset := ring_reset;
  is_tcp_frame := ring_tcp_frame;
  gro_flush_all m a := Ok (m, a);
  take_back l a := RxState (fragments a) (memory a) (descs a) (given a ∖ list_to_set l) (sockets a)
}.

(** A packet of any bytes that is no fragment. *)
Definition plain (d : list Z) : Prop :=
  Forall is_byte d /\ MAX_HEADERS <= Z.of_nat (length d) /\
  forall hdr h, transport_header cfg m_partition (fun _ => d) 1 = Ok (Some hdr) -> read_iphdr (fun _ => d) 1 hdr = Ok h -> whole h.

Definition ring_good (a : rx_state B) : Prop := forall p, plain (memory a p) /\ is_sw_csum_need (desc_of a p) = false.

Lemma ring_good_any p m a b : ring_good a -> m !! p = Some b -> any_packet cfg m_partition (memory a) p (RxWorld (set_bufs m (fragments a)) (rx_of m a)).
Proof.
  intros Hg Hb. destruct (Hg p) as [(H1 & H2 & H3) H4]. split; [done|done| |exact H3]. exists (desc_of a p). split; [|done].
  simpl. unfold rx_of. by rewrite map_lookup_imap, Hb.
Qed.

Lemma set_rx_good p d a : ring_good a -> is_sw_csum_need d = false -> ring_good (set_rx p d a).
Proof.
  intros Hg Hd q. split; [apply Hg|]. unfold desc_of. simpl. destruct (decide (q = p)) as [->|Hq].
  - by rewrite lookup_insert_eq.
  - rewrite lookup_insert_ne by done. apply (Hg q).
Qed.

Context (gro_refs : forall f p a, (gro_dispatch f p a).1.1 = false -> 0 <= (gro_dispatch f p a).1.2 <= 1).

(** The receive path keeps the promises of the interface. *)

Lemma ring_process_law p m a b : ring_good a -> m !! p = Some b -> p_next_desc b = None -> n_ref_count b <= 1 -> pbuf_ref b <= 1 -> p ∉ given a ->
  exists ret m' a', ring_process p m a = Ok (ret, m', a') /\ ring_good a' /\ given a' = (if ret then {[p]} ∪ given a else given a) /\
    (forall q, q ∉ given a -> q <> p -> m' !! q = m !! q) /\ (forall q, owner_of m' q = owner_of m q) /\
    (ret = false -> exists b', m' !! p = Some b' /\ p_next_desc b' = None /\ pbuf_ref b' <= 1 /\ Z.min 0 (n_ref_count b) <= n_ref_count b' <= 1).
Proof.
  intros Hg Hb Hn Hr Hp Hk. unfold ring_process.
  destruct (rx_any_packet_ok cfg m_partition m_local_if get_sockfd (memory a) igmp_mgr rx_input_cb gro_dispatch process_igmp_packet gro_refs p r
    (RxWorld (set_bufs m (fragments a)) (rx_of m a)) b (sockets a)) as ([[ret w] c] & -> & Hc & Hq & b' & Hb' & Hn' & Hp' & Ho' & Hr'); [by eapply ring_good_any|done..|].
  cbn [mbind res_bind]. simpl in *. eexists _, _, _. split; [done|]. split_and!.
  - intros q. split; [apply Hg|]. unfold desc_of. simpl. specialize (Hc q). simpl in Hc. unfold rx_of in Hc. rewrite map_lookup_imap in Hc.
    destruct (rx w !! q) as [d|]; [|done]. simpl in *. destruct (m !! q); [|done]. simpl in Hc. injection Hc as ->. apply (Hg q).
  - by destruct ret.
  - intros q _ Hne. by apply Hq.
  - intros q. unfold owner_of. destruct (decide (q = p)) as [->|Hne]; [rewrite Hb, Hb'; simpl; by rewrite Ho'|by rewrite Hq].
  - intros ->. exists b'. split_and!; [done|congruence|lia|by apply Hr'..].
Qed.

Lemma ring_received_law p c d a : ring_good a -> c = false /\ plain d -> ring_good (ring_received p c d a) /\ given (ring_received p c d a) = given a.
Proof.
  intros Hg [-> Hd]. split; [|done]. apply set_rx_good; [|done]. intros q. split; [|apply (Hg q)]. simpl. case_decide; [done|]. apply (Hg q).
Qed.

Lemma ring_reset_law p a : ring_good a -> ring_good (ring_reset p a) /\ given (ring_reset p a) = given a.
Proof. intros Hg. split; [|done]. apply set_rx_good; [done|]. apply (Hg p). Qed.

Lemma ring_tcp_frame_law p a : ring_good a -> exists b, ring_tcp_frame p a = Ok b.
Proof.
  intros Hg. unfold ring_tcp_frame. destruct (Hg p) as [(H1 & H2 & _) _]. unfold MAX_HEADERS in *.
  assert (forall (x : res bool), returns (fun _ => True) x -> exists b, x = Ok b) as Hret by (intros x (b & -> & _); eauto).
  destruct (_ =? _); [apply Hret; unfold is_eth_tcp_frame|destruct (_ =? _); [apply Hret; unfold is_ib_tcp_frame|by eexists]];
    unfold ETH_HDR_LEN, ETH_VLAN_HDR_LEN, GRH_HDR_LEN, IPOIB_HDR_LEN.
  - eapply returns_bind; [apply rd16_total; [done|lia..]|]. intros proto _. eapply (returns_bind (fun x : Z * Z => 0 <= x.1 <= 18)).
    + destruct (_ =? _); [eapply returns_bind; [apply rd16_total; [done|lia..]|]; intros ? _|]; apply returns_Ok; simpl; lia.
    + intros [h pr] Hx. simpl in Hx. eapply returns_bind; [apply rd8_total; [done|lia]|]. intros ? _. by apply returns_Ok.
  - eapply returns_bind; [apply rd32_total; [done|lia..]|]. intros h _. destruct (negb _); [by apply returns_Ok|].
    eapply returns_bind; [apply rd8_total; [done|lia]|]. intros ? _. by apply returns_Ok.
Qed.

#[local] Instance rx_ring_laws : RxRingLaws (rx_state B).
Proof.
  refine {| good := ring_good; allowed c d := c = false /\ plain d;
    rx_process_law := ring_process_law; rx_received_law := ring_received_law; is_tcp_frame_law := ring_tcp_frame_law; rx_reset_law := ring_reset_law |}.
  - intros m a Hg. exists m, a. by split_and!.
  - by intros l a Hg.
Defined.

End Instance.

(** ** A small queue *)

Module CqExample.

Definition cfg : cq_cfg := CqCfg 1 9 0 1 1 16 100 false false false 2.
Definition bufs_list : list ptr := [1; 2; 3; 4]%positive.

(** The receive path with socket 3 attached. *)
#[local] Instance example_ring : RxRing (rx_state unit) :=
  rx_ring RxExample.eth_cfg 0 RxExample.local_if Some true RxExample.ring (fun _ _ _ b => (true, b)) (fun _ _ b => (false, 0, b)) (fun _ b => b).
#[local] Instance example_laws : RxRingLaws (rx_state unit).
Proof. apply rx_ring_laws. intros. simpl. lia. Defined.

Definition packet (l4 : list Z) (h : iphdr) : list Z := l2_bytes (l2_eth RxExample.mac) ++ ip_bytes h 0 64 0 [] ++ l4 ++ replicate 130 0.

Definition pool0 : world := match new_buffer_pool bufs_list None ∅ with Ok w => w | _ => (∅, BufferPool 0 0 None (BpoolStats false false 0 0)) end.
Definition hole : ip_frag_hole_desc := Hole 0 0 None None.
Definition start : cq_mgr (rx_state unit) :=
  Cq pool0 (RxState (new_ip_frag_manager ∅ (Desc 0 0 [] None 0) hole) (fun _ => packet [] (RxExample.header [])) ∅ ∅ tt) ∅ [] [] false 0 [] [] [] 0 false 0.

Lemma cfg_fine : cfg_ok cfg bufs_list.
Proof. split; try (vm_compute; lia || done). apply (bool_decide_unpack _). by vm_compute. Qed.

Lemma packet_plain l4 h : Forall is_byte l4 -> h = RxExample.header [] -> plain RxExample.eth_cfg 0 (packet l4 h).
Proof.
  intros Hl ->. split; [|split].
  - unfold packet. repeat (apply Forall_app; split); try done; apply (bool_decide_unpack _); by vm_compute.
  - unfold packet, MAX_HEADERS. rewrite !length_app, length_replicate. lia.
  - intros hdr h Ht Hr. vm_compute in Ht. injection Ht as <-. vm_compute in Hr. injection Hr as <-. done.
Qed.

Lemma start_rests : at_rest bufs_list start.
Proof.
  split.
  - exists [4; 3; 2; 1]%positive. split; [|split; [apply Permutation_sym, Permutation_rev|]].
    + split; [split; [|by vm_compute]|by vm_compute]. simpl. repeat (split; [by vm_compute|]; eexists; split; [vm_compute; reflexivity|]). by vm_compute.
    + repeat constructor; (eexists; split; [vm_compute; reflexivity|]); vm_compute; done.
  - split; [|done]. intros p. split; [by apply packet_plain|done].
  - done.
Qed.

Definition ok_or (s : cq_mgr (rx_state unit)) (x : res (Z * cq_mgr (rx_state unit))) : cq_mgr (rx_state unit) :=
  match x with Ok (_, s') => s' | _ => s end.

(** The queue pair is filled with buffers 4 and 3; a datagram comes in 4. *)
Definition filled : cq_mgr (rx_state unit) := match add_qp_rx cfg start with Ok s => s | _ => start end.
Definition udp_cqe : vma_ibv_wc := Wce (Some 4%positive) true true true 45 (packet (udp_bytes 7 (ntohs 5000) (ntohs 11) 0 ++ [1; 2; 3]) (RxExample.header [])).
Definition completed : cq_mgr (rx_state unit) := set_cqes [udp_cqe] (set_posted [] [3%positive] filled).
Definition polled : cq_mgr (rx_state unit) := ok_or completed (poll_and_process_element_rx cfg completed).

Lemma poll_returns : poll_and_process_element_rx cfg completed = Ok (1, polled).
Proof. by vm_compute. Qed.

Lemma reaches_polled : cq_reaches cfg start 1 polled.
Proof.
  change 1 with (0 + 0 + 1 + 0). eapply reaches_step; [eapply reaches_step; [eapply reaches_step; [apply reaches_start|]|]|].
  - apply (step_add_qp cfg start filled); by vm_compute.
  - apply (step_complete cfg filled udp_cqe 4 [] [3%positive]); [by vm_compute|done|]. split; [by eexists|]. split; [done|]. split; [done|].
    apply packet_plain; [|done]. apply (bool_decide_unpack _). by vm_compute.
  - apply (step_poll cfg completed 1 polled). apply poll_returns.
Qed.

(** The socket has the buffer, and another one was posted. *)
Lemma cq_conserves_witness : kept (ring polled) = {[4%positive]} /\
  exists L, pool_list (world_ polled) L /\ L ++ mine polled ++ elements (kept (ring polled)) ≡ₚ bufs_list.
Proof.
  split; [by vm_compute|]. apply (cq_conserves cfg bufs_list cfg_fine start 1 polled); [by vm_compute|apply start_rests|apply reaches_polled|done].
Defined.

(** Work requests are posted two at a time: one buffer is owed, the poll that
    finds nothing takes it from the global pool and adds it to the array. *)
Definition cfg2 : cq_cfg := CqCfg 1 9 0 2 1 16 100 false false false 2.
Definition filled2 : cq_mgr (rx_state unit) := match add_qp_rx cfg2 start with Ok s => s | _ => start end.
Definition completed2 : cq_mgr (rx_state unit) := set_cqes [udp_cqe] (set_posted [] [3%positive] filled2).
Definition polled2 : cq_mgr (rx_state unit) := ok_or completed2 (poll_and_process_element_rx cfg2 completed2).

Lemma cfg2_fine : cfg_ok cfg2 bufs_list.
Proof. split; try (vm_compute; lia || done). apply (bool_decide_unpack _). by vm_compute. Qed.

Lemma reaches_polled2 : cq_reaches cfg2 start 1 polled2.
Proof.
  change 1 with (0 + 0 + 1 + 0). eapply reaches_step; [eapply reaches_step; [eapply reaches_step; [apply reaches_start|]|]|].
  - apply (step_add_qp cfg2 start filled2); by vm_compute.
  - apply (step_complete cfg2 filled2 udp_cqe 4 [] [3%positive]); [by vm_compute|done|]. split; [by eexists|]. split; [done|]. split; [done|].
    apply packet_plain; [|done]. apply (bool_decide_unpack _). by vm_compute.
  - apply (step_poll cfg2 completed2 1 polled2). by vm_compute.
Qed.

Lemma cq_refills_witness : debt polled2 = 1 /\ exists L s', pool_list (world_ polled2) L /\ poll_and_process_element_rx cfg2 polled2 = Ok (0, s') /\
  rq s' ++ wr_array s' = [3%positive] ++ take 1 L /\ debt s' = 1 - Z.of_nat (length (take 1 L)).
Proof.
  split; [by vm_compute|]. destruct (cq_refills cfg2 bufs_list cfg2_fine start 1 polled2) as (L & s' & H1 & H2 & H3);
    [by vm_compute|apply start_rests|apply reaches_polled2|done|by vm_compute|by vm_compute|]. exists L, s'. split; [exact H1|]. split; [exact H2|].
  change (debt polled2) with 1 in H3. change (rq polled2) with [3%positive] in H3. change (wr_array polled2) with (@nil ptr) in H3.
  change (at_hand cfg2 L polled2) with (if 1 <=? Z.of_nat (length L) then take 1 L else []) in H3. cbn [Z.eqb] in H3.
  destruct L as [|q L]; [|rewrite (proj2 (Z.leb_le 1 (Z.of_nat (length (q :: L))))) in H3 by (cbn [length]; lia)];
    destruct H3 as (E1 & _ & E2); (split; [exact E1|exact E2]).
Defined.

(** Two fragments of a datagram that nobody wants: the ring says that the
    buffer can be reused, and the caller takes back the one that it passed,
    the second fragment.  The first one, at the head of the reassembled list,
    is in no pool, and still linked to the buffer that is in the pool. *)
Definition frag_header (off : Z) : iphdr := IpHdr 1 20 10 17 (ntohs off) (ntohs 28) 5.
Definition frag_cqe (p : ptr) (off : Z) : vma_ibv_wc := Wce (Some p) true true true 42 (packet (udp_bytes 7 (ntohs 6000) (ntohs 16) 0) (frag_header off)).
Definition fragmented : cq_mgr (rx_state unit) := set_cqes [frag_cqe 4 8192; frag_cqe 3 1] (set_posted [] [] filled).

Lemma fragments_leak : (let '(s) := ok_or fragmented (poll_and_process_element_rx cfg fragmented) in
  (m_rx_pool s, rq s, m_frags (fragments (ring s)), p_next_desc <$> fst (world_ s) !! 4%positive)) =
  ([3%positive], [2%positive; 1%positive], [], Some (Some 3%positive)).
Proof. by vm_compute. Qed.

End CqExample.
