(* ===== verification/Gro.v ===== *)
(** * Generic receive offload (src/vma/dev/gro_mgr.cpp, rfs_uc_tcp_gro.cpp)

    The object of a connected TCP flow may hold segments back and hand
    consecutive ones to its socket as one packet: a chain of buffers behind
    the first one, whose headers are rewritten when the chain is flushed.  The
    manager of a ring has a bounded number of streams that hold segments, and
    flushes them all at the end of a poll.

    The model extends the dispatch of [RxPath].  [links] are the members of a
    descriptor that only the offload uses: the embedded [pbuf] and
    [p_prev_desc].  What a socket does with a packet is a parameter that sees
    the whole store; buffers that the object returns to the ring are recorded
    in order. *)

From S2P Require Import Prelude MemBuf BufferPool IpFrag Checksum FlowSteering RxPath.

Definition MAX_AGGR_BYTE_PER_STREAM : Z := 65535.
Definition IP_H_LEN_NO_OPTIONS : Z := 5.
Definition TCP_H_LEN_NO_OPTIONS : Z := 5.
Definition TCP_H_LEN_TIMESTAMP : Z := 8.
Definition PBUF_FLAG_IS_CUSTOM : Z := 2.

(** ** Data *)

(** [pb_payload] is an offset into the buffer of the descriptor. *)
Record links := Links {
  pb_next : option ptr;
  pb_payload : Z;
  pb_len : Z;
  pb_tot_len : Z;
  p_prev_desc : option ptr;
  gro : bool;
  is_vma_thr : bool
}.

Definition set_pb_next (o : option ptr) (k : links) : links :=
  Links o (pb_payload k) (pb_len k) (pb_tot_len k) (p_prev_desc k) (gro k) (is_vma_thr k).
Definition add_tot_len (n : Z) (k : links) : links :=
  Links (pb_next k) (pb_payload k) (pb_len k) (u32 (pb_tot_len k + n)) (p_prev_desc k) (gro k) (is_vma_thr k).

(** [p_ip_h] and [p_tcp_h] are offsets into the buffer of [p_first]. *)
Record gro_mem_buf_desc := GroDesc {
  p_first : ptr;
  p_last : ptr;
  p_ip_h : Z;
  p_tcp_h : Z;
  buf_count : Z;
  next_seq : Z;
  ack : Z;
  ts_present : bool;
  tsval : Z;
  tsecr : Z;
  ip_tot_len : Z;
  wnd : Z
}.

(** The members that [rfs_uc_tcp_gro] adds to its base class. *)
Record gro_flow := GroFlow {
  base : rfs;
  m_b_active : bool;
  m_b_reserved : bool;
  m_gro_desc : option gro_mem_buf_desc
}.

Record gro_world := GroWorld {
  g_bufs : bufs;
  g_rx : gmap ptr rx_desc;
  g_links : gmap ptr links;
  memory : ptr -> list Z;
  reclaimed : list ptr
}.

(** The ring: the first [m_n_flow_count] elements of [m_p_rfs_arr], and the
    objects by the key of their flow. *)
Record gro_state (A : Type) := GroState {
  m_p_rfs_arr : list flow_key;
  flows : gmap flow_key gro_flow;
  world : gro_world;
  sockets : A
}.
Arguments GroState {A}.
Arguments m_p_rfs_arr {A}.
Arguments flows {A}.
Arguments world {A}.
Arguments sockets {A}.

Definition set_links (l : gmap ptr links) (w : gro_world) : gro_world := GroWorld (g_bufs w) (g_rx w) l (memory w) (reclaimed w).
Definition set_g_bufs (m : bufs) (w : gro_world) : gro_world := GroWorld m (g_rx w) (g_links w) (memory w) (reclaimed w).
Definition set_memory (m : ptr -> list Z) (w : gro_world) : gro_world := GroWorld (g_bufs w) (g_rx w) (g_links w) m (reclaimed w).
Definition add_reclaimed (p : ptr) (w : gro_world) : gro_world := GroWorld (g_bufs w) (g_rx w) (g_links w) (memory w) (reclaimed w ++ [p]).

Definition get_links (p : ptr) (w : gro_world) : res links := must (g_links w !! p).

(** Writing bytes into a buffer. *)
Definition write (p : ptr) (o : Z) (l : list Z) (w : gro_world) : res gro_world :=
  if (0 <=? o) && (o + Z.of_nat (length l) <=? Z.of_nat (length (memory w p)))
  then Ok (set_memory (fun q => if decide (q = p) then list_inserts (Z.to_nat o) l (memory w p) else memory w q) w)
  else Undef.

Section Gro.
Context {A : Type} (rx_input_cb : gro_world -> ptr -> sink -> A -> bool * A).
Context (m_n_flow_max m_n_buf_max mtu : Z).

Definition set_flow (k : flow_key) (f : gro_flow) (s : gro_state A) : gro_state A :=
  GroState (m_p_rfs_arr s) (<[k := f]> (flows s)) (world s) (sockets s).
Definition set_gro_world (w : gro_world) (s : gro_state A) : gro_state A := GroState (m_p_rfs_arr s) (flows s) w (sockets s).

(** ** The manager *)

Definition is_stream_max (s : gro_state A) : bool := m_n_flow_max <=? Z.of_nat (length (m_p_rfs_arr s)).

Definition reserve_stream (k : flow_key) (s : gro_state A) : bool * gro_state A :=
  if is_stream_max s then (false, s) else (true, GroState (m_p_rfs_arr s ++ [k]) (flows s) (world s) (sockets s)).

(** ** Segments *)

Definition m_n_byte_max : Z := u32 (MAX_AGGR_BYTE_PER_STREAM - mtu).

(** The TCP member of a descriptor: [p_ip_h], [p_tcp_h] and
    [n_transport_header_len]. *)
Definition tcp_info (d : rx_desc) : res (Z * Z * Z) :=
  match l4 d with l4_tcp ip tcp hdr => Ok (ip, tcp, hdr) | _ => Undef end.

Definition tcp_ip_check (p : ptr) (d : rx_desc) (p_ip_h p_tcp_h : Z) (w : gro_world) : res bool :=
  if sz_payload d =? 0 then Ok false
  else
    vihl ← rd8 (memory w) p p_ip_h;
    if negb (Z.land vihl 15 =? IP_H_LEN_NO_OPTIONS) then Ok false
    else
      flags ← rd8 (memory w) p (p_tcp_h + 13);
      if Z.testbit flags 5 || negb (Z.testbit flags 4) || Z.testbit flags 2 || Z.testbit flags 1 || Z.testbit flags 0 then Ok false
      else
        doff ← rd8 (memory w) p (p_tcp_h + 12);
        Ok ((Z.shiftr doff 4 =? TCP_H_LEN_NO_OPTIONS) || (Z.shiftr doff 4 =? TCP_H_LEN_TIMESTAMP)).

(** Two NOPs, the kind and the length of the option; the echo is not zero.
    The comparison of the time stamps has an empty branch in the source. *)
Definition timestamp_check (p : ptr) (p_tcp_h : Z) (w : gro_world) : res bool :=
  doff ← rd8 (memory w) p (p_tcp_h + 12);
  if Z.shiftr doff 4 =? TCP_H_LEN_TIMESTAMP then
    opt ← rd32 (memory w) p (p_tcp_h + 20);
    if negb (opt =? htonl (Z.lor (Z.lor (Z.shiftl 1 24) (Z.shiftl 1 16)) (Z.lor (Z.shiftl 8 8) 10))) then Ok false
    else echo ← rd32 (memory w) p (p_tcp_h + 28); Ok (negb (echo =? 0))
  else Ok true.

Definition init_gro_desc (p : ptr) (d : rx_desc) (ip tcp : Z) (w : gro_world) : res gro_mem_buf_desc :=
  tot ← rd16 (memory w) p (ip + 2); a ← rd32 (memory w) p (tcp + 8);
  seq ← rd32 (memory w) p (tcp + 4); win ← rd16 (memory w) p (tcp + 14); doff ← rd8 (memory w) p (tcp + 12);
  x ← (if Z.shiftr doff 4 =? TCP_H_LEN_TIMESTAMP then
         v ← rd32 (memory w) p (tcp + 24); e ← rd32 (memory w) p (tcp + 28); Ok (true, v, e)
       else Ok (false, 0, 0));
  let '(ts, v, e) := x : bool * Z * Z in
  Ok (GroDesc p p ip tcp 1 (u32 (htonl seq + sz_payload d)) a ts v e (ntohs tot) win).

Definition add_packet (p : ptr) (d : rx_desc) (ip tcp hdr : Z) (g : gro_mem_buf_desc) (w : gro_world) : res (gro_mem_buf_desc * gro_world) :=
  win ← rd16 (memory w) p (tcp + 14); a ← rd32 (memory w) p (tcp + 8);
  echo ← (if ts_present g then rd32 (memory w) p (tcp + 28) else Ok (tsecr g));
  tot ← rd16 (memory w) p (ip + 2);
  let g' := GroDesc (p_first g) p (p_ip_h g) (p_tcp_h g) (u32 (buf_count g + 1)) (u32 (next_seq g + sz_payload d)) a
              (ts_present g) (tsval g) echo (u16 (ip_tot_len g + sz_payload d)) win in
  m ← store p (fun b => set_pbuf PBUF_FLAG_IS_CUSTOM 1 (set_ref_count 0 b)) (g_bufs w);
  k ← get_links p w;
  let k := Links None (u64 (hdr + ntohs tot - sz_payload d)) (u16 (sz_payload d)) (u32 (sz_payload d)) (Some (p_last g)) (gro k) (is_vma_thr k) in
  let w := set_links (<[p := k]> (g_links w)) (set_g_bufs m w) in
  kl ← get_links (p_last g) w;
  m ← store (p_last g) (set_next_desc None) (g_bufs w);
  Ok (g', set_links (<[p_last g := set_pb_next (Some p) kl]> (g_links w)) (set_g_bufs m w)).

(** ** Dispatch *)

(** [rfs_uc::rx_dispatch_packet]. *)
Definition dispatch (f : rfs) (p : ptr) (s : gro_state A) : res (bool * gro_state A) :=
  let '(ret, n, a) := uc_rx_dispatch_packet (rx_input_cb (world s) p) f (sockets s) in
  m ← store p (set_ref_count n) (g_bufs (world s));
  Ok (ret, GroState (m_p_rfs_arr s) (flows s) (set_g_bufs m (world s)) a).

(** The lengths are added up from the last buffer to the first. *)
Fixpoint sum_lengths (fuel : nat) (p_desc first : ptr) (w : gro_world) : res gro_world :=
  if bool_decide (p_desc = first) then Ok w
  else match fuel with
       | O => NoFuel
       | S fuel =>
         k ← get_links p_desc w; q ← must (p_prev_desc k); kq ← get_links q w;
         sum_lengths fuel q first (set_links (<[q := add_tot_len (pb_tot_len k) kq]> (g_links w)) w)
       end.

(** The headers of the first segment speak for all of them. *)
Definition rewrite_headers (g : gro_mem_buf_desc) (w : gro_world) : res gro_world :=
  w ← write (p_first g) (p_ip_h g + 2) (bytes2 (ntohs (ip_tot_len g))) w;
  w ← write (p_first g) (p_tcp_h g + 8) (bytes4 (ack g)) w;
  w ← write (p_first g) (p_tcp_h g + 14) (bytes2 (wnd g)) w;
  w ← (if ts_present g then write (p_first g) (p_tcp_h g + 28) (bytes4 (tsecr g)) w else Ok w);
  m ← store (p_first g) (set_pbuf PBUF_FLAG_IS_CUSTOM 1) (g_bufs w);
  b ← load m (p_first g);
  d ← must (g_rx w !! p_first g);
  x ← tcp_info d;
  let hdr := snd x in
  k ← get_links (p_first g) w; kl ← get_links (p_last g) w;
  let n := u16 (sz_data b - hdr) in
  Ok (set_links (<[p_first g := Links (pb_next k) hdr n n (p_prev_desc k) true (is_vma_thr kl)]> (g_links w)) (set_g_bufs m w)).

Definition flush_gro_desc (k : flow_key) (s : gro_state A) : res (gro_state A) :=
  f ← must (flows s !! k);
  if m_b_active f then
    g ← must (m_gro_desc f);
    w ← (if 1 <? buf_count g then
           w ← rewrite_headers g (world s);
           sum_lengths (Z.to_nat (buf_count g)) (p_last g) (p_first g) w
         else Ok (world s));
    x ← dispatch (base f) (p_first g) (set_gro_world w s);
    let '(ret, s) := x : bool * gro_state A in
    let s := if ret : bool then s else set_gro_world (add_reclaimed (p_first g) (world s)) s in
    Ok (set_flow k (GroFlow (base f) false (m_b_reserved f) (m_gro_desc f)) s)
  else Ok s.

Definition flush (k : flow_key) (s : gro_state A) : res (gro_state A) :=
  s ← flush_gro_desc k s;
  f ← must (flows s !! k);
  Ok (set_flow k (GroFlow (base f) (m_b_active f) false (m_gro_desc f)) s).

Fixpoint flush_each (l : list flow_key) (s : gro_state A) : res (gro_state A) :=
  match l with [] => Ok s | k :: l => s ← flush k s; flush_each l s end.

Definition flush_all (s : gro_state A) : res (gro_state A) :=
  s ← flush_each (m_p_rfs_arr s) s; Ok (GroState [] (flows s) (world s) (sockets s)).

(** After a segment was taken: a full chain is flushed. *)
Definition flush_full (k : flow_key) (g : gro_mem_buf_desc) (s : gro_state A) : res (bool * gro_state A) :=
  if (m_n_buf_max <=? buf_count g) || (m_n_byte_max <=? ip_tot_len g)
  then s ← flush_gro_desc k s; Ok (true, s) else Ok (true, s).

Definition rx_dispatch_packet (k : flow_key) (p : ptr) (s : gro_state A) : res (bool * gro_state A) :=
  f ← must (flows s !! k);
  d ← must (g_rx (world s) !! p);
  x ← tcp_info d;
  let '(ip, tcp, hdr) := x : Z * Z * Z in
  if negb (m_b_active f) && negb (m_b_reserved f) && is_stream_max s then dispatch (base f) p s
  else
    ok ← tcp_ip_check p d ip tcp (world s);
    if negb ok then
      s ← (if m_b_active f then flush_gro_desc k s else Ok s); dispatch (base f) p s
    else if negb (m_b_active f) then
      let '(reserved, s) := if m_b_reserved f then (true, s) else reserve_stream k s in
      g ← init_gro_desc p d ip tcp (world s);
      flush_full k g (set_flow k (GroFlow (base f) true reserved (Some g)) s)
    else
      g ← must (m_gro_desc f);
      seq ← rd32 (memory (world s)) p (tcp + 4);
      ts ← (if negb (htonl seq =? next_seq g) then Ok false else timestamp_check p tcp (world s));
      if negb ts then s ← flush_gro_desc k s; dispatch (base f) p s
      else
        y ← add_packet p d ip tcp hdr g (world s);
        let '(g, w) := y : gro_mem_buf_desc * gro_world in
        flush_full k g (set_flow k (GroFlow (base f) true (m_b_reserved f) (Some g)) (set_gro_world w s)).

End Gro.

(** ** What a socket gets

    The bytes of a packet from its IP header on, with the total length that
    the stack sees: the chain of a merged packet, or one buffer. *)

Fixpoint chain_bytes (fuel : nat) (w : gro_world) (o : option ptr) : res (list Z) :=
  match o with
  | None => Ok []
  | Some p =>
    match fuel with
    | O => NoFuel
    | S fuel =>
      k ← get_links p w;
      l ← chain_bytes fuel w (pb_next k);
      Ok (take (Z.to_nat (pb_len k)) (drop (Z.to_nat (pb_payload k)) (memory w p)) ++ l)
    end
  end.

Definition packet (w : gro_world) (p : ptr) : res (Z * list Z) :=
  k ← get_links p w;
  if gro k then l ← chain_bytes (size (g_links w)) w (Some p); Ok (pb_tot_len k, l)
  else
    d ← must (g_rx w !! p); x ← tcp_info d; b ← load (g_bufs w) p;
    let n := sz_data b - snd x in
    Ok (n, take (Z.to_nat n) (drop (Z.to_nat (snd x)) (memory w p))).

(** ** Segments as bytes *)

Definition get8 (g : list Z) (i : nat) : Z := default 0 (g !! i).
Definition get16 (g : list Z) (i : nat) : Z := word (get8 g i) (get8 g (i + 1)).
Definition get32 (g : list Z) (i : nat) : Z := get16 g i + 65536 * get16 g (i + 2).

Definition ihl (g : list Z) : Z := Z.land (get8 g 0) 15.
Definition doff (g : list Z) : Z := Z.shiftr (get8 g (Z.to_nat (ihl g * 4) + 12)) 4.
Definition data_off (g : list Z) : Z := ihl g * 4 + doff g * 4.
Definition payload (g : list Z) : list Z := drop (Z.to_nat (data_off g)) g.

(** A TCP segment in an IP packet: its length fields are right. *)
Record well_formed (g : list Z) : Prop := WellFormed {
  wf_bytes : Forall is_byte g;
  wf_ihl : 5 <= ihl g;
  wf_doff : 5 <= doff g;
  wf_data : data_off g <= Z.of_nat (length g) < 65536;
  wf_tot : get16 g 2 = ntohs (Z.of_nat (length g))
}.

Definition mergeable (g : list Z) : bool :=
  negb (bool_decide (payload g = [])) && (ihl g =? 5) &&
  (let flags := get8 g 33 in Z.testbit flags 4 && negb (Z.testbit flags 5 || Z.testbit flags 2 || Z.testbit flags 1 || Z.testbit flags 0)) &&
  ((doff g =? 5) || (doff g =? 8)).

Definition stamped (g : list Z) : bool :=
  negb (doff g =? 8) || ((get32 g 40 =? htonl 16844810) && negb (get32 g 48 =? 0)).

(** The total length and the next sequence number of segments that are held. *)
Definition held_len (l : list (list Z)) : Z :=
  match l with [] => 0 | g :: l => Z.of_nat (length g) + Z.of_nat (length (concat (payload <$> l))) end.
Definition held_seq (l : list (list Z)) : Z :=
  match l with [] => 0 | g :: _ => u32 (htonl (get32 g 24) + Z.of_nat (length (concat (payload <$> l)))) end.

Definition follows (l : list (list Z)) (g : list Z) : bool := (htonl (get32 g 24) =? held_seq l) && stamped g.

(** Segments as one: the headers of the first, with the length of all, and
    the acknowledgement, window and time stamp echo of the last. *)
Definition sub (i n : nat) (g : list Z) : list Z := take n (drop i g).
Definition patch (tot : Z) (z g : list Z) : list Z :=
  let g := list_inserts 2 (bytes2 (ntohs tot)) g in
  let g := list_inserts 28 (sub 28 4 z) g in
  let g := list_inserts 34 (sub 34 2 z) g in
  if Z.shiftr (get8 g 32) 4 =? 8 then list_inserts 48 (sub 48 4 z) g else g.

Definition merge (l : list (list Z)) : list Z :=
  match l with
  | [] => []
  | [g] => g
  | g :: r => patch (held_len l) (List.last r g) g ++ concat (payload <$> r)
  end.

(** The groups of a sequence of segments. *)
Section Groups.
Context (offload : bool) (buf_max byte_max : Z).

Definition full (l : list (list Z)) : bool := (buf_max <=? Z.of_nat (length l)) || (byte_max <=? held_len l).

Fixpoint groups (held : list (list Z)) (l : list (list Z)) : list (list (list Z)) :=
  match l with
  | [] => if bool_decide (held = []) then [] else [held]
  | g :: l =>
    let keep held := if full held then held :: groups [] l else groups held l in
    if bool_decide (held = []) then
      if offload && mergeable g then keep [g] else [g] :: groups [] l
    else if mergeable g && follows held g then keep (held ++ [g])
    else held :: [g] :: groups [] l
  end.

Lemma groups_concat held l : concat (groups held l) = held ++ l.
Proof.
  revert held. induction l as [|g l IH]; intros held; simpl.
  - case_bool_decide as E; [by rewrite E|]. simpl. by rewrite !app_nil_r.
  - case_bool_decide as E.
    + subst. simpl. destruct (offload && mergeable g); simpl; [|by rewrite IH]. destruct (full [g]); simpl; by rewrite IH.
    + destruct (mergeable g && follows held g); simpl; [|by rewrite IH, ?app_assoc].
      assert (held ++ g :: l = (held ++ [g]) ++ l) as -> by (by rewrite <- app_assoc). destruct (full _); simpl; by rewrite IH.
Qed.

End Groups.

(** ** Bytes *)

Lemma get8_lookup g i : (i < length g)%nat -> g !! i = Some (get8 g i).
Proof. intros [x Hx]%lookup_lt_is_Some. unfold get8. by rewrite Hx. Qed.

Lemma get8_byte g i : Forall is_byte g -> is_byte (get8 g i).
Proof. intros H. unfold get8. destruct (g !! i) eqn:E; simpl; [by eapply Forall_lookup_1|split; lia]. Qed.

Lemma at_get8 mem p o g i a : at_ mem p o g -> (i < length g)%nat -> a = o + Z.of_nat i -> rd8 mem p a = Ok (get8 g i).
Proof. intros H Hi ->. apply (at_rd8 mem p o g); [done|lia|]. rewrite Nat2Z.id. by apply get8_lookup. Qed.

Lemma at_get16 mem p o g i a : at_ mem p o g -> (i + 1 < length g)%nat -> a = o + Z.of_nat i -> rd16 mem p a = Ok (get16 g i).
Proof. intros H Hi ->. unfold rd16. by rewrite (at_get8 mem p o g i (o + Z.of_nat i)), (at_get8 mem p o g (i + 1) (o + Z.of_nat i + 1)) by (done || lia). Qed.

Lemma at_get32 mem p o g i a : at_ mem p o g -> (i + 3 < length g)%nat -> a = o + Z.of_nat i -> rd32 mem p a = Ok (get32 g i).
Proof. intros H Hi ->. unfold rd32. by rewrite (at_get16 mem p o g i (o + Z.of_nat i)), (at_get16 mem p o g (i + 2) (o + Z.of_nat i + 2)) by (done || lia). Qed.

Lemma bytes2_get g i : Forall is_byte g -> (i + 1 < length g)%nat -> bytes2 (get16 g i) = sub i 2 g.
Proof.
  intros Hb Hi. unfold sub. rewrite (drop_S g (get8 g i) i) by (apply get8_lookup; lia).
  rewrite (drop_S g (get8 g (i + 1)) (S i)) by (rewrite <- Nat.add_1_r; apply get8_lookup; lia). simpl. unfold bytes2, get16, word.
  pose proof (get8_byte g i Hb) as [? ?]. rewrite take_0. replace (i + 1)%nat with (S i) by lia.
  rewrite (Z.mul_comm 256), Z.mod_add, Z.mod_small, Z.div_add, Z.div_small by lia. done.
Qed.

Lemma get16_range g i : Forall is_byte g -> 0 <= get16 g i < 65536.
Proof. intros Hb. pose proof (get8_byte g i Hb) as [? ?]. pose proof (get8_byte g (i + 1) Hb) as [? ?]. unfold get16, word. lia. Qed.

Lemma sub_split i g : sub i 4 g = sub i 2 g ++ sub (i + 2) 2 g.
Proof.
  unfold sub. rewrite <- drop_drop. generalize (drop i g) as h. by intros [|? [|? [|? []]]].
Qed.

Lemma bytes4_get g i : Forall is_byte g -> (i + 3 < length g)%nat -> bytes4 (get32 g i) = sub i 4 g.
Proof.
  intros Hb Hi. rewrite sub_split, <- !bytes2_get by (done || lia). unfold bytes4, get32. pose proof (get16_range g i Hb).
  rewrite (Z.mul_comm 65536), Z.mod_add, Z.mod_small, Z.div_add, Z.div_small by lia. done.
Qed.

Lemma list_inserts_inside {A} i (l l1 l2 : list A) : (i + length l <= length l1)%nat -> list_inserts i l (l1 ++ l2) = list_inserts i l l1 ++ l2.
Proof.
  revert i. induction l as [|x l IH]; intros i Hi; simpl in *; [done|]. rewrite IH by lia. apply insert_app_l. rewrite length_inserts. lia.
Qed.

(** A write inside a segment. *)
Lemma at_write p o g i l w a : at_ (memory w) p o g -> l <> [] -> (i + length l <= length g)%nat -> a = o + Z.of_nat i ->
  exists mem, write p a l w = Ok (set_memory mem w) /\ at_ mem p o (list_inserts i l g) /\ (forall q, q <> p -> mem q = memory w q).
Proof.
  intros (Ho & t & H) Hl Hi ->. unfold bytes_at in H. assert (Z.to_nat o + length g <= length (memory w p))%nat as Hlen.
  { apply (f_equal length) in H. rewrite length_drop, length_app in H. destruct l; simpl in *; [done|]. lia. }
  unfold write. destruct (Z.leb_spec 0 (o + Z.of_nat i)); [|lia].
  destruct (Z.leb_spec (o + Z.of_nat i + Z.of_nat (length l)) (Z.of_nat (length (memory w p)))); [|lia].
  simpl. eexists. split; [done|]. split; [|intros q Hq; by rewrite decide_False].
  split; [done|]. exists t. unfold bytes_at. rewrite decide_True by done. rewrite <- (take_drop (Z.to_nat o) (memory w p)), H.
  assert (length (take (Z.to_nat o) (memory w p)) = Z.to_nat o) as Ht by (rewrite length_take; lia).
  rewrite Z2Nat.inj_add, Nat2Z.id by lia. rewrite <- Ht at 2. rewrite list_inserts_app_r, list_inserts_inside by lia.
  rewrite <- Ht at 1. by rewrite drop_app_length.
Qed.

(** ** Merged segments *)

Lemma get8_inserts i l g j : (j < i \/ i + length l <= j)%nat -> get8 (list_inserts i l g) j = get8 g j.
Proof. intros [H|H]; unfold get8; [by rewrite list_lookup_inserts_lt|by rewrite list_lookup_inserts_ge]. Qed.

Lemma get8_inserted i l g j : (i + length l <= length g)%nat -> (j < length l)%nat -> get8 (list_inserts i l g) (i + j) = get8 l j.
Proof. intros H1 H2. unfold get8. rewrite list_lookup_inserts by lia. do 2 f_equal. lia. Qed.

Lemma drop_inserts {A} i (l g : list A) n : (i + length l <= n)%nat -> drop n (list_inserts i l g) = drop n g.
Proof.
  revert i. induction l as [|x l IH]; intros i Hi; simpl in *; [done|]. rewrite drop_insert_lt by lia. apply IH. lia.
Qed.

Lemma get8_sub i n g j : (j < n)%nat -> get8 (sub i n g) j = get8 g (i + j).
Proof. intros H. unfold get8, sub. rewrite lookup_take_lt by done. by rewrite lookup_drop. Qed.

Lemma length_sub i n g : (i + n <= length g)%nat -> length (sub i n g) = n.
Proof. intros H. unfold sub. rewrite length_take, length_drop. lia. Qed.

Lemma length_patch tot z g : length (patch tot z g) = length g.
Proof. unfold patch. case_match; rewrite ?length_inserts; done. Qed.

(** The bytes of a patched header: an offset outside of the four fields keeps
    its byte. *)
Lemma get8_patch tot z g j : (52 <= length g)%nat \/ Z.shiftr (get8 g 32) 4 <> 8 -> (36 <= length z)%nat -> (36 <= length g)%nat ->
  (Z.shiftr (get8 g 32) 4 = 8 -> (52 <= length z)%nat) ->
  get8 (patch tot z g) j = if decide (2 <= j < 4)%nat then get8 (bytes2 (ntohs tot)) (j - 2)
    else if decide ((28 <= j < 32 \/ 34 <= j < 36)%nat \/ (48 <= j < 52)%nat /\ Z.shiftr (get8 g 32) 4 = 8) then get8 z j else get8 g j.
Proof.
  intros Hg Hz Hg' Hz'. unfold patch. set (g1 := list_inserts 2 _ g). set (g2 := list_inserts 28 _ g1). set (g3 := list_inserts 34 _ g2).
  assert (length g3 = length g) as L3 by (by unfold g3, g2, g1; rewrite !length_inserts).
  assert (length g2 = length g) as L2 by (by unfold g2, g1; rewrite !length_inserts).
  assert (length g1 = length g) as L1 by (by unfold g1; rewrite !length_inserts).
  assert (get8 g3 32 = get8 g 32) as E by (unfold g3, g2, g1; rewrite !get8_inserts by (rewrite ?length_sub by lia; simpl; lia); done).
  assert (forall j, get8 g3 j = if decide (2 <= j < 4)%nat then get8 (bytes2 (ntohs tot)) (j - 2) else
    if decide (28 <= j < 32 \/ 34 <= j < 36)%nat then get8 z j else get8 g j) as H3.
  { clear j. intros j. unfold g3. destruct (decide (34 <= j < 36)%nat).
    - rewrite decide_False, decide_True by lia. replace j with (34 + (j - 34))%nat at 1 by lia.
      rewrite get8_inserted, get8_sub by (rewrite ?length_sub by lia; lia). f_equal. lia.
    - rewrite get8_inserts by (rewrite length_sub by lia; lia). unfold g2. destruct (decide (28 <= j < 32)%nat).
      + rewrite decide_False, decide_True by lia. replace j with (28 + (j - 28))%nat at 1 by lia.
        rewrite get8_inserted, get8_sub by (rewrite ?length_sub by lia; lia). f_equal. lia.
      + rewrite get8_inserts by (rewrite length_sub by lia; lia). unfold g1. destruct (decide (2 <= j < 4)%nat).
        * replace j with (2 + (j - 2))%nat at 1 by lia. rewrite get8_inserted by (simpl; lia). f_equal.
        * rewrite decide_False by lia. by rewrite get8_inserts by (simpl; lia). }
  rewrite E. destruct (Z.eqb_spec (Z.shiftr (get8 g 32) 4) 8) as [E8|E8].
  - specialize (Hz' E8). destruct (decide (48 <= j < 52)%nat).
    + rewrite decide_False, decide_True by (lia || auto). replace j with (48 + (j - 48))%nat at 1 by lia.
      rewrite get8_inserted, get8_sub by (rewrite ?length_sub by lia; destruct Hg; [lia|done]). f_equal. lia.
    + rewrite get8_inserts, H3 by (rewrite length_sub by lia; lia). repeat case_decide; (done || lia).
  - rewrite H3. repeat case_decide; (done || lia).
Qed.

Lemma payload_length g : well_formed g -> Z.of_nat (length (payload g)) = Z.of_nat (length g) - data_off g.
Proof. intros H. unfold payload. rewrite length_drop. pose proof (wf_data g H). pose proof (wf_ihl g H). pose proof (wf_doff g H). unfold data_off in *. lia. Qed.

Lemma mergeable_spec g : mergeable g = true -> payload g <> [] /\ ihl g = 5 /\ (doff g = 5 \/ doff g = 8) /\ doff g = Z.shiftr (get8 g 32) 4.
Proof.
  unfold mergeable. rewrite !andb_true_iff, orb_true_iff, negb_true_iff, !Z.eqb_eq, bool_decide_eq_false.
  intros [[[H1 H2] _] H3]. split_and!; [done..|]. unfold doff. by rewrite H2.
Qed.

(** Enough bytes for the headers. *)
Lemma mergeable_length g : well_formed g -> mergeable g = true -> 20 + doff g * 4 < Z.of_nat (length g).
Proof.
  intros Hw (Hp & Hi & Hd & _)%mergeable_spec. pose proof (payload_length g Hw) as Hl. unfold data_off in Hl.
  destruct (payload g); [done|]. simpl in Hl. lia.
Qed.

Lemma last_cons {A} (x y : A) l : List.last (x :: l) y = List.last l x.
Proof. revert x y. induction l as [|z l IH]; intros x y; [done|]. change (List.last (x :: z :: l) y) with (List.last (z :: l) y). by rewrite !IH. Qed.

Lemma last_snoc {A} (x y : A) l : List.last (l ++ [x]) y = x.
Proof. apply List.last_last. Qed.

Lemma last_fmap {A B} (f : A -> B) x l : List.last (f <$> l) (f x) = f (List.last l x).
Proof. revert x. induction l as [|y l IH]; intros x; [done|]. by rewrite fmap_cons, !last_cons. Qed.

Lemma last_elem {A} (x : A) l : List.last l x ∈ x :: l.
Proof. revert x. induction l as [|y l IH]; intros x; [left|]. rewrite last_cons. right. apply IH. Qed.

(** Consecutive segments that fit into one packet. *)
Record group_ok (buf_max : Z) (l : list (list Z)) : Prop := GroupOk {
  go_some : l <> [];
  go_wf : Forall well_formed l;
  go_many : (1 < length l)%nat -> Forall (fun g => mergeable g = true) l;
  go_doff : forall f, head l = Some f -> Forall (fun g => doff f = 8 -> doff g = 8) l;
  go_len : held_len l < 65536;
  go_count : Z.of_nat (length l) <= Z.max 1 buf_max;
  go_seq : forall l1 g l2, l = l1 ++ g :: l2 -> l1 <> [] -> follows l1 g = true
}.

(** What makes a merged packet right: its length field, the sequence number
    of the first segment, the acknowledgement and window of the last one, and
    all the data in order. *)
Record merged_ok (l : list (list Z)) (m : list Z) : Prop := MergedOk {
  mo_len : Z.of_nat (length m) = held_len l;
  mo_tot : get16 m 2 = ntohs (Z.of_nat (length m));
  mo_data : payload m = concat (payload <$> l);
  mo_seq : forall f, head l = Some f -> get32 m 24 = get32 f 24;
  mo_ack : forall f, head l = Some f -> get32 m 28 = get32 (List.last l f) 28 /\ get16 m 34 = get16 (List.last l f) 34
}.

Lemma merge_single_ok g : well_formed g -> merged_ok [g] g.
Proof.
  intros H. split; [simpl; lia|apply (wf_tot _ H)|simpl; by rewrite app_nil_r|by intros f [= <-]|by intros f [= <-]].
Qed.

Lemma bytes2_word x : 0 <= x < 65536 -> word (get8 (bytes2 x) 0) (get8 (bytes2 x) 1) = x.
Proof. intros H. unfold bytes2, get8, word. simpl. pose proof (Z.div_mod x 256). lia. Qed.

Lemma get8_app_l l r j : (j < length l)%nat -> get8 (l ++ r) j = get8 l j.
Proof. intros H. unfold get8. by rewrite lookup_app_l. Qed.

Lemma merge_many_ok buf_max f r : group_ok buf_max (f :: r) -> r <> [] -> merged_ok (f :: r) (merge (f :: r)).
Proof.
  intros Hg Hr. destruct r as [|b r']; [done|]. set (r := b :: r') in *. set (z := List.last r f). pose proof (last_elem f r) as Hz.
  pose proof (go_many _ _ Hg ltac:(simpl; lia)) as Hm. pose proof (go_wf _ _ Hg) as Hw. pose proof (go_doff _ _ Hg f eq_refl) as Hd.
  rewrite Forall_forall in Hm, Hw, Hd. pose proof (Hw z Hz) as Wz. pose proof (Hm z Hz) as Mz. pose proof (Hd z Hz) as Dz.
  pose proof (Hw f ltac:(left)) as Wf. pose proof (Hm f ltac:(left)) as Mf. pose proof (mergeable_length _ Wz Mz) as Lz. pose proof (mergeable_length _ Wf Mf) as Lf.
  destruct (mergeable_spec _ Mz) as (_ & _ & Oz & _). destruct (mergeable_spec _ Mf) as (_ & If & Of & Ef).
  change (merge (f :: r)) with (patch (held_len (f :: r)) z f ++ concat (payload <$> r)). set (P := patch _ z f).
  assert (length P = length f) as LP by apply length_patch.
  assert (forall j, (j < length f)%nat -> get8 (P ++ concat (payload <$> r)) j = if decide (2 <= j < 4)%nat then get8 (bytes2 (ntohs (held_len (f :: r)))) (j - 2)
    else if decide ((28 <= j < 32 \/ 34 <= j < 36)%nat \/ (48 <= j < 52)%nat /\ doff f = 8) then get8 z j else get8 f j) as HP.
  { intros j Hj. rewrite get8_app_l by lia. unfold P. rewrite Ef. apply get8_patch; [rewrite <- Ef; destruct Of; [right|left]; lia|lia|lia|rewrite <- Ef; intros E; specialize (Dz E); lia]. }
  assert (Z.of_nat (length (P ++ concat (payload <$> r))) = held_len (f :: r)) as Hlen by (rewrite length_app, LP; simpl; lia).
  pose proof (go_len _ _ Hg) as Hmax. assert (0 <= held_len (f :: r)) as Hpos by (simpl; lia).
  split; [done|..].
  - rewrite Hlen. unfold get16. rewrite !HP by lia. simpl. apply bytes2_word. apply ntohs_range.
  - assert (data_off (P ++ concat (payload <$> r)) = data_off f) as Hdo.
    { unfold data_off, doff, ihl. rewrite (HP 0%nat) by lia. simpl. fold (ihl f). rewrite If. change (Z.to_nat (5 * 4) + 12)%nat with 32%nat. by rewrite HP by lia. }
    unfold payload at 1. rewrite Hdo. unfold data_off in *. rewrite If in *. rewrite drop_app_le by lia. rewrite fmap_cons. cbn [concat]. f_equal.
    unfold payload, data_off, P, patch. rewrite If. set (g3 := list_inserts 34 _ _).
    assert (drop (Z.to_nat (5 * 4 + doff f * 4)) g3 = drop (Z.to_nat (5 * 4 + doff f * 4)) f) as E3.
    { unfold g3. rewrite !drop_inserts; [done|..]; rewrite ?length_sub by lia; simpl; lia. }
    destruct (Z.eqb_spec (Z.shiftr (get8 g3 32) 4) 8) as [E8|E8]; [|done]. rewrite drop_inserts; [done|].
    assert (get8 g3 32 = get8 f 32) as E by (unfold g3; rewrite !get8_inserts by (rewrite ?length_sub by lia; simpl; lia); done).
    rewrite E, <- Ef in E8. specialize (Dz E8). rewrite length_sub by lia. lia.
  - intros f' [= <-]. unfold get32, get16. by rewrite !HP by lia.
  - intros f' [= <-]. rewrite last_cons. fold z.
    unfold get32, get16. rewrite !HP by lia. done.
Qed.

Lemma concat_snoc {A} (f : list Z -> list A) l x : concat (f <$> l ++ [x]) = concat (f <$> l) ++ f x.
Proof. rewrite fmap_app, concat_app. simpl. by rewrite app_nil_r. Qed.

Lemma group_single buf_max g : well_formed g -> group_ok buf_max [g].
Proof.
  intros H. pose proof (wf_data _ H). split; [done|by constructor|simpl; lia|intros f [= <-]; by constructor|simpl; lia|simpl; lia|].
  intros [|x l1] y l2 E Hne; [done|]. by destruct l1.
Qed.

Lemma held_len_app f r g : held_len (f :: r ++ [g]) = held_len (f :: r) + Z.of_nat (length (payload g)).
Proof. cbn [held_len]. rewrite concat_snoc, length_app. lia. Qed.

Section GroupsOk.
Context (offload : bool) (buf_max mtu D : Z).
Hypothesis Hmtu : 0 < mtu <= 65535.

Definition fits (g : list Z) : Prop := well_formed g /\ Z.of_nat (length g) <= mtu /\ (mergeable g = true -> doff g = D).

Record held_ok (l : list (list Z)) : Prop := HeldOk {
  ho_group : group_ok buf_max l;
  ho_merge : Forall (fun g => mergeable g = true) l;
  ho_doff : Forall (fun g => doff g = D) l;
  ho_room : full buf_max (m_n_byte_max mtu) l = false
}.

Lemma room l : full buf_max (m_n_byte_max mtu) l = false -> Z.of_nat (length l) < buf_max /\ held_len l < 65535 - mtu.
Proof.
  intros [H1 H2]%orb_false_iff. apply Z.leb_gt in H1, H2. unfold m_n_byte_max, MAX_AGGR_BYTE_PER_STREAM in H2. by rewrite wrap_small in H2 by lia.
Qed.

Lemma payload_small g : fits g -> mergeable g = true -> Z.of_nat (length (payload g)) < mtu.
Proof.
  intros (Hw & Hl & _) Hm. rewrite (payload_length _ Hw). pose proof (wf_ihl _ Hw). pose proof (wf_doff _ Hw). unfold data_off. lia.
Qed.

Lemma group_snoc l g : held_ok l -> fits g -> mergeable g = true -> follows l g = true -> group_ok buf_max (l ++ [g]).
Proof.
  intros [[Hs Hw Hm Hd Hl Hc Hq] Hme HD Hr] Hf Hmg Hfo. apply room in Hr as [Hr1 Hr2]. pose proof (payload_small _ Hf Hmg). destruct Hf as (Hwg & Hlg & HDg).
  split.
  - by destruct l.
  - apply Forall_app. split; [done|by constructor].
  - intros _. apply Forall_app. split; [done|by constructor].
  - intros f Hhd. destruct l as [|f' l]; [done|]. simpl in Hhd. simplify_eq. apply Forall_app. split; [by apply Hd|].
    constructor; [|constructor]. apply Forall_cons in HD as [HDf _]. specialize (HDg Hmg). congruence.
  - destruct l as [|f l]; [done|]. cbn [app]. rewrite held_len_app. lia.
  - rewrite length_app. simpl. lia.
  - intros l1 x l2 E Hne. destruct l2 as [|y l2 _] using rev_ind.
    + apply app_inj_tail in E as [-> ->]. done.
    + rewrite app_comm_cons, app_assoc in E. apply app_inj_tail in E as [E _]. by apply (Hq l1 x l2).
Qed.

Lemma groups_ok held l : held = [] \/ held_ok held -> Forall fits l -> Forall (group_ok buf_max) (groups offload buf_max (m_n_byte_max mtu) held l).
Proof.
  revert held. induction l as [|g l IH]; intros held Hh Hl; cbn [groups].
  - case_bool_decide; [done|]. destruct Hh as [->|Hh]; [done|]. constructor; [apply Hh|done].
  - apply Forall_cons in Hl as [Hg Hl]. pose proof Hg as (Hw & _ & HD). case_bool_decide as E.
    + assert (Forall (group_ok buf_max) ([g] :: groups offload buf_max (m_n_byte_max mtu) [] l)) as Hone.
      { constructor; [by apply group_single|]. apply IH; [by left|done]. }
      destruct (offload && mergeable g) eqn:Em; [|done]. apply andb_true_iff in Em as [_ Em]. destruct (full _ _ _) eqn:Ef; [done|].
      apply IH; [right|done]. split; [by apply group_single|by constructor|constructor; [by apply HD|done]|done].
    + destruct Hh as [->|Hh]; [done|]. destruct (mergeable g && follows held g) eqn:Em.
      * apply andb_true_iff in Em as [Em Efo]. pose proof (group_snoc held g Hh Hg Em Efo) as Hgr. destruct (full _ _ _) eqn:Ef.
        -- constructor; [done|]. apply IH; [by left|done].
        -- apply IH; [right|done]. split; [done|apply Forall_app; split; [apply (ho_merge _ Hh)|by constructor]|apply Forall_app; split; [apply (ho_doff _ Hh)|constructor; [by apply HD|done]]|done].
      * constructor; [apply Hh|]. constructor; [by apply group_single|]. apply IH; [by left|done].
Qed.

End GroupsOk.

(** ** Segments in buffers *)

Record segment := Segment { sg_ptr : ptr; sg_hdr : Z; sg_bytes : list Z }.

(** The segment is in its buffer, as the receive path leaves it. *)
Record holds (w : gro_world) (g : segment) : Prop := Holds {
  h_hdr : sg_hdr g < 65536;
  h_at : at_ (memory w) (sg_ptr g) (sg_hdr g) (sg_bytes g);
  h_rx : exists d, g_rx w !! sg_ptr g = Some d /\ l4 d = l4_tcp (sg_hdr g) (sg_hdr g + ihl (sg_bytes g) * 4) (sg_hdr g) /\
           sz_payload d = Z.of_nat (length (payload (sg_bytes g)));
  h_buf : exists b, g_bufs w !! sg_ptr g = Some b /\ sz_data b = sg_hdr g + Z.of_nat (length (sg_bytes g));
  h_link : exists k, g_links w !! sg_ptr g = Some k /\ gro k = false
}.

(** What [holds] says of a descriptor does not change. *)
Definition same_at (w w' : gro_world) (p : ptr) : Prop :=
  memory w' p = memory w p /\ g_rx w' !! p = g_rx w !! p /\ sz_data <$> g_bufs w' !! p = sz_data <$> g_bufs w !! p /\
  gro <$> g_links w' !! p = gro <$> g_links w !! p.

Lemma same_at_refl w p : same_at w w p.
Proof. done. Qed.

Lemma same_at_trans w1 w2 w3 p : same_at w1 w2 p -> same_at w2 w3 p -> same_at w1 w3 p.
Proof. unfold same_at. intros (-> & -> & -> & ->) (-> & -> & -> & ->). done. Qed.

Lemma holds_same w w' g : same_at w w' (sg_ptr g) -> holds w g -> holds w' g.
Proof.
  intros (H1 & H2 & H3 & H4) [Hh Ha (d & Hd & Hd') (b & Hb & Hb') (k & Hk & Hk')]. split; [done|..].
  - destruct Ha as (Ho & t & Ha). split; [done|]. exists t. unfold bytes_at in *. by rewrite H1.
  - exists d. by rewrite H2.
  - rewrite Hb in H3. simpl in H3. destruct (g_bufs w' !! sg_ptr g) as [b'|]; simplify_eq/=. exists b'. split; congruence.
  - rewrite Hk in H4. simpl in H4. destruct (g_links w' !! sg_ptr g) as [k'|]; simplify_eq/=. exists k'. split; congruence.
Qed.

Lemma tcp_ip_check_ok w g d : holds w g -> well_formed (sg_bytes g) -> sz_payload d = Z.of_nat (length (payload (sg_bytes g))) ->
  tcp_ip_check (sg_ptr g) d (sg_hdr g) (sg_hdr g + ihl (sg_bytes g) * 4) w = Ok (mergeable (sg_bytes g)).
Proof.
  intros Hh Hw Hd. pose proof (h_at _ _ Hh) as Ha. pose proof (wf_data _ Hw) as Hl. pose proof (wf_ihl _ Hw). pose proof (wf_doff _ Hw).
  unfold data_off in Hl. unfold tcp_ip_check, mergeable. rewrite Hd. destruct (payload (sg_bytes g)) as [|x r] eqn:Ep; [done|].
  rewrite bool_decide_false by done. destruct (Z.eqb_spec (Z.of_nat (length (x :: r))) 0); [done|].
  rewrite (at_get8 _ _ _ _ 0 (sg_hdr g) Ha) by lia. bind_ret. fold (ihl (sg_bytes g)). unfold IP_H_LEN_NO_OPTIONS.
  destruct (Z.eqb_spec (ihl (sg_bytes g)) 5) as [E|]; [|done]. cbn [negb andb]. rewrite E in *. change (5 * 4) with 20 in *.
  rewrite (at_get8 _ _ _ _ 33 (sg_hdr g + 20 + 13) Ha) by lia. bind_ret. rewrite (at_get8 _ _ _ _ 32 (sg_hdr g + 20 + 12) Ha) by lia. bind_ret.
  unfold doff. rewrite E. change (Z.to_nat (5 * 4) + 12)%nat with 32%nat. unfold TCP_H_LEN_NO_OPTIONS, TCP_H_LEN_TIMESTAMP.
  by destruct (Z.testbit _ 5), (Z.testbit _ 4), (Z.testbit _ 2), (Z.testbit _ 1), (Z.testbit _ 0).
Qed.

Lemma timestamp_check_ok w g : holds w g -> well_formed (sg_bytes g) -> mergeable (sg_bytes g) = true ->
  timestamp_check (sg_ptr g) (sg_hdr g + 20) w = Ok (stamped (sg_bytes g)).
Proof.
  intros Hh Hw Hm. pose proof (h_at _ _ Hh) as Ha. pose proof (mergeable_length _ Hw Hm) as Hl. apply mergeable_spec in Hm as (_ & Hi & Hd & Ed).
  unfold timestamp_check, stamped. rewrite (at_get8 _ _ _ _ 32 _ Ha) by lia. bind_ret. rewrite <- Ed. unfold TCP_H_LEN_TIMESTAMP.
  destruct (Z.eqb_spec (doff (sg_bytes g)) 8) as [E|]; [|done]. rewrite (at_get32 _ _ _ _ 40 (sg_hdr g + 20 + 20) Ha) by lia. bind_ret.
  cbn [negb orb]. change (Z.lor (Z.lor (Z.shiftl 1 24) (Z.shiftl 1 16)) (Z.lor (Z.shiftl 8 8) 10)) with 16844810.
  destruct (get32 (sg_bytes g) 40 =? htonl 16844810); [|done]. cbn [negb andb]. by rewrite (at_get32 _ _ _ _ 48 (sg_hdr g + 20 + 28) Ha) by lia.
Qed.

(** ** Segments that are held *)

Record describes (g : gro_mem_buf_desc) (f : segment) (r : list segment) : Prop := Describes {
  de_first : p_first g = sg_ptr f;
  de_last : p_last g = sg_ptr (List.last r f);
  de_ip : p_ip_h g = sg_hdr f;
  de_tcp : p_tcp_h g = sg_hdr f + 20;
  de_count : buf_count g = Z.of_nat (length (f :: r));
  de_seq : next_seq g = held_seq (sg_bytes <$> f :: r);
  de_ack : ack g = get32 (sg_bytes (List.last r f)) 28;
  de_ts : ts_present g = (doff (sg_bytes f) =? 8);
  de_echo : ts_present g = true -> tsecr g = get32 (sg_bytes (List.last r f)) 48;
  de_tot : ip_tot_len g = held_len (sg_bytes <$> f :: r);
  de_wnd : wnd g = get16 (sg_bytes (List.last r f)) 34
}.

(** The [pbuf] of a segment behind the first one. *)
Record tail_link (a b : segment) (final : Prop) (k : links) : Prop := TailLink {
  tl_payload : pb_payload k = sg_hdr b + (Z.of_nat (length (sg_bytes b)) - Z.of_nat (length (payload (sg_bytes b))));
  tl_len : pb_len k = Z.of_nat (length (payload (sg_bytes b)));
  tl_tot : pb_tot_len k = Z.of_nat (length (payload (sg_bytes b)));
  tl_prev : p_prev_desc k = Some (sg_ptr a);
  tl_next : final -> pb_next k = None
}.

Fixpoint linked (L : gmap ptr links) (a : segment) (r : list segment) : Prop :=
  match r with
  | [] => True
  | b :: r =>
    (exists k, L !! sg_ptr a = Some k /\ pb_next k = Some (sg_ptr b)) /\
    (exists k, L !! sg_ptr b = Some k /\ tail_link a b (r = []) k) /\ linked L b r
  end.

Lemma linked_snoc L a r b kz kb : NoDup (sg_ptr <$> a :: r ++ [b]) -> linked L a r -> L !! sg_ptr (List.last r a) = Some kz ->
  tail_link (List.last r a) b True kb ->
  linked (<[sg_ptr (List.last r a) := set_pb_next (Some (sg_ptr b)) kz]> (<[sg_ptr b := kb]> L)) a (r ++ [b]).
Proof.
  revert a. induction r as [|c r IH]; intros a Hnd Hl Hz Hb; simpl in Hnd.
  - simpl in *. apply NoDup_cons in Hnd as [Ha _]. assert (sg_ptr a <> sg_ptr b) by set_solver.
    split; [|split; [|done]]; [exists (set_pb_next (Some (sg_ptr b)) kz); by rewrite lookup_insert_eq|].
    exists kb. rewrite lookup_insert_ne, lookup_insert_eq by done. split; [done|]. destruct Hb. split; auto.
  - rewrite last_cons in *. apply NoDup_cons in Hnd as [Ha Hnd]. destruct Hl as ((ka & Hka & Hna) & (kc & Hkc & Htc) & Hl).
    cbn [app linked]. split; [|split; [|by apply IH]].
    + exists ka. rewrite !lookup_insert_ne; [done| |].
      * intros E. apply Ha. rewrite <- E, fmap_app. right. set_solver.
      * intros E. apply Ha. rewrite <- E. pose proof (last_elem c r) as Hin. rewrite fmap_app.
        apply (list_elem_of_fmap_2 sg_ptr) in Hin. simpl in Hin. set_solver.
    + assert (r ++ [b] <> []) as Hne by (by destruct r). destruct (decide (sg_ptr c = sg_ptr (List.last r c))) as [E|E].
      * exists (set_pb_next (Some (sg_ptr b)) kz). rewrite <- E in Hz |- *. rewrite lookup_insert_eq. split; [done|]. rewrite Hkc in Hz. simplify_eq.
        destruct Htc. split; done.
      * exists kc. rewrite lookup_insert_ne by done. apply NoDup_cons in Hnd as [Hc Hnd].
        rewrite lookup_insert_ne by (rewrite fmap_app in Hc; set_solver). split; [done|]. destruct Htc. split; done.
Qed.

Lemma store_ok m p f b : m !! p = Some b -> store p f m = Ok (<[p := f b]> m).
Proof. intros H. unfold store. by rewrite (load_ok _ _ _ H). Qed.

Lemma get_links_ok p w k : g_links w !! p = Some k -> get_links p w = Ok k.
Proof. intros H. unfold get_links. by rewrite H. Qed.

Lemma get32_htonl_seq g n m : u32 (u32 (htonl (get32 g 24) + n) + m) = u32 (htonl (get32 g 24) + (n + m)).
Proof. unfold wrap. rewrite Zplus_mod_idemp_l. f_equal. lia. Qed.

Lemma init_gro_desc_ok w f d : holds w f -> well_formed (sg_bytes f) -> mergeable (sg_bytes f) = true ->
  sz_payload d = Z.of_nat (length (payload (sg_bytes f))) ->
  exists g, init_gro_desc (sg_ptr f) d (sg_hdr f) (sg_hdr f + 20) w = Ok g /\ describes g f [].
Proof.
  intros Hh Hw Hm Hd. pose proof (h_at _ _ Hh) as Ha. pose proof (mergeable_length _ Hw Hm) as Hl. apply mergeable_spec in Hm as (_ & Hi & Hdo & Ed).
  pose proof (wf_data _ Hw) as Ht. unfold init_gro_desc.
  rewrite (at_get16 _ _ _ _ 2 (sg_hdr f + 2) Ha) by lia. bind_ret. rewrite (at_get32 _ _ _ _ 28 (sg_hdr f + 20 + 8) Ha) by lia. bind_ret.
  rewrite (at_get32 _ _ _ _ 24 (sg_hdr f + 20 + 4) Ha) by lia. bind_ret. rewrite (at_get16 _ _ _ _ 34 (sg_hdr f + 20 + 14) Ha) by lia. bind_ret.
  rewrite (at_get8 _ _ _ _ 32 (sg_hdr f + 20 + 12) Ha) by lia. bind_ret. rewrite <- Ed. unfold TCP_H_LEN_TIMESTAMP.
  assert (ntohs (get16 (sg_bytes f) 2) = held_len [sg_bytes f]) as Htot by (rewrite (wf_tot _ Hw), ntohs_invol by lia; simpl; lia).
  assert (u32 (htonl (get32 (sg_bytes f) 24) + sz_payload d) = held_seq [sg_bytes f]) as Hseq by (simpl; by rewrite app_nil_r, Hd).
  destruct (Z.eqb_spec (doff (sg_bytes f)) 8) as [E|E].
  - rewrite (at_get32 _ _ _ _ 44 (sg_hdr f + 20 + 24) Ha) by lia. bind_ret. rewrite (at_get32 _ _ _ _ 48 (sg_hdr f + 20 + 28) Ha) by lia. bind_ret.
    eexists. split; [done|]. split; try done. simpl. by rewrite E.
  - bind_ret. eexists. split; [done|]. split; try done. simpl. by destruct (Z.eqb_spec (doff (sg_bytes f)) 8).
Qed.

Lemma held_len_snoc f r b : held_len (sg_bytes <$> f :: r ++ [b]) = held_len (sg_bytes <$> f :: r) + Z.of_nat (length (payload (sg_bytes b))).
Proof.
  rewrite !fmap_cons, fmap_app. change (sg_bytes <$> [b]) with [sg_bytes b]. cbn [held_len]. rewrite concat_snoc, length_app. lia.
Qed.

Lemma held_seq_snoc f r b : held_seq (sg_bytes <$> f :: r ++ [b]) = u32 (held_seq (sg_bytes <$> f :: r) + Z.of_nat (length (payload (sg_bytes b)))).
Proof.
  rewrite !fmap_cons, fmap_app. change (sg_bytes <$> [b]) with [sg_bytes b]. cbn [held_seq]. rewrite get32_htonl_seq. f_equal.
  rewrite app_comm_cons, concat_snoc, length_app. lia.
Qed.

Lemma add_packet_ok w f r g b d : describes g f r -> linked (g_links w) f r -> holds w (List.last r f) -> NoDup (sg_ptr <$> f :: r ++ [b]) ->
  holds w b -> well_formed (sg_bytes b) -> mergeable (sg_bytes b) = true -> (doff (sg_bytes f) = 8 -> doff (sg_bytes b) = 8) ->
  sz_payload d = Z.of_nat (length (payload (sg_bytes b))) -> 0 <= held_len (sg_bytes <$> f :: r ++ [b]) < 65536 -> Z.of_nat (length r) < 65536 ->
  exists g' w', add_packet (sg_ptr b) d (sg_hdr b) (sg_hdr b + 20) (sg_hdr b) g w = Ok (g', w') /\
    describes g' f (r ++ [b]) /\ linked (g_links w') f (r ++ [b]) /\ (forall q, same_at w w' q) /\ reclaimed w' = reclaimed w.
Proof.
  intros Hde Hli Hz Hnd Hh Hw Hm Hts Hd Htot Hcnt. pose proof (h_at _ _ Hh) as Ha. pose proof (mergeable_length _ Hw Hm) as Hl.
  apply mergeable_spec in Hm as (_ & Hi & Hdo & Ed). pose proof (wf_data _ Hw) as Ht. unfold add_packet.
  assert (sg_ptr (List.last r f) <> sg_ptr b) as Hne.
  { intros E. rewrite fmap_cons, fmap_app in Hnd. rewrite app_comm_cons in Hnd. apply NoDup_app in Hnd as (_ & Hnd & _).
    apply (Hnd (sg_ptr (List.last r f))); [|rewrite E; left]. rewrite <- fmap_cons. apply list_elem_of_fmap_2, last_elem. }
  rewrite (at_get16 _ _ _ _ 34 (sg_hdr b + 20 + 14) Ha) by lia. bind_ret. rewrite (at_get32 _ _ _ _ 28 (sg_hdr b + 20 + 8) Ha) by lia. bind_ret.
  assert (exists e, (if ts_present g then rd32 (memory w) (sg_ptr b) (sg_hdr b + 20 + 28) else Ok (tsecr g)) = Ok e /\
    (ts_present g = true -> e = get32 (sg_bytes b) 48)) as (e & -> & He).
  { destruct (ts_present g) eqn:E; [|by eexists]. pose proof (de_ts _ _ _ Hde) as Et. rewrite E in Et. symmetry in Et. apply Z.eqb_eq in Et.
    specialize (Hts Et). rewrite (at_get32 _ _ _ _ 48 (sg_hdr b + 20 + 28) Ha) by lia. by eexists. }
  bind_ret. rewrite (at_get16 _ _ _ _ 2 (sg_hdr b + 2) Ha) by lia. bind_ret.
  destruct (h_buf _ _ Hh) as (bb & Hbb & Hsz). rewrite (store_ok _ _ _ _ Hbb). bind_ret.
  destruct (h_link _ _ Hh) as (kb & Hkb & Hgb). rewrite (get_links_ok _ _ _ Hkb). bind_ret.
  destruct (h_link _ _ Hz) as (kz & Hkz & Hgz). destruct (h_buf _ _ Hz) as (bz & Hbz & Hsz').
  rewrite (de_last _ _ _ Hde). erewrite get_links_ok by (simpl; by rewrite lookup_insert_ne). bind_ret.
  erewrite store_ok by (simpl; by rewrite lookup_insert_ne). bind_ret.
  pose proof (held_len_snoc f r b) as Hhl. pose proof (payload_length _ Hw) as Hpl. unfold data_off in Hpl.
  eexists _, _. split; [done|]. split_and!; [|apply linked_snoc; try done|intros q|done].
  - destruct Hde. split; simpl; rewrite ?last_snoc; try done.
    + rewrite de_count0, length_app. simpl. rewrite wrap_small by lia. lia.
    + rewrite de_seq0, Hd. symmetry. apply (held_seq_snoc f r b).
    + rewrite de_tot0, Hd. rewrite wrap_small; [symmetry; apply (held_len_snoc f r b)|]. change (2 ^ 16) with 65536. lia.
  - rewrite (wf_tot _ Hw), ntohs_invol by lia. destruct Ha as [Ho _]. pose proof (h_hdr _ _ Hh). split; simpl; rewrite ?Hd; try done; rewrite wrap_small; lia.
  - unfold same_at. simpl. split_and!; [done|done|..]; destruct (decide (q = sg_ptr (List.last r f))) as [->|H1];
      rewrite ?lookup_insert_eq, ?(lookup_insert_ne _ _ q) by done; rewrite ?Hbz, ?Hkz; try done;
      (destruct (decide (q = sg_ptr b)) as [->|H2]; [rewrite lookup_insert_eq, ?Hbb, ?Hkb|rewrite lookup_insert_ne by done]; done).
Qed.

(** ** Flushing *)

Definition untot (k : links) : links := Links (pb_next k) (pb_payload k) (pb_len k) 0 (p_prev_desc k) (gro k) (is_vma_thr k).

(** The descriptors from the last to the first, by [p_prev_desc]. *)
Fixpoint back (L : gmap ptr links) (b : ptr) (rl : list ptr) : Prop :=
  match rl with
  | [] => is_Some (L !! b)
  | a :: rl => (exists k, L !! b = Some k /\ p_prev_desc k = Some a) /\ back L a rl
  end.

Definition tot_at (L : gmap ptr links) (q : ptr) : Z := default 0 (pb_tot_len <$> L !! q).
Definition tots (L : gmap ptr links) (l : list ptr) : Z := foldr (fun q n => tot_at L q + n) 0 l.

Lemma back_untot L L' b rl : (forall q, untot <$> L' !! q = untot <$> L !! q) -> back L b rl -> back L' b rl.
Proof.
  intros H. revert b. induction rl as [|a rl IH]; intros b; simpl.
  - intros [k Hk]. specialize (H b). rewrite Hk in H. destruct (L' !! b); [by eexists|done].
  - intros ((k & Hk & Hp) & Hb). split; [|by apply IH]. specialize (H b). rewrite Hk in H. simpl in H.
    destruct (L' !! b) as [k'|]; simplify_eq/=. exists k'. split; [done|]. congruence.
Qed.

Lemma tots_insert L q k l : q ∉ l -> tots (<[q := k]> L) l = tots L l.
Proof.
  induction l as [|a l IH]; intros H; simpl; [done|]. apply not_elem_of_cons in H as [H1 H2]. rewrite IH by done. unfold tot_at.
  by rewrite lookup_insert_ne.
Qed.

Lemma sum_lengths_ok fuel b rl w : back (g_links w) b rl -> NoDup (b :: rl) -> (length rl <= fuel)%nat ->
  (forall q, q ∈ b :: rl -> 0 <= tot_at (g_links w) q < 2 ^ 32) ->
  exists L, sum_lengths fuel b (List.last rl b) w = Ok (set_links L w) /\ (forall q, untot <$> L !! q = untot <$> g_links w !! q) /\
    tot_at L (List.last rl b) = u32 (tots (g_links w) (b :: rl)).
Proof.
  revert fuel b w. induction rl as [|a rl IH]; intros fuel b w Hb Hnd Hf Hr.
  - exists (g_links w). simpl. rewrite Z.add_0_r, wrap_small by (apply Hr; left). destruct fuel; simpl; rewrite bool_decide_true by done; by destruct w.
  - simpl in Hf. destruct fuel as [|fuel]; [lia|]. destruct Hb as ((k & Hk & Hp) & Hb). rewrite last_cons.
    assert (b <> List.last rl a) as Hne.
    { apply NoDup_cons in Hnd as [Hnd _]. intros E. apply Hnd. rewrite E. apply last_elem. }
    cbn [sum_lengths]. rewrite bool_decide_false by done. rewrite (get_links_ok _ _ _ Hk). bind_ret. rewrite Hp. cbn [must]. bind_ret.
    assert (exists kq, g_links w !! a = Some kq) as [kq Hkq] by (destruct rl; [done|destruct Hb as ((kq & ? & _) & _); eauto]).
    rewrite (get_links_ok _ _ _ Hkq). bind_ret. set (L1 := <[a := add_tot_len (pb_tot_len k) kq]> (g_links w)).
    assert (forall q, untot <$> L1 !! q = untot <$> g_links w !! q) as Hu.
    { intros q. unfold L1. destruct (decide (q = a)) as [->|]; [by rewrite lookup_insert_eq, Hkq|by rewrite lookup_insert_ne]. }
    destruct (IH fuel a (set_links L1 w)) as (L & E & HL & Ht).
    + by apply (back_untot (g_links w)).
    + by apply NoDup_cons in Hnd as [_ ?].
    + lia.
    + intros q Hq. simpl. unfold tot_at, L1. destruct (decide (q = a)) as [->|]; [rewrite lookup_insert_eq; by apply wrap_range|].
      rewrite lookup_insert_ne by done. apply Hr. by right.
    + exists L. split; [done|]. split; [intros q; by rewrite HL|]. rewrite Ht. simpl.
      apply NoDup_cons in Hnd as [Hb1 [Ha _]%NoDup_cons]. unfold L1 at 2. rewrite tots_insert by done. unfold tot_at, L1.
      rewrite lookup_insert_eq, Hk, Hkq. simpl. unfold wrap. rewrite Zplus_mod_idemp_l. f_equal. lia.
Qed.

Fixpoint prevs (L : gmap ptr links) (a : segment) (r : list segment) : Prop :=
  match r with
  | [] => True
  | b :: r => (exists k, L !! sg_ptr b = Some k /\ p_prev_desc k = Some (sg_ptr a)) /\ prevs L b r
  end.

Lemma linked_prevs L a r : linked L a r -> prevs L a r.
Proof. revert a. induction r as [|b r IH]; intros a; simpl; [done|]. intros (_ & (k & Hk & Ht) & Hl). split; [|auto]. exists k. split; [done|]. apply Ht. Qed.

Lemma prevs_snoc L a r b : prevs L a (r ++ [b]) ->
  prevs L a r /\ exists k, L !! sg_ptr b = Some k /\ p_prev_desc k = Some (sg_ptr (List.last r a)).
Proof.
  revert a. induction r as [|c r IH]; intros a; simpl; [intros (? & _); auto|]. intros (H1 & H2). apply IH in H2 as [H2 H3].
  split; [done|]. destruct r; [done|]. by rewrite last_cons in *.
Qed.

Lemma prevs_back L a r : prevs L a r -> is_Some (L !! sg_ptr a) ->
  exists rl, back L (sg_ptr (List.last r a)) rl /\ sg_ptr (List.last r a) :: rl = reverse (sg_ptr <$> a :: r) /\
    List.last rl (sg_ptr (List.last r a)) = sg_ptr a.
Proof.
  intros Hl Ha. induction r as [|b r IH] using rev_ind; [by exists []|].
  apply prevs_snoc in Hl as [Hl (k & Hk & Hp)]. destruct (IH Hl) as (rl & H1 & H2 & H3). rewrite last_snoc.
  exists (sg_ptr (List.last r a) :: rl). split_and!.
  - simpl. split; [by exists k|done].
  - rewrite H2, app_comm_cons, fmap_app, reverse_app. done.
  - by rewrite last_cons.
Qed.

Lemma at_payload mem p o g : well_formed g -> at_ mem p o g ->
  take (length (payload g)) (drop (Z.to_nat (o + (Z.of_nat (length g) - Z.of_nat (length (payload g))))) (mem p)) = payload g.
Proof.
  intros Hw (Ho & t & H). pose proof (payload_length g Hw). pose proof (wf_data g Hw). pose proof (wf_ihl g Hw). pose proof (wf_doff g Hw).
  unfold data_off in *. rewrite Z2Nat.inj_add by lia. rewrite <- drop_drop. unfold bytes_at in H. rewrite H.
  rewrite drop_app_le by lia. replace (Z.to_nat _) with (Z.to_nat (data_off g)) by (unfold data_off; lia). fold (payload g). apply take_app_length.
Qed.

Lemma at_take mem p o g : at_ mem p o g -> take (length g) (drop (Z.to_nat o) (mem p)) = g.
Proof. intros (Ho & t & H). unfold bytes_at in H. rewrite H. apply take_app_length. Qed.

(** The bytes behind the first segment. *)
Lemma chain_bytes_tail fuel L w a r : linked L a r -> Forall (holds w) r -> Forall (fun g => well_formed (sg_bytes g)) r ->
  (forall b, b ∈ r -> untot <$> g_links w !! sg_ptr b = untot <$> L !! sg_ptr b) -> (length r <= fuel)%nat -> r <> [] ->
  chain_bytes fuel w (sg_ptr <$> head r) = Ok (concat (payload <$> (sg_bytes <$> r))).
Proof.
  revert fuel a. induction r as [|b r IH]; intros fuel a; [done|]. intros (_ & (k & Hk & Ht) & Hl) Hh Hw HL Hf _.
  apply Forall_cons in Hh as [Hb Hh]. apply Forall_cons in Hw as [Hwb Hw]. simpl in Hf. destruct fuel as [|fuel]; [lia|].
  cbn [head fmap option_fmap option_map chain_bytes]. pose proof (HL b ltac:(left)) as Hu. rewrite Hk in Hu. simpl in Hu.
  destruct (g_links w !! sg_ptr b) as [k'|] eqn:Ek; simplify_eq/=. rewrite (get_links_ok _ _ _ Ek). bind_ret.
  assert (pb_next k' = sg_ptr <$> head r) as ->.
  { destruct r as [|c r]; simpl; [rewrite <- (tl_next _ _ _ _ Ht eq_refl); congruence|]. destruct Hl as ((kb & Hkb & Hn) & _). rewrite Hk in Hkb. congruence. }
  replace (pb_len k') with (pb_len k) by congruence. replace (pb_payload k') with (pb_payload k) by congruence.
  rewrite (tl_len _ _ _ _ Ht), (tl_payload _ _ _ _ Ht), Nat2Z.id, (at_payload _ _ _ _ Hwb (h_at _ _ Hb)).
  destruct (decide (r = [])) as [->|Hne].
  - destruct fuel; simpl; by rewrite app_nil_r.
  - rewrite (IH fuel b) by (try done; try lia; intros; apply HL; by right). done.
Qed.

Lemma rewrite_headers_ok g w f r : describes g f r -> holds w f -> holds w (List.last r f) ->
  well_formed (sg_bytes f) -> mergeable (sg_bytes f) = true -> well_formed (sg_bytes (List.last r f)) -> mergeable (sg_bytes (List.last r f)) = true ->
  (doff (sg_bytes f) = 8 -> doff (sg_bytes (List.last r f)) = 8) -> 
  exists w' k kl, rewrite_headers g w = Ok w' /\ g_links w !! sg_ptr f = Some k /\ g_links w !! sg_ptr (List.last r f) = Some kl /\
    at_ (memory w') (sg_ptr f) (sg_hdr f) (patch (held_len (sg_bytes <$> f :: r)) (sg_bytes (List.last r f)) (sg_bytes f)) /\
    (forall q, q <> sg_ptr f -> memory w' q = memory w q) /\ g_rx w' = g_rx w /\ reclaimed w' = reclaimed w /\
    (forall q, sz_data <$> g_bufs w' !! q = sz_data <$> g_bufs w !! q) /\
    g_links w' = <[sg_ptr f := Links (pb_next k) (sg_hdr f) (Z.of_nat (length (sg_bytes f))) (Z.of_nat (length (sg_bytes f))) (p_prev_desc k) true (is_vma_thr kl)]> (g_links w).
Proof.
  intros Hde Hf Hz Hwf Hmf Hwz Hmz Hts. pose proof (mergeable_length _ Hwf Hmf) as Hlf. pose proof (mergeable_length _ Hwz Hmz) as Hlz.
  apply mergeable_spec in Hmf as (_ & Hif & Hdf & Ed). apply mergeable_spec in Hmz as (_ & Hiz & Hdz & _).
  pose proof (wf_bytes _ Hwz) as Hbz. pose proof (wf_data _ Hwf) as Hsz. set (z := List.last r f) in *. set (fb := sg_bytes f) in *. set (zb := sg_bytes z) in *.
  unfold rewrite_headers. rewrite (de_first _ _ _ Hde), (de_ip _ _ _ Hde), (de_tcp _ _ _ Hde), (de_tot _ _ _ Hde), (de_ack _ _ _ Hde), (de_wnd _ _ _ Hde).
  fold z zb. rewrite bytes4_get, (bytes2_get zb 34) by (done || lia).
  destruct (at_write (sg_ptr f) (sg_hdr f) fb 2 (bytes2 (ntohs (held_len (sg_bytes <$> f :: r)))) w (sg_hdr f + 2) (h_at _ _ Hf)) as (m1 & -> & A1 & M1); [done|simpl; lia|lia|]. bind_ret.
  destruct (at_write (sg_ptr f) (sg_hdr f) _ 28 (sub 28 4 zb) (set_memory m1 w) (sg_hdr f + 20 + 8) A1) as (m2 & -> & A2 & M2).
  { intros E%(f_equal length). rewrite length_sub in E by lia. done. } { rewrite length_inserts, length_sub by lia. lia. } { lia. } bind_ret.
  destruct (at_write (sg_ptr f) (sg_hdr f) _ 34 (sub 34 2 zb) (set_memory m2 (set_memory m1 w)) (sg_hdr f + 20 + 14) A2) as (m3 & -> & A3 & M3).
  { intros E%(f_equal length). rewrite length_sub in E by lia. done. } { rewrite !length_inserts, length_sub by lia. lia. } { lia. } bind_ret.
  set (w3 := set_memory m3 _).
  assert (exists m4, (if ts_present g then write (sg_ptr f) (sg_hdr f + 20 + 28) (bytes4 (tsecr g)) w3 else Ok w3) = Ok (set_memory m4 w3) /\
    at_ m4 (sg_ptr f) (sg_hdr f) (patch (held_len (sg_bytes <$> f :: r)) zb fb) /\ (forall q, q <> sg_ptr f -> m4 q = m3 q)) as (m4 & -> & A4 & M4).
  { unfold patch. rewrite !get8_inserts by (rewrite ?length_sub by lia; simpl; lia). pose proof (de_ts _ _ _ Hde : ts_present g = (doff fb =? 8)) as Et. rewrite <- Ed, <- Et.
    destruct (ts_present g) eqn:E; [|by exists m3]. symmetry in Et. apply Z.eqb_eq in Et. specialize (Hts Et).
    rewrite (de_echo _ _ _ Hde E). fold z zb. rewrite bytes4_get by (done || lia).
    destruct (at_write (sg_ptr f) (sg_hdr f) _ 48 (sub 48 4 zb) w3 (sg_hdr f + 20 + 28) A3) as (m4 & -> & A4 & M4); [..|by exists m4].
    { intros E'%(f_equal length). rewrite length_sub in E' by lia. done. } { rewrite !length_inserts, length_sub by lia. lia. } { lia. } }
  bind_ret. destruct (h_buf _ _ Hf) as (b & Hb & Hbs). erewrite store_ok by (exact Hb). bind_ret.
  erewrite load_ok by apply lookup_insert_eq. bind_ret. destruct (h_rx _ _ Hf) as (d & Hd & Hl4 & _).
  change (g_rx (set_memory m4 w3)) with (g_rx w). rewrite Hd. cbn [must]. bind_ret. unfold tcp_info. rewrite Hl4. bind_ret.
  destruct (h_link _ _ Hf) as (k & Hk & Hgk). destruct (h_link _ _ Hz) as (kl & Hkl & Hgl). rewrite (get_links_ok (sg_ptr f) _ k) by exact Hk. bind_ret.
  rewrite (de_last _ _ _ Hde), (get_links_ok _ _ kl) by exact Hkl. bind_ret. eexists _, k, kl. split; [done|]. split; [done|]. split; [done|].
  cbn [memory g_rx reclaimed g_bufs g_links set_links set_g_bufs set_memory]. split_and!; [done|intros q Hq; by rewrite M4, M3, M2 by done; apply M1|done|done|..].
  - intros q. destruct (decide (q = sg_ptr f)) as [->|]; [by rewrite lookup_insert_eq, Hb|by rewrite lookup_insert_ne].
  - change (sz_data (set_pbuf PBUF_FLAG_IS_CUSTOM 1 b)) with (sz_data b). rewrite Hbs. fold fb.
    replace (sg_hdr f + Z.of_nat (length fb) - sg_hdr f) with (Z.of_nat (length fb)) by lia. rewrite wrap_small by (change (2 ^ 16) with 65536; lia). done.
Qed.

Lemma NoDup_size {B} (m : gmap ptr B) (l : list ptr) : NoDup l -> (forall q, q ∈ l -> is_Some (m !! q)) -> (length l <= size m)%nat.
Proof.
  intros Hnd H. rewrite <- size_dom, <- (size_list_to_set (C := gset ptr)) by done.
  apply subseteq_size. intros q. rewrite elem_of_list_to_set, elem_of_dom. apply H.
Qed.

(** Segments that can be held together. *)
Definition holdable (f : segment) (r : list segment) : Prop :=
  Forall (fun g => well_formed (sg_bytes g) /\ mergeable (sg_bytes g) = true /\ (doff (sg_bytes f) = 8 -> doff (sg_bytes g) = 8)) (f :: r) /\
  NoDup (sg_ptr <$> f :: r) /\ held_len (sg_bytes <$> f :: r) < 65536.

Lemma packet_single w g : holds w g -> packet w (sg_ptr g) = Ok (Z.of_nat (length (sg_bytes g)), sg_bytes g).
Proof.
  intros H. pose proof (at_take _ _ _ _ (h_at _ _ H)) as Ht. destruct H as [_ _ (d & Hd & Hl & _) (b & Hb & Hs) (k & Hk & Hg)]. unfold packet.
  rewrite (get_links_ok _ _ _ Hk). bind_ret. rewrite Hg, Hd. cbn [must]. bind_ret. unfold tcp_info. rewrite Hl. bind_ret.
  rewrite (load_ok _ _ _ Hb). bind_ret. rewrite Hs. replace (_ + _ - _) with (Z.of_nat (length (sg_bytes g))) by lia. by rewrite Nat2Z.id, Ht.
Qed.

Lemma tots_cons L q l : tots L (q :: l) = tot_at L q + tots L l.
Proof. done. Qed.

Lemma tots_segments L a r : linked L a r -> tots L (sg_ptr <$> r) = Z.of_nat (length (concat (payload <$> (sg_bytes <$> r)))).
Proof.
  revert a. induction r as [|b r IH]; intros a; [done|]. intros (_ & (k & Hk & Ht) & Hl). rewrite !fmap_cons, tots_cons, (IH b) by done.
  unfold tot_at. rewrite Hk. simpl. rewrite length_app, (tl_tot _ _ _ _ Ht). lia.
Qed.

Lemma tots_perm L l l' : l ≡ₚ l' -> tots L l = tots L l'.
Proof. induction 1; rewrite ?tots_cons; lia. Qed.

Lemma prevs_insert L q k a r : prevs L a r -> q ∉ sg_ptr <$> r -> prevs (<[q := k]> L) a r.
Proof.
  revert a. induction r as [|b r IH]; intros a; [done|]. intros [H1 H2]. rewrite fmap_cons. intros [H3 H4]%not_elem_of_cons.
  split; [by rewrite lookup_insert_ne|]. by apply IH.
Qed.

Lemma linked_is_Some L a r q : linked L a r -> is_Some (L !! sg_ptr a) -> q ∈ sg_ptr <$> a :: r -> is_Some (L !! q).
Proof.
  revert a. induction r as [|b r IH]; intros a Hl Ha; [by intros ->%list_elem_of_singleton|]. rewrite fmap_cons.
  destruct Hl as (_ & (k & Hk & _) & Hl). intros [->|Hq]%elem_of_cons; [done|]. apply (IH b); [done|by eexists|done].
Qed.

Lemma tots_bound L l : (forall q, q ∈ l -> 0 <= tot_at L q) -> 0 <= tots L l /\ forall q, q ∈ l -> tot_at L q <= tots L l.
Proof.
  induction l as [|x l IH]; intros H; [split; [done|]; by intros q ?%not_elem_of_nil|]. rewrite tots_cons.
  destruct IH as [H1 H2]; [intros; apply H; by right|]. pose proof (H x ltac:(left)). split; [lia|].
  intros q [->|Hq]%elem_of_cons; [lia|]. specialize (H2 q Hq). lia.
Qed.

Lemma linked_tot L a r q : linked L a r -> held_len (sg_bytes <$> a :: r) < 65536 -> q ∈ sg_ptr <$> r -> 0 <= tot_at L q < 65536.
Proof.
  intros Hl Hlen Hq. pose proof (tots_segments L a r Hl) as Ht. rewrite fmap_cons in Hlen. cbn [held_len] in Hlen.
  assert (forall q, q ∈ sg_ptr <$> r -> 0 <= tot_at L q) as Hpos.
  { clear -Hl. revert a Hl. induction r as [|b r IH]; intros a Hl q; [by intros ?%not_elem_of_nil|]. destruct Hl as (_ & (k & Hk & Hb) & Hl).
    rewrite fmap_cons. intros [->|Hq]%elem_of_cons; [|by apply (IH b)]. unfold tot_at. rewrite Hk. simpl. rewrite (tl_tot _ _ _ _ Hb). lia. }
  destruct (tots_bound _ _ Hpos) as [_ Hb]. specialize (Hpos q Hq). specialize (Hb q Hq). lia.
Qed.

(** What [rewrite_headers] and [sum_lengths] make is the merged packet. *)
Lemma flushed_packet g w f r : describes g f r -> linked (g_links w) f r -> Forall (holds w) (f :: r) -> holdable f r -> r <> [] ->
  exists w', (w ← rewrite_headers g w; sum_lengths (Z.to_nat (buf_count g)) (p_last g) (p_first g) w) = Ok w' /\
    packet w' (sg_ptr f) = Ok (held_len (sg_bytes <$> f :: r), merge (sg_bytes <$> f :: r)) /\ is_Some (g_bufs w' !! sg_ptr f) /\
    reclaimed w' = reclaimed w /\ forall q, q ∉ sg_ptr <$> f :: r -> same_at w w' q.
Proof.
  intros Hde Hli Hh (Hok & Hnd & Hlen) Hne. set (z := List.last r f). pose proof (last_elem f r) as Hz.
  pose proof (proj1 (Forall_forall _ _) Hok _ Hz) as (Hwz & Hmz & Htz). pose proof (proj1 (Forall_forall _ _) Hh _ Hz) as Hhz.
  pose proof Hok as [(Hwf & Hmf & _) Hokr]%Forall_cons. pose proof Hh as [Hhf Hhr]%Forall_cons.
  destruct (rewrite_headers_ok g w f r) as (w1 & k & kl & E & Hk & Hkl & Hat & Hmem & Hrx & Hrec & Hsz & HL); try done. rewrite E. bind_ret.
  rewrite (de_count _ _ _ Hde), (de_last _ _ _ Hde), (de_first _ _ _ Hde), Nat2Z.id. pose proof Hnd as [Hfr Hndr]%NoDup_cons.
  set (kf := Links _ _ _ _ _ _ _) in HL. assert (forall q, q <> sg_ptr f -> g_links w1 !! q = g_links w !! q) as HLq by (intros; by rewrite HL, lookup_insert_ne).
  destruct (prevs_back (g_links w1) f r) as (rl & Hb & Hrev & Hlast).
  { rewrite HL. by apply prevs_insert; [apply linked_prevs|]. } { rewrite HL, lookup_insert_eq. by eexists. }
  assert (sg_ptr z :: rl ≡ₚ sg_ptr <$> f :: r) as Hperm by (unfold z; rewrite Hrev; apply reverse_Permutation).
  destruct (sum_lengths_ok (length (f :: r)) (sg_ptr z) rl w1) as (L & Es & HLu & Ht).
  { done. } { by rewrite Hperm. } { apply Permutation_length in Hperm. rewrite length_fmap in Hperm. simpl in *. lia. }
  { intros q Hq. rewrite Hperm in Hq. pose proof (wf_data _ Hwf). apply elem_of_cons in Hq as [->|Hq].
    - unfold tot_at. rewrite HL, lookup_insert_eq. simpl. lia.
    - unfold tot_at. rewrite HLq by (by intros ->). pose proof (linked_tot _ _ _ _ Hli Hlen Hq) as Hx. unfold tot_at in Hx. lia. }
  fold z. unfold z in Es, Ht. rewrite Hlast in Es, Ht. fold z in Es. rewrite Es. eexists. split; [done|].
  assert (tots (g_links w1) (sg_ptr (List.last r f) :: rl) = held_len (sg_bytes <$> f :: r)) as Etot.
  { rewrite (tots_perm _ _ _ Hperm), fmap_cons, tots_cons, HL, tots_insert, (tots_segments _ _ _ Hli) by done.
    unfold tot_at. rewrite lookup_insert_eq. done. }
  assert (0 <= held_len (sg_bytes <$> f :: r)) as Hpos by (simpl; lia).
  rewrite Etot, wrap_small in Ht by lia.
  assert (forall q, q <> sg_ptr f -> same_at w (set_links L w1) q) as Hsame.
  { intros q Hq. unfold same_at. simpl. split_and!; [by apply Hmem|by rewrite Hrx|by apply Hsz|].
    specialize (HLu q). rewrite HLq in HLu by done. destruct (L !! q), (g_links w !! q); simplify_eq/=; congruence. }
  split_and!; [|simpl|done|by intros q [Hq _]%not_elem_of_cons; apply Hsame].
  - pose proof (HLu (sg_ptr f)) as Hu. rewrite HL, lookup_insert_eq in Hu. destruct (L !! sg_ptr f) as [k'|] eqn:Ek'; [|done].
    cbn [fmap option_fmap option_map] in Hu. injection Hu as U1 U2 U3 U4 U5 U6.
    unfold packet. rewrite (get_links_ok _ _ k') by done. bind_ret. rewrite U5.
    assert (length (f :: r) <= size L)%nat as Hsize.
    { rewrite <- (length_fmap sg_ptr). apply NoDup_size; [done|]. intros q Hq. specialize (HLu q). rewrite HL in HLu.
      destruct (decide (q = sg_ptr f)) as [->|]; [by eexists|]. rewrite lookup_insert_ne in HLu by done.
      destruct (linked_is_Some _ _ _ _ Hli (mk_is_Some _ _ Hk) Hq) as [kq Hkq]. rewrite Hkq in HLu. destruct (L !! q); [by eexists|done]. }
    change (g_links (set_links L w1)) with L. destruct (size L) as [|n]; [simpl in Hsize; lia|].
    cbn [chain_bytes]. rewrite (get_links_ok _ _ k') by done. bind_ret. rewrite U1, U2, U3.
    assert (pb_next k = sg_ptr <$> head r) as -> by (destruct r; [done|]; destruct Hli as ((kk & Hkk & Hn) & _); rewrite Hk in Hkk; simplify_eq; done).
    rewrite (chain_bytes_tail n (g_links w) (set_links L w1) f r); [|done|..].
    + bind_ret. simpl. rewrite Nat2Z.id. rewrite <- (length_patch (held_len (sg_bytes <$> f :: r)) (sg_bytes (List.last r f)) (sg_bytes f)) at 1.
      rewrite (at_take _ _ _ _ Hat). unfold tot_at in Ht. rewrite Ek' in Ht. simpl in Ht. rewrite Ht. do 2 f_equal.
      destruct r as [|b r]; [done|]. cbn [merge fmap list_fmap]. do 2 f_equal. symmetry. apply (last_fmap sg_bytes f (b :: r)).
    + apply Forall_forall. intros b Hbr. apply (holds_same w); [|by apply (proj1 (Forall_forall _ _) Hhr)].
      apply Hsame. intros Eb. apply Hfr. rewrite <- Eb. by apply list_elem_of_fmap_2.
    + eapply Forall_impl; [exact Hokr|]. by intros ? (? & _).
    + intros b Hbr. simpl. rewrite HLu, HLq; [done|]. intros Eb. apply Hfr. rewrite <- Eb. by apply list_elem_of_fmap_2.
    + simpl in Hsize. lia.
    + done.
  - destruct (h_buf _ _ Hhf) as (b & Hbb & _). specialize (Hsz (sg_ptr f)). rewrite Hbb in Hsz. destruct (g_bufs w1 !! sg_ptr f); [by eexists|done].
Qed.

(** ** The stream of a socket *)

Section Stream.
Context (keeps : res (Z * list Z) -> bool) (flow_max buf_max mtu D : Z) (k : flow_key).

Abbreviation log := (list (res (Z * list Z))).

(** A socket that writes down the packets it is given. *)
Definition log_cb (w : gro_world) (p : ptr) (s : sink) (a : log) : bool * log := (keeps (packet w p), a ++ [packet w p]).

Definition one_sink (f : rfs) : Prop := exists s, take (m_n_sinks_list_entries f) (m_sinks_list f) = [Some s].

Fixpoint receive_all (l : list segment) (s : gro_state log) : res (gro_state log) :=
  match l with
  | [] => Ok s
  | g :: l => x ← rx_dispatch_packet log_cb flow_max buf_max mtu k (sg_ptr g) s; receive_all l (snd x)
  end.

Lemma dispatch_ok f p (s : gro_state log) b : one_sink f -> g_bufs (world s) !! p = Some b ->
  exists ret n, dispatch log_cb f p s = Ok (ret, GroState (m_p_rfs_arr s) (flows s)
    (set_g_bufs (<[p := set_ref_count n b]> (g_bufs (world s))) (world s)) (sockets s ++ [packet (world s) p])).
Proof.
  intros [x Hx] Hb. unfold dispatch, uc_rx_dispatch_packet. rewrite Hx. simpl. unfold log_cb.
  destruct (keeps (packet (world s) p)); simpl; rewrite (store_ok _ _ _ _ Hb); bind_ret; eauto.
Qed.

Lemma same_at_ref p n b w q : g_bufs w !! p = Some b -> same_at w (set_g_bufs (<[p := set_ref_count n b]> (g_bufs w)) w) q.
Proof.
  intros Hb. unfold same_at. simpl. split_and!; try done. destruct (decide (q = p)) as [->|]; [by rewrite lookup_insert_eq, Hb|by rewrite lookup_insert_ne].
Qed.

(** The state between two packets, with the segments that are held. *)
Record gro_inv (held : list segment) (s : gro_state log) : Prop := GroInv {
  gi_flow : exists f, flows s !! k = Some f /\ one_sink (base f) /\ (m_b_reserved f = true -> 1 <= flow_max) /\
    m_p_rfs_arr s = (if m_b_reserved f then [k] else []) /\
    match held with
    | [] => m_b_active f = false
    | a :: r => m_b_active f = true /\ m_b_reserved f = true /\ holdable a r /\ full buf_max (m_n_byte_max mtu) (sg_bytes <$> held) = false /\
        exists g, m_gro_desc f = Some g /\ describes g a r /\ linked (g_links (world s)) a r
    end;
  gi_holds : Forall (holds (world s)) held;
  gi_doff : Forall (fun g => doff (sg_bytes g) = D) held
}.

Lemma gro_flush_ok (s : gro_state log) f g a r : flows s !! k = Some f -> one_sink (base f) -> m_b_active f = true -> m_gro_desc f = Some g ->
  describes g a r -> linked (g_links (world s)) a r -> holdable a r -> Forall (holds (world s)) (a :: r) ->
  exists s', flush_gro_desc log_cb k s = Ok s' /\ flows s' = <[k := GroFlow (base f) false (m_b_reserved f) (m_gro_desc f)]> (flows s) /\
    m_p_rfs_arr s' = m_p_rfs_arr s /\ sockets s' = sockets s ++ [Ok (held_len (sg_bytes <$> a :: r), merge (sg_bytes <$> a :: r))] /\
    forall q, q ∉ sg_ptr <$> a :: r -> same_at (world s) (world s') q.
Proof.
  intros Hf Hone Hact Hg Hde Hli Hok Hh. unfold flush_gro_desc. rewrite Hf. cbn [must]. bind_ret. rewrite Hact, Hg. cbn [must]. bind_ret.
  rewrite (de_first _ _ _ Hde).
  assert (exists w', (if 1 <? buf_count g then w ← rewrite_headers g (world s); sum_lengths (Z.to_nat (buf_count g)) (p_last g) (sg_ptr a) w else Ok (world s)) = Ok w' /\
    packet w' (sg_ptr a) = Ok (held_len (sg_bytes <$> a :: r), merge (sg_bytes <$> a :: r)) /\ is_Some (g_bufs w' !! sg_ptr a) /\
    forall q, q ∉ sg_ptr <$> a :: r -> same_at (world s) w' q) as (w' & -> & Hp & [b Hb] & Hs).
  { rewrite (de_count _ _ _ Hde). destruct (Z.ltb_spec 1 (Z.of_nat (length (a :: r)))) as [E|E].
    - destruct (flushed_packet g (world s) a r) as (w' & H1 & H2 & H3 & _ & H4); try done; [by intros ->|].
      rewrite (de_count _ _ _ Hde), (de_first _ _ _ Hde) in H1. by exists w'.
    - exists (world s). destruct r; [|simpl in E; lia]. apply Forall_cons in Hh as [Ha _]. rewrite (packet_single _ _ Ha).
      destruct (h_buf _ _ Ha) as (b & Hb & _). split_and!; [done| |by eexists|done]. simpl. by rewrite Z.add_0_r. }
  bind_ret. destruct (dispatch_ok (base f) (sg_ptr a) (set_gro_world w' s) b) as (ret & n & ->); [done..|]. bind_ret.
  eexists. split; [done|]. destruct ret; simpl; rewrite Hp; (split_and!; [done..|]); intros q Hq; (eapply same_at_trans; [by apply Hs|]);
    apply (same_at_ref _ n _ _ q Hb).
Qed.

Abbreviation groups' := (groups (1 <=? flow_max) buf_max (m_n_byte_max mtu)).

Definition show (l : list (list Z)) : res (Z * list Z) := Ok (held_len l, merge l).

(** What one packet does: the groups that leave, and the segments that are
    held from then on. *)
Definition stepped (held : list segment) (g : segment) (s s' : gro_state log) : Prop :=
  exists out held', (forall l, groups' (sg_bytes <$> held) (sg_bytes g :: l) = out ++ groups' (sg_bytes <$> held') l) /\
    sockets s' = sockets s ++ (show <$> out) /\ gro_inv held' s' /\ held' ⊆ held ++ [g] /\
    forall q, q ∉ sg_ptr <$> held ++ [g] -> same_at (world s) (world s') q.

(** A packet that goes straight to the socket. *)
Lemma dispatch_step (s : gro_state log) f g : flows s !! k = Some f -> one_sink (base f) -> m_b_active f = false -> (m_b_reserved f = true -> 1 <= flow_max) ->
  m_p_rfs_arr s = (if m_b_reserved f then [k] else []) -> holds (world s) g ->
  returns (fun x => sockets x.2 = sockets s ++ [show [sg_bytes g]] /\ gro_inv [] x.2 /\ forall q, same_at (world s) (world x.2) q) (dispatch log_cb (base f) (sg_ptr g) s).
Proof.
  intros Hf Hone Hact Hres Harr Hh. destruct (h_buf _ _ Hh) as (b & Hb & _). destruct (dispatch_ok (base f) _ s b Hone Hb) as (ret & n & ->).
  apply returns_Ok. simpl. rewrite (packet_single _ _ Hh). unfold show. simpl. rewrite Z.add_0_r. split; [done|]. split; [|intros q; by apply same_at_ref].
  split; [|constructor..]. by exists f.
Qed.

(** A segment was taken: it is held, or what is held leaves. *)
Lemma flush_full_step (s : gro_state log) f gd a r : flows s !! k = Some f -> one_sink (base f) -> m_b_active f = true -> m_b_reserved f = true -> 1 <= flow_max ->
  m_p_rfs_arr s = [k] -> m_gro_desc f = Some gd -> describes gd a r -> linked (g_links (world s)) a r -> holdable a r -> Forall (holds (world s)) (a :: r) -> Forall (fun g => doff (sg_bytes g) = D) (a :: r) ->
  returns (fun x => if full buf_max (m_n_byte_max mtu) (sg_bytes <$> a :: r)
    then sockets x.2 = sockets s ++ [show (sg_bytes <$> a :: r)] /\ gro_inv [] x.2 /\ forall q, q ∉ sg_ptr <$> a :: r -> same_at (world s) (world x.2) q
    else x.2 = s /\ gro_inv (a :: r) s) (flush_full log_cb buf_max mtu k gd s).
Proof.
  intros Hf Hone Hact Hres Hmax Harr Hg Hde Hli Hok Hh HD. unfold flush_full.
  assert ((buf_max <=? buf_count gd) || (m_n_byte_max mtu <=? ip_tot_len gd) = full buf_max (m_n_byte_max mtu) (sg_bytes <$> a :: r)) as ->
    by (unfold full; by rewrite (de_count _ _ _ Hde), (de_tot _ _ _ Hde), length_fmap).
  destruct (full _ _ _) eqn:E.
  - destruct (gro_flush_ok s f gd a r) as (s' & -> & Hfl & Ha & Hso & Hs); [done..|]. bind_ret. apply returns_Ok. simpl. split; [done|]. split; [|done].
    split; [|constructor..]. eexists. rewrite Hfl, lookup_insert_eq. split; [done|]. simpl. rewrite Hres, Ha. done.
  - apply returns_Ok. simpl. split; [done|]. split; [|done..]. exists f. split_and!; try done; [by rewrite Hres|]. eauto 10.
Qed.

Lemma payload_count l : Forall (fun g => mergeable (sg_bytes g) = true) l -> (length l <= length (concat (payload <$> (sg_bytes <$> l))))%nat.
Proof.
  induction 1 as [|g l (Hp & _)%mergeable_spec _ IH]; [done|]. rewrite !fmap_cons. cbn [concat]. rewrite length_app. simpl.
  destruct (payload (sg_bytes g)); [done|]. simpl. lia.
Qed.

Lemma holdable_single g : well_formed (sg_bytes g) -> mergeable (sg_bytes g) = true -> holdable g [].
Proof.
  intros Hw Hm. pose proof (wf_data _ Hw). split_and!; [constructor; [done|constructor]|apply NoDup_singleton|simpl; lia].
Qed.

Lemma holdable_snoc a r g : holdable a r -> full buf_max (m_n_byte_max mtu) (sg_bytes <$> a :: r) = false -> Forall (fun g => doff (sg_bytes g) = D) (a :: r) ->
  0 < mtu <= 65535 -> Z.of_nat (length (sg_bytes g)) <= mtu -> well_formed (sg_bytes g) -> mergeable (sg_bytes g) = true -> doff (sg_bytes g) = D ->
  sg_ptr g ∉ sg_ptr <$> a :: r -> holdable a (r ++ [g]) /\ Z.of_nat (length r) < 65536 /\ 0 <= held_len (sg_bytes <$> a :: r ++ [g]).
Proof.
  intros (H1 & H2 & H3) Hfull HD Hmtu Hlen Hw Hm Hd Hp. apply orb_false_iff in Hfull as [_ Hb]. apply Z.leb_gt in Hb.
  unfold m_n_byte_max, MAX_AGGR_BYTE_PER_STREAM in Hb. rewrite wrap_small in Hb by lia.
  pose proof (mergeable_length _ Hw Hm). pose proof (payload_length _ Hw) as Hpl. unfold data_off in Hpl. pose proof (wf_ihl _ Hw). pose proof (wf_doff _ Hw).
  pose proof (held_len_snoc a r g) as Hs. assert (0 <= held_len (sg_bytes <$> a :: r)) by (simpl; lia). apply Forall_cons in HD as [Da _]. unfold holdable. split_and!.
  - rewrite app_comm_cons. apply Forall_app. split; [done|]. constructor; [|constructor]. split_and!; [done..|congruence].
  - rewrite app_comm_cons, fmap_app. apply NoDup_app. split_and!; [done| |apply NoDup_singleton]. intros x Hx ->%list_elem_of_singleton. done.
  - rewrite Hs. lia.
  - pose proof (payload_count r) as Hc. assert (length r <= length (concat (payload <$> (sg_bytes <$> r))))%nat as Hr.
    { apply Hc. apply Forall_cons in H1 as [_ H1]. eapply Forall_impl; [exact H1|]. by intros ? (_ & ? & _). }
    rewrite fmap_cons in H3. cbn [held_len] in H3. lia.
  - rewrite Hs. lia.
Qed.

Lemma receive_idle g (s : gro_state log) : gro_inv [] s -> 0 < mtu <= 65535 -> holds (world s) g -> well_formed (sg_bytes g) ->
  Z.of_nat (length (sg_bytes g)) <= mtu -> (mergeable (sg_bytes g) = true -> doff (sg_bytes g) = D) -> sg_ptr g ∉ sg_ptr <$> [] ->
  returns (fun x => stepped [] g s x.2) (rx_dispatch_packet log_cb flow_max buf_max mtu k (sg_ptr g) s).
Proof.
  intros [(f & Hf & Hone & Hres & Harr & Hheld) Hh HD] Hmtu Hg Hw Hlen HDg Hp. unfold rx_dispatch_packet. rewrite Hf. cbn [must]. bind_ret.
  destruct (h_rx _ _ Hg) as (d & Hd & Hl4 & Hpay). rewrite Hd. cbn [must]. bind_ret. unfold tcp_info. rewrite Hl4. bind_ret.
  rewrite Hheld. cbn [negb andb].
  assert (negb (m_b_reserved f) && is_stream_max flow_max s = negb (1 <=? flow_max)) as ->.
  { unfold is_stream_max. rewrite Harr. destruct (m_b_reserved f); simpl; [rewrite (proj2 (Z.leb_le 1 flow_max)) by auto; done|].
    change (Z.of_nat 0) with 0. destruct (Z.leb_spec flow_max 0), (Z.leb_spec 1 flow_max); (done || lia). }
  assert (forall l, (1 <=? flow_max) && mergeable (sg_bytes g) = false -> groups' (sg_bytes <$> []) (sg_bytes g :: l) = [[sg_bytes g]] ++ groups' (sg_bytes <$> []) l) as Hgr
    by (intros l E; simpl; by rewrite E).
  assert (((1 <=? flow_max) && mergeable (sg_bytes g) = false -> returns (fun x => stepped [] g s x.2) (dispatch log_cb (base f) (sg_ptr g) s))) as Hdisp.
  { intros E. eapply returns_mono; [|by apply dispatch_step]. intros [ret s'] (H1 & H2 & H3). simpl in *. exists [[sg_bytes g]], []. split_and!; try done; [by intros l; apply Hgr|set_solver]. }
  destruct (Z.leb_spec 1 flow_max) as [Hmax|Hmax]; [|by apply Hdisp]. cbn [negb].
  rewrite (tcp_ip_check_ok _ _ _ Hg Hw Hpay). bind_ret. destruct (mergeable (sg_bytes g)) eqn:Em; [|simpl; by apply Hdisp]. cbn [negb].
  destruct (mergeable_spec _ Em) as (_ & Hi & _). rewrite Hi. change (5 * 4) with 20.
  assert (exists s1, (if m_b_reserved f then (true, s) else reserve_stream flow_max k s) = (true, s1) /\ flows s1 = flows s /\ world s1 = world s /\
    sockets s1 = sockets s /\ m_p_rfs_arr s1 = [k]) as (s1 & -> & Hfl & Hwo & Hso & Ha).
  { unfold reserve_stream, is_stream_max. rewrite Harr. destruct (m_b_reserved f); [by exists s|]. simpl. change (Z.of_nat 0) with 0.
    destruct (Z.leb_spec flow_max 0); [lia|]. by eexists. }
  rewrite Hwo. destruct (init_gro_desc_ok _ _ _ Hg Hw Em Hpay) as (gd & -> & Hde). bind_ret.
  eapply returns_mono; [|apply (flush_full_step _ (GroFlow (base f) true true (Some gd)) gd g []); try done; try (simpl; by rewrite ?lookup_insert_eq)].
  - intros [ret s'] H. simpl in *. rewrite Hwo, Hso in H. unfold stepped. destruct (full buf_max (m_n_byte_max mtu) [sg_bytes g]) eqn:Ef.
    + destruct H as (H1 & H2 & H3). exists [[sg_bytes g]], []. split_and!; try done; [|set_solver].
      intros l. simpl. rewrite Em, (proj2 (Z.leb_le 1 flow_max)) by done. simpl. by rewrite Ef.
    + destruct H as [-> H2]. exists [], [g]. split_and!; try done; [|simpl; by rewrite Hso, app_nil_r|intros q _; simpl; by rewrite Hwo].
      intros l. simpl. rewrite Em, (proj2 (Z.leb_le 1 flow_max)) by done. simpl. by rewrite Ef.
  - by apply holdable_single.
  - simpl. rewrite Hwo. constructor; [done|constructor].
  - constructor; [by apply HDg|constructor].
Qed.

Lemma receive_held a r g (s : gro_state log) : gro_inv (a :: r) s -> 0 < mtu <= 65535 -> holds (world s) g -> well_formed (sg_bytes g) ->
  Z.of_nat (length (sg_bytes g)) <= mtu -> (mergeable (sg_bytes g) = true -> doff (sg_bytes g) = D) -> sg_ptr g ∉ sg_ptr <$> (a :: r) ->
  returns (fun x => stepped (a :: r) g s x.2) (rx_dispatch_packet log_cb flow_max buf_max mtu k (sg_ptr g) s).
Proof.
  intros [(f & Hf & Hone & Hres & Harr & Hheld) Hh HD] Hmtu Hg Hw Hlen HDg Hp. unfold rx_dispatch_packet. rewrite Hf. cbn [must]. bind_ret.
  destruct (h_rx _ _ Hg) as (d & Hd & Hl4 & Hpay). rewrite Hd. cbn [must]. bind_ret. unfold tcp_info. rewrite Hl4. bind_ret.
  destruct Hheld as (Hact & Hresv & Hok & Hfull & gd & Hgd & Hde & Hli). rewrite Hact. cbn [negb andb].
  rewrite (tcp_ip_check_ok _ _ _ Hg Hw Hpay). bind_ret.
  assert (mergeable (sg_bytes g) && follows (sg_bytes <$> a :: r) (sg_bytes g) = false ->
    returns (fun x => stepped (a :: r) g s x.2) (s ← flush_gro_desc log_cb k s; dispatch log_cb (base f) (sg_ptr g) s)) as Hflush.
  { intros E. destruct (gro_flush_ok s f gd a r) as (s1 & -> & Hfl & Ha & Hso & Hs); [done..|]. bind_ret.
    eapply returns_mono; [|apply (dispatch_step s1 (GroFlow (base f) false (m_b_reserved f) (m_gro_desc f))); try done; [by rewrite Hfl, lookup_insert_eq|by rewrite Ha|]].
    - intros [ret s'] (H1 & H2 & H3). simpl in H1, H2, H3 |- *. exists [sg_bytes <$> a :: r; [sg_bytes g]], []. split_and!; try done.
      + intros l. cbn [groups]. by rewrite bool_decide_false, E by done.
      + rewrite H1, Hso, <- app_assoc. done.
      + set_solver.
      + intros q Hq. eapply same_at_trans; [apply Hs|apply H3]. rewrite fmap_app in Hq. set_solver.
    - apply (holds_same (world s)); [by apply Hs|done]. }
  destruct (mergeable (sg_bytes g)) eqn:Em; cbn [negb]; [|by apply Hflush]. cbn [andb] in Hflush.
  rewrite Hgd. cbn [must]. bind_ret. destruct (mergeable_spec _ Em) as (_ & Hi & _). rewrite Hi. change (5 * 4) with 20.
  pose proof (mergeable_length _ Hw Em) as Hml. pose proof (wf_doff _ Hw).
  rewrite (at_get32 _ _ _ _ 24 (sg_hdr g + 20 + 4) (h_at _ _ Hg)) by lia. bind_ret. rewrite (de_seq _ _ _ Hde).
  assert ((if negb (htonl (get32 (sg_bytes g) 24) =? held_seq (sg_bytes <$> a :: r)) then Ok false else timestamp_check (sg_ptr g) (sg_hdr g + 20) (world s)) =
    Ok (follows (sg_bytes <$> a :: r) (sg_bytes g))) as ->.
  { unfold follows. destruct (_ =? _); [|done]. simpl. by apply timestamp_check_ok. }
  bind_ret. destruct (follows (sg_bytes <$> a :: r) (sg_bytes g)) eqn:Efo; cbn [negb]; [|by apply Hflush].
  destruct (holdable_snoc a r g Hok Hfull HD Hmtu Hlen Hw Em (HDg eq_refl) Hp) as (Hok' & Hcnt & Hpos).
  pose proof (proj1 (Forall_forall _ _) Hh _ (last_elem a r)) as Hlast. pose proof Hok' as (Hts & Hnd & Htot).
  destruct (add_packet_ok (world s) a r gd g d) as (gd' & w' & -> & Hde' & Hli' & Hs & _); try done.
  { apply (proj1 (Forall_forall _ _) Hts g). right. set_solver. }
  bind_ret. eapply returns_mono; [|apply (flush_full_step _ (GroFlow (base f) true (m_b_reserved f) (Some gd')) gd' a (r ++ [g])); try done; try (simpl; by rewrite ?lookup_insert_eq)].
  - intros [ret s'] H'. cbn [snd sockets world set_flow set_gro_world] in H' |- *. unfold stepped.
    assert (sg_bytes <$> a :: r ++ [g] = (sg_bytes <$> a :: r) ++ [sg_bytes g]) as Eapp by (by rewrite app_comm_cons, fmap_app). 
    destruct (full buf_max (m_n_byte_max mtu) (sg_bytes <$> a :: r ++ [g])) eqn:Ef.
    + destruct H' as (H1 & H2 & H3). exists [sg_bytes <$> a :: r ++ [g]], []. split_and!; try done; [| set_solver|].
      * intros l. cbn [groups]. rewrite bool_decide_false, Em, Efo by done. cbn [andb]. by rewrite <- Eapp, Ef.
      * intros q Hq. eapply same_at_trans; [apply Hs|by apply H3].
    + destruct H' as [-> H2]. exists [], (a :: r ++ [g]). split_and!; [|simpl; by rewrite app_nil_r|done|done|intros q _; apply Hs].
      intros l. cbn [groups]. rewrite bool_decide_false, Em, Efo by done. cbn [andb]. by rewrite <- Eapp, Ef.
  - by apply Hres.
  - simpl. by rewrite Harr, Hresv.
  - simpl. rewrite app_comm_cons. apply Forall_app. split; [|constructor; [|constructor]]; [|by apply (holds_same (world s))].
    eapply Forall_impl; [exact Hh|]. intros x Hx. by apply (holds_same (world s)).
  - rewrite app_comm_cons. apply Forall_app. split; [done|]. constructor; [by apply HDg|constructor].
Qed.

Lemma receive_step held g (s : gro_state log) : gro_inv held s -> 0 < mtu <= 65535 -> holds (world s) g -> well_formed (sg_bytes g) ->
  Z.of_nat (length (sg_bytes g)) <= mtu -> (mergeable (sg_bytes g) = true -> doff (sg_bytes g) = D) -> sg_ptr g ∉ sg_ptr <$> held ->
  returns (fun x => stepped held g s x.2) (rx_dispatch_packet log_cb flow_max buf_max mtu k (sg_ptr g) s).
Proof.
  destruct held; [apply receive_idle|apply receive_held].
Qed.

Lemma receive_all_ok l held (s : gro_state log) : gro_inv held s -> 0 < mtu <= 65535 -> Forall (fun g => holds (world s) g /\ fits mtu D (sg_bytes g)) l ->
  NoDup (sg_ptr <$> held ++ l) ->
  exists s' held' out, receive_all l s = Ok s' /\ gro_inv held' s' /\ sockets s' = sockets s ++ (show <$> out) /\
    groups' (sg_bytes <$> held) (sg_bytes <$> l) = out ++ groups' (sg_bytes <$> held') [].
Proof.
  revert held s. induction l as [|g l IH]; intros held s Hi Hmtu Hl Hnd.
  - exists s, held, []. simpl. by rewrite app_nil_r.
  - apply Forall_cons in Hl as [(Hg & Hw & Hlen & HD) Hl]. rewrite fmap_app, fmap_cons in Hnd. apply NoDup_app in Hnd as (Hn1 & Hn2 & [Hn3 Hn4]%NoDup_cons).
    destruct (receive_step held g s Hi Hmtu Hg Hw Hlen HD) as ([ret s1] & E & out & held' & Hgr & Hso & Hi' & Hsub & Hsame).
    { intros Hin. apply (Hn2 _ Hin). left. }
    cbn [snd] in *. cbn [receive_all]. rewrite E. bind_ret.
    destruct (IH held' s1 Hi' Hmtu) as (s2 & held2 & out2 & E2 & Hi2 & Hso2 & Hgr2).
    + apply Forall_forall. intros x Hx. destruct (proj1 (Forall_forall _ _) Hl x Hx) as [Hx1 Hx2]. split; [|done]. apply (holds_same (world s)); [|done].
      apply Hsame. rewrite fmap_app. intros [Hin|Hin]%elem_of_app.
      * apply (Hn2 _ Hin). right. by apply list_elem_of_fmap_2.
      * apply list_elem_of_singleton in Hin. apply Hn3. rewrite <- Hin. by apply list_elem_of_fmap_2.
    + rewrite fmap_app. apply NoDup_app. split_and!; [|..|done].
      * destruct Hi' as [(f & _ & _ & _ & _ & Hh') _ _]. destruct held'; [constructor|]. apply Hh'.
      * intros p (x & -> & Hx)%list_elem_of_fmap. apply Hsub in Hx. apply elem_of_app in Hx as [Hx|Hx%list_elem_of_singleton]; [|by rewrite Hx].
        intros Hp. apply (Hn2 (sg_ptr x)); [by apply list_elem_of_fmap_2|by right].
    + exists s2, held2, (out ++ out2). split; [done|]. split; [done|]. rewrite fmap_app, Hso2, Hso, <- app_assoc. split; [done|].
      change (sg_bytes <$> g :: l) with (sg_bytes g :: (sg_bytes <$> l)). rewrite Hgr, Hgr2. apply app_assoc.
Qed.

(** The end of a poll: what is held leaves. *)
Lemma flush_all_ok held (s : gro_state log) : gro_inv held s ->
  exists s', flush_all log_cb s = Ok s' /\ sockets s' = sockets s ++ (show <$> groups' (sg_bytes <$> held) []) /\ gro_inv [] s'.
Proof.
  intros [(f & Hf & Hone & Hres & Harr & Hheld) Hh HD]. unfold flush_all. rewrite Harr. destruct held as [|a r].
  - simpl. rewrite app_nil_r. destruct (m_b_reserved f) eqn:Er.
    + cbn [flush_each]. unfold flush, flush_gro_desc. rewrite Hf. cbn [must]. bind_ret. rewrite Hheld. bind_ret. rewrite Hf. cbn [must]. bind_ret.
      eexists. split; [done|]. split; [done|]. split; [|constructor..]. eexists. simpl. by rewrite lookup_insert_eq.
    + cbn [flush_each]. bind_ret. eexists. split; [done|]. split; [done|]. split; [|constructor..]. exists f. by rewrite Er.
  - destruct Hheld as (Hact & -> & Hok & Hfull & gd & Hgd & Hde & Hli). cbn [flush_each]. unfold flush.
    destruct (gro_flush_ok s f gd a r) as (s1 & -> & Hfl & Ha & Hso & Hs); [done..|]. bind_ret. rewrite Hfl, lookup_insert_eq. cbn [must]. bind_ret.
    eexists. split; [done|]. split; [done|]. split; [|constructor..]. eexists. simpl. by rewrite lookup_insert_eq.
Qed.

(** C10: Merging segments does not change the stream of a connection.  The
    segments of a flow, in whatever order and with whatever flags they come,
    reach the socket in that order, in groups of consecutive segments; a group
    of one is the packet itself, and a larger one arrives as one packet that
    has the length of all of it in its header and in the chain of buffers, the
    sequence number of the first segment, the acknowledgement and window of
    the last, and exactly their data.  Groups have at most the maximal number
    of buffers and fit into an IP packet, and nothing is held after the flush
    at the end of a poll. *)
Theorem gro_merges l (s : gro_state log) : gro_inv [] s -> 0 < mtu <= 65535 -> Forall (fun g => holds (world s) g /\ fits mtu D (sg_bytes g)) l ->
  NoDup (sg_ptr <$> l) ->
  let G := groups' [] (sg_bytes <$> l) in
  exists s1 s2, receive_all l s = Ok s1 /\ flush_all log_cb s1 = Ok s2 /\ gro_inv [] s2 /\
    sockets s2 = sockets s ++ (show <$> G) /\ concat G = sg_bytes <$> l /\ Forall (fun g => group_ok buf_max g /\ merged_ok g (merge g)) G.
Proof.
  intros Hi Hmtu Hl Hnd G. destruct (receive_all_ok l [] s Hi Hmtu Hl Hnd) as (s1 & held & out & E1 & Hi1 & Hso & Hg).
  destruct (flush_all_ok held s1 Hi1) as (s2 & E2 & Hso2 & Hi2). exists s1, s2. split_and!; [done..| | |].
  - rewrite Hso2, Hso, <- app_assoc, <- fmap_app. do 2 f_equal. symmetry. apply Hg.
  - unfold G. by rewrite groups_concat.
  - assert (Forall (group_ok buf_max) G) as HG.
    { apply groups_ok with (D := D); [done|by left|]. apply Forall_fmap. eapply Forall_impl; [exact Hl|]. by intros x [_ ?]. }
    eapply Forall_impl; [exact HG|]. intros g Hgr. split; [done|]. destruct g as [|f [|b r]]; [by destruct Hgr|apply merge_single_ok|by eapply merge_many_ok].
    by apply go_wf, Forall_cons in Hgr as [? _].
Qed.

End Stream.

(** ** Small streams *)

Module GroExample.

Definition key : flow_key := key_tcp 20 80 90.
Definition gro_rfs : rfs := Rfs rfs_uc_tcp_gro (FlowTuple 10 80 20 90 PROTO_TCP) None [None] [Some 7] 1 0 true.
Definition be2 (x : Z) : list Z := [x / 256; x mod 256].

Definition tcp_segment (tot doff seq ack : Z) (opts data : list Z) : list Z :=
  [69; 0] ++ be2 tot ++ [0; 0; 0; 0; 64; 6; 0; 0; 20; 0; 0; 0; 10; 0; 0; 0] ++
  [0; 90; 0; 80] ++ [0; 0] ++ be2 seq ++ [0; 0] ++ be2 ack ++ [doff * 16; 16; 1; 0; 0; 0; 0; 0] ++ opts ++ data.

Definition seg (p : ptr) (seq ack : Z) (data : list Z) : segment :=
  Segment p 14 (tcp_segment (40 + Z.of_nat (length data)) 5 seq ack [] data).

(** A world with some packets as the receive path leaves them. *)
Definition pre : list Z := replicate 14 0.
Definition start_world (l : list (segment * Z)) : gro_world :=
  GroWorld (list_to_map ((fun x => (sg_ptr x.1, MemBufDesc 0 0 0 0 None (14 + Z.of_nat (length (sg_bytes x.1))) None)) <$> l))
    (list_to_map ((fun x => (sg_ptr x.1, RxDesc 0 0 0 0 0 0 x.2 (l4_tcp 14 34 14) 1 0 false)) <$> l))
    (list_to_map ((fun x => (sg_ptr x.1, Links None 0 0 0 None false false)) <$> l))
    (fun p => default [] (foldr (fun x o => if decide (sg_ptr x.1 = p) then Some (pre ++ sg_bytes x.1 ++ replicate 64 0) else o) None l)) [].

Definition start (l : list (segment * Z)) : gro_state (list (res (Z * list Z))) :=
  GroState [] {[key := GroFlow gro_rfs false false None]} (start_world l) [].

Definition three : list segment := [seg 1 100 1 [1; 2]; seg 2 102 2 [3]; seg 3 200 3 [4; 5]].
Definition with_size (l : list segment) : list (segment * Z) := (fun g => (g, Z.of_nat (length (payload (sg_bytes g))))) <$> l.

Lemma holds_start g : g ∈ three -> holds (world (start (with_size three))) g.
Proof.
  intros Hg. repeat (apply elem_of_cons in Hg as [->|Hg]; [split; [done|split; [done|]; eexists; reflexivity|by eexists..]|]). by apply not_elem_of_nil in Hg.
Qed.

Lemma fits_three g : g ∈ three -> fits 1500 5 (sg_bytes g).
Proof.
  intros Hg. repeat (apply elem_of_cons in Hg as [->|Hg]; [split_and!; [split; [repeat constructor; done|done..]|done|done]|]). by apply not_elem_of_nil in Hg.
Qed.

(** The first two segments arrive as one. *)
Lemma gro_merges_witness : exists s1 s2, receive_all (fun _ => true) 4 32 1500 key three (start (with_size three)) = Ok s1 /\
  flush_all (log_cb (fun _ => true)) s1 = Ok s2 /\
  sockets s2 = [show [sg_bytes (seg 1 100 1 [1; 2]); sg_bytes (seg 2 102 2 [3])]; show [sg_bytes (seg 3 200 3 [4; 5])]].
Proof.
  destruct (gro_merges (fun _ => true) 4 32 1500 5 key three (start (with_size three))) as (s1 & s2 & H1 & H2 & _ & H3 & _).
  - split; [|constructor..]. eexists. split; [reflexivity|]. split; [by exists 7|]. done.
  - done.
  - apply Forall_forall. intros g Hg. split; [by apply holds_start|by apply fits_three].
  - by apply (bool_decide_unpack _).
  - exists s1, s2. split; [done|]. split; [done|]. rewrite H3. by vm_compute.
Defined.

Definition run (keeps : bool) (l : list (segment * Z)) : res (gro_state (list (res (Z * list Z)))) :=
  s ← receive_all (fun _ => keeps) 4 32 1500 key (fst <$> l) (start l); flush_all (log_cb (fun _ => keeps)) s.

(** A socket that refuses a merged packet: only the first of its buffers is
    returned, and the second one is not reachable from it by [p_next_desc]. *)
Lemma refused_packet_leaks : exists s, run false (with_size (take 2 three)) = Ok s /\ reclaimed (world s) = [1%positive] /\
  p_next_desc <$> g_bufs (world s) !! 1%positive = Some None.
Proof. eexists. split; [by vm_compute|]. split; by vm_compute. Qed.

(** Time stamps: the second segment has none, and four bytes of its data
    become the echo of the merged packet. *)
Definition stamps : list Z := [1; 1; 8; 10; 0; 0; 0; 1; 0; 0; 0; 2].
Definition stamped_seg : segment := Segment 1 14 (tcp_segment 54 8 100 1 stamps [1; 2]).
Definition data12 : list Z := [11; 12; 13; 14; 15; 16; 17; 18; 19; 20; 21; 22].
Lemma mixed_stamps : exists s m, run true (with_size [stamped_seg; seg 2 102 2 data12]) = Ok s /\ sockets s = [Ok (66, m)] /\
  sub 48 4 (sg_bytes stamped_seg) = [0; 0; 0; 2] /\ sub 48 4 m = [19; 20; 21; 22].
Proof. eexists _, _. split; [by vm_compute|]. split; [by vm_compute|]. split; by vm_compute. Qed.

(** A segment whose TCP header is longer than its packet: the length of its
    payload wraps around, and the buffer is linked with a payload of 65534
    bytes that starts behind the packet. *)
Definition short_seg : segment := Segment 2 14 (tcp_segment 50 8 102 2 [1; 1; 8; 10; 0; 0; 0; 1; 9; 9] []).
Lemma short_segment_overruns : exists s, run true (with_size [seg 1 100 1 [1; 2]] ++ [(short_seg, u64 (50 - 20 - 32))]) = Ok s /\
  (fun k => (pb_payload k, pb_len k)) <$> g_links (world s) !! 2%positive = Some (66, 65534).
Proof. eexists. split; by vm_compute. Qed.

End GroExample.
