(* ===== verification/TxPath.v ===== *)
(** * Sending (the transmit side of src/vma/dev/ring_simple.cpp, qp_mgr.cpp
      and cq_mgr.cpp)

    A ring hands out buffers of its own pool, which it fills from the global
    pool of [BufferPool], posts the ones that come back filled as work
    requests, and gets them back from the transmit completion queue.  Only
    one request in [m_n_sysvar_tx_num_wr_to_signal] asks for a completion:
    the buffers of the others are linked behind it through [p_next_desc], and
    the completion returns the whole list.

    The adapter is part of the state: the requests it has not executed, the
    ones it has executed without a completion, and the completions that
    nobody polled.  It works between any two calls and before each poll
    ([hw]); it may fail, and then flushes what it has not executed.  Posting
    more requests than the queue holds is [Throw].

    The source is that of Ethernet rings without mlx5 extensions: no
    on-device memory and no address handles.  [poll] never returns a negative
    number, so that the branches for it are not there. *)

From S2P Require Import Prelude MemBuf BufferPool.

Definition RING_TX_BUFS_COMPENSATE : Z := 256.

Record tx_cfg := TxCfg {
  this : ptr;
  m_tx_lkey : Z;
  m_tx_num_wr : Z;
  m_n_sysvar_tx_num_wr_to_signal : Z;
  m_n_sysvar_cq_poll_batch_max : Z
}.

(** A completion and the number of requests that it retires. *)
Record tx_wc := TxWc { wr_id : ptr; success : bool; wqes : nat }.

(** [sent] are executed requests that did not ask for a completion; [sq] are
    the next ones, with their signal flag.  [users] are the buffers that
    sockets hold: it belongs to the callers, and only [call] changes it. *)
Record tx_ring := TxRing {
  world_ : world;
  m_tx_pool : list ptr;
  m_tx_num_bufs : Z;
  m_tx_num_wr_free : Z;
  m_missing_buf_ref_count : Z;
  m_b_qp_tx_first_flushed_completion_handled : bool;
  m_up : bool;
  m_n_unsignaled_count : Z;
  m_p_last_tx_mem_buf_desc : option ptr;
  sent : list ptr;
  sq : list (ptr * bool);
  qp_error : bool;
  cqes : list tx_wc;
  users : gset ptr
}.

Definition set_world (w : world) (s : tx_ring) : tx_ring :=
  TxRing w (m_tx_pool s) (m_tx_num_bufs s) (m_tx_num_wr_free s) (m_missing_buf_ref_count s) (m_b_qp_tx_first_flushed_completion_handled s) (m_up s)
    (m_n_unsignaled_count s) (m_p_last_tx_mem_buf_desc s) (sent s) (sq s) (qp_error s) (cqes s) (users s).
Definition set_mem (m : bufs) (s : tx_ring) : tx_ring := set_world (m, snd (world_ s)) s.
Definition set_pool (l : list ptr) (s : tx_ring) : tx_ring :=
  TxRing (world_ s) l (m_tx_num_bufs s) (m_tx_num_wr_free s) (m_missing_buf_ref_count s) (m_b_qp_tx_first_flushed_completion_handled s) (m_up s)
    (m_n_unsignaled_count s) (m_p_last_tx_mem_buf_desc s) (sent s) (sq s) (qp_error s) (cqes s) (users s).
Definition set_num_bufs (n : Z) (s : tx_ring) : tx_ring :=
  TxRing (world_ s) (m_tx_pool s) n (m_tx_num_wr_free s) (m_missing_buf_ref_count s) (m_b_qp_tx_first_flushed_completion_handled s) (m_up s)
    (m_n_unsignaled_count s) (m_p_last_tx_mem_buf_desc s) (sent s) (sq s) (qp_error s) (cqes s) (users s).
Definition set_free (n : Z) (s : tx_ring) : tx_ring :=
  TxRing (world_ s) (m_tx_pool s) (m_tx_num_bufs s) n (m_missing_buf_ref_count s) (m_b_qp_tx_first_flushed_completion_handled s) (m_up s)
    (m_n_unsignaled_count s) (m_p_last_tx_mem_buf_desc s) (sent s) (sq s) (qp_error s) (cqes s) (users s).
Definition set_missing (n : Z) (s : tx_ring) : tx_ring :=
  TxRing (world_ s) (m_tx_pool s) (m_tx_num_bufs s) (m_tx_num_wr_free s) (u32 n) (m_b_qp_tx_first_flushed_completion_handled s) (m_up s)
    (m_n_unsignaled_count s) (m_p_last_tx_mem_buf_desc s) (sent s) (sq s) (qp_error s) (cqes s) (users s).
Definition set_flags (first up : bool) (s : tx_ring) : tx_ring :=
  TxRing (world_ s) (m_tx_pool s) (m_tx_num_bufs s) (m_tx_num_wr_free s) (m_missing_buf_ref_count s) first up
    (m_n_unsignaled_count s) (m_p_last_tx_mem_buf_desc s) (sent s) (sq s) (qp_error s) (cqes s) (users s).
Definition set_last (n : Z) (p : option ptr) (s : tx_ring) : tx_ring :=
  TxRing (world_ s) (m_tx_pool s) (m_tx_num_bufs s) (m_tx_num_wr_free s) (m_missing_buf_ref_count s) (m_b_qp_tx_first_flushed_completion_handled s) (m_up s)
    n p (sent s) (sq s) (qp_error s) (cqes s) (users s).
Definition set_hw (l : list ptr) (q : list (ptr * bool)) (e : bool) (c : list tx_wc) (s : tx_ring) : tx_ring :=
  TxRing (world_ s) (m_tx_pool s) (m_tx_num_bufs s) (m_tx_num_wr_free s) (m_missing_buf_ref_count s) (m_b_qp_tx_first_flushed_completion_handled s) (m_up s)
    (m_n_unsignaled_count s) (m_p_last_tx_mem_buf_desc s) l q e c (users s).
Definition set_users (u : gset ptr) (s : tx_ring) : tx_ring :=
  TxRing (world_ s) (m_tx_pool s) (m_tx_num_bufs s) (m_tx_num_wr_free s) (m_missing_buf_ref_count s) (m_b_qp_tx_first_flushed_completion_handled s) (m_up s)
    (m_n_unsignaled_count s) (m_p_last_tx_mem_buf_desc s) (sent s) (sq s) (qp_error s) (cqes s) u.

Abbreviation mem s := (fst (world_ s)).

(** ** The adapter *)

(** It executes a request, fails, or flushes a request after a failure. *)
Inductive hw := HwExec | HwError | HwFlush.

#[global] Instance hw_eq_dec : EqDecision hw.
Proof. solve_decision. Defined.

Definition hw_step (e : hw) (s : tx_ring) : tx_ring :=
  match e, sq s with
  | HwExec, (p, sig) :: q =>
    if qp_error s then s
    else if sig : bool then set_hw [] q false (cqes s ++ [TxWc p true (S (length (sent s)))]) s
    else set_hw (sent s ++ [p]) q false (cqes s) s
  | HwError, q => set_hw (sent s) q true (cqes s) s
  | HwFlush, (p, _) :: q =>
    if qp_error s then set_hw [] q true (cqes s ++ [TxWc p false (S (length (sent s)))]) s else s
  | _, [] => s
  end.

Definition hw_run (l : list hw) (s : tx_ring) : tx_ring := foldl (fun s e => hw_step e s) s l.

(** The entries of the queue that are in use. *)
Definition occupied (s : tx_ring) : nat := sum_list (wqes <$> cqes s) + length (sent s) + length (sq s).

(** Work that the adapter and the completion queue can still do. *)
Definition pending (s : tx_ring) : nat := length (cqes s) + length (sq s).

Section Ring.
Context (cfg : tx_cfg).

(** [vma_ibv_post_send] with the answer of the adapter. *)
Definition post_send (answer sig : bool) (p : ptr) (s : tx_ring) : res (bool * tx_ring) :=
  if answer then
    if m_tx_num_wr cfg <=? Z.of_nat (occupied s) then Throw
    else Ok (true, set_hw (sent s) (sq s ++ [(p, sig)]) (qp_error s) (cqes s) s)
  else Ok (false, s).

(** ** The two pools *)

Definition request_more_tx_buffers (count : Z) (s : tx_ring) : res (bool * tx_ring) :=
  x ← get_buffers_thread_safe (m_tx_pool s) (Some (this cfg)) count (m_tx_lkey cfg) (world_ s);
  let '(ok, l, w) := x : bool * list ptr * world in Ok (ok, set_pool l (set_world w s)).

Definition init_tx_buffers (count : Z) (s : tx_ring) : res tx_ring :=
  x ← request_more_tx_buffers count s; Ok (set_num_bufs (Z.of_nat (length (m_tx_pool (snd x)))) (snd x)).

(** The loop of [get_tx_buffers]; NULL is written through if the pool runs dry. *)
Fixpoint link_tx_buffers (count : nat) (next : ptr) (pool : list ptr) (m : bufs) : res (list ptr * bufs) :=
  match count with
  | O => Ok (pool, m)
  | S count =>
    match last pool with
    | None => Undef
    | Some p =>
      m ← store next (set_next_desc (Some p)) m;
      m ← store p (fun b => set_pbuf (pbuf_flags b) 1 b) m;
      link_tx_buffers count p (take (length pool - 1) pool) m
    end
  end.

Definition get_tx_buffers (n_num_mem_bufs : Z) (s : tx_ring) : res (option ptr * tx_ring) :=
  s ← (if Z.of_nat (length (m_tx_pool s)) <? n_num_mem_bufs then
         let count := Z.max RING_TX_BUFS_COMPENSATE n_num_mem_bufs in
         x ← request_more_tx_buffers count s;
         let '(ok, s) := x : bool * tx_ring in Ok (if ok : bool then set_num_bufs (m_tx_num_bufs s + count) s else s)
       else Ok s);
  if Z.of_nat (length (m_tx_pool s)) <? n_num_mem_bufs then Ok (None, s)
  else
    match last (m_tx_pool s) with
    | None => Undef
    | Some head =>
      m ← store head (fun b => set_pbuf (pbuf_flags b) 1 b) (mem s);
      x ← link_tx_buffers (Z.to_nat (u32 (n_num_mem_bufs - 1))) head (take (length (m_tx_pool s) - 1) (m_tx_pool s)) m;
      let '(pool, m) := x : list ptr * bufs in
      Ok (Some head, set_pool pool (set_mem m s))
    end.

(** Half of a pool that is too big goes back. *)
Definition return_to_global (s : tx_ring) : res tx_ring :=
  let size := Z.of_nat (length (m_tx_pool s)) in
  if (m_tx_num_bufs s / 2 <? size) && (RING_TX_BUFS_COMPENSATE * 2 <=? m_tx_num_bufs s) then
    x ← put_buffers_q (m_tx_pool s) (size / 2) (world_ s);
    let '(l, w) := x : list ptr * world in
    Ok (set_num_bufs (m_tx_num_bufs s - size / 2) (set_pool l (set_world w s)))
  else Ok s.

(** One reference less. *)
Definition dec_pbuf_ref (b : mem_buf_desc_t) : mem_buf_desc_t :=
  if pbuf_ref b =? 0 then b else set_pbuf (pbuf_flags b) (pbuf_ref b - 1) b.

Fixpoint put_tx_loop (fuel : nat) (buff_list : option ptr) (count : Z) (s : tx_ring) : res (Z * tx_ring) :=
  match buff_list with
  | None => Ok (count, s)
  | Some p =>
    match fuel with
    | O => NoFuel
    | S fuel =>
      b ← load (mem s) p;
      let b' := dec_pbuf_ref (set_next_desc None b) in
      put_tx_loop fuel (p_next_desc b) (count + 1)
        (if pbuf_ref b' =? 0 then set_pool (m_tx_pool s ++ [p]) (set_mem (<[p := free_lwip_pbuf b']> (mem s)) s)
         else set_mem (<[p := b']> (mem s)) s)
    end
  end.

Definition put_tx_buffers (buff_list : option ptr) (s : tx_ring) : res (Z * tx_ring) :=
  x ← put_tx_loop (size (mem s)) buff_list 0 s;
  s ← return_to_global (snd x);
  Ok (fst x, s).

Definition put_tx_single_buffer (buff : option ptr) (s : tx_ring) : res (Z * tx_ring) :=
  x ← (match buff with
       | None => Ok (0, s)
       | Some p =>
         b ← load (mem s) p;
         let b' := dec_pbuf_ref b in
         Ok (if pbuf_ref b' =? 0
             then (1, set_pool (m_tx_pool s ++ [p]) (set_mem (<[p := free_lwip_pbuf (set_next_desc None b')]> (mem s)) s))
             else (0, set_mem (<[p := b']> (mem s)) s))
       end);
  let '(count, s) := x : Z * tx_ring in
  s ← return_to_global s;
  Ok (count, s).

(** [trylock] is [Some busy] when the lock is only tried. *)
Definition mem_buf_tx_release (l : option ptr) (b_accounting : bool) (trylock : option bool) (s : tx_ring) : res (Z * tx_ring) :=
  match trylock with
  | Some true => Ok (0, s)
  | _ =>
    x ← put_tx_buffers l s;
    let '(accounting, s) := x : Z * tx_ring in
    Ok (accounting, if b_accounting then set_missing (m_missing_buf_ref_count s - accounting) s else s)
  end.

Definition mem_buf_desc_return_to_owner_tx (p : ptr) (s : tx_ring) : res tx_ring :=
  x ← put_tx_buffers (Some p) s;
  let '(n, s) := x : Z * tx_ring in Ok (set_free (m_tx_num_wr_free s + n) s).

Definition mem_buf_desc_return_single_to_owner_tx (p : ptr) (s : tx_ring) : res tx_ring :=
  x ← put_tx_single_buffer (Some p) s; Ok (snd x).

Definition mem_buf_desc_completion_with_error_tx (p : ptr) (s : tx_ring) : res tx_ring :=
  s ← (if m_b_qp_tx_first_flushed_completion_handled s then m ← store p (set_next_desc None) (mem s); Ok (set_mem m s)
       else Ok (set_flags true (m_up s) s));
  x ← mem_buf_tx_release (Some p) false None s;
  let '(n, s) := x : Z * tx_ring in Ok (set_free (m_tx_num_wr_free s + n) s).

(** ** Completions *)

(** The buffer list that is to be returned, unless it is an error. *)
Definition process_cq_element_tx (e : tx_wc) (s : tx_ring) : res (option ptr * tx_ring) :=
  if success e then Ok (Some (wr_id e), s)
  else
    b ← load (mem s) (wr_id e);
    match p_desc_owner b with
    | Some _ => s ← mem_buf_desc_completion_with_error_tx (wr_id e) s; Ok (None, s)
    | None => Ok (None, s)
    end.

(** Buffers of another owner are not returned. *)
Definition process_tx_buffer_list (p : ptr) (s : tx_ring) : res tx_ring :=
  b ← load (mem s) p;
  if bool_decide (p_desc_owner b = Some (this cfg)) then mem_buf_desc_return_to_owner_tx p s else Ok s.

Fixpoint process_tx_completions (l : list tx_wc) (s : tx_ring) : res tx_ring :=
  match l with
  | [] => Ok s
  | e :: l =>
    x ← process_cq_element_tx e s;
    let '(buff, s) := x : option ptr * tx_ring in
    s ← (match buff with Some p => process_tx_buffer_list p s | None => Ok s end);
    process_tx_completions l s
  end.

(** The adapter works first, then the queue is polled. *)
Definition poll_and_process_element_tx (evs : list hw) (s : tx_ring) : res (Z * tx_ring) :=
  let s := hw_run evs s in
  let n := Z.to_nat (m_n_sysvar_cq_poll_batch_max cfg) in
  let l := take n (cqes s) in
  s ← process_tx_completions l (set_hw (sent s) (sq s) (qp_error s) (drop n (cqes s)) s);
  Ok (Z.of_nat (length l), s).

(** ** Waiting

    A blocking call releases the lock of the ring, so that other threads run
    ([others]); what happens meanwhile is a [wait]: the answers of
    [request_notification] and of the operating system's [poll], whether the
    event belongs to a queue, and the work of the adapter. *)

Context {Other : Type} (others : Other -> tx_ring -> res tx_ring).

Record wait := Wait {
  w_hw : list hw;
  w_lock : Other;
  w_arm : Z;
  w_block : Other;
  w_poll : Z;
  w_event : bool;
  w_hw2 : list hw;
  w_unlock : Other
}.

Context (env : nat -> wait).

(** The [i]-th round of the loop of [mem_buf_tx_get]. *)
Fixpoint tx_get_loop (fuel i : nat) (b_block : bool) (n : Z) (buff_list : option ptr) (s : tx_ring) : res (option ptr * tx_ring) :=
  match buff_list with
  | Some h => Ok (Some h, set_missing (m_missing_buf_ref_count s + n) s)
  | None =>
    match fuel with
    | O => NoFuel
    | S fuel =>
      let w := env i in
      x ← poll_and_process_element_tx (w_hw w) s;
      let '(ret, s) := x : Z * tx_ring in
      if 0 <? ret then
        x ← get_tx_buffers n s; tx_get_loop fuel (S i) b_block n (fst x) (snd x)
      else if b_block then
        s ← others (w_lock w) s;
        x ← get_tx_buffers n s;
        let '(buff_list, s) := x : option ptr * tx_ring in
        match buff_list with
        | Some h => s ← others (w_unlock w) s; tx_get_loop fuel (S i) b_block n (Some h) s
        | None =>
          if w_arm w =? 0 then
            s ← others (w_block w) s;
            if w_poll w =? 0 then
              x ← get_tx_buffers n s; tx_get_loop fuel (S i) b_block n (fst x) (snd x)
            else if w_poll w <? 0 then Ok (None, s)
            else
              s ← (if w_event w then x ← poll_and_process_element_tx (w_hw2 w) s; Ok (snd x) else Ok s);
              x ← get_tx_buffers n s;
              s ← others (w_unlock w) (snd x);
              tx_get_loop fuel (S i) b_block n (fst x) s
          else
            x ← get_tx_buffers n s;
            s ← others (w_unlock w) (snd x);
            tx_get_loop fuel (S i) b_block n (fst x) s
        end
      else Ok (None, s)
    end
  end.

Definition mem_buf_tx_get (fuel : nat) (b_block : bool) (n : Z) (s : tx_ring) : res (option ptr * tx_ring) :=
  x ← get_tx_buffers n s; tx_get_loop fuel 0 b_block n (fst x) (snd x).

Fixpoint is_available_loop (fuel i : nat) (b_block : bool) (s : tx_ring) : res (bool * tx_ring) :=
  if 0 <? m_tx_num_wr_free s then Ok (true, set_free (m_tx_num_wr_free s - 1) s)
  else
    match fuel with
    | O => NoFuel
    | S fuel =>
      let w := env i in
      x ← poll_and_process_element_tx (w_hw w) s;
      let '(ret, s) := x : Z * tx_ring in
      if 0 <? ret then is_available_loop fuel (S i) b_block s
      else if b_block then
        s ← others (w_lock w) s;
        if (m_tx_num_wr_free s <=? 0) && (w_arm w =? 0) then
          s ← others (w_block w) s;
          if w_poll w <=? 0 then Ok (false, s)
          else
            s ← (if w_event w then x ← poll_and_process_element_tx (w_hw2 w) s; Ok (snd x) else Ok s);
            s ← others (w_unlock w) s;
            is_available_loop fuel (S i) b_block s
        else s ← others (w_unlock w) s; is_available_loop fuel (S i) b_block s
      else Ok (false, s)
    end.

Definition is_available_qp_wr (fuel : nat) (b_block : bool) (s : tx_ring) : res (bool * tx_ring) := is_available_loop fuel 0 b_block s.

(** ** Sending *)

Definition set_unsignaled_count (p : option ptr) (s : tx_ring) : tx_ring := set_last (m_n_sysvar_tx_num_wr_to_signal cfg - 1) p s.
Definition is_completion_need (s : tx_ring) : bool := m_n_unsignaled_count s =? 0.

(** [qp_mgr::send]; [evs] is the work of the adapter until the poll. *)
Definition send (answer : bool) (evs : list hw) (p : ptr) (s : tx_ring) : res (bool * tx_ring) :=
  let request_comp := is_completion_need s in
  x ← post_send answer request_comp p s;
  let '(ok, s) := x : bool * tx_ring in
  if ok : bool then
    m ← store p (set_next_desc (m_p_last_tx_mem_buf_desc s)) (mem s);
    let s := set_mem m s in
    if request_comp then
      x ← poll_and_process_element_tx evs (set_unsignaled_count None s); Ok (true, snd x)
    else Ok (true, set_last (m_n_unsignaled_count s - 1) (Some p) s)
  else Ok (false, s).

Definition send_buffer (fuel : nat) (answer : bool) (evs : list hw) (b_block : bool) (p : ptr) (s : tx_ring) : res (bool * tx_ring) :=
  if 0 <? m_tx_num_wr_free s then
    x ← send answer evs p s;
    let '(ret, s) := x : bool * tx_ring in Ok (ret, set_free (m_tx_num_wr_free s - 1) s)
  else
    x ← is_available_qp_wr fuel b_block s;
    let '(ok, s) := x : bool * tx_ring in
    if ok : bool then send answer evs p s
    else m ← store p (set_next_desc None) (mem s); Ok (false, set_mem m s).

Definition send_status_handler (ok : bool) (p : ptr) (s : tx_ring) : res tx_ring :=
  if ok then Ok (set_missing (m_missing_buf_ref_count s - 1) s)
  else x ← mem_buf_tx_release (Some p) true None s; Ok (snd x).

Definition send_ring_buffer (fuel : nat) (answer : bool) (evs : list hw) (b_block : bool) (p : ptr) (s : tx_ring) : res tx_ring :=
  x ← send_buffer fuel answer evs b_block p s; send_status_handler (fst x) p (snd x).

Definition send_lwip_buffer (fuel : nat) (answer : bool) (evs : list hw) (b_block : bool) (p : ptr) (s : tx_ring) : res tx_ring :=
  m ← store p (fun b => set_pbuf (pbuf_flags b) (u16 (pbuf_ref b + 1)) b) (mem s);
  x ← send_buffer fuel answer evs b_block p (set_mem m s); send_status_handler (fst x) p (snd x).

(** ** Stopping and starting *)

(** Polls until there is nothing more. *)
Fixpoint release_tx_buffers (fuel i : nat) (s : tx_ring) : res tx_ring :=
  match fuel with
  | O => NoFuel
  | S fuel =>
    x ← poll_and_process_element_tx (w_hw (env i)) s;
    if 0 <? fst x then release_tx_buffers fuel (S i) (snd x) else Ok (snd x)
  end.

(** A dummy packet that asks for a completion closes the list; the answer of
    the adapter to it is not looked at. *)
Definition trigger_completion_for_all_sent_packets (fuel : nat) (answer : bool) (s : tx_ring) : res tx_ring :=
  match m_p_last_tx_mem_buf_desc s with
  | None => Ok s
  | Some _ =>
    x ← mem_buf_tx_get fuel true 1 s;
    let '(p_mem_buf_desc, s) := x : option ptr * tx_ring in
    let s := set_missing (m_missing_buf_ref_count s - 1) s in
    match p_mem_buf_desc with
    | None => Ok s
    | Some p =>
      m ← store p (set_next_desc (m_p_last_tx_mem_buf_desc s)) (mem s);
      let s := set_unsignaled_count None (set_mem m s) in
      if m_tx_num_wr_free s =? 0 then Ok s
      else x ← post_send answer true p (set_free (m_tx_num_wr_free s - 1) s); Ok (snd x)
    end
  end.

(** The transmit part of [down]; [evs] is what the adapter does while the
    thread sleeps. *)
Definition down (fuel : nat) (answer : bool) (evs : list hw) (s : tx_ring) : res tx_ring :=
  s ← trigger_completion_for_all_sent_packets fuel answer (hw_step HwError s);
  release_tx_buffers fuel fuel (hw_run evs s).

(** The transmit part of [up]: the queue pair goes through its reset state. *)
Definition up (fuel : nat) (s : tx_ring) : res tx_ring :=
  s ← release_tx_buffers fuel 0 s;
  Ok (set_hw [] [] false (cqes s) (set_unsignaled_count None s)).

Definition start_active_qp_mgr (fuel : nat) (s : tx_ring) : res tx_ring :=
  if m_up s then Ok s
  else s ← up fuel s; Ok (set_flags false true s).

Definition stop_active_qp_mgr (fuel : nat) (answer : bool) (evs : list hw) (s : tx_ring) : res tx_ring :=
  if m_up s then down fuel answer evs (set_flags (m_b_qp_tx_first_flushed_completion_handled s) false s) else Ok s.

(** A ring with its first buffers, before it is started. *)
Definition create_resources (w : world) : res tx_ring :=
  init_tx_buffers RING_TX_BUFS_COMPENSATE
    (TxRing w [] 0 (m_tx_num_wr cfg) 0 false false (m_n_sysvar_tx_num_wr_to_signal cfg - 1) None [] [] false [] ∅).

End Ring.

(** ** The callers

    A call of a thread that does not block, with the work of the adapter
    before each poll.  [Unlink] is what a destination does with the list that
    it was given: it takes the first buffer off. *)

Inductive call :=
| Get (evs : nat -> list hw) (n : Z)
| Send (lwip answer : bool) (polls : nat -> list hw) (evs : list hw) (p : ptr)
| Release (l : list ptr) (b_accounting : bool)
| Return (p : ptr)
| Unlink (p : ptr)
| Poll (evs : list hw)
| Work (e : hw).

Fixpoint buffers (n : nat) (m : bufs) (p : option ptr) : list ptr :=
  match n, p with
  | S n, Some q => q :: match m !! q with Some b => buffers n m (p_next_desc b) | None => [] end
  | _, _ => []
  end.

(** A socket has the only reference, and the buffer is not linked. *)
Definition sole (s : tx_ring) (p : ptr) : bool :=
  bool_decide (p ∈ users s) && match mem s !! p with Some b => pbuf_ref b =? 1 | None => false end.
Definition unlinked (s : tx_ring) (p : ptr) : bool :=
  match mem s !! p with Some b => bool_decide (p_next_desc b = None) | None => false end.

(** The rules for callers: they send and release buffers that they hold. *)
Definition legal (c : call) (s : tx_ring) : bool :=
  match c with
  | Get _ n => (1 <=? n) && (n <? 2 ^ 32)
  | Send _ _ _ _ p => sole s p && unlinked s p
  | Release l _ => bool_decide (NoDup l) && forallb (sole s) l && bool_decide (buffers (S (length l)) (mem s) (head l) = l)
  | Return p => bool_decide (p ∈ users s)
  | Unlink p => sole s p
  | Poll _ | Work _ => true
  end.

Definition alone (_ : unit) (s : tx_ring) : res tx_ring := Ok s.
Definition no_wait (evs : nat -> list hw) (i : nat) : @wait unit := Wait (evs i) tt 0 tt 0 false [] tt.

Definition perform (cfg : tx_cfg) (c : call) (s : tx_ring) : res tx_ring :=
  if legal c s then
    match c with
    | Get evs n =>
      x ← mem_buf_tx_get cfg alone (no_wait evs) (S (pending s)) false n s;
      let '(r, s) := x : option ptr * tx_ring in Ok (set_users (list_to_set (buffers (Z.to_nat n) (mem s) r) ∪ users s) s)
    | Send false answer polls evs p =>
      send_ring_buffer cfg alone (no_wait polls) (S (pending s)) answer evs false p (set_users (users s ∖ {[p]}) s)
    | Send true answer polls evs p => send_lwip_buffer cfg alone (no_wait polls) (S (pending s)) answer evs false p s
    | Release l acc => x ← mem_buf_tx_release (head l) acc None (set_users (users s ∖ list_to_set l) s); Ok (snd x)
    | Return p => mem_buf_desc_return_single_to_owner_tx p (set_users (users s ∖ {[p]}) s)
    | Unlink p => m ← store p (set_next_desc None) (mem s); Ok (set_mem m s)
    | Poll evs => x ← poll_and_process_element_tx cfg evs s; Ok (snd x)
    | Work e => Ok (hw_step e s)
    end
  else Ok s.

Fixpoint perform_all (cfg : tx_cfg) (l : list call) (s : tx_ring) : res tx_ring :=
  match l with [] => Ok s | c :: l => s ← perform cfg c s; perform_all cfg l s end.

(** The requests that the adapter refuses. *)
Definition refused (c : call) : Z := match c with Send _ false _ _ _ => 1 | _ => 0 end.
Definition all_refused (l : list call) : Z := foldr (fun c n => refused c + n) 0 l.

(** ** The invariant *)

(** The requests of a queue are linked backwards to the last one that asked
    for a completion. *)
Fixpoint linked (m : bufs) (prev : option ptr) (q : list (ptr * bool)) (lst : option ptr) : Prop :=
  match q with
  | [] => lst = prev
  | (p, sig) :: q => (exists b, m !! p = Some b /\ p_next_desc b = prev) /\ linked m (if sig : bool then None else Some p) q lst
  end.

Definition unsignaled (l : list ptr) : list (ptr * bool) := (fun p => (p, false)) <$> l.

(** The buffers that each completion returns: all that are linked, until the
    first error has been handled ([fl]); then one each. *)
Fixpoint batches (m : bufs) (fl : bool) (l : list tx_wc) (Bs : list (list ptr)) : Prop :=
  match l, Bs with
  | [], [] => True
  | e :: l, B :: Bs =>
    length B = wqes e /\
    (if success e then fl = false /\ chain m (Some (wr_id e)) B
     else if fl then B = [wr_id e] else chain m (Some (wr_id e)) B) /\
    batches m (fl || negb (success e)) l Bs
  | _, _ => False
  end.

(** An error has been, or will be, handled. *)
Definition flushed (fl : bool) (l : list tx_wc) : bool := fl || existsb (fun e => negb (success e)) l.

Section Links.
Context (m : bufs).

Lemma linked_app prev q1 q2 lst : linked m prev (q1 ++ q2) lst <-> exists mid, linked m prev q1 mid /\ linked m mid q2 lst.
Proof. revert prev. induction q1 as [|[p sig] q1 IH]; intros prev; simpl; [naive_solver|]. rewrite IH. naive_solver. Qed.

Lemma linked_chain l : forall prev lst B, linked m prev (unsignaled l) lst -> chain m prev B -> chain m lst (rev l ++ B).
Proof.
  induction l as [|p l IH]; intros prev lst B; simpl; [by intros -> ?|]. intros [(b & Hb & Hn) Hl] Hc.
  rewrite <- app_assoc. eapply IH; [exact Hl|]. simpl. split; [done|]. exists b. by rewrite Hn.
Qed.

Lemma flushed_app fl l1 l2 : flushed fl (l1 ++ l2) = flushed (flushed fl l1) l2.
Proof. unfold flushed. by rewrite existsb_app, orb_assoc. Qed.

Lemma batches_snoc fl l Bs e B : batches m fl l Bs -> length B = wqes e ->
  (if success e then flushed fl l = false /\ chain m (Some (wr_id e)) B
   else if flushed fl l then B = [wr_id e] else chain m (Some (wr_id e)) B) -> batches m fl (l ++ [e]) (Bs ++ [B]).
Proof.
  revert fl Bs. induction l as [|x l IH]; intros fl [|B0 Bs] HB Hl He; simpl in *; try done.
  - unfold flushed in He. simpl in He. by rewrite orb_false_r in He.
  - destruct HB as (H1 & H2 & H3). split_and!; [done|done|]. apply IH; [done|done|]. unfold flushed in *. simpl in He. by rewrite orb_assoc in He.
Qed.

Lemma batches_length fl l Bs : batches m fl l Bs -> length (concat Bs) = sum_list (wqes <$> l).
Proof.
  revert fl Bs. induction l as [|x l IH]; intros fl [|B Bs] HB; simpl in *; try done. destruct HB as (H1 & _ & H3).
  rewrite length_app, H1. f_equal. by eapply IH.
Qed.

End Links.

(** The links of these buffers are the same. *)
Definition same_links (m m' : bufs) (l : list ptr) : Prop := forall q, q ∈ l -> p_next_desc <$> m' !! q = p_next_desc <$> m !! q.

Lemma linked_ext m m' prev q lst : same_links m m' q.*1 -> linked m prev q lst -> linked m' prev q lst.
Proof.
  revert prev. induction q as [|[p sig] q IH]; intros prev Hs; simpl; [done|]. intros [(b & Hb & Hn) Hl]. split.
  - specialize (Hs p ltac:(left)) as Hp. rewrite Hb in Hp. destruct (m' !! p) as [b'|]; simplify_eq/=. exists b'. split; [done|congruence].
  - apply IH; [|done]. intros r Hr. apply Hs. by right.
Qed.

Lemma batches_ext m m' fl l Bs : same_links m m' (concat Bs) -> batches m fl l Bs -> batches m' fl l Bs.
Proof.
  revert fl Bs. induction l as [|e l IH]; intros fl [|B Bs] Hs; simpl; try done. intros (H1 & H2 & H3). split; [done|].
  assert (chain m (Some (wr_id e)) B -> chain m' (Some (wr_id e)) B) as Hc.
  { apply chain_ext. intros q Hq. apply Hs. simpl. apply elem_of_app. by left. }
  split; [destruct (success e), fl; naive_solver|]. apply IH; [|done]. intros q Hq. apply Hs. simpl. apply elem_of_app. by right.
Qed.

Lemma single_links m m' l : same_links m m' l -> Forall (single m) l -> Forall (single m') l.
Proof.
  intros Hs. rewrite !Forall_forall. intros Hl q Hq. destruct (Hl q Hq) as (b & Hb & Hn). specialize (Hs q Hq). rewrite Hb in Hs.
  destruct (m' !! q) as [b'|] eqn:E; simplify_eq/=. exists b'. split; [done|congruence].
Qed.

Lemma same_links_refl m l : same_links m m l.
Proof. by intros q. Qed.

Lemma same_links_sub m m' l l' : l' ⊆ l -> same_links m m' l -> same_links m m' l'.
Proof. intros Hl Hs q Hq. apply Hs. by apply Hl. Qed.

Section Conserve.
Context (cfg : tx_cfg) (T : list ptr).

Ltac in_app := rewrite ?elem_of_app in *; tauto.
Ltac in_sets := rewrite ?elem_of_cons, ?elem_of_app, ?elem_of_cons, ?elem_of_app, ?elem_of_union, ?elem_of_difference, ?elem_of_singleton in *; tauto.

(** The parameters make sense; [T] are all the buffers of the global pool. *)
Record cfg_ok : Prop := CfgOk {
  co_signal : 1 <= m_n_sysvar_tx_num_wr_to_signal cfg;
  co_batch : 1 <= m_n_sysvar_cq_poll_batch_max cfg;
  co_nodup : NoDup T;
  co_length : Z.of_nat (length T) < 2 ^ 31
}.
Context (Hcfg : cfg_ok).

Section Hand.

(** Buffers that a thread is about to post. *)
Context (X : list ptr).

(** They, and the buffers that are with the adapter. *)
Definition outs (Bs : list (list ptr)) (s : tx_ring) : list ptr := X ++ concat Bs ++ sent s ++ (sq s).*1.

(** One reference for the ring or the adapter, one for the sockets. *)
Definition refs (D : list ptr) (U : gset ptr) (q : ptr) : Z := (if decide (q ∈ D) then 1 else 0) + (if decide (q ∈ U) then 1 else 0).

Definition cell (m : bufs) (n : Z) (q : ptr) : Prop := exists b, m !! q = Some b /\ p_desc_owner b = Some (this cfg) /\ pbuf_ref b = n.
Definition idle (m : bufs) (q : ptr) : Prop := exists b, m !! q = Some b /\ p_next_desc b = None /\ p_desc_owner b = Some (this cfg).

(** [V]: buffers whose reference is in hand; [W]: completions in hand; [F]:
    buffers in the hands of a waiting thread; [lost]: requests that failed;
    [c]: credits in hand. *)
Record tx_parts (c lost : Z) (F : gset ptr) (V : list ptr) (W : list tx_wc) (s : tx_ring) (L : list ptr) (Bs : list (list ptr)) : Prop := TxParts {
  p_pool : pool_ok (Z.of_nat (length T)) (world_ s) L;
  p_nodup : NoDup (L ++ m_tx_pool s ++ V ++ outs Bs s);
  p_all : forall q, q ∈ T <-> q ∈ L ++ m_tx_pool s ++ V ++ outs Bs s \/ q ∈ F ∪ users s;
  p_apart : forall q, q ∈ F ∪ users s -> q ∉ L ++ m_tx_pool s;
  p_frame : forall q, q ∈ F -> q ∉ users s /\ q ∉ V ++ outs Bs s;
  p_idle : Forall (idle (mem s)) (m_tx_pool s);
  p_refs : forall q, q ∈ V ++ outs Bs s \/ q ∈ F ∪ users s -> cell (mem s) (refs (V ++ outs Bs s) (F ∪ users s) q) q;
  p_hand : Forall (single (mem s)) X;
  p_batches : batches (mem s) (m_b_qp_tx_first_flushed_completion_handled s) (W ++ cqes s) Bs;
  p_links : if flushed (m_b_qp_tx_first_flushed_completion_handled s) (W ++ cqes s) then sent s = []
            else linked (mem s) None (unsignaled (sent s) ++ sq s) (m_p_last_tx_mem_buf_desc s);
  p_error : flushed (m_b_qp_tx_first_flushed_completion_handled s) (W ++ cqes s) = true -> qp_error s = true;
  p_credit : m_tx_num_wr_free s + (Z.of_nat (length (outs Bs s)) - Z.of_nat (length X)) + lost = m_tx_num_wr cfg + c;
  p_free : 0 <= m_tx_num_wr_free s;
  p_lost : 0 <= lost;
  p_bufs : m_tx_num_bufs s + Z.of_nat (length L) = Z.of_nat (length T);
  p_count : 0 <= m_n_unsignaled_count s
}.

Definition tx_inv (c lost : Z) (F : gset ptr) (V : list ptr) (W : list tx_wc) (s : tx_ring) : Prop := exists L Bs, tx_parts c lost F V W s L Bs.

Lemma refs_ext D D' U U' q : (q ∈ D' <-> q ∈ D) -> (q ∈ U' <-> q ∈ U) -> refs D' U' q = refs D U q.
Proof. intros H1 H2. unfold refs. do 4 case_decide; tauto || lia. Qed.

Lemma cell_same (m m' : bufs) n q : m' !! q = m !! q -> cell m n q -> cell m' n q.
Proof. unfold cell. by intros ->. Qed.

Lemma idle_same (m m' : bufs) l : (forall q, q ∈ l -> m' !! q = m !! q) -> Forall (idle m) l -> Forall (idle m') l.
Proof. intros H. rewrite !Forall_forall. intros Hl q Hq. destruct (Hl q Hq) as (b & ?). exists b. by rewrite H. Qed.

(** The state of the adapter changes, and nothing else. *)
Lemma parts_hw c lost F V W s L Bs l q e cs Bs' : tx_parts c lost F V W s L Bs ->
  let s' := set_hw l q e cs s in outs Bs' s' ≡ₚ outs Bs s ->
  batches (mem s) (m_b_qp_tx_first_flushed_completion_handled s) (W ++ cs) Bs' ->
  (if flushed (m_b_qp_tx_first_flushed_completion_handled s) (W ++ cs) then l = []
   else linked (mem s) None (unsignaled l ++ q) (m_p_last_tx_mem_buf_desc s)) ->
  (flushed (m_b_qp_tx_first_flushed_completion_handled s) (W ++ cs) = true -> e = true) -> tx_parts c lost F V W s' L Bs'.
Proof.
  intros [] s' Ho Hb Hl He. assert (forall q, q ∈ outs Bs' s' <-> q ∈ outs Bs s) as Hin by (intros; by rewrite Ho).
  split; simpl; try done.
  - by rewrite Ho.
  - intros r. specialize (p_all0 r). rewrite !elem_of_app in *. rewrite Hin. done.
  - intros r Hr. specialize (p_frame0 r Hr). rewrite elem_of_app, Hin, <- elem_of_app. done.
  - intros r Hr. rewrite elem_of_app, Hin, <- elem_of_app in Hr. rewrite (refs_ext (V ++ outs Bs s) _ (F ∪ users s)); [by apply p_refs0|rewrite !elem_of_app, Hin; done|done].
  - by rewrite Ho.
Qed.

Lemma hw_step_parts c lost F V W e s L Bs : tx_parts c lost F V W s L Bs -> exists Bs', tx_parts c lost F V W (hw_step e s) L Bs'.
Proof.
  intros H. pose proof (p_batches _ _ _ _ _ _ _ _ H) as Hb. pose proof (p_links _ _ _ _ _ _ _ _ H) as Hl. pose proof (p_error _ _ _ _ _ _ _ _ H) as He.
  set (fl := flushed _ _) in *. unfold hw_step.
  destruct e, (sq s) as [|[p sig] q] eqn:Eq; try (by exists Bs); try destruct (qp_error s) eqn:Ee; try (by exists Bs).
  - assert (fl = false) as Hf by (destruct fl; naive_solver). rewrite Hf in Hl. destruct sig.
    + apply linked_app in Hl as (mid & Hm & (b & Hpb & Hn) & Hq). pose proof (linked_chain _ _ _ _ [] Hm) as Hc. rewrite app_nil_r in Hc.
      specialize (Hc eq_refl). assert (chain (mem s) (Some p) (p :: rev (sent s))) as Hch by (split; [done|]; exists b; by rewrite Hn).
      exists (Bs ++ [p :: rev (sent s)]). eapply parts_hw; [done|..].
      * unfold outs. simpl. rewrite Eq, concat_app. simpl. rewrite app_nil_r, <- Permutation_middle. rewrite <- Permutation_rev. solve_Permutation.
      * rewrite app_assoc. apply batches_snoc; [done|simpl; by rewrite length_rev|]. simpl. fold fl. by rewrite Hf.
      * rewrite app_assoc, flushed_app. fold fl. by rewrite Hf.
      * rewrite app_assoc, flushed_app. fold fl. by rewrite Hf.
    + exists Bs. eapply parts_hw; [done|..].
      * unfold outs. simpl. rewrite Eq. simpl. solve_Permutation.
      * done.
      * fold fl. rewrite Hf. unfold unsignaled in *. rewrite fmap_app, <- app_assoc. done.
      * done.
  - exists Bs. eapply parts_hw; [done|unfold outs; simpl; by rewrite Eq|done| |done]. done.
  - exists Bs. eapply parts_hw; [done|unfold outs; simpl; by rewrite Eq|done| |done]. done.
  - exists Bs. eapply parts_hw; [done|unfold outs; simpl; by rewrite Eq|done| |done]. done.
  - exists Bs. eapply parts_hw; [done|unfold outs; simpl; by rewrite Eq|done| |done]. done.
  - exists (Bs ++ [p :: rev (sent s)]). eapply parts_hw; [done|..].
    + unfold outs. simpl. rewrite Eq, concat_app. simpl. rewrite app_nil_r, <- Permutation_middle. rewrite <- Permutation_rev. solve_Permutation.
    + rewrite app_assoc. apply batches_snoc; [done|simpl; by rewrite length_rev|]. simpl. fold fl. destruct fl; [by rewrite Hl|].
      apply linked_app in Hl as (mid & Hm & (b & Hpb & Hn) & Hq). pose proof (linked_chain _ _ _ _ [] Hm) as Hc. rewrite app_nil_r in Hc.
      split; [done|]. exists b. rewrite Hn. split; [done|]. by apply Hc.
    + rewrite app_assoc, flushed_app. fold fl. by destruct fl.
    + done.
Qed.

Lemma hw_run_inv c lost F V W l : forall s, tx_inv c lost F V W s -> tx_inv c lost F V W (hw_run l s).
Proof.
  induction l as [|e l IH]; intros s Hs; [done|]. apply IH. destruct Hs as (L & Bs & H). destruct (hw_step_parts _ _ _ _ _ e _ _ _ H) as (Bs' & H'). by exists L, Bs'.
Qed.


(** The buffers of a waiting thread are left alone. *)
Definition untouched (F : gset ptr) (s s' : tx_ring) : Prop := forall q, q ∈ F -> mem s' !! q = mem s !! q.

(** Nothing but descriptors and pools changes. *)
Record same_state (F : gset ptr) (s s' : tx_ring) : Prop := SameState {
  ss_mem : untouched F s s';
  ss_free : m_tx_num_wr_free s' = m_tx_num_wr_free s;
  ss_users : users s' = users s;
  ss_last : m_p_last_tx_mem_buf_desc s' = m_p_last_tx_mem_buf_desc s;
  ss_up : m_up s' = m_up s;
  ss_hw : (sent s', sq s', qp_error s', cqes s') = (sent s, sq s, qp_error s, cqes s)
}.

Lemma same_state_refl F s : same_state F s s.
Proof. by split. Qed.

Lemma same_state_trans F s1 s2 s3 : same_state F s1 s2 -> same_state F s2 s3 -> same_state F s1 s3.
Proof. intros [] []. split; try congruence. intros q Hq. rewrite ss_mem1, ss_mem0; done. Qed.

(** ** Returning buffers *)

Lemma parts_pool c lost F V W s L Bs : tx_parts c lost F V W s L Bs -> NoDup (m_tx_pool s) /\ m_tx_pool s ## L /\
  (length (m_tx_pool s) + length L <= length T)%nat.
Proof.
  intros H. pose proof (p_nodup _ _ _ _ _ _ _ _ H) as Hn. rewrite app_assoc in Hn. apply NoDup_app in Hn as (Hn & _ & _).
  assert (length (L ++ m_tx_pool s) <= length T)%nat as Hl.
  { apply submseteq_length, NoDup_submseteq; [done|]. intros q Hq. apply (p_all _ _ _ _ _ _ _ _ H). left. rewrite app_assoc. in_app. }
  rewrite length_app in Hl. apply NoDup_app in Hn as (_ & Hd & Hn). split_and!; [done| |lia]. intros q Hq HL. by apply (Hd q HL).
Qed.

(** Descriptors change only in the global pool [Y ++ L], which takes the
    buffers [Y] of the ring's pool. *)
Lemma parts_global c lost F V W s L Bs stay Y w n : tx_parts c lost F V W s L Bs -> m_tx_pool s = stay ++ Y ->
  pool_ok (Z.of_nat (length T)) w (Y ++ L) -> same_but Y (mem s) (fst w) -> n = m_tx_num_bufs s - Z.of_nat (length Y) ->
  tx_parts c lost F V W (set_num_bufs n (set_pool stay (set_world w s))) (Y ++ L) Bs.
Proof.
  intros [] Ep Hw Hs ->. rewrite Ep in *.
  assert (Y ++ (L ++ stay ++ V ++ outs Bs s) ≡ₚ L ++ (stay ++ Y) ++ V ++ outs Bs s) as HP by solve_Permutation.
  assert (forall q, q ∈ Y ++ (L ++ stay ++ V ++ outs Bs s) <-> q ∈ L ++ (stay ++ Y) ++ V ++ outs Bs s) as Hin by (intros; by rewrite HP).
  assert (forall q, q ∈ L ++ stay ++ V ++ outs Bs s -> q ∉ Y) as HY.
  { rewrite <- HP in p_nodup0. apply NoDup_app in p_nodup0 as (_ & Hd & _). intros q Hq Hx. by apply (Hd q Hx). }
  assert (forall q, q ∈ stay \/ q ∈ V ++ outs Bs s \/ q ∈ F ∪ users s -> fst w !! q = mem s !! q) as Hsame.
  { intros q Hq. apply Hs. destruct Hq as [?|[?|Hu]]; [apply HY; in_app..|]. specialize (p_apart0 q Hu). in_app. }
  split; simpl; try done.
  - rewrite <- app_assoc. by rewrite HP.
  - intros q. rewrite p_all0. rewrite <- Hin. rewrite <- !app_assoc. done.
  - intros q Hq. specialize (p_apart0 q Hq). in_app.
  - apply Forall_app in p_idle0 as [? _]. eapply idle_same; [|done]. intros q Hq. apply Hsame. by left.
  - intros q Hq. eapply cell_same; [|by apply p_refs0]. apply Hsame. tauto.
  - eapply single_links; [|done]. intros q Hq. rewrite Hsame; [done|]. right; left. unfold outs. in_app.
  - eapply batches_ext; [|done]. intros q Hq. rewrite Hsame; [done|]. right; left. unfold outs. in_app.
  - destruct (flushed _ _); [done|]. eapply linked_ext; [|done]. intros q Hq. rewrite Hsame; [done|]. right; left. unfold outs.
    rewrite fmap_app in Hq. unfold unsignaled in Hq. rewrite <- list_fmap_compose, list_fmap_id in Hq. in_app.
  - rewrite length_app. lia.
Qed.

Lemma return_to_global_ok c lost F V W s : tx_inv c lost F V W s -> exists s', return_to_global s = Ok s' /\ tx_inv c lost F V W s' /\ same_state F s s'.
Proof.
  intros (L & Bs & H). unfold return_to_global. set (n := Z.of_nat (length (m_tx_pool s))). destruct (_ && _); [|exists s; split_and!; [done|by exists L, Bs|apply same_state_refl]].
  destruct (parts_pool _ _ _ _ _ _ _ _ H) as (Hn & Hd & Hl).
  pose proof (Z.div_pos n 2 ltac:(lia) ltac:(lia)). pose proof (Z.div_le_upper_bound n 2 n ltac:(lia) ltac:(lia)) as Hlen.
  destruct (put_buffers_q_spec _ _ _ _ (n / 2) (p_pool _ _ _ _ _ _ _ _ H) Hn Hd) as (w & -> & Hw & Hs); [|lia|lia|].
  { eapply Forall_impl; [exact (p_idle _ _ _ _ _ _ _ _ H)|]. intros q (b & ? & ? & _). by exists b. }
  cbn [mbind res_bind]. eexists. split; [done|]. split.
  - eexists _, Bs. eapply parts_global; [done| |done|done|]; [by rewrite take_drop|]. rewrite length_drop. lia.
  - split; try done. intros q Hq. apply Hs. intros Hp. apply (p_apart _ _ _ _ _ _ _ _ H q); [set_solver|].
    apply elem_of_app. right. by apply (subseteq_drop (length (m_tx_pool s) - Z.to_nat (n / 2)) (m_tx_pool s)).
Qed.

(** A buffer in hand is nowhere else. *)
Lemma parts_hand c lost F p V W s L Bs : tx_parts c lost F (p :: V) W s L Bs -> p ∉ L /\ p ∉ m_tx_pool s /\ p ∉ V /\ p ∉ outs Bs s /\
  exists b, mem s !! p = Some b /\ p_desc_owner b = Some (this cfg) /\ pbuf_ref b = 1 + (if decide (p ∈ F ∪ users s) then 1 else 0).
Proof.
  intros H. pose proof (p_nodup _ _ _ _ _ _ _ _ H) as Hn. assert (L ++ m_tx_pool s ++ (p :: V) ++ outs Bs s ≡ₚ p :: L ++ m_tx_pool s ++ V ++ outs Bs s) as HP by solve_Permutation.
  rewrite HP in Hn. apply NoDup_cons in Hn as [Hp _]. split_and!; try in_app.
  destruct (p_refs _ _ _ _ _ _ _ _ H p) as (b & Hb & Ho & Hr); [left; left|]. exists b. split_and!; [done|done|]. rewrite Hr. unfold refs.
  rewrite decide_True by (by left). done.
Qed.

(** Only the descriptor of [p], which the adapter does not have, changes. *)
Lemma parts_links p m' c lost F V W s L Bs : tx_parts c lost F V W s L Bs -> p ∉ outs Bs s -> (forall q, q <> p -> m' !! q = mem s !! q) ->
  Forall (single m') X /\ batches m' (m_b_qp_tx_first_flushed_completion_handled s) (W ++ cqes s) Bs /\
  (if flushed (m_b_qp_tx_first_flushed_completion_handled s) (W ++ cqes s) then sent s = []
   else linked m' None (unsignaled (sent s) ++ sq s) (m_p_last_tx_mem_buf_desc s)).
Proof.
  intros H Hp Hs. assert (same_links (mem s) m' (outs Bs s)) as Hl by (intros q Hq; rewrite Hs; [done|]; by intros ->). split; [|split].
  - eapply single_links; [|apply (p_hand _ _ _ _ _ _ _ _ H)]. eapply same_links_sub; [|done]. intros q Hq. unfold outs. in_app.
  - eapply batches_ext; [|apply (p_batches _ _ _ _ _ _ _ _ H)]. eapply same_links_sub; [|done]. intros q Hq. unfold outs. in_app.
  - pose proof (p_links _ _ _ _ _ _ _ _ H) as Hk. destruct (flushed _ _); [done|]. eapply linked_ext; [|done]. eapply same_links_sub; [|done].
    intros q Hq. rewrite fmap_app in Hq. unfold unsignaled in Hq. rewrite <- list_fmap_compose, list_fmap_id in Hq. unfold outs. in_app.
Qed.

Lemma to_pool c lost F p V W s L Bs b' : tx_parts c lost F (p :: V) W s L Bs -> p ∉ F ∪ users s -> p_next_desc b' = None ->
  p_desc_owner b' = Some (this cfg) -> tx_parts c lost F V W (set_pool (m_tx_pool s ++ [p]) (set_mem (<[p := b']> (mem s)) s)) L Bs.
Proof.
  intros H Hu Hb Ho. destruct (parts_hand _ _ _ _ _ _ _ _ _ H) as (HL & Hpl & HV & HO & _).
  assert (forall q, q <> p -> <[p := b']> (mem s) !! q = mem s !! q) as Hs by (intros; by apply lookup_insert_ne).
  destruct (parts_links p (<[p := b']> (mem s)) _ _ _ _ _ _ _ _ H HO Hs) as (Hha & Hba & Hli). destruct H.
  assert (L ++ (m_tx_pool s ++ [p]) ++ V ++ outs Bs s ≡ₚ L ++ m_tx_pool s ++ (p :: V) ++ outs Bs s) as HP by solve_Permutation.
  assert (forall q, q ∈ L ++ (m_tx_pool s ++ [p]) ++ V ++ outs Bs s <-> q ∈ L ++ m_tx_pool s ++ (p :: V) ++ outs Bs s) as Hin by (intros; by rewrite HP).
  split; simpl; try done.
  - eapply pool_ok_same; [| |done]; [done|]. intros q Hq. apply Hs. by intros ->.
  - change (outs Bs (set_pool _ _)) with (outs Bs s). by rewrite HP.
  - intros q. change (outs Bs (set_pool _ _)) with (outs Bs s). by rewrite Hin, p_all0.
  - intros q Hq. specialize (p_apart0 q Hq). rewrite !elem_of_app, list_elem_of_singleton in *. intros [?|[? | ->]]; [tauto..|done].
  - intros q Hq. destruct (p_frame0 q Hq) as [? Hf]. split; [done|]. rewrite !elem_of_app, elem_of_cons in Hf. in_app.
  - apply Forall_app. split; [eapply idle_same; [|done]; intros q Hq; apply Hs; by intros ->|]. constructor; [|done]. exists b'. by rewrite lookup_insert_eq.
  - intros q Hq. change (outs Bs (set_pool _ _)) with (outs Bs s) in *. assert (q <> p) as Hqp by (intros ->; destruct Hq; [in_app|done]).
    eapply cell_same; [by apply Hs|]. rewrite (refs_ext ((p :: V) ++ outs Bs s) _ (F ∪ users s)); [apply p_refs0|..]; rewrite ?elem_of_app, ?elem_of_cons in *; tauto.
Qed.

Lemma to_user c lost F p V W s L Bs b' : tx_parts c lost F (p :: V) W s L Bs -> p ∈ F ∪ users s -> pbuf_ref b' = 1 ->
  p_desc_owner b' = Some (this cfg) -> tx_parts c lost F V W (set_mem (<[p := b']> (mem s)) s) L Bs.
Proof.
  intros H Hu Hb Ho. destruct (parts_hand _ _ _ _ _ _ _ _ _ H) as (HL & Hpl & HV & HO & _).
  assert (forall q, q <> p -> <[p := b']> (mem s) !! q = mem s !! q) as Hs by (intros; by apply lookup_insert_ne).
  destruct (parts_links p (<[p := b']> (mem s)) _ _ _ _ _ _ _ _ H HO Hs) as (Hha & Hba & Hli). destruct H.
  assert (L ++ m_tx_pool s ++ (p :: V) ++ outs Bs s ≡ₚ p :: L ++ m_tx_pool s ++ V ++ outs Bs s) as HP by solve_Permutation.
  assert (forall q, q ∈ L ++ m_tx_pool s ++ (p :: V) ++ outs Bs s <-> q ∈ p :: L ++ m_tx_pool s ++ V ++ outs Bs s) as Hin by (intros; by rewrite HP).
  split; simpl; change (outs Bs (set_mem _ _)) with (outs Bs s); try done.
  - eapply pool_ok_same; [| |done]; [done|]. intros q Hq. apply Hs. by intros ->.
  - rewrite HP in p_nodup0. by apply NoDup_cons in p_nodup0 as [_ ?].
  - intros q. rewrite p_all0, Hin, elem_of_cons. destruct (decide (q = p)) as [->|]; tauto.
  - intros q Hq. destruct (p_frame0 q Hq) as [? Hf]. split; [done|]. rewrite !elem_of_app, elem_of_cons in Hf. in_app.
  - eapply idle_same; [|done]. intros q Hq. apply Hs. by intros ->.
  - intros q Hq. destruct (decide (q = p)) as [->|Hqp].
    + exists b'. rewrite lookup_insert_eq. split_and!; [done..|]. rewrite Hb. unfold refs. rewrite decide_False by in_app. by rewrite decide_True.
    + eapply cell_same; [by apply Hs|]. rewrite (refs_ext ((p :: V) ++ outs Bs s) _ (F ∪ users s)); [apply p_refs0|..]; rewrite ?elem_of_app, ?elem_of_cons in *; tauto.
Qed.


Lemma put_tx_loop_ok V : forall fuel o n c lost F W s, tx_inv c lost F V W s -> chain (mem s) o V -> (length V <= fuel)%nat ->
  exists s', put_tx_loop fuel o n s = Ok (n + Z.of_nat (length V), s') /\ tx_inv c lost F [] W s' /\ same_state F s s'.
Proof.
  induction V as [|p V IH]; intros fuel o n c lost F W s Hs Hc Hf.
  { simpl in Hc. subst o. exists s. rewrite Z.add_0_r. split; [by destruct fuel|]. split; [done|apply same_state_refl]. }
  destruct Hs as (L & Bs & H). destruct (parts_hand _ _ _ _ _ _ _ _ _ H) as (_ & _ & HV & _ & b & Hb & Ho & Hr).
  destruct Hc as (-> & b0 & Hb0 & Hc). assert (b0 = b) as -> by congruence. clear Hb0. destruct fuel as [|fuel]; simpl in Hf; [lia|]. cbn [put_tx_loop]. unfold load. rewrite Hb. cbn [must mbind res_bind].
  set (b' := dec_pbuf_ref (set_next_desc None b)).
  assert (pbuf_ref b' = (if decide (p ∈ F ∪ users s) then 1 else 0) /\ p_next_desc b' = None /\ p_desc_owner b' = Some (this cfg)) as (Hr' & Hn' & Ho').
  { subst b'. unfold dec_pbuf_ref. simpl. rewrite (proj2 (Z.eqb_neq _ 0)) by (destruct (decide _); lia). simpl. split_and!; [destruct (decide _); lia|done..]. }
  assert (p ∉ F) as HpF by (intros Hp; destruct (p_frame _ _ _ _ _ _ _ _ H p Hp) as [_ []]; left).
  match goal with |- context [put_tx_loop fuel _ _ ?x] => set (s1 := x) end.
  assert (tx_inv c lost F V W s1 /\ (forall q, q <> p -> mem s1 !! q = mem s !! q) /\ same_state F s s1) as (H1 & Hm & Hss).
  { subst s1. rewrite Hr'. destruct (decide (p ∈ F ∪ users s)); simpl.
    - split; [exists L, Bs; by apply to_user|]. split; [|split; try done]; intros q Hq; apply lookup_insert_ne; congruence || set_solver.
    - split; [exists L, Bs; apply to_pool; try done|]. split; [|split; try done]; intros q Hq; apply lookup_insert_ne; congruence || set_solver. }
  destruct (IH fuel (p_next_desc b) (n + 1) c lost F W s1 H1) as (s' & E & H' & Hss'); [|lia|].
  { eapply chain_ext; [|done]. intros q Hq. rewrite Hm; [done|]. by intros ->. }
  exists s'. split; [rewrite E; simpl; do 2 f_equal; lia|]. split; [done|by eapply same_state_trans].
Qed.


Lemma put_tx_buffers_ok c lost F V W s o : tx_inv c lost F V W s -> chain (mem s) o V ->
  exists s', put_tx_buffers o s = Ok (Z.of_nat (length V), s') /\ tx_inv c lost F [] W s' /\ same_state F s s'.
Proof.
  intros H Hc. unfold put_tx_buffers.
  destruct (put_tx_loop_ok V (size (mem s)) o 0 c lost F W s H Hc (chain_size _ _ _ Hc)) as (s1 & -> & H1 & E1). cbn [mbind res_bind fst snd].
  destruct (return_to_global_ok _ _ _ _ _ _ H1) as (s2 & -> & H2 & E2). exists s2. split; [done|]. split; [done|by eapply same_state_trans].
Qed.

(** The credits of the buffers that came back. *)
Lemma tx_inv_free c lost F V W s n : tx_inv c lost F V W s -> 0 <= m_tx_num_wr_free s + n -> tx_inv (c + n) lost F V W (set_free (m_tx_num_wr_free s + n) s).
Proof.
  intros (L & Bs & []) Hn. exists L, Bs. split; simpl; try done. change (outs Bs (set_free _ s)) with (outs Bs s). lia.
Qed.

Lemma tx_inv_credit c lost F V W s n : tx_inv c lost F V W s -> 0 <= n -> tx_inv (c + n) lost F V W (set_free (m_tx_num_wr_free s + n) s).
Proof. intros H Hn. apply tx_inv_free; [done|]. destruct H as (L & Bs & []). lia. Qed.

Lemma tx_inv_missing c lost F V W s n : tx_inv c lost F V W s -> tx_inv c lost F V W (set_missing n s).
Proof. intros (L & Bs & []). exists L, Bs. by split. Qed.

Lemma same_state_missing F s n : same_state F s (set_missing n s).
Proof. by split. Qed.

Lemma mem_buf_tx_release_ok c lost F V W s o acc : tx_inv c lost F V W s -> chain (mem s) o V ->
  exists s', mem_buf_tx_release o acc None s = Ok (Z.of_nat (length V), s') /\ tx_inv c lost F [] W s' /\ same_state F s s'.
Proof.
  intros H Hc. unfold mem_buf_tx_release. destruct (put_tx_buffers_ok _ _ _ _ _ _ _ H Hc) as (s1 & -> & H1 & E1). cbn [mbind res_bind].
  eexists. split; [done|]. destruct acc; [|done]. split; [by apply tx_inv_missing|]. eapply same_state_trans; [done|apply same_state_missing].
Qed.

(** ** Completions *)

(** The first completion in hand: its buffers come into hand. *)
Lemma take_batch c lost F e W s : tx_inv c lost F [] (e :: W) s -> exists B, length B = wqes e /\
  if success e then chain (mem s) (Some (wr_id e)) B /\ m_b_qp_tx_first_flushed_completion_handled s = false /\ tx_inv (c - Z.of_nat (wqes e)) lost F B W s
  else
    let first := m_b_qp_tx_first_flushed_completion_handled s in
    (if first then B = [wr_id e] else chain (mem s) (Some (wr_id e)) B) /\ qp_error s = true /\ tx_inv (c - Z.of_nat (wqes e)) lost F B W (set_flags true (m_up s) s).
Proof.
  intros (L & Bs & H). pose proof (p_batches _ _ _ _ _ _ _ _ H) as Hb. destruct Bs as [|B Bs]; [done|]. destruct Hb as (Hl & Hc & Hb). exists B. split; [done|].
  assert (forall fl, fl = m_b_qp_tx_first_flushed_completion_handled s || negb (success e) -> tx_inv (c - Z.of_nat (wqes e)) lost F B W (set_flags fl (m_up s) s)) as Hinv.
  { intros fl Hfl. assert (flushed (m_b_qp_tx_first_flushed_completion_handled s) ((e :: W) ++ cqes s) = flushed fl (W ++ cqes s)) as Hff.
    { unfold flushed. simpl. by rewrite Hfl, orb_assoc. }
    assert (B ++ outs Bs s ≡ₚ outs (B :: Bs) s) as HP by (unfold outs; simpl; solve_Permutation).
    assert (forall q, q ∈ B ++ outs Bs s <-> q ∈ outs (B :: Bs) s) as Hin by (intros; by rewrite HP).
    exists L, Bs. destruct H. rewrite Hff in *. simpl in p_nodup0, p_all0, p_refs0, p_frame0. split; simpl; change (outs Bs (set_flags _ _ _)) with (outs Bs s); try done.
    - by rewrite HP.
    - intros q. rewrite p_all0. rewrite !(elem_of_app L), !(elem_of_app (m_tx_pool s)), Hin. done.
    - intros q Hq. rewrite Hin. auto.
    - intros q Hq. rewrite Hin in Hq. rewrite (refs_ext (outs (B :: Bs) s) _ (F ∪ users s)); [auto|apply Hin|done].
    - by rewrite Hfl.
    - apply Permutation_length in HP. rewrite length_app in HP. lia. }
  destruct (success e) eqn:Es.
  - destruct Hc as [Hf Hc]. split_and!; [done|done|]. specialize (Hinv false). rewrite Hf in Hinv. specialize (Hinv eq_refl).
    assert (s = set_flags false (m_up s) s) as -> by (destruct s; simpl in *; by subst). done.
  - split; [done|]. split; [|apply Hinv; by rewrite orb_true_r]. apply (p_error _ _ _ _ _ _ _ _ H). unfold flushed. simpl. rewrite Es. simpl. apply orb_true_r.
Qed.


(** ... and the credits grow. *)
Definition credited (F : gset ptr) (s s' : tx_ring) : Prop :=
  m_tx_num_wr_free s <= m_tx_num_wr_free s' /\ same_state F (set_free (m_tx_num_wr_free s') s) s'.

Lemma credited_refl F s : credited F s s.
Proof. split; [done|]. destruct s. by split. Qed.

Lemma credited_trans F s1 s2 s3 : credited F s1 s2 -> credited F s2 s3 -> credited F s1 s3.
Proof.
  intros [H1 []] [H2 []]. split; [lia|]. split; simpl in *; try congruence. intros q Hq. rewrite (ss_mem1 q Hq). by apply ss_mem0.
Qed.

Lemma returned_ok c lost F V W s p : tx_inv c lost F V W s -> chain (mem s) (Some p) V ->
  exists s', mem_buf_desc_return_to_owner_tx p s = Ok s' /\ tx_inv (c + Z.of_nat (length V)) lost F [] W s' /\ credited F s s'.
Proof.
  intros H Hc. unfold mem_buf_desc_return_to_owner_tx. destruct (put_tx_buffers_ok _ _ _ _ _ _ _ H Hc) as (s1 & -> & H1 & []). cbn [mbind res_bind].
  eexists. split; [done|]. split; [apply tx_inv_credit; [done|lia]|]. split; simpl; [lia|]. by split.
Qed.

Lemma failed_ok c lost F V W s p : tx_inv c lost F V W (set_flags true (m_up s) s) ->
  (if m_b_qp_tx_first_flushed_completion_handled s then V = [p] else chain (mem s) (Some p) V) ->
  exists s', mem_buf_desc_completion_with_error_tx p s = Ok s' /\ tx_inv (c + Z.of_nat (length V)) lost F [] W s' /\ credited F s s'.
Proof.
  intros H Hp. unfold mem_buf_desc_completion_with_error_tx.
  assert (exists s1, (if m_b_qp_tx_first_flushed_completion_handled s then m ← store p (set_next_desc None) (mem s); Ok (set_mem m s)
    else Ok (set_flags true (m_up s) s)) = Ok s1 /\ tx_inv c lost F V W s1 /\ chain (mem s1) (Some p) V /\ same_state F s s1) as (s1 & -> & H1 & Hc & E1).
  { destruct (m_b_qp_tx_first_flushed_completion_handled s) eqn:Ef; [|by eexists; split_and!; [done|done|done|split]].
    assert (set_flags true (m_up s) s = s) as Es by (destruct s; simpl in *; by subst). rewrite Es in H. subst V.
    destruct H as (L & Bs & H). destruct (parts_hand _ _ _ _ _ _ _ _ _ H) as (HL & Hpl & _ & HO & b & Hb & Ho & Hr).
    unfold store, load. rewrite Hb. cbn [must mbind res_bind]. eexists. split; [done|].
    assert (forall q, q <> p -> <[p := set_next_desc None b]> (mem s) !! q = mem s !! q) as Hs by (intros; by apply lookup_insert_ne).
    destruct (parts_links p (<[p := set_next_desc None b]> (mem s)) _ _ _ _ _ _ _ _ H HO Hs) as (Hha & Hba & Hli). split_and!.
    - exists L, Bs. destruct H. split; simpl; change (outs Bs (set_mem _ _)) with (outs Bs s); try done.
      + eapply pool_ok_same; [| |done]; [done|]. intros q Hq. apply Hs. by intros ->.
      + eapply idle_same; [|done]. intros q Hq. apply Hs. by intros ->.
      + intros q Hq. destruct (p_refs0 q Hq) as (bq & Hbq & ? & ?). destruct (decide (q = p)) as [->|].
        * exists (set_next_desc None b). rewrite lookup_insert_eq. assert (bq = b) as -> by congruence. done.
        * exists bq. by rewrite Hs.
    - simpl. split; [done|]. eexists. by rewrite lookup_insert_eq.
    - split; try done. intros q Hq. simpl. apply Hs. intros ->. destruct (p_frame _ _ _ _ _ _ _ _ H p Hq) as [_ []]. left. }
  cbn [mbind res_bind]. destruct (mem_buf_tx_release_ok _ _ _ _ _ _ _ false H1 Hc) as (s2 & -> & H2 & []). cbn [mbind res_bind].
  eexists. split; [done|]. split; [apply tx_inv_credit; [done|lia]|]. destruct E1. split; simpl; [lia|]. split; simpl; try congruence.
  intros q Hq. simpl. by rewrite (ss_mem0 q Hq), (ss_mem1 q Hq).
Qed.

Lemma process_tx_completions_ok l : forall c lost F W s, tx_inv c lost F [] (l ++ W) s ->
  exists s', process_tx_completions cfg l s = Ok s' /\ tx_inv c lost F [] W s' /\ credited F s s'.
Proof.
  induction l as [|e l IH]; intros c lost F W s H; [exists s; split_and!; [done..|apply credited_refl]|]. cbn [process_tx_completions].
  assert (exists s1, (x ← process_cq_element_tx e s; let '(buff, s) := x : option ptr * tx_ring in
     match buff with Some p => process_tx_buffer_list cfg p s | None => Ok s end) = Ok s1 /\ tx_inv c lost F [] (l ++ W) s1 /\ credited F s s1) as (s1 & E1 & H1 & C1).
  { destruct (take_batch _ _ _ _ _ _ H) as (B & HB & He). unfold process_cq_element_tx. destruct (success e).
    - destruct He as (Hc & _ & H1). simpl. unfold process_tx_buffer_list.
      assert (exists b, mem s !! wr_id e = Some b /\ p_desc_owner b = Some (this cfg)) as (b & Hb & Ho).
      { destruct B as [|p B]; [done|]. destruct H1 as (L & Bs & H1). destruct (parts_hand _ _ _ _ _ _ _ _ _ H1) as (_ & _ & _ & _ & b & Hb & Ho & _).
        destruct Hc as ([= ->] & _). by exists b. }
      unfold load. rewrite Hb. cbn [must mbind res_bind]. rewrite bool_decide_true by done. destruct (returned_ok _ _ _ _ _ _ _ H1 Hc) as (s1 & -> & H2 & C).
      exists s1. split_and!; [done| |done]. rewrite HB in H2. by replace c with (c - Z.of_nat (wqes e) + Z.of_nat (wqes e)) by lia.
    - destruct He as (Hc & _ & H1).
      assert (exists b, mem s !! wr_id e = Some b /\ p_desc_owner b = Some (this cfg)) as (b & Hb & Ho).
      { destruct B as [|p B]; [by destruct (m_b_qp_tx_first_flushed_completion_handled s)|]. destruct H1 as (L & Bs & H1). destruct (parts_hand _ _ _ _ _ _ _ _ _ H1) as (_ & _ & _ & _ & b & Hb & Ho & _).
        exists b. split; [|done]. destruct (m_b_qp_tx_first_flushed_completion_handled s); [by injection Hc as ->|]. by destruct Hc as ([= ->] & _). }
      unfold load. rewrite Hb. cbn [must mbind res_bind]. rewrite Ho. destruct (failed_ok _ _ _ _ _ _ _ H1 Hc) as (s1 & -> & H2 & C). cbn [mbind res_bind].
      exists s1. split_and!; [done| |done]. rewrite HB in H2. by replace c with (c - Z.of_nat (wqes e) + Z.of_nat (wqes e)) by lia. }
  destruct (process_cq_element_tx e s) as [[buff s0]| | |]; try done. cbn [mbind res_bind] in E1 |- *. rewrite E1. cbn [mbind res_bind].
  destruct (IH c lost F W s1 H1) as (s2 & -> & H2 & C2). exists s2. split_and!; [done|done|by eapply credited_trans].
Qed.


Lemma set_hw_id s : set_hw (sent s) (sq s) (qp_error s) (cqes s) s = s.
Proof. by destruct s. Qed.

Lemma hw_step_frame e s : exists a q e' cs, hw_step e s = set_hw a q e' cs s /\ (length cs + length q <= pending s)%nat.
Proof.
  assert (exists a q e' cs, s = set_hw a q e' cs s /\ (length cs + length q <= pending s)%nat) as Hid.
  { exists (sent s), (sq s), (qp_error s), (cqes s). by rewrite set_hw_id. }
  unfold hw_step. destruct e.
  - destruct (sq s) as [|[p sig] q] eqn:Eq; [done|]. destruct (qp_error s); [done|]. unfold pending. rewrite Eq. destruct sig.
    + eexists [], q, false, _. split; [done|]. rewrite length_app. simpl. lia.
    + eexists _, q, false, _. split; [done|]. simpl. lia.
  - exists (sent s), (sq s), true, (cqes s). split; [by destruct (sq s)|done].
  - destruct (sq s) as [|[p sig] q] eqn:Eq; [done|]. destruct (qp_error s); [|done]. unfold pending. rewrite Eq.
    eexists [], q, true, _. split; [done|]. rewrite length_app. simpl. lia.
Qed.

Lemma hw_run_frame l : forall s, exists a q e cs, hw_run l s = set_hw a q e cs s /\ (length cs + length q <= pending s)%nat.
Proof.
  induction l as [|e l IH]; intros s; [exists (sent s), (sq s), (qp_error s), (cqes s); by rewrite set_hw_id|].
  destruct (hw_step_frame e s) as (a & q & e' & cs & E & Hle). simpl. rewrite E.
  destruct (IH (set_hw a q e' cs s)) as (a1 & q1 & e1 & cs1 & -> & Hle1). exists a1, q1, e1, cs1. split; [done|].
  unfold pending in Hle1 at 1. change (cqes (set_hw a q e' cs s)) with cs in Hle1. change (sq (set_hw a q e' cs s)) with q in Hle1. lia.
Qed.

(** What a call of the ring leaves alone. *)
Record calm (F : gset ptr) (s s' : tx_ring) : Prop := Calm {
  cl_mem : untouched F s s';
  cl_free : m_tx_num_wr_free s <= m_tx_num_wr_free s';
  cl_users : users s' = users s;
  cl_last : m_p_last_tx_mem_buf_desc s' = m_p_last_tx_mem_buf_desc s;
  cl_up : m_up s' = m_up s;
  cl_work : (pending s' <= pending s)%nat
}.

Lemma calm_refl F s : calm F s s.
Proof. by split. Qed.

Lemma calm_trans F s1 s2 s3 : calm F s1 s2 -> calm F s2 s3 -> calm F s1 s3.
Proof. intros [] []. split; try congruence; try lia. intros q Hq. by rewrite cl_mem1, cl_mem0. Qed.

Lemma same_calm F s s' : same_state F s s' -> calm F s s'.
Proof. intros []. injection ss_hw0 as E1 E2 E3 E4. split; try done; [lia|]. unfold pending. by rewrite E2, E4. Qed.

Lemma credited_calm F s s' : credited F s s' -> calm F s s'.
Proof. intros [Hf []]. injection ss_hw0 as E1 E2 E3 E4. split; try done. unfold pending. by rewrite E2, E4. Qed.

Lemma tx_poll_ok c lost F evs s : tx_inv c lost F [] [] s -> exists ret s', poll_and_process_element_tx cfg evs s = Ok (ret, s') /\ tx_inv c lost F [] [] s' /\ calm F s s' /\
  0 <= ret /\ (0 < ret -> (pending s' < pending s)%nat) /\ (ret = 0 -> cqes s' = []) /\ sent s' = sent (hw_run evs s) /\ sq s' = sq (hw_run evs s) /\ qp_error s' = qp_error (hw_run evs s).
Proof.
  intros H. apply (hw_run_inv _ _ _ _ _ evs) in H. destruct (hw_run_frame evs s) as (a & q & e & cs & E & Hle). unfold poll_and_process_element_tx.
  rewrite E in *. simpl. set (n := Z.to_nat (m_n_sysvar_cq_poll_batch_max cfg)). set (s1 := set_hw a q e (drop n cs) (set_hw a q e cs s)).
  assert (tx_inv c lost F [] (take n cs ++ []) s1) as H1.
  { rewrite app_nil_r. destruct H as (L & Bs & []). exists L, Bs. simpl in *. split; simpl; rewrite ?take_drop; try done. }
  destruct (process_tx_completions_ok _ _ _ _ _ _ H1) as (s2 & -> & H2 & C2). cbn [mbind res_bind]. pose proof (credited_calm _ _ _ C2) as M.
  destruct C2 as [_ []]. injection ss_hw0 as E1 E2 E3 E4. simpl in *.
  pose proof (co_batch Hcfg). assert (1 <= n)%nat as Hn by lia. pose proof (length_take cs n). pose proof (length_drop cs n).
  eexists _, s2. split; [done|]. split; [done|]. split; [|split_and!; try done].
  - destruct M. split; try done. unfold pending in *. rewrite E2, E4. lia.
  - lia.
  - intros. unfold pending in *. rewrite E2, E4. lia.
  - intros Hz. rewrite E4. apply nil_length_inv. lia.
Qed.

(** ** Handing out buffers *)

Lemma more_ok c lost F V W s n : 0 <= n -> tx_inv c lost F V W s ->
  exists ok s', request_more_tx_buffers cfg n s = Ok (ok, s') /\ tx_inv c lost F V W (if ok then set_num_bufs (m_tx_num_bufs s' + n) s' else s') /\ same_state F s s' /\
    (n <= m_n_buffers (snd (world_ s)) -> n <= Z.of_nat (length (m_tx_pool s'))).
Proof.
  intros Hn (L & Bs & H). unfold request_more_tx_buffers. pose proof (p_pool _ _ _ _ _ _ _ _ H) as Hp. destruct (world_ s) as [m bp] eqn:Ew.
  destruct (get_buffers_spec _ m bp L (m_tx_pool s) (Some (this cfg)) n (m_tx_lkey cfg) Hp Hn) as (m' & bp' & -> & Hno & Hyes). cbn [mbind res_bind].
  assert (m_n_buffers bp = Z.of_nat (length L)) as EL by apply Hp. cbn [snd].
  destruct (Z.leb_spec n (Z.of_nat (length L))) as [Hle|Hlt].
  - destruct (Hyes Hle) as (P1 & P2 & P3). set (i := Z.to_nat n) in *. assert (mem s = m) as Em by (by rewrite Ew).
    assert (drop i L ++ (m_tx_pool s ++ take i L) ++ V ++ outs Bs s ≡ₚ L ++ m_tx_pool s ++ V ++ outs Bs s) as HP by (rewrite <- (take_drop i L) at 3; solve_Permutation).
    assert (forall q, q ∈ drop i L ++ (m_tx_pool s ++ take i L) ++ V ++ outs Bs s <-> q ∈ L ++ m_tx_pool s ++ V ++ outs Bs s) as Hin by (intros; by rewrite HP).
    assert (forall q, q ∈ m_tx_pool s \/ q ∈ V ++ outs Bs s \/ q ∈ F ∪ users s -> m' !! q = m !! q) as Hsame.
    { intros q Hq. apply P2. intros HL%(subseteq_take i L). destruct Hq as [Hq|[Hq|Hq]].
      - pose proof (p_nodup _ _ _ _ _ _ _ _ H) as Hnd. apply NoDup_app in Hnd as (_ & Hd & _). apply (Hd q HL). in_app.
      - pose proof (p_nodup _ _ _ _ _ _ _ _ H) as Hnd. apply NoDup_app in Hnd as (_ & Hd & _). apply (Hd q HL). in_app.
      - apply (p_apart _ _ _ _ _ _ _ _ H q Hq). in_app. }
    eexists true, _. split; [done|]. split; [|split; [split; try done|simpl; rewrite length_app, length_take; lia]].
    + exists (drop i L), Bs. destruct H. split; simpl; change (outs Bs (set_num_bufs _ _)) with (outs Bs s); try done.
      * by rewrite HP.
      * intros q. by rewrite Hin.
      * intros q Hq. specialize (p_apart0 q Hq). intros Hd. apply p_apart0. pose proof (subseteq_take i L q). pose proof (subseteq_drop i L q). in_app.
      * rewrite Em in *. apply Forall_app. split; [eapply idle_same; [|done]; intros q Hq; apply Hsame; by left|]. apply Forall_forall. intros q Hq.
        destruct (P3 q Hq) as (b & Hb & Hb'). eexists. by split.
      * intros q Hq. rewrite Em in *. eapply cell_same; [|by apply p_refs0]. apply Hsame. tauto.
      * rewrite Em in *. eapply single_links; [|done]. intros q Hq. rewrite Hsame; [done|]. right; left. unfold outs. in_app.
      * rewrite Em in *. eapply batches_ext; [|done]. intros q Hq. rewrite Hsame; [done|]. right; left. unfold outs. in_app.
      * destruct (flushed _ _); [done|]. rewrite Em in *. eapply linked_ext; [|done]. intros q Hq. rewrite Hsame; [done|]. right; left. unfold outs.
        rewrite fmap_app in Hq. unfold unsignaled in Hq. rewrite <- list_fmap_compose, list_fmap_id in Hq. in_app.
      * rewrite length_drop. subst i. lia.
    + intros q Hq. simpl. rewrite Em. apply Hsame. set_solver.
  - destruct (Hno Hlt) as (-> & P1 & _). eexists false, _. split; [done|]. split; [|split; [split; try done|lia]].
    + exists L, Bs. destruct H. rewrite Ew in *. by split.
    + intros q Hq. simpl. by rewrite Ew.
Qed.


(** A buffer leaves the pool of the ring, for a thread that holds [F]. *)
Lemma grant c lost F V W s pl p : tx_inv c lost F V W s -> m_tx_pool s = pl ++ [p] -> exists b,
  mem s !! p = Some b /\ p_next_desc b = None /\ p ∉ F /\ p ∉ pl /\
  tx_inv c lost ({[p]} ∪ F) V W (set_pool pl (set_mem (<[p := set_pbuf (pbuf_flags b) 1 b]> (mem s)) s)).
Proof.
  intros (L & Bs & H) Ep. pose proof (p_idle _ _ _ _ _ _ _ _ H) as Hi. rewrite Ep in Hi. apply Forall_app in Hi as [Hi [(b & Hb & Hn & Ho) _]%Forall_cons].
  pose proof (p_nodup _ _ _ _ _ _ _ _ H) as Hnd. rewrite Ep in Hnd.
  assert (L ++ (pl ++ [p]) ++ V ++ outs Bs s ≡ₚ p :: L ++ pl ++ V ++ outs Bs s) as HP by solve_Permutation.
  assert (forall q, q ∈ L ++ (pl ++ [p]) ++ V ++ outs Bs s <-> q ∈ p :: L ++ pl ++ V ++ outs Bs s) as Hin by (intros; by rewrite HP).
  rewrite HP in Hnd. apply NoDup_cons in Hnd as [Hp Hnd]. set (b' := set_pbuf (pbuf_flags b) 1 b).
  assert (p ∉ L /\ p ∉ pl /\ p ∉ V ++ outs Bs s) as (HL & Hpl & HD) by (split_and!; in_app).
  assert (p ∉ F ∪ users s) as Hu by (intros Hu; apply (p_apart _ _ _ _ _ _ _ _ H p Hu); rewrite Ep, !elem_of_app; right; right; left).
  assert (forall q, q <> p -> <[p := b']> (mem s) !! q = mem s !! q) as Hs by (intros; by apply lookup_insert_ne).
  assert (p ∉ outs Bs s) as HO by in_app. destruct (parts_links p (<[p := b']> (mem s)) _ _ _ _ _ _ _ _ H HO Hs) as (Hha & Hba & Hli).
  exists b. split_and!; [done|done|set_solver|done|]. exists L, Bs. destruct H. rewrite Ep in *.
  split; simpl; change (outs Bs (set_pool _ _)) with (outs Bs s); try done.
  - eapply pool_ok_same; [| |done]; [done|]. intros q Hq. apply Hs. by intros ->.
  - intros q. rewrite p_all0, Hin, elem_of_cons. in_sets.
  - intros q Hq. destruct (decide (q = p)) as [->|]; [in_app|]. specialize (p_apart0 q ltac:(set_solver)). in_app.
  - intros q Hq. destruct (decide (q = p)) as [->|]; [set_solver|]. apply p_frame0. set_solver.
  - eapply idle_same; [|done]. intros q Hq. apply Hs. by intros ->.
  - intros q Hq. destruct (decide (q = p)) as [->|Hqp].
    + exists b'. rewrite lookup_insert_eq. split_and!; [done..|]. unfold refs. rewrite decide_False, decide_True by set_solver. done.
    + eapply cell_same; [by apply Hs|]. rewrite (refs_ext (V ++ outs Bs s) _ (F ∪ users s)); [apply p_refs0|..]; in_sets.
Qed.

(** A buffer of which a socket has the only reference. *)
Lemma sole_user c lost F V W s L Bs p b : tx_parts c lost F V W s L Bs -> p ∈ F ∪ users s -> mem s !! p = Some b -> pbuf_ref b = 1 ->
  p ∉ V ++ outs Bs s /\ p ∉ L ++ m_tx_pool s.
Proof.
  intros H Hu Hb Hr. split; [|by apply (p_apart _ _ _ _ _ _ _ _ H)]. intros HD. destruct (p_refs _ _ _ _ _ _ _ _ H p ltac:(by left)) as (b' & Hb' & _ & Hrb).
  assert (b' = b) as -> by congruence. unfold refs in Hrb. rewrite (decide_True _ _ HD), decide_True in Hrb by done. lia.
Qed.

(** Such a buffer is linked, or its links are cut. *)
Lemma relink c lost F V W s p b b' : tx_inv c lost F V W s -> p ∈ F ∪ users s -> mem s !! p = Some b -> pbuf_ref b = 1 -> pbuf_ref b' = pbuf_ref b ->
  p_desc_owner b' = p_desc_owner b -> tx_inv c lost F V W (set_mem (<[p := b']> (mem s)) s).
Proof.
  intros (L & Bs & H) HF Hb Hr1 Hr Ho. destruct (sole_user _ _ _ _ _ _ _ _ _ _ H HF Hb Hr1) as [HD HL].
  assert (forall q, q <> p -> <[p := b']> (mem s) !! q = mem s !! q) as Hs by (intros; by apply lookup_insert_ne).
  assert (p ∉ outs Bs s) as HO by in_app. destruct (parts_links p (<[p := b']> (mem s)) _ _ _ _ _ _ _ _ H HO Hs) as (Hha & Hba & Hli).
  exists L, Bs. destruct H. split; simpl; change (outs Bs (set_mem _ _)) with (outs Bs s); try done.
  - eapply pool_ok_same; [| |done]; [done|]. intros q Hq. apply Hs. intros ->. in_app.
  - eapply idle_same; [|done]. intros q Hq. apply Hs. intros ->. in_app.
  - intros q Hq. destruct (p_refs0 q Hq) as (bq & Hbq & ? & ?). destruct (decide (q = p)) as [->|]; [|exists bq; by rewrite Hs].
    exists b'. rewrite lookup_insert_eq. assert (bq = b) as -> by congruence. split_and!; [done|congruence..].
Qed.

Lemma frame_sole c lost F V W s p : tx_inv c lost F V W s -> p ∈ F -> exists b, mem s !! p = Some b /\ pbuf_ref b = 1.
Proof.
  intros (L & Bs & H) HF. destruct (p_refs _ _ _ _ _ _ _ _ H p ltac:(set_solver)) as (b & Hb & _ & Hr). exists b. split; [done|]. rewrite Hr. unfold refs.
  destruct (p_frame _ _ _ _ _ _ _ _ H p HF) as [_ HD]. rewrite decide_False, decide_True by set_solver. done.
Qed.

Lemma set_pool_mem_twice l1 m1 l2 m2 s : set_pool l2 (set_mem m2 (set_pool l1 (set_mem m1 s))) = set_pool l2 (set_mem m2 s).
Proof. done. Qed.

Lemma link_ok k : forall c lost F V W s next, tx_inv c lost ({[next]} ∪ F) V W s -> next ∉ F -> (k <= length (m_tx_pool s))%nat ->
  (exists b, mem s !! next = Some b /\ p_next_desc b = None) ->
  exists G m, link_tx_buffers k next (m_tx_pool s) (mem s) = Ok (take (length (m_tx_pool s) - k) (m_tx_pool s), m) /\ length G = k /\
    chain m (Some next) (next :: G) /\ (forall q, q ∈ G -> q ∉ F) /\
    (forall q, q ∈ F -> m !! q = mem s !! q) /\
    tx_inv c lost (list_to_set (next :: G) ∪ F) V W (set_pool (take (length (m_tx_pool s) - k) (m_tx_pool s)) (set_mem m s)).
Proof.
  induction k as [|k IH]; intros c lost F V W s next H HF Hk (b & Hb & Hn).
  { exists [], (mem s). rewrite Nat.sub_0_r, take_ge by lia. split_and!; try done.
    - split; [done|]. exists b. by rewrite Hn.
    - set_solver.
    - replace (list_to_set [next] ∪ F) with ({[next]} ∪ F) by set_solver. by destruct s as [[] ]. }
  destruct (m_tx_pool s) as [|p pl _] eqn:Ep using rev_ind; simpl in Hk; [lia|]. rewrite length_app in *. cbn [length] in *. cbn [link_tx_buffers].
  rewrite last_snoc, length_app. cbn [length]. unfold store, load. rewrite Hb. cbn [must mbind res_bind].
  destruct (frame_sole _ _ _ _ _ _ next H ltac:(set_solver)) as (b0 & Hb0 & Hr0). assert (b0 = b) as -> by congruence.
  pose proof (relink _ _ _ _ _ _ next b (set_next_desc (Some p) b) H ltac:(set_solver) Hb Hr0 eq_refl eq_refl) as H1. set (m1 := <[next := set_next_desc (Some p) b]> (mem s)) in *.
  destruct (grant _ _ _ _ _ _ pl p H1 Ep) as (bp & Hbp & Hnp & HpF & Hppl & H2). change (mem (set_mem m1 s)) with m1 in *. rewrite Hbp. cbn [must mbind res_bind].
  set (m2 := <[p := set_pbuf (pbuf_flags bp) 1 bp]> m1) in *. replace (length pl + 1 - 1)%nat with (length pl) by lia. rewrite take_app_length.
  destruct (IH c lost ({[next]} ∪ F) V W _ p H2) as (G & m & E & HG & Hc & HGF & Hsame & H3); [done|simpl; lia|exists (set_pbuf (pbuf_flags bp) 1 bp); split; [apply lookup_insert_eq|done]|].
  change (m_tx_pool (set_pool pl (set_mem m2 (set_mem m1 s)))) with pl in *. change (mem (set_pool pl (set_mem m2 (set_mem m1 s)))) with m2 in *.
  exists (p :: G), m. rewrite E. replace (length pl + 1 - S k)%nat with (length pl - k)%nat by lia. rewrite take_app_le by lia. split_and!; try done.
  - simpl. by rewrite HG.
  - split; [done|]. exists (set_next_desc (Some p) b). split; [|done]. rewrite Hsame by set_solver. unfold m2, m1. rewrite lookup_insert_ne by set_solver. by rewrite lookup_insert_eq.
  - intros q Hq. apply elem_of_cons in Hq as [->|Hq]; [set_solver|]. specialize (HGF q Hq). set_solver.
  - intros q Hq. rewrite Hsame by set_solver. unfold m2, m1. rewrite !lookup_insert_ne by set_solver. done.
  - rewrite set_pool_mem_twice in H3. replace (list_to_set (next :: p :: G) ∪ F) with (list_to_set (p :: G) ∪ ({[next]} ∪ F)) by set_solver. done.
Qed.


(** What [get_tx_buffers] returns: nothing, or a list of [n] buffers. *)
Definition granted (c lost : Z) (F : gset ptr) (n : Z) (r : option ptr) (s : tx_ring) : Prop :=
  match r with
  | None => tx_inv c lost F [] [] s
  | Some h => exists G, Z.of_nat (length G) = n /\ chain (mem s) (Some h) G /\ (forall q, q ∈ G -> q ∉ F) /\ tx_inv c lost (list_to_set G ∪ F) [] [] s
  end.

Lemma get_tx_buffers_ok c lost F s n : 1 <= n < 2 ^ 32 -> tx_inv c lost F [] [] s ->
  exists r s', get_tx_buffers cfg n s = Ok (r, s') /\ granted c lost F n r s' /\ same_state F s s' /\
    (n <= Z.of_nat (length (m_tx_pool s)) \/ Z.max RING_TX_BUFS_COMPENSATE n <= m_n_buffers (snd (world_ s)) -> is_Some r).
Proof.
  intros Hn H. unfold get_tx_buffers. set (P := _ \/ _).
  match goal with |- context [mbind _ ?x] => assert (exists s1, x = Ok s1 /\ tx_inv c lost F [] [] s1 /\ same_state F s s1 /\ (P -> n <= Z.of_nat (length (m_tx_pool s1)))) as (s1 & -> & H1 & E1 & HPn) end.
  { subst P. destruct (Z.ltb_spec (Z.of_nat (length (m_tx_pool s))) n); [|exists s; split_and!; [done|done|apply same_state_refl|lia]]. set (count := Z.max _ _) in *.
    destruct (more_ok c lost F [] [] s count) as (ok & s1 & -> & H1 & E1 & Hl); [unfold count, RING_TX_BUFS_COMPENSATE; lia|done|]. cbn [mbind res_bind].
    eexists. split; [done|]. split; [done|]. split; [destruct ok; [|done]; destruct E1; by split|]. destruct ok; simpl; lia. }
  cbn [mbind res_bind]. destruct (Z.ltb_spec (Z.of_nat (length (m_tx_pool s1))) n) as [Hlt|Hge]; [exists None, s1; split_and!; try done; intros Hp; specialize (HPn Hp); lia|]. clear HPn.
  destruct (m_tx_pool s1) as [|h pl _] eqn:Ep using rev_ind; [simpl in Hge; lia|]. rewrite last_snoc. rewrite length_app in *. cbn [length] in *. replace (length pl + 1 - 1)%nat with (length pl) by lia.
  rewrite take_app_length. destruct (grant _ _ _ _ _ _ pl h H1 Ep) as (b & Hb & Hnx & HhF & _ & H2). unfold store, load. rewrite Hb. cbn [must mbind res_bind].
  set (m2 := <[h := _]> (mem s1)) in *. rewrite wrap_small by lia. set (k := Z.to_nat (n - 1)).
  destruct (link_ok k c lost F [] [] _ h H2) as (G & m & E & HG & Hc & HGF & Hsame & H3); [done|simpl; lia|exists (set_pbuf (pbuf_flags b) 1 b); split; [apply lookup_insert_eq|done]|].
  change (m_tx_pool (set_pool pl (set_mem m2 s1))) with pl in *. change (mem (set_pool pl (set_mem m2 s1))) with m2 in *. rewrite E. cbn [mbind res_bind].
  rewrite set_pool_mem_twice in H3. eexists (Some h), _. split; [done|]. split; [|split; [|done]].
  - exists (h :: G). split; [simpl; lia|]. split; [done|]. split; [|done]. intros q [->|?]%elem_of_cons; [done|by apply HGF].
  - destruct E1. split; simpl; try done. intros q Hq. simpl. rewrite Hsame by done. unfold m2. rewrite lookup_insert_ne by (intros ->; done). by apply ss_mem0.
Qed.

Lemma granted_inv c lost F n r s : granted c lost F n r s -> exists G, tx_inv c lost (list_to_set G ∪ F) [] [] s /\
  (forall lost' s', tx_inv c lost' (list_to_set G ∪ F) [] [] s' -> untouched (list_to_set G ∪ F) s s' -> granted c lost' F n r s').
Proof.
  destruct r as [h|]; simpl.
  - intros (G & Hl & Hc & HF & H). exists G. split; [done|]. intros lost' s' H' Hu. exists G. split_and!; try done.
    eapply chain_ext; [|done]. intros q Hq. rewrite Hu; [done|]. set_solver.
  - intros H. exists []. replace (list_to_set [] ∪ F) with F by set_solver. done.
Qed.

(** ** Waiting: other threads keep the invariant *)

Section Waiting.
Context {Other : Type} (others : Other -> tx_ring -> res tx_ring) (env : nat -> @wait Other).
Context (Hothers : forall o lost F s, tx_inv 0 lost F [] [] s ->
  returns (fun s' => exists lost', lost <= lost' /\ tx_inv 0 lost' F [] [] s' /\ untouched F s s') (others o s)).

(** What [mem_buf_tx_get] leaves. *)
Definition got (lost : Z) (F : gset ptr) (n : Z) (s : tx_ring) (x : option ptr * tx_ring) : Prop :=
  exists lost', lost <= lost' /\ granted 0 lost' F n (fst x) (snd x) /\ untouched F s (snd x).

Lemma got_mono lost lost1 F n s s1 x : lost <= lost1 -> untouched F s s1 -> got lost1 F n s1 x -> got lost F n s x.
Proof. intros Hl Hu (lost2 & ? & ? & Hu2). exists lost2. split; [lia|]. split; [done|]. intros q Hq. by rewrite (Hu2 q Hq), (Hu q Hq). Qed.

(** The thread has [r], other threads run, and [k] goes on. *)
Lemma tx_unlock_safe lost F n r s o (k : tx_ring -> res (option ptr * tx_ring)) : granted 0 lost F n r s ->
  (forall lost1 s1, granted 0 lost1 F n r s1 -> safe (got lost1 F n s1) (k s1)) -> safe (got lost F n s) (s1 ← others o s; k s1).
Proof.
  intros Hr Hk. destruct (granted_inv _ _ _ _ _ _ Hr) as (G & H & Hback). destruct (Hothers o _ _ _ H) as (s1 & -> & lost1 & Hl & H1 & U1). cbn [mbind res_bind].
  eapply safe_mono; [|apply (Hk lost1 s1); by apply Hback]. intros x. apply got_mono; [done|]. intros q Hq. apply U1. set_solver.
Qed.

Lemma get_safe lost F n s (k : option ptr * tx_ring -> res (option ptr * tx_ring)) : 1 <= n < 2 ^ 32 -> tx_inv 0 lost F [] [] s ->
  (forall r s1, granted 0 lost F n r s1 -> safe (got lost F n s1) (k (r, s1))) -> safe (got lost F n s) (x ← get_tx_buffers cfg n s; k x).
Proof.
  intros Hn H Hk. destruct (get_tx_buffers_ok 0 lost F s n Hn H) as (r & s1 & -> & Hr & E & _). cbn [mbind res_bind fst snd].
  eapply safe_mono; [|by apply Hk]. intros x. apply got_mono; [lia|]. apply (ss_mem _ _ _ E).
Qed.

Lemma others_safe lost F n s o (k : tx_ring -> res (option ptr * tx_ring)) : tx_inv 0 lost F [] [] s ->
  (forall lost1 s1, tx_inv 0 lost1 F [] [] s1 -> safe (got lost1 F n s1) (k s1)) -> safe (got lost F n s) (s1 ← others o s; k s1).
Proof. intros H Hk. apply (tx_unlock_safe lost F n None); [done|]. intros lost1 s1 H1. by apply Hk. Qed.

Lemma poll_safe lost F n s evs (k : Z * tx_ring -> res (option ptr * tx_ring)) : tx_inv 0 lost F [] [] s ->
  (forall ret s1, tx_inv 0 lost F [] [] s1 -> safe (got lost F n s1) (k (ret, s1))) -> safe (got lost F n s) (x ← poll_and_process_element_tx cfg evs s; k x).
Proof.
  intros H Hk. destruct (tx_poll_ok 0 lost F evs s H) as (ret & s1 & -> & H1 & M1 & _). cbn [mbind res_bind].
  eapply safe_mono; [|by apply Hk]. intros x. apply got_mono; [lia|]. apply (cl_mem _ _ _ M1).
Qed.

Lemma tx_get_loop_safe fuel : forall i block n lost F r s, 1 <= n < 2 ^ 32 -> granted 0 lost F n r s ->
  safe (got lost F n s) (tx_get_loop cfg others env fuel i block n r s).
Proof.
  assert (Hdone : forall lost F n h s, granted 0 lost F n (Some h) s -> got lost F n s (Some h, set_missing (m_missing_buf_ref_count s + n) s)).
  { intros lost F n h s (G & ? & ? & ? & ?). exists lost. split; [lia|]. split; [|done]. exists G. split_and!; try done. by apply tx_inv_missing. }
  assert (Hnone : forall lost F n s, tx_inv 0 lost F [] [] s -> got lost F n s (None, s)) by (intros lost F n s H; exists lost; split; [lia|done]).
  induction fuel as [|fuel IH]; intros i block n lost F r s Hn Hr; (destruct r as [h|]; [by apply Hdone|]); [done|].
  cbn [tx_get_loop]. apply poll_safe; [done|]. clear dependent s. intros ret s H.
  destruct (0 <? ret); [apply get_safe; [done..|]; intros; by apply IH|]. destruct block; [|by apply Hnone].
  apply others_safe; [done|]. clear dependent lost s. intros lost s H.
  apply get_safe; [done..|]. clear dependent s. intros r s H. destruct r as [h|].
  { apply (tx_unlock_safe lost F n (Some h)); [done|]. intros. by apply IH. }
  destruct (_ =? 0).
  - apply others_safe; [done|]. clear dependent lost s. intros lost s H.
    destruct (_ =? 0); [apply get_safe; [done..|]; intros; by apply IH|]. destruct (_ <? 0); [by apply Hnone|].
    assert (forall s, tx_inv 0 lost F [] [] s -> safe (got lost F n s) (x ← get_tx_buffers cfg n s; s ← others (w_unlock (env i)) (snd x); tx_get_loop cfg others env fuel (S i) true n (fst x) s)) as Hgo.
    { clear dependent s. intros s H. apply get_safe; [done..|].
      intros r s1 Hr. apply (tx_unlock_safe lost F n r); [done|]. intros. by apply IH. }
    destruct (w_event (env i)); [|by apply Hgo]. destruct (tx_poll_ok 0 lost F (w_hw2 (env i)) s H) as (ret5 & s5 & -> & H5 & M5 & _). cbn [mbind res_bind snd].
    eapply safe_mono; [|by apply Hgo]. intros x. apply got_mono; [lia|]. apply (cl_mem _ _ _ M5).
  - apply get_safe; [done..|].
    intros r s1 Hr. apply (tx_unlock_safe lost F n r); [done|]. intros. by apply IH.
Qed.

(** Without blocking, other threads do not run, and every round takes a completion. *)
Lemma tx_get_loop_returns fuel : forall i n lost F r s, 1 <= n < 2 ^ 32 -> granted 0 lost F n r s -> (pending s < fuel)%nat ->
  exists r' s', tx_get_loop cfg others env fuel i false n r s = Ok (r', s') /\ granted 0 lost F n r' s' /\ calm F s s'.
Proof.
  induction fuel as [|fuel IH]; intros i n lost F r s Hn Hr Hf; [lia|]. destruct r as [h|].
  { destruct Hr as (G & ? & ? & ? & ?). eexists _, _. split; [done|]. split; [|by split]. exists G. split_and!; try done. by apply tx_inv_missing. }
  cbn [tx_get_loop]. destruct (tx_poll_ok 0 lost F (w_hw (env i)) s Hr) as (ret & s1 & -> & H1 & M1 & Hge & Hlt & _). cbn [mbind res_bind].
  destruct (Z.ltb_spec 0 ret) as [Hp|Hp]; [|by exists None, s1].
  destruct (get_tx_buffers_ok 0 lost F s1 n Hn H1) as (r2 & s2 & -> & H2 & E2 & _). cbn [mbind res_bind fst snd]. apply same_calm in E2.
  destruct (IH (S i) n lost F r2 s2 Hn H2) as (r3 & s3 & -> & H3 & M3); [pose proof (cl_work _ _ _ E2); specialize (Hlt Hp); lia|].
  exists r3, s3. split_and!; [done..|]. eapply calm_trans; [done|]. by eapply calm_trans.
Qed.

Definition avail (lost : Z) (F : gset ptr) (s : tx_ring) (x : bool * tx_ring) : Prop :=
  exists lost', lost <= lost' /\ tx_inv (if fst x then -1 else 0) lost' F [] [] (snd x) /\ untouched F s (snd x) /\ (fst x = true -> 0 <= m_tx_num_wr_free (snd x)).

Lemma avail_mono lost lost1 F s s1 x : lost <= lost1 -> untouched F s s1 -> avail lost1 F s1 x -> avail lost F s x.
Proof. intros Hl Hu (lost2 & ? & ? & Hu2 & ?). exists lost2. split; [lia|]. split_and!; try done. intros q Hq. by rewrite (Hu2 q Hq), (Hu q Hq). Qed.

Lemma avail_others lost F s o (k : tx_ring -> res (bool * tx_ring)) : tx_inv 0 lost F [] [] s ->
  (forall lost1 s1, tx_inv 0 lost1 F [] [] s1 -> safe (avail lost1 F s1) (k s1)) -> safe (avail lost F s) (s1 ← others o s; k s1).
Proof.
  intros H Hk. destruct (Hothers o _ _ _ H) as (s1 & -> & lost1 & Hl & H1 & U1). cbn [mbind res_bind]. eapply safe_mono; [|by apply Hk]. intros x. by apply avail_mono.
Qed.

Lemma avail_poll lost F s evs (k : Z * tx_ring -> res (bool * tx_ring)) : tx_inv 0 lost F [] [] s ->
  (forall ret s1, tx_inv 0 lost F [] [] s1 -> safe (avail lost F s1) (k (ret, s1))) -> safe (avail lost F s) (x ← poll_and_process_element_tx cfg evs s; k x).
Proof.
  intros H Hk. destruct (tx_poll_ok 0 lost F evs s H) as (ret & s1 & -> & H1 & M1 & _). cbn [mbind res_bind].
  eapply safe_mono; [|by apply Hk]. intros x. apply avail_mono; [lia|]. apply (cl_mem _ _ _ M1).
Qed.

Lemma take_credit lost F s : tx_inv 0 lost F [] [] s -> 0 < m_tx_num_wr_free s -> avail lost F s (true, set_free (m_tx_num_wr_free s - 1) s).
Proof. intros H Hf. exists lost. split; [lia|]. split; [apply (tx_inv_free 0 lost F [] [] s (-1)); [done|lia]|]. split; [done|]. simpl. lia. Qed.

Lemma is_available_safe fuel : forall i block lost F s, tx_inv 0 lost F [] [] s -> safe (avail lost F s) (is_available_loop cfg others env fuel i block s).
Proof.
  assert (Hnone : forall lost F s, tx_inv 0 lost F [] [] s -> avail lost F s (false, s)) by (intros lost F s H; exists lost; split; [lia|done]).
  induction fuel as [|fuel IH]; intros i block lost F s H; cbn [is_available_loop]; (destruct (Z.ltb_spec 0 (m_tx_num_wr_free s)); [by apply take_credit|]); [done|].
  apply avail_poll; [done|]. clear dependent s. intros ret s H. destruct (0 <? ret); [by apply IH|]. destruct block; [|by apply Hnone].
  assert (Hgo : forall lost s, tx_inv 0 lost F [] [] s -> safe (avail lost F s) (s ← others (w_unlock (env i)) s; is_available_loop cfg others env fuel (S i) true s)).
  { clear dependent s lost. intros lost s H. apply avail_others; [done|]. intros. by apply IH. }
  apply avail_others; [done|]. clear dependent s lost. intros lost s H. destruct (_ && _); [|by apply Hgo].
  apply avail_others; [done|]. clear dependent s lost. intros lost s H. destruct (_ <=? 0); [by apply Hnone|]. destruct (w_event (env i)); [|by apply Hgo].
  destruct (tx_poll_ok 0 lost F (w_hw2 (env i)) s H) as (ret5 & s5 & -> & H5 & M5 & _). cbn [mbind res_bind snd].
  eapply safe_mono; [|by apply Hgo]. intros x. apply avail_mono; [lia|]. apply (cl_mem _ _ _ M5).
Qed.

Lemma is_available_returns fuel : forall i lost F s, tx_inv 0 lost F [] [] s -> (pending s < fuel)%nat ->
  exists ok s', is_available_loop cfg others env fuel i false s = Ok (ok, s') /\ tx_inv (if ok then -1 else 0) lost F [] [] s' /\
    untouched F s s' /\ (ok = true -> 0 <= m_tx_num_wr_free s') /\ users s' = users s.
Proof.
  induction fuel as [|fuel IH]; intros i lost F s H Hf; [lia|]. cbn [is_available_loop]. destruct (Z.ltb_spec 0 (m_tx_num_wr_free s)).
  { exists true. eexists. split; [done|]. split_and!; try done; [apply (tx_inv_free 0 lost F [] [] s (-1)); [done|lia]|simpl; lia]. }
  destruct (tx_poll_ok 0 lost F (w_hw (env i)) s H) as (ret & s1 & -> & H1 & M1 & Hge & Hlt & _). cbn [mbind res_bind].
  destruct (Z.ltb_spec 0 ret) as [Hp|Hp]; [|exists false, s1; destruct M1; by split_and!].
  destruct (IH (S i) lost F s1 H1) as (ok & s2 & -> & H2 & U2 & Hok & Hu); [specialize (Hlt Hp); lia|]. destruct M1.
  exists ok, s2. split_and!; try done; [intros q Hq; rewrite (U2 q Hq); by apply cl_mem0|congruence].
Qed.

End Waiting.

End Hand.


(** ** Posting *)

Lemma occupied_outs X c lost F V s L Bs : tx_parts X c lost F V [] s L Bs -> Z.of_nat (occupied s) = Z.of_nat (length (outs X Bs s)) - Z.of_nat (length X).
Proof.
  intros H. pose proof (batches_length _ _ _ _ (p_batches _ _ _ _ _ _ _ _ _ H)) as E. simpl in E. unfold occupied, outs. rewrite <- E, !length_app, length_fmap. lia.
Qed.

Section Post.
Context (X : list ptr).

(** The buffer in hand goes to the adapter. *)
Lemma post_parts p sig n c lost F V W s b : tx_inv (p :: X) c lost F V W s -> mem s !! p = Some b -> 0 <= n ->
  tx_inv X (c + 1) lost F V W (set_last n (if sig : bool then None else Some p)
    (set_mem (<[p := set_next_desc (m_p_last_tx_mem_buf_desc s) b]> (mem s)) (set_hw (sent s) (sq s ++ [(p, sig)]) (qp_error s) (cqes s) s))).
Proof.
  intros (L & Bs & H) Hb Hn. set (s' := set_last _ _ _).
  assert (outs X Bs s' ≡ₚ outs (p :: X) Bs s) as HP by (unfold outs; simpl; rewrite fmap_app; simpl; solve_Permutation).
  assert (forall q, q ∈ outs X Bs s' <-> q ∈ outs (p :: X) Bs s) as Hin by (intros; by rewrite HP).
  pose proof (p_nodup _ _ _ _ _ _ _ _ _ H) as Hnd. rewrite !app_assoc in Hnd. apply NoDup_app in Hnd as (_ & Hd & Hnd).
  assert (p ∉ X ++ concat Bs ++ sent s ++ (sq s).*1) as Hp by (by apply NoDup_cons in Hnd as [? _]).
  assert (p ∉ (L ++ m_tx_pool s) ++ V) as HpL by (intros Hx; apply (Hd p Hx); left).
  assert (forall q, q <> p -> mem s' !! q = mem s !! q) as Hs by (intros; by apply lookup_insert_ne).
  assert (forall l, p ∉ l -> same_links (mem s) (mem s') l) as Hsl by (intros l Hl q Hq; rewrite Hs; [done|]; by intros ->).
  exists L, Bs. destruct H. split; try done.
  - eapply pool_ok_same; [| |done]; [done|]. intros q Hq. apply Hs. intros ->. in_app.
  - change (m_tx_pool s') with (m_tx_pool s). by rewrite HP.
  - intros q. change (m_tx_pool s') with (m_tx_pool s). change (users s') with (users s). specialize (p_all0 q). rewrite !elem_of_app in *. rewrite Hin. done.
  - intros q Hq. change (users s') with (users s). rewrite elem_of_app, Hin, <- elem_of_app. auto.
  - eapply idle_same; [|done]. intros q Hq. apply Hs. intros ->. in_app.
  - intros q Hq. change (users s') with (users s) in *. rewrite elem_of_app, Hin, <- elem_of_app in Hq. destruct (p_refs0 q Hq) as (bq & Hbq & Ho & Hr).
    rewrite (refs_ext (V ++ outs (p :: X) Bs s) _ (F ∪ users s)); [|rewrite !elem_of_app, Hin; done|done]. destruct (decide (q = p)) as [->|]; [|exists bq; by rewrite Hs].
    exists (set_next_desc (m_p_last_tx_mem_buf_desc s) b). split; [apply lookup_insert_eq|]. assert (bq = b) as -> by congruence. done.
  - apply Forall_cons in p_hand0 as [_ ?]. eapply single_links; [apply Hsl|done]. in_app.
  - eapply batches_ext; [apply Hsl|done]. in_app.
  - change (if flushed (m_b_qp_tx_first_flushed_completion_handled s) (W ++ cqes s) then sent s = []
      else linked (mem s') None (unsignaled (sent s) ++ sq s ++ [(p, sig)]) (if sig then None else Some p)).
    destruct (flushed _ _); [done|]. rewrite app_assoc. apply linked_app. exists (m_p_last_tx_mem_buf_desc s). split.
    + eapply linked_ext; [apply Hsl|done]. rewrite fmap_app. unfold unsignaled. rewrite <- list_fmap_compose, list_fmap_id. in_app.
    + split; [|done]. exists (set_next_desc (m_p_last_tx_mem_buf_desc s) b). split; [apply lookup_insert_eq|done].
  - apply Permutation_length in HP. rewrite HP. change (m_tx_num_wr_free s') with (m_tx_num_wr_free s). cbn [length] in *. lia.
Qed.

(** The buffer in hand is not posted. *)
Lemma unhand p c lost F W s : tx_inv (p :: X) c lost F [] W s -> tx_inv X c lost F [p] W s /\ chain (mem s) (Some p) [p].
Proof.
  intros (L & Bs & H). split.
  - exists L, Bs. destruct H. change (outs (p :: X) Bs s) with (p :: outs X Bs s) in *. cbn [length app] in *. split; cbn [app]; try done; [|lia].
    by apply Forall_cons in p_hand0 as [_ ?].
  - pose proof (p_hand _ _ _ _ _ _ _ _ _ H) as [Hp _]%Forall_cons. by apply single_chain.
Qed.

Lemma tx_inv_lost Y c lost F V W s : tx_inv Y (c - 1) lost F V W s -> tx_inv Y c (lost + 1) F V W s.
Proof. intros (L & Bs & []). exists L, Bs. split; try done; lia. Qed.

(** [send] posts if the adapter agrees. *)
Lemma send_ok answer evs p c lost F s : tx_inv (p :: X) c lost F [] [] s -> c < m_tx_num_wr_free s ->
  exists s', send cfg answer evs p s = Ok (answer, s') /\ (if answer then tx_inv X (c + 1) lost F [] [] s' else s' = s) /\ untouched F s s' /\ users s' = users s /\
    m_tx_num_wr_free s <= m_tx_num_wr_free s'.
Proof.
  intros H Hc. unfold send, post_send. destruct answer; [|by exists s].
  assert (Z.of_nat (occupied s) < m_tx_num_wr cfg) as Ho.
  { destruct H as (L & Bs & H). pose proof (p_credit _ _ _ _ _ _ _ _ _ H). pose proof (p_lost _ _ _ _ _ _ _ _ _ H). rewrite (occupied_outs _ _ _ _ _ _ _ _ H). lia. }
  rewrite (proj2 (Z.leb_gt _ _)) by done. cbn [mbind res_bind]. unfold store, load.
  assert (exists b, mem s !! p = Some b) as (b & Hb).
  { destruct H as (L & Bs & H). pose proof (p_hand _ _ _ _ _ _ _ _ _ H) as [(b & Hb & _) _]%Forall_cons. by exists b. }
  change (mem (set_hw _ _ _ _ s)) with (mem s). change (m_p_last_tx_mem_buf_desc (set_hw _ _ _ _ s)) with (m_p_last_tx_mem_buf_desc s). rewrite Hb. cbn [must mbind res_bind].
  assert (p ∉ F) as HpF.
  { destruct H as (L & Bs & H). intros HF. destruct (p_frame _ _ _ _ _ _ _ _ _ H p HF) as [_ []]. left. }
  assert (forall n q, untouched F s (set_last n q (set_mem (<[p := set_next_desc (m_p_last_tx_mem_buf_desc s) b]> (mem s)) (set_hw (sent s) (sq s ++ [(p, is_completion_need s)]) (qp_error s) (cqes s) s)))) as HU.
  { intros n q r Hr. simpl. apply lookup_insert_ne. by intros ->. }
  assert (0 <= m_n_unsignaled_count s) as Hcnt by (destruct H as (L & Bs & H); apply (p_count _ _ _ _ _ _ _ _ _ H)).
  destruct (is_completion_need s) eqn:En.
  - pose proof (post_parts p true (m_n_sysvar_tx_num_wr_to_signal cfg - 1) _ _ _ _ _ _ _ H Hb ltac:(pose proof (co_signal Hcfg); lia)) as H1.
    unfold set_unsignaled_count. destruct (tx_poll_ok _ _ _ _ evs _ H1) as (ret & s2 & -> & H2 & [] & _). cbn [mbind res_bind snd]. exists s2. split_and!; try done.
    intros q Hq. rewrite (cl_mem0 q Hq). by apply HU.
  - unfold is_completion_need in En. apply Z.eqb_neq in En.
    pose proof (post_parts p false (m_n_unsignaled_count s - 1) _ _ _ _ _ _ _ H Hb ltac:(lia)) as H1. eexists. split; [done|]. split_and!; try done.
Qed.

(** ** The calls of sockets *)

(** A socket gives its reference to the ring. *)
Lemma take_user p c lost F V W s b : tx_inv X c lost F V W s -> p ∈ users s -> mem s !! p = Some b -> pbuf_ref b = 1 ->
  tx_inv X c lost F (p :: V) W (set_users (users s ∖ {[p]}) s).
Proof.
  intros (L & Bs & H) Hu Hb Hr. exists L, Bs. assert (p ∈ F ∪ users s) as Hpu by set_solver. destruct (sole_user _ _ _ _ _ _ _ _ _ _ _ H Hpu Hb Hr) as [HD HL].
  destruct H. split; try done; simpl; change (outs X Bs (set_users _ s)) with (outs X Bs s).
  - assert (L ++ m_tx_pool s ++ p :: V ++ outs X Bs s ≡ₚ p :: L ++ m_tx_pool s ++ V ++ outs X Bs s) as -> by solve_Permutation. constructor; [in_app|done].
  - intros q. rewrite p_all0. rewrite !(elem_of_app L), !(elem_of_app (m_tx_pool s)), elem_of_cons. destruct (decide (q = p)) as [->|]; in_sets.
  - intros q Hq. apply p_apart0. set_solver.
  - intros q Hq. destruct (p_frame0 q Hq) as [Hf1 Hf2]. split; set_solver.
  - intros q Hq. destruct (decide (q = p)) as [->|Hqp].
    + destruct (p_refs0 p ltac:(set_solver)) as (b' & Hb' & Ho & _). assert (b' = b) as -> by congruence. exists b. split_and!; [done..|]. rewrite Hr. unfold refs.
      assert (p ∉ F) by (intros HF; by destruct (p_frame0 p HF)). rewrite decide_True, decide_False by set_solver. done.
    + rewrite (refs_ext (V ++ outs X Bs s) _ (F ∪ users s)); [apply p_refs0|..]; in_sets.
Qed.

(** A buffer that is not linked can be posted. *)
Lemma hand p c lost F W s : tx_inv X c lost F [p] W s -> single (mem s) p -> tx_inv (p :: X) c lost F [] W s.
Proof.
  intros (L & Bs & H) Hp. exists L, Bs. destruct H. assert (outs (p :: X) Bs s = p :: outs X Bs s) as E by done. cbn [app] in *.
  split; rewrite ?E; cbn [app length]; try done; [by constructor|lia].
Qed.

(** A socket keeps its reference, and the ring gets another one. *)
Lemma share_user p c lost F W s b : tx_inv X c lost F [] W s -> p ∈ users s -> mem s !! p = Some b -> pbuf_ref b = 1 -> p_next_desc b = None ->
  tx_inv (p :: X) c lost F [] W (set_mem (<[p := set_pbuf (pbuf_flags b) 2 b]> (mem s)) s).
Proof.
  intros (L & Bs & H) Hu Hb Hr Hn. assert (p ∈ F ∪ users s) as Hpu by set_solver. destruct (sole_user _ _ _ _ _ _ _ _ _ _ _ H Hpu Hb Hr) as [HD HL]. set (b' := set_pbuf (pbuf_flags b) 2 b).
  assert (forall q, q <> p -> <[p := b']> (mem s) !! q = mem s !! q) as Hs by (intros; by apply lookup_insert_ne).
  destruct (parts_links X p (<[p := b']> (mem s)) _ _ _ _ _ _ _ _ H HD Hs) as (Hha & Hba & Hli).
  exists L, Bs. destruct H. set (s' := set_mem _ _). assert (outs (p :: X) Bs s' = p :: outs X Bs s) as E by done. cbn [app] in *.
  split; rewrite ?E; cbn [app length]; try done.
  - eapply pool_ok_same; [| |done]; [done|]. intros q Hq. apply Hs. intros ->. in_app.
  - change (m_tx_pool s') with (m_tx_pool s). assert (L ++ m_tx_pool s ++ p :: outs X Bs s ≡ₚ p :: L ++ m_tx_pool s ++ outs X Bs s) as -> by solve_Permutation. constructor; [in_app|done].
  - intros q. change (m_tx_pool s') with (m_tx_pool s). change (users s') with (users s). rewrite p_all0. rewrite !(elem_of_app L), !(elem_of_app (m_tx_pool s)), elem_of_cons. destruct (decide (q = p)) as [->|]; in_sets.
  - intros q Hq. change (users s') with (users s). destruct (p_frame0 q Hq) as [Hf1 Hf2]. split; set_solver.
  - eapply idle_same; [|done]. intros q Hq. apply Hs. intros ->. in_app.
  - change (users s') with (users s). intros q Hq. destruct (decide (q = p)) as [->|Hqp].
    + destruct (p_refs0 p ltac:(set_solver)) as (b0 & Hb0 & Ho & _). assert (b0 = b) as -> by congruence. exists b'. split; [apply lookup_insert_eq|]. split; [done|].
      unfold refs. rewrite !decide_True by set_solver. done.
    + eapply cell_same; [by apply Hs|]. rewrite (refs_ext (outs X Bs s) _ (F ∪ users s)); [apply p_refs0|..]; in_sets.
  - constructor; [|done]. exists b'. split; [apply lookup_insert_eq|done].
  - change (m_tx_num_wr_free s') with (m_tx_num_wr_free s). lia.
Qed.

(** Buffers that were handed out are with the sockets. *)
Lemma adopt G c lost F V W s : tx_inv X c lost (list_to_set G ∪ F) V W s -> (forall q, q ∈ G -> q ∉ F) ->
  tx_inv X c lost F V W (set_users (list_to_set G ∪ users s) s).
Proof.
  intros (L & Bs & H) HG. exists L, Bs. destruct H. assert (F ∪ (list_to_set G ∪ users s) = list_to_set G ∪ F ∪ users s) as E by set_solver.
  split; try done; change (outs X Bs (set_users _ s)) with (outs X Bs s); cbn [users set_users]; rewrite ?E; try done.
  intros q Hq. destruct (p_frame0 q ltac:(set_solver)). split; [set_solver|done].
Qed.

(** A socket drops its reference to a buffer that is with the adapter. *)
Lemma unshare p c lost F W s b : tx_inv X c lost F [] W s -> p ∈ users s -> mem s !! p = Some b -> pbuf_ref b <> 1 ->
  pbuf_ref b = 2 /\ tx_inv X c lost F [] W (set_users (users s ∖ {[p]}) (set_mem (<[p := set_pbuf (pbuf_flags b) 1 b]> (mem s)) s)).
Proof.
  intros (L & Bs & H) Hu Hb Hr. destruct (p_refs _ _ _ _ _ _ _ _ _ H p ltac:(set_solver)) as (b0 & Hb0 & Ho & Hr0). assert (b0 = b) as -> by congruence.
  assert (p ∈ outs X Bs s /\ pbuf_ref b = 2) as [HO Hr2] by (revert Hr0; unfold refs; simpl; repeat case_decide; set_solver by lia). split; [done|].
  assert (p ∉ L ++ m_tx_pool s) as HL by (apply (p_apart _ _ _ _ _ _ _ _ _ H); set_solver). set (b' := set_pbuf (pbuf_flags b) 1 b).
  assert (forall q, q <> p -> <[p := b']> (mem s) !! q = mem s !! q) as Hs by (intros; by apply lookup_insert_ne).
  assert (forall l, same_links (mem s) (<[p := b']> (mem s)) l) as Hl.
  { intros l q _. destruct (decide (q = p)) as [->|]; [by rewrite lookup_insert_eq, Hb|by rewrite Hs]. }
  exists L, Bs. destruct H. set (s' := set_users _ _). change (outs X Bs s) with (outs X Bs s') in *. split; try done.
  - eapply pool_ok_same; [| |done]; [done|]. intros q Hq. apply Hs. intros ->. in_app.
  - intros q. rewrite p_all0. change (users s') with (users s ∖ {[p]}). change (m_tx_pool s') with (m_tx_pool s).
    rewrite !elem_of_union, elem_of_difference, elem_of_singleton, !elem_of_app. destruct (decide (q = p)) as [->|]; tauto.
  - intros q Hq. apply p_apart0. set_solver.
  - intros q Hq. destruct (p_frame0 q Hq). split; [set_solver|done].
  - eapply idle_same; [|done]. intros q Hq. apply Hs. intros ->. in_app.
  - intros q Hq. simpl in Hq. destruct (decide (q = p)) as [->|Hqp].
    + exists b'. split; [apply lookup_insert_eq|]. split; [done|]. unfold refs. simpl. assert (p ∉ F) by (intros HF; by destruct (p_frame0 p HF)). rewrite decide_True, decide_False by set_solver. done.
    + eapply cell_same; [by apply Hs|]. rewrite (refs_ext (outs X Bs s') _ (F ∪ users s)); [apply p_refs0|done|]; change (users s') with (users s ∖ {[p]}) in *; in_sets.
  - eapply single_links; [apply Hl|done].
  - eapply batches_ext; [apply Hl|done].
  - cbn [m_b_qp_tx_first_flushed_completion_handled cqes] in *. destruct (flushed _ _); [done|]. eapply linked_ext; [apply Hl|done].
Qed.

Lemma return_single_ok p c lost F s : tx_inv X c lost F [] [] s -> p ∈ users s ->
  exists s', mem_buf_desc_return_single_to_owner_tx p (set_users (users s ∖ {[p]}) s) = Ok s' /\ tx_inv X c lost F [] [] s' /\ untouched F s s'.
Proof.
  intros H Hu. assert (exists b, mem s !! p = Some b /\ p_desc_owner b = Some (this cfg) /\ p ∉ F) as (b & Hb & Ho & HF).
  { destruct H as (L & Bs & H). destruct (p_refs _ _ _ _ _ _ _ _ _ H p ltac:(set_solver)) as (b & Hb & Ho & _). exists b. split_and!; [done..|]. intros HF. by destruct (p_frame _ _ _ _ _ _ _ _ _ H p HF). }
  unfold mem_buf_desc_return_single_to_owner_tx, put_tx_single_buffer, load. change (mem (set_users _ s)) with (mem s). rewrite Hb. cbn [must mbind res_bind].
  assert (forall b', untouched F s (set_mem (<[p := b']> (mem s)) s)) as HU by (intros b' q Hq; simpl; apply lookup_insert_ne; by intros ->).
  destruct (decide (pbuf_ref b = 1)) as [Hr|Hr].
  - pose proof (take_user p c lost F [] [] s b H Hu Hb Hr) as H1. unfold dec_pbuf_ref. rewrite Hr. cbn [Z.eqb]. change (pbuf_ref (set_pbuf (pbuf_flags b) (1 - 1) b) =? 0) with true. cbn match.
    destruct H1 as (L & Bs & H1). assert (p ∉ F ∪ users (set_users (users s ∖ {[p]}) s)) as Hn by set_solver.
    pose proof (to_pool X _ _ _ _ _ _ _ _ _ (free_lwip_pbuf (set_next_desc None (set_pbuf (pbuf_flags b) (1 - 1) b))) H1 Hn eq_refl Ho) as H2. change (mem (set_users _ s)) with (mem s) in H2.
    destruct (return_to_global_ok X c lost F [] [] _ ltac:(by exists L, Bs)) as (s2 & E & H3 & []). rewrite E. cbn [mbind res_bind snd]. exists s2. split_and!; try done.
    intros q Hq. rewrite (ss_mem0 q Hq). by apply HU.
  - destruct (unshare p c lost F [] s b H Hu Hb Hr) as [Hr2 H1]. unfold dec_pbuf_ref. rewrite Hr2. cbn [Z.eqb]. change (pbuf_ref (set_pbuf (pbuf_flags b) (2 - 1) b) =? 0) with false. cbn match.
    destruct (return_to_global_ok X c lost F [] [] _ H1) as (s2 & E & H3 & []). change (2 - 1) with 1.
    replace (set_mem (<[p:=set_pbuf (pbuf_flags b) 1 b]> (mem s)) (set_users (users s ∖ {[p]}) s)) with (set_users (users s ∖ {[p]}) (set_mem (<[p:=set_pbuf (pbuf_flags b) 1 b]> (mem s)) s)) by done.
    rewrite E. cbn [mbind res_bind snd]. exists s2. split_and!; try done. intros q Hq. rewrite (ss_mem0 q Hq). by apply HU.
Qed.

(** The buffer was posted, or is still in hand; a request that the adapter
    refused costs a credit. *)
Definition posted (p : ptr) (answer : bool) (lost : Z) (F : gset ptr) (s : tx_ring) (x : bool * tx_ring) : Prop :=
  exists lost', lost <= lost' <= lost + (if answer then 0 else 1) /\ tx_inv (if fst x then X else p :: X) 0 lost' F [] [] (snd x) /\ untouched F s (snd x) /\ users (snd x) = users s.

Lemma send_tail p answer evs lost F s ok : tx_inv (p :: X) (if ok : bool then -1 else 0) lost F [] [] s -> (ok = true -> 0 <= m_tx_num_wr_free s) ->
  returns (posted p answer lost F s) (if ok then send cfg answer evs p s else m ← store p (set_next_desc None) (mem s); Ok (false, set_mem m s)).
Proof.
  intros H Hf. destruct ok.
  - destruct (send_ok answer evs p (-1) lost F s H) as (s1 & -> & H1 & U1 & Hu & _); [specialize (Hf eq_refl); lia|]. apply returns_Ok.
    destruct answer; simpl in *; [exists lost; split; [lia|done]|]. subst s1. exists (lost + 1). split; [lia|]. split; [|done]. by apply tx_inv_lost.
  - assert (exists b, mem s !! p = Some b /\ p_next_desc b = None) as (b & Hb & Hn).
    { destruct H as (L & Bs & H). by pose proof (p_hand _ _ _ _ _ _ _ _ _ H) as [? _]%Forall_cons. }
    unfold store, load. rewrite Hb. cbn [must mbind res_bind]. apply returns_Ok. assert (<[p := set_next_desc None b]> (mem s) = mem s) as ->.
    { apply insert_id. rewrite Hb. f_equal. destruct b; simpl in *; by subst. }
    assert (set_mem (mem s) s = s) as -> by (by destruct s as [[] ]). exists lost. split; [destruct answer; lia|done].
Qed.

Lemma send_direct p answer evs lost F s : tx_inv (p :: X) 0 lost F [] [] s -> 0 < m_tx_num_wr_free s ->
  returns (posted p answer lost F s) (x ← send cfg answer evs p s; let '(ret, s) := x : bool * tx_ring in Ok (ret, set_free (m_tx_num_wr_free s - 1) s)).
Proof.
  intros H Hf. destruct (send_ok answer evs p 0 lost F s H Hf) as (s1 & -> & H1 & U1 & Hu & Hge). cbn [mbind res_bind]. apply returns_Ok. destruct answer; simpl.
  - exists lost. split; [lia|]. split; [|done]. apply (tx_inv_free X 1 lost F [] [] s1 (-1)); [done|lia].
  - subst s1. exists (lost + 1). split; [lia|]. split; [|done]. apply tx_inv_lost. apply (tx_inv_free (p :: X) 0 lost F [] [] s (-1)); [done|lia].
Qed.

(** A buffer that was not posted is released. *)
Lemma status_ok p ok lost F s : tx_inv (if ok : bool then X else p :: X) 0 lost F [] [] s ->
  exists s', send_status_handler ok p s = Ok s' /\ tx_inv X 0 lost F [] [] s' /\ untouched F s s' /\ users s' = users s.
Proof.
  intros H. unfold send_status_handler. destruct ok.
  - eexists. split; [done|]. split; [by apply tx_inv_missing|done].
  - apply unhand in H as [H Hc]. destruct (mem_buf_tx_release_ok _ _ _ _ _ _ _ _ true H Hc) as (s1 & -> & H1 & []). by exists s1.
Qed.

Section Blocking.
Context {Other : Type} (others : Other -> tx_ring -> res tx_ring) (env : nat -> @wait Other).
Context (Hothers : forall Y o lost F s, tx_inv Y 0 lost F [] [] s ->
  returns (fun s' => exists lost', lost <= lost' /\ tx_inv Y 0 lost' F [] [] s' /\ untouched F s s') (others o s)).

(** What a call that may wait leaves. *)
Definition blocked (lost : Z) (F : gset ptr) (s s' : tx_ring) : Prop := exists lost', lost <= lost' /\ tx_inv X 0 lost' F [] [] s' /\ untouched F s s'.

Lemma send_safe fuel answer evs block p lost F s : tx_inv (p :: X) 0 lost F [] [] s ->
  safe (blocked lost F s) (x ← send_buffer cfg others env fuel answer evs block p s; send_status_handler (fst x) p (snd x)).
Proof.
  intros H. assert (Hend : forall lost1 s1 x, lost <= lost1 -> untouched F s s1 -> posted p answer lost1 F s1 x -> safe (blocked lost F s) (send_status_handler (fst x) p (snd x))).
  { intros lost1 s1 [ok s2] Hl U1 (lost2 & Hl2 & H2 & U2 & _). cbn [fst snd] in *. destruct (status_ok p ok lost2 F s2 H2) as (s3 & -> & H3 & U3 & _). exists lost2. split; [destruct answer; lia|]. split; [done|].
    intros q Hq. by rewrite (U3 q Hq), (U2 q Hq), (U1 q Hq). }
  unfold send_buffer. destruct (Z.ltb_spec 0 (m_tx_num_wr_free s)).
  - destruct (send_direct p answer evs lost F s H ltac:(done)) as (x & -> & Hx). by apply (Hend lost s).
  - pose proof (is_available_safe (p :: X) others env (Hothers (p :: X)) fuel 0 block lost F s H) as Ha. unfold is_available_qp_wr. destruct (is_available_loop _ _ _ _ _ _ _) as [[ok s1]| | |]; try done.
    cbn [mbind res_bind]. destruct Ha as (lost1 & Hl1 & H1 & U1 & Hf). simpl in *. destruct (send_tail p answer evs lost1 F s1 ok H1 Hf) as (x & -> & Hx). by apply (Hend lost1 s1).
Qed.

Lemma send_returns fuel answer evs p lost F s : tx_inv (p :: X) 0 lost F [] [] s -> (pending s < fuel)%nat ->
  exists s' lost', (x ← send_buffer cfg others env fuel answer evs false p s; send_status_handler (fst x) p (snd x)) = Ok s' /\
    lost <= lost' <= lost + (if answer then 0 else 1) /\ tx_inv X 0 lost' F [] [] s' /\ untouched F s s' /\ users s' = users s.
Proof.
  intros H Hf. assert (Hend : forall s1 x, untouched F s s1 -> users s1 = users s -> posted p answer lost F s1 x -> exists s' lost', send_status_handler (fst x) p (snd x) = Ok s' /\
    lost <= lost' <= lost + (if answer then 0 else 1) /\ tx_inv X 0 lost' F [] [] s' /\ untouched F s s' /\ users s' = users s).
  { intros s1 [ok s2] U1 Hu1 (lost2 & Hl2 & H2 & U2 & Hu2). cbn [fst snd] in *. destruct (status_ok p ok lost2 F s2 H2) as (s3 & -> & H3 & U3 & Hu3). exists s3, lost2. simpl in *. split_and!; try done; try lia; [|congruence].
    intros q Hq. by rewrite (U3 q Hq), (U2 q Hq), (U1 q Hq). }
  unfold send_buffer. destruct (Z.ltb_spec 0 (m_tx_num_wr_free s)).
  - destruct (send_direct p answer evs lost F s H ltac:(done)) as (x & -> & Hx). by apply (Hend s).
  - unfold is_available_qp_wr. destruct (is_available_returns (p :: X) others env fuel 0 lost F s H Hf) as (ok & s1 & -> & H1 & U1 & Hok & Hu). cbn [mbind res_bind].
    destruct (send_tail p answer evs lost F s1 ok H1 Hok) as (x & -> & Hx). by apply (Hend s1).
Qed.

End Blocking.

End Post.


(** ** Every call keeps the invariant *)

Lemma buffers_chain G : forall m p, chain m p G -> buffers (length G) m p = G.
Proof. induction G as [|q G IH]; intros m p; simpl; [done|]. intros (-> & b & Hb & Hc). by rewrite Hb, (IH m _ Hc). Qed.

Lemma chain_buffers l : forall m p, buffers (S (length l)) m p = l -> (forall q, q ∈ l -> is_Some (m !! q)) -> chain m p l.
Proof.
  induction l as [|q l IH]; intros m p E Hs; (destruct p as [r|]; [|done]); [done|]. cbn [buffers length] in E. injection E as -> E.
  destruct (Hs q ltac:(left)) as [b Hb]. rewrite Hb in E. split; [done|]. exists b. split; [done|]. apply IH; [done|]. intros r Hr. apply Hs. by right.
Qed.

Lemma sole_spec s p : sole s p = true <-> p ∈ users s /\ exists b, mem s !! p = Some b /\ pbuf_ref b = 1.
Proof.
  unfold sole. rewrite andb_true_iff, bool_decide_eq_true. destruct (mem s !! p) as [b|]; [rewrite Z.eqb_eq|]; naive_solver.
Qed.

Lemma release_users X l c lost F V W s : tx_inv X c lost F V W s -> NoDup l -> Forall (fun p => sole s p = true) l ->
  tx_inv X c lost F (l ++ V) W (set_users (users s ∖ list_to_set l) s).
Proof.
  induction l as [|p l IH]; intros H Hn Hl.
  { simpl. replace (users s ∖ ∅) with (users s) by set_solver. by destruct s. }
  apply NoDup_cons in Hn as [Hp Hn]. apply Forall_cons in Hl as [(Hu & b & Hb & Hr)%sole_spec Hl]. specialize (IH H Hn Hl).
  pose proof (take_user X p c lost F (l ++ V) W _ b IH ltac:(simpl; set_solver) Hb Hr) as H1. simpl in *.
  replace (users s ∖ ({[p]} ∪ list_to_set l)) with (users s ∖ list_to_set l ∖ {[p]}) by set_solver. exact H1.
Qed.

Lemma perform_ok X call lost F s : tx_inv X 0 lost F [] [] s ->
  exists s' lost', perform cfg call s = Ok s' /\ lost <= lost' <= lost + refused call /\ tx_inv X 0 lost' F [] [] s' /\ untouched F s s'.
Proof.
  intros H. unfold perform. destruct (legal call s) eqn:El; [|exists s, lost; split_and!; [done|lia|destruct call as [|? []| | | | |]; simpl; lia|done|done]].
  destruct call as [evs n|lwip answer polls evs p|l acc|p|p|evs|e]; simpl in El |- *.
  - apply andb_true_iff in El as [El1 El2]. unfold mem_buf_tx_get.
    destruct (get_tx_buffers_ok X 0 lost F s n ltac:(lia) H) as (r & s1 & -> & H1 & E1 & _). cbn [mbind res_bind fst snd]. apply same_calm in E1.
    destruct (tx_get_loop_returns X alone (no_wait evs) (S (pending s)) 0 n lost F r s1 ltac:(lia) H1) as (r2 & s2 & -> & H2 & M2); [pose proof (cl_work _ _ _ E1); lia|].
    cbn [mbind res_bind]. pose proof (calm_trans _ _ _ _ E1 M2) as M. eexists _, lost. split; [done|]. split; [lia|]. split; [|apply (cl_mem _ _ _ M)]. destruct r2 as [h|].
    + destruct H2 as (G & HG & Hc & HF & H2). replace (Z.to_nat n) with (length G) by lia. rewrite (buffers_chain _ _ _ Hc). by apply adopt.
    + replace (buffers (Z.to_nat n) (mem s2) None) with (@nil ptr) by (by destruct (Z.to_nat n)). simpl. replace (∅ ∪ users s2) with (users s2) by set_solver. by destruct s2.
  - apply andb_true_iff in El as [(Hu & b & Hb & Hr)%sole_spec Hn]. unfold unlinked in Hn. rewrite Hb in Hn. apply bool_decide_eq_true in Hn.
    assert (p ∉ F) as HF by (destruct H as (L & Bs & H); intros HF; by destruct (p_frame _ _ _ _ _ _ _ _ _ H p HF)). destruct lwip.
    + unfold send_lwip_buffer, store, load. rewrite Hb. cbn [must mbind res_bind]. rewrite Hr. change (u16 (1 + 1)) with 2.
      pose proof (share_user X p 0 lost F [] s b H Hu Hb Hr Hn) as H1.
      destruct (send_returns X alone (no_wait polls) (S (pending s)) answer evs p lost F _ H1) as (s2 & lost2 & -> & Hl & H2 & U2 & _); [unfold pending; simpl; lia|].
      exists s2, lost2. split_and!; try done; [by destruct answer; lia..|]. intros q Hq. rewrite (U2 q Hq). simpl. apply lookup_insert_ne. by intros ->.
    + unfold send_ring_buffer. pose proof (take_user X p 0 lost F [] [] s b H Hu Hb Hr) as H1. apply hand in H1; [|by exists b].
      destruct (send_returns X alone (no_wait polls) (S (pending s)) answer evs p lost F _ H1) as (s2 & lost2 & -> & Hl & H2 & U2 & _); [unfold pending; simpl; lia|].
      exists s2, lost2. split_and!; try done; by destruct answer; lia.
  - apply andb_true_iff in El as [[Hn%bool_decide_eq_true Hl]%andb_true_iff Hc%bool_decide_eq_true].
    assert (Forall (fun p => sole s p = true) l) as Hs by (apply Forall_forall; intros p Hp; by apply (proj1 (forallb_forall _ _) Hl p), list_elem_of_In).
    pose proof (release_users X l 0 lost F [] [] s H Hn Hs) as H1. rewrite app_nil_r in H1. assert (chain (mem s) (head l) l) as Hch.
    { apply chain_buffers; [done|]. intros q Hq. rewrite Forall_forall in Hs. destruct (proj1 (sole_spec _ _) (Hs q Hq)) as (_ & b & Hb & _). by exists b. }
    destruct (mem_buf_tx_release_ok X 0 lost F l [] _ (head l) acc H1 Hch) as (s2 & E & H2 & []). unfold mem_buf_tx_release in *. rewrite E. cbn [mbind res_bind snd].
    exists s2, lost. split_and!; try done; lia.
  - apply bool_decide_eq_true in El. destruct (return_single_ok X p 0 lost F s H El) as (s1 & -> & H1 & U1). exists s1, lost. split_and!; try done; lia.
  - apply sole_spec in El as (Hu & b & Hb & Hr). unfold store, load. rewrite Hb. cbn [must mbind res_bind]. eexists _, lost. split; [done|]. split; [lia|].
    split; [eapply relink; [done|set_solver|done..]|]. intros q Hq. simpl. apply lookup_insert_ne. intros ->. destruct H as (L & Bs & H). by destruct (p_frame _ _ _ _ _ _ _ _ _ H q Hq).
  - destruct (tx_poll_ok X 0 lost F evs s H) as (ret & s1 & -> & H1 & M1 & _). cbn [mbind res_bind snd]. exists s1, lost. split_and!; try done; [lia..|]. apply (cl_mem _ _ _ M1).
  - exists (hw_step e s), lost. split; [done|]. split; [lia|]. split; [by apply (hw_run_inv X _ _ _ _ _ [e])|].
    destruct (hw_step_frame e s) as (a & q & e' & cs & -> & _). done.
Qed.

Lemma perform_all_ok X l : forall lost F s, tx_inv X 0 lost F [] [] s ->
  exists s' lost', perform_all cfg l s = Ok s' /\ lost <= lost' <= lost + all_refused l /\ tx_inv X 0 lost' F [] [] s' /\ untouched F s s'.
Proof.
  induction l as [|c l IH]; intros lost F s H; [exists s, lost; simpl; split_and!; try done; lia|]. cbn [perform_all].
  destruct (perform_ok X c lost F s H) as (s1 & lost1 & -> & Hl1 & H1 & U1). cbn [mbind res_bind]. destruct (IH lost1 F s1 H1) as (s2 & lost2 & -> & Hl2 & H2 & U2).
  exists s2, lost2. simpl. split_and!; try done; try lia. intros q Hq. by rewrite (U2 q Hq), (U1 q Hq).
Qed.


(** A new ring has taken its buffers from the global pool. *)
Lemma create_ok w : pool_ok (Z.of_nat (length T)) w T -> 0 <= m_tx_num_wr cfg ->
  exists s, create_resources cfg w = Ok s /\ tx_inv [] 0 0 ∅ [] [] s /\ users s = ∅ /\ sent s = [] /\ sq s = [] /\ cqes s = [].
Proof.
  intros Hw Hn. unfold create_resources, init_tx_buffers. set (s0 := TxRing _ _ _ _ _ _ _ _ _ _ _ _ _ _).
  assert (tx_inv [] 0 0 ∅ [] [] s0) as H0.
  { exists T, []. pose proof (co_signal Hcfg). split; simpl; rewrite ?app_nil_r; try done; try lia; try set_solver. apply (co_nodup Hcfg). }
  destruct (more_ok [] 0 0 ∅ [] [] s0 RING_TX_BUFS_COMPENSATE ltac:(done) H0) as (ok & s1 & -> & H1 & E1 & _). cbn [mbind res_bind snd].
  destruct E1 as [_ Ef Eu _ Ep Eh]. injection Eh as Eh1 Eh2 Eh3 Eh4. eexists. split; [done|]. split; [|done]. set (s2 := if ok then _ else _) in H1.
  destruct H1 as (L & Bs & H2). assert (m_tx_pool s2 = m_tx_pool s1 /\ users s2 = ∅ /\ m_tx_num_wr_free s2 = m_tx_num_wr cfg) as (E1 & E2 & E3) by (by destruct ok).
  assert (outs [] Bs s2 = []) as Eo by (pose proof (p_credit _ _ _ _ _ _ _ _ _ H2) as Hc; rewrite E3 in Hc; apply nil_length_inv; simpl in Hc; lia).
  assert (L ++ m_tx_pool s1 ≡ₚ T) as HP.
  { apply NoDup_Permutation; [|apply (co_nodup Hcfg)|].
    - pose proof (p_nodup _ _ _ _ _ _ _ _ _ H2) as Hnd. rewrite Eo, E1, app_nil_r in Hnd. exact Hnd.
    - intros q. pose proof (p_all _ _ _ _ _ _ _ _ _ H2 q) as Hq. rewrite E1, E2, Eo, app_nil_r in Hq. set_solver. }
  apply Permutation_length in HP. rewrite length_app in HP. pose proof (p_bufs _ _ _ _ _ _ _ _ _ H2) as Hb. exists L, Bs.
  assert (set_num_bufs (Z.of_nat (length (m_tx_pool s1))) s1 = s2) as ->; [|done].
  subst s2. destruct ok; simpl in Hb; [f_equal; lia|]. replace (Z.of_nat (length (m_tx_pool s1))) with (m_tx_num_bufs s1) by lia. by destruct s1.
Qed.


(** ** Stopping *)

(** A buffer of the thread goes into its hand. *)
Lemma frame_to_hand p c lost F W s : tx_inv [] c lost ({[p]} ∪ F) [] W s -> p ∉ F -> single (mem s) p -> tx_inv [p] c lost F [] W s.
Proof.
  intros H Hp Hs. destruct (frame_sole _ _ _ _ _ _ _ p H ltac:(set_solver)) as (b & Hb & Hr). apply hand; [|done].
  pose proof (adopt [] [p] c lost F [] W s) as Ha. replace (list_to_set [p] ∪ F) with ({[p]} ∪ F) in Ha by set_solver. specialize (Ha H ltac:(set_solver)).
  pose proof (take_user [] p c lost F [] W _ b Ha ltac:(set_solver) Hb Hr) as H1. destruct H as (L & Bs & H). destruct (p_frame _ _ _ _ _ _ _ _ _ H p ltac:(set_solver)) as [Hu _].
  assert (set_users (users (set_users (list_to_set [p] ∪ users s) s) ∖ {[p]}) (set_users (list_to_set [p] ∪ users s) s) = s) as E; [|by rewrite E in H1].
  destruct s; unfold set_users; simpl in *. f_equal. set_solver.
Qed.

(** Everything that was executed has a successor that was not. *)
Definition closed_list (s : tx_ring) : Prop := sent s = [] \/ sq s <> [].

Lemma hw_step_error e s : qp_error s = true -> closed_list s ->
  qp_error (hw_step e s) = true /\ closed_list (hw_step e s) /\ (length (sq (hw_step e s)) <= length (sq s) - (match e with HwFlush => 1 | _ => 0 end))%nat.
Proof.
  intros He Hc. unfold closed_list in *. unfold hw_step. destruct e, (sq s) as [|[p sig] q] eqn:Eq; rewrite ?He; simpl; rewrite ?Eq; split_and!; try done; simpl; try lia; tauto.
Qed.

Definition flushes (l : list hw) : nat := length (filter (fun e => e = HwFlush) l).

Lemma flush_all l : forall s, qp_error s = true -> closed_list s -> let s' := hw_run l s in
  qp_error s' = true /\ closed_list s' /\ (length (sq s') <= length (sq s) - flushes l)%nat.
Proof.
  induction l as [|e l IH]; intros s He Hc; [split_and!; try done; cbn; lia|]. destruct (hw_step_error e s He Hc) as (He1 & Hc1 & Hl1).
  destruct (IH _ He1 Hc1) as (He2 & Hc2 & Hl2). simpl in *. split_and!; try done. unfold flushes. rewrite filter_cons. unfold flushes in Hl2. destruct e; simpl in *; lia.
Qed.

(** The requests are gone: what is left is on the completion queue. *)
Definition flushed_out (s : tx_ring) : Prop := qp_error s = true /\ sent s = [] /\ sq s = [].

Lemma flushed_out_run l s : flushed_out s -> flushed_out (hw_run l s).
Proof.
  intros (He & Hs & Hq). destruct (flush_all l s He ltac:(by left)) as (He' & Hc' & Hl). rewrite Hq in Hl. simpl in Hl.
  assert (sq (hw_run l s) = []) as Eq by (apply nil_length_inv; lia). split_and!; [done| |done]. destruct Hc'; [done|congruence].
Qed.

Lemma release_ok {Other} (env : nat -> @wait Other) fuel : forall i c lost F s, tx_inv [] c lost F [] [] s -> flushed_out s -> (pending s < fuel)%nat ->
  exists s', release_tx_buffers cfg env fuel i s = Ok s' /\ tx_inv [] c lost F [] [] s' /\ flushed_out s' /\ cqes s' = [] /\ calm F s s'.
Proof.
  induction fuel as [|fuel IH]; intros i c lost F s H Hf Hp; [lia|]. cbn [release_tx_buffers].
  destruct (tx_poll_ok [] c lost F (w_hw (env i)) s H) as (ret & s1 & -> & H1 & M1 & Hge & Hlt & Hz & E1 & E2 & E3). cbn [mbind res_bind fst snd].
  assert (flushed_out s1) as Hf1 by (unfold flushed_out; rewrite E1, E2, E3; by apply flushed_out_run).
  destruct (Z.ltb_spec 0 ret) as [Hr|Hr]; [|exists s1; split_and!; try done; apply Hz; lia].
  destruct (IH (S i) c lost F s1 H1 Hf1) as (s2 & -> & H2 & Hf2 & Hc2 & M2); [specialize (Hlt Hr); lia|]. exists s2. split_and!; try done. by eapply calm_trans.
Qed.

Lemma no_last_closed X c lost F V s : tx_inv X c lost F V [] s -> m_p_last_tx_mem_buf_desc s = None -> closed_list s.
Proof.
  intros (L & Bs & H) El. pose proof (p_links _ _ _ _ _ _ _ _ _ H) as Hl. destruct (flushed _ _); [by left|]. unfold closed_list.
  destruct (sq s) as [|x q]; [|by right]. left. rewrite El, app_nil_r in Hl. destruct (sent s) as [|p l _] using rev_ind; [done|].
  unfold unsignaled in Hl. rewrite fmap_app in Hl. apply linked_app in Hl as (mid & _ & _ & [=]).
Qed.

(** The dummy request closes the list. *)
Lemma trigger_ok {Other} (others : Other -> tx_ring -> res tx_ring) (env : nat -> @wait Other) fuel lost F s : tx_inv [] 0 lost F [] [] s ->
  m_p_last_tx_mem_buf_desc s = None \/
    0 < m_tx_num_wr_free s /\ (m_tx_pool s <> [] \/ RING_TX_BUFS_COMPENSATE <= m_n_buffers (snd (world_ s))) ->
  exists s', trigger_completion_for_all_sent_packets cfg others env fuel true s = Ok s' /\ tx_inv [] 0 lost F [] [] s' /\ closed_list s' /\
    qp_error s' = qp_error s /\ (length (sq s') <= S (length (sq s)))%nat /\ cqes s' = cqes s /\ untouched F s s' /\ users s' = users s /\ m_up s' = m_up s.
Proof.
  intros H Hl. unfold trigger_completion_for_all_sent_packets. destruct (m_p_last_tx_mem_buf_desc s) as [q|] eqn:El.
  2: { exists s. split_and!; try done; [by eapply no_last_closed|lia]. }
  destruct Hl as [[=]|[Hf Hpool]]. unfold mem_buf_tx_get.
  destruct (get_tx_buffers_ok [] 0 lost F s 1 ltac:(lia) H) as (r & s1 & -> & H1 & E1 & Hr). cbn [mbind res_bind fst snd].
  destruct Hr as [p ->]. { destruct Hpool as [Hp|Hp]; [left; destruct (m_tx_pool s); [done|simpl; lia]|right; exact Hp]. }
  destruct H1 as (G & HG & Hc & HF & H1). destruct G as [|p' [|p2 G]]; simpl in HG; try lia. destruct Hc as ([= <-] & b & Hb & Hn). simpl in Hn.
  assert (tx_get_loop cfg others env fuel 0 true 1 (Some p) s1 = Ok (Some p, set_missing (m_missing_buf_ref_count s1 + 1) s1)) as -> by (by destruct fuel). cbn [mbind res_bind].
  replace (list_to_set [p] ∪ F) with ({[p]} ∪ F) in H1 by set_solver. assert (p ∉ F) as HpF by (apply HF; left).
  apply frame_to_hand in H1; [|done|by exists b]. destruct E1. injection ss_hw0 as F1 F2 F3 F4.
  set (s2 := set_missing _ (set_missing _ s1)). assert (tx_inv [p] 0 lost F [] [] s2) as H2 by (by do 2 apply tx_inv_missing).
  unfold store, load. change (mem s2) with (mem s1). rewrite Hb. cbn [must mbind res_bind]. set (m := <[p := _]> (mem s1)).
  change (m_tx_num_wr_free (set_unsignaled_count cfg None (set_mem m s2))) with (m_tx_num_wr_free s1). rewrite ss_free0. rewrite (proj2 (Z.eqb_neq _ _)) by lia.
  unfold post_send. set (s3 := set_free _ _). assert (occupied s3 = occupied s2) as Eo by done.
  assert (Z.of_nat (occupied s2) < m_tx_num_wr cfg) as Ho.
  { destruct H2 as (L & Bs & H2). pose proof (p_credit _ _ _ _ _ _ _ _ _ H2) as Hcr. pose proof (p_lost _ _ _ _ _ _ _ _ _ H2). rewrite (occupied_outs _ _ _ _ _ _ _ _ H2).
    change (m_tx_num_wr_free s2) with (m_tx_num_wr_free s1) in Hcr. lia. }
  rewrite Eo, (proj2 (Z.leb_gt _ _)) by done. cbn [mbind res_bind snd].
  pose proof (post_parts [] p true (m_n_sysvar_tx_num_wr_to_signal cfg - 1) _ _ _ _ _ _ _ H2 Hb ltac:(pose proof (co_signal Hcfg); lia)) as H3.
  eexists. split; [done|]. split; [|split_and!].
  - apply (tx_inv_free [] 1 lost F [] [] _ (-1)) in H3; [|simpl; lia]. subst s3. rewrite <- ss_free0. exact H3.
  - right. simpl. by destruct (sq s1).
  - done.
  - simpl. rewrite F2, length_app. simpl. lia.
  - done.
  - intros r Hr. simpl. unfold m. rewrite lookup_insert_ne by (by intros ->). by apply ss_mem0.
  - done.
  - done.
Qed.

Lemma down_ok {Other} (others : Other -> tx_ring -> res tx_ring) (env : nat -> @wait Other) fuel evs lost F s : tx_inv [] 0 lost F [] [] s ->
  m_p_last_tx_mem_buf_desc s = None \/
    0 < m_tx_num_wr_free s /\ (m_tx_pool s <> [] \/ RING_TX_BUFS_COMPENSATE <= m_n_buffers (snd (world_ s))) ->
  (length (sq s) < flushes evs)%nat -> (S (pending s) < fuel)%nat ->
  exists s', down cfg others env fuel true evs s = Ok s' /\ tx_inv [] 0 lost F [] [] s' /\ flushed_out s' /\ cqes s' = [] /\ users s' = users s /\ m_up s' = m_up s.
Proof.
  intros H Hl Hfl Hfuel. unfold down. set (s0 := hw_step HwError s).
  assert (s0 = set_hw (sent s) (sq s) true (cqes s) s) as E0 by (unfold s0, hw_step; by destruct (sq s)).
  assert (tx_inv [] 0 lost F [] [] s0) as H0 by (by apply (hw_run_inv [] _ _ _ _ _ [HwError])).
  destruct (trigger_ok others env fuel lost F s0 H0) as (s1 & -> & H1 & Hc1 & He1 & Hq1 & Hcq & U1 & Hu1 & Hup1); [by rewrite E0|]. cbn [mbind res_bind].
  rewrite E0 in He1, Hq1, Hcq, Hu1, Hup1. simpl in *. destruct (flush_all evs s1 He1 Hc1) as (He2 & Hc2 & Hq2).
  assert (sq (hw_run evs s1) = []) as Eq2 by (apply nil_length_inv; lia). assert (flushed_out (hw_run evs s1)) as Hf2 by (split_and!; [done|destruct Hc2; [done|congruence]|done]).
  apply (hw_run_inv [] _ _ _ _ _ evs) in H1. destruct (hw_run_frame evs s1) as (a & q & e & cs & E & Hle).
  destruct (release_ok env fuel fuel 0 lost F _ H1 Hf2) as (s3 & -> & H3 & Hf3 & Hc3 & M3).
  { rewrite E. unfold pending in *. simpl. rewrite Hcq in Hle. lia. }
  exists s3. destruct M3. split_and!; try done; rewrite ?cl_users0, ?cl_up0, E; simpl; congruence.
Qed.



(** ** Starting *)

Lemma idle_run l : forall s, sent s = [] -> sq s = [] -> sent (hw_run l s) = [] /\ sq (hw_run l s) = [].
Proof. induction l as [|e l IH]; intros s E1 E2; [done|]. simpl. apply IH; unfold hw_step; destruct e; by rewrite ?E2. Qed.

Lemma start_ok {Other} (env : nat -> @wait Other) fuel lost s : tx_inv [] 0 lost ∅ [] [] s -> sent s = [] -> sq s = [] -> cqes s = [] -> (0 < fuel)%nat ->
  exists s', start_active_qp_mgr cfg env fuel s = Ok s' /\ tx_inv [] 0 lost ∅ [] [] s' /\ users s' = users s /\ m_up s' = true /\ occupied s' = 0%nat.
Proof.
  intros H E1 E2 E3 Hf. unfold start_active_qp_mgr. destruct (m_up s) eqn:Eu; [exists s; split_and!; try done; unfold occupied; by rewrite E1, E2, E3|]. unfold up. destruct fuel as [|fuel]; [lia|]. cbn [release_tx_buffers].
  destruct (tx_poll_ok [] 0 lost ∅ (w_hw (env 0%nat)) s H) as (ret & s1 & -> & H1 & M1 & Hge & Hlt & Hz & F1 & F2 & _). cbn [mbind res_bind fst snd].
  assert (pending s = 0%nat) as Hp by (unfold pending; by rewrite E2, E3). destruct (Z.ltb_spec 0 ret) as [Hr|Hr]; [specialize (Hlt Hr); lia|].
  cbn [mbind res_bind]. eexists. split; [done|]. specialize (Hz ltac:(lia)). destruct M1. split; [|split_and!; try done; unfold occupied; simpl; by rewrite Hz].
  destruct (idle_run (w_hw (env 0%nat)) s E1 E2) as [G1 G2]. rewrite G1 in F1. rewrite G2 in F2.
  destruct H1 as (L & Bs & H1). pose proof (p_batches _ _ _ _ _ _ _ _ _ H1) as Hb. rewrite Hz in Hb. destruct Bs; [|done].
  assert (outs [] [] s1 = []) as Eo by (unfold outs; by rewrite F1, F2). exists L, []. pose proof (co_signal Hcfg). destruct H1. rewrite Eo in *. rewrite Hz in *.
  split; simpl; try done. lia.
Qed.

(** ** Where every buffer is

    [L]: in the global pool; [O]: with the adapter.  The others are in the
    ring's pool or with sockets, and a socket may share a buffer with the
    adapter.  Every entry of the send queue is free, in use, or was lost with
    a request that the adapter refused. *)

Record accounted (lost : Z) (s : tx_ring) (L O : list ptr) : Prop := Accounted {
  ac_pool : pool_ok (Z.of_nat (length T)) (world_ s) L;
  ac_apart : NoDup (L ++ m_tx_pool s ++ O);
  ac_all : forall q, q ∈ T <-> q ∈ L ++ m_tx_pool s ++ O \/ q ∈ users s;
  ac_users : forall q, q ∈ users s -> q ∉ L ++ m_tx_pool s;
  ac_refs : forall q, q ∈ O \/ q ∈ users s -> cell (mem s) (refs O (users s) q) q;
  ac_bufs : m_tx_num_bufs s = Z.of_nat (length T) - Z.of_nat (length L);
  ac_queue : length O = occupied s;
  ac_free : 0 <= m_tx_num_wr_free s;
  ac_credit : m_tx_num_wr_free s + Z.of_nat (occupied s) + lost = m_tx_num_wr cfg
}.

Lemma inv_accounted lost s : tx_inv [] 0 lost ∅ [] [] s -> exists L O, accounted lost s L O.
Proof.
  clear Hcfg. intros (L & Bs & H). pose proof (occupied_outs _ _ _ _ _ _ _ _ H) as Ho. destruct H. assert (∅ ∪ users s = users s) as E by set_solver. rewrite E in *. cbn [app length] in *.
  exists L, (outs [] Bs s). split; try done; lia.
Qed.

End Conserve.

(** ** The theorems *)

(** A ring is created on a pool and started; then threads call it, and the
    adapter works, in any order. *)
Definition run_ring (cfg : tx_cfg) (evs : nat -> list hw) (calls : list call) (w : world) : res tx_ring :=
  s ← create_resources cfg w;
  s ← start_active_qp_mgr cfg (no_wait evs) 1 s;
  perform_all cfg calls s.

Lemma run_ring_ok cfg T evs calls w : cfg_ok cfg T -> pool_ok (Z.of_nat (length T)) w T -> 0 <= m_tx_num_wr cfg ->
  exists s lost, run_ring cfg evs calls w = Ok s /\ 0 <= lost <= all_refused calls /\ tx_inv cfg T [] 0 lost ∅ [] [] s.
Proof.
  intros Hcfg Hw Hn. unfold run_ring. destruct (create_ok cfg T Hcfg w Hw Hn) as (s0 & -> & H0 & Hu0 & E1 & E2 & E3). cbn [mbind res_bind].
  destruct (start_ok cfg T Hcfg (no_wait evs) 1 0 s0 H0 E1 E2 E3 ltac:(lia)) as (s1 & -> & H1 & Hu1 & _). cbn [mbind res_bind].
  destruct (perform_all_ok cfg T Hcfg [] calls 0 ∅ s1 H1) as (s2 & lost & -> & Hl & H2 & _). exists s2, lost. split_and!; try done; lia.
Qed.

(** C2: For every sequence of calls that take, send, share, release and
    return buffers, with the adapter executing, failing and flushing requests
    and refusing posts in between: no call touches memory it does not own,
    posts more than the queue holds, or fails to return; and afterwards every
    buffer is in exactly one of the global pool, the ring's pool, the adapter
    or the hands of sockets, its reference count says who shares it, and the
    free entries and those in use make up the send queue, up to one for each
    request that the adapter refused. *)
Theorem tx_conserves cfg T evs calls w : cfg_ok cfg T -> pool_ok (Z.of_nat (length T)) w T -> 0 <= m_tx_num_wr cfg ->
  exists s lost L O, run_ring cfg evs calls w = Ok s /\ 0 <= lost <= all_refused calls /\ accounted cfg T lost s L O.
Proof.
  intros Hcfg Hw Hn. destruct (run_ring_ok cfg T evs calls w Hcfg Hw Hn) as (s & lost & E & Hl & H).
  destruct (inv_accounted _ _ _ _ H) as (L & O & Ha). by exists s, lost, L, O.
Qed.

(** C18: Whatever other threads call while a thread waits, whatever the
    system's [poll] and the arming of the queue answer, a thread that blocks
    for [n] buffers gets a list of exactly [n] buffers of its own, or none,
    and the accounts of the ring stay right; a blocking send keeps them too. *)
Theorem tx_blocking cfg T evs calls w env fuel block : cfg_ok cfg T -> pool_ok (Z.of_nat (length T)) w T -> 0 <= m_tx_num_wr cfg ->
  exists s, run_ring cfg evs calls w = Ok s /\
    (forall n, 1 <= n < 2 ^ 32 ->
      safe (fun x => let G := buffers (Z.to_nat n) (mem (snd x)) (fst x) in
        (fst x = None \/ Z.of_nat (length G) = n) /\ (forall q, q ∈ G -> q ∉ users (snd x)) /\
        exists lost L O, accounted cfg T lost (set_users (list_to_set G ∪ users (snd x)) (snd x)) L O)
      (mem_buf_tx_get cfg (perform_all cfg) env fuel block n s)) /\
    (forall p answer work, sole s p = true -> unlinked s p = true ->
      safe (fun s' => exists lost L O, accounted cfg T lost s' L O)
      (send_ring_buffer cfg (perform_all cfg) env fuel answer work block p (set_users (users s ∖ {[p]}) s))).
Proof.
  intros Hcfg Hw Hn. destruct (run_ring_ok cfg T evs calls w Hcfg Hw Hn) as (s & lost & E & Hl & H). exists s. split; [done|].
  assert (Hothers : forall X o lost F s, tx_inv cfg T X 0 lost F [] [] s ->
    returns (fun s' => exists lost', lost <= lost' /\ tx_inv cfg T X 0 lost' F [] [] s' /\ untouched F s s') (perform_all cfg o s)).
  { intros X o lost1 F s1 H1. destruct (perform_all_ok cfg T Hcfg X o lost1 F s1 H1) as (s2 & lost2 & E2 & ? & ? & ?). exists s2. split; [done|]. exists lost2. split_and!; try done; lia. }
  split.
  - intros n Hn1. unfold mem_buf_tx_get. eapply safe_mono; [|apply (get_safe cfg T Hcfg [] lost ∅ n s _ Hn1 H)].
    2: { intros r s1 Hr. apply (tx_get_loop_safe cfg T Hcfg [] (perform_all cfg) env (Hothers [])); done. }
    intros [r s1] (lost1 & _ & Hr & _). cbn [fst snd] in *. destruct r as [h|]; simpl in Hr.
    + destruct Hr as (G & HG & Hc & HF & H1). replace (Z.to_nat n) with (length G) by lia. rewrite (buffers_chain _ _ _ Hc). split; [by right|].
      split; [|eexists; apply inv_accounted; by apply adopt]. destruct H1 as (L & Bs & H1). intros q Hq. by destruct (p_frame _ _ _ _ _ _ _ _ _ _ _ H1 q ltac:(set_solver)).
    + replace (buffers (Z.to_nat n) (mem s1) None) with (@nil ptr) by (by destruct (Z.to_nat n)). split; [by left|]. split; [set_solver|]. exists lost1.
      apply inv_accounted. simpl. replace (∅ ∪ users s1) with (users s1) by set_solver. by destruct s1.
  - intros p answer work (Hu & b & Hb & Hr)%sole_spec Hun. unfold unlinked in Hun. rewrite Hb in Hun. apply bool_decide_eq_true in Hun.
    pose proof (take_user cfg T Hcfg [] p 0 lost ∅ [] [] s b H Hu Hb Hr) as H1. apply hand in H1; [|by exists b]. unfold send_ring_buffer.
    eapply safe_mono; [|by apply (send_safe cfg T Hcfg [] (perform_all cfg) env Hothers)]. intros s' (lost' & _ & H' & _). exists lost'. by apply inv_accounted.
Qed.

(** C16: Stopping a ring gives everything back: if the adapter flushes its
    requests while the thread sleeps, and a request and a buffer are left for
    the dummy packet, then after [stop_active_qp_mgr] no buffer is with the
    adapter, every entry of the send queue is free again except for refused
    requests, and the ring can be started again. *)
Theorem tx_stop_returns_all cfg T evs calls w env fuel work : cfg_ok cfg T -> pool_ok (Z.of_nat (length T)) w T -> 0 <= m_tx_num_wr cfg ->
  exists s, run_ring cfg evs calls w = Ok s /\
    (m_up s = true -> m_p_last_tx_mem_buf_desc s = None \/
      0 < m_tx_num_wr_free s /\ (m_tx_pool s <> [] \/ RING_TX_BUFS_COMPENSATE <= m_n_buffers (snd (world_ s))) ->
     (length (sq s) < flushes work)%nat -> (S (pending s) < fuel)%nat ->
     exists s1 s2 lost L, stop_active_qp_mgr cfg alone (no_wait env) fuel true work s = Ok s1 /\ start_active_qp_mgr cfg (no_wait env) fuel s1 = Ok s2 /\
       0 <= lost <= all_refused calls /\ accounted cfg T lost s1 L [] /\ m_tx_num_wr_free s1 = m_tx_num_wr cfg - lost /\ users s1 = users s /\ m_up s2 = true /\
       exists L2, accounted cfg T lost s2 L2 []).
Proof.
  intros Hcfg Hw Hn. destruct (run_ring_ok cfg T evs calls w Hcfg Hw Hn) as (s & lost & E & Hl & H). exists s. split; [done|]. intros Hup Hlast Hfl Hfuel.
  unfold stop_active_qp_mgr. rewrite Hup. set (s0 := set_flags _ false s). assert (tx_inv cfg T [] 0 lost ∅ [] [] s0) as H0 by (destruct H as (L & Bs & []); by exists L, Bs).
  destruct (down_ok cfg T Hcfg alone (no_wait env) fuel work lost ∅ s0 H0 Hlast Hfl Hfuel) as (s1 & -> & H1 & (He1 & Hs1 & Hq1) & Hc1 & Hu1 & Hup1).
  destruct (start_ok cfg T Hcfg (no_wait env) fuel lost s1 H1 Hs1 Hq1 Hc1 ltac:(lia)) as (s2 & E2 & H2 & Hu2 & Hup2 & Ho2).
  destruct (inv_accounted _ _ _ _ H1) as (L & O & Ha). assert (occupied s1 = 0%nat) as Ho by (unfold occupied; by rewrite Hs1, Hq1, Hc1).
  assert (O = []) as -> by (apply nil_length_inv; by rewrite (ac_queue _ _ _ _ _ _ Ha)). destruct (inv_accounted _ _ _ _ H2) as (L2 & O2 & Ha2).
  exists s1, s2, lost, L. split_and!; try done; try lia; [pose proof (ac_credit _ _ _ _ _ _ Ha); lia|]. exists L2.
  assert (O2 = []) as ->; [|done]. apply nil_length_inv. by rewrite (ac_queue _ _ _ _ _ _ Ha2).
Qed.

(** ** A ring of four entries *)

Module TxExample.

Definition descs : list ptr := Pos.of_nat <$> seq 1 300.
Definition all : list ptr := rev descs.
Definition big_pool : world := match new_buffer_pool descs None ∅ with Ok w => w | _ => (∅, BufferPool 0 0 None (BpoolStats false false 0 0)) end.

Lemma all_descs : NoDup descs /\ NoDup all.
Proof. split; apply (bool_decide_unpack _); vm_compute; exact I. Qed.

Lemma big_pool_ok : pool_ok (Z.of_nat (length all)) big_pool all.
Proof.
  destruct (new_pool_put_all descs None (∅, BufferPool 0 (Z.of_nat (length descs)) None (BpoolStats false false 0 0)) []) as (w & E & Hw & Hc).
  - split_and!; reflexivity.
  - apply all_descs.
  - intros q _ Hq. by apply not_elem_of_nil in Hq.
  - reflexivity.
  - assert (big_pool = w) as -> by (unfold big_pool, new_buffer_pool; by rewrite E). clear E. rewrite app_nil_r in Hw.
    split; [exact Hw|]. split; [rewrite Hc; reflexivity|]. split; [apply Z.le_refl|reflexivity].
Qed.

Definition cfg (num_wr : Z) : tx_cfg := TxCfg 1000 7 num_wr 2 16.

Lemma example_cfg n : cfg_ok (cfg n) all.
Proof. split; [done|done|apply all_descs|reflexivity]. Qed.

Definition none (i : nat) : list hw := [].

(** The pool of the ring ends with buffer 45, and hands it out first. *)
Definition demo : list call :=
  [Get none 3; Unlink 45; Unlink 46; Send false true none [] 45; Send true true none [HwExec; HwExec] 46;
   Work HwExec; Poll []; Return 46; Send false false none [] 47; Get none 2; Release [47; 46] true]%positive.

Lemma tx_conserves_witness : exists s lost L O, run_ring (cfg 4) none demo big_pool = Ok s /\ 0 <= lost <= all_refused demo /\ accounted (cfg 4) all lost s L O.
Proof. apply (tx_conserves (cfg 4) all none demo big_pool); [apply example_cfg|exact big_pool_ok|done]. Defined.

Definition busy (i : nat) : @wait (list call) := Wait [] [Get none 200] 0 [Get none 50; Work HwExec] 1 true [HwExec] [Poll []].

Lemma tx_blocking_witness : exists s, run_ring (cfg 4) none demo big_pool = Ok s /\
  (forall n, 1 <= n < 2 ^ 32 ->
    safe (fun x => let G := buffers (Z.to_nat n) (mem (snd x)) (fst x) in
      (fst x = None \/ Z.of_nat (length G) = n) /\ (forall q, q ∈ G -> q ∉ users (snd x)) /\
      exists lost L O, accounted (cfg 4) all lost (set_users (list_to_set G ∪ users (snd x)) (snd x)) L O)
    (mem_buf_tx_get (cfg 4) (perform_all (cfg 4)) busy 3 true n s)) /\
  (forall p answer work, sole s p = true -> unlinked s p = true ->
    safe (fun s' => exists lost L O, accounted (cfg 4) all lost s' L O)
    (send_ring_buffer (cfg 4) (perform_all (cfg 4)) busy 3 answer work true p (set_users (users s ∖ {[p]}) s))).
Proof. apply (tx_blocking (cfg 4) all none demo big_pool busy 3 true); [apply example_cfg|exact big_pool_ok|done]. Defined.

(** The ring is stopped with one request that did not ask for a completion. *)
Definition ready_to_stop (s : tx_ring) : bool :=
  m_up s && (0 <? m_tx_num_wr_free s) && bool_decide (m_tx_pool s <> []) && (length (sq s) <? 2)%nat && (S (pending s) <? 5)%nat.

Lemma tx_stop_returns_all_witness : exists s s1 s2 lost L, run_ring (cfg 4) none (take 4 demo) big_pool = Ok s /\
  stop_active_qp_mgr (cfg 4) alone (no_wait none) 5 true [HwFlush; HwFlush] s = Ok s1 /\ start_active_qp_mgr (cfg 4) (no_wait none) 5 s1 = Ok s2 /\
  accounted (cfg 4) all lost s1 L [].
Proof.
  destruct (tx_stop_returns_all (cfg 4) all none (take 4 demo) big_pool none 5 [HwFlush; HwFlush]) as (s & E & H); [apply example_cfg|exact big_pool_ok|done|].
  assert (match run_ring (cfg 4) none (take 4 demo) big_pool with Ok s => ready_to_stop s | _ => false end = true) as R by (vm_compute; reflexivity).
  rewrite E in R. apply andb_true_iff in R as [[[[R1 R2]%andb_true_iff R3]%andb_true_iff R4]%andb_true_iff R5].
  destruct H as (s1 & s2 & lost & L & H1 & H2 & _ & H3 & _).
  - exact R1.
  - right. split; [by apply Z.ltb_lt|]. left. by apply bool_decide_eq_true in R3.
  - by apply Nat.ltb_lt in R4.
  - by apply Nat.ltb_lt in R5.
  - exists s, s1, s2, lost, L. split_and!; assumption.
Defined.

(** An entry of the queue is lost with each request that the adapter refuses:
    nothing is in use, and only three of four entries are free. *)
Lemma refused_loses_credit : exists s, run_ring (cfg 4) none [Get none 1; Send false false none [] 45] big_pool = Ok s /\
  occupied s = 0%nat /\ m_tx_num_wr_free s = 3 /\ length (m_tx_pool s) = 256%nat.
Proof. eexists. split; [vm_compute; reflexivity|]. vm_compute. split_and!; reflexivity. Qed.

(** Stopping a ring whose last entry is taken: the buffer that was sent last
    and the buffer of the dummy packet are lost, and so is an entry. *)
Definition full_ring : list call :=
  [Get none 3; Unlink 45; Unlink 46; Send false true none [] 45; Send false true none [] 46; Send false true none [] 47; Work HwExec; Work HwExec; Work HwExec]%positive.

Lemma stop_loses_buffers : exists s, (s ← run_ring (cfg 3) none full_ring big_pool;
    s ← stop_active_qp_mgr (cfg 3) alone (no_wait none) 9 true [HwFlush; HwFlush; HwFlush; HwFlush] s; start_active_qp_mgr (cfg 3) (no_wait none) 9 s) = Ok s /\
  occupied s = 0%nat /\ users s = ∅ /\ Z.of_nat (length (m_tx_pool s)) + m_n_buffers (snd (world_ s)) = 298 /\ m_tx_num_wr_free s = 2.
Proof. eexists. split; [vm_compute; reflexivity|]. vm_compute. split_and!; reflexivity. Qed.

(** A buffer that TCP returns unsent is not subtracted from the buffers that
    are missing: all are there, and one is said to be missing. *)
Lemma return_not_accounted : exists s, run_ring (cfg 4) none [Get none 1; Return 45] big_pool = Ok s /\
  length (m_tx_pool s) = 256%nat /\ m_tx_num_bufs s = 256 /\ m_missing_buf_ref_count s = 1.
Proof. eexists. split; [vm_compute; reflexivity|]. vm_compute. split_and!; reflexivity. Qed.

End TxExample.
