(* ===== verification/UdpSocket.v ===== *)
(** * The receive side of UDP sockets (src/vma/sock/sockinfo_udp.cpp,
      sockinfo.h, sockinfo.cpp, and ring_bond.cpp for the return of buffers)

    The ring calls [rx_input_cb] of each socket of a flow; the socket
    inspects the packet, takes a reference and queues it.  A call of the
    application copies the datagram at the front to its buffers, or hands the
    buffers themselves out (zero copy); the last socket to let a buffer go
    collects it for its ring, which gets the collected buffers in batches.

    The descriptors are in the shared store of [MemBuf], what the ring wrote
    to them are the [rx_desc] of [RxPath].  A ring or the global pool that
    gets a buffer back drops one reference and, if it was the last one, takes
    the buffer, which [give_back] records; [CqMgr] and [BufferPool] say what
    happens next.  Each call holds the lock of the socket and is one step.
    This is the build without DEFINED_SOCKETXTREME; time stamps, wake-ups and
    the copies of counters for display are left out. *)

From S2P Require Import Prelude MemBuf FlowSteering RxPath.

(** ** Rings *)

(** A simple ring has a parent, which is itself or a bond; a bond has the
    simple rings of its slaves. *)
Inductive ring_kind := ring_of (m_parent : ptr) | bond_of (m_bond_rings : list ptr).

(** Where a buffer goes. *)
Inductive home := to_ring (r : ptr) | to_pool.

(** The store, and the buffers that were given back. *)
Abbreviation heap := (bufs * list (home * ptr))%type.

Definition inc_ref_count (p : ptr) (m : bufs) : res bufs := store p (fun b => set_ref_count (i32 (n_ref_count b + 1)) b) m.

(** The common part of [cq_mgr::reclaim_recv_buffer_helper] and
    [buffer_pool::put_buffers_after_deref_thread_safe]. *)
Definition give_back (h : home) (p : ptr) (x : heap) : res heap :=
  let '(m, log) := x in
  '(n, m) ← dec_ref_count p m;
  if n <=? 1 then
    b ← load m p;
    let m := <[p := set_pbuf (pbuf_flags b) (u16 (pbuf_ref b - 1)) b]> m in
    Ok (m, if pbuf_ref b <=? 1 then log ++ [(h, p)] else log)
  else Ok (m, log).

Fixpoint give_all (h : home) (l : list ptr) (x : heap) : res heap :=
  match l with [] => Ok x | p :: l => x ← give_back h p x; give_all h l x end.

Section Rings.
Context (rings : gmap ptr ring_kind).

Definition get_parent (r : ptr) : res ptr :=
  k ← must (rings !! r); Ok (match k with ring_of q => q | bond_of _ => r end).

Definition is_member (r o : ptr) : bool :=
  match rings !! r with
  | Some (ring_of _) => bool_decide (r = o)
  | Some (bond_of _) => match rings !! o with Some (ring_of q) => bool_decide (q = r) | _ => false end
  | None => false
  end.

(** [ring_bond::devide_buffers_helper]: the search for the ring of a buffer
    starts with the ring of the last one. *)
Fixpoint find_ring (unchecked index : nat) (rs : list ptr) (owner : option ptr) : option nat :=
  match unchecked with
  | O => None
  | S unchecked => if bool_decide (rs !! index = owner) then Some index else find_ring unchecked (S index mod length rs) rs owner
  end.

Fixpoint devide_buffers (rs : list ptr) (last_found_index : nat) (rx_reuse : list ptr) (m : bufs) (buffer_per_ring : list (list ptr))
    : res (list (list ptr)) :=
  match rx_reuse with
  | [] => Ok buffer_per_ring
  | p :: rx_reuse =>
    b ← load m p;
    match find_ring (length rs) last_found_index rs (p_desc_owner b) with
    | Some index => devide_buffers rs index rx_reuse m (alter (.++ [p]) index buffer_per_ring)
    | None => devide_buffers rs last_found_index rx_reuse m (alter (.++ [p]) (length rs) buffer_per_ring)
    end
  end.

(** A ring that another thread has locked refuses; a bond never does. *)
Fixpoint reclaim_slaves (busy : ptr -> bool) (rs : list ptr) (buffer_per_ring : list (list ptr)) (x : heap) : res heap :=
  match rs, buffer_per_ring with
  | r :: rs, l :: ls => x ← give_all (if busy r then to_pool else to_ring r) l x; reclaim_slaves busy rs ls x
  | _, _ => give_all to_pool (concat buffer_per_ring) x
  end.

Definition reclaim_recv_buffers (busy : ptr -> bool) (r : ptr) (rx_reuse : list ptr) (x : heap) : res (bool * heap) :=
  k ← must (rings !! r);
  match k with
  | ring_of _ => if busy r then Ok (false, x) else x ← give_all (to_ring r) rx_reuse x; Ok (true, x)
  | bond_of rs =>
    ls ← devide_buffers rs 0 rx_reuse (fst x) (replicate (S (length rs)) []);
    x ← reclaim_slaves busy rs ls x; Ok (true, x)
  end.

End Rings.

(** ** Sockets *)

Inductive vma_recv_callback_retval_t := VMA_PACKET_DROP | VMA_PACKET_RECV | VMA_PACKET_HOLD.

(** A callback of the application gets the packet and the numbers of packets
    and bytes that are waiting. *)
Abbreviation vma_recv_callback_t := (ptr -> rx_desc -> Z -> Z -> vma_recv_callback_retval_t).

(** What decides which packets the socket takes; addresses and ports are in
    network byte order.  [full] is [m_rx_packet_processor], [m_port_map] the
    ports and sockets that packets are redirected to. *)
Record udp_opts := UdpOpts {
  bound_port : Z;
  connected_addr : Z;
  connected_port : Z;
  m_is_connected : bool;
  m_multicast : bool;
  m_sockopt_mapped : bool;
  m_b_mc_tx_loop : bool;
  m_mc_num_grp_with_src_filter : Z;
  m_mc_memberships_map : gmap Z (gset Z);
  full : bool;
  m_port_map : list (Z * Z);
  m_port_map_index : Z;
  m_b_closed : bool;
  m_rx_callback : option vma_recv_callback_t
}.

(** The queue of packets that are ready, with the counters in [socket_stats_t]. *)
Record ready_queue := ReadyQueue {
  m_rx_pkt_ready_list : list ptr;
  m_n_rx_pkt_ready_list_count : Z;
  m_rx_ready_byte_count : Z;
  m_rx_pkt_ready_offset : Z;
  n_rx_ready_pkt_count : Z;
  n_rx_ready_byte_count : Z;
  n_rx_ready_byte_limit : Z;
  n_rx_zcopy_pkt_count : Z;
  n_rx_ready_pkt_max : Z;
  n_rx_ready_byte_max : Z;
  n_rx_ready_byte_drop : Z;
  n_rx_ready_pkt_drop : Z
}.

(** Buffers on their way back: [ring_info_t] for each ring, and a list that
    only TCP sockets fill. *)
Record ring_info_t := RingInfo { refcnt : Z; rx_reuse : list ptr; n_buff_num : Z }.

Record reuse_info := ReuseInfo {
  m_rx_ring_map : gmap ptr ring_info_t;
  m_p_rx_ring : option ptr;
  m_rx_reuse_buff : list ptr * Z;
  m_rx_reuse_buf_pending : bool;
  m_rx_reuse_buf_postponed : bool
}.

Record udp_socket := UdpSocket { opts : udp_opts; queue : ready_queue; reuse : reuse_info }.

Definition set_rq (q : ready_queue) (s : udp_socket) : udp_socket := UdpSocket (opts s) q (reuse s).
Definition set_reuse (r : reuse_info) (s : udp_socket) : udp_socket := UdpSocket (opts s) (queue s) r.

Definition set_ready (l : list ptr) (c b pc bc : Z) (q : ready_queue) : ready_queue :=
  ReadyQueue l c b (m_rx_pkt_ready_offset q) pc bc (n_rx_ready_byte_limit q) (n_rx_zcopy_pkt_count q) (n_rx_ready_pkt_max q) (n_rx_ready_byte_max q)
    (n_rx_ready_byte_drop q) (n_rx_ready_pkt_drop q).
Definition set_offset (o : Z) (q : ready_queue) : ready_queue :=
  ReadyQueue (m_rx_pkt_ready_list q) (m_n_rx_pkt_ready_list_count q) (m_rx_ready_byte_count q) o (n_rx_ready_pkt_count q) (n_rx_ready_byte_count q)
    (n_rx_ready_byte_limit q) (n_rx_zcopy_pkt_count q) (n_rx_ready_pkt_max q) (n_rx_ready_byte_max q) (n_rx_ready_byte_drop q) (n_rx_ready_pkt_drop q).
Definition set_limit (n : Z) (q : ready_queue) : ready_queue :=
  ReadyQueue (m_rx_pkt_ready_list q) (m_n_rx_pkt_ready_list_count q) (m_rx_ready_byte_count q) (m_rx_pkt_ready_offset q) (n_rx_ready_pkt_count q)
    (n_rx_ready_byte_count q) n (n_rx_zcopy_pkt_count q) (n_rx_ready_pkt_max q) (n_rx_ready_byte_max q) (n_rx_ready_byte_drop q) (n_rx_ready_pkt_drop q).
Definition set_zcopy (n : Z) (q : ready_queue) : ready_queue :=
  ReadyQueue (m_rx_pkt_ready_list q) (m_n_rx_pkt_ready_list_count q) (m_rx_ready_byte_count q) (m_rx_pkt_ready_offset q) (n_rx_ready_pkt_count q)
    (n_rx_ready_byte_count q) (n_rx_ready_byte_limit q) n (n_rx_ready_pkt_max q) (n_rx_ready_byte_max q) (n_rx_ready_byte_drop q) (n_rx_ready_pkt_drop q).
Definition set_max (p b : Z) (q : ready_queue) : ready_queue :=
  ReadyQueue (m_rx_pkt_ready_list q) (m_n_rx_pkt_ready_list_count q) (m_rx_ready_byte_count q) (m_rx_pkt_ready_offset q) (n_rx_ready_pkt_count q)
    (n_rx_ready_byte_count q) (n_rx_ready_byte_limit q) (n_rx_zcopy_pkt_count q) p b (n_rx_ready_byte_drop q) (n_rx_ready_pkt_drop q).
Definition set_drop (b p : Z) (q : ready_queue) : ready_queue :=
  ReadyQueue (m_rx_pkt_ready_list q) (m_n_rx_pkt_ready_list_count q) (m_rx_ready_byte_count q) (m_rx_pkt_ready_offset q) (n_rx_ready_pkt_count q)
    (n_rx_ready_byte_count q) (n_rx_ready_byte_limit q) (n_rx_zcopy_pkt_count q) (n_rx_ready_pkt_max q) (n_rx_ready_byte_max q) b p.

(** [--] and [-=] on the counters of packets and bytes. *)
Definition sub_bytes (n : Z) (q : ready_queue) : ready_queue :=
  set_ready (m_rx_pkt_ready_list q) (m_n_rx_pkt_ready_list_count q) (u64 (m_rx_ready_byte_count q - n)) (n_rx_ready_pkt_count q)
    (u32 (n_rx_ready_byte_count q - n)) q.
Definition popped (l : list ptr) (q : ready_queue) : ready_queue :=
  set_ready l (i32 (m_n_rx_pkt_ready_list_count q - 1)) (m_rx_ready_byte_count q) (u32 (n_rx_ready_pkt_count q - 1)) (n_rx_ready_byte_count q) q.

Definition set_ring_map (f : gmap ptr ring_info_t) (r : reuse_info) : reuse_info :=
  ReuseInfo f (m_p_rx_ring r) (m_rx_reuse_buff r) (m_rx_reuse_buf_pending r) (m_rx_reuse_buf_postponed r).
Definition set_pending (b : bool) (r : reuse_info) : reuse_info :=
  ReuseInfo (m_rx_ring_map r) (m_p_rx_ring r) (m_rx_reuse_buff r) b (m_rx_reuse_buf_postponed r).
Definition set_postponed (b : bool) (r : reuse_info) : reuse_info :=
  ReuseInfo (m_rx_ring_map r) (m_p_rx_ring r) (m_rx_reuse_buff r) (m_rx_reuse_buf_pending r) b.
Definition set_reuse_buff (x : list ptr * Z) (r : reuse_info) : reuse_info :=
  ReuseInfo (m_rx_ring_map r) (m_p_rx_ring r) x (m_rx_reuse_buf_pending r) (m_rx_reuse_buf_postponed r).
Definition set_rx_ring (p : option ptr) (r : reuse_info) : reuse_info :=
  ReuseInfo (m_rx_ring_map r) p (m_rx_reuse_buff r) (m_rx_reuse_buf_pending r) (m_rx_reuse_buf_postponed r).

(** ** Inspection of a packet *)

Definition INPORT_ANY : Z := 0.
Definition INADDR_ANY : Z := 0.

(** The port, the limit of the queue (with the counters of what it drops),
    and whether the socket is open. *)
Definition inspect_uc_packet (g_b_exit : bool) (d : rx_desc) (s : udp_socket) : bool * udp_socket :=
  let q := queue s in
  if negb (dst_port d =? bound_port (opts s)) then (false, s)
  else if n_rx_ready_byte_limit q <=? n_rx_ready_byte_count q then
    (false, set_rq (set_drop (u32 (n_rx_ready_byte_drop q + sz_payload d)) (u32 (n_rx_ready_pkt_drop q + 1)) q) s)
  else (negb (m_b_closed (opts s)) && negb g_b_exit, s).

Definition inspect_connected (d : rx_desc) (o : udp_opts) : bool :=
  if negb (connected_port o =? INPORT_ANY) && negb (connected_addr o =? INADDR_ANY)
  then (connected_port o =? src_port d) && (connected_addr o =? src_addr d) else true.

Definition local_if (d : rx_desc) : Z := match l4 d with l4_udp i => i | _ => 0 end.

Definition inspect_mc_packet (d : rx_desc) (o : udp_opts) : bool :=
  if negb (m_b_mc_tx_loop o) && (local_if d =? src_addr d) then false
  else if negb (m_mc_num_grp_with_src_filter o =? 0) then
    if CacheTable.NeighTable.IN_MULTICAST_N (dst_addr d) then
      match m_mc_memberships_map o !! dst_addr d with
      | None => false
      | Some srcs => negb (negb (bool_decide (srcs = ∅)) && negb (bool_decide (src_addr d ∈ srcs)))
      end
    else true
  else true.

(** The new packet in the queue, or in the hands of the application. *)
Definition update_ready (p : ptr) (d : rx_desc) (cb_ret : vma_recv_callback_retval_t) (s : udp_socket) : udp_socket :=
  let q := queue s in
  match cb_ret with
  | VMA_PACKET_HOLD => set_rq (set_zcopy (u32 (n_rx_zcopy_pkt_count q + 1)) q) s
  | _ =>
    let q := set_ready (m_rx_pkt_ready_list q ++ [p]) (i32 (m_n_rx_pkt_ready_list_count q + 1)) (u64 (m_rx_ready_byte_count q + sz_payload d))
               (u32 (n_rx_ready_pkt_count q + 1)) (u32 (n_rx_ready_byte_count q + sz_payload d)) q in
    set_rq (set_max (Z.max (n_rx_ready_pkt_count q) (n_rx_ready_pkt_max q)) (Z.max (n_rx_ready_byte_count q) (n_rx_ready_byte_max q)) q) s
  end.

(** What follows the inspections.  The reference that a kept packet gets is
    counted by the dispatch of [RxPath]. *)
Definition take_packet (p : ptr) (d : rx_desc) (s : udp_socket) : bool * udp_socket :=
  let cb_ret := match m_rx_callback (opts s) with
                | Some f => f p d (n_rx_ready_pkt_count (queue s)) (n_rx_ready_byte_count (queue s))
                | None => VMA_PACKET_RECV
                end in
  match cb_ret with
  | VMA_PACKET_DROP => (false, s)
  | _ => (true, update_ready p d cb_ret s)
  end.

Definition rx_process_udp_packet_partial (g_b_exit : bool) (p : ptr) (d : rx_desc) (s : udp_socket) : bool * udp_socket :=
  let '(ok, s) := inspect_uc_packet g_b_exit d s in
  if ok then take_packet p d s else (false, s).

(** The further inspections, and what follows the redirection. *)
Definition inspect_full (d : rx_desc) (o : udp_opts) : bool :=
  negb (m_is_connected o && negb (inspect_connected d o)) && negb (m_multicast o && negb (inspect_mc_packet d o)).

Definition set_rx_packet_processor (o : udp_opts) : udp_opts :=
  UdpOpts (bound_port o) (connected_addr o) (connected_port o) (m_is_connected o) (m_multicast o) (m_sockopt_mapped o) (m_b_mc_tx_loop o)
    (m_mc_num_grp_with_src_filter o) (m_mc_memberships_map o) (m_is_connected o || m_sockopt_mapped o || m_multicast o)
    (m_port_map o) (m_port_map_index o) (m_b_closed o) (m_rx_callback o).

Definition set_port_map (l : list (Z * Z)) (i : Z) (o : udp_opts) : udp_opts :=
  UdpOpts (bound_port o) (connected_addr o) (connected_port o) (m_is_connected o) (m_multicast o) (m_sockopt_mapped o) (m_b_mc_tx_loop o)
    (m_mc_num_grp_with_src_filter o) (m_mc_memberships_map o) (full o) l i (m_b_closed o) (m_rx_callback o).
Definition set_opts (o : udp_opts) (s : udp_socket) : udp_socket := UdpSocket o (queue s) (reuse s).

(** [std::remove] by the port of entry [i], which is passed by reference into
    the vector that the loop moves entries in; one position is erased. *)
Fixpoint remove_loop (k result first i : nat) (l : list (Z * Z)) : res (nat * list (Z * Z)) :=
  match k with
  | O => Ok (result, l)
  | S k =>
    x ← must (l !! first); v ← must (l !! i);
    if fst x =? fst v then remove_loop k result (S first) i l else remove_loop k (S result) (S first) i (<[result := x]> l)
  end.

Definition remove_port (i : nat) (l : list (Z * Z)) : res (list (Z * Z)) :=
  v ← must (l !! i);
  match list_find (fun e => fst e = fst v) l with
  | None => Undef
  | Some (j, _) => x ← remove_loop (length l - S j) j (S j) i l; Ok (delete (fst x) (snd x))
  end.

(** The choice of a socket to redirect to: round robin, where entries whose
    socket is gone are erased.  [is_socket] says if a descriptor has a socket. *)
Fixpoint next_mapped (fuel : nat) (is_socket : Z -> bool) (l : list (Z * Z)) (index : Z) : res (option (Z * Z) * list (Z * Z) * Z) :=
  match l with
  | [] => Ok (None, l, index)
  | _ =>
    match fuel with
    | O => NoFuel
    | S fuel =>
      let index := if Z.of_nat (length l) <=? u32 (index + 1) then 0 else u32 (index + 1) in
      x ← must (lookupZ l index);
      let '(port, fd) := x : Z * Z in
      if is_socket fd then Ok (Some (port, fd), l, index)
      else l ← remove_port (Z.to_nat index) l; next_mapped fuel is_socket l (if index =? 0 then 0 else index - 1)
    end
  end.

Definition set_dst_port (port : Z) (d : rx_desc) : rx_desc :=
  RxDesc (src_addr d) (src_port d) (dst_addr d) port (iov_base d) (iov_len d) (sz_payload d) (l4 d) (n_frags d) (rx_flow_tag_id d) (is_sw_csum_need d).

(** The sockets and the descriptors; [others] are descriptors of sockets that
    are not UDP, whose members the code would take for those of a UDP socket. *)
Fixpoint rx_process_udp_packet_full (fuel : nat) (g_b_exit : bool) (others : gset Z) (p : ptr) (fd : Z) (a : gmap Z udp_socket * gmap ptr rx_desc)
    : res (bool * (gmap Z udp_socket * gmap ptr rx_desc)) :=
  match fuel with
  | O => NoFuel
  | S fuel =>
    let '(socks, descs) := a in
    if bool_decide (fd ∈ others) then Undef
    else
      s ← must (socks !! fd); d ← must (descs !! p);
      let '(ok, s) := inspect_uc_packet g_b_exit d s in
      if negb ok || negb (inspect_full d (opts s)) then Ok (false, (<[fd := s]> socks, descs))
      else
        x ← (if m_sockopt_mapped (opts s)
             then next_mapped (S (length (m_port_map (opts s)))) (fun fd => bool_decide (fd ∈ dom socks ∪ others)) (m_port_map (opts s)) (m_port_map_index (opts s))
             else Ok (None, m_port_map (opts s), m_port_map_index (opts s)));
        let '(target, l, i) := x : option (Z * Z) * list (Z * Z) * Z in
        let s := set_opts (set_port_map l i (opts s)) s in
        match target with
        | Some (new_port, fd') =>
          rx_process_udp_packet_full fuel g_b_exit others p fd' (<[fd := s]> socks, <[p := set_dst_port new_port d]> descs)
        | None => let '(ret, s) := take_packet p d s in Ok (ret, (<[fd := s]> socks, descs))
        end
  end.

(** The callback of a socket that does not redirect. *)
Definition rx_input (g_b_exit : bool) (p : ptr) (d : rx_desc) (s : udp_socket) : bool * udp_socket :=
  let '(ok, s) := inspect_uc_packet g_b_exit d s in
  if ok && (negb (full (opts s)) || inspect_full d (opts s)) then take_packet p d s else (false, s).

Definition rx_input_cb (fuel : nat) (g_b_exit : bool) (others : gset Z) (p : ptr) (fd : Z) (a : gmap Z udp_socket * gmap ptr rx_desc)
    : res (bool * (gmap Z udp_socket * gmap ptr rx_desc)) :=
  s ← must (fst a !! fd);
  if full (opts s) then rx_process_udp_packet_full fuel g_b_exit others p fd a
  else d ← must (snd a !! p); let '(ret, s) := rx_process_udp_packet_partial g_b_exit p d s in Ok (ret, (<[fd := s]> (fst a), snd a)).

(** ** Returning buffers *)

Section Reuse.
Context (rings : gmap ptr ring_kind) (batch : Z) (descs : gmap ptr rx_desc) (busy : ptr -> bool).

(** [sockinfo::reuse_buffer]; [batch] is [m_n_sysvar_rx_num_buffs_reuse]. *)
Definition base_reuse_buffer (p : ptr) (r : reuse_info) (x : heap) : res (reuse_info * heap) :=
  let r := set_pending false r in
  b ← load (fst x) p; owner ← must (p_desc_owner b); p_ring ← get_parent rings owner;
  match m_rx_ring_map r !! p_ring with
  | Some info =>
    d ← must (descs !! p);
    let l := rx_reuse info ++ [p] in
    let n := i32 (n_buff_num info + n_frags d) in
    let put (l : list ptr) n := set_ring_map (<[p_ring := RingInfo (refcnt info) l n]> (m_rx_ring_map r)) r in
    if n <? batch then Ok (put l n, x)
    else if 2 * batch <=? n then
      y ← reclaim_recv_buffers rings busy p_ring l x;
      let '(ret, x) := y : bool * heap in
      x ← (if ret then Ok x else give_all to_pool l x);
      Ok (set_postponed false (put [] 0), x)
    else Ok (set_postponed true (put l n), x)
  | None => x ← give_back to_pool p x; Ok (r, x)
  end.

(** [sockinfo_udp::reuse_buffer]: only the last socket that has it. *)
Definition reuse_buffer (p : ptr) (r : reuse_info) (x : heap) : res (reuse_info * heap) :=
  '(n, m) ← dec_ref_count p (fst x);
  if n <=? 1 then m ← inc_ref_count p m; base_reuse_buffer p r (m, snd x) else Ok (r, (m, snd x)).

(** The loop over the rings, in the order of the map. *)
Fixpoint return_rings (l : list (ptr * ring_info_t)) (r : reuse_info) (x : heap) : res (reuse_info * heap) :=
  match l with
  | [] => Ok (r, x)
  | (k, info) :: l =>
    if batch <=? n_buff_num info then
      y ← reclaim_recv_buffers rings busy k (rx_reuse info) x;
      let '(ret, x) := y : bool * heap in
      return_rings l (if ret then set_ring_map (<[k := RingInfo (refcnt info) [] 0]> (m_rx_ring_map r)) r else set_postponed true r) x
    else return_rings l r x
  end.

Definition return_reuse_buffers_postponed (r : reuse_info) (x : heap) : res (reuse_info * heap) :=
  if negb (m_rx_reuse_buf_postponed r) then Ok (r, x)
  else
    let r := set_postponed false (set_pending false r) in
    match m_p_rx_ring r with
    | Some k =>
      if batch <=? snd (m_rx_reuse_buff r) then
        y ← reclaim_recv_buffers rings busy k (fst (m_rx_reuse_buff r)) x;
        let '(ret, x) := y : bool * heap in
        Ok (if ret then set_reuse_buff ([], 0) r else set_postponed true r, x)
      else Ok (r, x)
    | None => return_rings (map_to_list (m_rx_ring_map r)) r x
    end.

(** ** Lowering the limit *)

Fixpoint drop_loop (fuel : nat) (s : udp_socket) (x : heap) : res (udp_socket * heap) :=
  let q := queue s in
  if n_rx_ready_byte_limit q <? n_rx_ready_byte_count q then
    if m_n_rx_pkt_ready_list_count q =? 0 then Ok (s, x)
    else match fuel with
         | O => NoFuel
         | S fuel =>
           p ← must (head (m_rx_pkt_ready_list q)); d ← must (descs !! p);
           let q := sub_bytes (sz_payload d) (popped (tail (m_rx_pkt_ready_list q)) q) in
           y ← reuse_buffer p (reuse s) x; y ← return_reuse_buffers_postponed (fst y) (snd y);
           drop_loop fuel (set_reuse (fst y) (set_rq q s)) (snd y)
         end
  else Ok (s, x).

Definition rx_ready_byte_count_limit_update (min_limit n : Z) (s : udp_socket) (x : heap) : res (udp_socket * heap) :=
  let n := if (0 <? n) && (n <? min_limit) then min_limit else n in
  let s := set_rq (set_limit (u32 n) (queue s)) s in
  drop_loop (S (length (m_rx_pkt_ready_list (queue s)))) s x.

(** ** Zero copy: the application returns packets *)

Definition ENOENT : Z := 2.

Fixpoint free_packets (pkts : list ptr) (s : udp_socket) (x : heap) : res (option Z * udp_socket * heap) :=
  match pkts with
  | [] => Ok (None, s, x)
  | p :: pkts =>
    b ← load (fst x) p; owner ← must (p_desc_owner b); p_ring ← get_parent rings owner;
    match m_rx_ring_map (reuse s) !! p_ring with
    | None => Ok (Some ENOENT, s, x)
    | Some _ =>
      y ← reuse_buffer p (reuse s) x;
      free_packets pkts (set_reuse (fst y) (set_rq (set_zcopy (u32 (n_rx_zcopy_pkt_count (queue s) - 1)) (queue s)) s)) (snd y)
    end
  end.

(** ** Rings come and go *)

Definition rx_add_ring_cb (p_ring : ptr) (r : reuse_info) : res reuse_info :=
  parent ← get_parent rings p_ring;
  match m_rx_ring_map r !! parent with
  | None => Ok (set_ring_map (<[p_ring := RingInfo 1 [] 0]> (m_rx_ring_map r)) r)
  | Some info => Ok (set_ring_map (<[parent := RingInfo (i32 (refcnt info + 1)) (rx_reuse info) (n_buff_num info)]> (m_rx_ring_map r)) r)
  end.

(** The owner is compared with the ring itself. *)
Fixpoint move_owned_rx_ready_descs (base : ptr) (m : bufs) (l : list ptr) (q : ready_queue) : res (list ptr * ready_queue) :=
  match l with
  | [] => Ok ([], q)
  | p :: l =>
    b ← load m p;
    if bool_decide (p_desc_owner b = Some base) then
      d ← must (descs !! p);
      x ← move_owned_rx_ready_descs base m l (sub_bytes (sz_payload d) (popped (tail (m_rx_pkt_ready_list q)) q));
      Ok (p :: x.1, x.2)
    else
      move_owned_rx_ready_descs base m l
        (set_ready (tail (m_rx_pkt_ready_list q) ++ [p]) (m_n_rx_pkt_ready_list_count q) (m_rx_ready_byte_count q) (n_rx_ready_pkt_count q) (n_rx_ready_byte_count q) q)
  end.

(** [move_owned_descs]: what goes and what stays. *)
Fixpoint move_owned_descs (r : ptr) (m : bufs) (l : list ptr) : res (list ptr * list ptr) :=
  match l with
  | [] => Ok ([], [])
  | p :: l =>
    b ← load m p; x ← move_owned_descs r m l;
    Ok (if match p_desc_owner b with Some o => is_member rings r o | None => false end then (p :: x.1, x.2) else (x.1, p :: x.2))
  end.

(** The end of [rx_del_ring_cb]: if none of the many attempts finds the ring
    free, the pool gets the buffers. *)
Definition return_temp (base : ptr) (l : list ptr) (x : heap) : res heap :=
  match l with
  | [] => Ok x
  | _ =>
    y ← reclaim_recv_buffers rings busy base l x;
    let '(ret, x) := y : bool * heap in if ret then Ok x else give_all to_pool l x
  end.

(** The last reference to a ring: its packets and its collected buffers go
    back; what the ring does not own stays behind in the deleted record, and
    is the first component of the result. *)
Definition rx_del_ring_cb (p_ring : ptr) (is_migration : bool) (s : udp_socket) (x : heap) : res (list ptr * udp_socket * heap) :=
  base ← get_parent rings p_ring;
  match m_rx_ring_map (reuse s) !! base with
  | None => Ok ([], s, x)
  | Some info =>
    let n := i32 (refcnt info - 1) in
    if negb (n =? 0) then
      Ok ([], set_reuse (set_ring_map (<[base := RingInfo n (rx_reuse info) (n_buff_num info)]> (m_rx_ring_map (reuse s))) (reuse s)) s, x)
    else
      y ← (if is_migration then Ok ([], queue s) else move_owned_rx_ready_descs base (fst x) (m_rx_pkt_ready_list (queue s)) (queue s));
      z ← move_owned_descs base (fst x) (rx_reuse info);
      let temp := y.1 ++ z.1 in
      let f := delete base (m_rx_ring_map (reuse s)) in
      let r := set_ring_map f (reuse s) in
      t ← (if bool_decide (m_p_rx_ring r = Some base) then
             k ← move_owned_descs base (fst x) (fst (m_rx_reuse_buff r));
             Ok (temp ++ k.1, k.2, set_reuse_buff ([], 0)
                   (set_rx_ring (match map_to_list f with [(k, _)] => Some k | _ => None end) r))
           else Ok (temp, [], r));
      let '(temp, global, r) := t : list ptr * list ptr * reuse_info in
      x ← return_temp base temp x; x ← give_all to_pool global x;
      Ok (z.2, set_reuse r (set_rq y.2 s), x)
  end.

End Reuse.

(** ** Reading *)

Definition MSG_PEEK : Z := 2.
Definition MSG_TRUNC : Z := 32.
Definition MSG_VMA_ZCOPY : Z := 262144.
Definition has_flag (flags f : Z) : bool := negb (Z.land flags f =? 0).

(** A read of [n] bytes at an offset of a buffer. *)
Definition read_bytes (l : list Z) (o n : Z) : res (list Z) :=
  if (0 <=? o) && (0 <=? n) && (o + n <=? Z.of_nat (length l)) then Ok (take (Z.to_nat n) (drop (Z.to_nat o) l)) else Undef.

(** The position in the datagram: the descriptor, the place in its buffer and
    how much is left there; [offset] is [m_rx_pkt_ready_offset]. *)
Record cursor := Cursor { pdesc : option ptr; pos_base : Z; bytes_left : Z; total_rx : Z; offset : Z }.

Section Read.
Context (descs : gmap ptr rx_desc) (buffer : ptr -> list Z).

(** The inner loop of [dequeue_packet]: one buffer of the application, of
    which [pos] bytes are filled. *)
Fixpoint fill_iov (fuel : nat) (m : bufs) (iov_len_ pos : Z) (c : cursor) : res (list Z * cursor) :=
  match pdesc c with
  | None => Ok ([], c)
  | Some p =>
    if negb (pos <? iov_len_) then Ok ([], c)
    else match fuel with
         | O => NoFuel
         | S fuel =>
           let nbytes := u32 (iov_len_ - pos) in
           let nbytes := if bytes_left c <? nbytes then u32 (bytes_left c) else nbytes in
           out ← read_bytes (buffer p) (pos_base c) nbytes;
           let left := u64 (bytes_left c - nbytes) in
           let total := i32 (total_rx c + nbytes) in
           c ← (if left <=? 0 then
                  b ← load m p;
                  match p_next_desc b with
                  | Some q => d ← must (descs !! q); Ok (Cursor (Some q) (iov_base d) (iov_len d) total 0)
                  | None => Ok (Cursor None (pos_base c + nbytes) left total 0)
                  end
                else Ok (Cursor (Some p) (pos_base c + nbytes) left total (u64 (offset c + nbytes))));
           x ← fill_iov fuel m iov_len_ (u32 (pos + nbytes)) c;
           Ok (out ++ x.1, x.2)
         end
  end.

(** The outer loop; the buffers behind the end of the datagram stay empty. *)
Fixpoint fill_iovs (fuel : nat) (m : bufs) (iovs : list Z) (c : cursor) : res (list (list Z) * cursor) :=
  match iovs with
  | [] => Ok ([], c)
  | n :: iovs =>
    match pdesc c with
    | None => Ok (replicate (S (length iovs)) [], c)
    | Some _ => x ← fill_iov fuel m n 0 c; y ← fill_iovs fuel m iovs x.2; Ok (x.1 :: y.1, y.2)
    end
  end.

(** [zero_copy_rx]: pointers to the fragments, as many as fit. *)
Fixpoint zero_copy_loop (fuel : nat) (m : bufs) (len : Z) (o : option ptr) (total : Z) : res (list ptr * Z * bool) :=
  match o with
  | None => Ok ([], total, false)
  | Some p =>
    match fuel with
    | O => NoFuel
    | S fuel =>
      let len := i32 (len - 16) in
      if len <? 0 then Ok ([], total, true)
      else
        d ← must (descs !! p); b ← load m p;
        x ← zero_copy_loop fuel m len (p_next_desc b) (i32 (total + iov_len d));
        let '(l, total, trunc) := x : list ptr * Z * bool in Ok (p :: l, total, trunc)
    end
  end.

(** What the application gets: the bytes in its buffers or the fragments. *)
Inductive received_data := copied (bytes : list (list Z)) | zero_copied (packet_id : ptr) (frags : list ptr).

(** The result of a call: [None] is an error (ENOBUFS); otherwise the value
    that is returned, the data, the address of the sender and the flags. *)
Record rx_result := RxResult { rx_ret : Z; rx_data : received_data; rx_from : Z * Z; rx_flags : Z }.

Definition handle_msg_trunc (total payload in_flags out_flags : Z) (q : ready_queue) : Z * Z * ready_queue :=
  if total <? payload then
    (if has_flag in_flags MSG_TRUNC then i32 payload else total, Z.lor out_flags MSG_TRUNC, sub_bytes (payload - total) q)
  else (total, out_flags, q).

Definition post_deqeue (rings : gmap ptr ring_kind) (batch : Z) (busy : ptr -> bool) (release_buff : bool) (s : udp_socket) (x : heap) : res (udp_socket * heap) :=
  p ← must (head (m_rx_pkt_ready_list (queue s)));
  let q := popped (tail (m_rx_pkt_ready_list (queue s))) (queue s) in
  y ← (if release_buff then reuse_buffer rings batch descs busy p (reuse s) x else Ok (reuse s, x));
  Ok (set_reuse y.1 (set_rq (set_offset 0 q) s), y.2).

(** The first part of [dequeue_packet]: the data, the number of bytes, the
    flags and the new offset. *)
Definition copy_packet (m : bufs) (p : ptr) (d : rx_desc) (iovs : list Z) (in_flags : Z) (q : ready_queue) : res (option (received_data * Z * Z * ready_queue)) :=
  if has_flag in_flags MSG_VMA_ZCOPY then
    n ← must (head iovs);
    let len := i32 (n - 8 - 16) in
    if len <? 0 then Ok None
    else
      x ← zero_copy_loop (S (size m)) m len (Some p) 0;
      let '(l, total, trunc) := x : list ptr * Z * bool in
      Ok (Some (zero_copied p l, total, if trunc then MSG_TRUNC else 0, set_offset 0 (set_zcopy (u32 (n_rx_zcopy_pkt_count q + 1)) q)))
  else
    let o := m_rx_pkt_ready_offset q in
    x ← fill_iovs (S (size m)) m iovs (Cursor (Some p) (iov_base d + o) (u64 (iov_len d - o)) 0 o);
    Ok (Some (copied x.1, total_rx x.2, 0, set_offset (offset x.2) q)).

Definition dequeue_packet (rings : gmap ptr ring_kind) (batch : Z) (busy : ptr -> bool) (iovs : list Z) (in_flags : Z) (s : udp_socket) (x : heap)
    : res (option rx_result * udp_socket * heap) :=
  let is_peek := has_flag in_flags MSG_PEEK in
  let rx_pkt_ready_offset := m_rx_pkt_ready_offset (queue s) in
  p ← must (head (m_rx_pkt_ready_list (queue s))); d ← must (descs !! p);
  c ← copy_packet (fst x) p d iovs in_flags (queue s);
  match c with
  | None => Ok (None, s, x)
  | Some c =>
    let '(data, total, flags, q) := c : received_data * Z * Z * ready_queue in
    y ← (if is_peek then Ok (set_rq (set_offset rx_pkt_ready_offset q) s, x)
         else post_deqeue rings batch busy (negb (has_flag in_flags MSG_VMA_ZCOPY)) (set_rq (sub_bytes total q) s) x);
    let '(s, x) := y : udp_socket * heap in
    let '(ret, flags, q) := handle_msg_trunc total (sz_payload d) in_flags flags (queue s) in
    Ok (Some (RxResult ret data (src_addr d, src_port d) flags), set_rq q s, x)
  end.

End Read.

(** ** What a read copies *)

Section ReadSpec.
Context (descs : gmap ptr rx_desc) (buffer : ptr -> list Z).

Definition frag_in (q : ptr) (d : rx_desc) : Prop :=
  0 <= iov_base d /\ 0 <= iov_len d < 2 ^ 32 /\ iov_base d + iov_len d <= Z.of_nat (length (buffer q)).
Definition slice (q : ptr) (o n : Z) : list Z := take (Z.to_nat n) (drop (Z.to_nat o) (buffer q)).
Definition frag_bytes (q : ptr) : list Z := match descs !! q with Some d => slice q (iov_base d) (iov_len d) | None => [] end.

(** The bytes of a datagram whose fragments are [l]. *)
Definition payload (l : list ptr) : list Z := l ≫= frag_bytes.

Definition frags_ok (l : list ptr) : Prop := Forall (fun q => exists d, descs !! q = Some d /\ frag_in q d) l.

(** The bytes that are distributed to the buffers of the application. *)
Fixpoint chunks (iovs : list Z) (D : list Z) : list (list Z) :=
  match iovs with
  | [] => []
  | n :: iovs => take (Z.to_nat n) D :: chunks iovs (drop (Z.to_nat n) D)
  end.

(** [c] is in front of the bytes [D]. *)
Definition at_bytes (m : bufs) (c : cursor) (D : list Z) : Prop :=
  match pdesc c with
  | None => D = []
  | Some p => exists l, chain m (Some p) (p :: l) /\ frags_ok l /\ 0 <= pos_base c /\ 0 <= bytes_left c < 2 ^ 32 /\
      pos_base c + bytes_left c <= Z.of_nat (length (buffer p)) /\ D = slice p (pos_base c) (bytes_left c) ++ payload l
  end.

Lemma length_slice q o n : 0 <= o -> 0 <= n -> o + n <= Z.of_nat (length (buffer q)) -> length (slice q o n) = Z.to_nat n.
Proof. intros. unfold slice. rewrite length_take, length_drop. lia. Qed.

Lemma slice_split q o n k : 0 <= o -> 0 <= k <= n -> slice q o n = slice q o k ++ slice q (o + k) (n - k).
Proof.
  intros. unfold slice. rewrite Z2Nat.inj_add, Z2Nat.inj_sub by lia. rewrite <- drop_drop, (take_drop_commute _ _ (Z.to_nat k)).
  replace (Z.to_nat k + (Z.to_nat n - Z.to_nat k))%nat with (Z.to_nat n) by lia.
  rewrite <- (take_drop (Z.to_nat k) (take (Z.to_nat n) (drop (Z.to_nat o) (buffer q)))) at 1. f_equal. rewrite take_take. f_equal. lia.
Qed.

Lemma read_slice q o n : 0 <= o -> 0 <= n -> o + n <= Z.of_nat (length (buffer q)) -> read_bytes (buffer q) o n = Ok (slice q o n).
Proof. intros. unfold read_bytes. rewrite !(proj2 (Z.leb_le _ _)) by lia. done. Qed.

Lemma payload_cons q d l : descs !! q = Some d -> payload (q :: l) = slice q (iov_base d) (iov_len d) ++ payload l.
Proof. intros Hd. unfold payload. rewrite bind_cons. unfold frag_bytes at 1. by rewrite Hd. Qed.

(** The loop over one buffer of the application, for a cursor on [p]: it
    stays in the fragment, or ends it and goes on behind it. *)
Lemma fill_iov_inside m n fuel p pos c : 0 <= n < 2 ^ 32 -> pdesc c = Some p -> 0 <= pos < n -> 0 <= pos_base c ->
  pos_base c + bytes_left c <= Z.of_nat (length (buffer p)) -> n - pos < bytes_left c < 2 ^ 32 -> 0 <= total_rx c -> total_rx c + (n - pos) < 2 ^ 31 ->
  exists c', fill_iov descs buffer (S fuel) m n pos c = Ok (slice p (pos_base c) (n - pos), c') /\ pdesc c' = Some p /\
    pos_base c' = pos_base c + (n - pos) /\ bytes_left c' = bytes_left c - (n - pos) /\ total_rx c' = total_rx c + (n - pos).
Proof.
  intros Hn Hp Hpos Hb Hin Hl Ht Htot. cbn [fill_iov]. rewrite Hp, (proj2 (Z.ltb_lt pos n)) by lia. cbn [negb].
  rewrite (wrap_small 32 (n - pos)) by lia. destruct (Z.ltb_spec (bytes_left c) (n - pos)); [lia|].
  rewrite read_slice by lia. cbn [mbind res_bind]. rewrite (wrap_small 64), (swrap_small 32) by lia.
  destruct (Z.leb_spec (bytes_left c - (n - pos)) 0); [lia|]. cbn [mbind res_bind]. rewrite (wrap_small 32) by lia.
  set (c' := Cursor _ _ _ _ _). exists c'. assert (fill_iov descs buffer fuel m n (pos + (n - pos)) c' = Ok ([], c')) as ->.
  { destruct fuel; cbn [fill_iov]; subst c'; cbn [pdesc]; rewrite (proj2 (Z.ltb_ge _ n)) by lia; done. }
  cbn [mbind res_bind fst snd]. rewrite app_nil_r. done.
Qed.

Lemma fill_iov_end m n fuel p b pos c : 0 <= n < 2 ^ 32 -> pdesc c = Some p -> m !! p = Some b -> 0 <= pos < n -> 0 <= pos_base c ->
  pos_base c + bytes_left c <= Z.of_nat (length (buffer p)) -> 0 <= bytes_left c <= n - pos -> 0 <= total_rx c -> total_rx c + bytes_left c < 2 ^ 31 ->
  fill_iov descs buffer (S fuel) m n pos c =
  (c' ← (match p_next_desc b with
         | Some q => d ← must (descs !! q); Ok (Cursor (Some q) (iov_base d) (iov_len d) (total_rx c + bytes_left c) 0)
         | None => Ok (Cursor None (pos_base c + bytes_left c) 0 (total_rx c + bytes_left c) 0)
         end);
   x ← fill_iov descs buffer fuel m n (pos + bytes_left c) c'; Ok (slice p (pos_base c) (bytes_left c) ++ x.1, x.2)).
Proof.
  intros Hn Hp Hm Hpos Hb Hin Hl Ht Htot. cbn [fill_iov]. rewrite Hp, (proj2 (Z.ltb_lt pos n)) by lia. cbn [negb].
  rewrite (wrap_small 32 (n - pos)) by lia.
  assert ((if bytes_left c <? n - pos then u32 (bytes_left c) else n - pos) = bytes_left c) as ->.
  { destruct (Z.ltb_spec (bytes_left c) (n - pos)); [apply wrap_small|]; lia. }
  rewrite read_slice by lia. cbn [mbind res_bind]. rewrite Z.sub_diag. change (u64 0) with 0. rewrite (swrap_small 32) by lia.
  unfold load. rewrite Hm. cbn [must mbind res_bind Z.leb Z.compare]. by rewrite (wrap_small 32) by lia.
Qed.

(** The cursor does not leave the fragment. *)
Lemma fill_iov_local m n l p fuel pos c : 0 <= n < 2 ^ 32 -> pdesc c = Some p -> chain m (Some p) (p :: l) -> frags_ok l ->
  0 <= pos_base c -> 0 <= bytes_left c < 2 ^ 32 -> pos_base c + bytes_left c <= Z.of_nat (length (buffer p)) ->
  let D := slice p (pos_base c) (bytes_left c) ++ payload l in 0 <= pos <= n -> 0 <= total_rx c -> total_rx c + Z.of_nat (length D) < 2 ^ 31 ->
  pos = n \/ n - pos < bytes_left c -> exists c', fill_iov descs buffer (S fuel) m n pos c = Ok (take (Z.to_nat (n - pos)) D, c') /\
    total_rx c' = total_rx c + Z.min (n - pos) (Z.of_nat (length D)) /\ at_bytes m c' (drop (Z.to_nat (n - pos)) D).
Proof.
  intros Hn Hp Hch Hfr Hb Hl Hin D Hpos Ht Htot Hor. destruct (decide (pos = n)) as [->|Hne].
  - rewrite Z.sub_diag. exists c. cbn [fill_iov]. rewrite Hp, Z.ltb_irrefl. split; [done|]. split; [lia|]. unfold at_bytes. rewrite Hp. by eauto 10.
  - destruct Hor as [|Hlt]; [done|]. pose proof (length_slice p (pos_base c) (n - pos) Hb ltac:(lia) ltac:(lia)) as Hk.
    assert (D = slice p (pos_base c) (n - pos) ++ slice p (pos_base c + (n - pos)) (bytes_left c - (n - pos)) ++ payload l) as HD.
    { subst D. rewrite (slice_split p _ (bytes_left c) (n - pos)) by lia. by rewrite <- app_assoc. }
    assert (Z.of_nat (length D) >= n - pos) by (rewrite HD, length_app; lia).
    destruct (fill_iov_inside m n fuel p pos c) as (c' & E & E1 & E2 & E3 & E4); try done; try lia.
    exists c'. rewrite E. clearbody D. split; [by rewrite HD, take_app_length' by lia|]. split; [lia|].
    rewrite HD, drop_app_length' by lia. unfold at_bytes. rewrite E1, E2, E3. exists l. split_and!; try done; lia.
Qed.

Lemma fill_iov_spec m n : 0 <= n < 2 ^ 32 -> forall l p fuel pos c, pdesc c = Some p -> chain m (Some p) (p :: l) -> frags_ok l ->
  0 <= pos_base c -> 0 <= bytes_left c < 2 ^ 32 -> pos_base c + bytes_left c <= Z.of_nat (length (buffer p)) ->
  let D := slice p (pos_base c) (bytes_left c) ++ payload l in 0 <= pos <= n -> 0 <= total_rx c -> total_rx c + Z.of_nat (length D) < 2 ^ 31 ->
  (length l < fuel)%nat -> exists c', fill_iov descs buffer fuel m n pos c = Ok (take (Z.to_nat (n - pos)) D, c') /\
    total_rx c' = total_rx c + Z.min (n - pos) (Z.of_nat (length D)) /\ at_bytes m c' (drop (Z.to_nat (n - pos)) D).
Proof.
  intros Hn l. induction l as [|q l IH]; intros p fuel pos c Hp Hch Hfr Hb Hl Hin D Hpos Ht Htot Hf.
  all: destruct fuel as [|fuel]; simpl in Hf; [lia|]; pose proof (length_slice p (pos_base c) (bytes_left c) Hb ltac:(lia) Hin) as Hls.
  all: destruct (decide (pos = n \/ n - pos < bytes_left c)) as [|Hge]; [by eapply fill_iov_local|].
  all: pose proof Hch as (_ & b & Hpb & Hch'); assert (length D = length (slice p (pos_base c) (bytes_left c)) + length (payload _))%nat as HlD by apply length_app.
  all: rewrite (fill_iov_end m n fuel p b pos c) by (done || lia).
  - rewrite Hch'. cbn [mbind res_bind]. assert (D = slice p (pos_base c) (bytes_left c)) as HD by apply app_nil_r.
    clearbody D. subst D.
    exists (Cursor None (pos_base c + bytes_left c) 0 (total_rx c + bytes_left c) 0). destruct fuel; cbn [fill_iov pdesc mbind res_bind fst snd total_rx];
      rewrite app_nil_r, take_ge, drop_ge by lia; (split; [done|]); (split; [lia|done]).
  - pose proof Hch' as (E & b' & Hqb & Hch''). rewrite E. apply Forall_cons in Hfr as [(d & Hd & F1 & F2 & F3) Hfr]. rewrite Hd. cbn [must mbind res_bind].
    set (c1 := Cursor (Some q) _ _ _ _). pose proof (payload_cons q d l Hd) as Epl.
    destruct (IH q fuel (pos + bytes_left c) c1) as (c' & E' & T' & A'); simpl; rewrite <- ?Epl; try done; try lia; [by rewrite E in Hch'|].
    simpl in *. rewrite <- Epl in *. rewrite E'. exists c'. cbn [mbind res_bind fst snd].
    replace (Z.to_nat (n - (pos + bytes_left c))) with (Z.to_nat (n - pos) - length (slice p (pos_base c) (bytes_left c)))%nat in * by lia.
    subst D. rewrite (take_app (slice p _ _)), (drop_app (slice p _ _)), (take_ge (slice p _ _)), (drop_ge (slice p _ _)) by lia.
    split; [done|]. split; [|done]. rewrite T'. lia.
Qed.

Definition sumZ (l : list Z) : Z := foldr Z.add 0 l.

Lemma chunks_nil iovs : chunks iovs [] = replicate (length iovs) [].
Proof. induction iovs as [|n iovs IH]; [done|]. simpl. by rewrite take_nil, drop_nil, IH. Qed.

Lemma sumZ_nonneg l : Forall (fun n => 0 <= n < 2 ^ 32) l -> 0 <= sumZ l.
Proof. induction 1; simpl; lia. Qed.

Lemma fill_iovs_spec m iovs : Forall (fun n => 0 <= n < 2 ^ 32) iovs -> forall c D, at_bytes m c D -> 0 <= total_rx c ->
  total_rx c + Z.of_nat (length D) < 2 ^ 31 -> exists c', fill_iovs descs buffer (S (size m)) m iovs c = Ok (chunks iovs D, c') /\
    total_rx c' = total_rx c + Z.min (sumZ iovs) (Z.of_nat (length D)).
Proof.
  induction 1 as [|n iovs Hn Hiovs IH]; intros c D Hat Ht Htot; [exists c; split; [done|]; simpl; lia|].
  cbn [fill_iovs]. pose proof (sumZ_nonneg iovs Hiovs). unfold at_bytes in Hat. destruct (pdesc c) as [p|] eqn:Hp.
  - destruct Hat as (l & Hch & Hfr & Hb & Hl & Hin & ->). pose proof (chain_size _ _ _ Hch) as Hsz. simpl in Hsz.
    destruct (fill_iov_spec m n Hn l p (S (size m)) 0 c) as (c1 & -> & T1 & A1); try done; try lia. cbn [mbind res_bind fst snd].
    rewrite Z.sub_0_r in *. set (D := slice _ _ _ ++ _) in *.
    destruct (IH c1 _ A1) as (c2 & -> & T2); [lia|rewrite length_drop; lia|]. cbn [mbind res_bind fst snd]. exists c2. split; [done|].
    rewrite T2, T1, length_drop. simpl. lia.
  - subst D. exists c. rewrite chunks_nil. split; [done|]. simpl. lia.
Qed.

(** The bytes of the datagram in the buffers of the application. *)
Lemma fill_datagram m iovs p d l : Forall (fun n => 0 <= n < 2 ^ 32) iovs -> chain m (Some p) (p :: l) -> descs !! p = Some d -> frags_ok (p :: l) ->
  Z.of_nat (length (payload (p :: l))) < 2 ^ 31 ->
  exists c, fill_iovs descs buffer (S (size m)) m iovs (Cursor (Some p) (iov_base d + 0) (u64 (iov_len d - 0)) 0 0) = Ok (chunks iovs (payload (p :: l)), c) /\
    total_rx c = Z.min (sumZ iovs) (Z.of_nat (length (payload (p :: l)))).
Proof.
  intros Hio Hch Hd Hfr Hlen. apply Forall_cons in Hfr as [(d' & Hd' & F1 & F2 & F3) Hfr]. rewrite Hd in Hd'. injection Hd' as <-.
  rewrite Z.add_0_r, Z.sub_0_r, wrap_small by lia. destruct (fill_iovs_spec m iovs Hio (Cursor (Some p) (iov_base d) (iov_len d) 0 0) (payload (p :: l)))
    as (c & E & T); [|done|done|by exists c].
  exists l. cbn [pos_base bytes_left]. split_and!; try done; try lia. by apply payload_cons.
Qed.

End ReadSpec.

(** ** Who holds a buffer *)

(** How often [p] is in [l]. *)
Definition occ (p : ptr) (l : list ptr) : nat := length (filter (fun q => q = p) l).

Lemma occ_app p l k : occ p (l ++ k) = (occ p l + occ p k)%nat.
Proof. unfold occ. by rewrite filter_app, length_app. Qed.

Lemma occ_cons p q l : occ p (q :: l) = ((if decide (q = p) then 1 else 0) + occ p l)%nat.
Proof. unfold occ. rewrite filter_cons. by destruct (decide (q = p)). Qed.

Lemma occ_elem p l : (0 < occ p l)%nat <-> p ∈ l.
Proof.
  induction l as [|q l IH]; [rewrite elem_of_nil; unfold occ; simpl; lia|]. rewrite occ_cons, elem_of_cons. destruct (decide (q = p)); [naive_solver lia|].
  rewrite <- IH. naive_solver lia.
Qed.

Lemma occ_not_elem p l : p ∉ l <-> occ p l = 0%nat.
Proof. rewrite <- occ_elem. lia. Qed.

#[global] Instance occ_perm p : Proper ((≡ₚ) ==> eq) (occ p).
Proof. intros l k H. unfold occ. by rewrite H. Qed.

(** The reference count of each buffer of [L] is the number of times that it
    is there; [B] is what else holds of its descriptor. *)
Definition counted (B : mem_buf_desc_t -> Prop) (L : list ptr) (m : bufs) : Prop :=
  forall p, p ∈ L -> exists b, m !! p = Some b /\ n_ref_count b = Z.of_nat (occ p L) /\ Z.of_nat (occ p L) < 2 ^ 31 /\ pbuf_ref b <= 1 /\ B b.

(** The buffers of [L] that are not in [L'] were given back, each one once. *)
Definition settled (L L' : list ptr) (log log' : list (home * ptr)) : Prop :=
  (forall p, (occ p L' <= occ p L)%nat) /\
  exists new, log' = log ++ new /\ forall p, occ p new.*2 = if decide (p ∈ L /\ p ∉ L') then 1%nat else 0%nat.

(** The links between descriptors, and what the socket does not change. *)
Definition same_links (m m' : bufs) : Prop := forall q, (fun b => (p_next_desc b, p_desc_owner b)) <$> m' !! q = (fun b => (p_next_desc b, p_desc_owner b)) <$> m !! q.

Lemma counted_perm B L L' m : L ≡ₚ L' -> counted B L m -> counted B L' m.
Proof. intros HL H p Hp. rewrite <- HL in Hp. destruct (H p Hp) as (b & Hb & Hn & Ho & Hr). exists b. by rewrite <- HL. Qed.

Lemma settled_sub L L' log log' p : settled L L' log log' -> p ∈ L' -> p ∈ L.
Proof. intros [H _] Hp. apply occ_elem. apply occ_elem in Hp. specialize (H p). lia. Qed.

#[global] Instance settled_perm : Proper ((≡ₚ) ==> (≡ₚ) ==> eq ==> eq ==> iff) settled.
Proof.
  assert (forall L L' K K' log log', L ≡ₚ L' -> K ≡ₚ K' -> settled L K log log' -> settled L' K' log log') as H.
  { intros L L' K K' log log' H1 H2 (Ho & new & -> & Hn). split; [intros p; rewrite <- H1, <- H2; apply Ho|]. exists new. split; [done|]. intros p. rewrite Hn.
    assert (p ∈ L <-> p ∈ L') as E1 by (by rewrite H1). assert (p ∈ K <-> p ∈ K') as E2 by (by rewrite H2). repeat case_decide; naive_solver. }
  intros L L' H1 K K' H2 log ? <- log' ? <-. split; by apply H.
Qed.

(** Only the number of references changes. *)
Lemma settled_kept L L' log : (forall p, (occ p L' <= occ p L)%nat) -> (forall p, p ∈ L -> p ∈ L') -> settled L L' log log.
Proof.
  intros Ho H. split; [done|]. exists []. split; [by rewrite app_nil_r|]. intros p. rewrite decide_False; [done|]. intros [H1 H2]. by apply H2, H.
Qed.

Lemma settled_refl L L' log : L ≡ₚ L' -> settled L L' log log.
Proof. intros H. apply settled_kept; intros p; by rewrite H. Qed.

Lemma settled_trans L1 L2 L3 l1 l2 l3 : settled L1 L2 l1 l2 -> settled L2 L3 l2 l3 -> settled L1 L3 l1 l3.
Proof.
  intros H1 H2. pose proof (fun p => settled_sub _ _ _ _ p H1) as S1. pose proof (fun p => settled_sub _ _ _ _ p H2) as S2.
  destruct H1 as (O1 & n1 & -> & H1), H2 as (O2 & n2 & -> & H2). split; [intros p; specialize (O1 p); specialize (O2 p); lia|].
  exists (n1 ++ n2). split; [by rewrite app_assoc|]. intros p. rewrite fmap_app, occ_app, H1, H2. specialize (S1 p). specialize (S2 p). repeat case_decide; naive_solver.
Qed.

Lemma same_links_trans m1 m2 m3 : same_links m1 m2 -> same_links m2 m3 -> same_links m1 m3.
Proof. intros H1 H2 q. by rewrite H2. Qed.

Lemma same_links_insert m p b b' : m !! p = Some b -> p_next_desc b' = p_next_desc b -> p_desc_owner b' = p_desc_owner b -> same_links m (<[p := b']> m).
Proof.
  intros Hp H1 H2 q. destruct (decide (q = p)) as [->|]; [|by rewrite lookup_insert_ne]. rewrite lookup_insert_eq, Hp. simpl. by rewrite H1, H2.
Qed.

Lemma same_links_chain m m' p l : same_links m m' -> chain m p l -> chain m' p l.
Proof. intros H. apply chain_ext. intros q _. specialize (H q). destruct (m !! q), (m' !! q); simplify_eq/=; congruence. Qed.

(** ** Giving buffers back *)

Section Conserve.
Context (rings : gmap ptr ring_kind).

(** The owner is a simple ring. *)
Definition known (b : mem_buf_desc_t) : Prop := exists r, p_desc_owner b = Some r /\ exists q, rings !! r = Some (ring_of q).
Abbreviation count := (counted known).

Lemma count_drop p L m b b' : count (p :: L) m -> m !! p = Some b -> p_next_desc b' = p_next_desc b -> p_desc_owner b' = p_desc_owner b ->
  (p ∈ L -> n_ref_count b' = n_ref_count b - 1 /\ pbuf_ref b' <= 1) -> count L (<[p := b']> m) /\ same_links m (<[p := b']> m).
Proof.
  intros Hc Hp E1 E2 Hin. split; [|by eapply same_links_insert]. intros q Hq. destruct (Hc q) as (c & Hqc & Hn & Hlt & Hr & Hk); [by right|].
  rewrite occ_cons in Hn, Hlt. destruct (decide (q = p)) as [->|Hne].
  - rewrite decide_True in Hn, Hlt by done. rewrite Hp in Hqc. injection Hqc as <-. destruct (Hin Hq). exists b'. rewrite lookup_insert_eq.
    split_and!; try done; try lia. destruct Hk as (r & ? & ?). exists r. by rewrite E2.
  - rewrite decide_False in Hn, Hlt by done. exists c. by rewrite lookup_insert_ne.
Qed.

Lemma settled_drop (h : home) p L log : settled (p :: L) L log (if decide (p ∈ L) then log else log ++ [(h, p)]).
Proof.
  split; [intros q; rewrite occ_cons; lia|]. case_decide as Hp.
  - exists []. split; [by rewrite app_nil_r|]. intros q. rewrite decide_False; [done|]. rewrite elem_of_cons. naive_solver.
  - exists [(h, p)]. split; [done|]. intros q. simpl. rewrite occ_cons. change (occ q []) with 0%nat.
    destruct (decide (p = q)) as [->|]; case_decide as H; rewrite elem_of_cons in H; naive_solver.
Qed.

Lemma give_back_ok h p L m log : count (p :: L) m -> exists m', give_back h p (m, log) = Ok (m', if decide (p ∈ L) then log else log ++ [(h, p)]) /\
  count L m' /\ same_links m m'.
Proof.
  intros Hc. destruct (Hc p) as (b & Hp & Hn & Hlt & Hr & Hk); [by left|]. rewrite occ_cons, decide_True in Hn, Hlt by done.
  unfold give_back, dec_ref_count, load. rewrite Hp. cbn [must mbind res_bind]. rewrite swrap_small by lia. case_decide as Hin.
  - apply occ_elem in Hin as Ho. destruct (Z.leb_spec (n_ref_count b) 1); [lia|]. eexists. split; [done|]. by eapply count_drop.
  - apply occ_not_elem in Hin as Ho. destruct (Z.leb_spec (n_ref_count b) 1); [|lia]. rewrite lookup_insert_eq. cbn [must mbind res_bind].
    rewrite insert_insert_eq. cbn [pbuf_ref set_ref_count]. rewrite (proj2 (Z.leb_le _ _)) by done. eexists. split; [done|]. by eapply count_drop.
Qed.

Lemma give_all_ok h l : forall L m log, count (l ++ L) m -> exists m' log', give_all h l (m, log) = Ok (m', log') /\ count L m' /\
  settled (l ++ L) L log log' /\ same_links m m'.
Proof.
  induction l as [|p l IH]; intros L m log Hc; [exists m, log; split; [done|]; split; [done|]; split; [by apply settled_refl|done]|].
  cbn [give_all]. destruct (give_back_ok h p (l ++ L) m log Hc) as (m1 & -> & Hc1 & Hs1). cbn [mbind res_bind].
  destruct (IH L m1 (if decide (p ∈ l ++ L) then log else log ++ [(h, p)]) Hc1) as (m2 & log2 & -> & Hc2 & Hset & Hs2).
  exists m2, log2. split; [done|]. split; [done|]. split; [|by eapply same_links_trans]. eapply settled_trans; [apply settled_drop|done].
Qed.

Lemma find_ring_lt n : forall i rs o k, (i < length rs)%nat -> find_ring n i rs o = Some k -> (k < length rs)%nat.
Proof.
  induction n as [|n IH]; intros i rs o k Hi; simpl; [done|]. case_bool_decide; [by intros [= <-]|]. apply IH. apply Nat.mod_upper_bound. lia.
Qed.

Lemma concat_alter (p : ptr) i (ls : list (list ptr)) : (i < length ls)%nat -> concat (alter (.++ [p]) i ls) ≡ₚ p :: concat ls.
Proof.
  revert i. induction ls as [|l ls IH]; intros [|i] Hi; cbn [length] in Hi; [lia..| |].
  - change (alter _ _ _) with ((l ++ [p]) :: ls). simpl. rewrite <- app_assoc. simpl. by rewrite Permutation_middle.
  - change (alter _ _ _) with (l :: alter (.++ [p]) i ls). simpl. rewrite IH by lia. by rewrite Permutation_middle.
Qed.

Lemma devide_ok rs m l : forall i acc, length acc = S (length rs) -> (rs = [] \/ i < length rs)%nat -> Forall (fun p => is_Some (m !! p)) l ->
  exists ls, devide_buffers rs i l m acc = Ok ls /\ length ls = length acc /\ concat ls ≡ₚ l ++ concat acc.
Proof.
  induction l as [|p l IH]; intros i acc Hacc Hi Hl; [by exists acc|]. apply Forall_cons in Hl as [[b Hb] Hl]. cbn [devide_buffers].
  unfold load. rewrite Hb. cbn [must mbind res_bind].
  assert (forall k, find_ring (length rs) i rs (p_desc_owner b) = Some k -> (k < length rs)%nat) as Hk.
  { destruct Hi as [->|Hi]; [done|]. intros k. by apply find_ring_lt. }
  destruct (find_ring _ _ _ _) as [k|].
  - specialize (Hk k eq_refl). destruct (IH k (alter (.++ [p]) k acc)) as (ls & -> & Hlen & Hp); [by rewrite length_alter|by right|done|].
    exists ls. rewrite length_alter in Hlen. split; [done|]. split; [done|]. rewrite Hp, concat_alter by lia. simpl. by rewrite Permutation_middle.
  - destruct (IH i (alter (.++ [p]) (length rs) acc)) as (ls & -> & Hlen & Hp); [by rewrite length_alter|done|done|].
    exists ls. rewrite length_alter in Hlen. split; [done|]. split; [done|]. rewrite Hp, concat_alter by lia. simpl. by rewrite Permutation_middle.
Qed.

Lemma reclaim_slaves_ok busy rs : forall ls L m log, count (concat ls ++ L) m -> exists m' log', reclaim_slaves busy rs ls (m, log) = Ok (m', log') /\
  count L m' /\ settled (concat ls ++ L) L log log' /\ same_links m m'.
Proof.
  induction rs as [|r rs IH]; intros ls L m log Hc; [by apply give_all_ok|]. destruct ls as [|l ls]; [by apply give_all_ok|].
  cbn [reclaim_slaves concat] in *. rewrite <- app_assoc in Hc. destruct (give_all_ok (if busy r then to_pool else to_ring r) l _ m log Hc) as (m1 & log1 & -> & Hc1 & Hs1 & Hl1).
  cbn [mbind res_bind]. destruct (IH ls L m1 log1 Hc1) as (m2 & log2 & -> & Hc2 & Hs2 & Hl2). exists m2, log2. split; [done|]. split; [done|].
  rewrite <- app_assoc. split; [by eapply settled_trans|by eapply same_links_trans].
Qed.

(** A ring that accepts the buffers takes them all; one that refuses has not
    changed anything. *)
Lemma reclaim_ok busy r l L m log : is_Some (rings !! r) -> count (l ++ L) m -> exists ret m' log', reclaim_recv_buffers rings busy r l (m, log) = Ok (ret, (m', log')) /\
  same_links m m' /\ if ret : bool then count L m' /\ settled (l ++ L) L log log' else m' = m /\ log' = log.
Proof.
  intros [k Hr] Hc. unfold reclaim_recv_buffers. rewrite Hr. cbn [must mbind res_bind]. destruct k as [q|rs].
  - destruct (busy r); [by exists false, m, log|]. destruct (give_all_ok (to_ring r) l L m log Hc) as (m' & log' & -> & ? & ? & ?).
    exists true, m', log'. split_and!; done.
  - destruct (devide_ok rs m l 0 (replicate (S (length rs)) [])) as (ls & E & _ & Hp).
    + by rewrite length_replicate.
    + destruct rs; [by left|right; simpl; lia].
    + apply Forall_forall. intros p Hin. destruct (Hc p) as (b & Hb & _); [by apply elem_of_app; left|by exists b].
    + cbn [fst]. rewrite E. cbn [mbind res_bind]. assert (concat (replicate (S (length rs)) []) = @nil ptr) as E0 by (clear; induction (S (length rs)); [done|by simpl]).
      rewrite E0, app_nil_r in Hp. destruct (reclaim_slaves_ok busy rs ls L m log) as (m' & log' & -> & H1 & H2 & H3);
        [eapply counted_perm; [|exact Hc]; by rewrite Hp|]. exists true, m', log'. split; [done|]. split; [done|]. split; [done|].
      by rewrite <- Hp.
Qed.

(** ** Collected buffers *)

Definition collected (r : reuse_info) : list ptr := (map_to_list (m_rx_ring_map r) ≫= fun x => rx_reuse x.2) ++ fst (m_rx_reuse_buff r).

Lemma collected_split r k info : m_rx_ring_map r !! k = Some info ->
  collected r ≡ₚ rx_reuse info ++ collected (set_ring_map (delete k (m_rx_ring_map r)) r) /\
  forall info', collected (set_ring_map (<[k := info']> (m_rx_ring_map r)) r) ≡ₚ rx_reuse info' ++ collected (set_ring_map (delete k (m_rx_ring_map r)) r).
Proof.
  intros Hk. split; [|intros info']; unfold collected; cbn [m_rx_ring_map m_rx_reuse_buff set_ring_map]; rewrite app_assoc; f_equiv.
  - rewrite <- (map_to_list_delete _ _ _ Hk). done.
  - rewrite <- insert_delete_eq, map_to_list_insert by apply lookup_delete_eq. done.
Qed.

(** The collected buffers of a socket, and all that the others hold: no
    collected buffer is anywhere else. *)
Definition lonely (C L : list ptr) : Prop := forall q, q ∈ C -> occ q L = 1%nat.

(** The ring of a buffer. *)
Definition at_home (m : bufs) (k p : ptr) : Prop := exists b o, m !! p = Some b /\ p_desc_owner b = Some o /\ rings !! o = Some (ring_of k).

Record reuse_ok (R : list ptr) (r : reuse_info) (x : heap) : Prop := ReuseOk {
  ro_count : count (collected r ++ R) (fst x);
  ro_lonely : lonely (collected r) (collected r ++ R);
  ro_known : map_Forall (fun k _ => is_Some (rings !! k)) (m_rx_ring_map r);
  ro_ring : forall k, m_p_rx_ring r = Some k -> is_Some (rings !! k);
  ro_buff : m_rx_reuse_buff r = ([], 0);
  ro_home : map_Forall (fun k info => Forall (at_home (fst x) k) (rx_reuse info)) (m_rx_ring_map r)
}.

(** What an operation on the collected buffers leaves; [P] are buffers that
    it is given. *)
Record reuse_step (P R : list ptr) (r : reuse_info) (x : heap) (r' : reuse_info) (x' : heap) : Prop := ReuseStep {
  rs_ok : reuse_ok R r' x';
  rs_settled : settled (collected r ++ P ++ R) (collected r' ++ R) (snd x) (snd x');
  rs_links : same_links (fst x) (fst x');
  rs_rings : dom (m_rx_ring_map r') = dom (m_rx_ring_map r);
  rs_ring : m_p_rx_ring r' = m_p_rx_ring r
}.

Lemma lonely_sub C L C' L' : lonely C L -> (forall q, q ∈ C' -> q ∈ C) -> (forall q, q ∈ C' -> q ∈ L') -> (forall q, (occ q L' <= occ q L)%nat) -> lonely C' L'.
Proof. intros H Hc Hl Ho q Hq. specialize (H q (Hc q Hq)). specialize (Ho q). pose proof (proj2 (occ_elem q L') (Hl q Hq)). lia. Qed.

Lemma reuse_step_trans P R r x r1 x1 r2 x2 : reuse_step P R r x r1 x1 -> reuse_step [] R r1 x1 r2 x2 -> reuse_step P R r x r2 x2.
Proof.
  intros [H1 S1 L1 D1 G1] [H2 S2 L2 D2 G2]. split; [done| | |congruence|congruence]; [by eapply settled_trans|by eapply same_links_trans].
Qed.

Lemma home_links m m' k p : same_links m m' -> at_home m k p -> at_home m' k p.
Proof.
  intros H (b & o & Hb & Ho & Hk). specialize (H p). rewrite Hb in H. destruct (m' !! p) as [b'|] eqn:Hb'; [|done]. simpl in H. injection H as _ Ho'.
  exists b', o. split_and!; [done|congruence|done].
Qed.

Lemma home_same m m' r : same_links m m' -> map_Forall (fun k info => Forall (at_home m k) (rx_reuse info)) (m_rx_ring_map r) ->
  map_Forall (fun k info => Forall (at_home m' k) (rx_reuse info)) (m_rx_ring_map r).
Proof. intros Hl H k info Hk. eapply Forall_impl; [by apply (H k info)|]. intros p. by apply home_links. Qed.

(** The buffers of one ring go: to the ring, or to the pool. *)
Lemma reuse_emptied R r k info info' x m' log' b1 b2 : reuse_ok R r x -> m_rx_ring_map r !! k = Some info -> rx_reuse info' = [] ->
  count (collected (set_ring_map (delete k (m_rx_ring_map r)) r) ++ R) m' ->
  settled (rx_reuse info ++ collected (set_ring_map (delete k (m_rx_ring_map r)) r) ++ R) (collected (set_ring_map (delete k (m_rx_ring_map r)) r) ++ R) (snd x) log' ->
  same_links (fst x) m' ->
  reuse_step [] R r x (set_postponed b1 (set_pending b2 (set_ring_map (<[k := info']> (m_rx_ring_map r)) r))) (m', log').
Proof.
  intros [Hc Hl Hk Hg Hb Hh] Hinfo E Hc' Hs Hlk. destruct (collected_split r k info Hinfo) as [P1 P2]. specialize (P2 info'). rewrite E in P2. simpl in P2.
  set (rest := collected (set_ring_map (delete k (m_rx_ring_map r)) r)) in *.
  change (collected (set_postponed b1 (set_pending b2 (set_ring_map (<[k := info']> (m_rx_ring_map r)) r))))
    with (collected (set_ring_map (<[k := info']> (m_rx_ring_map r)) r)).
  split; [split| | | |]; cbn [fst snd].
  - eapply counted_perm; [|exact Hc']. change (rest ++ R ≡ₚ collected (set_ring_map (<[k := info']> (m_rx_ring_map r)) r) ++ R). by rewrite P2.
  - eapply lonely_sub; [exact Hl|..]; change (collected (set_postponed _ _)) with (collected (set_ring_map (<[k := info']> (m_rx_ring_map r)) r)); intros q.
    + rewrite P2, P1. intros. apply elem_of_app. by right.
    + intros. apply elem_of_app. by left.
    + rewrite P2, P1, !occ_app. lia.
  - intros j i Hj. simpl in Hj. apply lookup_insert_Some in Hj as [[<- _]|[_ Hj]]; [by apply (Hk k info)|by apply (Hk j i)].
  - done.
  - done.
  - intros j i Hj. simpl in Hj. apply lookup_insert_Some in Hj as [[_ <-]|[_ Hj]]; [by rewrite E|]. eapply Forall_impl; [by apply (Hh j i)|]. intros p. by apply home_links.
  - change (collected (set_postponed _ _)) with (collected (set_ring_map (<[k := info']> (m_rx_ring_map r)) r)). cbn [app]. by rewrite P1, P2, <- app_assoc.
  - done.
  - simpl. rewrite dom_insert_L. assert (k ∈ dom (m_rx_ring_map r)) by (by apply elem_of_dom_2 in Hinfo). set_solver.
  - done.
Qed.

Lemma reuse_ok_flags R r x b1 b2 : reuse_ok R r x -> reuse_ok R (set_postponed b1 (set_pending b2 r)) x.
Proof. by intros []; split. Qed.

Lemma reuse_step_refl R r x b1 b2 : reuse_ok R r x -> reuse_step [] R r x (set_postponed b1 (set_pending b2 r)) x.
Proof. intros H. split; [by apply reuse_ok_flags|by apply settled_refl|done..]. Qed.

Lemma reuse_step_same R r x : reuse_ok R r x -> reuse_step [] R r x r x.
Proof. intros H. split; [done|by apply settled_refl|done..]. Qed.

(** One more buffer, which nobody else has. *)
Lemma reuse_pushed R r k info info' x p b1 b2 : reuse_ok (p :: R) r x -> p ∉ collected r ++ R -> m_rx_ring_map r !! k = Some info ->
  rx_reuse info' = rx_reuse info ++ [p] -> at_home (fst x) k p ->
  reuse_step [p] R r x (set_postponed b1 (set_pending b2 (set_ring_map (<[k := info']> (m_rx_ring_map r)) r))) x.
Proof.
  intros [Hc Hl Hk Hg Hb Hh] Hp Hinfo E Hpk. destruct (collected_split r k info Hinfo) as [P1 P2]. specialize (P2 info'). rewrite E in P2.
  set (r' := set_postponed b1 _). assert (collected r' ≡ₚ p :: collected r) as P.
  { change (collected r') with (collected (set_ring_map (<[k := info']> (m_rx_ring_map r)) r)). rewrite P2, P1, <- app_assoc. simpl. by rewrite Permutation_middle. }
  assert (collected r' ++ R ≡ₚ collected r ++ p :: R) as PR by (rewrite P; simpl; by rewrite Permutation_middle).
  split; [split| | | |].
  - eapply counted_perm; [by symmetry|done].
  - intros q. rewrite PR, P, elem_of_cons, occ_app, occ_cons. rewrite elem_of_app in Hp. intros [->|Hq].
    + rewrite decide_True by done. assert (occ p (collected r) = 0%nat) by (apply occ_not_elem; naive_solver). assert (occ p R = 0%nat) by (apply occ_not_elem; naive_solver). lia.
    + specialize (Hl q Hq). by rewrite occ_app, occ_cons in Hl.
  - intros j i Hj. simpl in Hj. apply lookup_insert_Some in Hj as [[<- _]|[_ Hj]]; [by apply (Hk k info)|by apply (Hk j i)].
  - done.
  - done.
  - intros j i Hj. simpl in Hj. apply lookup_insert_Some in Hj as [[<- <-]|[_ Hj]]; [|by apply (Hh j i)]. rewrite E. apply Forall_app. split; [by apply (Hh k info)|by constructor].
  - apply settled_refl. by rewrite PR.
  - done.
  - simpl. rewrite dom_insert_L. assert (k ∈ dom (m_rx_ring_map r)) by (by apply elem_of_dom_2 in Hinfo). set_solver.
  - done.
Qed.

(** To the ring if it is free, else to the pool. *)
Lemma hand_over_ok busy k l L m log : is_Some (rings !! k) -> count (l ++ L) m -> exists m' log',
  (y ← reclaim_recv_buffers rings busy k l (m, log); let '(ret, x) := y : bool * heap in if ret then Ok x else give_all to_pool l x) = Ok (m', log') /\
  count L m' /\ settled (l ++ L) L log log' /\ same_links m m'.
Proof.
  intros Hk Hc. destruct (reclaim_ok busy k l L m log Hk Hc) as (ret & m1 & log1 & -> & Hl & H). cbn [mbind res_bind].
  destruct ret; [destruct H; by exists m1, log1|]. destruct H as [-> ->]. by apply give_all_ok.
Qed.

Section Buffers.
Context (batch : Z) (descs : gmap ptr rx_desc) (busy : ptr -> bool).

Lemma get_parent_ok r k : rings !! r = Some (ring_of k) -> get_parent rings r = Ok k.
Proof. intros E. unfold get_parent. by rewrite E. Qed.

Lemma base_reuse_buffer_ok R p r x : reuse_ok (p :: R) r x -> p ∉ collected r ++ R -> is_Some (descs !! p) ->
  exists r' x', base_reuse_buffer rings batch descs busy p r x = Ok (r', x') /\ reuse_step [p] R r x r' x'.
Proof.
  intros H Hp [d Hd]. destruct x as [m log]. pose proof (ro_count _ _ _ H) as Hc. simpl in Hc. destruct (Hc p) as (b & Hb & _ & _ & _ & o & Ho & k & Hk0); [set_solver|].
  unfold base_reuse_buffer, load. cbn [fst]. rewrite Hb. cbn [must mbind res_bind]. rewrite Ho. cbn [must mbind res_bind].
  rewrite (get_parent_ok o k Hk0). cbn [mbind res_bind m_rx_ring_map set_pending]. destruct (m_rx_ring_map r !! k) as [info|] eqn:Hk.
  - rewrite Hd. cbn [must mbind res_bind]. set (l := rx_reuse info ++ [p]). set (n := i32 _). set (info1 := RingInfo (refcnt info) l n).
    assert (forall b1 b2, reuse_step [p] R r (m, log) (set_postponed b1 (set_pending b2 (set_ring_map (<[k := info1]> (m_rx_ring_map r)) r))) (m, log)) as Hpush
      by (intros; eapply reuse_pushed; try done; by exists b, o).
    destruct (n <? batch); [eexists _, _; split; [done|]; apply (Hpush (m_rx_reuse_buf_postponed r) false)|].
    destruct (2 * batch <=? n); [|eexists _, _; split; [done|]; apply (Hpush true false)].
    pose proof (Hpush false false) as Hst. set (r1 := set_postponed _ _) in Hst. pose proof (rs_ok _ _ _ _ _ _ Hst) as H1.
    assert (m_rx_ring_map r1 !! k = Some info1) as Hk1 by apply lookup_insert_eq. destruct (collected_split r1 k info1 Hk1) as [P1 _].
    destruct (hand_over_ok busy k l (collected (set_ring_map (delete k (m_rx_ring_map r1)) r1) ++ R) m log) as (m' & log' & E & C' & S' & L').
    { by apply (ro_known _ _ _ H1 k info1). }
    { eapply counted_perm; [|apply (ro_count _ _ _ H1)]. by rewrite P1, <- app_assoc. }
    assert ((y ← reclaim_recv_buffers rings busy k l (m, log); let '(ret, x) := y : bool * heap in x ← (if ret then Ok x else give_all to_pool l x);
      Ok (set_postponed false (set_ring_map (<[k := RingInfo (refcnt info) [] 0]> (m_rx_ring_map r)) (set_pending false r)), x)) =
      Ok (set_postponed false (set_ring_map (<[k := RingInfo (refcnt info) [] 0]> (m_rx_ring_map r)) (set_pending false r)), (m', log'))) as ->.
    { destruct (reclaim_recv_buffers rings busy k l (m, log)) as [[ret y]| | |]; try done. cbn [mbind res_bind] in *. by rewrite E. }
    eexists _, _. split; [done|]. eapply reuse_step_trans; [exact Hst|].
    pose proof (reuse_emptied R r1 k info1 (RingInfo (refcnt info) [] 0) (m, log) m' log' false false H1 Hk1 eq_refl C' S' L') as He.
    assert (<[k := RingInfo (refcnt info) [] 0]> (m_rx_ring_map r1) = <[k := RingInfo (refcnt info) [] 0]> (m_rx_ring_map r)) as Ei by apply insert_insert_eq.
    rewrite Ei in He. exact He.
  - destruct (give_back_ok to_pool p (collected r ++ R) m log) as (m' & -> & C' & L').
    { eapply counted_perm; [|exact Hc]. by rewrite Permutation_middle. }
    cbn [mbind res_bind]. rewrite decide_False by done. eexists _, _. split; [done|]. destruct H as [_ Hl Hkn Hg Hbf Hh]. split; [split| | | |]; try done; try (by eapply home_same).
    + eapply lonely_sub; [exact Hl|done|intros; apply elem_of_app; by left|]. intros q. change (collected (set_pending false r)) with (collected r).
      rewrite !occ_app, occ_cons. lia.
    + pose proof (settled_drop to_pool p (collected r ++ R) log) as Hs. rewrite decide_False in Hs by done. cbn [app].
      by rewrite Permutation_middle in Hs.
Qed.

(** The store of [x] with another one: [m'] has one count less for [p] and
    one more. *)
Lemma reuse_buffer_ok R p r x : reuse_ok (p :: R) r x -> is_Some (descs !! p) ->
  exists r' x', reuse_buffer rings batch descs busy p r x = Ok (r', x') /\ reuse_step [p] R r x r' x'.
Proof.
  intros H Hd. destruct x as [m log]. pose proof (ro_count _ _ _ H) as Hc. cbn [fst] in Hc. destruct (Hc p) as (b & Hb & Hn & Hlt & Hr & Hk); [set_solver|].
  assert (p :: collected r ++ R ≡ₚ collected r ++ p :: R) as HP by apply Permutation_middle.
  rewrite <- HP, occ_cons, decide_True in Hn, Hlt by done. unfold reuse_buffer, dec_ref_count, load. cbn [fst snd]. rewrite Hb. cbn [must mbind res_bind].
  rewrite swrap_small by lia. destruct (Z.leb_spec (n_ref_count b) 1).
  - assert (p ∉ collected r ++ R) as Hp by (apply occ_not_elem; lia). unfold inc_ref_count, store, load. rewrite lookup_insert_eq. cbn [must mbind res_bind].
    rewrite insert_insert_eq. cbn [n_ref_count set_ref_count]. rewrite swrap_small by lia. replace (n_ref_count b - 1 + 1) with (n_ref_count b) by lia.
    assert (set_ref_count (n_ref_count b) (set_ref_count (n_ref_count b - 1) b) = b) as -> by (by destruct b). rewrite insert_id by done. by apply base_reuse_buffer_ok.
  - eexists _, _. split; [done|]. assert (p ∈ collected r ++ R) as Hp by (apply occ_elem; lia).
    destruct (count_drop p (collected r ++ R) m b (set_ref_count (n_ref_count b - 1) b)) as [C' L']; try done.
    { eapply counted_perm; [|exact Hc]. done. }
    destruct H as [_ Hl Hkn Hg Hbf Hh]. split; [split| | | |]; try done; try (by eapply home_same).
    + eapply lonely_sub; [exact Hl|done|intros; apply elem_of_app; by left|]. intros q. rewrite !occ_app, occ_cons. lia.
    + cbn [app]. rewrite <- HP. apply settled_kept; intros q; [rewrite occ_cons; lia|]. rewrite elem_of_cons. naive_solver.
Qed.

(** [return_rings] over a part of the map. *)
Lemma return_rings_ok R l : NoDup l.*1 -> forall r x, reuse_ok R r x -> Forall (fun e => m_rx_ring_map r !! e.1 = Some e.2) l ->
  exists r' x', return_rings rings batch busy l r x = Ok (r', x') /\ reuse_step [] R r x r' x'.
Proof.
  induction l as [|[k info] l IH]; intros Hnd r x H Hl; [exists r, x; split; [done|by apply reuse_step_same]|].
  apply NoDup_cons in Hnd as [Hk Hnd]. apply Forall_cons in Hl as [Hinfo Hl]. cbn [fst snd] in Hinfo. cbn [return_rings]. destruct (batch <=? n_buff_num info); [|by apply IH].
  destruct x as [m log]. destruct (collected_split r k info Hinfo) as [P1 _].
  destruct (reclaim_ok busy k (rx_reuse info) (collected (set_ring_map (delete k (m_rx_ring_map r)) r) ++ R) m log) as (ret & m' & log' & -> & L' & Hret).
  { by apply (ro_known _ _ _ H k info). }
  { eapply counted_perm; [|apply (ro_count _ _ _ H)]. by rewrite P1, <- app_assoc. }
  cbn [mbind res_bind]. destruct ret.
  - destruct Hret as [C' S']. pose proof (reuse_emptied R r k info (RingInfo (refcnt info) [] 0) (m, log) m' log' (m_rx_reuse_buf_postponed r) (m_rx_reuse_buf_pending r) H Hinfo eq_refl C' S' L') as He.
    change (set_postponed _ (set_pending _ (set_ring_map ?f r))) with (set_ring_map f r) in He.
    destruct (IH Hnd (set_ring_map (<[k := RingInfo (refcnt info) [] 0]> (m_rx_ring_map r)) r) (m', log')) as (r2 & x2 & -> & H2).
    + apply (rs_ok _ _ _ _ _ _ He).
    + rewrite Forall_forall in *. intros [k' i'] Hin. specialize (Hl _ Hin). simpl in *. rewrite lookup_insert_ne; [done|]. intros ->. apply Hk.
      apply list_elem_of_fmap. by exists (k', i').
    + exists r2, x2. split; [done|]. by eapply reuse_step_trans.
  - destruct Hret as [-> ->]. pose proof (reuse_step_refl R r (m, log) true (m_rx_reuse_buf_pending r) H) as He.
    change (set_postponed true (set_pending _ r)) with (set_postponed true r) in He.
    destruct (IH Hnd (set_postponed true r) (m, log)) as (r2 & x2 & -> & H2); [apply (rs_ok _ _ _ _ _ _ He)|done|]. exists r2, x2. split; [done|]. by eapply reuse_step_trans.
Qed.

Lemma return_postponed_ok R r x : reuse_ok R r x ->
  exists r' x', return_reuse_buffers_postponed rings batch busy r x = Ok (r', x') /\ reuse_step [] R r x r' x'.
Proof.
  intros H. unfold return_reuse_buffers_postponed. destruct (m_rx_reuse_buf_postponed r); cbn [negb]; [|exists r, x; split; [done|by apply reuse_step_same]].
  set (r1 := set_postponed false (set_pending false r)). pose proof (reuse_step_refl R r x false false H) as H1. fold r1 in H1. pose proof (rs_ok _ _ _ _ _ _ H1) as Hr1.
  destruct (m_p_rx_ring r1) as [k|] eqn:Hk.
  - destruct (batch <=? _); [|by exists r1, x]. rewrite (ro_buff _ _ _ Hr1). cbn [fst]. destruct x as [m log].
    destruct (reclaim_ok busy k [] (collected r1 ++ R) m log) as (ret & m' & log' & -> & L' & Hret); [by eapply ro_ring|apply (ro_count _ _ _ Hr1)|].
    cbn [mbind res_bind]. eexists _, _. split; [done|]. eapply reuse_step_trans; [exact H1|]. destruct ret.
    + destruct Hret as [C' S']. assert (collected (set_reuse_buff ([], 0) r1) = collected r1) as E by (unfold collected; by rewrite (ro_buff _ _ _ Hr1)).
      destruct Hr1 as [_ Hl Hkn Hg Hbf Hh]. split; [split| | | |]; rewrite ?E; try done. by eapply home_same.
    + destruct Hret as [-> ->]. exact (reuse_step_refl R r1 (m, log) true false Hr1).
  - destruct (return_rings_ok R (map_to_list (m_rx_ring_map r1)) (NoDup_fst_map_to_list _) r1 x Hr1) as (r' & x' & -> & H2).
    + apply Forall_forall. intros [k i] Hin. by apply elem_of_map_to_list in Hin.
    + exists r', x'. split; [done|]. by eapply reuse_step_trans.
Qed.

End Buffers.

End Conserve.

(** ** One socket *)

Lemma wrap_sub w x y : wrap w (wrap w x - y) = wrap w (x - y).
Proof. apply Zminus_mod_idemp_l. Qed.

Lemma wrap_add w x y : wrap w (wrap w x + y) = wrap w (x + y).
Proof. apply Zplus_mod_idemp_l. Qed.

Lemma swrap_add w x y : swrap w (swrap w x + y) = swrap w (x + y).
Proof.
  unfold swrap. replace ((x + 2 ^ (w - 1)) mod 2 ^ w - 2 ^ (w - 1) + y + 2 ^ (w - 1)) with ((x + 2 ^ (w - 1)) mod 2 ^ w + y) by lia.
  rewrite Zplus_mod_idemp_l. do 2 f_equal. lia.
Qed.

(** The counters say [n] packets and [b] bytes. *)
Definition counters_at (n b : Z) (q : ready_queue) : Prop :=
  m_n_rx_pkt_ready_list_count q = i32 n /\ m_rx_ready_byte_count q = u64 b /\ n_rx_ready_pkt_count q = u32 n /\ n_rx_ready_byte_count q = u32 b.

Lemma counters_sub n b k q : counters_at n b q -> counters_at n (b - k) (sub_bytes k q).
Proof. intros (H1 & H2 & H3 & H4). unfold counters_at, sub_bytes. simpl. by rewrite H2, H4, !wrap_sub. Qed.

Lemma counters_pop n b l q : counters_at n b q -> counters_at (n - 1) b (popped l q).
Proof.
  intros (H1 & H2 & H3 & H4). unfold counters_at, popped. simpl. rewrite H1, H3, wrap_sub. split_and!; try done. apply (swrap_add 32 n (-1)).
Qed.

Lemma counters_push n b k l q : counters_at n b q ->
  counters_at (n + 1) (b + k) (set_ready l (i32 (m_n_rx_pkt_ready_list_count q + 1)) (u64 (m_rx_ready_byte_count q + k)) (u32 (n_rx_ready_pkt_count q + 1)) (u32 (n_rx_ready_byte_count q + k)) q).
Proof. intros (H1 & H2 & H3 & H4). unfold counters_at. simpl. by rewrite H1, H2, H3, H4, swrap_add, !wrap_add. Qed.

Definition ready (s : udp_socket) : list ptr := m_rx_pkt_ready_list (queue s).
Definition holding (s : udp_socket) : list ptr := collected (reuse s) ++ ready s.

Section Socket.
Context (rings : gmap ptr ring_kind) (batch : Z) (busy : ptr -> bool) (descs : gmap ptr rx_desc) (buffer : ptr -> list Z).

Definition sz (p : ptr) : Z := match descs !! p with Some d => sz_payload d | None => 0 end.
Definition bytes (l : list ptr) : Z := sumZ (sz <$> l).

(** The counters agree with the queue. *)
Definition counters_ok (q : ready_queue) : Prop :=
  counters_at (Z.of_nat (length (m_rx_pkt_ready_list q))) (bytes (m_rx_pkt_ready_list q)) q /\ m_rx_pkt_ready_offset q = 0.

(** A datagram in the buffers from [p] on, of which the buffers have all
    bytes or less. *)
Definition datagram (m : bufs) (p : ptr) (d : rx_desc) (l : list ptr) : Prop :=
  descs !! p = Some d /\ chain m (Some p) (p :: l) /\ frags_ok descs buffer (p :: l) /\
  Z.of_nat (length (payload descs buffer (p :: l))) <= sz_payload d < 2 ^ 31.

(** What a call leaves, where the buffers [R] are held by others before and
    [R'] after it. *)
Record sock_step (R : list ptr) (s : udp_socket) (x : heap) (R' : list ptr) (s' : udp_socket) (x' : heap) : Prop := SockStep {
  ss_reuse : reuse_ok rings (ready s' ++ R') (reuse s') x';
  ss_counters : counters_ok (queue s');
  ss_settled : settled (holding s ++ R) (holding s' ++ R') (snd x) (snd x');
  ss_links : same_links (fst x) (fst x');
  ss_opts : opts s' = opts s
}.

Lemma sock_step_trans R s x R1 s1 x1 R2 s2 x2 : sock_step R s x R1 s1 x1 -> sock_step R1 s1 x1 R2 s2 x2 -> sock_step R s x R2 s2 x2.
Proof. intros [A B C D E] [A' B' C' D' E']. split; [done|done|by eapply settled_trans|by eapply same_links_trans|congruence]. Qed.

Lemma bytes_cons p l : bytes (p :: l) = sz p + bytes l.
Proof. done. Qed.

Lemma bytes_app l k : bytes (l ++ k) = bytes l + bytes k.
Proof. induction l as [|p l IH]; [done|]. change ((p :: l) ++ k) with (p :: l ++ k). rewrite !bytes_cons, IH. lia. Qed.

#[local] Instance bytes_perm : Proper ((≡ₚ) ==> eq) bytes.
Proof. intros l k H. induction H; rewrite ?bytes_cons in *; lia. Qed.

(** A call on the collected buffers that is given the front of the queue. *)
Lemma sock_step_reuse P R s x q r' x' : reuse_step rings P (m_rx_pkt_ready_list q ++ R) (reuse s) x r' x' -> ready s ≡ₚ P ++ m_rx_pkt_ready_list q -> counters_ok q ->
  sock_step R s x R (set_reuse r' (set_rq q s)) x'.
Proof.
  intros [H1 H2 H3 H4 H5] HP Hq. split; [done|done| |done|done]. unfold holding, ready. simpl. rewrite <- !app_assoc. fold (ready s).
  rewrite HP. by rewrite <- !app_assoc.
Qed.

Lemma drop_loop_ok R : forall fuel s x, reuse_ok rings (ready s ++ R) (reuse s) x -> counters_ok (queue s) -> Forall (fun p => is_Some (descs !! p)) (ready s) ->
  (length (ready s) < fuel)%nat -> exists k s' x', drop_loop rings batch descs busy fuel s x = Ok (s', x') /\ sock_step R s x R s' x' /\
    ready s' = drop k (ready s) /\ n_rx_ready_byte_limit (queue s') = n_rx_ready_byte_limit (queue s) /\ n_rx_zcopy_pkt_count (queue s') = n_rx_zcopy_pkt_count (queue s) /\
    (n_rx_ready_byte_count (queue s') <= n_rx_ready_byte_limit (queue s') \/ m_n_rx_pkt_ready_list_count (queue s') = 0) /\
    (forall j, (j < k)%nat -> n_rx_ready_byte_limit (queue s) < u32 (bytes (drop j (ready s)))).
Proof.
  induction fuel as [|fuel IH]; intros s x Hr Hc Hd Hf; [lia|]. cbn [drop_loop].
  assert (sock_step R s x R s x) as Hrefl by (split; [done|done|by apply settled_refl|done|done]).
  destruct (Z.ltb_spec (n_rx_ready_byte_limit (queue s)) (n_rx_ready_byte_count (queue s))) as [Hlt|Hge].
  2: { exists 0%nat, s, x. split_and!; try done; [by left|lia]. }
  destruct (Z.eqb_spec (m_n_rx_pkt_ready_list_count (queue s)) 0) as [E0|Hn]; [exists 0%nat, s, x; split_and!; try done; [by right|lia]|].
  destruct Hc as [Hc Ho]. pose proof Hc as (C1 & _ & _ & C4). fold (ready s) in *. destruct (ready s) as [|p l] eqn:El; [by rewrite C1 in Hn|].
  apply Forall_cons in Hd as [[d Hp] Hd]. cbn [head tail must mbind res_bind]. rewrite Hp. cbn [must mbind res_bind].
  set (q := sub_bytes _ _). assert (m_rx_pkt_ready_list q = l) as Eq by done.
  assert (counters_ok q) as Hq.
  { split; [|done]. rewrite Eq. pose proof (counters_sub _ _ (sz_payload d) _ (counters_pop _ _ l _ Hc)) as H. fold q in H.
    rewrite bytes_cons in H. unfold sz in H. rewrite Hp in H. simpl length in H. replace (Z.of_nat (S (length l)) - 1) with (Z.of_nat (length l)) in H by lia.
    by replace (sz_payload d + bytes l - sz_payload d) with (bytes l) in H by lia. }
  destruct (reuse_buffer_ok rings batch descs busy (l ++ R) p (reuse s) x) as (r1 & x1 & -> & H1); [done|by exists d|]. cbn [mbind res_bind fst snd].
  destruct (return_postponed_ok rings batch busy (l ++ R) r1 x1) as (r2 & x2 & -> & H2); [apply H1|]. cbn [mbind res_bind fst snd].
  assert (sock_step R s x R (set_reuse r2 (set_rq q s)) x2) as Hs1.
  { eapply (sock_step_reuse [p]); [rewrite Eq; by eapply reuse_step_trans|by rewrite El, Eq|done]. }
  destruct (IH (set_reuse r2 (set_rq q s)) x2) as (k & s' & x' & -> & Hs2 & K1 & K2 & K3 & K4 & K5); [apply Hs1|done|done|change (length l < fuel)%nat; simpl in Hf; lia|].
  exists (S k), s', x'. split; [done|]. split; [by eapply sock_step_trans|]. split_and!; try done.
  intros [|j] Hj; [rewrite drop_0, <- C4; lia|]. apply (K5 j). lia.
Qed.

(** ** Reading a datagram *)

(** What a read returns: the number of bytes, or the size of the datagram if
    the caller asks for it; and if bytes were left out. *)
Definition read_ret (n in_flags : Z) (d : rx_desc) : Z := if (n <? sz_payload d) && has_flag in_flags MSG_TRUNC then sz_payload d else n.
Definition read_flags (n flags : Z) (d : rx_desc) : Z := if n <? sz_payload d then Z.lor flags MSG_TRUNC else flags.

Lemma handle_trunc_ok n in_flags flags d q : sz_payload d < 2 ^ 31 -> 0 <= n -> handle_msg_trunc n (sz_payload d) in_flags flags q =
  (read_ret n in_flags d, read_flags n flags d, if n <? sz_payload d then sub_bytes (sz_payload d - n) q else q).
Proof.
  intros Hsz Hn. unfold handle_msg_trunc, read_ret, read_flags. destruct (Z.ltb_spec n (sz_payload d)); [|done]. rewrite swrap_small by lia.
  by destruct (has_flag in_flags MSG_TRUNC).
Qed.

Lemma payload_length_take (l : list ptr) k : frags_ok descs buffer l -> (length (payload descs buffer (take k l)) <= length (payload descs buffer l))%nat.
Proof.
  intros _. rewrite <- (take_drop k l) at 2. unfold payload. rewrite bind_app, length_app. lia.
Qed.

Lemma zero_copy_loop_spec m l : forall fuel o len total, chain m o l -> frags_ok descs buffer l -> 0 <= len < 2 ^ 31 -> 0 <= total ->
  total + Z.of_nat (length (payload descs buffer l)) < 2 ^ 31 -> (length l < fuel)%nat -> zero_copy_loop descs fuel m len o total =
  Ok (take (Z.to_nat (len / 16)) l, total + Z.of_nat (length (payload descs buffer (take (Z.to_nat (len / 16)) l))), bool_decide (len / 16 < Z.of_nat (length l))).
Proof.
  induction l as [|p l IH]; intros fuel o len total Hch Hfr Hlen Ht Htot Hf.
  - simpl in Hch. subst o. rewrite take_nil. destruct fuel; cbn [zero_copy_loop]; rewrite bool_decide_false by (simpl; pose proof (Z.div_pos len 16); lia);
      do 3 f_equal; simpl; lia.
  - destruct Hch as (-> & b & Hb & Hch). apply Forall_cons in Hfr as [(d & Hd & F1 & F2 & F3) Hfr]. destruct fuel as [|fuel]; simpl in Hf; [lia|].
    cbn [zero_copy_loop]. rewrite swrap_small by lia. destruct (Z.ltb_spec (len - 16) 0).
    + rewrite (Z.div_small len 16) by lia. rewrite bool_decide_true by (simpl; lia). simpl. do 3 f_equal. lia.
    + rewrite Hd. unfold load. rewrite Hb. cbn [must mbind res_bind].
      rewrite (payload_cons _ _ p d l Hd), length_app, length_slice in Htot by lia.
      assert (len / 16 = (len - 16) / 16 + 1) as E by (replace len with (len - 16 + 1 * 16) at 1 by lia; apply Z.div_add; lia).
      pose proof (Z.div_pos (len - 16) 16 ltac:(lia) ltac:(lia)).
      rewrite swrap_small by lia. rewrite (IH fuel (p_next_desc b) (len - 16) (total + iov_len d)) by (done || lia). cbn [mbind res_bind].
      rewrite E, Z2Nat.inj_add by lia. replace (Z.to_nat ((len - 16) / 16) + Z.to_nat 1)%nat with (S (Z.to_nat ((len - 16) / 16))) by lia. cbn [take].
      rewrite (payload_cons _ _ p d (take _ l) Hd), length_app, length_slice by lia. cbn [length].
      assert (bool_decide ((len - 16) / 16 < Z.of_nat (length l)) = bool_decide ((len - 16) / 16 + 1 < Z.of_nat (S (length l)))) as -> by (apply bool_decide_ext; lia).
      do 3 f_equal. lia.
Qed.

(** The bytes that are handed out, and how many. *)
Definition room (n : Z) : nat := Z.to_nat ((n - 24) / 16).
Definition data_of (in_flags : Z) (iovs : list Z) (p : ptr) (l : list ptr) : received_data :=
  if has_flag in_flags MSG_VMA_ZCOPY then zero_copied p (take (room (default 0 (head iovs))) (p :: l)) else copied (chunks iovs (payload descs buffer (p :: l))).
Definition count_of (in_flags : Z) (iovs : list Z) (p : ptr) (l : list ptr) : Z :=
  if has_flag in_flags MSG_VMA_ZCOPY then Z.of_nat (length (payload descs buffer (take (room (default 0 (head iovs))) (p :: l))))
  else Z.min (sumZ iovs) (Z.of_nat (length (payload descs buffer (p :: l)))).
Definition flags_of (in_flags : Z) (iovs : list Z) (l : list ptr) : Z :=
  if has_flag in_flags MSG_VMA_ZCOPY && bool_decide (room (default 0%Z (head iovs)) <= length l)%nat then MSG_TRUNC else 0.

(** The buffers of the application are of a sensible size; for zero copy the
    first one has room for the header. *)
Definition iovs_ok (in_flags : Z) (iovs : list Z) : Prop :=
  if has_flag in_flags MSG_VMA_ZCOPY then exists n, head iovs = Some n /\ 24 <= n < 2 ^ 31 else Forall (fun n => 0 <= n < 2 ^ 32) iovs.

Lemma count_of_range in_flags iovs p l : iovs_ok in_flags iovs -> frags_ok descs buffer (p :: l) ->
  0 <= count_of in_flags iovs p l <= Z.of_nat (length (payload descs buffer (p :: l))).
Proof.
  unfold iovs_ok, count_of. destruct (has_flag _ _); intros Hio Hfr.
  - pose proof (payload_length_take (p :: l) (room (default 0 (head iovs))) Hfr). lia.
  - pose proof (sumZ_nonneg iovs Hio). lia.
Qed.

Lemma copy_packet_ok m p d l iovs in_flags q : iovs_ok in_flags iovs -> datagram m p d l -> m_rx_pkt_ready_offset q = 0 -> exists q',
  copy_packet descs buffer m p d iovs in_flags q = Ok (Some (data_of in_flags iovs p l, count_of in_flags iovs p l, flags_of in_flags iovs l, q')) /\
  exists o z, q' = set_offset o (set_zcopy z q) /\ z = (if has_flag in_flags MSG_VMA_ZCOPY then u32 (n_rx_zcopy_pkt_count q + 1) else n_rx_zcopy_pkt_count q).
Proof.
  intros Hio (Hd & Hch & Hfr & Hsz) Ho. unfold copy_packet, data_of, count_of, flags_of, iovs_ok in *. destruct (has_flag in_flags MSG_VMA_ZCOPY).
  - destruct Hio as (n & Hn & Hr). rewrite Hn. cbn [must mbind res_bind default from_option]. replace (n - 8 - 16) with (n - 24) by lia. rewrite swrap_small by lia.
    destruct (Z.ltb_spec (n - 24) 0); [lia|]. pose proof (chain_size _ _ _ Hch). rewrite (zero_copy_loop_spec m (p :: l)) by (done || lia). cbn [mbind res_bind].
    pose proof (Z.div_pos (n - 24) 16 ltac:(lia) ltac:(lia)).
    assert (bool_decide ((n - 24) / 16 < Z.of_nat (length (p :: l))) = bool_decide (room n <= length l)%nat) as ->
      by (apply bool_decide_ext; unfold room; simpl; lia).
    eexists. split; [by rewrite andb_true_l, Z.add_0_l|by eexists _, _].
  - rewrite Ho. destruct (fill_datagram descs buffer m iovs p d l) as (c & -> & T); [done..|lia|]. cbn [mbind res_bind fst snd]. rewrite T.
    eexists. split; [done|]. exists (offset c), (n_rx_zcopy_pkt_count q). split; [|done]. by destruct q.
Qed.

Lemma reuse_ok_perm R R' r x : R ≡ₚ R' -> reuse_ok rings R r x -> reuse_ok rings R' r x.
Proof.
  intros HR [Hc Hl Hk Hg Hb Hh]. split; try done; [|intros q; rewrite <- HR; apply Hl]. eapply counted_perm; [|done]. by rewrite HR.
Qed.

(** The counters after a read of [n] bytes of the datagram [p]. *)
Lemma read_counters q p d rest n o z : counters_ok q -> m_rx_pkt_ready_list q = p :: rest -> descs !! p = Some d -> n <= sz_payload d ->
  let q1 := set_offset 0 (popped rest (sub_bytes n (set_offset o (set_zcopy z q)))) in
  counters_ok (if n <? sz_payload d then sub_bytes (sz_payload d - n) q1 else q1).
Proof.
  intros [Hc Ho] El Hd Hn q1. rewrite El, bytes_cons in Hc. unfold sz in Hc. rewrite Hd in Hc. simpl length in Hc.
  assert (counters_at (Z.of_nat (length rest)) (bytes rest + (sz_payload d - n)) q1) as H1.
  { replace (Z.of_nat (length rest)) with (Z.of_nat (S (length rest)) - 1) by lia.
    replace (bytes rest + (sz_payload d - n)) with (sz_payload d + bytes rest - n) by lia. by apply (counters_pop _ _ rest), (counters_sub _ _ n). }
  destruct (Z.ltb_spec n (sz_payload d)).
  - split; [|done]. replace (bytes _) with (bytes rest + (sz_payload d - n) - (sz_payload d - n)) by (simpl; lia). by apply counters_sub.
  - split; [|done]. by replace (bytes rest + (sz_payload d - n)) with (bytes rest) in H1 by lia.
Qed.

Lemma dequeue_ok R s x p rest d l iovs in_flags : ready s = p :: rest -> reuse_ok rings (ready s ++ R) (reuse s) x -> counters_ok (queue s) ->
  datagram (fst x) p d l -> iovs_ok in_flags iovs -> has_flag in_flags MSG_PEEK = false -> exists s' x',
  let n := count_of in_flags iovs p l in
  dequeue_packet descs buffer rings batch busy iovs in_flags s x =
    Ok (Some (RxResult (read_ret n in_flags d) (data_of in_flags iovs p l) (src_addr d, src_port d) (read_flags n (flags_of in_flags iovs l) d)), s', x') /\
  sock_step R s x (if has_flag in_flags MSG_VMA_ZCOPY then p :: R else R) s' x' /\ ready s' = rest /\
  n_rx_ready_byte_limit (queue s') = n_rx_ready_byte_limit (queue s).
Proof.
  intros El Hr Hc Hdg Hio Hpk. pose proof Hdg as (Hd & Hch & Hfr & Hsz). set (n := count_of in_flags iovs p l).
  destruct (copy_packet_ok (fst x) p d l iovs in_flags (queue s) Hio Hdg (proj2 Hc)) as (q' & Hcp & o & z & Eq' & Ez). fold n in Hcp.
  pose proof (count_of_range in_flags iovs p l Hio Hfr) as Hn. fold n in Hn. clearbody n.
  unfold dequeue_packet. rewrite Hpk. fold (ready s). rewrite El. cbn [head must mbind res_bind]. rewrite Hd. cbn [must mbind res_bind]. rewrite Hcp. cbn [mbind res_bind].
  unfold post_deqeue. assert (m_rx_pkt_ready_list (queue (set_rq (sub_bytes n q') s)) = p :: rest) as -> by (rewrite Eq'; exact El). cbn [head tail must mbind res_bind].
  set (q1 := set_offset 0 _). pose proof (read_counters (queue s) p d rest n o z Hc El Hd ltac:(lia)) as Hq. rewrite <- Eq' in Hq.
  cbv zeta in Hq. change (set_offset 0 (popped rest (sub_bytes n q'))) with q1 in Hq.
  set (qf := if n <? sz_payload d then _ else _) in Hq. assert (m_rx_pkt_ready_list qf = rest) as Erf by (subst qf; by destruct (n <? sz_payload d)).
  assert (n_rx_ready_byte_limit qf = n_rx_ready_byte_limit (queue s)) as Elf by (subst qf q1; rewrite Eq'; by destruct (n <? sz_payload d)).
  assert (forall r1, handle_msg_trunc n (sz_payload d) in_flags (flags_of in_flags iovs l) (queue (set_reuse r1 (set_rq q1 (set_rq (sub_bytes n q') s)))) =
    (read_ret n in_flags d, read_flags n (flags_of in_flags iovs l) d, qf)) as Ht by (intros; apply handle_trunc_ok; lia).
  destruct (has_flag in_flags MSG_VMA_ZCOPY); cbn [negb].
  - cbn [mbind res_bind fst snd reuse set_rq]. rewrite Ht. eexists _, _. split; [done|]. rewrite El in Hr. split; [|by rewrite <- Erf].
    split; [|done| |done|done].
    + simpl. unfold ready. simpl. rewrite Erf. eapply reuse_ok_perm; [|exact Hr]. simpl. by rewrite Permutation_middle.
    + simpl. apply settled_refl. unfold holding, ready. simpl. fold (ready s). rewrite Erf, El, <- !app_assoc. simpl. by rewrite (Permutation_middle rest R p).
  - rewrite El in Hr. destruct (reuse_buffer_ok rings batch descs busy (rest ++ R) p (reuse s) x) as (r1 & x1 & E1 & H1); [done|by exists d|].
    cbn [reuse set_rq]. rewrite E1. cbn [mbind res_bind fst snd]. rewrite Ht. eexists _, _. split; [done|]. split; [|by rewrite <- Erf].
    change (set_rq qf (set_reuse r1 (set_rq q1 (set_rq (sub_bytes n q') s)))) with (set_reuse r1 (set_rq qf s)).
    apply (sock_step_reuse [p]); [by rewrite Erf|by rewrite El, Erf|done].
Qed.

(** A look at the datagram that leaves nothing out changes nothing. *)
Lemma peek_ok s x p rest d l iovs in_flags : ready s = p :: rest -> counters_ok (queue s) -> datagram (fst x) p d l -> iovs_ok in_flags iovs ->
  has_flag in_flags MSG_PEEK = true -> has_flag in_flags MSG_VMA_ZCOPY = false -> sz_payload d <= sumZ iovs -> sz_payload d = Z.of_nat (length (payload descs buffer (p :: l))) ->
  dequeue_packet descs buffer rings batch busy iovs in_flags s x =
    Ok (Some (RxResult (sz_payload d) (copied (chunks iovs (payload descs buffer (p :: l)))) (src_addr d, src_port d) 0), s, x).
Proof.
  intros El Hc Hdg Hio Hpk Hz Hbig Hw. pose proof Hdg as (Hd & Hch & Hfr & Hsz).
  destruct (copy_packet_ok (fst x) p d l iovs in_flags (queue s) Hio Hdg (proj2 Hc)) as (q' & Hcp & o & z & Eq' & Ez). unfold data_of, count_of, flags_of in Hcp.
  rewrite Hz in Hcp, Ez. cbn [andb] in Hcp. replace (Z.min (sumZ iovs) (Z.of_nat (length (payload descs buffer (p :: l))))) with (sz_payload d) in Hcp by lia.
  unfold dequeue_packet. rewrite Hpk. fold (ready s). rewrite El. cbn [head must mbind res_bind]. rewrite Hd. cbn [must mbind res_bind]. rewrite Hcp. cbn [mbind res_bind].
  rewrite handle_trunc_ok by lia. unfold read_ret, read_flags. rewrite Z.ltb_irrefl. cbn [andb]. do 4 f_equal. rewrite Eq', Ez, (proj2 Hc). destruct s as [so sq sr].
  unfold set_rq. simpl. f_equal. pose proof (proj2 Hc) as Ho. simpl in Ho. destruct sq. simpl in *. by subst.
Qed.

(** ** Packets that the application returns *)

Lemma free_ok R s x p b : reuse_ok rings (ready s ++ p :: R) (reuse s) x -> counters_ok (queue s) -> is_Some (descs !! p) -> fst x !! p = Some b ->
  exists e s' x', free_packets rings batch descs busy [p] s x = Ok (e, s', x') /\ ready s' = ready s /\ n_rx_ready_byte_limit (queue s') = n_rx_ready_byte_limit (queue s) /\
    if e is Some _ then e = Some ENOENT /\ s' = s /\ x' = x else sock_step (p :: R) s x R s' x'.
Proof.
  intros Hr Hc Hd Hb. pose proof (ro_count _ _ _ _ Hr) as Hcn. destruct (Hcn p) as (b' & Hb' & _ & _ & _ & o & Ho & k & Hk); [rewrite !elem_of_app; right; right; left|].
  rewrite Hb in Hb'. injection Hb' as <-. cbn [free_packets]. unfold load. rewrite Hb. cbn [must mbind res_bind]. rewrite Ho. cbn [must mbind res_bind].
  rewrite (get_parent_ok rings o k Hk). cbn [mbind res_bind]. destruct (m_rx_ring_map (reuse s) !! k); [|by eexists _, s, x].
  assert (reuse_ok rings (p :: ready s ++ R) (reuse s) x) as Hr' by (eapply reuse_ok_perm; [|exact Hr]; by rewrite Permutation_middle).
  destruct (reuse_buffer_ok rings batch descs busy (ready s ++ R) p (reuse s) x Hr' Hd) as (r1 & x1 & -> & [H1 H2 H3 H4 H5]). cbn [mbind res_bind fst snd].
  eexists None, _, x1. split; [done|]. split; [done|]. split; [done|]. split; [done|done| |done|done]. unfold holding, ready. simpl. fold (ready s).
  rewrite <- !app_assoc. by rewrite <- (Permutation_middle (ready s) R p).
Qed.

(** ** Rings *)

(** An entry of the map whose collected buffers do not change, or a new one. *)
Lemma ring_entry_ok R r x k info' : reuse_ok rings R r x -> is_Some (rings !! k) ->
  rx_reuse info' = match m_rx_ring_map r !! k with Some info => rx_reuse info | None => [] end ->
  reuse_ok rings R (set_ring_map (<[k := info']> (m_rx_ring_map r)) r) x /\ collected (set_ring_map (<[k := info']> (m_rx_ring_map r)) r) ≡ₚ collected r.
Proof.
  intros [Hc Hl Hk Hg Hb Hh] Hr E. assert (collected (set_ring_map (<[k := info']> (m_rx_ring_map r)) r) ≡ₚ collected r) as P.
  { destruct (m_rx_ring_map r !! k) as [info|] eqn:Ek.
    - destruct (collected_split r k info Ek) as [P1 P2]. by rewrite P2, P1, E.
    - unfold collected. cbn [m_rx_ring_map m_rx_reuse_buff set_ring_map]. rewrite map_to_list_insert by done. rewrite bind_cons. cbn [snd]. by rewrite E. }
  split; [|done]. split; try done.
  - eapply counted_perm; [|exact Hc]. by rewrite P.
  - intros q. rewrite P. apply Hl.
  - intros j i Hj. simpl in Hj. apply lookup_insert_Some in Hj as [[<- _]|[_ Hj]]; [done|by apply (Hk j i)].
  - intros j i Hj. simpl in Hj. apply lookup_insert_Some in Hj as [[<- <-]|[_ Hj]]; [|by apply (Hh j i)]. rewrite E.
    destruct (m_rx_ring_map r !! k) as [info|] eqn:Ek; [by apply (Hh k info)|constructor].
Qed.

Lemma sock_step_ring R s x k info' : reuse_ok rings (ready s ++ R) (reuse s) x -> counters_ok (queue s) -> is_Some (rings !! k) ->
  rx_reuse info' = match m_rx_ring_map (reuse s) !! k with Some info => rx_reuse info | None => [] end ->
  sock_step R s x R (set_reuse (set_ring_map (<[k := info']> (m_rx_ring_map (reuse s))) (reuse s)) s) x.
Proof.
  intros Hr Hc Hk E. destruct (ring_entry_ok (ready s ++ R) (reuse s) x k info' Hr Hk E) as [H1 H2]. split; [done|done| |done|done].
  apply settled_refl. unfold holding. cbn [reuse set_reuse]. by rewrite H2.
Qed.

Lemma add_ring_ok R s x p_ring : reuse_ok rings (ready s ++ R) (reuse s) x -> counters_ok (queue s) -> is_Some (rings !! p_ring) -> get_parent rings p_ring = Ok p_ring ->
  exists r', rx_add_ring_cb rings p_ring (reuse s) = Ok r' /\ sock_step R s x R (set_reuse r' s) x.
Proof.
  intros Hr Hc Hk Hp. unfold rx_add_ring_cb. rewrite Hp. cbn [mbind res_bind]. destruct (m_rx_ring_map (reuse s) !! p_ring) as [info|] eqn:E.
  all: eexists; split; [done|]; apply sock_step_ring; try done; by rewrite E.
Qed.

(** The packets of a ring leave the queue. *)
Lemma move_ready_ok base m : forall l q acc, m_rx_pkt_ready_list q = l ++ acc -> Forall (fun p => is_Some (m !! p) /\ is_Some (descs !! p)) l ->
  forall n b, counters_at n b q -> exists moved q', move_owned_rx_ready_descs descs base m l q = Ok (moved, q') /\
    moved ++ m_rx_pkt_ready_list q' ≡ₚ l ++ acc /\ counters_at (n - Z.of_nat (length moved)) (b - bytes moved) q' /\
    m_rx_pkt_ready_offset q' = m_rx_pkt_ready_offset q /\ n_rx_ready_byte_limit q' = n_rx_ready_byte_limit q /\
    m_rx_pkt_ready_list q' = acc ++ filter (fun p => p_desc_owner <$> m !! p <> Some (Some base)) l.
Proof.
  clear buffer. induction l as [|p l IH]; intros q acc El Hl n b Hc; [exists [], q; simpl in *; rewrite El, app_nil_r, !Z.sub_0_r; done|].
  apply Forall_cons in Hl as [[[bp Hb] [d Hd]] Hl]. cbn [move_owned_rx_ready_descs]. unfold load. rewrite Hb. cbn [must mbind res_bind].
  rewrite El. cbn [app tail]. case_bool_decide as Ho.
  - rewrite Hd. cbn [must mbind res_bind]. destruct (IH (sub_bytes (sz_payload d) (popped (l ++ acc) q)) acc eq_refl Hl (n - 1) (b - sz_payload d))
      as (mv & q' & -> & P & C & O & Li & F); [by apply counters_sub, counters_pop|]. cbn [mbind res_bind fst snd]. exists (p :: mv), q'. split; [done|].
    split; [simpl; by rewrite P|]. rewrite filter_cons_False by (rewrite Hb; simpl; rewrite Ho; naive_solver). split_and!; try done.
    rewrite bytes_cons. unfold sz. rewrite Hd. simpl length. replace (n - Z.of_nat (S (length mv))) with (n - 1 - Z.of_nat (length mv)) by lia.
    by replace (b - (sz_payload d + bytes mv)) with (b - sz_payload d - bytes mv) by lia.
  - destruct (IH (set_ready ((l ++ acc) ++ [p]) (m_n_rx_pkt_ready_list_count q) (m_rx_ready_byte_count q) (n_rx_ready_pkt_count q) (n_rx_ready_byte_count q) q) (acc ++ [p]))
      with (n := n) (b := b) as (mv & q' & -> & P & C & O & Li & F); [by rewrite app_assoc|done|done|]. exists mv, q'. split; [done|].
    rewrite filter_cons_True by (rewrite Hb; simpl; naive_solver). split_and!; try done; [|by rewrite F, <- app_assoc]. rewrite P, app_assoc. simpl.
    rewrite <- Permutation_cons_append. done.
Qed.

(** A bond is the parent of its slaves, another ring its own. *)
Definition rings_ok : Prop := forall r q, rings !! r = Some (ring_of q) -> q = r \/ exists rs, rings !! q = Some (bond_of rs).

Lemma member_home m k p : rings_ok -> at_home rings m k p -> exists b o, m !! p = Some b /\ p_desc_owner b = Some o /\ is_member rings k o = true.
Proof.
  intros Hw (b & o & Hb & Ho & Hk). exists b, o. split; [done|]. split; [done|]. unfold is_member. destruct (Hw o k Hk) as [->|[rs Hrs]].
  - rewrite Hk. by apply bool_decide_true.
  - rewrite Hrs, Hk. by apply bool_decide_true.
Qed.

Lemma move_owned_all k m l : rings_ok -> Forall (at_home rings m k) l -> move_owned_descs rings k m l = Ok (l, []).
Proof.
  intros Hw. induction 1 as [|p l Hp Hl IH]; [done|]. destruct (member_home m k p Hw Hp) as (b & o & Hb & Ho & E). cbn [move_owned_descs].
  unfold load. rewrite Hb. cbn [must mbind res_bind]. rewrite IH. cbn [mbind res_bind]. by rewrite Ho, E.
Qed.

Lemma return_temp_ok base l L m log : is_Some (rings !! base) -> counted (known rings) (l ++ L) m -> exists m' log',
  return_temp rings busy base l (m, log) = Ok (m', log') /\ counted (known rings) L m' /\ settled (l ++ L) L log log' /\ same_links m m'.
Proof.
  intros Hb Hc. destruct l as [|p l]; [exists m, log; split; [done|]; split; [done|]; split; [by apply settled_refl|done]|]. by apply hand_over_ok.
Qed.

(** A ring leaves: what is left of the queue and of the collected buffers. *)
Lemma ring_removed R s x base info moved q' m' log' g : reuse_ok rings (ready s ++ R) (reuse s) x -> m_rx_ring_map (reuse s) !! base = Some info ->
  moved ++ m_rx_pkt_ready_list q' ≡ₚ ready s -> counters_ok q' -> (forall k, g = Some k -> is_Some (rings !! k)) ->
  let r' := set_reuse_buff ([], 0) (set_rx_ring g (set_ring_map (delete base (m_rx_ring_map (reuse s))) (reuse s))) in
  let rest := collected (set_ring_map (delete base (m_rx_ring_map (reuse s))) (reuse s)) ++ m_rx_pkt_ready_list q' ++ R in
  counted (known rings) rest m' -> settled ((moved ++ rx_reuse info) ++ rest) rest (snd x) log' -> same_links (fst x) m' ->
  sock_step R s x R (set_reuse r' (set_rq q' s)) (m', log').
Proof.
  intros [Hc Hl Hk Hg Hb Hh] Hinfo HP Hq Hgk r' rest C' S' L'. destruct (collected_split (reuse s) base info Hinfo) as [P1 _].
  assert (collected r' = collected (set_ring_map (delete base (m_rx_ring_map (reuse s))) (reuse s))) as Er by (unfold collected; simpl; by rewrite Hb).
  assert (collected (reuse s) ++ ready s ++ R ≡ₚ (moved ++ rx_reuse info) ++ rest) as PL.
  { subst rest. rewrite P1, <- HP. solve_Permutation. }
  split; [split| | | |]; try done.
  - unfold ready. simpl. by rewrite Er.
  - unfold ready. simpl. rewrite Er. eapply lonely_sub; [exact Hl|..]; intros q.
    + rewrite P1, elem_of_app. by right.
    + rewrite elem_of_app. by left.
    + fold rest. rewrite PL, (occ_app q (_ ++ _) rest). lia.
  - intros j i Hj. simpl in Hj. apply lookup_delete_Some in Hj as [_ Hj]. by apply (Hk j i).
  - intros j i Hj. simpl in Hj. apply lookup_delete_Some in Hj as [_ Hj]. eapply Forall_impl; [by apply (Hh j i)|]. intros q. by apply home_links.
  - unfold holding. cbn [reuse set_reuse]. change (ready (set_reuse r' (set_rq q' s))) with (m_rx_pkt_ready_list q'). rewrite Er, <- !app_assoc.
    by rewrite PL.
Qed.

Lemma del_ring_ok R s x p_ring base migr : rings_ok -> reuse_ok rings (ready s ++ R) (reuse s) x -> counters_ok (queue s) -> Forall (fun p => is_Some (descs !! p)) (ready s) ->
  get_parent rings p_ring = Ok base -> exists s' x', rx_del_ring_cb rings descs busy p_ring migr s x = Ok ([], s', x') /\ sock_step R s x R s' x'.
Proof.
  intros Hw Hr Hc Hd Hbase. unfold rx_del_ring_cb. rewrite Hbase. cbn [mbind res_bind]. pose proof Hr as [Hcn _ Hk Hg Hb Hh].
  destruct (m_rx_ring_map (reuse s) !! base) as [info|] eqn:Hinfo.
  2: { exists s, x. split; [done|]. split; [done|done|by apply settled_refl|done|done]. }
  specialize (Hk base info Hinfo) as Hkb. destruct (negb _); [eexists _, x; split; [done|]; apply sock_step_ring; try done; by rewrite Hinfo|].
  assert (exists moved q', (if migr then Ok ([], queue s) else move_owned_rx_ready_descs descs base (fst x) (m_rx_pkt_ready_list (queue s)) (queue s)) = Ok (moved, q') /\
    moved ++ m_rx_pkt_ready_list q' ≡ₚ ready s /\ counters_ok q') as (moved & q' & -> & HP & Hq).
  { destruct migr; [by exists [], (queue s)|]. destruct (move_ready_ok base (fst x) (ready s) (queue s) [] ltac:(by rewrite app_nil_r)) with
      (n := Z.of_nat (length (ready s))) (b := bytes (ready s)) as (mv & q' & E & P & C & O & _ & F).
    - rewrite Forall_forall in *. intros p Hp. split; [|by apply Hd]. destruct (Hcn p) as (b & ? & _); [rewrite !elem_of_app; auto|by exists b].
    - apply Hc.
    - exists mv, q'. rewrite app_nil_r in P. split; [done|]. split; [done|]. split; [|rewrite O; apply Hc].
      assert (bytes (ready s) = bytes mv + bytes (m_rx_pkt_ready_list q')) as Eb.
      { by rewrite <- bytes_app, P. }
      assert (length (ready s) = length mv + length (m_rx_pkt_ready_list q'))%nat as En by (by rewrite <- length_app, P).
      replace (Z.of_nat (length (m_rx_pkt_ready_list q'))) with (Z.of_nat (length (ready s)) - Z.of_nat (length mv)) by lia.
      by replace (bytes (m_rx_pkt_ready_list q')) with (bytes (ready s) - bytes mv) by lia. }
  cbn [mbind res_bind fst snd]. rewrite (move_owned_all base (fst x) (rx_reuse info) Hw (Hh base info Hinfo)). cbn [mbind res_bind fst snd].
  set (rest := collected (set_ring_map (delete base (m_rx_ring_map (reuse s))) (reuse s)) ++ m_rx_pkt_ready_list q' ++ R).
  destruct x as [m log]. destruct (return_temp_ok base (moved ++ rx_reuse info) rest m log Hkb) as (m' & log' & E & C' & S' & L').
  { eapply counted_perm; [|exact Hcn]. destruct (collected_split (reuse s) base info Hinfo) as [P1 _]. subst rest. rewrite P1, <- HP. solve_Permutation. }
  cbn [m_p_rx_ring set_ring_map m_rx_reuse_buff fst]. rewrite Hb. cbn [fst move_owned_descs mbind res_bind]. case_bool_decide as Hg'.
  - cbn [mbind res_bind fst snd]. rewrite (app_nil_r (moved ++ rx_reuse info)), E. cbn [mbind res_bind give_all]. eexists _, _. split; [done|]. apply (ring_removed R s (m, log) base info moved); try done.
    intros k. destruct (map_to_list (delete base (m_rx_ring_map (reuse s)))) as [|[k0 i0] [|]] eqn:Em; try done. intros [= <-].
    assert ((k0, i0) ∈ map_to_list (delete base (m_rx_ring_map (reuse s)))) as Hin by (rewrite Em; left). apply elem_of_map_to_list, lookup_delete_Some in Hin as [_ Hin].
    by apply (ro_known _ _ _ _ Hr k0 i0).
  - cbn [mbind res_bind]. rewrite E. cbn [mbind res_bind give_all]. eexists _, _. split; [done|].
    pose proof (ring_removed R s (m, log) base info moved q' m' log' (m_p_rx_ring (reuse s)) Hr Hinfo HP Hq Hg C' S' L') as H. simpl in H.
    unfold set_reuse_buff, set_rx_ring, set_ring_map in *. simpl in *. by rewrite Hb.
Qed.

End Socket.

(** ** The callback of a socket that does not redirect *)

(** The processor is the one that the options ask for. *)
Definition processor_ok (o : udp_opts) : Prop := full o = m_is_connected o || m_sockopt_mapped o || m_multicast o.

Lemma set_port_map_id s : set_opts (set_port_map (m_port_map (opts s)) (m_port_map_index (opts s)) (opts s)) s = s.
Proof. by destruct s as [[] q r]. Qed.

(** Whichever processor it has, the answer and the new state are those of
    [rx_input], which all sockets share that do not redirect; and a plain
    socket gives the same answer with both processors. *)
Lemma rx_input_cb_ok fuel g_b_exit others p fd socks descs s d : socks !! fd = Some s -> descs !! p = Some d -> fd ∉ others -> m_sockopt_mapped (opts s) = false ->
  rx_input_cb (S fuel) g_b_exit others p fd (socks, descs) = (let '(ret, s') := rx_input g_b_exit p d s in Ok (ret, (<[fd := s']> socks, descs))).
Proof.
  intros Hs Hd Ho Hm. unfold rx_input_cb, rx_input. cbn [fst snd]. rewrite Hs. cbn [must mbind res_bind]. destruct (inspect_uc_packet g_b_exit d s) as [ok s1] eqn:E.
  assert (opts s1 = opts s) as Eo by (unfold inspect_uc_packet in E; repeat case_match; by injection E as <- <-).
  destruct (full (opts s)) eqn:Ef.
  - cbn [rx_process_udp_packet_full]. rewrite bool_decide_false by done. rewrite Hs, Hd. cbn [must mbind res_bind]. rewrite E, Eo, Ef, Hm. cbn [negb orb].
    destruct ok; cbn [negb orb andb]; [|done]. destruct (inspect_full d (opts s)); cbn [negb]; [|done]. cbn [mbind res_bind]. rewrite <- Eo, set_port_map_id. done.
  - rewrite Hd. cbn [must mbind res_bind]. unfold rx_process_udp_packet_partial. rewrite E, Eo, Ef. cbn [negb orb]. by rewrite andb_true_r.
Qed.

Lemma plain_socket_full d o : m_is_connected o = false -> m_multicast o = false -> inspect_full d o = true.
Proof. intros H1 H2. unfold inspect_full. by rewrite H1, H2. Qed.

(** ** Small sockets *)

(** ** Port maps *)

Lemma delete_moved (l : list (Z * Z)) r x : l !! S r = Some x -> delete (S r) (<[r := x]> l) = delete r l.
Proof.
  revert l. induction r as [|r IH]; intros [|a l] Hx; try done; simpl in *; [destruct l as [|b l]; [done|]; simpl in *; by injection Hx as ->|].
  f_equal. by apply IH.
Qed.

(** With ports that differ, the moves close the gap of one entry. *)
Lemma remove_loop_shift k i : forall r l, length l = (S r + k)%nat -> (i <= r)%nat ->
  (forall a b c d, (r <= a < b)%nat -> l !! a = Some c -> l !! b = Some d -> fst c <> fst d) ->
  (forall a v c, (r < a)%nat -> l !! i = Some v -> l !! a = Some c -> fst v <> fst c) ->
  exists l', remove_loop k r (S r) i l = Ok ((r + k)%nat, l') /\ delete (r + k)%nat l' = delete r l.
Proof.
  induction k as [|k IH]; intros r l Hl Hi H1 H2; [exists l; by rewrite Nat.add_0_r|]. cbn [remove_loop].
  destruct (lookup_lt_is_Some_2 l (S r)) as [x Hx]; [lia|]. destruct (lookup_lt_is_Some_2 l i) as [v Hv]; [lia|]. rewrite Hx, Hv. cbn [must mbind res_bind].
  rewrite (proj2 (Z.eqb_neq _ _)) by (intros E; by apply (H2 (S r) v x ltac:(lia) Hv Hx)).
  destruct (IH (S r) (<[r := x]> l)) as (l' & -> & E); [rewrite length_insert; lia|lia| | |].
  - intros a b c d Hab Hc Hd. rewrite list_lookup_insert_ne in Hc, Hd by lia. apply (H1 a b c d); [lia|done|done].
  - intros a w c Ha Hw Hc. rewrite list_lookup_insert_ne in Hc by lia. destruct (decide (i = r)) as [->|Hne].
    + rewrite list_lookup_insert_eq in Hw by lia. injection Hw as <-. apply (H1 (S r) a x c); [lia|done|done].
    + rewrite list_lookup_insert_ne in Hw by lia. apply (H2 a w c); [lia|done|done].
  - exists l'. replace (r + S k)%nat with (S r + k)%nat by lia. split; [done|]. rewrite E. by apply delete_moved.
Qed.

Lemma remove_port_distinct i l : NoDup l.*1 -> (i < length l)%nat -> remove_port i l = Ok (delete i l).
Proof.
  intros Hn Hi. destruct (lookup_lt_is_Some_2 l i Hi) as [v Hv]. unfold remove_port. rewrite Hv. cbn [must mbind res_bind].
  assert (forall a b c d, l !! a = Some c -> l !! b = Some d -> fst c = fst d -> a = b) as Hinj.
  { intros a b c d Hc Hd E. apply (NoDup_lookup l.*1 a b (fst c) Hn); rewrite list_lookup_fmap; [by rewrite Hc|rewrite Hd; simpl; by f_equal]. }
  destruct (list_find (fun e => fst e = fst v) l) as [[j y]|] eqn:E.
  - apply list_find_Some in E as (Hy & Ey & _). assert (j = i) as -> by (by eapply Hinj).
    destruct (remove_loop_shift (length l - S i) i i l) as (l' & -> & Ed); [lia|lia| | |].
    + intros a b c d Hab Hc Hd Ef. specialize (Hinj a b c d Hc Hd Ef). lia.
    + intros a w c Ha Hw Hc Ef. specialize (Hinj i a w c Hw Hc Ef). lia.
    + cbn [mbind res_bind fst snd]. by rewrite Ed.
  - exfalso. apply list_find_None in E. rewrite Forall_forall in E. apply (E v); [|done]. by eapply list_elem_of_lookup_2.
Qed.

Module UdpExample.

Definition opts0 : udp_opts := UdpOpts 5000 0 0 false false false true 0 ∅ false [] 0 false None.
Definition sock0 (l : list ptr) (n b limit : Z) : udp_socket :=
  UdpSocket opts0 (ReadyQueue l n b 0 n b limit 0 0 0 0 0) (ReuseInfo {[9%positive := RingInfo 1 [] 0]} None ([], 0) false false).

(** Ring 9 is simple, ring 7 a bond with the slave 8. *)
Definition rings : gmap ptr ring_kind := {[9%positive := ring_of 9; 8%positive := ring_of 7; 7%positive := bond_of [8%positive]]}.

(** Buffer 1 has three bytes at offset 1; its UDP header says [n]. *)
Definition buffer (p : ptr) : list Z := [0; 10; 20; 30; 40].
Definition desc (len n : Z) : rx_desc := RxDesc 20 7 10 5000 1 len n (l4_udp 10) 1 0 false.
Definition buf (owner : ptr) : mem_buf_desc_t := MemBufDesc 0 0 1 0 None 5 (Some owner).
Definition heap0 (owner : ptr) : heap := ({[1%positive := buf owner]}, []).
Definition free_ (p : ptr) : bool := false.

Abbreviation read d iovs flags s x := (dequeue_packet {[1%positive := d]} buffer rings 16 free_ iovs flags s x).

(** What a read returns, and the queue and the count of bytes that it leaves. *)
Definition seen (y : res (option rx_result * udp_socket * heap)) : option (rx_result * list ptr * Z) :=
  match y with Ok (Some r, s, x) => Some (r, ready s, n_rx_ready_byte_count (queue s)) | _ => None end.
Definition after (y : res (option rx_result * udp_socket * heap)) : udp_socket * heap :=
  match y with Ok (_, s, x) => (s, x) | _ => (sock0 [] 0 0 0, heap0 9) end.

(** A look with a buffer of one byte takes the other two from the count of
    bytes although the packet stays; the read that follows makes the count
    wrap around, and the socket drops all that comes. *)
Lemma peek_deafens :
  let y1 := read (desc 3 3) [1] MSG_PEEK (sock0 [1%positive] 1 3 100) (heap0 9) in
  let y2 := read (desc 3 3) [3] 0 (fst (after y1)) (snd (after y1)) in
  seen y1 = Some (RxResult 1 (copied [[10]]) (20, 7) MSG_TRUNC, [1%positive], 1) /\
  seen y2 = Some (RxResult 3 (copied [[10; 20; 30]]) (20, 7) 0, [], 2 ^ 32 - 2) /\ fst (rx_input false 2 (desc 3 3) (fst (after y2))) = false.
Proof. vm_compute. done. Qed.

(** A look with zero copy gives the packet to the application and keeps it in
    the queue, with one reference for both. *)
Lemma peek_zero_copy :
  let y := read (desc 3 3) [64] (MSG_PEEK + MSG_VMA_ZCOPY) (sock0 [1%positive] 1 3 100) (heap0 9) in
  seen y = Some (RxResult 3 (zero_copied 1 [1%positive]) (20, 7) 0, [1%positive], 3) /\ n_rx_zcopy_pkt_count (queue (fst (after y))) = 1 /\ snd (after y) = heap0 9.
Proof. vm_compute. done. Qed.

(** Bytes that the IP packet has behind the datagram are read as part of it,
    and the count of bytes wraps around. *)
Lemma trailing_bytes_read :
  seen (read (desc 4 3) [8] 0 (sock0 [1%positive] 1 3 100) (heap0 9)) = Some (RxResult 4 (copied [[10; 20; 30; 40]]) (20, 7) 0, [], 2 ^ 32 - 1).
Proof. vm_compute. done. Qed.

(** With a buffer of 2^32 bytes, the number of bytes to copy is 0 for ever. *)
Lemma huge_buffer_hangs fuel o : fill_iov {[1%positive := desc 3 3]} buffer fuel (fst (heap0 9)) (2 ^ 32) 0 (Cursor (Some 1%positive) 1 3 0 o) = NoFuel.
Proof.
  revert o. induction fuel as [|fuel IH]; intros o; [done|]. cbn [fill_iov pdesc pos_base bytes_left total_rx offset]. change (u32 (2 ^ 32 - 0)) with 0.
  change (read_bytes (buffer 1) 1 _) with (Ok (A := list Z) []). cbn [mbind res_bind]. change (u64 (3 - _) <=? 0) with false. cbn [mbind res_bind].
  match goal with |- context [fill_iov _ _ fuel _ _ _ ?c] => assert (fill_iov {[1%positive := desc 3 3]} buffer fuel (fst (heap0 9)) (2 ^ 32) 0 c = NoFuel) as E by apply IH end.
  exact (f_equal (fun x => y ← x; Ok ([] ++ y.1, y.2)) E).
Qed.

(** A socket whose own port is in its map sends each packet to itself. *)
Definition self_mapped : udp_socket :=
  UdpSocket (UdpOpts 5000 0 0 false false true true 0 ∅ true [(5000, 3)] 0 false None) (queue (sock0 [] 0 0 100)) (reuse (sock0 [] 0 0 100)).

Lemma self_map_diverges fuel : rx_process_udp_packet_full fuel false ∅ 1 3 ({[3 := self_mapped]}, {[1%positive := desc 3 3]}) = NoFuel.
Proof.
  induction fuel as [|fuel IH]; [done|]. etrans; [|exact IH].
  assert (<[3 := set_opts (set_port_map [(5000, 3)] 0 (opts self_mapped)) self_mapped]> ({[3 := self_mapped]} : gmap Z udp_socket) = {[3 := self_mapped]}) as E1 by done.
  assert (<[1%positive := set_dst_port 5000 (desc 3 3)]> ({[1%positive := desc 3 3]} : gmap ptr rx_desc) = {[1%positive := desc 3 3]}) as E2 by done.
  exact (f_equal2 (fun a b => rx_process_udp_packet_full fuel false ∅ 1 3 (a, b)) E1 E2).
Qed.

(** Empty datagrams count for nothing: no limit stops them, and a limit of 0,
    with which the destructor empties the queue, leaves them there. *)
Fixpoint empty_datagrams (n : nat) (s : udp_socket) : udp_socket :=
  match n with O => s | S n => empty_datagrams n (snd (rx_input false 1 (desc 0 0) s)) end.

Lemma empty_datagrams_unlimited n : ready (empty_datagrams n (sock0 [] 0 0 1)) = replicate n 1%positive.
Proof.
  assert (forall n s, dst_port (desc 0 0) = bound_port (opts s) -> n_rx_ready_byte_count (queue s) = 0 -> n_rx_ready_byte_limit (queue s) = 1 -> opts s = opts0 ->
    ready (empty_datagrams n s) = ready s ++ replicate n 1%positive) as H; [|by rewrite H].
  clear n. induction n as [|n IH]; intros s H1 H2 H3 H4; [by rewrite app_nil_r|]. cbn [empty_datagrams].
  assert (rx_input false 1 (desc 0 0) s = (true, update_ready 1 (desc 0 0) VMA_PACKET_RECV s)) as ->.
  { unfold rx_input, inspect_uc_packet. rewrite H1, Z.eqb_refl, H2, H3, H4. cbn. unfold take_packet. by rewrite H4. }
  cbn [snd]. rewrite IH by (try done; simpl; rewrite H2; done). unfold ready. simpl. by rewrite <- app_assoc.
Qed.

Lemma empty_datagrams_stay :
  (ready ∘ fst <$> match rx_ready_byte_count_limit_update rings 16 {[1%positive := desc 0 0]} free_ 64 0 (sock0 [1%positive] 1 0 100) (heap0 9) with Ok y => Some y | _ => None end) =
  Some [1%positive].
Proof. vm_compute. done. Qed.

(** The queue of a socket on a bond: the packets belong to the slaves, and
    removing the bond leaves them in the queue, where a simple ring takes its
    own back. *)
Definition bond_sock : udp_socket :=
  UdpSocket opts0 (queue (sock0 [1%positive] 1 3 100)) (ReuseInfo {[7%positive := RingInfo 1 [] 0]} None ([], 0) false false).

Definition left_ (y : res (list ptr * udp_socket * heap)) : option (list ptr * list ptr * list (home * ptr)) :=
  match y with Ok (l, s, x) => Some (l, ready s, snd x) | _ => None end.

Lemma bond_packets_stay :
  left_ (rx_del_ring_cb rings {[1%positive := desc 3 3]} free_ 7 false bond_sock (heap0 8)) = Some ([], [1%positive], []) /\
  left_ (rx_del_ring_cb rings {[1%positive := desc 3 3]} free_ 9 false (sock0 [1%positive] 1 3 100) (heap0 9)) = Some ([], [], [(to_ring 9, 1%positive)]).
Proof. vm_compute. done. Qed.

(** After a migration to a single ring, [m_p_rx_ring] is set and the check
    for postponed buffers looks at a list that UDP sockets do not fill. *)
Lemma postponed_forgotten k r x batch : m_p_rx_ring r = Some k -> m_rx_reuse_buff r = ([], 0) -> 0 < batch ->
  exists r', return_reuse_buffers_postponed rings batch free_ r x = Ok (r', x) /\ collected r' = collected r /\ m_rx_reuse_buf_postponed r' = false.
Proof.
  intros H1 H2 H3. unfold return_reuse_buffers_postponed. destruct (m_rx_reuse_buf_postponed r) eqn:E; cbn [negb]; [|by exists r].
  cbn [m_p_rx_ring set_postponed set_pending m_rx_reuse_buff]. rewrite H1, H2. cbn [snd]. destruct (Z.leb_spec batch 0); [lia|]. by eexists.
Qed.

End UdpExample.
