(* ===== verification/UdpWorld.v ===== *)
(** * The UDP sockets of a process (src/vma/sock/sockinfo_udp.cpp over
      [UdpSocket], with the dispatch of [RxPath])

    All sockets share the store of descriptors: a multicast packet is in the
    queues of several sockets, with one reference for each.  A call of the
    application or of a ring is one step; between the steps, the rings may do
    what they like with buffers that no socket has.  [users] are the packets
    that the application has from zero-copy reads and from its callbacks. *)

From S2P Require Import Prelude MemBuf BufferPool IpFrag Checksum FlowSteering RxPath UdpSocket.

Record udp_world := World {
  socks : gmap Z udp_socket;
  hp : heap;
  wdescs : gmap ptr rx_desc;
  users : list (Z * ptr);
  taken : list ptr
}.

(** What the sockets of a map hold. *)
Definition held_by (f : gmap Z udp_socket) : list ptr := map_to_list f ≫= fun e => holding e.2.
Definition everything (w : udp_world) : list ptr := held_by (socks w) ++ (users w).*2.

(** The callback of a socket that does not redirect ([rx_input_cb_ok]), and
    what the application keeps. *)
Definition packet_cb (g_b_exit : bool) (p : ptr) (d : rx_desc) (fd : Z) (a : gmap Z udp_socket * list (Z * ptr)) : bool * (gmap Z udp_socket * list (Z * ptr)) :=
  match fst a !! fd with
  | None => (false, a)
  | Some s =>
    let '(ret, s') := rx_input g_b_exit p d s in
    (ret, (<[fd := s']> (fst a), if ret && negb (bool_decide (p ∈ ready s')) then snd a ++ [(fd, p)] else snd a))
  end.

(** Calls: a packet from a ring for the sockets [sinks] of its flow; the two
    parts of [rx], which drops the lock between them: it gives back buffers
    whose return was postponed, and takes a packet if there is one; a new
    limit, the return of a packet, a ring that is attached or detached, and a
    change of what the sockets do not hold. *)
Inductive udp_call :=
| c_packet (mc : bool) (p : ptr) (sinks : list Z)
| c_rx_start (fd : Z) (busy : ptr -> bool)
| c_read (fd : Z) (iovs : list Z) (flags : Z) (busy : ptr -> bool)
| c_limit (fd min_limit n : Z) (busy : ptr -> bool)
| c_free (fd : Z) (p : ptr) (busy : ptr -> bool)
| c_add_ring (fd : Z) (r : ptr)
| c_del_ring (fd : Z) (r : ptr) (is_migration : bool) (busy : ptr -> bool)
| c_rings (m : bufs) (descs : gmap ptr rx_desc).

Section World.
Context (rings : gmap ptr ring_kind) (batch : Z) (buffer : ptr -> list Z) (g_b_exit : bool).

Definition dispatch (mc : bool) (p : ptr) (d : rx_desc) (sinks : list Z) (a : gmap Z udp_socket * list (Z * ptr)) : bool * Z * (gmap Z udp_socket * list (Z * ptr)) :=
  if mc then let '(n, a) := mc_loop (packet_cb g_b_exit p d) (Some <$> sinks) 1 a in (1 <? n, n - 1, a)
  else uc_loop (packet_cb g_b_exit p d) (Some <$> sinks) 0 a.

Fixpoint remove_one (e : Z * ptr) (l : list (Z * ptr)) : list (Z * ptr) :=
  match l with [] => [] | x :: l => if decide (x = e) then l else x :: remove_one e l end.

Definition put_sock (fd : Z) (s : udp_socket) (x : heap) (u : list (Z * ptr)) (w : udp_world) : udp_world :=
  World (<[fd := s]> (socks w)) x (wdescs w) u (taken w).

Definition udp_step (c : udp_call) (w : udp_world) : res udp_world :=
  match c with
  | c_packet mc p sinks =>
    d ← must (wdescs w !! p);
    let '(ret, n, a) := dispatch mc p d sinks (socks w, users w) in
    m ← store p (set_ref_count n) (fst (hp w));
    Ok (World (fst a) (m, snd (hp w)) (wdescs w) (snd a) (if ret : bool then taken w ++ [p] else taken w))
  | c_rx_start fd busy =>
    s ← must (socks w !! fd);
    if m_b_closed (opts s) || g_b_exit then Ok w
    else y ← return_reuse_buffers_postponed rings batch busy (reuse s) (hp w); Ok (put_sock fd (set_reuse y.1 s) y.2 (users w) w)
  | c_read fd iovs flags busy =>
    s ← must (socks w !! fd);
    if m_n_rx_pkt_ready_list_count (queue s) <=? 0 then Ok w
    else
    y ← dequeue_packet (wdescs w) buffer rings batch busy iovs flags s (hp w);
    let '(r, s', x) := y : option rx_result * udp_socket * heap in
    Ok (put_sock fd s' x (match r with Some (RxResult _ (zero_copied p _) _ _) => users w ++ [(fd, p)] | _ => users w end) w)
  | c_limit fd min_limit n busy =>
    s ← must (socks w !! fd); y ← rx_ready_byte_count_limit_update rings batch (wdescs w) busy min_limit n s (hp w);
    Ok (put_sock fd y.1 y.2 (users w) w)
  | c_free fd p busy =>
    s ← must (socks w !! fd); y ← free_packets rings batch (wdescs w) busy [p] s (hp w);
    let '(e, s', x) := y : option Z * udp_socket * heap in
    Ok (put_sock fd s' x (if e is Some _ then users w else remove_one (fd, p) (users w)) w)
  | c_add_ring fd r =>
    s ← must (socks w !! fd); r ← rx_add_ring_cb rings r (reuse s); Ok (put_sock fd (set_reuse r s) (hp w) (users w) w)
  | c_del_ring fd r is_migration busy =>
    s ← must (socks w !! fd); y ← rx_del_ring_cb rings (wdescs w) busy r is_migration s (hp w);
    let '(_, s', x) := y : list ptr * udp_socket * heap in Ok (put_sock fd s' x (users w) w)
  | c_rings m descs => Ok (World (socks w) (m, snd (hp w)) descs (users w) (taken w))
  end.

Fixpoint udp_run (l : list udp_call) (w : udp_world) : res udp_world :=
  match l with [] => Ok w | c :: l => w ← udp_step c w; udp_run l w end.

(** What the callers respect: a ring brings datagrams in buffers that no
    socket has, with no bytes behind the datagram, and changes no others; an
    application that looks at a datagram (MSG_PEEK) copies it and does not cut
    it off, and it returns what it has.  The lemmas [peek_deafens],
    [peek_zero_copy] and [trailing_bytes_read] of [UdpExample] show what
    happens otherwise. *)
Definition allowed_call (c : udp_call) (w : udp_world) : Prop :=
  match c with
  | c_packet mc p sinks => NoDup sinks /\ p ∉ everything w /\ Z.of_nat (length sinks) < 2 ^ 31 /\ (exists b, fst (hp w) !! p = Some b /\ pbuf_ref b <= 1 /\ known rings b) /\
      exists d l, datagram (wdescs w) buffer (fst (hp w)) p d l
  | c_rx_start fd busy => is_Some (socks w !! fd)
  | c_read fd iovs flags busy => exists s, socks w !! fd = Some s /\ iovs_ok flags iovs /\
      (has_flag flags MSG_PEEK = true -> has_flag flags MSG_VMA_ZCOPY = false /\
        forall p rest d l, ready s = p :: rest -> datagram (wdescs w) buffer (fst (hp w)) p d l -> sz_payload d <= sumZ iovs /\ sz_payload d = Z.of_nat (length (payload (wdescs w) buffer (p :: l))))
  | c_limit fd min_limit n busy => is_Some (socks w !! fd)
  | c_free fd p busy => is_Some (socks w !! fd) /\ (fd, p) ∈ users w
  | c_add_ring fd r => is_Some (socks w !! fd) /\ is_Some (rings !! r) /\ get_parent rings r = Ok r
  | c_del_ring fd r is_migration busy => is_Some (socks w !! fd) /\ is_Some (rings !! r)
  | c_rings m descs => forall p l, p ∈ everything w -> chain (fst (hp w)) (Some p) l ->
      forall q, q ∈ l -> m !! q = fst (hp w) !! q /\ descs !! q = wdescs w !! q
  end.

(** ** The invariant *)

Record world_ok (w : udp_world) : Prop := WorldOk {
  wo_socks : forall fd s, socks w !! fd = Some s ->
    reuse_ok rings (ready s ++ held_by (delete fd (socks w)) ++ (users w).*2) (reuse s) (hp w) /\ counters_ok (wdescs w) (queue s);
  wo_count : counted (known rings) (everything w) (fst (hp w));
  wo_data : forall p, p ∈ everything w -> exists d l, datagram (wdescs w) buffer (fst (hp w)) p d l;
  wo_taken : forall p, occ p (taken w) = (occ p (snd (hp w)).*2 + if decide (p ∈ everything w) then 1 else 0)%nat;
  wo_plain : forall fd s, socks w !! fd = Some s -> m_sockopt_mapped (opts s) = false
}.

Abbreviation others fd w := (held_by (delete fd (socks w)) ++ (users w).*2) (only parsing).

Lemma held_split f fd s : f !! fd = Some s -> held_by f ≡ₚ holding s ++ held_by (delete fd f).
Proof. intros H. unfold held_by. rewrite <- (map_to_list_delete _ _ _ H). done. Qed.

Lemma held_insert f fd s : held_by (<[fd := s]> f) ≡ₚ holding s ++ held_by (delete fd f).
Proof. unfold held_by. rewrite <- insert_delete_eq, map_to_list_insert by apply lookup_delete_eq. done. Qed.

Lemma everything_split w fd s : socks w !! fd = Some s -> everything w ≡ₚ holding s ++ others fd w.
Proof. intros H. unfold everything. by rewrite (held_split _ _ _ H), app_assoc. Qed.

Lemma everything_put w fd s x u : everything (put_sock fd s x u w) ≡ₚ holding s ++ held_by (delete fd (socks w)) ++ u.*2.
Proof. unfold everything. cbn [socks users put_sock]. by rewrite held_insert, app_assoc. Qed.

Lemma datagram_same descs descs' m m' p d l : (forall q, q ∈ p :: l -> p_next_desc <$> m' !! q = p_next_desc <$> m !! q /\ descs' !! q = descs !! q) ->
  datagram descs buffer m p d l -> datagram descs' buffer m' p d l.
Proof.
  intros H (Hd & Hch & Hfr & Hsz). split; [by rewrite (proj2 (H p ltac:(left)))|]. split; [eapply chain_ext; [|exact Hch]; intros q Hq; by apply H|].
  assert (forall k, (forall q, q ∈ k -> q ∈ p :: l) -> payload descs' buffer k = payload descs buffer k) as Ep.
  { intros k. induction k as [|q k IH]; intros Hk; [done|]. unfold payload in *. rewrite !bind_cons. f_equal; [|apply IH; set_solver].
    unfold frag_bytes. by rewrite (proj2 (H q ltac:(set_solver))). }
  split; [|by rewrite Ep]. unfold frags_ok in *. rewrite Forall_forall in *. intros q Hq. rewrite (proj2 (H q Hq)). by apply Hfr.
Qed.

Lemma same_links_next m m' q : same_links m m' -> p_next_desc <$> m' !! q = p_next_desc <$> m !! q.
Proof. intros H. specialize (H q). destruct (m !! q), (m' !! q); simplify_eq/=; congruence. Qed.

(** What the others do leaves a socket in order. *)
Lemma reuse_ok_frame R R' r x x' : reuse_ok rings R r x -> counted (known rings) (collected r ++ R') (fst x') ->
  (forall q, q ∈ collected r -> (occ q (collected r ++ R') <= occ q (collected r ++ R))%nat) -> same_links (fst x) (fst x') -> reuse_ok rings R' r x'.
Proof.
  intros [Hc Hl Hk Hg Hb Hh] C' Ho L'. split; try done; [|by eapply home_same]. intros q Hq. specialize (Hl q Hq). specialize (Ho q Hq).
  assert (0 < occ q (collected r ++ R'))%nat by (apply occ_elem, elem_of_app; by left). lia.
Qed.

(** A call on one socket. *)
Lemma world_step w fd s s' x' u' R' : world_ok w -> socks w !! fd = Some s -> R' ≡ₚ held_by (delete fd (socks w)) ++ u'.*2 ->
  sock_step rings (wdescs w) (others fd w) s (hp w) R' s' x' -> world_ok (put_sock fd s' x' u' w).
Proof.
  intros [W1 W2 W3 W4 W5] Hs HR [A B C D E]. pose proof (everything_split w fd s Hs) as PE. pose proof (everything_put w fd s' x' u') as PE'. rewrite <- HR in PE'.
  rewrite <- PE, <- PE' in C. assert (counted (known rings) (everything (put_sock fd s' x' u' w)) (fst x')) as HC.
  { eapply counted_perm; [|apply (ro_count _ _ _ _ A)]. rewrite PE'. unfold holding. by rewrite <- app_assoc. }
  pose proof (fun p => settled_sub _ _ _ _ p C) as Hsub. split; cbn [hp wdescs taken put_sock].
  - intros fd2 s2 H2. cbn [socks users put_sock] in *. destruct (decide (fd2 = fd)) as [->|Hne].
    + rewrite lookup_insert_eq in H2. injection H2 as <-. rewrite delete_insert_eq. split; [|done]. eapply reuse_ok_perm; [|exact A]. by rewrite HR.
    + rewrite lookup_insert_ne in H2 by done. destruct (W1 fd2 s2 H2) as [R2 C2]. split; [|done]. pose proof (everything_split w fd2 s2 H2) as P2.
      assert (collected (reuse s2) ++ ready s2 ++ held_by (delete fd2 (<[fd := s']> (socks w))) ++ u'.*2 ≡ₚ everything (put_sock fd s' x' u' w)) as P2'.
      { pose proof (everything_split (put_sock fd s' x' u' w) fd2 s2) as P. cbn [socks users put_sock] in P. rewrite P by (by rewrite lookup_insert_ne). unfold holding. by rewrite <- app_assoc. }
      eapply reuse_ok_frame; [exact R2|by eapply counted_perm; [symmetry; exact P2'|]| |done].
      intros q _. rewrite P2'. etrans; [apply C|]. rewrite P2. unfold holding. by rewrite <- app_assoc.
  - done.
  - intros p Hp. destruct (W3 p (Hsub p Hp)) as (d & l & Hdg). exists d, l. eapply datagram_same; [|exact Hdg]. intros q _. split; [by apply same_links_next|done].
  - intros p. rewrite W4. destruct C as (_ & new & -> & Hn). rewrite fmap_app, occ_app, Hn. specialize (Hsub p). repeat case_decide; try lia; naive_solver.
  - intros fd2 s2 H2. cbn [socks put_sock] in H2. apply lookup_insert_Some in H2 as [[<- <-]|[_ H2]]; [rewrite E; by apply (W5 fd)|by apply (W5 fd2)].
Qed.

(** ** A packet *)

(** [k] of the sockets took the packet. *)
Definition grown (descs : gmap ptr rx_desc) (p : ptr) (k : nat) (a a' : gmap Z udp_socket * list (Z * ptr)) : Prop :=
  held_by a'.1 ++ a'.2.*2 ≡ₚ replicate k p ++ held_by a.1 ++ a.2.*2 /\ dom a'.1 = dom a.1 /\
  forall fd s', a'.1 !! fd = Some s' -> exists s, a.1 !! fd = Some s /\ reuse s' = reuse s /\ opts s' = opts s /\ (counters_ok descs (queue s) -> counters_ok descs (queue s')).

Lemma grown_trans descs p j k a a1 a2 : grown descs p j a a1 -> grown descs p k a1 a2 -> grown descs p (j + k) a a2.
Proof.
  intros (P1 & D1 & S1) (P2 & D2 & S2). split; [rewrite P2, P1, replicate_add; solve_Permutation|]. split; [congruence|]. intros fd s2 H2. destruct (S2 fd s2 H2) as (s1 & H1 & E2 & O2 & C2).
  destruct (S1 fd s1 H1) as (s & H & E1 & O1 & C1). exists s. split; [done|]. split; [congruence|]. split; [congruence|auto].
Qed.

(** What a socket does with a packet: nothing, or one more in its queue or
    with the application. *)
Lemma rx_input_ok descs p d s ret s' : descs !! p = Some d -> rx_input g_b_exit p d s = (ret, s') -> reuse s' = reuse s /\
  (counters_ok descs (queue s) -> counters_ok descs (queue s')) /\ (ready s' = ready s \/ ret = true /\ ready s' = ready s ++ [p]) /\ opts s' = opts s.
Proof.
  intros Hd. unfold rx_input. destruct (inspect_uc_packet g_b_exit d s) as [ok s1] eqn:E1.
  assert (reuse s1 = reuse s /\ (counters_ok descs (queue s) -> counters_ok descs (queue s1)) /\ ready s1 = ready s /\ opts s1 = opts s) as (R1 & C1 & L1 & O1).
  { unfold inspect_uc_packet in E1. destruct (negb _); [by injection E1 as <- <-|]. destruct (_ <=? _); by injection E1 as <- <-. }
  destruct (ok && _); [|intros [= <- <-]; auto]. unfold take_packet. destruct (match m_rx_callback (opts s1) with Some f => _ | None => _ end) eqn:Ecb; intros [= <- <-]; [auto| |].
  - cbn [update_ready reuse set_rq opts]. split; [done|]. split; [|split; [right; split; [done|]; unfold ready in *; simpl; by rewrite L1|done]].
    intros Hc. destruct (C1 Hc) as [Hc1 Ho1]. split; [|done]. cbn [queue set_rq]. simpl. fold (ready s1). rewrite length_app, bytes_app, bytes_cons. unfold sz at 1. rewrite Hd. change (bytes descs []) with 0.
    replace (Z.of_nat (length (ready s1) + length [p])) with (Z.of_nat (length (ready s1)) + 1) by (simpl; lia). rewrite Z.add_0_r.
    apply (counters_push _ _ (sz_payload d) (ready s1 ++ [p]) (queue s1) Hc1).
  - cbn [update_ready reuse set_rq opts]. split; [done|]. split; [|split; [by left|done]]. intros Hc. by destruct (C1 Hc) as [Hc1 Ho1].
Qed.

Lemma packet_cb_ok descs p d fd a : descs !! p = Some d -> (forall s, a.1 !! fd = Some s -> p ∉ ready s) ->
  grown descs p (if (packet_cb g_b_exit p d fd a).1 then 1 else 0) a (packet_cb g_b_exit p d fd a).2.
Proof.
  clear rings batch buffer. intros Hd Hp. unfold packet_cb. destruct a as [f u]. cbn [fst snd] in *. destruct (f !! fd) as [s|] eqn:Hs; [|split; [done|]; split; [done|]; naive_solver].
  specialize (Hp s eq_refl). destruct (rx_input g_b_exit p d s) as [ret s'] eqn:E. destruct (rx_input_ok descs p d s ret s' Hd E) as (R1 & C1 & L1 & O1).
  cbn [fst snd]. split; [|split]; cbn [fst snd].
  - rewrite held_insert, (held_split f fd s Hs). unfold holding. rewrite R1. destruct L1 as [->|[-> ->]].
    + rewrite bool_decide_false by done. destruct ret; cbn [andb negb replicate app]; [|done]. rewrite fmap_app. simpl. solve_Permutation.
    + rewrite bool_decide_true by set_solver. cbn [andb negb replicate app]. solve_Permutation.
  - rewrite dom_insert_L. apply elem_of_dom_2 in Hs. set_solver.
  - intros fd2 s2 H2. destruct (decide (fd2 = fd)) as [->|]; [|rewrite lookup_insert_ne in H2 by done; by exists s2].
    rewrite lookup_insert_eq in H2. injection H2 as <-. by exists s.
Qed.

Lemma packet_cb_other p d fd fd2 a : fd2 <> fd -> (packet_cb g_b_exit p d fd a).2.1 !! fd2 = a.1 !! fd2.
Proof.
  intros Hne. unfold packet_cb. destruct (a.1 !! fd) as [s|]; [|done]. destruct (rx_input g_b_exit p d s) as [ret s']. cbn [fst snd]. by rewrite lookup_insert_ne.
Qed.

Abbreviation asked p d l a := (answers (packet_cb g_b_exit p d) l a) (only parsing).

Lemma answers_ok descs p d l : descs !! p = Some d -> NoDup l -> forall a, (forall fd s, fd ∈ l -> a.1 !! fd = Some s -> p ∉ ready s) ->
  grown descs p (keepers (asked p d l a).1) a (asked p d l a).2.
Proof.
  clear rings batch buffer. intros Hd. induction 1 as [|fd l Hfd Hnd IH]; intros a Hp; [split; [done|]; split; [done|]; naive_solver|]. cbn [answers].
  pose proof (packet_cb_ok descs p d fd a Hd ltac:(intros s; apply Hp; left)) as H1. pose proof (fun fd2 => packet_cb_other p d fd fd2 a) as Ho.
  destruct (packet_cb g_b_exit p d fd a) as [k a1]. cbn [fst snd] in *. pose proof (IH a1) as H2. destruct (asked p d l a1) as [ks a2]. cbn [fst snd] in *.
  assert (keepers (k :: ks) = (if k then 1 else 0) + keepers ks)%nat as -> by (unfold keepers; rewrite filter_cons; by destruct k).
  eapply grown_trans; [exact H1|]. apply H2. intros fd2 s Hin Hs. rewrite Ho in Hs by (by intros ->). apply (Hp fd2); [by right|done].
Qed.

Lemma dispatch_grown descs mc p d l a : descs !! p = Some d -> NoDup l -> (forall fd s, fd ∈ l -> a.1 !! fd = Some s -> p ∉ ready s) ->
  exists k a', dispatch mc p d l a = (bool_decide (0 < k)%nat, Z.of_nat k, a') /\ grown descs p k a a' /\ (k <= length l)%nat.
Proof.
  clear rings batch buffer. intros Hd Hnd Hp. assert (forall l, (keepers (asked p d l a).1 <= length l)%nat) as Hle.
  { intros k. assert (length (asked p d k a).1 = length k) as <-.
    { clear. revert a. induction k as [|fd k IH]; intros a; [done|]. cbn [answers]. destruct (packet_cb g_b_exit p d fd a) as [b a1]. specialize (IH a1).
      destruct (asked p d k a1) as [ks a2]. cbn [fst] in *. simpl. by rewrite IH. }
    unfold keepers. apply length_filter. }
  unfold dispatch. destruct mc.
  - rewrite mc_loop_spec. fold (keepers (asked p d l a).1). exists (keepers (asked p d l a).1), (asked p d l a).2. split; [|split; [by apply answers_ok|apply Hle]].
    f_equal. f_equal; [|lia]. apply eq_true_iff_eq. rewrite Z.ltb_lt, bool_decide_eq_true. lia.
  - destruct (uc_loop_spec (packet_cb g_b_exit p d) l a) as (l1 & l2 & m & -> & [(Ha & -> & ->)|(Ha & ->)]).
    all: apply NoDup_app in Hnd as (Hnd & _ & _); pose proof (answers_ok descs p d l1 Hd Hnd a ltac:(intros fd s Hin; apply Hp; set_solver)) as H; rewrite Ha in H.
    + exists 0%nat, (asked p d l1 a).2. split; [done|]. rewrite <- (app_nil_r (replicate m false)), keepers_false in H. split; [done|lia].
    + rewrite keepers_false in H. exists 1%nat, (asked p d l1 a).2. split; [done|]. split; [done|]. specialize (Hle l1). rewrite Ha, keepers_false in Hle.
      rewrite length_app. change (keepers [true]) with 1%nat in Hle. lia.
Qed.

Lemma held_elem f fd s p : f !! fd = Some s -> p ∈ holding s -> p ∈ held_by f.
Proof. intros H Hp. rewrite (held_split _ _ _ H), elem_of_app. by left. Qed.

(** A packet that [k] sockets took. *)
Lemma packet_grown w p b d l k a' : world_ok w -> p ∉ everything w -> Z.of_nat k < 2 ^ 31 -> fst (hp w) !! p = Some b -> pbuf_ref b <= 1 -> known rings b ->
  datagram (wdescs w) buffer (fst (hp w)) p d l -> grown (wdescs w) p k (socks w, users w) a' ->
  world_ok (World a'.1 (<[p := set_ref_count (Z.of_nat k) b]> (fst (hp w)), snd (hp w)) (wdescs w) a'.2 (if bool_decide (0 < k)%nat then taken w ++ [p] else taken w)).
Proof.
  intros [W1 W2 W3 W4 W5] Hp Hlen Hb Hpb Hk Hdg (P & D & S). destruct a' as [f' u']. cbn [fst snd] in *.
  set (w' := World _ _ _ _ _). assert (everything w' ≡ₚ replicate k p ++ everything w) as PE by exact P. clear P.
  set (m' := <[p := set_ref_count (Z.of_nat k) b]> (fst (hp w))).
  assert (same_links (fst (hp w)) m') as L' by (by apply (same_links_insert _ p b)). apply occ_not_elem in Hp as Hp0.
  assert (forall q, q <> p -> occ q (everything w') = occ q (everything w)) as Hoq.
  { intros q Hq. rewrite PE, occ_app. assert (occ q (replicate k p) = 0%nat) as ->; [|done]. apply occ_not_elem. rewrite elem_of_replicate. naive_solver. }
  assert (occ p (everything w') = k) as Hop.
  { rewrite PE, occ_app, Hp0, Nat.add_0_r. clear. unfold occ. induction k as [|k IH]; [done|]. simpl. rewrite filter_cons_True by done. simpl. by rewrite IH. }
  assert (counted (known rings) (everything w') m') as HC.
  { intros q Hq. destruct (decide (q = p)) as [->|Hne].
    - exists (set_ref_count (Z.of_nat k) b). unfold m'. rewrite lookup_insert_eq, Hop. done.
    - unfold m'. rewrite lookup_insert_ne by done. rewrite Hoq by done. apply W2. apply occ_elem. rewrite <- Hoq by done. by apply occ_elem. }
  split; [|done| | |].
  - intros fd s' Hs'. cbn [socks users hp w'] in Hs'. destruct (S fd s' Hs') as (s & Hs & Er & _ & Cs). destruct (W1 fd s Hs) as [R1 C1]. split; [|by apply Cs].
    pose proof (everything_split w fd s Hs) as P1. pose proof (everything_split w' fd s' Hs') as P2. unfold holding in P1, P2. rewrite <- app_assoc in P1, P2. rewrite Er in *.
    eapply reuse_ok_frame; [exact R1| | |done]; [by eapply counted_perm; [exact P2|]|]. intros q Hq. rewrite <- P1, <- P2. rewrite Hoq; [done|]. intros ->. apply Hp. rewrite P1. set_solver.
  - intros q Hq. cbn [wdescs hp fst w']. assert (exists d l, datagram (wdescs w) buffer (fst (hp w)) q d l) as (dq & lq & Hq').
    { destruct (decide (q = p)) as [->|Hne]; [by exists d, l|]. apply W3. apply occ_elem. rewrite <- Hoq by done. by apply occ_elem. }
    exists dq, lq. eapply datagram_same; [|exact Hq']. intros r _. split; [by apply same_links_next|done].
  - intros q. cbn [taken hp snd w']. pose proof (W4 q) as Hq. pose proof (occ_elem q (everything w')) as E1. pose proof (occ_elem q (everything w)) as E2.
    assert (occ q (if bool_decide (0 < k)%nat then taken w ++ [p] else taken w) = occ q (taken w) + if decide (q = p) then (if decide (0 < k)%nat then 1 else 0) else 0)%nat as ->.
    { clear. rewrite bool_decide_decide. destruct (decide (0 < k)%nat); [|case_decide; lia]. rewrite occ_app, occ_cons. change (occ q []) with 0%nat. repeat case_decide; naive_solver lia. }
    destruct (decide (q = p)) as [->|Hne].
    + rewrite Hop in E1. rewrite (decide_False (P := p ∈ everything w)) in Hq by done. destruct (decide (0 < k)%nat); [rewrite decide_True by (by apply E1)|rewrite decide_False by (rewrite <- E1; lia)]; lia.
    + rewrite Hoq in E1 by done. repeat case_decide; naive_solver lia.
  - intros fd s' Hs'. destruct (S fd s' Hs') as (s & Hs & _ & -> & _). by apply (W5 fd).
Qed.

Lemma packet_step w mc p sinks : world_ok w -> allowed_call (c_packet mc p sinks) w -> returns world_ok (udp_step (c_packet mc p sinks) w).
Proof.
  intros W (Hnd & Hp & Hlen & (b & Hb & Hpb & Hk) & d & l & Hdg). pose proof Hdg as (Hd & _). cbn [udp_step]. rewrite Hd. cbn [must mbind res_bind].
  destruct (dispatch_grown (wdescs w) mc p d sinks (socks w, users w) Hd Hnd) as (k & a' & -> & Hg & Hle).
  { intros fd s _ Hs Hin. apply Hp. apply elem_of_app. left. eapply held_elem; [exact Hs|]. apply elem_of_app. by right. }
  unfold store, load. rewrite Hb. cbn [must mbind res_bind]. apply returns_Ok. eapply (packet_grown w p b d l k a'); try done. lia.
Qed.

(** ** The other calls *)

Lemma sock_step_perm descs R R1 s x R' s' x' : R ≡ₚ R1 -> sock_step rings descs R s x R' s' x' -> sock_step rings descs R1 s x R' s' x'.
Proof. intros H [A B C D E]. split; try done. by rewrite <- H. Qed.

Lemma sock_step_same descs R s x : reuse_ok rings (ready s ++ R) (reuse s) x -> counters_ok descs (queue s) -> sock_step rings descs R s x R s x.
Proof. intros H1 H2. split; [done|done|by apply settled_refl|done|done]. Qed.

Lemma ready_everything w fd s p : socks w !! fd = Some s -> p ∈ ready s -> p ∈ everything w.
Proof. intros Hs Hp. apply elem_of_app. left. eapply held_elem; [done|]. apply elem_of_app. by right. Qed.

Lemma ready_descs w fd s : world_ok w -> socks w !! fd = Some s -> Forall (fun p => is_Some (wdescs w !! p)) (ready s).
Proof.
  intros W Hs. apply Forall_forall. intros p Hp. destruct (wo_data w W p) as (d & l & Hd & _); [by eapply ready_everything|by exists d].
Qed.

Lemma read_step w fd iovs flags busy : world_ok w -> allowed_call (c_read fd iovs flags busy) w -> returns world_ok (udp_step (c_read fd iovs flags busy) w).
Proof.
  intros W (s & Hs & Hio & Hpk). destruct (wo_socks w W fd s Hs) as [Hr Hc]. cbn [udp_step]. rewrite Hs. cbn [must mbind res_bind].
  destruct (Z.leb_spec (m_n_rx_pkt_ready_list_count (queue s)) 0) as [Hle|Hgt]; [by apply returns_Ok|].
  destruct (ready s) as [|p rest] eqn:El; [exfalso; pose proof Hc as [(Hcount & _) _]; fold (ready s) in Hcount; rewrite El in Hcount; rewrite Hcount in Hgt; by vm_compute in Hgt|]. rewrite <- El in Hr, Hpk.
  destruct (wo_data w W p) as (d & l & Hdg); [eapply ready_everything; [done|]; rewrite El; left|].
  destruct (has_flag flags MSG_PEEK) eqn:Ep.
  - destruct (Hpk eq_refl) as [Hz Hw]. destruct (Hw p rest d l El Hdg) as [H1 H2]. rewrite (peek_ok rings batch busy (wdescs w) buffer s (hp w) p rest d l iovs flags) by done.
    cbn [mbind res_bind]. apply returns_Ok. eapply (world_step w fd s); [done|done|done|by apply sock_step_same].
  - destruct (dequeue_ok rings batch busy (wdescs w) buffer (others fd w) s (hp w) p rest d l iovs flags El Hr Hc Hdg Hio Ep) as (s' & x' & -> & Hst & _ & _).
    cbn [mbind res_bind]. apply returns_Ok. unfold data_of. destruct (has_flag flags MSG_VMA_ZCOPY); (eapply (world_step w fd s); [done|done| |exact Hst]); [|done].
    rewrite fmap_app. simpl. solve_Permutation.
Qed.

Lemma rx_start_step w fd busy : world_ok w -> allowed_call (c_rx_start fd busy) w -> returns world_ok (udp_step (c_rx_start fd busy) w).
Proof.
  intros W [s Hs]. destruct (wo_socks w W fd s Hs) as [Hr Hc]. cbn [udp_step]. rewrite Hs. cbn [must mbind res_bind]. destruct (_ || _); [by apply returns_Ok|].
  destruct (return_postponed_ok rings batch busy _ _ _ Hr) as (r' & x' & -> & Hst). cbn [mbind res_bind fst snd]. apply returns_Ok.
  eapply (world_step w fd s); [done|done|done|]. assert (set_reuse r' s = set_reuse r' (set_rq (queue s) s)) as -> by (by destruct s).
  by eapply (sock_step_reuse rings (wdescs w) [] _ s (hp w) (queue s)).
Qed.

Lemma limit_step w fd min_limit n busy : world_ok w -> allowed_call (c_limit fd min_limit n busy) w -> returns world_ok (udp_step (c_limit fd min_limit n busy) w).
Proof.
  intros W [s Hs]. destruct (wo_socks w W fd s Hs) as [Hr Hc]. cbn [udp_step]. rewrite Hs. cbn [must mbind res_bind]. unfold rx_ready_byte_count_limit_update.
  set (s1 := set_rq _ s). destruct (drop_loop_ok rings batch busy (wdescs w) (others fd w) (S (length (m_rx_pkt_ready_list (queue s1)))) s1 (hp w)) as (k & s' & x' & -> & Hst & _);
    [done|done|by apply (ready_descs w fd s W Hs)|unfold ready; lia|].
  cbn [mbind res_bind fst snd]. apply returns_Ok. eapply (world_step w fd s); [done|done|done|]. by destruct Hst; split.
Qed.

Lemma remove_one_perm e l : e ∈ l -> l ≡ₚ e :: remove_one e l.
Proof.
  induction l as [|x l IH]; [by intros ?%not_elem_of_nil|]. simpl. rewrite elem_of_cons. case_decide as He; [by subst|]. intros [->|H]; [done|]. rewrite (IH H) at 1. apply Permutation_swap.
Qed.

Lemma free_step w fd p busy : world_ok w -> allowed_call (c_free fd p busy) w -> returns world_ok (udp_step (c_free fd p busy) w).
Proof.
  intros W [[s Hs] Hu]. destruct (wo_socks w W fd s Hs) as [Hr Hc]. cbn [udp_step]. rewrite Hs. cbn [must mbind res_bind].
  assert (p ∈ everything w) as Hp by (apply elem_of_app; right; apply list_elem_of_fmap; by exists (fd, p)). destruct (wo_data w W p Hp) as (d & l & Hd & _).
  destruct (wo_count w W p Hp) as (b & Hb & _).
  assert (others fd w ≡ₚ p :: held_by (delete fd (socks w)) ++ (remove_one (fd, p) (users w)).*2) as HP.
  { rewrite (remove_one_perm (fd, p) (users w) Hu) at 1. simpl. solve_Permutation. }
  destruct (free_ok rings batch busy (wdescs w) (held_by (delete fd (socks w)) ++ (remove_one (fd, p) (users w)).*2) s (hp w) p b) as (e & s' & x' & -> & _ & _ & He);
    [by eapply reuse_ok_perm; [rewrite <- HP|]|done|by exists d|done|]. cbn [mbind res_bind]. apply returns_Ok. destruct e as [e|].
  - destruct He as (_ & -> & ->). eapply (world_step w fd s); [done|done|reflexivity|by apply sock_step_same].
  - eapply (world_step w fd s); [done|done|reflexivity|]. eapply sock_step_perm; [symmetry; exact HP|done].
Qed.

Lemma rings_step w m descs : world_ok w -> allowed_call (c_rings m descs) w -> returns world_ok (udp_step (c_rings m descs) w).
Proof.
  intros [W1 W2 W3 W4 W5] H. cbn [udp_step]. apply returns_Ok. cbn [allowed_call] in H.
  assert (forall p, p ∈ everything w -> m !! p = fst (hp w) !! p /\ descs !! p = wdescs w !! p) as Hsame.
  { intros p Hp. destruct (W3 p Hp) as (d & l & _ & Hch & _). apply (H p (p :: l) Hp Hch). left. }
  assert (counted (known rings) (everything w) m) as HC by (intros p Hp; rewrite (proj1 (Hsame p Hp)); by apply W2).
  split; [|exact HC| |exact W4|exact W5]; cbn [socks users hp wdescs fst].
  - intros fd s Hs. destruct (W1 fd s Hs) as [R1 [C1 O1]]. pose proof (everything_split w fd s Hs) as PE. unfold holding in PE. rewrite <- app_assoc in PE. split.
    + destruct R1 as [_ Hl Hk Hg Hb Hh]. split; try done; [by eapply counted_perm; [exact PE|]|]. intros k i Hki. specialize (Hh k i Hki). rewrite Forall_forall in *. intros p Hp.
      destruct (Hh p Hp) as (b & o & Hb' & Ho & Hro). exists b, o. cbn [fst]. rewrite (proj1 (Hsame p ltac:(rewrite PE; apply elem_of_app; left; apply elem_of_app; left;
        apply list_elem_of_bind; exists (k, i); split; [done|by apply elem_of_map_to_list]))). done.
    + split; [|done]. assert (bytes descs (m_rx_pkt_ready_list (queue s)) = bytes (wdescs w) (m_rx_pkt_ready_list (queue s))) as ->; [|done].
      assert (forall l, (forall p, p ∈ l -> p ∈ everything w) -> bytes descs l = bytes (wdescs w) l) as E.
      { intros l. induction l as [|p l IH]; intros Hl; [done|]. rewrite !bytes_cons, IH by set_solver. unfold sz. by rewrite (proj2 (Hsame p ltac:(set_solver))). }
      apply E. intros p. by apply ready_everything with (fd := fd).
  - intros p Hp. destruct (W3 p Hp) as (d & l & Hdg). exists d, l. eapply datagram_same; [|exact Hdg]. intros q Hq. destruct Hdg as (_ & Hch & _).
    destruct (H p (p :: l) Hp Hch q Hq) as [-> ->]. done.
Qed.

(** Every call that is allowed returns, and keeps the invariant. *)
Lemma udp_step_ok c w : rings_ok rings -> world_ok w -> allowed_call c w -> returns world_ok (udp_step c w).
Proof.
  intros Hrg W Ha. destruct c as [mc p sinks|fd busy|fd iovs flags busy|fd mn n busy|fd p busy|fd r|fd r migr busy|m descs].
  - by apply packet_step.
  - by apply rx_start_step.
  - by apply read_step.
  - by apply limit_step.
  - by apply free_step.
  - destruct Ha as ([s Hs] & Hr & Hp). destruct (wo_socks w W fd s Hs) as [H1 H2]. cbn [udp_step]. rewrite Hs. cbn [must mbind res_bind].
    destruct (add_ring_ok rings (wdescs w) (others fd w) s (hp w) r H1 H2 Hr Hp) as (r' & -> & Hst). cbn [mbind res_bind]. apply returns_Ok. by eapply (world_step w fd s).
  - destruct Ha as ([s Hs] & [k Hk]). destruct (wo_socks w W fd s Hs) as [H1 H2]. cbn [udp_step]. rewrite Hs. cbn [must mbind res_bind].
    assert (exists base, get_parent rings r = Ok base) as [base Hb] by (unfold get_parent; rewrite Hk; by eexists).
    destruct (del_ring_ok rings busy (wdescs w) (others fd w) s (hp w) r base migr Hrg H1 H2 (ready_descs w fd s W Hs) Hb) as (s' & x' & -> & Hst).
    cbn [mbind res_bind]. apply returns_Ok. by eapply (world_step w fd s).
  - by apply rings_step.
Qed.

End World.

(** ** Runs *)

Definition new_socket (o : udp_opts) (limit : Z) : udp_socket :=
  UdpSocket o (ReadyQueue [] 0 0 0 0 0 limit 0 0 0 0 0) (ReuseInfo ∅ None ([], 0) false false).

Section Runs.
Context (rings : gmap ptr ring_kind) (batch : Z) (buffer : ptr -> list Z) (g_b_exit : bool).

(** Each call is allowed where it is made. *)
Fixpoint allowed_run (l : list udp_call) (w : udp_world) : Prop :=
  match l with
  | [] => True
  | c :: l => allowed_call rings buffer c w /\ forall w', udp_step rings batch buffer g_b_exit c w = Ok w' -> allowed_run l w'
  end.

(** Sockets that have just been created, and do not redirect. *)
Definition created (w : udp_world) : Prop :=
  (forall fd s, socks w !! fd = Some s -> exists o limit, m_sockopt_mapped o = false /\ s = new_socket o limit) /\ users w = [] /\ taken w = [] /\ snd (hp w) = [].

Lemma created_nothing w : created w -> everything w = [].
Proof.
  intros (Hs & Hu & _). unfold everything, held_by. rewrite Hu, app_nil_r.
  assert (Forall (fun e => holding e.2 = []) (map_to_list (socks w))) as H.
  { apply Forall_forall. intros [fd s] Hin%elem_of_map_to_list. destruct (Hs fd s Hin) as (o & li & _ & ->). done. }
  induction H as [|e l He _ IH]; [done|]. rewrite bind_cons, He. exact IH.
Qed.

Lemma created_ok w : created w -> world_ok rings buffer w.
Proof.
  intros Hc. pose proof (created_nothing w Hc) as E. destruct Hc as (Hs & Hu & Ht & Hl).
  assert (forall L, everything w ≡ₚ L -> L = []) as En by (intros L HL; rewrite E in HL; by apply Permutation_nil_l in HL).
  split; rewrite ?E.
  - intros fd s Hfd. pose proof (En _ (everything_split w fd s Hfd)) as Ea. apply app_nil in Ea as [Ea Eb]. rewrite Eb. destruct (Hs fd s Hfd) as (o & li & _ & ->).
    split; [|done]. split; [by intros p ?%not_elem_of_nil|by intros p ?%not_elem_of_nil|apply map_Forall_empty|done|done|apply map_Forall_empty].
  - by intros p ?%not_elem_of_nil.
  - by intros p ?%not_elem_of_nil.
  - intros p. rewrite Ht, Hl, decide_False by apply not_elem_of_nil. done.
  - intros fd s Hfd. by destruct (Hs fd s Hfd) as (o & li & Ho & ->).
Qed.

Lemma udp_run_ok l : rings_ok rings -> forall w, world_ok rings buffer w -> allowed_run l w -> returns (world_ok rings buffer) (udp_run rings batch buffer g_b_exit l w).
Proof.
  intros Hr. induction l as [|c l IH]; intros w Hw Ha; [by apply returns_Ok|]. destruct Ha as [Hc Hl]. cbn [udp_run].
  destruct (udp_step_ok rings batch buffer g_b_exit c w Hr Hw Hc) as (w1 & E & H1). rewrite E. cbn [mbind res_bind]. apply IH; [done|by apply Hl].
Qed.

(** C1: Receive buffers return exactly once.  The sockets do not redirect
    packets to others by a port map; the packets have no bytes behind the
    datagram; and looks at a datagram (MSG_PEEK) copy it and do not cut it off.
    Then over every sequence of packets, reads (copying or not), looks, limits,
    returned packets, rings that are attached and detached, and whatever the
    rings do with buffers that no socket has, every call returns; the reference count of each buffer is the
    number of sockets and application handles that have it; a buffer that is
    collected for its ring is nowhere else; every buffer that some socket
    took has been given back once if nobody has it any more, and not at all
    if somebody has; and the counters of each socket agree with its queue. *)
Theorem udp_conserves l w0 : rings_ok rings -> created w0 -> allowed_run l w0 -> returns (fun w =>
  (forall p, p ∈ everything w -> exists b, fst (hp w) !! p = Some b /\ n_ref_count b = Z.of_nat (occ p (everything w))) /\
  (forall fd s p, socks w !! fd = Some s -> p ∈ collected (reuse s) -> occ p (everything w) = 1%nat) /\
  (forall p, occ p (taken w) = (occ p (snd (hp w)).*2 + if decide (p ∈ everything w) then 1 else 0)%nat) /\
  (forall fd s, socks w !! fd = Some s -> counters_ok (wdescs w) (queue s))) (udp_run rings batch buffer g_b_exit l w0).
Proof.
  intros Hr Hc Ha. eapply returns_mono; [|by apply udp_run_ok; [|apply created_ok|]]. intros w [W1 W2 W3 W4 W5]. split; [|split; [|split; [done|]]].
  - intros p Hp. destruct (W2 p Hp) as (b & Hb & Hn & _). by exists b.
  - intros fd s p Hs Hp. destruct (W1 fd s Hs) as [[_ Hl _ _ _ _] _]. rewrite (everything_split w fd s Hs). unfold holding. rewrite <- app_assoc. by apply Hl.
  - intros fd s Hs. by apply (W1 fd s Hs).
Qed.

Definition reached (w : udp_world) : Prop := exists l w0, created w0 /\ allowed_run l w0 /\ udp_run rings batch buffer g_b_exit l w0 = Ok w.

Lemma reached_ok w : rings_ok rings -> reached w -> world_ok rings buffer w.
Proof.
  intros Hr (l & w0 & Hc & Ha & E). destruct (udp_run_ok l Hr w0 (created_ok w0 Hc) Ha) as (w' & E' & H). rewrite E in E'. by injection E' as <-.
Qed.

(** C7: A read returns the datagram at the front.  In every state that is
    reached, a read with any list of buffers fills them in order with the
    bytes of the fragments, as many as there is room for; without copying it
    hands out as many fragments as fit.  It returns the number of bytes, or
    the size of the datagram on request; it says if something was cut off,
    and gives the address of the sender.  The datagram leaves the queue, in
    whole, and the counters follow. *)
Theorem udp_read w fd s p rest d l iovs flags busy : rings_ok rings -> reached w -> socks w !! fd = Some s -> ready s = p :: rest ->
  datagram (wdescs w) buffer (fst (hp w)) p d l -> iovs_ok flags iovs -> has_flag flags MSG_PEEK = false ->
  exists s' x', let n := count_of (wdescs w) buffer flags iovs p l in
  dequeue_packet (wdescs w) buffer rings batch busy iovs flags s (hp w) =
    Ok (Some (RxResult (read_ret n flags d) (data_of (wdescs w) buffer flags iovs p l) (src_addr d, src_port d) (read_flags n (flags_of flags iovs l) d)), s', x') /\
  ready s' = rest /\ counters_ok (wdescs w) (queue s').
Proof.
  intros Hr Hw Hs El Hdg Hio Hpk. destruct (wo_socks _ _ _ (reached_ok w Hr Hw) fd s Hs) as [H1 H2].
  destruct (dequeue_ok rings batch busy (wdescs w) buffer _ s (hp w) p rest d l iovs flags El H1 H2 Hdg Hio Hpk) as (s' & x' & E & Hst & Hrd & _).
  exists s', x'. split; [done|]. split; [done|]. apply Hst.
Qed.

(** C19: A new limit drops the oldest packets, and no more than needed: what is
    left is the longest end of the queue whose bytes are within the limit,
    which is raised to the minimum unless it is 0. *)
Theorem udp_limit w fd s busy min_limit n : rings_ok rings -> reached w -> socks w !! fd = Some s -> 0 <= n < 2 ^ 32 -> 0 <= min_limit < 2 ^ 32 ->
  bytes (wdescs w) (ready s) < 2 ^ 32 -> Z.of_nat (length (ready s)) < 2 ^ 31 ->
  let limit := if (0 <? n) && (n <? min_limit) then min_limit else n in
  exists k s' x', rx_ready_byte_count_limit_update rings batch (wdescs w) busy min_limit n s (hp w) = Ok (s', x') /\
    ready s' = drop k (ready s) /\ n_rx_ready_byte_limit (queue s') = limit /\ bytes (wdescs w) (drop k (ready s)) <= limit /\
    forall j, (j < k)%nat -> limit < bytes (wdescs w) (drop j (ready s)).
Proof.
  intros Hr Hw Hs Hn Hmin Hb Hlen limit. pose proof (reached_ok w Hr Hw) as W. destruct (wo_socks _ _ _ W fd s Hs) as [H1 H2]. unfold rx_ready_byte_count_limit_update.
  fold limit. assert (0 <= limit < 2 ^ 32) as Hlim by (subst limit; by destruct (_ && _)). rewrite wrap_small by lia. set (s1 := set_rq _ s).
  destruct (drop_loop_ok rings batch busy (wdescs w) (held_by (delete fd (socks w)) ++ (users w).*2) (S (length (m_rx_pkt_ready_list (queue s1)))) s1 (hp w))
    as (k & s' & x' & -> & Hst & Hrd & Hli & _ & Hend & Hmost); [done|done|by apply (ready_descs rings buffer w fd s W Hs)|unfold ready; lia|].
  assert (forall l, (forall p, p ∈ l -> p ∈ ready s) -> 0 <= bytes (wdescs w) l) as Hpos.
  { intros l. induction l as [|p l IH]; intros Hl; [done|]. rewrite bytes_cons. specialize (IH ltac:(intros q Hq; apply Hl; by right)).
    destruct (wo_data _ _ _ W p) as (d & fr & Hd & _ & _ & Hsz); [eapply ready_everything; [exact Hs|]; apply Hl; left|]. unfold sz. rewrite Hd. lia. }
  assert (forall j, 0 <= bytes (wdescs w) (drop j (ready s)) < 2 ^ 32) as Hrng.
  { intros j. split; [apply Hpos; intros p Hp; rewrite <- (take_drop j (ready s)), elem_of_app; by right|].
    assert (0 <= bytes (wdescs w) (take j (ready s))) by (apply Hpos; intros p Hp; rewrite <- (take_drop j (ready s)), elem_of_app; by left).
    rewrite <- (take_drop j (ready s)) in Hb. rewrite bytes_app in Hb. lia. }
  exists k, s', x'. split; [done|]. split; [exact Hrd|]. split; [exact Hli|]. split.
  - pose proof (ss_counters _ _ _ _ _ _ _ _ Hst) as [(C1 & _ & _ & C4) _]. fold (ready s') in C1, C4. rewrite Hrd in C1, C4. change (ready s1) with (ready s) in *.
    rewrite wrap_small in C4 by apply Hrng. change (n_rx_ready_byte_limit (queue s1)) with limit in Hli. destruct Hend as [He|He]; [lia|]. rewrite He in C1.
    pose proof (length_drop (ready s) k) as Hk. rewrite swrap_small in C1 by lia. destruct (drop k (ready s)); [change (bytes (wdescs w) []) with 0; lia|cbn [length] in C1; lia].
  - intros j Hj. specialize (Hmost j Hj). change (ready s1) with (ready s) in Hmost. by rewrite wrap_small in Hmost by apply Hrng.
Qed.

End Runs.

(** ** From the ring to the application *)

Lemma chunks_all iovs : Forall (fun n => 0 <= n < 2 ^ 32) iovs -> forall D, Z.of_nat (length D) <= sumZ iovs -> concat (chunks iovs D) = D.
Proof.
  induction 1 as [|n iovs Hn Hio IH]; intros D HD; [destruct D; [done|simpl in HD; lia]|].
  change (sumZ (n :: iovs)) with (n + sumZ iovs) in HD. pose proof (sumZ_nonneg iovs Hio). simpl. rewrite IH; [apply take_drop|]. rewrite length_drop. lia.
Qed.

(** The socket takes the packet: it is open, bound to the port, its queue is
    below the limit, the packet passes the inspections that the processor of
    the socket makes, and no callback decides. *)
Definition accepts (g_b_exit : bool) (d : rx_desc) (s : udp_socket) : bool :=
  (dst_port d =? bound_port (opts s)) && (n_rx_ready_byte_count (queue s) <? n_rx_ready_byte_limit (queue s)) && negb (m_b_closed (opts s)) && negb g_b_exit &&
  (negb (full (opts s)) || inspect_full d (opts s)) && match m_rx_callback (opts s) with Some _ => false | None => true end.

Lemma accepts_ok g_b_exit p d s : accepts g_b_exit d s = true -> rx_input g_b_exit p d s = (true, update_ready p d VMA_PACKET_RECV s).
Proof.
  unfold accepts. rewrite !andb_true_iff. intros (((((H1 & H2) & H3) & H4) & H5) & H6). unfold rx_input, inspect_uc_packet. rewrite H1. cbn [negb].
  destruct (Z.leb_spec (n_rx_ready_byte_limit (queue s)) (n_rx_ready_byte_count (queue s))) as [Hle|Hgt]; [apply Z.ltb_lt in H2; lia|]. rewrite H3, H4, H5. cbn [andb]. unfold take_packet.
  by destruct (m_rx_callback (opts s)).
Qed.

Lemma answers_accept g_b_exit p d l : NoDup l -> forall fd s a, fd ∈ l -> a.1 !! fd = Some s -> accepts g_b_exit d s = true ->
  let r := answers (packet_cb g_b_exit p d) l a in true ∈ r.1 /\ r.2.1 !! fd = Some (update_ready p d VMA_PACKET_RECV s).
Proof.
  assert (forall l fd a, fd ∉ l -> (answers (packet_cb g_b_exit p d) l a).2.1 !! fd = a.1 !! fd) as Hother.
  { intros k. induction k as [|f k IH]; intros fd a Hk; [done|]. cbn [answers]. apply not_elem_of_cons in Hk as [Hne Hk]. pose proof (packet_cb_other g_b_exit p d f fd a Hne) as E.
    destruct (packet_cb g_b_exit p d f a) as [b a1]. cbn [fst snd] in E. rewrite <- E, <- (IH fd a1 Hk). by destruct (answers (packet_cb g_b_exit p d) k a1). }
  induction 1 as [|f l Hf Hnd IH]; intros fd s a Hin Hs Ha; [by apply not_elem_of_nil in Hin|]. cbn [answers]. apply elem_of_cons in Hin as [->|Hin].
  - unfold packet_cb at 1 3. rewrite Hs, (accepts_ok g_b_exit p d s Ha). cbn [fst]. set (a1 := (<[f := _]> _, _)). pose proof (Hother l f a1 Hf) as E.
    destruct (answers (packet_cb g_b_exit p d) l a1) as [ks a2]. cbn [fst snd] in *. split; [left|]. rewrite E. apply lookup_insert_eq.
  - pose proof (packet_cb_other g_b_exit p d f fd a ltac:(by intros ->)) as E. destruct (packet_cb g_b_exit p d f a) as [b a1]. cbn [fst snd] in E.
    destruct (IH fd s a1 Hin) as [I1 I2]; [by rewrite E|done|]. destruct (answers (packet_cb g_b_exit p d) l a1) as [ks a2]. cbn [fst snd] in *. split; [by right|done].
Qed.

Section EndToEnd.
Context (cfg : ring_cfg) (m_partition m_local_if : Z) (get_sockfd : Z -> option sink) (buffer : ptr -> list Z) (igmp_mgr : bool).
Context (get_fd : sink -> Z) (addr_in_reuse : sink -> bool) (uninitialised : option sink).
Context (rings : gmap ptr ring_kind) (batch : Z) (g_b_exit : bool).
Context (gro_dispatch : rfs -> ptr -> gmap Z udp_socket * list (Z * ptr) -> bool * Z * (gmap Z udp_socket * list (Z * ptr)))
  (process_igmp_packet : ptr -> gmap Z udp_socket * list (Z * ptr) -> gmap Z udp_socket * list (Z * ptr)).

Definition sockets_cb (p : ptr) (o : option rx_desc) (fd : sink) (a : gmap Z udp_socket * list (Z * ptr)) : bool * (gmap Z udp_socket * list (Z * ptr)) :=
  match o with Some d => packet_cb g_b_exit p d fd a | None => (false, a) end.

Abbreviation process := (rx_process_buffer sockets_cb gro_dispatch process_igmp_packet cfg m_partition m_local_if get_sockfd buffer igmp_mgr).
Abbreviation runs l := (events_run cfg get_fd addr_in_reuse uninitialised l (new_ring, [], [])).

(** The buffer of the packet is not part of a packet that a socket has. *)
Definition fresh (p : ptr) (W : udp_world) : Prop :=
  p ∉ everything W /\ forall q l, q ∈ everything W -> chain (fst (hp W)) (Some q) l -> p ∉ l.

Lemma frame_datagram f p b b' d descs m : frame_ok cfg m_partition f -> received buffer p f b -> descs !! p = Some (udp_desc m_local_if f d) -> m !! p = Some b' -> p_next_desc b' = None ->
  datagram descs buffer m p (udp_desc m_local_if f d) [] /\ payload descs buffer [p] = f_payload f.
Proof.
  intros Hf Hr Hd Hm Hn. pose proof (received_payload cfg m_partition m_local_if buffer p f b d Hf Hr) as Hp.
  assert (payload descs buffer [p] = f_payload f) as E.
  { rewrite (payload_cons descs buffer p _ [] Hd). unfold slice. rewrite Hp. apply app_nil_r. }
  split; [|done]. pose proof (ntohs_range (f_len f)) as Hrg. rewrite (fo_len _ _ _ Hf) in Hrg. split; [done|]. split; [by apply single_chain; exists b'|].
  split; [|rewrite E; simpl; lia]. constructor; [|constructor]. exists (udp_desc m_local_if f d). split; [done|]. destruct Hr as (Hbuf & _).
  destruct (fo_ip _ _ _ Hf) as (Hi & Ho & _). pose proof (l2_bytes_len cfg m_partition _ (fo_l2 _ _ _ Hf)) as Hl2. unfold frag_in. simpl. rewrite Hbuf, !length_app.
  unfold f_ip_bytes, f_base. rewrite length_ip_bytes. change (length (f_udp_bytes f)) with 8%nat. lia.
Qed.

Lemma sinks_NoDup l r P R k : supported cfg -> device_removed cfg = false -> mc_filtered cfg = false -> tcp_3t_rules cfg = false ->
  runs l = Ok (r, P, R) -> NoDup (sinks_of k R).
Proof.
  intros Hs Hd Hm Ht Hr. destruct (events_run_ok cfg get_fd addr_in_reuse uninitialised l _ Hs Hd (no_filters cfg Hm Ht) (schedule_start cfg)) as (x & Hx & [Hok _]).
  rewrite Hr in Hx. injection Hx as <-. apply NoDup_sinks_of, Hok.
Qed.

(** The ring writes to the buffer of the packet: the sockets do not notice. *)
Lemma world_fresh W m log p b d : world_ok rings buffer W -> hp W = (m, log) -> fresh p W ->
  world_ok rings buffer (World (socks W) (<[p := b]> m, log) (<[p := d]> (wdescs W)) (users W) (taken W)).
Proof.
  intros HW Hhp [Hp Hch]. destruct (rings_step rings batch buffer g_b_exit W (<[p := b]> m) (<[p := d]> (wdescs W)) HW) as (w' & E & H').
  - intros q l Hq Hl r Hr. rewrite Hhp in *. cbn [fst] in *. assert (r <> p) by (intros ->; by apply (Hch q l Hq Hl)). by rewrite !lookup_insert_ne.
  - cbn [udp_step] in E. injection E as <-. by rewrite Hhp in H'.
Qed.

(** Where a datagram goes, with the sockets in order before and after. *)
Lemma delivered_ok l r P R p w b d f W log : supported cfg -> device_removed cfg = false -> mc_filtered cfg = false -> tcp_3t_rules cfg = false ->
  runs l = Ok (r, P, R) -> frame_ok cfg m_partition f -> received buffer p f b -> bufs_ (frag_mgr w) !! p = Some b -> rx w !! p = Some d -> untagged cfg d ->
  accepted f d = true -> world_ok rings buffer W -> hp W = (bufs_ (frag_mgr w), log) -> wdescs W = rx w -> fresh p W -> pbuf_ref b <= 1 -> known rings b ->
  let socks_ := sinks_of (udp_key (ih_daddr (f_ip f)) (f_dest f)) R in let d' := udp_desc m_local_if f d in socks_ <> [] -> Z.of_nat (length socks_) < 2 ^ 31 ->
  exists ret asked rest m w', let x := answers (packet_cb g_b_exit p d') asked (socks W, users W) in
    process p r w (socks W, users W) = Ok (ret, w', x.2) /\ socks_ = asked ++ rest /\
    (if CacheTable.NeighTable.IN_MULTICAST_N (ih_daddr (f_ip f)) then rest = [] /\ ret = bool_decide (true ∈ x.1)
     else x.1 = replicate m false ++ (if ret : bool then [true] else []) /\ (ret = false -> rest = [])) /\
    datagram (rx w') buffer (bufs_ (frag_mgr w')) p d' [] /\ payload (rx w') buffer [p] = f_payload f /\
    exists t, world_ok rings buffer (World x.2.1 (bufs_ (frag_mgr w'), log) (rx w') x.2.2 t).
Proof.
  intros Hs Hdev Hm Ht Hrun Hf Hr Hb Hd Hu Hacc HW Hhp Hwd Hfr Hpb Hkn socks_ d' Hne Hlen. subst socks_.
  destruct (udp_processed cfg m_partition m_local_if get_sockfd buffer igmp_mgr get_fd addr_in_reuse uninitialised sockets_cb gro_dispatch process_igmp_packet l r P R p w b d f (socks W, users W)
    Hs Hdev Hm Ht Hrun Hf Hr Hb Hd Hu) as (ret & asked & rest & m & w' & H1 & H2 & H3 & H4).
  rewrite Hacc in H2, H4. destruct (H4 eq_refl Hne) as [Erx Ebufs]. clear H4. fold d' in Erx. change (sockets_cb p (Some (udp_desc m_local_if f d))) with (packet_cb g_b_exit p d') in *.
  exists ret, asked, rest, m, w'. set (x := answers _ _ _) in *. split; [done|]. split; [done|]. split; [done|].
  assert (p_next_desc b = None) as Hnx by apply Hr.
  destruct (frame_datagram f p b (set_ref_count (Z.of_nat (keepers x.1)) (set_sz_data (f_end f) b)) d (rx w') (bufs_ (frag_mgr w')) Hf Hr) as [D1 D2];
    [by rewrite Erx, lookup_insert_eq|by rewrite Ebufs, lookup_insert_eq|done|]. split; [done|]. split; [done|].
  pose proof (world_fresh W (bufs_ (frag_mgr w)) log p (set_sz_data (f_end f) b) d' HW Hhp Hfr) as HW1. rewrite Hwd in HW1. set (W1 := World _ _ _ _ _) in HW1.
  assert (everything W1 = everything W) as EW by done.
  assert (NoDup asked) as Hnd.
  { pose proof (sinks_NoDup l r P R (udp_key (ih_daddr (f_ip f)) (f_dest f)) Hs Hdev Hm Ht Hrun) as Hnd. rewrite H2 in Hnd. by apply NoDup_app in Hnd as [? _]. }
  assert (grown (wdescs W1) p (keepers x.1) (socks W1, users W1) x.2) as Hg.
  { apply answers_ok; [apply lookup_insert_eq|done|]. intros fd s _ Hsk Hin. apply (proj1 Hfr). by eapply ready_everything. }
  assert (length x.1 = length asked) as Hlx.
  { subst x. clear. generalize (socks W, users W). induction asked as [|fd k IH]; intros a; [done|]. cbn [answers]. destruct (packet_cb g_b_exit p d' fd a) as [c a1]. specialize (IH a1).
    destruct (answers (packet_cb g_b_exit p d') k a1) as [ks a2]. cbn [fst] in *. simpl. by rewrite IH. }
  eexists. pose proof (packet_grown rings buffer W1 p (set_sz_data (f_end f) b) d' [] (keepers x.1) x.2 HW1) as HP.
  rewrite EW in HP. unfold W1 in HP. cbn [hp wdescs taken fst snd] in HP. rewrite insert_insert_eq, <- Ebufs, <- Erx in HP. apply HP; clear HP.
  - apply Hfr.
  - assert (keepers x.1 <= length x.1)%nat by apply length_filter. rewrite H2, length_app in Hlen. lia.
  - apply lookup_insert_eq.
  - done.
  - done.
  - apply (frame_datagram f p b (set_sz_data (f_end f) b) d); try done; [by rewrite Erx, lookup_insert_eq|apply lookup_insert_eq].
  - by rewrite Erx.
Qed.

(** C4: A datagram that arrives can be read.  Whatever attachments the ring
    went through, with a rule of the adapter for each flow (none is shared) on
    a device that is present, and whatever the other sockets have, if a
    datagram in one piece with correct checksums arrives for a flow, without a
    flow tag, then a socket of the flow that accepts it (open, on the port,
    below its limit, with inspections that the packet passes and without a
    callback; the first socket of the flow, or any one if the address is a
    multicast group), that does not redirect and has nothing to read, can read
    it: a copying read with buffers that are large enough returns the number of
    bytes, the buffers get exactly the payload, and the sender is the one in
    the headers. *)
Theorem udp_end_to_end l r P R p w b d f W log fd s iovs flags busy : supported cfg -> device_removed cfg = false -> mc_filtered cfg = false -> tcp_3t_rules cfg = false ->
  runs l = Ok (r, P, R) -> frame_ok cfg m_partition f -> received buffer p f b -> bufs_ (frag_mgr w) !! p = Some b -> rx w !! p = Some d -> untagged cfg d ->
  accepted f d = true -> world_ok rings buffer W -> hp W = (bufs_ (frag_mgr w), log) -> wdescs W = rx w -> fresh p W -> pbuf_ref b <= 1 -> known rings b ->
  let sinks := sinks_of (udp_key (ih_daddr (f_ip f)) (f_dest f)) R in Z.of_nat (length sinks) < 2 ^ 31 ->
  (if CacheTable.NeighTable.IN_MULTICAST_N (ih_daddr (f_ip f)) then fd ∈ sinks else head sinks = Some fd) ->
  socks W !! fd = Some s -> accepts g_b_exit (udp_desc m_local_if f d) s = true -> ready s = [] ->
  Forall (fun n => 0 <= n < 2 ^ 32) iovs -> Z.of_nat (length (f_payload f)) <= sumZ iovs -> has_flag flags MSG_PEEK = false -> has_flag flags MSG_VMA_ZCOPY = false ->
  exists w' a' s', process p r w (socks W, users W) = Ok (true, w', a') /\ fst a' !! fd = Some s' /\
  exists bytes s2 x2, dequeue_packet (rx w') buffer rings batch busy iovs flags s' (bufs_ (frag_mgr w'), log) =
    Ok (Some (RxResult (Z.of_nat (length (f_payload f))) (copied bytes) (ih_saddr (f_ip f), f_source f) 0), s2, x2) /\ concat bytes = f_payload f /\ ready s2 = [].
Proof.
  intros Hs Hdev Hm Ht Hrun Hf Hr Hb Hd Hu Hacc HW Hhp Hwd Hfr Hpb Hkn sinks Hlen Hfd Hsk Hok Hrd Hio Hsum Hpk Hz.
  assert (fd ∈ sinks) as Hin by (destruct (CacheTable.NeighTable.IN_MULTICAST_N _); [done|]; destruct sinks; [done|]; injection Hfd as ->; left).
  destruct (delivered_ok l r P R p w b d f W log Hs Hdev Hm Ht Hrun Hf Hr Hb Hd Hu Hacc HW Hhp Hwd Hfr Hpb Hkn) as (ret & asked & rest & m & w' & Hp & Hsk' & Hcase & Hdg & Hpay & t & HW').
  { fold sinks. by destruct sinks; [apply not_elem_of_nil in Hin|]. } { done. } fold sinks in Hsk'. set (d' := udp_desc m_local_if f d) in *.
  assert (NoDup asked) as Hnd.
  { pose proof (sinks_NoDup l r P R (udp_key (ih_daddr (f_ip f)) (f_dest f)) Hs Hdev Hm Ht Hrun) as Hnd. fold sinks in Hnd. rewrite Hsk' in Hnd. by apply NoDup_app in Hnd as [? _]. }
  assert (fd ∈ asked) as Hask.
  { destruct (CacheTable.NeighTable.IN_MULTICAST_N _); [destruct Hcase as [-> _]; by rewrite app_nil_r in Hsk'; rewrite <- Hsk'|]. destruct asked as [|fd' asked].
    - destruct Hcase as [Hc1 Hc2]. destruct ret; [by destruct m|]. rewrite (Hc2 eq_refl) in Hsk'. simpl in Hsk'. by rewrite Hsk' in Hin; apply not_elem_of_nil in Hin.
    - rewrite Hsk' in Hfd. injection Hfd as ->. left. }
  destruct (answers_accept g_b_exit p d' asked Hnd fd s (socks W, users W) Hask Hsk Hok) as [Htrue Hs']. set (x := answers _ _ _) in *.
  assert (ret = true) as ->.
  { destruct (CacheTable.NeighTable.IN_MULTICAST_N _); [destruct Hcase as [_ ->]; by apply bool_decide_true|]. destruct ret; [done|]. destruct Hcase as [Hc _]. rewrite Hc, app_nil_r in Htrue.
    by apply elem_of_replicate in Htrue as [? _]. }
  exists w', x.2, (update_ready p d' VMA_PACKET_RECV s). split; [done|]. split; [done|]. set (s' := update_ready _ _ _ _) in *.
  assert (ready s' = [p]) as Hrd' by (unfold s', ready; simpl; fold (ready s); by rewrite Hrd).
  destruct (wo_socks _ _ _ HW' fd s' Hs') as [Hre Hco]. cbn [socks users hp wdescs] in Hre, Hco.
  destruct (dequeue_ok rings batch busy (rx w') buffer _ s' (bufs_ (frag_mgr w'), log) p [] d' [] iovs flags Hrd' Hre Hco Hdg) as (s2 & x2 & E & _ & Hr2 & _);
    [by unfold iovs_ok; rewrite Hz|done|].
  unfold data_of, count_of, flags_of in E. rewrite Hz, Hpay in E. cbn [andb] in E. rewrite Z.min_r in E by lia.
  assert (sz_payload d' = Z.of_nat (length (f_payload f))) as Esz by done. unfold read_ret, read_flags in E. rewrite Esz, Z.ltb_irrefl in E. cbn [andb] in E.
  exists (chunks iovs (f_payload f)), s2, x2. split; [exact E|]. split; [by apply chunks_all|done].
Qed.

End EndToEnd.

(** ** Two sockets *)

Module UdpWorldExample.
Import UdpExample.

(** Sockets 3 and 4 on port 5000, and a datagram of three bytes in buffer 1,
    which belongs to ring 9. *)
Definition sock (o : udp_opts) : udp_socket := new_socket o 100.
Definition start : udp_world :=
  World {[3 := sock opts0; 4 := sock opts0]} ({[1%positive := MemBufDesc 0 0 0 0 None 5 (Some 9%positive)]}, []) {[1%positive := desc 3 3]} [] [].

Abbreviation step c w := (udp_step rings 16 buffer false c w).
Definition next (c : udp_call) (w : udp_world) : udp_world := match step c w with Ok w => w | _ => w end.

(** Both sockets get the packet; 3 reads two bytes of it, 4 all of it. *)
Definition call1 : udp_call := c_packet true 1 [3; 4].
Definition call2 : udp_call := c_read 3 [2] 0 free_.
Definition call3 : udp_call := c_read 4 [1; 8] 0 free_.
Definition w1 : udp_world := next call1 start.
Definition w2 : udp_world := next call2 w1.

Definition sock_at (fd : Z) (w : udp_world) : udp_socket := default (sock opts0) (socks w !! fd).

Lemma rings_fine : rings_ok rings.
Proof.
  intros r q Hr. unfold rings in Hr. apply lookup_insert_Some in Hr as [[<- [= <-]]|[_ Hr]]; [by left|].
  apply lookup_insert_Some in Hr as [[<- [= <-]]|[_ Hr]]; [right; by exists [8%positive]|]. by apply lookup_singleton_Some in Hr as [_ Hr].
Qed.

Lemma start_created : created start.
Proof.
  split; [|done]. intros fd s Hs. simpl in Hs. apply lookup_insert_Some in Hs as [[_ <-]|[_ Hs]]; [by exists opts0, 100|]. apply lookup_singleton_Some in Hs as [_ <-]. by exists opts0, 100.
Qed.

Lemma datagram_fine m b : m !! 1%positive = Some b -> p_next_desc b = None -> datagram (wdescs start) buffer m 1 (desc 3 3) [].
Proof.
  intros Hb Hn. split; [done|]. split; [split; [done|]; by exists b|]. split; [|vm_compute; done]. constructor; [|constructor]. exists (desc 3 3). split; [done|]. vm_compute. done.
Qed.

Lemma call1_allowed : allowed_call rings buffer call1 start.
Proof.
  split; [apply (bool_decide_unpack _); vm_compute; done|]. split; [apply (bool_decide_unpack _); vm_compute; done|]. split; [done|]. split.
  - eexists. split; [done|]. split; [done|]. exists 9%positive. split; [done|]. by exists 9%positive.
  - exists (desc 3 3), []. by eapply datagram_fine.
Qed.

Lemma read_allowed fd iovs w : ready (sock_at fd w) = [1%positive] -> socks w !! fd = Some (sock_at fd w) -> Forall (fun n => 0 <= n < 2 ^ 32) iovs ->
  allowed_call rings buffer (c_read fd iovs 0 free_) w.
Proof. intros H1 H2 H3. exists (sock_at fd w). by split_and!. Qed.

Lemma run_allowed : allowed_run rings 16 buffer false [call1; call2; call3] start.
Proof.
  split; [exact call1_allowed|]. intros w' E. assert (w' = w1) as -> by (unfold w1, next; by rewrite E). clear E.
  split; [apply read_allowed; [vm_compute; done|vm_compute; done|by repeat constructor]|]. intros w' E. assert (w' = w2) as -> by (unfold w2, next; by rewrite E). clear E.
  split; [apply read_allowed; [vm_compute; done|vm_compute; done|by repeat constructor]|]. done.
Qed.

(** In the end the buffer has gone to the pool, once: socket 4 was the last to
    have it, and has no ring. *)
Lemma udp_conserves_witness : exists w, udp_run rings 16 buffer false [call1; call2; call3] start = Ok w /\ occ 1%positive (taken w) = 1%nat /\
  occ 1%positive (taken w) = (occ 1%positive (snd (hp w)).*2 + if decide (1%positive ∈ everything w) then 1 else 0)%nat.
Proof.
  destruct (udp_conserves rings 16 buffer false [call1; call2; call3] start rings_fine start_created run_allowed) as (w & E & _ & _ & H & _).
  exists w. split; [exact E|]. split; [|exact (H 1%positive)]. vm_compute in E. injection E as <-. vm_compute. reflexivity.
Defined.

Lemma w1_reached : reached rings 16 buffer false w1.
Proof.
  exists [call1], start. split; [exact start_created|]. split; [|vm_compute; reflexivity]. split; [exact call1_allowed|done].
Qed.

Lemma udp_read_witness : exists s' x', dequeue_packet (wdescs w1) buffer rings 16 free_ [1; 8] MSG_TRUNC (sock_at 4 w1) (hp w1) =
  Ok (Some (RxResult 3 (copied [[10]; [20; 30]]) (20, 7) 0), s', x') /\ ready s' = [].
Proof.
  destruct (udp_read rings 16 buffer false w1 4 (sock_at 4 w1) 1%positive [] (desc 3 3) [] [1; 8] MSG_TRUNC free_ rings_fine w1_reached) as (s' & x' & E & Hr & _).
  - vm_compute. reflexivity.
  - vm_compute. reflexivity.
  - eapply datagram_fine; vm_compute; reflexivity.
  - by repeat constructor.
  - reflexivity.
  - exists s', x'. split; [exact E|exact Hr].
Defined.

Lemma udp_limit_witness : exists k s' x', rx_ready_byte_count_limit_update rings 16 (wdescs w1) free_ 2 1 (sock_at 4 w1) (hp w1) = Ok (s', x') /\
  ready s' = drop k [1%positive] /\ bytes (wdescs w1) (drop k [1%positive]) <= 2.
Proof.
  destruct (udp_limit rings 16 buffer false w1 4 (sock_at 4 w1) free_ 2 1 rings_fine w1_reached) as (k & s' & x' & E & Hr & _ & Hb & _).
  - vm_compute. reflexivity.
  - lia.
  - lia.
  - vm_compute. reflexivity.
  - vm_compute. reflexivity.
  - exists k, s', x'. split; [exact E|]. split; [exact Hr|exact Hb].
Defined.

(** The datagram of [RxExample], in a buffer of ring 9, and socket 3 on its port. *)
Definition f0 : udp_frame := RxExample.frame [] 0 0.
Definition b0 : mem_buf_desc_t := MemBufDesc 0 0 0 0 None (f_end f0 + 1) (Some 9%positive).
Definition rx0 : rx_world := RxWorld (Manager {[1%positive := b0]} 0 [] ∅ [] 0 [] 0) {[1%positive := RxExample.desc 0 false]}.
Definition wire (p : ptr) : list Z := RxExample.frame_bytes f0.
Definition opts1 : udp_opts := UdpOpts (ntohs 5000) 0 0 false false false true 0 ∅ false [] 0 false None.
Definition world0 : udp_world := World {[3 := sock opts1]} ({[1%positive := b0]}, []) (rx rx0) [] [].

Lemma world0_created : created world0.
Proof. split; [|done]. intros fd s Hs. simpl in Hs. apply lookup_singleton_Some in Hs as [_ <-]. by exists opts1, 100. Qed.

Lemma fresh0 : fresh 1 world0.
Proof. unfold fresh. rewrite (created_nothing world0 world0_created). split; [apply not_elem_of_nil|by intros q l ?%not_elem_of_nil]. Qed.

Lemma received0 : received wire 1 f0 b0.
Proof. split; [done|]. split; [|by vm_compute]. apply (bool_decide_unpack _). vm_compute. done. Qed.

Lemma udp_end_to_end_witness : exists w' a' s',
  rx_process_buffer (sockets_cb false) (fun _ _ a => (false, 0, a)) (fun _ a => a) RxExample.eth_cfg 0 10 (fun fd => Some fd) wire true 1 RxExample.ring rx0 (socks world0, []) = Ok (true, w', a') /\
  fst a' !! 3 = Some s' /\ exists bytes s2 x2, dequeue_packet (rx w') wire rings 16 free_ [1; 8] 0 s' (bufs_ (frag_mgr w'), []) =
    Ok (Some (RxResult 3 (copied bytes) (20, 7) 0), s2, x2) /\ concat bytes = [1; 2; 3] /\ ready s2 = [].
Proof.
  destruct (events_run RxExample.eth_cfg id (fun _ => false) None RxExample.attach_events (new_ring, [], [])) as [[[r P] R]| | |] eqn:E; [|by vm_compute in E..].
  assert (R = [(key_udp_uc (ntohs 5000), 3); (key_udp_uc (ntohs 5000), 4)]) as HR by (vm_compute in E; injection E as _ _ <-; by vm_compute).
  assert (RxExample.ring = r) as -> by (unfold RxExample.ring; by rewrite E).
  apply (udp_end_to_end RxExample.eth_cfg 0 10 (fun fd => Some fd) wire true id (fun _ => false) None rings 16 false (fun _ _ a => (false, 0, a)) (fun _ a => a)
    RxExample.attach_events r P R 1%positive rx0 b0 (RxExample.desc 0 false) f0 world0 [] 3 (sock opts1) [1; 8] 0 free_).
  - by left.
  - done.
  - done.
  - done.
  - exact E.
  - apply RxExample.frame_fine. by left.
  - exact received0.
  - done.
  - done.
  - by right; left.
  - by vm_compute.
  - apply created_ok, world0_created.
  - done.
  - done.
  - exact fresh0.
  - done.
  - exists 9%positive. split; [done|]. by exists 9%positive.
  - rewrite HR. by vm_compute.
  - rewrite HR. by vm_compute.
  - done.
  - by vm_compute.
  - done.
  - by repeat constructor.
  - by vm_compute.
  - done.
  - done.
Defined.

End UdpWorldExample.
