(* ===== verification/Receiver.v ===== *)
(** * The flows of a socket (src/vma/sock/sockinfo.cpp: [attach_receiver],
      [detach_receiver], the resources of a device, the migration of rings)

    A socket receives through flows.  Each flow is steered by a ring of the
    device that has its local address; the socket has one reservation of a
    ring for each local address that its flows use, under the key of its
    allocation logic, and a count of its flows for each ring.  The two other
    parties are classes: [RingDevice] is what a device promises ([RingMap]
    implements it) and [RingUser] the part of the socket that knows its rings
    ([UdpSocket] implements it).  Between the calls other sockets reserve and
    release rings.  This is the build without DEFINED_SOCKETXTREME. *)

From S2P Require Import Prelude MemBuf RingAlloc RingMap FlowSteering RxPath UdpSocket.

(** ** Data *)

Record flow_tuple_with_local_if := FlowIf { tuple : flow_tuple; m_local_if : Z }.

#[global] Instance flow_if_eq_dec : EqDecision flow_tuple_with_local_if.
Proof. solve_decision. Defined.
#[global] Instance flow_if_countable : Countable flow_tuple_with_local_if.
Proof.
  apply (inj_countable'
    (fun f => (m_dst_ip (tuple f), m_dst_port (tuple f), m_src_ip (tuple f), m_src_port (tuple f), m_protocol (tuple f), m_local_if f))
    (fun '(a, b, c, d, e, i) => FlowIf (FlowTuple a b c d e) i)).
  by intros [[] ?].
Defined.

(** [LOOPBACK_N], for addresses in network byte order. *)
Definition is_local_loopback (t : flow_tuple) : bool := Z.land (m_dst_ip t) 255 =? 127.

Record net_device_resources_t := NdResources { nd_refcnt : Z; p_ndv : Z; p_ring : Z }.

(** What the table of devices says of a local address: registration fails,
    the entry has no value, or the entry has a device. *)
Inductive device_of := no_entry | no_val | device (v : Z).

(** ** Interfaces *)

(** [reserve_ring] and [release_ring] of a device, with the value of the key
    at the time of the call; the first argument is what [create_ring] returns
    if it is called. *)
Class RingDevice (D : Type) := {
  reserve : option Z -> ring_alloc_logic_attr -> D -> res (option Z * D);
  release : ring_alloc_logic_attr -> D -> res (bool * D)
}.

(** Counts of references per key, as long as they fit an [int]. *)
Class RingDeviceLaws (D : Type) `{RingDevice D} := {
  has_rings : D -> ring_table -> Prop;
  reserve_law : forall d A created k, has_rings d A -> map_Forall (fun _ x => snd x < 2 ^ 31 - 1) A ->
    exists r d' A', reserve created k d = Ok (r, d') /\ spec_reserve created (kv k) A = (Reserved r, A') /\ has_rings d' A';
  release_law : forall d A k, has_rings d A -> map_Forall (fun _ x => snd x < 2 ^ 31 - 1) A ->
    exists b d' A', release k d = Ok (b, d') /\ spec_release (kv k) A = (Released b, A') /\ has_rings d' A'
}.

(** [rx_add_ring_cb], [rx_del_ring_cb], [set_rx_packet_processor] and the
    choice of [m_p_rx_ring] after a migration. *)
Class RingUser (Q : Type) := {
  add_ring : Z -> Q -> res Q;
  del_ring : Z -> bool -> Q -> res Q;
  processor : Q -> Q;
  settle_ring : Q -> Q;
  ring_refs : Q -> gmap Z Z
}.

Definition one_less (r n : Z) (f : gmap Z Z) : gmap Z Z := if n =? 1 then delete r f else <[r := n - 1]> f.
Definition one_more (r : Z) (f : gmap Z Z) : gmap Z Z := <[r := default 0 (f !! r) + 1]> f.

(** The counts of flows per ring; [usable] are rings that a device can give
    to this socket. *)
Class RingUserLaws (Q : Type) `{RingUser Q} := {
  user_ok : Q -> Prop;
  usable : Z -> Prop;
  add_law : forall r q, user_ok q -> usable r -> 0 <= default 0 (ring_refs q !! r) < 2 ^ 31 - 1 ->
    exists q', add_ring r q = Ok q' /\ user_ok q' /\ ring_refs q' = one_more r (ring_refs q);
  del_law : forall r migration q n, user_ok q -> usable r -> ring_refs q !! r = Some n -> 0 < n < 2 ^ 31 ->
    exists q', del_ring r migration q = Ok q' /\ user_ok q' /\ ring_refs q' = one_less r n (ring_refs q);
  processor_law : forall q, user_ok q -> user_ok (processor q) /\ ring_refs (processor q) = ring_refs q;
  settle_law : forall q, user_ok q -> user_ok (settle_ring q) /\ ring_refs (settle_ring q) = ring_refs q
}.

(** ** The socket *)

(** [m_res_key] is the key of [m_ring_alloc_logic]; [observed] are the entries
    that [m_rx_nd_observer] is registered with, [steered] the flows that rings
    steer to the socket. *)
Record sock_rx (Q D : Type) := SockRx {
  m_rx_nd_map : gmap Z net_device_resources_t;
  m_rx_flow_map : gmap flow_tuple_with_local_if Z;
  m_res_key : ring_alloc_logic_attr;
  observed : gset Z;
  steered : gset (Z * flow_tuple_with_local_if);
  rxq : Q;
  devs : gmap Z D
}.
Arguments SockRx {Q D}.
Arguments m_rx_nd_map {Q D}.
Arguments m_rx_flow_map {Q D}.
Arguments m_res_key {Q D}.
Arguments observed {Q D}.
Arguments steered {Q D}.
Arguments rxq {Q D}.
Arguments devs {Q D}.

Section Sock.
Context {Q D : Type} `{RingUser Q} `{RingDevice D}.
Abbreviation sock := (sock_rx Q D).

Definition set_nd (f : gmap Z net_device_resources_t) (s : sock) : sock :=
  SockRx f (m_rx_flow_map s) (m_res_key s) (observed s) (steered s) (rxq s) (devs s).
Definition set_flows (f : gmap flow_tuple_with_local_if Z) (s : sock) : sock :=
  SockRx (m_rx_nd_map s) f (m_res_key s) (observed s) (steered s) (rxq s) (devs s).
Definition set_key (k : ring_alloc_logic_attr) (s : sock) : sock :=
  SockRx (m_rx_nd_map s) (m_rx_flow_map s) k (observed s) (steered s) (rxq s) (devs s).
Definition set_observed (o : gset Z) (s : sock) : sock :=
  SockRx (m_rx_nd_map s) (m_rx_flow_map s) (m_res_key s) o (steered s) (rxq s) (devs s).
Definition set_steered (x : gset (Z * flow_tuple_with_local_if)) (s : sock) : sock :=
  SockRx (m_rx_nd_map s) (m_rx_flow_map s) (m_res_key s) (observed s) x (rxq s) (devs s).
Definition set_rxq (q : Q) (s : sock) : sock :=
  SockRx (m_rx_nd_map s) (m_rx_flow_map s) (m_res_key s) (observed s) (steered s) q (devs s).
Definition set_devs (f : gmap Z D) (s : sock) : sock :=
  SockRx (m_rx_nd_map s) (m_rx_flow_map s) (m_res_key s) (observed s) (steered s) (rxq s) f.

(** What the outside answers during a call: the table of devices, the ring
    that each device creates if it has to, the key that [create_new_key]
    finds for the calling thread, and whether a ring can steer a flow. *)
Record answers_t := Answers {
  get_val : Z -> device_of;
  create_ring : Z -> option Z;
  new_id : Z;
  attach_flow_ok : Z -> flow_tuple_with_local_if -> bool
}.

Definition create_nd_resources (a : answers_t) (ip : Z) (s : sock) : res (option Z * sock) :=
  match m_rx_nd_map s !! ip with
  | Some nd =>
    Ok (Some (p_ring nd), set_nd (<[ip := NdResources (i32 (nd_refcnt nd + 1)) (p_ndv nd) (p_ring nd)]> (m_rx_nd_map s)) s)
  | None =>
    match get_val a ip with
    | no_entry => Ok (None, s)
    | no_val => Ok (None, set_observed ({[ip]} ∪ observed s) s)
    | device v =>
      let s := set_observed ({[ip]} ∪ observed s) s in
      let s := if (size (ring_refs (rxq s)) =? 0)%nat then set_key (set_user_id_key (new_id a) (m_res_key s)) s else s in
      d ← must (devs s !! v);
      x ← reserve (create_ring a v) (m_res_key s) d;
      let s := set_devs (<[v := x.2]> (devs s)) s in
      match x.1 with
      | None => Ok (None, s)
      | Some r => Ok (Some r, set_nd (<[ip := NdResources 1 v r]> (m_rx_nd_map s)) s)
      end
    end
  end.

Definition destroy_nd_resources (ip : Z) (s : sock) : res (bool * sock) :=
  match m_rx_nd_map s !! ip with
  | None => Ok (false, s)
  | Some nd =>
    let n := i32 (nd_refcnt nd - 1) in
    let s := set_nd (<[ip := NdResources n (p_ndv nd) (p_ring nd)]> (m_rx_nd_map s)) s in
    if negb (n =? 0) then Ok (true, s)
    else
      d ← must (devs s !! p_ndv nd);
      x ← release (m_res_key s) d;
      let s := set_devs (<[p_ndv nd := x.2]> (devs s)) s in
      if negb x.1 then Ok (false, s)
      else if negb (bool_decide (ip ∈ observed s)) then Ok (false, s)
      else Ok (true, set_nd (delete ip (m_rx_nd_map s)) (set_observed (observed s ∖ {[ip]}) s))
  end.

Definition detach_receiver (f : flow_tuple_with_local_if) (s : sock) : res (bool * sock) :=
  match m_rx_flow_map s !! f with
  | None => Ok (false, s)
  | Some r =>
    let s := set_steered (steered s ∖ {[(r, f)]}) s in
    q ← del_ring r false (rxq s);
    destroy_nd_resources (m_local_if f) (set_flows (delete f (m_rx_flow_map s)) (set_rxq q s))
  end.

Definition three_tuple (f : flow_tuple_with_local_if) : flow_tuple_with_local_if :=
  FlowIf (FlowTuple (m_dst_ip (tuple f)) (m_dst_port (tuple f)) 0 0 (m_protocol (tuple f))) (m_local_if f).

(** A flow that the ring refuses stays in the map. *)
Definition attach_receiver (a : answers_t) (f : flow_tuple_with_local_if) (s : sock) : res (bool * sock) :=
  if is_local_loopback (tuple f) then Ok (false, s)
  else match m_rx_flow_map s !! f with
  | Some _ => Ok (false, s)
  | None =>
    x ← create_nd_resources a (m_local_if f) s;
    let '(o, s) := x : option Z * sock in
    match o with
    | None => Ok (false, s)
    | Some r =>
      let s := set_flows (<[f := r]> (m_rx_flow_map s)) s in
      q ← add_ring r (rxq s);
      let s := set_rxq q s in
      if negb (attach_flow_ok a r f) then Ok (false, s)
      else
        let s := set_rxq (processor (rxq s)) (set_steered ({[(r, f)]} ∪ steered s) s) in
        if is_5_tuple (tuple f) && bool_decide (is_Some (m_rx_flow_map s !! three_tuple f))
        then y ← detach_receiver (three_tuple f) s; Ok (true, y.2)
        else Ok (true, s)
    end
  end.

(** [attach_as_uc_receiver]: one flow for a bound address or device, or one
    for each offloaded address, until one fails; [target_vma] is
    [find_target_family]. *)
Fixpoint attach_all (a : answers_t) (target_vma : Z -> bool) (flow : Z -> flow_tuple) (l : list Z) (s : sock) : res (bool * sock) :=
  match l with
  | [] => Ok (true, s)
  | ip :: l =>
    x ← (if target_vma ip then attach_receiver a (FlowIf (flow ip) ip) s else Ok (true, s));
    let '(ret, s) := x : bool * sock in
    if ret then attach_all a target_vma flow l s else Ok (false, s)
  end.

Definition attach_as_uc_receiver (a : answers_t) (target_vma : Z -> bool) (ip_list : list Z) (m_bound m_connected : Z * Z) (m_protocol m_so_bindtodevice_ip : Z) (s : sock)
    : res (bool * sock) :=
  let flow ip := FlowTuple ip (snd m_bound) (fst m_connected) (snd m_connected) m_protocol in
  let local_if := if negb (m_so_bindtodevice_ip =? 0) then m_so_bindtodevice_ip else fst m_bound in
  if negb (local_if =? 0) then
    if target_vma (fst m_bound) then attach_receiver a (FlowIf (flow (fst m_bound)) local_if) s else Ok (true, s)
  else attach_all a target_vma flow ip_list s.

(** ** Migration *)

(** The flows of the old ring, one by one; one that the new ring refuses stays
    with the old one. *)
Fixpoint move_flows (a : answers_t) (old new : Z) (l : list (flow_tuple_with_local_if * Z)) (s : sock) : res sock :=
  match l with
  | [] => Ok s
  | (f, r) :: l =>
    if negb (r =? old) then move_flows a old new l s
    else
      q ← add_ring new (rxq s);
      let s := set_rxq q s in
      if negb (attach_flow_ok a new f) then move_flows a old new l s
      else
        let s := set_flows (<[f := new]> (m_rx_flow_map s)) (set_steered (({[(new, f)]} ∪ steered s) ∖ {[(old, f)]}) s) in
        q ← del_ring old true (rxq s);
        move_flows a old new l (set_rxq q s)
  end.

Definition migrate_one (a : answers_t) (old_key new_key : ring_alloc_logic_attr) (ip : Z) (nd : net_device_resources_t) (s : sock) : res sock :=
  d ← must (devs s !! p_ndv nd);
  x ← reserve (create_ring a (p_ndv nd)) new_key d;
  let s := set_devs (<[p_ndv nd := x.2]> (devs s)) s in
  let drop_old (s : sock) := d ← must (devs s !! p_ndv nd); y ← release old_key d; Ok (set_devs (<[p_ndv nd := y.2]> (devs s)) s) in
  match x.1 with
  | None => Ok s
  | Some new =>
    if new =? p_ring nd then drop_old s
    else
      s ← move_flows a (p_ring nd) new (map_to_list (m_rx_flow_map s)) s;
      s ← drop_old (set_rxq (settle_ring (rxq s)) s);
      Ok (set_nd (<[ip := NdResources (nd_refcnt nd) (p_ndv nd) new]> (m_rx_nd_map s)) s)
  end.

Fixpoint migrate_all (a : answers_t) (old_key new_key : ring_alloc_logic_attr) (l : list (Z * net_device_resources_t)) (s : sock) : res sock :=
  match l with
  | [] => Ok s
  | (ip, nd) :: l => s ← migrate_one a old_key new_key ip nd s; migrate_all a old_key new_key l s
  end.

(** [new_id] is [calc_res_key_by_logic]. *)
Definition do_rings_migration (a : answers_t) (s : sock) : res sock :=
  let old_key := m_res_key s in
  if m_user_id_key old_key =? new_id a then Ok s
  else
    let new_key := set_user_id_key (new_id a) old_key in
    migrate_all a old_key new_key (map_to_list (m_rx_nd_map s)) (set_key new_key s).

(** ** The end of the socket *)

Fixpoint destructor_helper (fuel : nat) (s : sock) : res sock :=
  match map_to_list (m_rx_flow_map s) with
  | [] => Ok s
  | (f, _) :: _ =>
    match fuel with
    | O => NoFuel
    | S fuel => x ← detach_receiver f s; destructor_helper fuel x.2
    end
  end.

End Sock.

(** ** Counting the entries of a map *)

Section Count.
Context {K A : Type} `{Countable K} (P : K * A -> Prop) `{!forall x, Decision (P x)}.

Definition count_if (m : gmap K A) : Z := Z.of_nat (size (filter P m)).

Lemma count_if_new m k x : m !! k = None -> count_if (<[k := x]> m) = count_if m + (if decide (P (k, x)) then 1 else 0).
Proof.
  intros Hk. unfold count_if. destruct (decide (P (k, x))) as [Hp|Hp].
  - rewrite map_filter_insert_True by done. rewrite map_size_insert_None; [lia|]. apply map_lookup_filter_None. by left.
  - rewrite map_filter_insert_False by done. rewrite delete_id by done. lia.
Qed.

Lemma count_if_delete m k x : m !! k = Some x -> count_if (delete k m) = count_if m - (if decide (P (k, x)) then 1 else 0).
Proof. intros Hk. rewrite <- (insert_delete_id m k x Hk) at 2. rewrite count_if_new by apply lookup_delete_eq. lia. Qed.

Lemma count_if_update m k x y : m !! k = Some x ->
  count_if (<[k := y]> m) = count_if m - (if decide (P (k, x)) then 1 else 0) + (if decide (P (k, y)) then 1 else 0).
Proof.
  intros Hk. rewrite <- insert_delete_eq, count_if_new by apply lookup_delete_eq. by rewrite (count_if_delete m k x).
Qed.

Lemma count_if_range m : 0 <= count_if m <= Z.of_nat (size m).
Proof. unfold count_if. split; [lia|]. apply inj_le. apply map_subseteq_size, map_filter_subseteq. Qed.

Lemma count_if_pos m k x : m !! k = Some x -> P (k, x) -> 0 < count_if m.
Proof. intros Hk Hp. pose proof (count_if_delete m k x Hk) as E. rewrite decide_True in E by done. unfold count_if in *. lia. Qed.

Lemma count_if_zero m k x : count_if m = 0 -> m !! k = Some x -> ~ P (k, x).
Proof. intros Hc Hk Hp. pose proof (count_if_pos m k x Hk Hp). lia. Qed.

Lemma count_if_none m : (forall k x, m !! k = Some x -> ~ P (k, x)) -> count_if m = 0.
Proof.
  intros Hn. unfold count_if. assert (filter P m = ∅) as ->; [|done]. apply map_empty. intros k. apply map_lookup_filter_None. right. intros x Hx. by apply Hn.
Qed.

Lemma count_if_empty : count_if ∅ = 0.
Proof. unfold count_if. by rewrite map_filter_empty. Qed.

End Count.

Lemma count_if_ext {K A} `{Countable K} (P P' : K * A -> Prop) `{!forall x, Decision (P x), !forall x, Decision (P' x)} (m : gmap K A) :
  (forall k x, m !! k = Some x -> P (k, x) <-> P' (k, x)) -> count_if P m = count_if P' m.
Proof. intros E. unfold count_if. do 2 f_equal. by apply map_filter_ext. Qed.

(** A predicate that changes at one key. *)
Lemma count_if_change {K A} `{Countable K} (P P' : K * A -> Prop) `{!forall x, Decision (P x), !forall x, Decision (P' x)} (m : gmap K A) k x y :
  m !! k = Some x -> (forall j z, j <> k -> m !! j = Some z -> P (j, z) <-> P' (j, z)) ->
  count_if P' (<[k := y]> m) = count_if P m - (if decide (P (k, x)) then 1 else 0) + (if decide (P' (k, y)) then 1 else 0).
Proof.
  intros Hk E. rewrite <- insert_delete_eq, count_if_new by apply lookup_delete_eq. rewrite <- (count_if_delete P m k x Hk). f_equal.
  apply count_if_ext. intros j z Hj. apply lookup_delete_Some in Hj as [Hne Hj]. split; apply E; done.
Qed.

(** ** The references of one socket among those of all *)

(** [A] is the table [O] of the others with [n] more references. *)
Definition shares (O : ring_table) (n : key_value -> Z) (A : ring_table) : Prop :=
  forall k, match O !! k with
  | Some (r, c) => 0 < c /\ 0 <= n k /\ A !! k = Some (r, c + n k)
  | None => (n k = 0 /\ A !! k = None) \/ (0 < n k /\ exists r, A !! k = Some (r, n k))
  end.

Definition bump (k : key_value) (b : Z) (n : key_value -> Z) (j : key_value) : Z := n j + (if decide (j = k) then b else 0).

Lemma shares_ext O n n' A : (forall k, n k = n' k) -> shares O n A -> shares O n' A.
Proof. intros E Hs k. rewrite <- E. apply Hs. Qed.

Lemma shares_reserve O n A created k r A' : shares O n A -> spec_reserve created k A = (Reserved (Some r), A') ->
  shares O (bump k 1 n) A' /\ (exists c, A' !! k = Some (r, c)) /\ (forall j, j <> k -> A' !! j = A !! j) /\
  (forall r0 c, A !! k = Some (r0, c) -> r0 = r) /\ (A !! k = None -> created = Some r).
Proof.
  intros Hs. unfold spec_reserve. intros E.
  assert (exists c, A' = <[k := (r, c)]> A /\ c = (if A !! k is Some (_, c) then c + 1 else 1) /\
    (forall r0 c, A !! k = Some (r0, c) -> r0 = r) /\ (A !! k = None -> created = Some r)) as (c & -> & Ec & Hr & Hn).
  { destruct (A !! k) as [[r0 c]|]; [injection E as -> <-; eexists; split; [done|]; naive_solver|].
    destruct created as [r0|]; [|done]. injection E as -> <-. eexists. split; [done|]. naive_solver. }
  split; [|split; [exists c; apply lookup_insert_eq|split; [intros j Hj; by rewrite lookup_insert_ne|done]]].
  intros j. specialize (Hs j). unfold bump. destruct (decide (j = k)) as [->|Hj].
  - rewrite lookup_insert_eq. destruct (O !! k) as [[r0 c0]|].
    + destruct Hs as (H1 & H2 & H3). rewrite H3 in Ec. rewrite <- (Hr _ _ H3). split; [done|]. split; [lia|]. rewrite Ec. f_equal. f_equal. lia.
    + right. destruct Hs as [[H1 H2]|(H1 & r0 & H2)]; rewrite H2 in Ec; (split; [lia|]); exists r; rewrite Ec; f_equal; f_equal; lia.
  - rewrite lookup_insert_ne, Z.add_0_r by done. done.
Qed.

Lemma shares_release O n A k : shares O n A -> 0 < n k -> exists A', spec_release k A = (Released true, A') /\
  shares O (bump k (-1) n) A' /\ (forall j, j <> k -> A' !! j = A !! j) /\
  (forall r c, A' !! k = Some (r, c) -> exists c0, A !! k = Some (r, c0)) /\ (1 < n k -> is_Some (A' !! k)).
Proof.
  intros Hs Hn. assert (exists r c, A !! k = Some (r, c) /\ n k <= c) as (r & c & Hk & Hc).
  { specialize (Hs k). destruct (O !! k) as [[r c]|]; [exists r, (c + n k); split; [apply Hs|lia]|]. destruct Hs as [[? _]|(_ & r & ?)]; [lia|]. exists r, (n k). split; [done|lia]. }
  unfold spec_release. rewrite Hk. eexists. split; [done|]. split; [|split; [|split]].
  - intros j. specialize (Hs j). unfold bump. destruct (decide (j = k)) as [->|Hj].
    + rewrite Hk in Hs. destruct (O !! k) as [[r0 c0]|].
      * destruct Hs as (H1 & H2 & [= -> ->]). split; [done|]. split; [lia|]. destruct (Z.eqb_spec (c0 + n k) 1); [lia|]. rewrite lookup_insert_eq. f_equal. f_equal. lia.
      * destruct Hs as [[? ?]|(_ & r0 & [= -> ->])]; [done|]. destruct (Z.eqb_spec (n k) 1).
        -- left. split; [lia|]. apply lookup_delete_eq.
        -- right. split; [lia|]. exists r0. rewrite lookup_insert_eq. f_equal.
    + rewrite Z.add_0_r. destruct (c =? 1); [rewrite lookup_delete_ne by done|rewrite lookup_insert_ne by done]; done.
  - intros j Hj. destruct (c =? 1); [by rewrite lookup_delete_ne|by rewrite lookup_insert_ne].
  - intros r0 c0. destruct (c =? 1); [by rewrite lookup_delete_eq|]. rewrite lookup_insert_eq. intros [= <- _]. by exists c.
  - intros H1. destruct (Z.eqb_spec c 1); [lia|]. rewrite lookup_insert_eq. by eexists.
Qed.

Lemma shares_small O n A b : shares O n A -> map_Forall (fun _ x => snd x < 2 ^ 30) O -> (forall k, n k <= b) -> b < 2 ^ 30 -> map_Forall (fun _ x => snd x < 2 ^ 31 - 1) A.
Proof.
  intros Hs Ho Hn Hb k [r c] Hk. specialize (Hs k). specialize (Hn k). simpl. destruct (O !! k) as [[r0 c0]|] eqn:E.
  - specialize (Ho k _ E). simpl in Ho. destruct Hs as (_ & _ & Hs). rewrite Hk in Hs. injection Hs as -> ->. lia.
  - destruct Hs as [[_ Hs]|(_ & r0 & Hs)]; rewrite Hk in Hs; [done|]. injection Hs as -> ->. lia.
Qed.

Lemma shares_nothing O n A : (forall k, n k = 0) -> shares O n A -> A = O.
Proof.
  intros Hn Hs. apply map_eq. intros k. specialize (Hs k). rewrite Hn in Hs. destruct (O !! k) as [[r c]|]; [rewrite Z.add_0_r in Hs; by destruct Hs as (_ & _ & ?)|].
  destruct Hs as [[_ ?]|[? _]]; [done|lia].
Qed.

(** ** The invariant *)

Section Laws.
Context {Q D : Type} {HQ : RingUser Q} {HQL : RingUserLaws Q} {HD : RingDevice D} {HDL : RingDeviceLaws D}.

(** The device that a ring belongs to. *)
Context (owner : Z -> Z).

Abbreviation nd_map := (gmap Z net_device_resources_t).
Abbreviation flow_map := (gmap flow_tuple_with_local_if Z).

Definition uses (r : Z) (m : flow_map) : Z := count_if (fun e => e.2 = r) m.
Definition flows_at (ip : Z) (m : flow_map) : Z := count_if (fun e => m_local_if e.1 = ip) m.

(** The reservations on device [v] under key [k], if address [ip] has its one
    under [keyof ip]. *)
Definition own (keyof : Z -> key_value) (m : nd_map) (v : Z) (k : key_value) : Z :=
  count_if (fun e => p_ndv e.2 = v /\ keyof e.1 = k) m.

(** The socket counts its flows per ring, and rings steer only its flows. *)
Record flow_ok (m : flow_map) (q : Q) (st : gset (Z * flow_tuple_with_local_if)) : Prop := FlowOk {
  fo_user : user_ok q;
  fo_refs : forall r, ring_refs q !! r = (if uses r m =? 0 then None else Some (uses r m));
  fo_steered : forall r f, (r, f) ∈ st -> m !! f = Some r
}.

(** The resources of an address are counted by its flows, with [extra] for a
    flow that is on its way; the ring of a flow is [ringof] its resources. *)
Record nd_ok (ringof : net_device_resources_t -> Z -> Prop) (extra : Z -> Z) (nds : nd_map) (m : flow_map) (obs : gset Z) : Prop := NdOk {
  no_flows : forall f r, m !! f = Some r -> exists nd, nds !! m_local_if f = Some nd /\ ringof nd r;
  no_count : forall ip nd, nds !! ip = Some nd -> nd_refcnt nd = flows_at ip m + extra ip /\ 0 < nd_refcnt nd;
  no_observed : forall ip nd, nds !! ip = Some nd -> ip ∈ obs
}.

(** A device has the rings of the others and those of the socket. *)
Definition dev1 (keyof : Z -> key_value) (O : ring_table) (nds : nd_map) (v : Z) (d : D) : Prop :=
  exists A, has_rings d A /\ shares O (own keyof nds v) A /\
    (forall ip nd, nds !! ip = Some nd -> p_ndv nd = v -> exists c, A !! keyof ip = Some (p_ring nd, c)) /\
    (forall k r c, A !! k = Some (r, c) -> usable r /\ owner r = v).

Record dev_ok (keyof : Z -> key_value) (O : gmap Z ring_table) (nds : nd_map) (ds : gmap Z D) : Prop := DevOk {
  do_devs : forall v d, ds !! v = Some d -> dev1 keyof (default ∅ (O !! v)) nds v d;
  do_known : forall ip nd, nds !! ip = Some nd -> is_Some (ds !! p_ndv nd)
}.

Definition few (O : gmap Z ring_table) (nds : nd_map) : Prop :=
  (forall v A, O !! v = Some A -> map_Forall (fun _ x => snd x < 2 ^ 30) A) /\ Z.of_nat (size nds) < 2 ^ 30.

Lemma few_small keyof O nds v A : few O nds -> shares (default ∅ (O !! v)) (own keyof nds v) A -> map_Forall (fun _ x => snd x < 2 ^ 31 - 1) A.
Proof.
  intros [Ho Hn] Hs. eapply shares_small; [exact Hs| |intros k; apply count_if_range|done]. destruct (O !! v) as [A0|] eqn:E; [by apply (Ho v)|apply map_Forall_empty].
Qed.

Lemma dev1_same keyof keyof' O nds nds' v d : (forall k, own keyof' nds' v k = own keyof nds v k) ->
  (forall ip nd, nds' !! ip = Some nd -> p_ndv nd = v -> nds !! ip = Some nd /\ keyof' ip = keyof ip) -> dev1 keyof O nds v d -> dev1 keyof' O nds' v d.
Proof.
  intros Hn Hi (A & H1 & H2 & H3 & H4). exists A. split; [done|]. split; [by eapply shares_ext; [|exact H2]|]. split; [|done].
  intros ip nd Hip Hv. destruct (Hi ip nd Hip Hv) as [Hip' ->]. by apply H3.
Qed.

Lemma dev_put_new keyof O nds ds v d ip nd : dev_ok keyof O nds ds -> nds !! ip = None -> p_ndv nd = v -> dev1 keyof (default ∅ (O !! v)) (<[ip := nd]> nds) v d ->
  dev_ok keyof O (<[ip := nd]> nds) (<[v := d]> ds).
Proof.
  intros [H1 H2] Hip <- Hd. split.
  - intros v' d' Hv'. apply lookup_insert_Some in Hv' as [[<- <-]|[Hne Hv']]; [done|]. eapply dev1_same; [| |by apply H1].
    + intros k. unfold own. rewrite count_if_new by done. rewrite decide_False; [lia|]. simpl. by intros [? _].
    + intros ip' nd' Hip' Hv. apply lookup_insert_Some in Hip' as [[<- <-]|[_ ?]]; [done|]. done.
  - intros ip' nd' Hip'. apply lookup_insert_Some in Hip' as [[<- <-]|[_ Hip']]; [rewrite lookup_insert_eq; by eexists|].
    destruct (decide (p_ndv nd' = p_ndv nd)) as [->|Hne]; [rewrite lookup_insert_eq; by eexists|]. rewrite lookup_insert_ne by done. by apply (H2 ip').
Qed.

Lemma dev_put keyof O nds ds v d : dev_ok keyof O nds ds -> dev1 keyof (default ∅ (O !! v)) nds v d -> dev_ok keyof O nds (<[v := d]> ds).
Proof.
  intros [H1 H2] Hd. split.
  - intros v' d' Hv'. apply lookup_insert_Some in Hv' as [[<- <-]|[Hne Hv']]; [done|]. by apply H1.
  - intros ip nd Hip. destruct (H2 ip nd Hip) as [d0 Hd0]. destruct (decide (p_ndv nd = v)) as [->|]; [rewrite lookup_insert_eq|rewrite lookup_insert_ne by done]; by eexists.
Qed.

(** What a device may create. *)
Definition creates_own (v : Z) (created : option Z) : Prop := forall r, created = Some r -> usable r /\ owner r = v.

(** A reservation for an address. *)
Lemma dev_reserve keyof O nds ds v d created k ip n : dev_ok keyof O nds ds -> few O nds -> ds !! v = Some d -> creates_own v created -> nds !! ip = None -> keyof ip = kv k ->
  exists o d', reserve created k d = Ok (o, d') /\
    match o with
    | None => dev_ok keyof O nds (<[v := d']> ds)
    | Some r => usable r /\ owner r = v /\ dev_ok keyof O (<[ip := NdResources n v r]> nds) (<[v := d']> ds)
    end.
Proof.
  intros Hok Hf Hd Hcr Hip Hk. destruct (do_devs _ _ _ _ Hok v d Hd) as (A & R & S & I & U).
  destruct (reserve_law d A created k R (few_small _ _ _ _ _ Hf S)) as (o & d' & A' & -> & E & R'). exists o, d'. split; [done|]. destruct o as [r|].
  - destruct (shares_reserve _ _ _ _ _ _ _ S E) as (S' & [c Hr] & Hj & Hsame & Hnew).
    assert (usable r /\ owner r = v) as [U1 U2].
    { destruct (A !! kv k) as [[r0 c0]|] eqn:Ek; [rewrite <- (Hsame r0 c0 eq_refl); by eapply U|]. by apply Hcr, Hnew. }
    split; [done|]. split; [done|]. eapply dev_put_new; [done|done|done|]. exists A'. split; [done|]. split; [|split].
    + eapply shares_ext; [|exact S']. intros j. unfold bump, own. rewrite count_if_new by done. f_equal. simpl. rewrite Hk. repeat case_decide; naive_solver.
    + intros ip' nd' Hip' Hv. apply lookup_insert_Some in Hip' as [[<- <-]|[_ Hip']]; [rewrite Hk; by exists c|].
      destruct (I ip' nd' Hip' Hv) as [c' Hc']. destruct (decide (keyof ip' = kv k)) as [Ek|]; [|exists c'; by rewrite Hj].
      rewrite Ek in *. rewrite (Hsame _ _ Hc'). by exists c.
    + intros j r' c' Hr'. destruct (decide (j = kv k)) as [->|Hne]; [|rewrite Hj in Hr' by done; by eapply U]. rewrite Hr in Hr'. by injection Hr' as <- _.
  - apply dev_put; [done|]. exists A. assert (A' = A) as -> by (unfold spec_reserve in E; destruct (A !! kv k) as [[]|]; [done|]; destruct created; [done|]; by injection E). done.
Qed.

(** The last flow of an address. *)
Lemma dev_release keyof O nds ds ip nd k0 : dev_ok keyof O nds ds -> few O nds -> nds !! ip = Some nd -> kv k0 = keyof ip ->
  exists d d', ds !! p_ndv nd = Some d /\ release k0 d = Ok (true, d') /\ dev_ok keyof O (delete ip nds) (<[p_ndv nd := d']> ds).
Proof.
  intros Hok Hf Hip Hk0. destruct (do_known _ _ _ _ Hok ip nd Hip) as [d Hd]. destruct (do_devs _ _ _ _ Hok _ d Hd) as (A & R & S & I & U).
  destruct (release_law d A k0 R (few_small _ _ _ _ _ Hf S)) as (b & d' & A' & Er & E & R'). rewrite Hk0 in E.
  assert (0 < own keyof nds (p_ndv nd) (keyof ip)) as Hpos by (by eapply count_if_pos).
  destruct (shares_release _ _ _ _ S Hpos) as (A1 & E1 & S' & Hj & Hsame & Hmore). rewrite E in E1. injection E1 as -> <-.
  exists d, d'. split; [done|]. split; [done|].
  assert (forall v k, own keyof (delete ip nds) v k = own keyof nds v k - (if decide (p_ndv nd = v /\ keyof ip = k) then 1 else 0)) as Hown
    by (intros v k; unfold own; by rewrite (count_if_delete _ nds ip nd Hip)).
  split.
  - intros v d1 Hv. apply lookup_insert_Some in Hv as [[<- <-]|[Hne Hv]].
    + exists A'. split; [done|]. split; [|split].
      * eapply shares_ext; [|exact S']. intros k. rewrite Hown. unfold bump. repeat case_decide; naive_solver lia.
      * intros ip' nd' Hip' Hv. apply lookup_delete_Some in Hip' as [Hne Hip']. destruct (I ip' nd' Hip' Hv) as [c Hc].
        destruct (decide (keyof ip' = keyof ip)) as [Ek|Hk]; [|exists c; by rewrite Hj]. rewrite Ek in *.
        assert (1 < own keyof nds (p_ndv nd) (keyof ip)) as H1.
        { assert (0 < own keyof (delete ip nds) (p_ndv nd) (keyof ip)) as H1 by (eapply (count_if_pos _ _ ip' nd'); [by rewrite lookup_delete_ne|done]).
          rewrite Hown, decide_True in H1 by done. lia. }
        destruct (Hmore H1) as [[r1 c1] H2]. destruct (Hsame _ _ H2) as [c0 H3]. rewrite Hc in H3. injection H3 as <- _. by exists c1.
      * intros k r c Hk. destruct (decide (k = keyof ip)) as [->|Hne]; [destruct (Hsame _ _ Hk) as [c0 Hc0]; by eapply U|]. rewrite Hj in Hk by done. by eapply U.
    + eapply dev1_same; [| |by apply (do_devs _ _ _ _ Hok)].
      * intros k. rewrite Hown, decide_False by (by intros [? _]). lia.
      * intros ip' nd' Hip' _. by apply lookup_delete_Some in Hip' as [_ ?].
  - intros ip' nd' Hip'. apply lookup_delete_Some in Hip' as [_ Hip']. destruct (do_known _ _ _ _ Hok ip' nd' Hip') as [d0 Hd0].
    destruct (decide (p_ndv nd' = p_ndv nd)) as [->|]; [rewrite lookup_insert_eq|rewrite lookup_insert_ne by done]; by eexists.
Qed.

(** *** Flows *)

Lemma uses_refs m q st r : flow_ok m q st -> default 0 (ring_refs q !! r) = uses r m.
Proof. intros Hf. rewrite (fo_refs _ _ _ Hf). by destruct (Z.eqb_spec (uses r m) 0). Qed.

Lemma uses_range r m : 0 <= uses r m <= Z.of_nat (size m).
Proof. apply count_if_range. Qed.

Lemma flow_add m q st f r : flow_ok m q st -> m !! f = None -> usable r -> Z.of_nat (size m) < 2 ^ 30 ->
  exists q', add_ring r q = Ok q' /\ flow_ok (<[f := r]> m) q' st.
Proof.
  intros Hf Hn Hr Hs. pose proof (uses_range r m). destruct (add_law r q (fo_user _ _ _ Hf) Hr) as (q' & -> & Hq & E).
  { rewrite (uses_refs m q st r Hf). lia. } exists q'. split; [done|]. split; [done| |].
  - intros r'. rewrite E. unfold one_more. rewrite (uses_refs m q st r Hf). unfold uses at 2 3. rewrite count_if_new by done. simpl. fold (uses r' m). pose proof (uses_range r' m).
    destruct (decide (r = r')) as [->|Hne]; [rewrite lookup_insert_eq; destruct (Z.eqb_spec (uses r' m + 1) 0); [lia|done]|].
    rewrite lookup_insert_ne by done. rewrite (fo_refs _ _ _ Hf). by rewrite Z.add_0_r.
  - intros r' f' Hin. apply (fo_steered _ _ _ Hf) in Hin as Hm. rewrite lookup_insert_ne; [done|]. intros ->. congruence.
Qed.

Lemma one_less_refs m q st f r m' : flow_ok m q st -> m !! f = Some r -> (forall r', uses r' m' = uses r' m - (if decide (r = r') then 1 else 0)) ->
  forall r', one_less r (uses r m) (ring_refs q) !! r' = (if uses r' m' =? 0 then None else Some (uses r' m')).
Proof.
  intros Hf Hm Hu r'. rewrite Hu. assert (0 < uses r m) by (by eapply count_if_pos). unfold one_less. destruct (decide (r = r')) as [<-|Hne].
  - destruct (Z.eqb_spec (uses r m) 1), (Z.eqb_spec (uses r m - 1) 0); try lia; [apply lookup_delete_eq|apply lookup_insert_eq].
  - rewrite Z.sub_0_r, <- (fo_refs _ _ _ Hf). destruct (uses r m =? 1); [by rewrite lookup_delete_ne|by rewrite lookup_insert_ne].
Qed.

Lemma some_refs m q st f r : flow_ok m q st -> m !! f = Some r -> ring_refs q !! r = Some (uses r m) /\ 0 < uses r m.
Proof.
  intros Hf Hm. assert (0 < uses r m) by (by eapply count_if_pos). split; [|done]. rewrite (fo_refs _ _ _ Hf). destruct (Z.eqb_spec (uses r m) 0); [lia|done].
Qed.

Lemma flow_del m q st f r mig : flow_ok m q st -> m !! f = Some r -> usable r -> Z.of_nat (size m) < 2 ^ 30 ->
  exists q', del_ring r mig q = Ok q' /\ flow_ok (delete f m) q' (st ∖ {[(r, f)]}).
Proof.
  intros Hf Hm Hr Hs. pose proof (uses_range r m). destruct (some_refs m q st f r Hf Hm) as [E1 E2].
  destruct (del_law r mig q _ (fo_user _ _ _ Hf) Hr E1) as (q' & -> & Hq & E); [lia|]. exists q'. split; [done|]. split; [done| |].
  - intros r'. rewrite E. eapply one_less_refs; [done|done|]. intros r0. unfold uses. by rewrite (count_if_delete _ m f r Hm).
  - intros r' f' Hin. apply elem_of_difference in Hin as [Hin Hne]. apply (fo_steered _ _ _ Hf) in Hin as Hm'. rewrite lookup_delete_ne; [done|].
    intros <-. apply Hne, elem_of_singleton. rewrite Hm in Hm'. by injection Hm' as ->.
Qed.

(** A flow changes its ring. *)
Lemma flow_move m q st f old new : flow_ok m q st -> m !! f = Some old -> old <> new -> usable old -> usable new -> Z.of_nat (size m) < 2 ^ 30 ->
  exists q1 q2, add_ring new q = Ok q1 /\ del_ring old true q1 = Ok q2 /\ flow_ok (<[f := new]> m) q2 (({[(new, f)]} ∪ st) ∖ {[(old, f)]}).
Proof.
  intros Hf Hm Hne Ho Hn Hs. pose proof (uses_range old m). pose proof (uses_range new m). destruct (some_refs m q st f old Hf Hm) as [E1 E2].
  destruct (add_law new q (fo_user _ _ _ Hf) Hn) as (q1 & A1 & Hq1 & R1); [rewrite (uses_refs m q st new Hf); lia|].
  destruct (del_law old true q1 (uses old m) Hq1 Ho) as (q2 & A2 & Hq2 & R2); [rewrite R1; unfold one_more; by rewrite lookup_insert_ne|lia|].
  exists q1, q2. split; [done|]. split; [done|]. split; [done| |].
  - intros r. assert (uses r (<[f := new]> m) = uses r m - (if decide (old = r) then 1 else 0) + (if decide (new = r) then 1 else 0)) as ->
      by (unfold uses; by rewrite (count_if_update _ m f old new Hm)).
    rewrite R2, R1. unfold one_less, one_more. rewrite (uses_refs m q st new Hf).
    pose proof (uses_range r m). destruct (decide (old = r)) as [Eo|Ho'], (decide (new = r)) as [En|Hn'].
    + congruence.
    + subst r. rewrite Z.add_0_r. destruct (Z.eqb_spec (uses old m) 1), (Z.eqb_spec (uses old m - 1) 0); try lia; [apply lookup_delete_eq|apply lookup_insert_eq].
    + subst r. rewrite Z.sub_0_r. destruct (Z.eqb_spec (uses new m + 1) 0); [lia|]. destruct (uses old m =? 1); [rewrite lookup_delete_ne by done|rewrite lookup_insert_ne by done]; apply lookup_insert_eq.
    + rewrite Z.sub_0_r, Z.add_0_r, <- (fo_refs _ _ _ Hf). destruct (uses old m =? 1); [rewrite lookup_delete_ne by done|rewrite lookup_insert_ne by done]; by rewrite lookup_insert_ne.
  - intros r' f' Hin. apply elem_of_difference in Hin as [Hin Hn2]. apply elem_of_union in Hin as [Hin|Hin].
    + apply elem_of_singleton in Hin. injection Hin as -> ->. apply lookup_insert_eq.
    + apply (fo_steered _ _ _ Hf) in Hin as Hm'. rewrite lookup_insert_ne; [done|]. intros <-. apply Hn2, elem_of_singleton. rewrite Hm in Hm'. by injection Hm' as ->.
Qed.

(** *** Calls *)

Abbreviation sock := (sock_rx Q D).
Abbreviation at_ip ip := (fun j => if decide (j = ip) then 1 else 0).
Abbreviation same_ring := (fun nd r => r = p_ring nd).

(** The state between calls, and in the middle of one. *)
Record recv (extra : Z -> Z) (O : gmap Z ring_table) (s : sock) : Prop := Recv {
  rv_flow : flow_ok (m_rx_flow_map s) (rxq s) (steered s);
  rv_nd : nd_ok same_ring extra (m_rx_nd_map s) (m_rx_flow_map s) (observed s);
  rv_dev : dev_ok (fun _ => kv (m_res_key s)) O (m_rx_nd_map s) (devs s)
}.
Abbreviation recv_ok := (recv (fun _ => 0)).

(** Counters that do not overflow. *)
Definition small (O : gmap Z ring_table) (s : sock) : Prop := few O (m_rx_nd_map s) /\ Z.of_nat (size (m_rx_flow_map s)) < 2 ^ 30.

Definition answers_allowed (a : answers_t) (s : sock) : Prop :=
  (forall v, creates_own v (create_ring a v)) /\ forall ip v, get_val a ip = device v -> is_Some (devs s !! v).

Lemma nd_usable keyof O nds ds ip nd : dev_ok keyof O nds ds -> nds !! ip = Some nd -> usable (p_ring nd) /\ owner (p_ring nd) = p_ndv nd.
Proof.
  intros Hd Hip. destruct (do_known _ _ _ _ Hd ip nd Hip) as [d Hv]. destruct (do_devs _ _ _ _ Hd _ d Hv) as (A & _ & _ & I & U).
  destruct (I ip nd Hip eq_refl) as [c Hc]. by eapply U.
Qed.

Lemma flows_at_range ip m : 0 <= flows_at ip m <= Z.of_nat (size m).
Proof. apply count_if_range. Qed.

Lemma flows_at_none ringof extra nds m obs ip : nd_ok ringof extra nds m obs -> nds !! ip = None -> flows_at ip m = 0.
Proof.
  intros Hn Hip. unfold flows_at. apply count_if_none. intros f r Hf Hl. simpl in Hl. destruct (no_flows _ _ _ _ _ Hn f r Hf) as (nd & Hnd & _). congruence.
Qed.

(** Without a ring there is no reservation, so that the key may change. *)
Lemma no_rings_no_nds O s : recv_ok O s -> size (ring_refs (rxq s)) = 0%nat -> m_rx_nd_map s = ∅ /\ m_rx_flow_map s = ∅.
Proof.
  intros [Hf Hn _] E. apply map_size_empty_inv in E. assert (m_rx_flow_map s = ∅) as Em.
  { apply map_empty. intros f. destruct (m_rx_flow_map s !! f) as [r|] eqn:Ef; [|done]. destruct (some_refs _ _ _ f r Hf Ef) as [E1 _]. by rewrite E, lookup_empty in E1. }
  split; [|done]. apply map_empty. intros ip. destruct (m_rx_nd_map s !! ip) as [nd|] eqn:Ei; [|done]. destruct (no_count _ _ _ _ _ Hn ip nd Ei) as [H1 H2].
  unfold flows_at in H1. rewrite Em, count_if_empty in H1. lia.
Qed.

Lemma dev_ok_key O s k : recv_ok O s -> dev_ok (fun _ => kv (if (size (ring_refs (rxq s)) =? 0)%nat then k else m_res_key s)) O (m_rx_nd_map s) (devs s).
Proof.
  intros H. destruct (Nat.eqb_spec (size (ring_refs (rxq s))) 0) as [E|_]; [|apply H]. destruct (no_rings_no_nds O s H E) as [En _]. destruct H as [_ _ [H1 H2]]. rewrite En in *. split.
  - intros v d Hv. eapply dev1_same; [| |by apply H1]; [|by intros ip nd; rewrite lookup_empty]. intros j. unfold own. by rewrite !count_if_empty.
  - by intros ip nd; rewrite lookup_empty.
Qed.

(** The counter of an address is nothing to the device. *)
Lemma dev_ok_counter keyof O nds ds ip nd n : dev_ok keyof O nds ds -> nds !! ip = Some nd -> dev_ok keyof O (<[ip := NdResources n (p_ndv nd) (p_ring nd)]> nds) ds.
Proof.
  intros Hd Eip. assert (forall v k, own keyof (<[ip := NdResources n (p_ndv nd) (p_ring nd)]> nds) v k = own keyof nds v k) as Eo.
  { intros v k. unfold own. rewrite (count_if_update _ _ ip nd _ Eip). simpl. lia. }
  split.
  - intros v d Hv. destruct (do_devs _ _ _ _ Hd v d Hv) as (A & H3 & H4 & H5 & H6). exists A. split; [done|]. split; [by eapply shares_ext; [|exact H4]|]. split; [|done].
    intros j nd' Hj Hv'. apply lookup_insert_Some in Hj as [[<- <-]|[Hne Hj]]; [exact (H5 ip nd Eip Hv')|by eapply H5].
  - intros j nd' Hj. apply lookup_insert_Some in Hj as [[<- <-]|[Hne Hj]]; [exact (do_known _ _ _ _ Hd ip nd Eip)|by eapply (do_known _ _ _ _ Hd)].
Qed.

Lemma create_nd_ok O a ip s : recv_ok O s -> small O s -> answers_allowed a s ->
  exists o s', create_nd_resources a ip s = Ok (o, s') /\ m_rx_flow_map s' = m_rx_flow_map s /\ rxq s' = rxq s /\ steered s' = steered s /\ dom (devs s') = dom (devs s) /\
    (size (m_rx_nd_map s') <= S (size (m_rx_nd_map s)))%nat /\
    match o with
    | None => recv_ok O s'
    | Some r => recv (at_ip ip) O s' /\ usable r /\ exists nd, m_rx_nd_map s' !! ip = Some nd /\ p_ring nd = r
    end.
Proof.
  intros Hr [Hfew Hsz] [Hcr Hval]. pose proof Hr as [Hf Hn Hd]. unfold create_nd_resources. destruct (m_rx_nd_map s !! ip) as [nd|] eqn:Eip.
  - eexists _, _. split; [done|]. destruct (no_count _ _ _ _ _ Hn ip nd Eip) as [H1 H2]. pose proof (flows_at_range ip (m_rx_flow_map s)).
    rewrite swrap_small by lia. do 4 (split; [done|]). split; [cbn [set_nd m_rx_nd_map]; rewrite map_size_insert_Some by (by exists nd); lia|].
    split; [|split; [by eapply nd_usable|eexists; cbn [set_nd m_rx_nd_map]; rewrite lookup_insert_eq; done]]. split; [exact Hf| |]; cbn [set_nd m_rx_nd_map m_rx_flow_map observed devs m_res_key].
    + split.
      * intros f r Hfr. destruct (no_flows _ _ _ _ _ Hn f r Hfr) as (nd' & Hnd' & ->). destruct (decide (m_local_if f = ip)) as [El|]; [|exists nd'; by rewrite lookup_insert_ne].
        rewrite El in *. rewrite lookup_insert_eq. eexists. split; [done|]. rewrite Eip in Hnd'. by injection Hnd' as ->.
      * intros j nd' Hj. apply lookup_insert_Some in Hj as [[<- <-]|[Hne Hj]]; [rewrite decide_True by done; simpl; lia|]. rewrite decide_False by done. by apply (no_count _ _ _ _ _ Hn).
      * intros j nd' Hj. apply lookup_insert_Some in Hj as [[<- <-]|[Hne Hj]]; by eapply (no_observed _ _ _ _ _ Hn).
    + by apply dev_ok_counter.
  - assert (forall obs, observed s ⊆ obs -> recv_ok O (set_observed obs s)) as Hobs.
    { intros obs Hobs. split; [exact Hf| |exact Hd]. destruct Hn as [N1 N2 N3]. split; [done|done|]. intros j nd Hj. apply Hobs. by eapply N3. }
    destruct (get_val a ip) as [| |v] eqn:Ev.
    + eexists None, _. split; [done|]. do 5 (split; [done || lia|]). done.
    + eexists None, _. split; [done|]. do 5 (split; [done || (cbn [set_observed m_rx_nd_map]; lia)|]). apply Hobs. set_solver.
    + cbv zeta. cbn [set_observed rxq]. set (s1 := if (_ =? 0)%nat then _ else _).
      assert (m_rx_nd_map s1 = m_rx_nd_map s /\ m_rx_flow_map s1 = m_rx_flow_map s /\ rxq s1 = rxq s /\ steered s1 = steered s /\ devs s1 = devs s /\ observed s1 = {[ip]} ∪ observed s /\
        m_res_key s1 = if (size (ring_refs (rxq s)) =? 0)%nat then set_user_id_key (new_id a) (m_res_key s) else m_res_key s) as (E1 & E2 & E3 & E4 & E5 & E6 & E7) by (subst s1; by destruct (_ =? 0)%nat).
      destruct (Hval ip v Ev) as [d Hv]. rewrite E5, Hv. cbn [must mbind res_bind].
      pose proof (dev_ok_key O s (set_user_id_key (new_id a) (m_res_key s)) Hr) as Hd1.
      destruct (dev_reserve _ O _ _ v d (create_ring a v) (m_res_key s1) ip 1 Hd1 Hfew Hv (Hcr v) Eip) as (o & d' & -> & Ho); [by rewrite E7|]. cbn [mbind res_bind fst snd]. destruct o as [r|].
      * eexists _, _. split; [done|]. cbn [set_nd set_devs m_rx_flow_map rxq steered devs m_rx_nd_map]. rewrite E1, E2, E3, E4. do 3 (split; [done|]).
        split; [rewrite ?E5, dom_insert_L; apply elem_of_dom_2 in Hv; set_solver|]. split; [rewrite map_size_insert_None by done; lia|]. destruct Ho as (U & _ & Ho).
        split; [|split; [done|eexists; rewrite lookup_insert_eq; done]]. split; cbn [set_nd set_devs m_rx_flow_map rxq steered devs m_rx_nd_map observed m_res_key]; rewrite ?E1, ?E2, ?E3, ?E4, ?E5, ?E6, ?E7.
        -- exact Hf.
        -- split.
           ++ intros f r' Hfr. destruct (no_flows _ _ _ _ _ Hn f r' Hfr) as (nd' & Hnd' & ->). exists nd'. split; [|done]. rewrite lookup_insert_ne; [done|]. intros E. rewrite <- E in Hnd'. congruence.
           ++ intros j nd' Hj. apply lookup_insert_Some in Hj as [[<- <-]|[Hne Hj]]; [|rewrite decide_False by done; by apply (no_count _ _ _ _ _ Hn)].
              rewrite decide_True by done. simpl. rewrite (flows_at_none _ _ _ _ _ ip Hn Eip). lia.
           ++ intros j nd' Hj. apply lookup_insert_Some in Hj as [[<- <-]|[Hne Hj]]; [set_solver|]. apply (no_observed _ _ _ _ _ Hn) in Hj. set_solver.
        -- exact Ho.
      * eexists None, _. split; [done|]. cbn [set_devs m_rx_flow_map rxq steered devs m_rx_nd_map]. rewrite E1, E2, E3, E4. do 3 (split; [done|]).
        split; [rewrite ?E5, dom_insert_L; apply elem_of_dom_2 in Hv; set_solver|]. split; [lia|]. split; cbn [set_devs m_rx_flow_map rxq steered devs m_rx_nd_map observed m_res_key]; rewrite ?E1, ?E2, ?E3, ?E4, ?E5, ?E6, ?E7.
        -- exact Hf.
        -- destruct Hn as [N1 N2 N3]. split; [done|done|]. intros j nd Hj. apply elem_of_union. right. by eapply N3.
        -- exact Ho.
Qed.

Lemma destroy_ok O ip s : recv (at_ip ip) O s -> small O s -> is_Some (m_rx_nd_map s !! ip) ->
  exists s', destroy_nd_resources ip s = Ok (true, s') /\ m_rx_flow_map s' = m_rx_flow_map s /\ dom (devs s') = dom (devs s) /\
    (size (m_rx_nd_map s') <= size (m_rx_nd_map s))%nat /\ recv_ok O s'.
Proof.
  intros [Hf Hn Hd] [Hfew Hsz] [nd Eip]. unfold destroy_nd_resources. rewrite Eip. destruct (no_count _ _ _ _ _ Hn ip nd Eip) as [H1 H2]. rewrite decide_True in H1 by done.
  pose proof (flows_at_range ip (m_rx_flow_map s)). rewrite swrap_small by lia. set (nd' := NdResources (nd_refcnt nd - 1) (p_ndv nd) (p_ring nd)).
  destruct (Z.eqb_spec (nd_refcnt nd - 1) 0) as [Ez|Hz]; cbn [negb].
  - destruct (dev_release _ O _ _ ip nd (m_res_key s) Hd Hfew Eip eq_refl) as (d & d' & Hdv & Hrel & Hd'). cbn [set_nd devs m_res_key]. rewrite Hdv. cbn [must mbind res_bind]. rewrite Hrel. cbn [mbind res_bind fst snd negb set_devs observed].
    rewrite bool_decide_true by (by eapply (no_observed _ _ _ _ _ Hn)). eexists. split; [done|]. cbn [negb set_nd set_observed set_devs m_rx_flow_map devs m_rx_nd_map].
    rewrite delete_insert_eq. split; [done|]. split; [rewrite dom_insert_L; apply elem_of_dom_2 in Hdv; set_solver|]. split; [apply map_subseteq_size, delete_subseteq|].
    split; cbn [set_nd set_observed set_devs m_rx_flow_map rxq steered devs m_rx_nd_map observed m_res_key]; [done| |done]. split.
    + intros f r Hfr. destruct (no_flows _ _ _ _ _ Hn f r Hfr) as (nd1 & Hnd1 & Hr1). exists nd1. split; [|done]. rewrite lookup_delete_ne; [done|]. intros E.
      apply (count_if_zero (fun e => m_local_if e.1 = ip) (m_rx_flow_map s) f r); [fold (flows_at ip (m_rx_flow_map s)); lia|done|done].
    + intros j nd1 Hj. apply lookup_delete_Some in Hj as [Hne Hj]. destruct (no_count _ _ _ _ _ Hn j nd1 Hj) as [H3 H4]. by rewrite decide_False in H3.
    + intros j nd1 Hj. apply lookup_delete_Some in Hj as [Hne Hj]. apply (no_observed _ _ _ _ _ Hn) in Hj. set_solver.
  - eexists. split; [done|]. do 2 (split; [done|]). split; [cbn [set_nd m_rx_nd_map]; rewrite map_size_insert_Some by (by exists nd); lia|].
    split; cbn [set_nd m_rx_flow_map rxq steered devs m_rx_nd_map observed m_res_key]; [done| |].
    + split.
      * intros f r Hfr. destruct (no_flows _ _ _ _ _ Hn f r Hfr) as (nd1 & Hnd1 & ->). destruct (decide (m_local_if f = ip)) as [El|]; [|exists nd1; by rewrite lookup_insert_ne].
        rewrite El in *. rewrite lookup_insert_eq. exists nd'. split; [done|]. rewrite Eip in Hnd1. by injection Hnd1 as ->.
      * intros j nd1 Hj. apply lookup_insert_Some in Hj as [[<- <-]|[Hne Hj]]; [simpl; lia|]. destruct (no_count _ _ _ _ _ Hn j nd1 Hj) as [H3 H4]. by rewrite decide_False in H3.
      * intros j nd1 Hj. apply lookup_insert_Some in Hj as [[<- <-]|[Hne Hj]]; by eapply (no_observed _ _ _ _ _ Hn).
    + by apply (dev_ok_counter _ _ _ _ _ nd).
Qed.

Lemma detach_ok O f s : recv_ok O s -> small O s ->
  exists b s', detach_receiver f s = Ok (b, s') /\ m_rx_flow_map s' = delete f (m_rx_flow_map s) /\ dom (devs s') = dom (devs s) /\
    (size (m_rx_nd_map s') <= size (m_rx_nd_map s))%nat /\ recv_ok O s'.
Proof.
  intros Hr Hs. pose proof Hr as [Hf Hn Hd]. unfold detach_receiver. destruct (m_rx_flow_map s !! f) as [r|] eqn:Ef; [|exists false, s; by rewrite delete_id].
  destruct (no_flows _ _ _ _ _ Hn f r Ef) as (nd & Hnd & Er). destruct (nd_usable _ _ _ _ _ _ Hd Hnd) as [U _]. subst r.
  destruct (flow_del _ _ _ f _ false Hf Ef U) as (q' & Hq & Hf'); [apply Hs|]. cbn [set_steered rxq]. rewrite Hq. cbn [mbind res_bind].
  set (s1 := set_flows _ _). assert (recv (at_ip (m_local_if f)) O s1) as H1.
  { split; cbn [s1 set_flows set_rxq set_steered m_rx_flow_map rxq steered devs m_rx_nd_map observed m_res_key]; [exact Hf'| |exact Hd]. split.
    - intros f' r' Hf2. apply lookup_delete_Some in Hf2 as [_ Hf2]. by apply (no_flows _ _ _ _ _ Hn).
    - intros j nd' Hj. destruct (no_count _ _ _ _ _ Hn j nd' Hj) as [H1 H2]. split; [|done]. rewrite H1. unfold flows_at. rewrite (count_if_delete _ _ f _ Ef). simpl. repeat case_decide; naive_solver lia.
    - apply Hn. }
  destruct (destroy_ok O (m_local_if f) s1 H1) as (s' & -> & E1 & E2 & E3 & H2).
  - split; [apply Hs|]. cbn [s1 set_flows m_rx_flow_map]. destruct Hs as [_ Hs]. pose proof (map_subseteq_size _ _ (delete_subseteq (m_rx_flow_map s) f)). simpl. lia.
  - by exists nd.
  - exists true, s'. split; [done|]. split; [exact E1|]. done.
Qed.

Lemma flow_processor m q st : flow_ok m q st -> flow_ok m (processor q) st.
Proof. intros [H1 H2 H3]. destruct (processor_law q H1) as [H4 H5]. split; [done| |done]. by rewrite H5. Qed.

Lemma flow_settle m q st : flow_ok m q st -> flow_ok m (settle_ring q) st.
Proof. intros [H1 H2 H3]. destruct (settle_law q H1) as [H4 H5]. split; [done| |done]. by rewrite H5. Qed.

Lemma flow_steer m q st r f : flow_ok m q st -> m !! f = Some r -> flow_ok m q ({[(r, f)]} ∪ st).
Proof. intros [H1 H2 H3] Hm. split; [done|done|]. intros r' f' Hin. apply elem_of_union in Hin as [Hin%elem_of_singleton|Hin]; [by injection Hin as -> ->|by apply H3]. Qed.

Lemma attach_ok O a f s : recv_ok O s -> few O (m_rx_nd_map s) -> Z.of_nat (size (m_rx_flow_map s)) + 1 < 2 ^ 30 -> Z.of_nat (size (m_rx_nd_map s)) + 1 < 2 ^ 30 -> answers_allowed a s ->
  exists b s', attach_receiver a f s = Ok (b, s') /\ dom (devs s') = dom (devs s) /\ (size (m_rx_nd_map s') <= S (size (m_rx_nd_map s)))%nat /\
    (size (m_rx_flow_map s') <= S (size (m_rx_flow_map s)))%nat /\ recv_ok O s'.
Proof.
  intros Hr Hfew Hsz Hsz2 Ha. unfold attach_receiver. destruct (is_local_loopback _); [by exists false, s; split_and!; try lia|].
  destruct (m_rx_flow_map s !! f) as [r|] eqn:Ef; [by exists false, s; split_and!; try lia|].
  destruct (create_nd_ok O a (m_local_if f) s Hr) as (o & s1 & -> & E1 & E2 & E3 & E4 & E5 & Ho); [split; [done|lia]|done|]. cbn [mbind res_bind]. destruct o as [r|].
  2:{ exists false, s1. rewrite E1. split_and!; try done; lia. }
  destruct Ho as ([Hf Hn Hd] & U & nd & Hnd & Hring). destruct (flow_add _ _ _ f r Hf) as (q & Hq & Hf'); [by rewrite E1|done|rewrite E1; lia|].
  cbn [set_flows rxq]. rewrite Hq. cbn [mbind res_bind].
  assert (forall q' st, flow_ok (<[f := r]> (m_rx_flow_map s1)) q' st -> recv_ok O (set_rxq q' (set_steered st (set_flows (<[f := r]> (m_rx_flow_map s1)) s1)))) as Hbuild.
  { intros q' st Hfl. split; [exact Hfl| |exact Hd]. split.
    - intros f' r' Hf2. cbn in Hf2. apply lookup_insert_Some in Hf2 as [[<- <-]|[_ Hf2]]; [by exists nd|by apply (no_flows _ _ _ _ _ Hn)].
    - intros j nd' Hj. destruct (no_count _ _ _ _ _ Hn j nd' Hj) as [H1 H2]. split; [|done]. rewrite H1. cbn. unfold flows_at. rewrite count_if_new by (by rewrite E1). simpl. repeat case_decide; naive_solver lia.
    - apply Hn. }
  assert (size (<[f := r]> (m_rx_flow_map s1)) = S (size (m_rx_flow_map s))) as Esz by (rewrite E1, map_size_insert_None; done).
  destruct (attach_flow_ok a r f); cbn [negb].
  - set (s2 := set_rxq (processor _) _). assert (recv_ok O s2) as H2.
    { apply (Hbuild (processor q) ({[(r, f)]} ∪ steered s1)). apply flow_processor, flow_steer; [done|apply lookup_insert_eq]. }
    destruct (is_5_tuple (tuple f) && _).
    + destruct (detach_ok O (three_tuple f) s2 H2) as (b & s' & -> & F1 & F2 & F3 & H3).
      { split; [split; [apply Hfew|]|]; cbn [s2 set_rxq set_steered set_flows m_rx_nd_map m_rx_flow_map]; lia. }
      cbn [mbind res_bind]. exists true, s'. split; [done|]. split; [by rewrite F2, <- E4|]. split; [cbn in F3; lia|]. split; [|done].
      rewrite F1. cbn. etrans; [apply map_subseteq_size, delete_subseteq|]. lia.
    + exists true, s2. split_and!; try done. cbn. lia.
  - exists false. eexists. split; [done|]. split; [done|]. split; [done|]. split; [cbn; lia|]. by apply (Hbuild q (steered s1)).
Qed.

Lemma attach_all_ok O a t flow l : forall s, recv_ok O s -> few O (m_rx_nd_map s) -> Z.of_nat (size (m_rx_flow_map s)) + Z.of_nat (length l) < 2 ^ 30 ->
  Z.of_nat (size (m_rx_nd_map s)) + Z.of_nat (length l) < 2 ^ 30 -> answers_allowed a s ->
  exists b s', attach_all a t flow l s = Ok (b, s') /\ dom (devs s') = dom (devs s) /\ recv_ok O s'.
Proof.
  induction l as [|ip l IH]; intros s Hr Hf H1 H2 Ha; cbn [attach_all]; [by exists true, s|]. cbn [length] in *. destruct (t ip); [|cbn [mbind res_bind]; apply IH; try done; lia].
  destruct (attach_ok O a (FlowIf (flow ip) ip) s Hr Hf) as (b & s1 & -> & E1 & E2 & E3 & H3); [lia|lia|done|]. cbn [mbind res_bind]. destruct b; [|by exists false, s1].
  destruct (IH s1 H3) as (b & s' & -> & E4 & H4); [split; [apply Hf|lia]|lia|lia| |].
  - destruct Ha as [A1 A2]. split; [done|]. intros j v Hj. apply elem_of_dom. rewrite E1. apply elem_of_dom. by eapply A2.
  - exists b, s'. by rewrite E4.
Qed.

(** *** Migration *)

Lemma dev_ok_keyof keyof keyof' O nds ds : (forall ip nd, nds !! ip = Some nd -> keyof' ip = keyof ip) -> dev_ok keyof O nds ds -> dev_ok keyof' O nds ds.
Proof.
  intros E [H1 H2]. split; [|done]. intros v d Hv. eapply dev1_same; [| |by apply H1].
  - intros k. apply count_if_ext. intros ip nd Hip. simpl. by rewrite (E ip nd Hip).
  - intros ip nd Hip _. split; [done|by eapply E].
Qed.

(** The reservation of one address goes from one key to the other. *)
Lemma dev_migrate keyof O nds ds ip nd created old0 new0 : dev_ok keyof O nds ds -> few O nds -> Z.of_nat (size nds) + 1 < 2 ^ 30 -> nds !! ip = Some nd -> keyof ip = kv old0 -> kv new0 <> kv old0 ->
  creates_own (p_ndv nd) created -> is_Some created ->
  exists d r d1 d2, ds !! p_ndv nd = Some d /\ reserve created new0 d = Ok (Some r, d1) /\ release old0 d1 = Ok (true, d2) /\ usable r /\
    (forall j nd', nds !! j = Some nd' -> p_ndv nd' = p_ndv nd -> keyof j = kv new0 -> p_ring nd' = r) /\
    dev_ok (fun j => if decide (j = ip) then kv new0 else keyof j) O (<[ip := NdResources (nd_refcnt nd) (p_ndv nd) r]> nds) (<[p_ndv nd := d2]> ds).
Proof.
  intros Hok Hf Hsz Hip. set (oldk := kv old0). set (newk := kv new0). intros Hk Hne Hcr [r0 Hc]. destruct (do_known _ _ _ _ Hok ip nd Hip) as [d Hd]. destruct (do_devs _ _ _ _ Hok _ d Hd) as (A & R & S & I & U).
  destruct (reserve_law d A created new0 R (few_small _ _ _ _ _ Hf S)) as (o & d1 & A1 & Er & E & R1). fold newk in E.
  assert (exists r, o = Some r) as [r ->] by (unfold spec_reserve in E; rewrite Hc in E; destruct (A !! newk) as [[]|]; injection E as <- _; by eexists).
  destruct (shares_reserve _ _ _ _ _ _ _ S E) as (S1 & [c1 Hr] & Hj1 & Hsame1 & Hnew).
  assert (0 < own keyof nds (p_ndv nd) oldk) as Hpos by (by eapply count_if_pos).
  assert (bump newk 1 (own keyof nds (p_ndv nd)) oldk = own keyof nds (p_ndv nd) oldk) as Eb by (unfold bump; rewrite decide_False by congruence; lia).
  destruct (release_law d1 A1 old0 R1) as (b & d2 & A2 & El & E2 & R2).
  { eapply (shares_small _ _ _ (Z.of_nat (size nds) + 1)); [exact S1| | |lia].
    - destruct (O !! p_ndv nd) as [A0|] eqn:Eo; [by apply (proj1 Hf (p_ndv nd))|apply map_Forall_empty].
    - intros k. pose proof (count_if_range (fun e => p_ndv e.2 = p_ndv nd /\ keyof e.1 = k) nds) as Hrg. fold (own keyof nds (p_ndv nd) k) in Hrg. unfold bump. case_decide; lia. }
  destruct (shares_release _ _ _ oldk S1 ltac:(lia)) as (A2' & E3 & S2 & Hj2 & Hsame2 & Hmore). fold oldk in E2. rewrite E2 in E3. injection E3 as -> <-.
  assert (usable r /\ owner r = p_ndv nd) as [U1 U2] by (destruct (A !! newk) as [[r1 c]|] eqn:Ek; [rewrite <- (Hsame1 r1 c eq_refl); by eapply U|by apply Hcr, Hnew]).
  assert (forall j nd', nds !! j = Some nd' -> p_ndv nd' = p_ndv nd -> keyof j = newk -> p_ring nd' = r) as Hring.
  { intros j nd' Hj Hv Hkj. destruct (I j nd' Hj Hv) as [c' Hc']. rewrite Hkj in Hc'. by eapply Hsame1. }
  exists d, r, d1, d2. split; [done|]. split; [done|]. split; [done|]. split; [done|]. split; [done|].
  set (keyof' := fun j => if decide (j = ip) then newk else keyof j). set (nd1 := NdResources (nd_refcnt nd) (p_ndv nd) r).
  assert (forall v k, own keyof' (<[ip := nd1]> nds) v k = own keyof nds v k - (if decide (p_ndv nd = v /\ oldk = k) then 1 else 0) + (if decide (p_ndv nd = v /\ newk = k) then 1 else 0)) as Hown.
  { intros v k. unfold own. rewrite (count_if_change (fun e => p_ndv e.2 = v /\ keyof e.1 = k) _ nds ip nd nd1 Hip); [|intros j z Hj _; unfold keyof'; simpl; by rewrite decide_False]. simpl. unfold keyof'. rewrite Hk, (decide_True (P := ip = ip)) by done. done. }
  split.
  - intros v dv Hv. apply lookup_insert_Some in Hv as [[<- <-]|[Hv' Hv]].
    + exists A2. split; [done|]. split; [|split].
      * eapply shares_ext; [|exact S2]. intros k. rewrite Hown. unfold bump. repeat case_decide; naive_solver lia.
      * intros j nd' Hj Hvj. unfold keyof'. apply lookup_insert_Some in Hj as [[<- <-]|[Hji Hj]]; [rewrite decide_True, Hj2 by done; by exists c1|]. rewrite decide_False by done.
        destruct (I j nd' Hj Hvj) as [c Hc']. destruct (decide (keyof j = newk)) as [Ek|Hkn]; [rewrite Ek, Hj2 by done; rewrite (Hring j nd' Hj Hvj Ek); by exists c1|].
        destruct (decide (keyof j = oldk)) as [Ek|Hko]; [|exists c; by rewrite Hj2, Hj1]. rewrite Ek in *.
        assert (1 < own keyof nds (p_ndv nd) oldk) as H1.
        { assert (0 < own keyof (delete ip nds) (p_ndv nd) oldk) as H1 by (eapply (count_if_pos _ _ j nd'); [by rewrite lookup_delete_ne|done]).
          unfold own in H1. rewrite (count_if_delete _ _ ip nd Hip), decide_True in H1 by done. unfold own. lia. }
        destruct (Hmore ltac:(lia)) as [[r2 c2] H2]. destruct (Hsame2 _ _ H2) as [c3 H3]. rewrite Hj1, Hc' in H3 by congruence. injection H3 as <- _. by exists c2.
      * intros k r2 c2 Hk2. destruct (decide (k = oldk)) as [->|Hko].
        -- destruct (Hsame2 _ _ Hk2) as [c3 H3]. rewrite Hj1 in H3 by congruence. by eapply U.
        -- rewrite Hj2 in Hk2 by done. destruct (decide (k = newk)) as [->|Hkn]; [rewrite Hr in Hk2; by injection Hk2 as <- _|]. rewrite Hj1 in Hk2 by done. by eapply U.
    + eapply dev1_same; [| |by apply (do_devs _ _ _ _ Hok)].
      * intros k. rewrite Hown, !decide_False by (by intros [? _]). lia.
      * intros j nd' Hj Hvj. apply lookup_insert_Some in Hj as [[<- <-]|[Hji Hj]]; [done|]. split; [done|]. unfold keyof'. by rewrite decide_False.
  - intros j nd' Hj. apply lookup_insert_Some in Hj as [[<- <-]|[Hji Hj]]; [rewrite lookup_insert_eq; by eexists|]. destruct (do_known _ _ _ _ Hok j nd' Hj) as [d0 Hd0].
    destruct (decide (p_ndv nd' = p_ndv nd)) as [->|]; [rewrite lookup_insert_eq|rewrite lookup_insert_ne by done]; by eexists.
Qed.

Definition renamed (old new r : Z) : Z := if decide (r = old) then new else r.

Lemma move_flows_ok a old new l : old <> new -> usable old -> usable new -> (forall f, attach_flow_ok a new f = true) -> forall s : sock, NoDup l.*1 ->
  Forall (fun e => m_rx_flow_map s !! e.1 = Some e.2) l -> flow_ok (m_rx_flow_map s) (rxq s) (steered s) -> Z.of_nat (size (m_rx_flow_map s)) < 2 ^ 30 ->
  exists q st m, move_flows a old new l s = Ok (SockRx (m_rx_nd_map s) m (m_res_key s) (observed s) st q (devs s)) /\ flow_ok m q st /\
    forall f, m !! f = if decide ((f, old) ∈ l) then Some new else m_rx_flow_map s !! f.
Proof.
  intros Hne Ho Hn Ha. induction l as [|[f r] l IH]; intros s Hnd Hl Hf Hs.
  - exists (rxq s), (steered s), (m_rx_flow_map s). split; [by destruct s|]. done.
  - cbn [move_flows]. apply NoDup_cons in Hnd as [Hfl Hnd]. apply Forall_cons in Hl as [Hfr Hl]. simpl in Hfr. destruct (Z.eqb_spec r old) as [->|Hro]; cbn [negb].
    + destruct (flow_move _ _ _ f old new Hf Hfr Hne Ho Hn Hs) as (q1 & q2 & -> & E2 & Hf2). cbn [mbind res_bind set_rxq]. rewrite Ha. cbn [negb set_flows set_steered rxq]. rewrite (E2 : del_ring old true (rxq (set_rxq q1 s)) = Ok q2).
      cbn [mbind res_bind]. set (s2 := set_rxq q2 _). destruct (IH s2 Hnd) as (q & st & m & E & Hfm & Hm).
      * rewrite Forall_forall in *. intros [f' r'] Hin. specialize (Hl _ Hin). cbn. rewrite lookup_insert_ne; [done|]. intros <-. apply Hfl. apply list_elem_of_fmap. by exists (f, r').
      * exact Hf2.
      * cbn. rewrite map_size_insert_Some by (by eexists). done.
      * exists q, st, m. split; [exact E|]. split; [done|]. intros f'. rewrite Hm. cbn. destruct (decide (f' = f)) as [->|Hff].
        -- rewrite lookup_insert_eq. rewrite (decide_True (P := (f, old) ∈ (f, old) :: l)) by left. by case_decide.
        -- rewrite lookup_insert_ne by done. apply decide_ext. rewrite elem_of_cons. naive_solver.
    + destruct (IH s Hnd Hl Hf Hs) as (q & st & m & E & Hfm & Hm). exists q, st, m. split; [done|]. split; [done|]. intros f'. rewrite Hm. apply decide_ext. rewrite elem_of_cons. naive_solver.
Qed.

Lemma move_all_ok a old new (s : sock) : old <> new -> usable old -> usable new -> (forall f, attach_flow_ok a new f = true) ->
  flow_ok (m_rx_flow_map s) (rxq s) (steered s) -> Z.of_nat (size (m_rx_flow_map s)) < 2 ^ 30 ->
  exists q st, move_flows a old new (map_to_list (m_rx_flow_map s)) s = Ok (SockRx (m_rx_nd_map s) (renamed old new <$> m_rx_flow_map s) (m_res_key s) (observed s) st q (devs s)) /\
    flow_ok (renamed old new <$> m_rx_flow_map s) q st.
Proof.
  intros Hne Ho Hn Ha Hf Hs. destruct (move_flows_ok a old new (map_to_list (m_rx_flow_map s)) Hne Ho Hn Ha s (NoDup_fst_map_to_list _)) as (q & st & m & E & Hfm & Hm); [|done|done|].
  - apply Forall_forall. intros [f r] Hin. by apply elem_of_map_to_list in Hin.
  - assert (m = renamed old new <$> m_rx_flow_map s) as <-; [|by exists q, st]. apply map_eq. intros f. rewrite Hm, lookup_fmap. unfold renamed.
    destruct (m_rx_flow_map s !! f) as [r|] eqn:E1; simpl; repeat case_decide; rewrite ?elem_of_map_to_list in *; naive_solver.
Qed.

(** In the middle of a migration: the addresses in [done] have their
    reservations under the new key; the flows of a device that has a new ring
    may be with that one already. *)
Record mig (oldk newk : ring_alloc_logic_attr) (done : gset Z) (newring : gmap Z Z) (O : gmap Z ring_table) (s : sock) : Prop := Mig {
  mg_flow : flow_ok (m_rx_flow_map s) (rxq s) (steered s);
  mg_nd : nd_ok (fun nd r => r = p_ring nd \/ newring !! p_ndv nd = Some r) (fun _ => 0) (m_rx_nd_map s) (m_rx_flow_map s) (observed s);
  mg_dev : dev_ok (fun ip => if decide (ip ∈ done) then kv newk else kv oldk) O (m_rx_nd_map s) (devs s);
  mg_done : forall ip nd, m_rx_nd_map s !! ip = Some nd -> ip ∈ done -> newring !! p_ndv nd = Some (p_ring nd);
  mg_new : forall v r, newring !! v = Some r -> exists ip nd, m_rx_nd_map s !! ip = Some nd /\ ip ∈ done /\ p_ndv nd = v
}.

(** No device and no ring refuses. *)
Definition never_refuses (a : answers_t) (ds : gset Z) : Prop :=
  (forall v, creates_own v (create_ring a v)) /\ (forall v, v ∈ ds -> is_Some (create_ring a v)) /\ forall r f, attach_flow_ok a r f = true.

Lemma flows_at_renamed old new ip m : flows_at ip (renamed old new <$> m) = flows_at ip m.
Proof. unfold flows_at, count_if. rewrite map_filter_fmap, map_size_fmap. done. Qed.

Lemma migrate_one_ok a oldk newk done newring O s ip nd : mig oldk newk done newring O s -> kv newk <> kv oldk -> small O s -> Z.of_nat (size (m_rx_nd_map s)) + 1 < 2 ^ 30 ->
  never_refuses a (dom (devs s)) -> m_rx_nd_map s !! ip = Some nd -> ip ∉ done ->
  exists s' newring', migrate_one a oldk newk ip nd s = Ok s' /\ mig oldk newk ({[ip]} ∪ done) newring' O s' /\ m_res_key s' = m_res_key s /\ dom (devs s') = dom (devs s) /\
    (exists nd', m_rx_nd_map s' = <[ip := nd']> (m_rx_nd_map s)) /\ size (m_rx_flow_map s') = size (m_rx_flow_map s).
Proof.
  intros [Hf Hn Hd Hdone Hnew] Hk [Hfew Hsz] Hsz2 (Hcr & Hsome & Hatt) Hip Hnd. pose proof (Hcr (p_ndv nd)) as Hc1.
  assert (is_Some (create_ring a (p_ndv nd))) as Hc2 by (apply Hsome, elem_of_dom; by eapply (do_known _ _ _ _ Hd)).
  assert ((if decide (ip ∈ done) then kv newk else kv oldk) = kv oldk) as Hkip by (by rewrite decide_False).
  destruct (dev_migrate _ O _ _ ip nd (create_ring a (p_ndv nd)) oldk newk Hd Hfew Hsz2 Hip Hkip Hk Hc1 Hc2) as (d & r & d1 & d2 & Hdv & Er & El & U & Hsame & Hd').
  destruct (nd_usable _ _ _ _ _ _ Hd Hip) as [Uo Eo]. set (nd' := NdResources (nd_refcnt nd) (p_ndv nd) r) in *. set (newring' := <[p_ndv nd := r]> newring).
  assert (forall v r', newring !! v = Some r' -> newring' !! v = Some r') as Hgrow.
  { intros v r' Hv. unfold newring'. destruct (decide (v = p_ndv nd)) as [->|]; [|by rewrite lookup_insert_ne]. rewrite lookup_insert_eq. f_equal.
    destruct (Hnew _ _ Hv) as (j & ndj & Hj & Hjd & Ev). symmetry. pose proof (Hdone j ndj Hj Hjd) as E. rewrite Ev, Hv in E. injection E as ->. apply (Hsame j); [done|done|]. by rewrite decide_True. }
  assert (forall m, (forall f r', m !! f = Some r' -> exists ndf, m_rx_nd_map s !! m_local_if f = Some ndf /\ (r' = p_ring ndf /\ (p_ring nd <> r -> r' <> p_ring nd) \/ newring' !! p_ndv ndf = Some r')) ->
      (forall j, flows_at j m = flows_at j (m_rx_flow_map s)) -> forall q st ds, flow_ok m q st -> ds = <[p_ndv nd := d2]> (devs s) ->
      mig oldk newk ({[ip]} ∪ done) newring' O (SockRx (<[ip := nd']> (m_rx_nd_map s)) m (m_res_key s) (observed s) st q ds)) as Hbuild.
  { intros m Hm Hat q st ds Hfl ->. split; cbn; [done| | | |].
    - split.
      + intros f r' Hfr. destruct (Hm f r' Hfr) as (ndf & Hndf & Hcase). destruct (decide (m_local_if f = ip)) as [El'|]; [|rewrite lookup_insert_ne by done; exists ndf; split; [done|]; destruct Hcase as [[-> _]|?]; auto].
        rewrite El' in *. rewrite lookup_insert_eq. exists nd'. split; [done|]. rewrite Hip in Hndf. injection Hndf as <-. destruct Hcase as [[-> Hc]|Hc]; [|by right].
        destruct (decide (p_ring nd = r)) as [E|Hne']; [left; exact E|by destruct (Hc Hne')].
      + intros j ndj Hj. rewrite Hat. apply lookup_insert_Some in Hj as [[<- <-]|[_ Hj]]; [apply (no_count _ _ _ _ _ Hn ip nd Hip)|by apply (no_count _ _ _ _ _ Hn)].
      + intros j ndj Hj. apply lookup_insert_Some in Hj as [[<- <-]|[_ Hj]]; by eapply (no_observed _ _ _ _ _ Hn).
    - eapply dev_ok_keyof; [|exact Hd']. intros j ndj _. simpl. destruct (decide (j = ip)) as [->|Hji]; [rewrite decide_True by set_solver; done|]. apply decide_ext. set_solver.
    - intros j ndj Hj Hjd. apply lookup_insert_Some in Hj as [[<- <-]|[Hji Hj]]; [apply lookup_insert_eq|]. apply Hgrow, (Hdone j); [done|set_solver].
    - intros v r' Hv. destruct (decide (v = p_ndv nd)) as [->|Hvn]; [exists ip, nd'; rewrite lookup_insert_eq; set_solver|]. unfold newring' in Hv. rewrite lookup_insert_ne in Hv by done.
      destruct (Hnew v r' Hv) as (j & ndj & Hj & Hjd & Ev). exists j, ndj. rewrite lookup_insert_ne; [set_solver|]. intros <-. done. }
  unfold migrate_one. rewrite Hdv. cbn [must mbind res_bind]. rewrite Er. cbn [mbind res_bind fst snd set_devs devs]. cbv zeta.
  assert (dom (<[p_ndv nd := d2]> (<[p_ndv nd := d1]> (devs s))) = dom (devs s)) as Edom by (apply elem_of_dom_2 in Hdv; rewrite !dom_insert_L; set_solver).
  destruct (Z.eqb_spec r (p_ring nd)) as [E|Hne].
  - rewrite lookup_insert_eq. cbn [must mbind res_bind]. rewrite El. cbn [mbind res_bind fst snd set_devs devs m_rx_nd_map]. eexists _, newring'. split; [done|].
    assert (nd' = nd) as End by (unfold nd'; rewrite E; by destruct nd). split.
    + assert (mig oldk newk ({[ip]} ∪ done) newring' O (SockRx (<[ip := nd']> (m_rx_nd_map s)) (m_rx_flow_map s) (m_res_key s) (observed s) (steered s) (rxq s) (<[p_ndv nd := d2]> (devs s)))) as HB.
      { apply Hbuild; [|done|done|done]. intros f r' Hfr. destruct (no_flows _ _ _ _ _ Hn f r' Hfr) as (ndf & Hndf & [->|Hc]); exists ndf; (split; [done|]); [left; split; [done|by rewrite E]|right; auto]. }
      rewrite End, insert_id in HB by done. by rewrite insert_insert_eq.
    + do 2 (split; [done|]). split; [|done]. exists nd. cbn. by rewrite insert_id.
  - destruct (move_all_ok a (p_ring nd) r (set_devs (<[p_ndv nd := d1]> (devs s)) s)) as (q & st & Em & Hfm); [congruence|done|done|by intros f; apply Hatt|done|done|].
    rewrite Em. cbn [set_devs m_rx_flow_map] in Hfm. cbn [mbind res_bind set_rxq set_devs rxq devs m_rx_nd_map m_rx_flow_map m_res_key observed steered]. rewrite lookup_insert_eq. cbn [must mbind res_bind]. rewrite El.
    cbn [mbind res_bind fst snd set_devs set_nd devs m_rx_nd_map m_rx_flow_map m_res_key observed steered rxq]. eexists _, newring'. split; [done|]. split.
    + apply (Hbuild (renamed (p_ring nd) r <$> m_rx_flow_map s)); [|intros j; apply flows_at_renamed|by apply flow_settle|by rewrite insert_insert_eq].
      intros f r' Hfr. rewrite lookup_fmap in Hfr. apply fmap_Some in Hfr as (r0 & Hr0 & ->). destruct (no_flows _ _ _ _ _ Hn f r0 Hr0) as (ndf & Hndf & Hcase). exists ndf. split; [done|].
      unfold renamed. destruct (decide (r0 = p_ring nd)) as [->|Hr0n]; [|destruct Hcase as [->|Hc]; [by left|by right; apply Hgrow]]. right.
      destruct Hcase as [Ef|Hc].
      * unfold newring'. replace (p_ndv ndf) with (p_ndv nd); [apply lookup_insert_eq|]. destruct (nd_usable _ _ _ _ _ _ Hd Hndf) as [_ Ef2]. by rewrite <- Eo, <- Ef2, <- Ef.
      * exfalso. destruct (Hnew _ _ Hc) as (j & ndj & Hj & Hjd & Ev). pose proof (Hdone j ndj Hj Hjd) as Ej. rewrite Ev, Hc in Ej. injection Ej as Ej.
        destruct (nd_usable _ _ _ _ _ _ Hd Hj) as [_ Ej2]. apply Hne. symmetry. rewrite Ej. apply (Hsame j ndj Hj); [by rewrite <- Ej2, <- Eo, <- Ej|]. by rewrite decide_True.
    + cbn. split; [done|]. split; [done|]. split; [by eexists|]. by rewrite map_size_fmap.
Qed.

Lemma migrate_all_ok a oldk newk O l : kv newk <> kv oldk ->
  forall done newring s, never_refuses a (dom (devs s)) -> mig oldk newk done newring O s -> small O s -> Z.of_nat (size (m_rx_nd_map s)) + 1 < 2 ^ 30 -> NoDup l.*1 ->
  Forall (fun e => m_rx_nd_map s !! e.1 = Some e.2 /\ e.1 ∉ done) l ->
  exists s' newring', migrate_all a oldk newk l s = Ok s' /\ mig oldk newk (list_to_set l.*1 ∪ done) newring' O s' /\ m_res_key s' = m_res_key s /\
    dom (devs s') = dom (devs s) /\ dom (m_rx_nd_map s') = dom (m_rx_nd_map s).
Proof.
  intros Hk. induction l as [|[ip nd] l IH]; intros done newring s Hcr Hm Hs Hsz Hnd Hl; cbn [migrate_all].
  - exists s, newring. split; [done|]. split; [|done]. by rewrite fmap_nil, list_to_set_nil, (left_id_L ∅ (∪)).
  - apply NoDup_cons in Hnd as [Hipl Hnd]. apply Forall_cons in Hl as [[Hip Hnd'] Hl]. simpl in Hip, Hnd'.
    destruct (migrate_one_ok a oldk newk done newring O s ip nd Hm Hk Hs Hsz Hcr Hip Hnd') as (s1 & nr1 & -> & Hm1 & Ek & Ed & [nd' En] & Ef). cbn [mbind res_bind].
    assert (size (m_rx_nd_map s1) = size (m_rx_nd_map s)) as Es by (rewrite En; apply map_size_insert_Some; by eexists).
    destruct (IH _ _ s1 ltac:(by rewrite Ed) Hm1) as (s' & nr' & -> & Hm' & Ek' & Ed' & En').
    + destruct Hs as [[H1 H2] H3]. split; [split; [done|lia]|lia].
    + lia.
    + done.
    + rewrite Forall_forall in *. intros [j ndj] Hj. destruct (Hl _ Hj) as [H1 H2]. simpl in *. assert (j <> ip) by (intros ->; apply Hipl; apply list_elem_of_fmap; by exists (ip, ndj)).
      split; [rewrite En; by rewrite lookup_insert_ne|set_solver].
    + exists s', nr'. split; [done|]. split; [|split; [congruence|split; [congruence|]]].
      * replace (list_to_set ((ip, nd) :: l).*1 ∪ done) with (list_to_set l.*1 ∪ ({[ip]} ∪ done)) by (rewrite fmap_cons, list_to_set_cons; simpl; set_solver). done.
      * rewrite En', En, dom_insert_L. apply elem_of_dom_2 in Hip. set_solver.
Qed.

Lemma migration_ok a O s : recv_ok O s -> small O s -> Z.of_nat (size (m_rx_nd_map s)) + 1 < 2 ^ 30 -> never_refuses a (dom (devs s)) ->
  exists s', do_rings_migration a s = Ok s' /\ recv_ok O s' /\ dom (devs s') = dom (devs s) /\ m_user_id_key (m_res_key s') = new_id a.
Proof.
  intros [Hf Hn Hd] Hs Hsz Hcr. unfold do_rings_migration. destruct (Z.eqb_spec (m_user_id_key (m_res_key s)) (new_id a)) as [E|Hne]; [by exists s|].
  set (newk := set_user_id_key (new_id a) (m_res_key s)). assert (m_user_id_key newk = new_id a) as Eid by (unfold newk, set_user_id_key; by case_decide).
  assert (kv newk <> kv (m_res_key s)) as Hk by (intros [= _ _ E]; congruence).
  destruct (migrate_all_ok a (m_res_key s) newk O (map_to_list (m_rx_nd_map s)) Hk ∅ ∅ (set_key newk s) Hcr) as (s' & nr & -> & Hm & Ek & Ed & En).
  - split; cbn; [done| | | |].
    + destruct Hn as [N1 N2 N3]. split; [|done|done]. intros f r Hfr. destruct (N1 f r Hfr) as (nd & ? & ?). exists nd. split; [done|by left].
    + eapply dev_ok_keyof; [|exact Hd]. done.
    + intros ip nd _ Hi. by apply elem_of_empty in Hi.
    + intros v r Hv. by rewrite lookup_empty in Hv.
  - done.
  - done.
  - apply NoDup_fst_map_to_list.
  - apply Forall_forall. intros [ip nd] Hin. apply elem_of_map_to_list in Hin. split; [done|]. apply not_elem_of_empty.
  - exists s'. split; [done|]. split; [|split; [done|by rewrite Ek]]. destruct Hm as [M1 M2 M3 M4 M5].
    assert (forall ip nd, m_rx_nd_map s' !! ip = Some nd -> ip ∈ (list_to_set (map_to_list (m_rx_nd_map s)).*1 ∪ ∅ : gset Z)) as Hall.
    { intros ip nd Hip. apply elem_of_dom_2 in Hip. rewrite En in Hip. apply elem_of_dom in Hip as [nd0 Hip]. apply elem_of_union. left. apply elem_of_list_to_set, list_elem_of_fmap.
      exists (ip, nd0). split; [done|]. by apply elem_of_map_to_list. }
    split; [done| |].
    + destruct M2 as [N1 N2 N3]. split; [|done|done]. intros f r Hfr. destruct (N1 f r Hfr) as (nd & Hnd & Hcase). exists nd. split; [done|]. destruct Hcase as [?|Hc]; [done|].
      rewrite (M4 _ nd Hnd (Hall _ _ Hnd)) in Hc. by injection Hc.
    + rewrite Ek. eapply dev_ok_keyof; [|exact M3]. intros ip nd Hip. cbv beta. rewrite decide_True by (by eapply Hall). done.
Qed.

(** *** The end *)

Lemma destructor_ok O fuel : forall s, recv_ok O s -> small O s -> (size (m_rx_flow_map s) <= fuel)%nat ->
  exists s', destructor_helper fuel s = Ok s' /\ recv_ok O s' /\ m_rx_flow_map s' = ∅ /\ dom (devs s') = dom (devs s).
Proof.
  assert (forall s : sock, map_to_list (m_rx_flow_map s) = [] -> m_rx_flow_map s = ∅) as Hnil by (intros s E; by apply map_to_list_empty_iff).
  induction fuel as [|fuel IH]; intros s Hr Hs Hle; cbn [destructor_helper]; destruct (map_to_list (m_rx_flow_map s)) as [|[f r] l] eqn:E.
  - exists s. auto.
  - assert (size (m_rx_flow_map s) = 0%nat) as Hz by lia. apply map_size_empty_inv in Hz. rewrite Hz, map_to_list_empty in E. done.
  - exists s. auto.
  - assert (m_rx_flow_map s !! f = Some r) as Hf by (apply elem_of_map_to_list; rewrite E; left).
    destruct (detach_ok O f s Hr Hs) as (b & s1 & -> & E1 & E2 & E3 & H1). cbn [mbind res_bind]. assert (size (m_rx_flow_map s1) = pred (size (m_rx_flow_map s))) as Es by (rewrite E1; apply map_size_delete_Some; by exists r).
    destruct (IH s1 H1) as (s' & E' & H' & E4 & E5).
    + destruct Hs as [[H2 H3] H4]. split; [split; [done|lia]|lia].
    + lia.
    + exists s'. cbn [snd]. rewrite E', E5. auto.
Qed.

Lemma no_flows_nothing O s : recv_ok O s -> m_rx_flow_map s = ∅ ->
  m_rx_nd_map s = ∅ /\ ring_refs (rxq s) = ∅ /\ steered s = ∅ /\ forall v d, devs s !! v = Some d -> has_rings d (default ∅ (O !! v)).
Proof.
  intros [Hf Hn Hd] E. assert (m_rx_nd_map s = ∅) as En.
  { apply map_empty. intros ip. destruct (m_rx_nd_map s !! ip) as [nd|] eqn:Ei; [|done]. destruct (no_count _ _ _ _ _ Hn ip nd Ei) as [H1 H2].
    unfold flows_at in H1. rewrite E, count_if_empty in H1. lia. }
  split; [done|]. split; [|split].
  - apply map_empty. intros r. rewrite (fo_refs _ _ _ Hf), E. unfold uses. by rewrite count_if_empty.
  - apply set_eq. intros [r f]. split; [|by intros ?%elem_of_empty]. intros Hin. apply (fo_steered _ _ _ Hf) in Hin. by rewrite E, lookup_empty in Hin.
  - intros v d Hv. destruct (do_devs _ _ _ _ Hd v d Hv) as (A & R & S & _). assert (A = default ∅ (O !! v)) as <-; [|done].
    apply (shares_nothing _ (own (fun _ => kv (m_res_key s)) (m_rx_nd_map s) v)); [|done]. intros k. rewrite En. apply count_if_empty.
Qed.

(** *** Runs *)

(** The calls on the socket, and what happens between them: packets and reads
    change the queue, other sockets the devices; [O] is then what the others
    have reserved. *)
Inductive recv_call :=
| r_attach (a : answers_t) (f : flow_tuple_with_local_if)
| r_attach_uc (a : answers_t) (target_vma : Z -> bool) (ip_list : list Z) (m_bound m_connected : Z * Z) (m_protocol m_so_bindtodevice_ip : Z)
| r_detach (f : flow_tuple_with_local_if)
| r_migrate (a : answers_t)
| r_others (O : gmap Z ring_table) (q : Q) (ds : gmap Z D).

Definition recv_step (c : recv_call) (x : sock * gmap Z ring_table) : res (sock * gmap Z ring_table) :=
  let '(s, others) := x in
  match c with
  | r_attach a f => y ← attach_receiver a f s; Ok (y.2, others)
  | r_attach_uc a t l b c p i => y ← attach_as_uc_receiver a t l b c p i s; Ok (y.2, others)
  | r_detach f => y ← detach_receiver f s; Ok (y.2, others)
  | r_migrate a => s ← do_rings_migration a s; Ok (s, others)
  | r_others others q ds => Ok (set_devs ds (set_rxq q s), others)
  end.

Fixpoint recv_run (l : list recv_call) (x : sock * gmap Z ring_table) : res (sock * gmap Z ring_table) :=
  match l with [] => Ok x | c :: l => x ← recv_step c x; recv_run l x end.

Definition room (n : nat) (x : sock * gmap Z ring_table) : Prop :=
  (forall v A, x.2 !! v = Some A -> map_Forall (fun _ y => snd y < 2 ^ 30) A) /\
  Z.of_nat (size (m_rx_nd_map x.1)) + Z.of_nat n < 2 ^ 30 /\ Z.of_nat (size (m_rx_flow_map x.1)) + Z.of_nat n < 2 ^ 30.

(** What is expected of the outside: devices exist and create rings of their
    own; in a migration no device and no ring refuses (the code goes on after
    a refusal, with the consequences that [failed_migration_leaks] and
    [refused_migration_dangles] show); the others keep to their own
    references. *)
Definition allowed_recv (c : recv_call) (x : sock * gmap Z ring_table) : Prop :=
  match c with
  | r_attach a f => answers_allowed a x.1 /\ room 1 x
  | r_attach_uc a t l b c p i => answers_allowed a x.1 /\ room (S (length l)) x
  | r_detach f => room 0 x
  | r_migrate a => room 1 x /\ never_refuses a (dom (devs x.1))
  | r_others others q ds => user_ok q /\ ring_refs q = ring_refs (rxq x.1) /\ dev_ok (fun _ => kv (m_res_key x.1)) others (m_rx_nd_map x.1) ds
  end.

Fixpoint allowed_recvs (l : list recv_call) (x : sock * gmap Z ring_table) : Prop :=
  match l with
  | [] => True
  | c :: l => allowed_recv c x /\ forall x', recv_step c x = Ok x' -> allowed_recvs l x'
  end.

(** A socket without flows, with devices that others use. *)
Definition unattached (x : sock * gmap Z ring_table) : Prop :=
  m_rx_nd_map x.1 = ∅ /\ m_rx_flow_map x.1 = ∅ /\ steered x.1 = ∅ /\ user_ok (rxq x.1) /\ ring_refs (rxq x.1) = ∅ /\
  forall v d, devs x.1 !! v = Some d -> has_rings d (default ∅ (x.2 !! v)) /\ map_Forall (fun _ y => 0 < snd y /\ usable (fst y) /\ owner (fst y) = v) (default ∅ (x.2 !! v)).

Lemma unattached_ok x : unattached x -> recv_ok x.2 x.1.
Proof.
  intros (E1 & E2 & E3 & Hu & E4 & Hd). split; rewrite ?E1, ?E2, ?E3.
  - split; [done| |by intros r f ?%elem_of_empty]. intros r. rewrite E4, lookup_empty. unfold uses. by rewrite count_if_empty.
  - split; intros ? ?; by rewrite lookup_empty.
  - split; [|intros ip nd; by rewrite lookup_empty]. intros v d Hv. destruct (Hd v d Hv) as [H1 H2]. exists (default ∅ (x.2 !! v)). split; [done|]. split; [|split].
    + intros k. unfold own. rewrite count_if_empty. destruct (default ∅ (x.2 !! v) !! k) as [[r c]|] eqn:E; [|by left]. destruct (H2 k _ E) as (? & _). rewrite Z.add_0_r. done.
    + intros ip nd. by rewrite lookup_empty.
    + intros k r c Hk. by destruct (H2 k _ Hk) as (_ & ?).
Qed.

Lemma recv_step_ok c x : recv_ok x.2 x.1 -> allowed_recv c x -> returns (fun x' => recv_ok x'.2 x'.1) (recv_step c x).
Proof.
  destruct x as [s O]. cbn [fst snd]. intros Hr Ha.
  assert (forall n, room n (s, O) -> small O s) as Hsmall by (intros n (H1 & H2 & H3); cbn [fst snd] in *; split; [split; [done|lia]|lia]).
  destruct c as [a f|a t l b c p i|f|a|O' q ds]; cbn [recv_step allowed_recv fst snd] in *.
  - destruct Ha as [Ha Hroom]. destruct (Hsmall _ Hroom) as [Hf _]. destruct Hroom as (_ & H2 & H3). cbn [fst snd] in *.
    destruct (attach_ok O a f s Hr Hf) as (b & s' & -> & _ & _ & _ & H'); [lia|lia|done|]. by apply returns_Ok.
  - destruct Ha as [Ha Hroom]. destruct (Hsmall _ Hroom) as [Hf _]. destruct Hroom as (_ & H2 & H3). cbn [fst snd] in *.
    assert (exists b' s', attach_as_uc_receiver a t l b c p i s = Ok (b', s') /\ recv_ok O s') as (b' & s' & -> & H'); [|by apply returns_Ok].
    unfold attach_as_uc_receiver. cbv zeta. destruct (negb (_ =? 0)).
    + destruct (t (fst b)); [|by exists true, s]. destruct (attach_ok O a (FlowIf (FlowTuple b.1 b.2 c.1 c.2 p) (if negb (i =? 0) then i else b.1)) s Hr Hf) as (b' & s' & -> & _ & _ & _ & H'); [lia|lia|done|].
      by exists b', s'.
    + destruct (attach_all_ok O a t (fun ip => FlowTuple ip b.2 c.1 c.2 p) l s Hr Hf) as (b' & s' & -> & _ & H'); [lia|lia|done|]. by exists b', s'.
  - destruct (detach_ok O f s Hr (Hsmall _ Ha)) as (b & s' & -> & _ & _ & _ & H'). by apply returns_Ok.
  - destruct Ha as (Hroom & Hcr). pose proof Hroom as (_ & H2 & _). cbn [fst snd] in *.
    destruct (migration_ok a O s Hr (Hsmall _ Hroom)) as (s' & -> & H' & _); [lia|done|]. by apply returns_Ok.
  - destruct Ha as (H1 & H2 & H3). apply returns_Ok. destruct Hr as [[F1 F2 F3] Hn Hd]. split; cbn; [|exact Hn|exact H3]. split; [done|by rewrite H2|done].
Qed.

Lemma recv_run_ok l : forall x, recv_ok x.2 x.1 -> allowed_recvs l x -> returns (fun x' => recv_ok x'.2 x'.1) (recv_run l x).
Proof.
  induction l as [|c l IH]; intros x Hx Ha; [by apply returns_Ok|]. destruct Ha as [Hc Hl]. cbn [recv_run].
  destruct (recv_step_ok c x Hx Hc) as (x1 & E & H1). rewrite E. cbn [mbind res_bind]. apply IH; [done|by apply Hl].
Qed.

(** C3: A socket and its devices agree on its rings.  Over every sequence of
    flows that are attached (one by one or for all offloaded addresses, where
    devices and rings may refuse) and detached, migrations in which no device
    refuses a new ring and no ring a flow, and whatever other sockets reserve
    and release in between, every call returns; the ring of each flow
    is one that its device still has, under the key of the socket; the
    resources of a local address are counted by the flows on it, and a ring by
    the flows that use it; a device has the references of the others and one
    for each address of the socket on it, and nothing else; and rings steer
    only flows that the socket knows. *)
Theorem receiver_conserves l x0 : unattached x0 -> allowed_recvs l x0 -> returns (fun x => let '(s, others) := x in
  (forall f r, m_rx_flow_map s !! f = Some r -> exists nd d A c, m_rx_nd_map s !! m_local_if f = Some nd /\ p_ring nd = r /\ devs s !! p_ndv nd = Some d /\
     has_rings d A /\ A !! kv (m_res_key s) = Some (r, c)) /\
  (forall ip nd, m_rx_nd_map s !! ip = Some nd -> nd_refcnt nd = flows_at ip (m_rx_flow_map s) /\ 0 < nd_refcnt nd) /\
  (forall r, default 0 (ring_refs (rxq s) !! r) = uses r (m_rx_flow_map s)) /\
  (forall v d, devs s !! v = Some d -> exists A, has_rings d A /\ shares (default ∅ (others !! v)) (own (fun _ => kv (m_res_key s)) (m_rx_nd_map s) v) A) /\
  (forall r f, (r, f) ∈ steered s -> m_rx_flow_map s !! f = Some r)) (recv_run l x0).
Proof.
  intros Hx Ha. eapply returns_mono; [|apply recv_run_ok; [by apply unattached_ok|done]]. intros [s O] [Hf Hn Hd]. cbn [fst snd] in *. split; [|split; [|split; [|split]]].
  - intros f r Hfr. destruct (no_flows _ _ _ _ _ Hn f r Hfr) as (nd & Hnd & ->). destruct (do_known _ _ _ _ Hd _ nd Hnd) as [d Hv].
    destruct (do_devs _ _ _ _ Hd _ d Hv) as (A & R & _ & I & _). destruct (I _ nd Hnd eq_refl) as [c Hc]. by exists nd, d, A, c.
  - intros ip nd Hip. destruct (no_count _ _ _ _ _ Hn ip nd Hip) as [H1 H2]. split; [lia|done].
  - intros r. by apply (uses_refs _ _ (steered s)).
  - intros v d Hv. destruct (do_devs _ _ _ _ Hd _ d Hv) as (A & R & S & _). by exists A.
  - apply Hf.
Qed.

(** C17: The end of a socket gives everything back: in every state that is
    reached by attachments, detachments and migrations in which no device
    refuses a new ring and no ring a flow, [destructor_helper] returns, with as many rounds as there are
    flows, and leaves no flow, no resources, no ring, nothing that a ring
    steers to the socket, and each device with exactly the references of the
    other sockets. *)
Theorem receiver_destroyed l x0 s O : unattached x0 -> allowed_recvs l x0 -> recv_run l x0 = Ok (s, O) -> room 0 (s, O) ->
  exists s', destructor_helper (size (m_rx_flow_map s)) s = Ok s' /\ m_rx_flow_map s' = ∅ /\ m_rx_nd_map s' = ∅ /\ ring_refs (rxq s') = ∅ /\ steered s' = ∅ /\
    forall v d, devs s' !! v = Some d -> has_rings d (default ∅ (O !! v)).
Proof.
  intros Hx Ha E (H1 & H2 & H3). cbn [fst snd] in *. destruct (recv_run_ok l x0 (unattached_ok x0 Hx) Ha) as (x & E' & Hr). rewrite E in E'. injection E' as <-. cbn [fst snd] in *.
  destruct (destructor_ok O (size (m_rx_flow_map s)) s Hr) as (s' & Ed & Hr' & Ef & _); [split; [split; [done|lia]|lia]|done|].
  destruct (no_flows_nothing O s' Hr' Ef) as (E1 & E2 & E3 & E4). by exists s'.
Qed.

End Laws.

(** ** Devices of [RingMap] *)

Section Device.
Context (fds : Z -> list Z) (caller : kptr).

(** The object at [caller] has the value of the key when a call is made. *)
Definition with_key (k : ring_alloc_logic_attr) (d : net_device_val) : net_device_val := set_keys (<[caller := k]> (keys d)) d.

#[local] Instance ring_map_device : RingDevice net_device_val := {
  reserve created k d := reserve_ring 0 fds created caller (with_key k d);
  release k d := release_ring 0 fds caller (with_key k d)
}.

Definition represented (d : net_device_val) (A : ring_table) : Prop := exists k l, represents {[caller := k]} (2 ^ 31 - 1) (with_key k d) A l.

Lemma represents_key k k' n d A l : represents {[caller := k]} n (with_key k d) A l -> represents {[caller := k']} n (with_key k' d) A l.
Proof.
  intros [R1 R2 R3 R4 R5 R6 R7]. split; cbn [with_key set_keys keys m_h_ring_map] in *; try done.
  - by apply map_singleton_subseteq_l, lookup_insert_eq.
  - eapply Forall_impl; [exact R2|]. intros e He. apply lookup_singleton_None in He. by apply lookup_singleton_None.
  - clear - R2 R4. induction R4 as [|e x es l (k0 & Hk & ->) Hl IH]; [constructor|]. apply Forall_cons in R2 as [He R2]. constructor; [|by apply IH].
    apply lookup_singleton_None in He. exists k0. split; [|done]. rewrite lookup_insert_ne in * by done. done.
Qed.

Lemma represents_less K d A l : represents K (2 ^ 31 - 1) d A l -> map_Forall (fun _ x => snd x < 2 ^ 31 - 1) A -> represents K (2 ^ 31 - 2) d A l.
Proof.
  intros [R1 R2 R3 R4 R5 R6 R7] HA. split; try done. rewrite Forall_forall in *. intros [k [r c]] Hin. specialize (R7 _ Hin). simpl in *. split; [lia|].
  assert (c < 2 ^ 31 - 1); [|lia]. apply (HA k (r, c)). rewrite <- R6. by apply elem_of_list_to_map.
Qed.

Lemma represented_after k d A l : represents {[caller := k]} (2 ^ 31 - 2 + 1) d A l -> represented d A.
Proof.
  intros R. exists k, l. assert (with_key k d = d) as ->; [|done]. destruct R as [R1 _ _ _ _ _ _]. apply map_singleton_subseteq_l in R1. unfold with_key. rewrite insert_id by done. by destruct d.
Qed.

#[local, refine] Instance ring_map_laws : RingDeviceLaws net_device_val := { has_rings := represented }.
Proof.
  - intros d A created k (k0 & l & R) HA. apply (represents_key k0 k) in R. apply represents_less in R; [|done].
    destruct (reserve_sim fds _ _ _ A l created caller k R ltac:(apply lookup_singleton_eq) ltac:(lia)) as (r & d' & A' & l' & E & Es & R'). exists r, d', A'. split; [done|]. split; [done|].
    by eapply represented_after.
  - intros d A k (k0 & l & R) HA. apply (represents_key k0 k) in R. apply represents_less in R; [|done].
    destruct (release_sim fds _ _ _ A l caller k R ltac:(apply lookup_singleton_eq) ltac:(lia)) as (b & d' & A' & l' & E & Es & R'). exists b, d', A'. split; [done|]. split; [done|].
    by eapply represented_after.
Defined.

End Device.

(** ** UDP sockets as users of rings *)

Section User.
Context (rings : gmap ptr ring_kind) (descs : gmap ptr rx_desc) (busy : ptr -> bool) (R : list ptr).

(** The rings of the socket, by their addresses. *)
Definition udp_refs (s : udp_socket) : gmap Z Z := kmap Zpos (refcnt <$> m_rx_ring_map (reuse s)).

Definition choose_ring (r : reuse_info) : reuse_info :=
  match m_p_rx_ring r, map_to_list (m_rx_ring_map r) with
  | None, [(k, _)] => set_rx_ring (Some k) r
  | _, _ => r
  end.

#[local] Instance udp_ring_user : RingUser (udp_socket * heap) := {
  add_ring r q := x ← rx_add_ring_cb rings (Z.to_pos r) (reuse q.1); Ok (set_reuse x q.1, q.2);
  del_ring r migration q := x ← rx_del_ring_cb rings descs busy (Z.to_pos r) migration q.1 q.2; Ok (x.1.2, x.2);
  processor q := (set_opts (set_rx_packet_processor (opts q.1)) q.1, q.2);
  settle_ring q := (set_reuse (choose_ring (reuse q.1)) q.1, q.2);
  ring_refs q := udp_refs q.1
}.

Definition udp_user_ok (q : udp_socket * heap) : Prop :=
  rings_ok rings /\ reuse_ok rings (ready q.1 ++ R) (reuse q.1) q.2 /\ counters_ok descs (queue q.1) /\ forall p, p ∈ holding q.1 ++ R -> is_Some (descs !! p).
Definition udp_usable (r : Z) : Prop := exists p, r = Zpos p /\ is_Some (rings !! p) /\ get_parent rings p = Ok p.

Lemma refs_lookup s p : udp_refs s !! Zpos p = refcnt <$> m_rx_ring_map (reuse s) !! p.
Proof. unfold udp_refs. by rewrite lookup_kmap, lookup_fmap by (intros ??; congruence). Qed.

Lemma refs_insert s s' p info : m_rx_ring_map (reuse s') = <[p := info]> (m_rx_ring_map (reuse s)) -> udp_refs s' = <[Zpos p := refcnt info]> (udp_refs s).
Proof. intros E. unfold udp_refs. by rewrite E, fmap_insert, kmap_insert by (intros ??; congruence). Qed.

Lemma refs_delete s s' p : m_rx_ring_map (reuse s') = delete p (m_rx_ring_map (reuse s)) -> udp_refs s' = delete (Zpos p) (udp_refs s).
Proof. intros E. unfold udp_refs. by rewrite E, fmap_delete, kmap_delete by (intros ??; congruence). Qed.

(** The entry of a ring after [rx_del_ring_cb]. *)
Lemma del_ring_map r base migration s x l s' x' info : get_parent rings r = Ok base -> m_rx_ring_map (reuse s) !! base = Some info ->
  rx_del_ring_cb rings descs busy r migration s x = Ok (l, s', x') ->
  m_rx_ring_map (reuse s') = if i32 (refcnt info - 1) =? 0 then delete base (m_rx_ring_map (reuse s))
    else <[base := RingInfo (i32 (refcnt info - 1)) (rx_reuse info) (n_buff_num info)]> (m_rx_ring_map (reuse s)).
Proof.
  intros Hb Hi E. unfold rx_del_ring_cb in E. rewrite Hb in E. cbn [mbind res_bind] in E. rewrite Hi in E. destruct (i32 (refcnt info - 1) =? 0); cbn [negb] in E; [|by injection E as _ <- _].
  apply bind_Ok in E as (y & _ & E). apply bind_Ok in E as (z & _ & E). cbv zeta in E. apply bind_Ok in E as ([[temp global] r'] & Et & E).
  assert (m_rx_ring_map r' = delete base (m_rx_ring_map (reuse s))) as Er.
  { case_bool_decide; [apply bind_Ok in Et as (k & _ & Et)|]; by injection Et as _ _ <-. }
  apply bind_Ok in E as (x1 & _ & E). apply bind_Ok in E as (x2 & _ & E). by injection E as _ <- _.
Qed.

Lemma user_step s x s' x' : udp_user_ok (s, x) -> sock_step rings descs R s x R s' x' -> udp_user_ok (s', x').
Proof.
  intros (H1 & H2 & H3 & H4) [S1 S2 S3 S4 S5]. split; [done|]. split; [done|]. split; [done|]. intros p Hp. apply H4. by eapply settled_sub.
Qed.

Lemma user_descs s x : udp_user_ok (s, x) -> Forall (fun p => is_Some (descs !! p)) (ready s).
Proof. intros (_ & _ & _ & H). apply Forall_forall. intros p Hp. apply H. unfold holding. cbn [fst]. rewrite !elem_of_app. auto. Qed.

#[local, refine] Instance udp_ring_user_laws : RingUserLaws (udp_socket * heap) := { user_ok := udp_user_ok; usable := udp_usable }.
Proof.
  - intros r [s x] Hu (p & -> & Hp & Hpar) Hn. pose proof Hu as (_ & H2 & H3 & _). cbn [add_ring udp_ring_user ring_refs fst snd] in *. change (Z.to_pos (Z.pos p)) with p.
    destruct (add_ring_ok rings descs R s x p H2 H3 Hp Hpar) as (r' & E & Hst). rewrite E. cbn [mbind res_bind]. eexists. split; [done|]. split; [by eapply user_step|]. cbn [fst].
    rewrite refs_lookup in Hn. unfold rx_add_ring_cb in E. rewrite Hpar in E. cbn [mbind res_bind] in E. unfold one_more. rewrite refs_lookup. destruct (m_rx_ring_map (reuse s) !! p) as [info|]; injection E as <-; cbn in Hn.
    + rewrite (refs_insert s _ p (RingInfo (i32 (refcnt info + 1)) (rx_reuse info) (n_buff_num info))) by done. cbn. by rewrite swrap_small by lia.
    + by rewrite (refs_insert s _ p (RingInfo 1 [] 0)).
  - intros r migration [s x] n Hu (p & -> & Hp & Hpar) Hr Hn. pose proof Hu as (H1 & H2 & H3 & _). cbn [del_ring udp_ring_user ring_refs fst snd] in *. change (Z.to_pos (Z.pos p)) with p.
    destruct (del_ring_ok rings busy descs R s x p p migration H1 H2 H3 (user_descs s x Hu) Hpar) as (s' & x' & E & Hst). rewrite E. cbn [mbind res_bind fst snd]. eexists. split; [done|].
    split; [by eapply user_step|]. cbn [fst]. rewrite refs_lookup in Hr. apply fmap_Some in Hr as (info & Hi & ->). pose proof (del_ring_map p p migration s x [] s' x' info Hpar Hi E) as Em.
    rewrite swrap_small in Em by lia. unfold one_less. destruct (Z.eqb_spec (refcnt info - 1) 0), (Z.eqb_spec (refcnt info) 1); try lia; [by apply refs_delete|]. by rewrite (refs_insert s s' p _ Em).
  - intros [s x] (H1 & H2 & H3 & H4). by split.
  - intros [s x] (H1 & H2 & H3 & H4). cbn [settle_ring udp_ring_user ring_refs fst snd].
    assert (m_rx_ring_map (choose_ring (reuse s)) = m_rx_ring_map (reuse s) /\ reuse_ok rings (ready s ++ R) (choose_ring (reuse s)) x) as [E Hr].
    { unfold choose_ring. destruct (m_p_rx_ring (reuse s)); [done|]. destruct (map_to_list (m_rx_ring_map (reuse s))) as [|[k i] [|]] eqn:Em; try done. split; [done|].
      destruct H2 as [C1 C2 C3 C4 C5 C6]. split; try done. intros k' [= <-]. assert ((k, i) ∈ map_to_list (m_rx_ring_map (reuse s))) as Hin by (rewrite Em; left).
      apply elem_of_map_to_list in Hin. exact (C3 k i Hin). }
    assert (collected (choose_ring (reuse s)) = collected (reuse s)) as Ec by (unfold choose_ring; repeat case_match; done). split; [|unfold udp_refs; cbn [set_reuse reuse]; by rewrite E].
    split; [done|]. split; [done|]. split; [done|]. intros p. unfold holding. cbn [fst set_reuse reuse]. rewrite Ec. apply H4.
Defined.

End User.

(** ** A socket on one device *)

Module ReceiverExample.

Definition rings : gmap ptr ring_kind := {[100%positive := ring_of 100; 200%positive := ring_of 200]}.
Definition free_ (p : ptr) : bool := false.
Definition owner (r : Z) : Z := 1.
Definition fds (r : Z) : list Z := [r].

#[local] Instance dev_class : RingDevice net_device_val := ring_map_device fds 1.
#[local] Instance dev_laws : RingDeviceLaws net_device_val := ring_map_laws fds 1.
#[local] Instance user_class : RingUser (udp_socket * heap) := udp_ring_user rings ∅ free_.
#[local] Instance user_laws : RingUserLaws (udp_socket * heap) := udp_ring_user_laws rings ∅ free_ [].

Abbreviation state := (sock_rx (udp_socket * heap) net_device_val * gmap Z ring_table)%type.

Abbreviation call := (recv_call (Q := udp_socket * heap) (D := net_device_val)).

Definition udp0 : udp_socket :=
  UdpSocket UdpExample.opts0 (ReadyQueue [] 0 0 0 0 0 100 0 0 0 0 0) (ReuseInfo ∅ None ([], 0) false false).
Definition start : state :=
  (SockRx ∅ ∅ (new_attr RING_LOGIC_PER_SOCKET) ∅ ∅ (udp0, (∅, [])) {[1 := NetDev ∅ [] [] []]}, ∅).

(** The device makes ring [r]; [id] is the key of the calling thread. *)
Definition answers (r : option Z) (id : Z) (ok : bool) : answers_t :=
  Answers (fun _ => device 1) (fun v => if v =? 1 then r else None) id (fun _ _ => ok).

(** A flow for a port, a stronger one for the same port and one sender, and a
    multicast group. *)
Definition flow3 : flow_tuple_with_local_if := FlowIf (FlowTuple 10 5000 0 0 PROTO_UDP) 10.
Definition flow5 : flow_tuple_with_local_if := FlowIf (FlowTuple 10 5000 20 7 PROTO_UDP) 10.
Definition flow_mc : flow_tuple_with_local_if := FlowIf (FlowTuple 225 5000 0 0 PROTO_UDP) 11.

Definition calls : list call :=
  [r_attach (answers (Some 100) 5 true) flow3; r_attach (answers (Some 100) 5 true) flow5; r_attach (answers (Some 100) 6 true) flow_mc;
   r_migrate (answers (Some 200) 9 true); r_detach flow_mc].

Definition next (c : call) (x : state) : state := match recv_step c x with Ok x => x | _ => x end.

(** What is left of a socket: its flows, resources, rings, and the rings and
    counts of the device. *)
Definition seen (x : state) : list (flow_tuple_with_local_if * Z) * list (Z * net_device_resources_t) * list (Z * Z) * option (list (Z * Z)) :=
  (map_to_list (m_rx_flow_map x.1), map_to_list (m_rx_nd_map x.1), map_to_list (udp_refs (rxq x.1).1), (fun d => (m_h_ring_map d).*2) <$> devs x.1 !! 1).
Definition seen_after (y : res state) : option (list (flow_tuple_with_local_if * Z) * list (Z * net_device_resources_t) * list (Z * Z) * option (list (Z * Z))) :=
  match y with Ok x => Some (seen x) | _ => None end.

(** Both flows move to the new ring, and the old one is gone. *)
Lemma calls_seen : seen_after (recv_run calls start) = Some ([(flow5, 200)], [(10, NdResources 1 1 200)], [(200, 1)], Some [(200, 1)]).
Proof. vm_compute. reflexivity. Qed.

Lemma rings_parents : rings_ok rings.
Proof.
  intros r q Hr. unfold rings in Hr. apply lookup_insert_Some in Hr as [[<- [= <-]]|[_ Hr]]; [by left|]. apply lookup_singleton_Some in Hr as [<- [= <-]]. by left.
Qed.

Lemma start_unattached : unattached owner start.
Proof.
  split; [done|]. split; [done|]. split; [done|]. split; [|split; [done|]].
  - split; [exact rings_parents|]. split; [|split; [done|by intros p ?%not_elem_of_nil]].
    split; [by intros p ?%not_elem_of_nil|by intros p ?%not_elem_of_nil|apply map_Forall_empty|done|done|apply map_Forall_empty].
  - intros v d Hd. cbn [start fst snd devs] in *. apply lookup_singleton_Some in Hd as [<- <-]. rewrite lookup_empty. split; [|apply map_Forall_empty].
    exists (new_attr RING_LOGIC_PER_SOCKET), []. by split; cbn; try done; constructor.
Qed.

Lemma answers_own r id ok v : (r = Some 100 \/ r = Some 200) -> creates_own owner v (create_ring (answers r id ok) v).
Proof.
  intros Hr r'. cbn. destruct (Z.eqb_spec v 1) as [->|]; [|done]. intros ->. split; [|done].
  destruct Hr as [[= ->]|[= ->]]; eexists; (split; [reflexivity|]); (split; [by eexists|done]).
Qed.

Lemma answers_fine r id ok (s : sock_rx (udp_socket * heap) net_device_val) : (r = Some 100 \/ r = Some 200) -> is_Some (devs s !! 1) -> answers_allowed owner (answers r id ok) s.
Proof. intros Hr Hd. split; [by intros v; apply answers_own|]. intros ip v [= <-]. done. Qed.

Lemma room_fine (n : nat) (x : state) : x.2 = ∅ -> Z.of_nat (size (m_rx_nd_map x.1)) + Z.of_nat n < 2 ^ 30 -> Z.of_nat (size (m_rx_flow_map x.1)) + Z.of_nat n < 2 ^ 30 -> room n x.
Proof. intros E H1 H2. split; [|done]. intros v A. by rewrite E, lookup_empty. Qed.

Lemma device_there (s : sock_rx (udp_socket * heap) net_device_val) : bool_decide (is_Some (devs s !! 1)) = true -> is_Some (devs s !! 1).
Proof. apply bool_decide_eq_true. Qed.

Lemma calls_allowed : allowed_recvs owner calls start.
Proof.
  assert (forall c (x x' : state), recv_step c x = Ok x' -> x' = next c x) as Hn by (intros c x x' E; unfold next; by rewrite E).
  split; [split; [apply answers_fine; [by left|apply device_there; vm_compute; reflexivity]|by apply room_fine]|]. intros x1 E1. apply Hn in E1 as ->.
  split; [split; [apply answers_fine; [by left|apply device_there; vm_compute; reflexivity]|apply room_fine; vm_compute; reflexivity]|]. intros x2 E2. apply Hn in E2 as ->.
  split; [split; [apply answers_fine; [by left|apply device_there; vm_compute; reflexivity]|apply room_fine; vm_compute; reflexivity]|]. intros x3 E3. apply Hn in E3 as ->.
  split.
  { split; [apply room_fine; vm_compute; reflexivity|]. split; [intros v; apply answers_own; by right|]. split; [|done]. intros v Hv.
    match type of Hv with _ ∈ dom (devs ?t.1) => assert (dom (devs t.1) = {[1]}) as E by (vm_compute; reflexivity) end.
    rewrite E in Hv. apply elem_of_singleton in Hv as ->. by eexists. }
  intros x4 E4. apply Hn in E4 as ->. split; [|done]. apply room_fine; vm_compute; reflexivity.
Qed.

Definition end_state : state := match recv_run calls start with Ok x => x | _ => start end.

Lemma end_flow : m_rx_flow_map end_state.1 !! flow5 = Some 200.
Proof. vm_compute. reflexivity. Qed.
Lemma end_device : p_ndv <$> m_rx_nd_map end_state.1 !! 10 = Some 1.
Proof. vm_compute. reflexivity. Qed.

Lemma receiver_conserves_witness : exists s others, recv_run calls start = Ok (s, others) /\ m_rx_flow_map s !! flow5 = Some 200 /\
  exists d A c, devs s !! 1 = Some d /\ has_rings d A /\ A !! kv (m_res_key s) = Some (200, c).
Proof.
  destruct (receiver_conserves owner calls start start_unattached calls_allowed) as ([s others] & E & H & _). exists s, others. split; [exact E|].
  assert (s = end_state.1) as Es by (unfold end_state; by rewrite E). pose proof end_flow as Hf. pose proof end_device as Hv. rewrite <- Es in Hf, Hv.
  split; [exact Hf|]. destruct (H flow5 200 Hf) as (nd & d & A & c & Hnd & _ & Hd & HA & Hc). change (m_local_if flow5) with 10 in Hnd. rewrite Hnd in Hv. injection Hv as Hv. rewrite Hv in Hd.
  exists d, A, c. split; [exact Hd|]. split; [exact HA|exact Hc].
Defined.

Lemma receiver_destroyed_witness : exists s', destructor_helper (size (m_rx_flow_map end_state.1)) end_state.1 = Ok s' /\ m_rx_flow_map s' = ∅ /\ steered s' = ∅ /\
  forall d, devs s' !! 1 = Some d -> has_rings d ∅.
Proof.
  destruct (receiver_destroyed owner calls start end_state.1 end_state.2 start_unattached calls_allowed) as (s' & E & H1 & _ & _ & H2 & H3).
  - vm_compute. reflexivity.
  - apply room_fine; vm_compute; reflexivity.
  - exists s'. split; [exact E|]. split; [exact H1|]. split; [exact H2|]. intros d Hd. exact (H3 1 d Hd).
Defined.

(** *** Refusals *)

(** A flow that the ring refused stays in the map of the socket: a second
    attempt is refused as "already attached", and no ring steers the flow. *)
Lemma refused_flow_stays :
  let y := attach_receiver (answers (Some 100) 5 false) flow3 start.1 in
  let z := y ≫= fun x => attach_receiver (answers (Some 100) 5 true) flow3 x.2 in
  match y, z with Ok (b1, _), Ok (b2, s) => (b1, b2, seen (s, ∅), bool_decide (steered s = ∅)) | _, _ => (true, true, seen start, false) end =
  (false, false, ([(flow3, 100)], [(10, NdResources 1 1 100)], [(100, 1)], Some [(100, 1)]), true).
Proof. vm_compute. reflexivity. Qed.

(** When no ring can be reserved, the socket stays registered with the entry
    of the device, also after its end. *)
Lemma observer_stays :
  match attach_receiver (answers None 5 true) flow3 start.1 with
  | Ok (b, s) => match destructor_helper 9 s with Ok s' => Some (b, observed s') | _ => None end
  | _ => None
  end = Some (false, {[10]}).
Proof. vm_compute. reflexivity. Qed.

(** When a migration gets no ring, the flows stay with the old one, but the
    key is the new one: the reservation is never released. *)
Lemma failed_migration_leaks :
  (seen_after (recv_run [r_attach (answers (Some 100) 5 true) flow3; r_migrate (answers None 9 true); r_detach flow3] start)) =
  Some ([], [(10, NdResources 0 1 100)], [], Some [(100, 1)]).
Proof. vm_compute. reflexivity. Qed.

(** When the new ring refuses a flow, the flow stays with the old one, which
    the migration releases nevertheless: the device has deleted it, and the
    new ring is counted for a flow that it does not have. *)
Lemma refused_migration_dangles :
  seen_after (recv_run [r_attach (answers (Some 100) 5 true) flow3; r_migrate (answers (Some 200) 9 false)] start) =
  Some ([(flow3, 100)], [(10, NdResources 1 1 200)], [(100, 1); (200, 1)], Some [(200, 1)]).
Proof. vm_compute. reflexivity. Qed.

End ReceiverExample.
