(* ===== verification/UdpOptions.v ===== *)
(** * Groups, connections and port maps of UDP sockets
      (src/vma/sock/sockinfo_udp.cpp: the options for multicast groups,
      [connect], [bind] and UDP_MAP_ADD)

    A socket joins multicast groups, with a list of senders or without; the
    map of groups and three members decide which packets [inspect_mc_packet]
    of [UdpSocket] lets through.  The table of rules, the devices, the flows
    of [Receiver] and the operating system are answers of the outside. *)

From S2P Require Import Prelude MemBuf FlowSteering RxPath UdpSocket Receiver.

Abbreviation IN_MULTICAST_N := CacheTable.NeighTable.IN_MULTICAST_N.

Inductive mc_option := IP_ADD_MEMBERSHIP | IP_ADD_SOURCE_MEMBERSHIP | IP_DROP_MEMBERSHIP | IP_DROP_SOURCE_MEMBERSHIP.

Record mc_pending_pram := McPram { imr_multiaddr : Z; imr_sourceaddr : Z; optname : mc_option }.

(** [rule_os]: the rules give the group to the operating system; [offloaded]:
    the interface is one of a device; [receiver]: [attach_receiver] or
    [detach_receiver] succeeds; [os_ret]: what the operating system returns. *)
Record mc_answers := McAnswers { rule_os : bool; offloaded : bool; receiver : bool; os_ret : Z }.

Record mc_sock := McSock { mopts : udp_opts; bound_if : Z; m_pending_mreqs : list mc_pending_pram; m_sock_offload : bool }.
Definition set_mopts (o : udp_opts) (s : mc_sock) : mc_sock := McSock o (bound_if s) (m_pending_mreqs s) (m_sock_offload s).
Definition set_pending (l : list mc_pending_pram) (s : mc_sock) : mc_sock := McSock (mopts s) (bound_if s) l (m_sock_offload s).
Definition set_bound_if (i : Z) (s : mc_sock) : mc_sock := McSock (mopts s) i (m_pending_mreqs s) (m_sock_offload s).
Definition setPassthrough (s : mc_sock) : mc_sock := McSock (mopts s) (bound_if s) (m_pending_mreqs s) false.

Definition set_multicast (b : bool) (o : udp_opts) : udp_opts :=
  UdpOpts (bound_port o) (connected_addr o) (connected_port o) (m_is_connected o) b (m_sockopt_mapped o) (m_b_mc_tx_loop o)
    (m_mc_num_grp_with_src_filter o) (m_mc_memberships_map o) (full o) (m_port_map o) (m_port_map_index o) (m_b_closed o) (m_rx_callback o).
Definition set_members (n : Z) (m : gmap Z (gset Z)) (o : udp_opts) : udp_opts :=
  UdpOpts (bound_port o) (connected_addr o) (connected_port o) (m_is_connected o) (m_multicast o) (m_sockopt_mapped o) (m_b_mc_tx_loop o)
    n m (full o) (m_port_map o) (m_port_map_index o) (m_b_closed o) (m_rx_callback o).
Definition set_addresses (port caddr cport : Z) (c : bool) (o : udp_opts) : udp_opts :=
  UdpOpts port caddr cport c (m_multicast o) (m_sockopt_mapped o) (m_b_mc_tx_loop o)
    (m_mc_num_grp_with_src_filter o) (m_mc_memberships_map o) (full o) (m_port_map o) (m_port_map_index o) (m_b_closed o) (m_rx_callback o).
Definition set_mapped (b : bool) (l : list (Z * Z)) (o : udp_opts) : udp_opts :=
  UdpOpts (bound_port o) (connected_addr o) (connected_port o) (m_is_connected o) (m_multicast o) b (m_b_mc_tx_loop o)
    (m_mc_num_grp_with_src_filter o) (m_mc_memberships_map o) (full o) l (m_port_map_index o) (m_b_closed o) (m_rx_callback o).

(** ** Groups *)

(** The limits of the system, as [size_t]: the option may go on, or -1 with
    ENOBUFS. *)
Definition mc_change_membership_start_helper (max_membership max_source_membership : Z) (p : mc_pending_pram) (o : udp_opts) : bool :=
  let m := m_mc_memberships_map o in
  match optname p, m !! imr_multiaddr p with
  | IP_ADD_MEMBERSHIP, None => negb (max_membership <=? Z.of_nat (size m))
  | IP_ADD_SOURCE_MEMBERSHIP, Some srcs => negb (max_source_membership <=? Z.of_nat (size srcs))
  | IP_ADD_SOURCE_MEMBERSHIP, None => negb (max_membership <=? Z.of_nat (size m))
  | _, _ => true
  end.

Definition mc_change_membership_end_helper (p : mc_pending_pram) (o : udp_opts) : udp_opts :=
  let m := m_mc_memberships_map o in
  let n := m_mc_num_grp_with_src_filter o in
  let g := imr_multiaddr p in
  match optname p with
  | IP_ADD_MEMBERSHIP => set_members n (<[g := default ∅ (m !! g)]> m) o
  | IP_ADD_SOURCE_MEMBERSHIP =>
    let srcs := {[imr_sourceaddr p]} ∪ default ∅ (m !! g) in
    set_members (if (size srcs =? 1)%nat then u32 (n + 1) else n) (<[g := srcs]> m) o
  | IP_DROP_MEMBERSHIP => set_members n (delete g m) o
  | IP_DROP_SOURCE_MEMBERSHIP =>
    match m !! g with
    | None => o
    | Some srcs =>
      let srcs := srcs ∖ {[imr_sourceaddr p]} in
      if (size srcs =? 0)%nat then set_members (u32 (n - 1)) (delete g m) o else set_members n (<[g := srcs]> m) o
    end
  end.

(** [operator[]] of the map makes an entry for a group that has none. *)
Definition mc_change_membership (a : mc_answers) (p : mc_pending_pram) (o : udp_opts) : bool * udp_opts :=
  let m := m_mc_memberships_map o in
  let g := imr_multiaddr p in
  if negb (IN_MULTICAST_N g) then (false, o)
  else if rule_os a then (false, o)
  else if negb (offloaded a) then (false, o)
  else
    let answer b o := if receiver a then (true, set_rx_packet_processor (set_multicast b o)) else (false, o) in
    match optname p with
    | IP_ADD_MEMBERSHIP => if (0 <? size (default ∅ (m !! g)))%nat then (false, o) else answer true o
    | IP_ADD_SOURCE_MEMBERSHIP => answer true o
    | IP_DROP_MEMBERSHIP => answer false o
    | IP_DROP_SOURCE_MEMBERSHIP =>
      let srcs := default ∅ (m !! g) in
      let o := set_members (m_mc_num_grp_with_src_filter o) (<[g := srcs]> m) o in
      if (size srcs =? 1)%nat then answer false o else (true, set_rx_packet_processor o)
    end.

Definition mc_change_pending_mreq (p : mc_pending_pram) (l : list mc_pending_pram) : list mc_pending_pram :=
  match optname p with
  | IP_ADD_MEMBERSHIP | IP_ADD_SOURCE_MEMBERSHIP => l ++ [p]
  | IP_DROP_MEMBERSHIP => filter (fun q => imr_multiaddr q <> imr_multiaddr p) l
  | IP_DROP_SOURCE_MEMBERSHIP => filter (fun q => ~ (imr_multiaddr q = imr_multiaddr p /\ imr_sourceaddr q = imr_sourceaddr p)) l
  end.

(** The groups that were joined before the port was known; [l] are answers. *)
Fixpoint handle_pending_mreq (l : list mc_pending_pram) (a : mc_pending_pram -> mc_answers) (s : mc_sock) : mc_sock :=
  match l with
  | [] => set_pending [] s
  | p :: l => handle_pending_mreq l a (if m_sock_offload s then set_mopts (snd (mc_change_membership (a p) p (mopts s))) s else s)
  end.

(** [setsockopt] for the four options, with a value of the right length; the
    interface that it names or that the route finds is part of the answers.
    [None]: the call goes on to the operating system as it is; otherwise the
    value that is returned. *)
Definition setsockopt_membership (max_membership max_source_membership : Z) (a : mc_answers) (p : mc_pending_pram) (s : mc_sock) : option Z * mc_sock :=
  if negb (m_sock_offload s) then (None, s)
  else if negb (IN_MULTICAST_N (imr_multiaddr p)) then (None, s)
  else if negb (mc_change_membership_start_helper max_membership max_source_membership p (mopts s)) then (Some (-1), s)
  else
    let finish s := (Some 0, set_mopts (mc_change_membership_end_helper p (mopts s)) s) in
    let to_os s := if negb (os_ret a =? 0) then (Some (os_ret a), s) else finish s in
    if rule_os a then to_os s
    else if negb (offloaded a) then to_os s
    else if bound_port (mopts s) =? INPORT_ANY then
      if negb (os_ret a =? 0) then (Some (os_ret a), s)
      else finish (set_pending (mc_change_pending_mreq p (m_pending_mreqs s)) s)
    else
      let '(ok, o) := mc_change_membership a p (mopts s) in
      if ok then finish (set_mopts o s) else to_os (set_mopts o s).

(** ** Ports and connections *)

(** What the outside answers: what the operating system returns for the call,
    whether the process exits, the name that [getsockname] finds, whether the
    interface is one of a device, whether [attach_as_uc_receiver] attached a
    flow, which sets the processor, and whether the rules of [connect] leave
    the socket to the library. *)
Record name_answers := NameAnswers {
  na_os_ret : Z;
  na_exit : bool;
  na_sockname : option (Z * Z);
  na_device : bool;
  na_attached : bool;
  na_target_vma : bool;
  na_groups : mc_pending_pram -> mc_answers
}.

Definition attached_as_uc (n : name_answers) (s : mc_sock) : mc_sock :=
  if na_attached n then set_mopts (set_rx_packet_processor (mopts s)) s else s.

Definition on_sockname_change (n : name_answers) (addr port : Z) (s : mc_sock) : mc_sock :=
  let o := mopts s in
  let is_bound_modified := negb (bound_port o =? port) in
  let s := set_bound_if addr (set_mopts (set_addresses port (connected_addr o) (connected_port o) (m_is_connected o) o) s) in
  if is_bound_modified && negb (port =? INPORT_ANY) then
    let s := if (addr =? INADDR_ANY) || na_device n then attached_as_uc n s
             else if IN_MULTICAST_N addr then s
             else setPassthrough s in
    handle_pending_mreq (m_pending_mreqs s) (na_groups n) s
  else s.

(** [getsockname] fails for a socket that is closed. *)
Definition getsockname (n : name_answers) (s : mc_sock) : option (Z * Z) :=
  if m_b_closed (mopts s) || na_exit n then None else na_sockname n.

Definition bind (n : name_answers) (s : mc_sock) : Z * mc_sock :=
  if negb (na_os_ret n =? 0) then (na_os_ret n, s)
  else if m_b_closed (mopts s) || na_exit n then (-1, s)
  else match getsockname n s with
  | None => (-1, s)
  | Some (addr, port) => (0, on_sockname_change n addr port s)
  end.

(** [to] is the address when its family is AF_INET. *)
Definition connect (n : name_answers) (to : option (Z * Z)) (s : mc_sock) : Z * mc_sock :=
  if negb (na_os_ret n =? 0) then (na_os_ret n, s)
  else if m_b_closed (mopts s) || na_exit n then (-1, s)
  else match to with
  | None => (0, s)
  | Some (dst_ip, dst_port) =>
    let named c s := set_mopts (set_addresses (bound_port (mopts s)) dst_ip dst_port c (mopts s)) s in
    match getsockname n s with
    | None => (0, named (m_is_connected (mopts s)) s)
    | Some (addr, port) =>
      let s := on_sockname_change n addr port (named true s) in
      (0, if na_target_vma n then s else setPassthrough s)
    end
  end.

(** ** Port maps *)

(** [fd] is [get_sock_by_L3_L4]. *)
Definition udp_map_add (port : Z) (fd : option Z) (o : udp_opts) : bool * udp_opts :=
  if bool_decide (port ∈ (m_port_map o).*1) then (true, o)
  else match fd with
  | None => (false, o)
  | Some fd =>
    let o' := if bool_decide (m_port_map o = []) then set_rx_packet_processor (set_mapped true [] o) else o in
    (true, set_mapped (m_sockopt_mapped o') (m_port_map o ++ [(port, fd)]) o')
  end.

Fixpoint erase_port (port : Z) (l : list (Z * Z)) : list (Z * Z) :=
  match l with [] => [] | e :: l => if fst e =? port then l else e :: erase_port port l end.

Definition udp_map_remove (port : Z) (o : udp_opts) : udp_opts :=
  if bool_decide (port ∈ (m_port_map o).*1) then
    let l := erase_port port (m_port_map o) in
    if bool_decide (l = []) then set_rx_packet_processor (set_mapped false l o) else set_mapped (m_sockopt_mapped o) l o
  else o.

Lemma erase_port_ports port l : (erase_port port l).*1 `sublist_of` l.*1.
Proof. induction l as [|e l IH]; simpl; [done|]. case_match; simpl; [by apply sublist_cons|by apply sublist_skip]. Qed.

(** The ports of a map differ, so that an entry whose socket is gone is the
    one that [remove_port] of [UdpSocket] erases. *)
Lemma udp_map_distinct port fd o : NoDup (m_port_map o).*1 ->
  NoDup (m_port_map (snd (udp_map_add port fd o))).*1 /\ NoDup (m_port_map (udp_map_remove port o)).*1.
Proof.
  intros Hn. split.
  - unfold udp_map_add. case_bool_decide as Hp; [done|]. destruct fd as [fd|]; [|done]. cbn [snd].
    assert (NoDup (m_port_map o ++ [(port, fd)]).*1) as H.
    { rewrite fmap_app. apply NoDup_app. split; [done|]. split; [|apply NoDup_singleton]. by intros x Hx ->%list_elem_of_singleton. }
    by destruct (bool_decide _).
  - unfold udp_map_remove. case_bool_decide as Hp; [|done]. pose proof (sublist_NoDup _ _ Hn (erase_port_ports port (m_port_map o))) as H. by destruct (bool_decide _).
Qed.

(** ** The filter of senders *)

Section Filter.
Context (max_membership max_source_membership : Z).

Definition sources (g : Z) (o : udp_opts) : gset Z := default ∅ (m_mc_memberships_map o !! g).
Definition filtered_groups (m : gmap Z (gset Z)) : Z := count_if (fun e => e.2 <> ∅) m.

Definition is_add (p : mc_pending_pram) : bool :=
  match optname p with IP_ADD_MEMBERSHIP | IP_ADD_SOURCE_MEMBERSHIP => true | _ => false end.

(** A request, and the groups whose packets rings bring to the socket: a group
    enters with a flow that is attached, and leaves with its entry. *)
Definition mc_step (a : mc_answers) (p : mc_pending_pram) (x : mc_sock * gset Z) : mc_sock * gset Z :=
  let '(ret, s) := setsockopt_membership max_membership max_source_membership a p (fst x) in
  let joined := bool_decide (ret = Some 0) && fst (mc_change_membership a p (mopts (fst x))) && is_add p in
  (s, filter (fun g => is_Some (m_mc_memberships_map (mopts s) !! g)) ((if joined then {[imr_multiaddr p]} else ∅) ∪ snd x)).

(** No other group that rings bring has a list of senders. *)
Definition alone (g : Z) (o : udp_opts) (groups : gset Z) : Prop := forall g', g' ∈ groups -> g' <> g -> sources g' o = ∅.

(** The socket is bound; the operating system refuses a sender that is there
    already and senders for a group that was joined for all; senders that are
    removed are there; a group that is left is [alone].  The code accepts the
    other requests too, and loses filters: see [UdpOptionsExample]. *)
Definition allowed_mc (a : mc_answers) (p : mc_pending_pram) (x : mc_sock * gset Z) : Prop :=
  let o := mopts (fst x) in
  let g := imr_multiaddr p in
  m_sock_offload (fst x) = true /\ bound_port o <> INPORT_ANY /\ m_mc_num_grp_with_src_filter o < 2 ^ 32 - 1 /\
  match optname p with
  | IP_ADD_MEMBERSHIP => True
  | IP_ADD_SOURCE_MEMBERSHIP => imr_sourceaddr p ∈ sources g o \/ g ∈ snd x /\ sources g o = ∅ -> receiver a = false /\ os_ret a <> 0
  | IP_DROP_MEMBERSHIP => alone g o (snd x)
  | IP_DROP_SOURCE_MEMBERSHIP => imr_sourceaddr p ∈ sources g o /\ (sources g o = {[imr_sourceaddr p]} -> alone g o (snd x))
  end.

Record mc_ok (o : udp_opts) (groups : gset Z) : Prop := McOk {
  mo_count : filtered_groups (m_mc_memberships_map o) <= m_mc_num_grp_with_src_filter o < 2 ^ 32;
  mo_flag : forall g, g ∈ groups -> sources g o <> ∅ -> m_multicast o = true;
  mo_proc : processor_ok o;
  mo_map : forall g, g ∈ groups -> is_Some (m_mc_memberships_map o !! g)
}.

Lemma filtered_insert m g srcs : filtered_groups (<[g := srcs]> m) =
  filtered_groups m - (if decide (default ∅ (m !! g) = ∅) then 0 else 1) + (if decide (srcs = ∅) then 0 else 1).
Proof.
  unfold filtered_groups. destruct (m !! g) as [s0|] eqn:E; simpl.
  - rewrite (count_if_update _ m g s0 srcs E). simpl. repeat case_decide; naive_solver lia.
  - rewrite count_if_new by done. simpl. rewrite (decide_True (P := (∅ : gset Z) = ∅)) by done. repeat case_decide; naive_solver lia.
Qed.

Lemma filtered_delete m g : filtered_groups (delete g m) = filtered_groups m - (if decide (default ∅ (m !! g) = ∅) then 0 else 1).
Proof.
  unfold filtered_groups. destruct (m !! g) as [s0|] eqn:E; simpl.
  - rewrite (count_if_delete _ m g s0 E). simpl. repeat case_decide; naive_solver lia.
  - rewrite delete_id by done. rewrite (decide_True (P := (∅ : gset Z) = ∅)) by done. lia.
Qed.

Lemma filtered_pos m g : default ∅ (m !! g) <> ∅ -> 0 < filtered_groups m.
Proof. intros Hg. destruct (m !! g) as [s|] eqn:E; [|done]. by eapply count_if_pos. Qed.

(** What [mc_change_membership] does to the options. *)
Lemma change_spec a p o : (optname p = IP_DROP_SOURCE_MEMBERSHIP -> is_Some (m_mc_memberships_map o !! imr_multiaddr p)) ->
  mc_change_membership a p o = (false, o) \/
  exists b, mc_change_membership a p o = (true, set_rx_packet_processor (set_multicast b o)) /\ (is_add p = true -> b = true /\ receiver a = true) /\
    (optname p = IP_DROP_SOURCE_MEMBERSHIP -> size (sources (imr_multiaddr p) o) <> 1%nat -> b = m_multicast o).
Proof.
  intros Hg. unfold mc_change_membership, is_add, sources in *. destruct (IN_MULTICAST_N (imr_multiaddr p)); cbn [negb]; [|by left]. destruct (rule_os a); [by left|].
  destruct (offloaded a); cbn [negb]; [|by left]. cbv zeta.
  destruct (optname p).
  - destruct (_ <? _)%nat; [by left|]. destruct (receiver a); [|by left]. right. exists true. split; [done|]. split; [done|]. by intros ?.
  - destruct (receiver a); [|by left]. right. exists true. split; [done|]. split; [done|]. by intros ?.
  - destruct (receiver a); [|by left]. right. exists false. split; [done|]. split; [done|]. by intros ?.
  - destruct (Hg eq_refl) as [srcs Hs]. rewrite Hs. change (default ∅ (Some srcs)) with srcs. rewrite insert_id by done. assert (set_members (m_mc_num_grp_with_src_filter o) (m_mc_memberships_map o) o = o) as -> by (by destruct o).
    destruct (Nat.eqb_spec (size srcs) 1).
    + destruct (receiver a); [|by left]. right. exists false. split; [done|]. split; [done|]. by intros _ ?.
    + right. exists (m_multicast o). assert (set_multicast (m_multicast o) o = o) as -> by (by destruct o). split; [done|]. split; done.
Qed.

Lemma end_sources p o g : sources g (mc_change_membership_end_helper p o) =
  if decide (g = imr_multiaddr p) then
    match optname p with
    | IP_ADD_MEMBERSHIP => sources g o
    | IP_ADD_SOURCE_MEMBERSHIP => {[imr_sourceaddr p]} ∪ sources g o
    | IP_DROP_MEMBERSHIP => ∅
    | IP_DROP_SOURCE_MEMBERSHIP => sources g o ∖ {[imr_sourceaddr p]}
    end
  else sources g o.
Proof.
  unfold sources, mc_change_membership_end_helper. cbv zeta. destruct (optname p); cbn.
  - destruct (decide (g = _)) as [->|]; [by rewrite lookup_insert_eq|by rewrite lookup_insert_ne].
  - destruct (decide (g = _)) as [->|]; [by rewrite lookup_insert_eq|by rewrite lookup_insert_ne].
  - destruct (decide (g = _)) as [->|]; [by rewrite lookup_delete_eq|by rewrite lookup_delete_ne].
  - destruct (m_mc_memberships_map o !! imr_multiaddr p) as [srcs|] eqn:E; [|destruct (decide (g = _)) as [->|]; [rewrite E; cbn; set_solver|done]].
    destruct (Nat.eqb_spec (size (srcs ∖ {[imr_sourceaddr p]})) 0) as [Ez|_]; cbn; destruct (decide (g = _)) as [->|].
    + rewrite lookup_delete_eq, E. cbn. apply size_empty_inv in Ez. set_solver.
    + by rewrite lookup_delete_ne.
    + by rewrite lookup_insert_eq, E.
    + by rewrite lookup_insert_ne.
Qed.

Lemma end_rest p o : m_multicast (mc_change_membership_end_helper p o) = m_multicast o /\ (processor_ok o -> processor_ok (mc_change_membership_end_helper p o)) /\
  m_is_connected (mc_change_membership_end_helper p o) = m_is_connected o /\ m_b_mc_tx_loop (mc_change_membership_end_helper p o) = m_b_mc_tx_loop o.
Proof. unfold mc_change_membership_end_helper. cbv zeta. repeat case_match; done. Qed.

Lemma end_count p o : filtered_groups (m_mc_memberships_map o) <= m_mc_num_grp_with_src_filter o < 2 ^ 32 - 1 ->
  (optname p = IP_ADD_SOURCE_MEMBERSHIP -> imr_sourceaddr p ∉ sources (imr_multiaddr p) o) -> (optname p = IP_DROP_SOURCE_MEMBERSHIP -> imr_sourceaddr p ∈ sources (imr_multiaddr p) o) ->
  let o' := mc_change_membership_end_helper p o in filtered_groups (m_mc_memberships_map o') <= m_mc_num_grp_with_src_filter o' < 2 ^ 32.
Proof.
  intros Hn Ha Hd. assert (0 <= filtered_groups (m_mc_memberships_map o)) as Hp by apply count_if_range. unfold mc_change_membership_end_helper, sources in *. cbv zeta. destruct (optname p); cbn.
  - rewrite filtered_insert. lia.
  - specialize (Ha eq_refl). rewrite filtered_insert. set (srcs := default ∅ _) in *. rewrite (decide_False (P := {[imr_sourceaddr p]} ∪ srcs = ∅)) by set_solver.
    rewrite size_union by set_solver. rewrite size_singleton. destruct (decide (srcs = ∅)) as [->|Hs].
    + rewrite size_empty. cbn. rewrite wrap_small by lia. lia.
    + assert (size srcs <> 0%nat) by (intros ?%size_empty_inv; set_solver). destruct (Nat.eqb_spec (1 + size srcs) 1); lia.
  - rewrite filtered_delete. case_decide; lia.
  - specialize (Hd eq_refl). destruct (m_mc_memberships_map o !! imr_multiaddr p) as [srcs|] eqn:E; cbn in Hd; [|set_solver].
    assert (0 < filtered_groups (m_mc_memberships_map o)) by (apply (filtered_pos _ (imr_multiaddr p)); rewrite E; cbn; set_solver).
    destruct (Nat.eqb_spec (size (srcs ∖ {[imr_sourceaddr p]})) 0) as [Ez|Hz]; cbn.
    + rewrite filtered_delete, E. cbn. rewrite decide_False by set_solver. rewrite wrap_small by lia. lia.
    + rewrite filtered_insert, E. cbn. rewrite (decide_False (P := srcs = ∅)) by set_solver. case_decide as He; [rewrite He, size_empty in Hz; done|]. lia.
Qed.

Lemma mc_ok_sub o groups groups' : groups' ⊆ groups -> mc_ok o groups -> mc_ok o groups'.
Proof. intros Hs [H1 H2 H3 H4]. split; [done| |done|]; intros g Hg; [apply H2|apply H4]; set_solver. Qed.

Lemma only_element (z : Z) (X : gset Z) : size X = 1%nat -> z ∈ X -> X = {[z]}.
Proof. intros Hs Hz. apply size_1_elem_of in Hs as [y Hy]. apply leibniz_equiv in Hy. subst X. by apply elem_of_singleton in Hz as ->. Qed.

(** The conclusion of a step: the groups that are left keep the invariant. *)
Definition step_ok (s : mc_sock) (x' : mc_sock * gset Z) : Prop :=
  mc_ok (mopts (fst x')) (snd x') /\ m_is_connected (mopts (fst x')) = m_is_connected (mopts s) /\
  m_b_mc_tx_loop (mopts (fst x')) = m_b_mc_tx_loop (mopts s).

Definition left_groups (p : mc_pending_pram) (joined : bool) (s : mc_sock) (groups : gset Z) : gset Z :=
  filter (fun g => is_Some (m_mc_memberships_map (mopts s) !! g)) ((if joined then {[imr_multiaddr p]} else ∅) ∪ groups).

(** The options of a call that goes through: those of the caller, or with the
    processor for a new value [b] of [m_multicast]. *)
Definition changed (ok b : bool) (o : udp_opts) : udp_opts := if ok then set_rx_packet_processor (set_multicast b o) else o.

Definition change_fits (a : mc_answers) (p : mc_pending_pram) (o : udp_opts) (ok b : bool) : Prop :=
  if ok then (is_add p = true -> b = true /\ receiver a = true) /\
    (optname p = IP_DROP_SOURCE_MEMBERSHIP -> size (sources (imr_multiaddr p) o) <> 1%nat -> b = m_multicast o)
  else b = m_multicast o /\ os_ret a = 0.

Lemma changed_same ok b o : m_mc_memberships_map (changed ok b o) = m_mc_memberships_map o /\
  m_mc_num_grp_with_src_filter (changed ok b o) = m_mc_num_grp_with_src_filter o /\
  m_is_connected (changed ok b o) = m_is_connected o /\ m_b_mc_tx_loop (changed ok b o) = m_b_mc_tx_loop o.
Proof. by destruct ok. Qed.

Lemma changed_flag a p o ok b : processor_ok o -> change_fits a p o ok b -> m_multicast (changed ok b o) = b /\ processor_ok (changed ok b o).
Proof. intros Hp Hf. destruct ok; [done|]. by destruct Hf as [-> _]. Qed.

Lemma sources_changed ok b o g : sources g (changed ok b o) = sources g o.
Proof. unfold sources. by rewrite (proj1 (changed_same ok b o)). Qed.

(** A group with a list of senders that stays or comes keeps the flag. *)
Lemma flag_kept a p s groups ok b g : mc_ok (mopts s) groups -> allowed_mc a p (s, groups) -> change_fits a p (mopts s) ok b ->
  g ∈ groups \/ g = imr_multiaddr p /\ ok && is_add p = true ->
  sources g (mc_change_membership_end_helper p (changed ok b (mopts s))) <> ∅ -> b = true.
Proof.
  intros [_ M2 _ _] (_ & _ & _ & Hal) Hf Hg Hsrc. rewrite end_sources, !sources_changed in Hsrc. unfold change_fits, is_add in *. cbn [fst snd] in *.
  destruct (optname p) eqn:Eop.
  - destruct ok; [destruct Hf as [Hf _]; by destruct (Hf eq_refl)|]. destruct Hf as [-> _]. destruct Hg as [Hg|[_ ?]]; [|done]. apply (M2 g); [done|]. by case_decide.
  - destruct ok; [destruct Hf as [Hf _]; by destruct (Hf eq_refl)|]. destruct Hf as [-> Hret]. destruct Hg as [Hg|[_ ?]]; [|done]. apply (M2 g); [done|].
    destruct (decide (g = imr_multiaddr p)) as [->|]; [|done]. intros Hz. by destruct (Hal (or_intror (conj Hg Hz))).
  - exfalso. destruct (decide (g = imr_multiaddr p)) as [->|Hne]; [done|]. destruct Hg as [Hg|[? _]]; [|done]. by apply Hsrc, (Hal g).
  - destruct Hal as [Hal1 Hal2]. destruct Hg as [Hg|[? Hb]]; [|by rewrite andb_false_r in Hb].
    destruct (decide (size (sources (imr_multiaddr p) (mopts s)) = 1%nat)) as [Hone|Hmany].
    + exfalso. assert (sources (imr_multiaddr p) (mopts s) = {[imr_sourceaddr p]}) as Eone by (by apply only_element).
      destruct (decide (g = imr_multiaddr p)) as [->|Hne]; [by rewrite Eone, difference_diag_L in Hsrc|]. by apply Hsrc, (Hal2 Eone g).
    + assert (b = m_multicast (mopts s)) as -> by (destruct ok; [by apply Hf|by destruct Hf]). apply (M2 g); [done|].
      destruct (decide (g = imr_multiaddr p)) as [->|]; [by intros Ez; rewrite Ez in Hal1; apply elem_of_empty in Hal1|done].
Qed.

Lemma call_through a p s groups ok b : mc_ok (mopts s) groups -> allowed_mc a p (s, groups) -> change_fits a p (mopts s) ok b ->
  let s' := set_mopts (mc_change_membership_end_helper p (changed ok b (mopts s))) s in step_ok s (s', left_groups p (ok && is_add p) s' groups).
Proof.
  intros Hok Hal Hf s'. pose proof Hal as (_ & _ & Hroom & Hal'). cbn [fst snd] in Hroom, Hal'.
  destruct (changed_same ok b (mopts s)) as (E1 & E2 & E3 & E4), (changed_flag a p _ _ _ (mo_proc _ _ Hok) Hf) as [E5 E6].
  destruct (end_rest p (changed ok b (mopts s))) as (R1 & R2 & R3 & R4). unfold step_ok. cbn [fst snd s' set_mopts mopts]. split; [|by rewrite R3, R4].
  split; [|intros g Hg Hsrc| |intros g Hg].
  - apply end_count; rewrite ?E1, ?E2, ?sources_changed; [pose proof (mo_count _ _ Hok); lia| |]; intros E; rewrite E in Hal'; [|by apply Hal'].
    intros Hsrc. destruct (Hal' (or_introl Hsrc)) as [Hr1 Hr2]. unfold change_fits, is_add in Hf. rewrite E in Hf. destruct ok; [|by destruct Hf].
    destruct Hf as [Hf _]. destruct (Hf eq_refl). congruence.
  - rewrite R1, E5. apply (flag_kept a p s groups ok b g); try done. apply elem_of_filter in Hg as [_ Hg]. apply elem_of_union in Hg as [Hg|Hg]; [|by left].
    right. destruct (ok && is_add p); [by apply elem_of_singleton in Hg|by apply elem_of_empty in Hg].
  - by apply R2.
  - by apply elem_of_filter in Hg as [Hg _].
Qed.

Lemma call_stopped p s groups : mc_ok (mopts s) groups -> step_ok s (s, left_groups p false s groups).
Proof. intros Hok. split; [|done]. eapply mc_ok_sub; [|exact Hok]. unfold left_groups. cbn [fst snd]. set_solver. Qed.

(** A request leaves the socket as it is, or goes through. *)
Lemma call_cases a p x : allowed_mc a p x -> mc_ok (mopts (fst x)) (snd x) ->
  exists ret, setsockopt_membership max_membership max_source_membership a p (fst x) = (ret, fst (mc_step a p x)) /\
  (ret <> Some 0 /\ mc_step a p x = (fst x, left_groups p false (fst x) (snd x)) \/
   ret = Some 0 /\ exists ok b, change_fits a p (mopts (fst x)) ok b /\
     let s' := set_mopts (mc_change_membership_end_helper p (changed ok b (mopts (fst x)))) (fst x) in mc_step a p x = (s', left_groups p (ok && is_add p) s' (snd x))).
Proof.
  destruct x as [s groups]. cbn [fst snd]. intros Hal Hok. pose proof Hal as (Hoff & Hport & _ & Hal'). cbn [fst snd] in *.
  assert (optname p = IP_DROP_SOURCE_MEMBERSHIP -> is_Some (m_mc_memberships_map (mopts s) !! imr_multiaddr p)) as Hin.
  { intros E. rewrite E in Hal'. destruct Hal' as [Hal' _]. unfold sources in Hal'. destruct (_ !! _); [by eexists|set_solver]. }
  pose proof (change_spec a p (mopts s) Hin) as Hch. unfold mc_step. cbn [fst snd]. destruct (setsockopt_membership _ _ a p s) as [ret s'] eqn:Ec. exists ret. split; [done|].
  unfold setsockopt_membership in Ec. rewrite Hoff in Ec. cbn [negb] in Ec. destruct (IN_MULTICAST_N (imr_multiaddr p)) eqn:Emc; cbn [negb] in Ec; [|injection Ec as <- <-; by left].
  destruct (mc_change_membership_start_helper _ _ p (mopts s)); cbn [negb] in Ec; [|injection Ec as <- <-; by left]. cbv zeta in Ec. rewrite (proj2 (Z.eqb_neq _ _) Hport) in Ec.
  assert (fst (mc_change_membership a p (mopts s)) = false -> (if negb (os_ret a =? 0) then (Some (os_ret a), s) else (Some 0, set_mopts (mc_change_membership_end_helper p (mopts s)) s)) = (ret, s') ->
    ret <> Some 0 /\ (s', left_groups p (bool_decide (ret = Some 0) && fst (mc_change_membership a p (mopts s)) && is_add p) s' groups) = (s, left_groups p false s groups) \/
    ret = Some 0 /\ exists ok b, change_fits a p (mopts s) ok b /\ let s1 := set_mopts (mc_change_membership_end_helper p (changed ok b (mopts s))) s in
      (s', left_groups p (bool_decide (ret = Some 0) && fst (mc_change_membership a p (mopts s)) && is_add p) s' groups) = (s1, left_groups p (ok && is_add p) s1 groups)) as Hos.
  { intros Hj. rewrite Hj, andb_false_r. destruct (Z.eqb_spec (os_ret a) 0) as [Ez|Hz]; cbn [negb]; intros [= <- <-]; [right|left; split; [congruence|done]]. split; [done|]. by exists false, (m_multicast (mopts s)). }
  assert (rule_os a = true \/ offloaded a = false -> fst (mc_change_membership a p (mopts s)) = false) as Hno.
  { intros Hr. unfold mc_change_membership. rewrite Emc. cbn [negb]. destruct (rule_os a); [done|]. by destruct Hr as [?| ->]. }
  destruct (rule_os a) eqn:Er; [apply Hos; [apply Hno; by left|done]|]. destruct (offloaded a) eqn:Eof; cbn [negb] in Ec; [|apply Hos; [apply Hno; by right|done]].
  destruct Hch as [E|(b & E & H1 & H2)]; rewrite E in Ec, Hos |- *; cbn [fst snd] in *.
  - apply Hos; [done|]. by destruct s.
  - injection Ec as <- <-. right. split; [done|]. exists true, b. by rewrite bool_decide_true.
Qed.

Lemma mc_step_ok a p x : mc_ok (mopts (fst x)) (snd x) -> allowed_mc a p x -> step_ok (fst x) (mc_step a p x).
Proof.
  intros Hok Hal. destruct x as [s groups]. destruct (call_cases a p _ Hal Hok) as (ret & _ & [[_ E]|(_ & ok & b & Hf & E)]); cbv zeta in E; rewrite E; [by apply call_stopped|]. by apply (call_through a).
Qed.

(** ** Runs of requests *)

(** The senders that the requests ask for, where the call returned 0: none
    means all. *)
Definition asked (p : mc_pending_pram) (f : Z -> gset Z) (g : Z) : gset Z :=
  if decide (g = imr_multiaddr p) then
    match optname p with
    | IP_ADD_MEMBERSHIP => f g
    | IP_ADD_SOURCE_MEMBERSHIP => {[imr_sourceaddr p]} ∪ f g
    | IP_DROP_MEMBERSHIP => ∅
    | IP_DROP_SOURCE_MEMBERSHIP => f g ∖ {[imr_sourceaddr p]}
    end
  else f g.

Fixpoint mc_run (l : list (mc_answers * mc_pending_pram)) (x : mc_sock * gset Z) : mc_sock * gset Z :=
  match l with [] => x | (a, p) :: l => mc_run l (mc_step a p x) end.

Fixpoint asked_run (l : list (mc_answers * mc_pending_pram)) (x : mc_sock * gset Z) (f : Z -> gset Z) : Z -> gset Z :=
  match l with
  | [] => f
  | (a, p) :: l =>
    let ret := fst (setsockopt_membership max_membership max_source_membership a p (fst x)) in
    asked_run l (mc_step a p x) (if bool_decide (ret = Some 0) then asked p f else f)
  end.

Fixpoint allowed_mc_run (l : list (mc_answers * mc_pending_pram)) (x : mc_sock * gset Z) : Prop :=
  match l with [] => True | (a, p) :: l => allowed_mc a p x /\ allowed_mc_run l (mc_step a p x) end.

Lemma mc_run_ok l : forall x f, mc_ok (mopts (fst x)) (snd x) -> (forall g, f g = sources g (mopts (fst x))) -> allowed_mc_run l x ->
  step_ok (fst x) (mc_run l x) /\ forall g, asked_run l x f g = sources g (mopts (fst (mc_run l x))).
Proof.
  induction l as [|[a p] l IH]; intros x f Hok Hf Hal; [done|]. destruct Hal as [Ha Hal]. cbn [mc_run asked_run].
  destruct (mc_step_ok a p x Hok Ha) as (Hok' & E1 & E2). destruct (call_cases a p x Ha Hok) as (ret & Er & Hc). rewrite Er. cbn [fst].
  destruct (IH (mc_step a p x) (if bool_decide (ret = Some 0) then asked p f else f)) as [(H1 & H2 & H3) H4]; [done| |done|].
  - intros g. destruct Hc as [[Hne E]|(-> & ok & b & _ & E)]; cbv zeta in E; rewrite E; cbn [fst mopts set_mopts]; [by rewrite bool_decide_false|].
    rewrite bool_decide_true, end_sources, !sources_changed by done. unfold asked. by rewrite !Hf.
  - split; [|exact H4]. split; [done|]. by rewrite H2, H3.
Qed.

(** What the socket says to a packet for a group that rings bring. *)
Lemma verdict_ok d o groups : mc_ok o groups -> m_is_connected o = false -> m_b_mc_tx_loop o = true -> dst_addr d ∈ groups -> IN_MULTICAST_N (dst_addr d) = true ->
  negb (full o) || inspect_full d o = bool_decide (sources (dst_addr d) o = ∅ \/ src_addr d ∈ sources (dst_addr d) o).
Proof.
  intros [M1 M2 M3 M4] Hc Hl Hd Hmc. destruct (M4 _ Hd) as [srcs Hs]. specialize (M2 _ Hd). unfold inspect_full, inspect_mc_packet, processor_ok in *. rewrite Hc, Hl, Hmc, Hs. cbn [negb andb orb] in *.
  assert (sources (dst_addr d) o = srcs) as Es by (unfold sources; by rewrite Hs). rewrite Es in *. destruct (decide (srcs = ∅)) as [Ez|Hne].
  - rewrite (bool_decide_true (srcs = ∅ \/ _)) by (by left). rewrite (bool_decide_true (srcs = ∅)) by done. cbn [negb andb]. destruct (negb (_ =? 0)); rewrite ?andb_false_r; apply orb_true_r.
  - rewrite (M2 Hne), orb_true_r in M3. rewrite M3, (M2 Hne), (bool_decide_false (srcs = ∅)) by done. assert (0 < filtered_groups (m_mc_memberships_map o)) by (apply (filtered_pos _ (dst_addr d)); by rewrite Hs).
    rewrite (proj2 (Z.eqb_neq _ 0)) by lia. cbn [negb andb orb]. rewrite !negb_involutive. apply bool_decide_ext. naive_solver.
Qed.

End Filter.

(** C9: A socket that is bound, not connected and receives what it sends joins
    and leaves groups with and without lists of senders; the operating system
    and the flows may refuse, and refuse a sender that is there already and a
    list of senders for a group that was joined for all.  If a group is left
    only while no other group that rings bring has a list of senders, and only
    senders that are there are dropped ([one_group_for_all],
    [unknown_group_unfilters] and [other_sender_detaches] show what happens
    otherwise), then the packets for a group that rings bring are taken exactly
    when their sender is one of those that the successful requests ask for, or
    when they ask for all. *)
Theorem mc_filter max_membership max_source_membership l s g_b_exit p d q :
  m_mc_memberships_map (mopts s) = ∅ -> m_mc_num_grp_with_src_filter (mopts s) = 0 -> processor_ok (mopts s) ->
  m_is_connected (mopts s) = false -> m_b_mc_tx_loop (mopts s) = true ->
  allowed_mc_run max_membership max_source_membership l (s, ∅) ->
  let x := mc_run max_membership max_source_membership l (s, ∅) in
  let srcs := asked_run max_membership max_source_membership l (s, ∅) (fun _ => ∅) (dst_addr d) in
  dst_addr d ∈ snd x -> IN_MULTICAST_N (dst_addr d) = true -> opts q = mopts (fst x) ->
  rx_input g_b_exit p d q =
    let '(ok, q1) := inspect_uc_packet g_b_exit d q in if ok && bool_decide (srcs = ∅ \/ src_addr d ∈ srcs) then take_packet p d q1 else (false, q1).
Proof.
  intros Hm Hn Hp Hc Hl Hal x srcs Hd Hmc Eq.
  destruct (mc_run_ok max_membership max_source_membership l (s, ∅) (fun _ => ∅)) as [(H1 & H2 & H3) H4]; [|intros g; unfold sources; cbn [fst]; by rewrite Hm|done|].
  { split; cbn [fst snd]; [rewrite Hm, Hn; unfold filtered_groups; by vm_compute|by intros g ?%elem_of_empty|done|by intros g ?%elem_of_empty]. }
  fold x in H1, H2, H3, H4. cbn [fst] in H2, H3. unfold rx_input. destruct (inspect_uc_packet g_b_exit d q) as [ok q1] eqn:E.
  assert (opts q1 = opts q) as -> by (unfold inspect_uc_packet in E; repeat case_match; by injection E as <- <-).
  rewrite Eq, (verdict_ok d _ (snd x)) by (done || congruence). unfold srcs. by rewrite H4.
Qed.

Module UdpOptionsExample.

(** Two groups of senders; the flow of a group is attached by the first
    request, a second one goes to the operating system. *)
Definition g1 : Z := 224.
Definition g2 : Z := 480.
Definition start : mc_sock := McSock UdpExample.opts0 0 [] true.
Definition taken : mc_answers := McAnswers false true true 0.
Definition system : mc_answers := McAnswers false true false 0.
Definition packet (src dst : Z) : rx_desc := RxDesc src 7 dst 5000 1 3 3 (l4_udp 10) 1 0 false.
Definition queue_with (o : udp_opts) : udp_socket := UdpSocket o (queue (UdpExample.sock0 [] 0 0 100)) (reuse (UdpExample.sock0 [] 0 0 100)).
Definition run (l : list (mc_answers * mc_pending_pram)) : mc_sock * gset Z := mc_run 20 10 l (start, ∅).
Definition takes (src dst : Z) (s : mc_sock) : bool := fst (rx_input false 1 (packet src dst) (queue_with (mopts s))).

Definition requests : list (mc_answers * mc_pending_pram) :=
  [(taken, McPram g1 20 IP_ADD_SOURCE_MEMBERSHIP); (system, McPram g1 21 IP_ADD_SOURCE_MEMBERSHIP); (taken, McPram g1 20 IP_DROP_SOURCE_MEMBERSHIP)].

(** A hypothesis on concrete groups that evaluates to false. *)
Ltac refute H := exfalso; revert H; match goal with |- ?P -> False => refine (bool_decide_unpack (~ P) _) end; by vm_compute.

Lemma requests_allowed : allowed_mc_run 20 10 requests (start, ∅).
Proof.
  cbn [allowed_mc_run requests]. split; [|split; [|split; [|done]]]; (split; [done|split; [done|split; [done|]]]).
  - intros [H|[H _]]; refute H.
  - intros [H|[_ H]]; refute H.
  - split; [refine (bool_decide_unpack _ _); by vm_compute|]. intros H; refute H.
Qed.

Lemma mc_filter_witness : takes 20 g1 (fst (run requests)) = false /\ takes 21 g1 (fst (run requests)) = true.
Proof.
  assert (g1 ∈ snd (run requests)) as Hg by (refine (bool_decide_unpack _ _); by vm_compute).
  pose proof (fun src => mc_filter 20 10 requests start false 1 (packet src g1) (queue_with (mopts (fst (run requests))))
    eq_refl eq_refl eq_refl eq_refl eq_refl requests_allowed Hg eq_refl eq_refl) as H.
  unfold takes. rewrite !H. by vm_compute.
Defined.

(** Leaving one group ends the filter of the others: [m_multicast] is one flag
    for all groups. *)
Lemma one_group_for_all :
  let s := fst (run [(taken, McPram g1 20 IP_ADD_SOURCE_MEMBERSHIP); (taken, McPram g2 0 IP_ADD_MEMBERSHIP); (taken, McPram g2 0 IP_DROP_MEMBERSHIP)]) in
  sources g1 (mopts s) = {[20]} /\ takes 99 g1 s = true.
Proof. vm_compute. done. Qed.

(** Dropping a sender of a group that was not joined succeeds, whatever the
    operating system says, and decrements the number of groups with senders. *)
Lemma unknown_group_unfilters :
  let s := fst (run [(taken, McPram g1 20 IP_ADD_SOURCE_MEMBERSHIP)]) in
  let '(ret, s') := setsockopt_membership 20 10 taken (McPram g2 5 IP_DROP_SOURCE_MEMBERSHIP) s in
  takes 99 g1 s = false /\ ret = Some 0 /\ m_mc_num_grp_with_src_filter (mopts s') = 0 /\ takes 99 g1 s' = true.
Proof. vm_compute. done. Qed.

(** Dropping a sender that was never there detaches a group with one sender,
    which stays in the map. *)
Lemma other_sender_detaches :
  let s := fst (run [(taken, McPram g1 20 IP_ADD_SOURCE_MEMBERSHIP)]) in
  let '(ret, s') := setsockopt_membership 20 10 taken (McPram g1 21 IP_DROP_SOURCE_MEMBERSHIP) s in
  ret = Some 0 /\ sources g1 (mopts s') = {[20]} /\ m_multicast (mopts s') = false.
Proof. vm_compute. done. Qed.

(** Leaving a group with senders does not take it from their number. *)
Lemma dropped_group_counted :
  let s := fst (run [(taken, McPram g1 20 IP_ADD_SOURCE_MEMBERSHIP); (taken, McPram g1 0 IP_DROP_MEMBERSHIP)]) in
  m_mc_memberships_map (mopts s) = ∅ /\ m_mc_num_grp_with_src_filter (mopts s) = 1.
Proof. vm_compute. done. Qed.

Definition unbound : mc_sock := McSock (UdpOpts 0 0 0 false false false true 0 ∅ false [] 0 false None) 0 [] true.
Definition named (addr port : Z) : name_answers := NameAnswers 0 false (Some (addr, port)) true true true (fun _ => taken).

(** A socket that is bound before it is connected keeps the short processor,
    and takes packets of senders that it is not connected to; one that is
    connected first does not. *)
Lemma bound_then_connected :
  let s := snd (connect (named 10 5000) (Some (20, 7)) (snd (bind (named 0 5000) unbound))) in
  m_is_connected (mopts s) = true /\ full (mopts s) = false /\ takes 99 10 s = true /\
  takes 99 10 (snd (connect (named 10 5000) (Some (20, 7)) unbound)) = false.
Proof. vm_compute. done. Qed.

(** [connect] with another family leaves the connection as it is. *)
Lemma connection_stays n to s : let s1 := snd (connect n to s) in snd (connect n None s1) = s1.
Proof. cbv zeta. set (s1 := snd (connect n to s)). unfold connect. by repeat case_match. Qed.

End UdpOptionsExample.
